(* ===== verification/_CoqProject ===== *)
-Q . S2P
Prelude.v
Bytes.v
FutexMutex.v
Status.v
CasLoop.v
FrameControl.v
FrameProtocol.v
FrameSafety.v
Layout.v
FreeList.v
PageTable.v
Replacer.v
Clock.v
FrameList.v
Lru.v
TwoQueue.v
Sieve.v
OrderedSet.v
PlanReplacer.v
LruK.v
FlushScheduler.v
Cleaner.v
Interfaces.v
IoEngine.v
FdCache.v
PosixDisk.v
PosixQueue.v
PosixBackend.v
RamFiles.v
Uring.v
UringSafety.v
UringRun.v
Telemetry.v
TelemetryExport.v
TelemetryJson.v
Observation.v
ObservationWords.v
ObservationSafety.v
ObservationReaders.v
ObservationRun.v
Segment.v
SegmentSafety.v
SegmentRun.v
WrittenFiles.v
StateBlocks.v
Kernel.v
Manager.v
AsyncRead.v
Lifecycle.v
BackendFactory.v
KernelInv.v
KernelOps.v
KernelFlush.v
KernelWait.v
KernelFrames.v
KernelProgress.v
KernelWriteback.v
KernelRound.v
KernelPin.v
KernelRead.v
KernelStart.v
KernelClient.v
KernelSweep.v
KernelPrefetch.v
KernelDrop.v
KernelClose.v
MlPrefetch.v
PageCache.v
PageCacheRefine.v
PageCacheRun.v
KernelRefine.v
KernelObserve.v
