(* ===== verification/Prelude.v ===== *)
(** * TelePath: a verified model of the buffer manager and of what is built on it

    ** The program

    TelePath ([src/src/cpp]) is a buffer pool for fixed-size blocks of files.
    A [BufferManager] keeps a pool of frames; clients pin a page, latch it shared
    or exclusive, read or change it, and release it.  Each frame has a 32-bit
    control word with its state, pin count, latch and writeback bits, changed by
    compare-and-swap loops and futex waits.  A striped hash table maps pages to
    frames, a lock-free stack holds the free ones, a replacement policy nominates
    victims.  Dirty pages are written back by flush workers, by a cleaner thread
    and by threads that need a frame; reads ahead go through an I/O engine that
    delivers the completions of a disk backend.  On top are two facades, a
    byte-addressed page cache and a buffer for data read in a planned order; below
    are two backends, POSIX calls with a queue of requests and io_uring rings, over
    a cache of descriptors.  A cache may live in a named segment that several
    processes map.  Counters of events are exported as JSON, to a file or to a
    shared-memory object, and a manager may publish the states of its frames in an
    observation area that other processes read without locks.

    ** The files, and what they model

    Shared: [Prelude] (machine integers, masks, counting over maps), [Bytes] (runs
    of bytes in a block), [Status] ([common/status.h], [Result], [Error], the
    packed writeback error), [CasLoop] and [Interfaces] (below).

    The frame.  [FrameControl] is [lib/buffer/frame_control.h]: every operation as
    the body of its loop on the word, and its refinement of operations on ten
    fields.  [FrameProtocol] is one frame under any number of threads as a step
    relation with its invariant; [FrameSafety] states what it gives.  [FutexMutex]
    is [lib/sync/futex.h].

    Tables.  [Layout] is [common/types.h], [common/block_geometry.h],
    [common/state_layout.h], [lib/buffer/kernel_region.h] and the frame pool;
    [FreeList] is [lib/buffer/frame_free_list.h], alone and under interleaving;
    [PageTable] is [lib/buffer/page_table.{h,cc}].

    Policies ([lib/replacer]).  [Replacer] is the interface and its laws; [Clock],
    [Lru], [TwoQueue], [Sieve], [LruK] and [PlanReplacer] discharge it over
    [FrameList] and [OrderedSet] (the treap of [indexed_ordered_set.h]).

    Writing back.  [FlushScheduler] and [Cleaner] are [flush_scheduler.{h,cc}] and
    [cleaner_controller.{h,cc}].

    The manager.  [Interfaces] states what the manager needs from the table, the
    free list, the policy and the disk, as classes with laws, and gives the
    instances.  [Kernel] is the state of a manager and the state monad its code is
    written in ([None] is a call that never returns); [Manager], [AsyncRead] and
    [Lifecycle] are [lib/buffer/buffer_manager*.cc]: reading, eviction, handles,
    writing back, checkpoints, dropping, prefetching, multi-block reads, creating
    and closing.  Background work is part of the state: queued flush tasks and
    reads in flight are run by [worker_round] and [complete_load], which a client
    may interleave with its calls and which the calls that wait run themselves.
    [KernelInv] is the invariant; [KernelOps] a program logic ([wp]) for the monad;
    [KernelFlush], [KernelWait], [KernelFrames], [KernelProgress],
    [KernelWriteback], [KernelRound], [KernelPin], [KernelRead], [KernelClient],
    [KernelSweep], [KernelPrefetch], [KernelDrop], [KernelClose] and [KernelStart]
    prove the specifications of the operations; [KernelRefine] is the client and
    the theorems.

    Disks.  [IoEngine] is [lib/buffer/io_engine.{h,cc}] as threads over any
    backend; [FdCache], [PosixDisk] and [PosixQueue] are [lib/io/file_descriptor_cache.*],
    [lib/io/disk_request_util.h] and [lib/io/posix_disk_backend.*] over a system
    given by its calls ([FdCache.Posix], [FdCache.PosixLaws]); [PosixBackend]
    makes the POSIX backend an instance of the manager's disk and of the page
    cache's files, [PosixQueue] of the engine's backend; [BackendFactory] is
    [lib/io/disk_backend_factory.cc].  [Uring] is [lib/io/io_uring_disk_backend.*]:
    contexts as a heap, rings as the entries queued, taken and answered, and the
    code of [Submit], [Reap] and [Shutdown] access by access; what the system
    answers is arbitrary.  [UringSafety] is its invariant, [UringRun] its runs.
    [RamFiles] is a system in memory with short,
    interrupted and failing transfers, for the runs.

    Facades.  [PageCache] is [lib/facade/page_cache.cc], [PageCacheRefine] its
    refinement of files of bytes, [PageCacheRun] a run of the whole stack;
    [MlPrefetch] is [lib/facade/ml_prefetch_buffer.cc].

    Other processes.  [Segment] is [lib/buffer/shared_segment.{h,cc}]: objects and
    the name that refers to one of them, and every process that opens, initializes,
    uses, leaves or dies, access by access; [SegmentSafety] is its invariant,
    [SegmentRun] its runs.  [StateBlocks] is the memory of the policies of
    [lib/replacer] ([LayoutFor], [Place], [BindSharedState]) and the segment's place
    for it.  [Telemetry] is [telemetry/telemetry_sink.h], the sinks
    of [lib/telemetry] and [buffer_manager_observer.cc]; [TelemetryExport] is
    [telemetry_export.cc] and [shared_memory_telemetry.cc], with objects and files
    as maps from their names, [TelemetryJson] what a document tells.
    [Observation] is [observation/observation_format.h],
    [observation_publisher.{h,cc}] and the callback of [StartObservation]:
    publishers, readers and locks of one object, word by word;
    [ObservationWords] is what a publication leaves behind, [ObservationSafety]
    and [ObservationReaders] are the invariants of writers and readers,
    [ObservationRun] the runs.  [WrittenFiles] is the lists of files to sync, local
    and shared, of [buffer_manager_lifecycle.cc].  [KernelObserve] is [ExportSnapshot] and what a
    manager publishes.

    ** What the theorems show

    - The manager refines a page store, every call returns, the descriptors stay
      well typed, closing stores everything ([KernelRefine]).
    - The page cache refines files of bytes and closing stores them, up to the first
      [Truncate] that fails ([PageCacheRefine]); the prefetch buffer serves its plan
      ([MlPrefetch]).
    - One frame, any interleaving: latches exclude, readers see committed
      contents, pins keep pages, eviction loses nothing of the frame's page, sleepers
      are woken except in the case stated ([FrameSafety]); the word-level code acts on its fields
      independently ([FrameControl]).
    - The free list is linearizable while no thread keeps a loaded head across 2^32
      operations; the table maps a page to one live frame; each
      policy nominates what its definition says; placement, bounds and round trips
      of the layout and the packed error.
    - Writing back: no starvation, budgets, the cleaner's queue, and when the cleaner
      thread spins.
    - I/O: completions run exactly once in the engine and in the POSIX backend,
      sleepers are woken, requests transfer exactly their blocks, descriptors in
      use stay open, the factory chooses as documented; the futex mutex excludes.
    - The io_uring backend uses contexts and descriptors only while they live, and
      loses no request, when calls of [Reap] do not overlap ([UringSafety]); when
      they do, it can use a deleted context ([UringRun]).
    - Processes that have a cache open under one name share one segment, made for
      their configuration ([SegmentSafety]); removing a name in use can separate
      later ones ([SegmentRun.segment_wrong_name]).
    - The arrays of every policy and the regions of a segment are aligned and do not
      overlap, and the policy accepts its place ([StateBlocks]).
    - Publishers of the observation area exclude each other wherever they die
      ([ObservationSafety]); readers accept complete publications only, when no
      publisher dies in the middle of one ([ObservationReaders]), and can accept
      others after that ([ObservationRun]); what a manager publishes describes its
      pool ([KernelObserve]).
    - No file written since its last sync is forgotten unless a process dies with it;
      a sync that runs alone makes everything durable that no other process holds,
      and one that runs beside another can report success too early
      ([WrittenFiles]).
    - A snapshot of the counters counts what was recorded before it and nothing
      later than its end ([Telemetry.telemetry_snapshot_counts]); exported
      documents round-trip through shared memory and determine their snapshot.

    ** Bounds, fuel and hypotheses

    Loops the code bounds by data are structural or run on a measure; loops that
    wait run the work they wait for.  [wait_fuel] is twice the queued tasks plus
    three: every round of a worker removes a task.  A transfer loop has
    [io_fuel], the bytes plus the signals still to come plus one: every iteration
    moves a byte or takes a signal.  Eviction of descriptors has one more step
    than entries.  Where fuel could run out the result is [None], and the theorems
    say that it does not.

    A manager is created for at most 2^31 frames, since above that the page table
    confuses a bucket with its sentinel ([PageTable.bucket_sentinel_collision]).
    Termination asks for a policy that does not miss an evictable frame
    ([steady_policy]; the clock hands would have to wrap around 2^64).
    [scope] is the set of pages a client may ask for, [addressable] those whose
    byte offset fits 64 bits, [page_fits] the pages of one block.  The page cache
    is specified for positions and sizes a block below 2^64, and for clients that stop
    when a [Truncate] fails: the code then keeps the size but has dropped pages, and
    nothing is promised.  Blocks of policy state are specified for fewer than 2^32
    frames, 2^16 remembered accesses and 2^59 bytes of kernel region.  A worker's
    burst is bounded by the limit, per background task it takes.  The count of attached
    processes has 32 bits, so the segment is specified for fewer than 2^32 - 1 of
    them; the sequence of an observation area has 64, so readers are specified for
    fewer than 2^63 - 1 publications.

    ** Not modelled

    Setting io_uring rings up and what the system writes through them, [Submit] of
    io_uring without requests, the start time of a process, starting and joining
    threads, a failing I/O engine under the manager ([EnterFailedState] is a
    definition and [KernelClose.close_failed] is about a failed manager at rest, but
    no run enters that state), a process that dies inside a section under a latch,
    memory orders weaker than interleaving, C++ object lifetimes other than those of
    io_uring contexts.  A manager runs in one process: the segment is modelled by
    itself, not under the manager.
    The manager is sequential with background work as above; one frame is concurrent,
    with other frames as what they may do to the pages they hold; that many clients
    of one manager interleave as one frame does is not proved. *)
From Stdlib Require Export ZArith Lia.
From stdpp Require Export base tactics list gmap relations functions.
#[global] Open Scope Z_scope.
#[export] Set Default Goal Selector "!".

(** ** Machine integers

    A [uintN_t] value is a [Z] in [0, 2^N); an operation that can leave that
    range is written with its wrap-around. *)

Definition u32_mod : Z := 2 ^ 32.
Definition u64_mod : Z := 2 ^ 64.
Definition u32 (z : Z) : Z := z mod u32_mod.
Definition u64 (z : Z) : Z := z mod u64_mod.
Definition u32_not (z : Z) : Z := u32 (Z.lnot z).
Definition u64_not (z : Z) : Z := u64 (Z.lnot z).
Definition is_u32 (z : Z) : Prop := 0 <= z < u32_mod.
Definition is_u64 (z : Z) : Prop := 0 <= z < u64_mod.
Definition b2z (b : bool) : Z := if b then 1 else 0.

(** Arithmetic with divisions by constants. *)
Ltac zdiv_lia := Z.to_euclidean_division_equations; lia.

Create HintDb telepath.
Create Rewrite HintDb words.

Lemma b2z_bound b : 0 <= b2z b <= 1.
Proof. destruct b; simpl; lia. Qed.

Lemma u32_small z : is_u32 z -> u32 z = z.
Proof. apply Z.mod_small. Qed.

Lemma u64_small z : is_u64 z -> u64 z = z.
Proof. apply Z.mod_small. Qed.

Lemma u32_range z : is_u32 (u32 z).
Proof. apply Z.mod_pos_bound. reflexivity. Qed.

Lemma u64_range z : is_u64 (u64 z).
Proof. apply Z.mod_pos_bound. reflexivity. Qed.

#[export] Hint Resolve b2z_bound u32_range u64_range : telepath.

(** Masking with a contiguous field of [l] bits at offset [o]. *)
Lemma land_field w o l :
  0 <= o -> 0 <= l ->
  Z.land w (Z.shiftl (Z.ones l) o) = (w / 2 ^ o) mod 2 ^ l * 2 ^ o.
Proof.
  intros Ho Hl.
  rewrite <- Z.land_ones, <- Z.shiftr_div_pow2, <- Z.shiftl_mul_pow2 by lia.
  apply Z.bits_inj'; intros i Hi.
  rewrite Z.land_spec, !Z.shiftl_spec by lia.
  destruct (decide (i < o)) as [Hlt|Hge].
  - rewrite (Z.testbit_neg_r (Z.ones l)), (Z.testbit_neg_r (Z.land _ _)) by lia.
    apply andb_false_r.
  - rewrite Z.land_spec, Z.shiftr_spec by lia. do 2 f_equal; lia.
Qed.

Lemma lor_add a b : Z.lor a b = a + b - Z.land a b.
Proof. pose proof (Z.add_lor_land a b); lia. Qed.

(** Clearing the bits of a mask in an unsigned word subtracts the masked part. *)
Lemma land_not w m n :
  0 <= n -> 0 <= w < 2 ^ n -> Z.land w (Z.lnot m mod 2 ^ n) = w - Z.land w m.
Proof.
  intros Hn Hw.
  rewrite <- Z.land_ones by lia.
  rewrite (Z.land_comm (Z.lnot m)), Z.land_assoc, (Z.land_ones w) by lia.
  rewrite Z.mod_small by lia.
  rewrite <- Z.ldiff_land, Z.sub_nocarry_ldiff.
  - apply Z.bits_inj'; intros i Hi.
    rewrite !Z.ldiff_spec, Z.land_spec.
    by destruct (Z.testbit w i), (Z.testbit m i).
  - apply Z.bits_inj'; intros i Hi.
    rewrite Z.ldiff_spec, Z.land_spec, Z.bits_0.
    by destruct (Z.testbit w i), (Z.testbit m i).
Qed.

Lemma land_u32_not w m : is_u32 w -> Z.land w (u32_not m) = w - Z.land w m.
Proof. intros Hw. apply land_not; [lia|exact Hw]. Qed.

Lemma land_u64_not w m : is_u64 w -> Z.land w (u64_not m) = w - Z.land w m.
Proof. intros Hw. apply land_not; [lia|exact Hw]. Qed.

(** Masking with a union of disjoint masks. *)
Lemma land_lor_disjoint w a b :
  Z.land a b = 0 -> Z.land w (Z.lor a b) = Z.land w a + Z.land w b.
Proof.
  intros Hab. rewrite Z.land_lor_distr_r, lor_add.
  rewrite (Z.land_comm w a), <- Z.land_assoc, (Z.land_assoc w), Z.land_diag.
  rewrite (Z.land_comm w b), Z.land_assoc, Hab, Z.land_0_l. lia.
Qed.

(** A value below [2^k] and a multiple of [2^k] share no bit. *)
Lemma land_low_high a b k : 0 <= k -> 0 <= a < 2 ^ k -> Z.land a (b * 2 ^ k) = 0.
Proof.
  intros Hk Ha. rewrite <- (Z.mod_small a (2 ^ k)) by lia.
  rewrite <- Z.land_ones, <- Z.land_assoc, (Z.land_comm (Z.ones k)), Z.land_ones by lia.
  by rewrite Z.mod_mul, Z.land_0_r by lia.
Qed.

Lemma lor_low_high a b k : 0 <= k -> 0 <= a < 2 ^ k -> Z.lor a (b * 2 ^ k) = a + b * 2 ^ k.
Proof. intros Hk Ha. rewrite lor_add, land_low_high by lia. lia. Qed.

(** Clearing a union of masks clears one after the other. *)
Lemma u32_not_lor a b : u32_not (Z.lor a b) = Z.land (u32_not a) (u32_not b).
Proof.
  unfold u32_not, u32, u32_mod. rewrite <- !Z.land_ones by lia.
  apply Z.bits_inj'; intros i Hi.
  rewrite !Z.land_spec, !Z.lnot_spec, Z.lor_spec, negb_orb by lia.
  by destruct (Z.testbit a i), (Z.testbit b i), (Z.testbit (Z.ones 32) i).
Qed.

Lemma land_le a m : 0 <= m -> Z.land a m <= m.
Proof.
  intros Hm. pose proof (Z.lor_ldiff_and m a) as E. rewrite lor_add in E.
  assert (Z.land (Z.ldiff m a) (Z.land m a) = 0) as E0.
  { apply Z.bits_inj'; intros i Hi. rewrite !Z.land_spec, Z.ldiff_spec, Z.bits_0.
    by destruct (Z.testbit m i), (Z.testbit a i). }
  assert (0 <= Z.ldiff m a) by (apply Z.ldiff_nonneg; by left).
  rewrite (Z.land_comm a). lia.
Qed.

(** ** Counting over a finite map

    [total f m] adds [f] over the values of [m]; it turns "the number of threads
    holding a pin" into arithmetic. *)
Section Total.
Context {K A : Type} `{Countable K}.

Definition total (f : A -> Z) (m : gmap K A) : Z := map_fold (fun _ a n => f a + n) 0 m.

Lemma total_insert_new f m k a : m !! k = None -> total f (<[k:=a]> m) = f a + total f m.
Proof.
  intros Hk. unfold total. apply (map_fold_insert_L (fun _ a n => f a + n)); [|done].
  intros. lia.
Qed.

Lemma total_delete f m k a : m !! k = Some a -> total f m = f a + total f (delete k m).
Proof. intros Hk. unfold total. apply (map_fold_delete_L (fun _ a n => f a + n)); [|done]. intros. lia. Qed.

(** Replacing one value moves the total by the difference. *)
Lemma total_update f m k a b :
  m !! k = Some a -> total f (<[k:=b]> m) = total f m - f a + f b.
Proof.
  intros Hk. rewrite <- insert_delete_eq, total_insert_new by apply lookup_delete_eq.
  rewrite (total_delete f m k a Hk). lia.
Qed.

Lemma total_nonneg f m : (forall a, 0 <= f a) -> 0 <= total f m.
Proof.
  intros Hf. induction m as [|k a m Hk _ IH] using map_first_key_ind; [done|].
  rewrite total_insert_new by done. specialize (Hf a). lia.
Qed.

Lemma total_ge f m k a : (forall a, 0 <= f a) -> m !! k = Some a -> f a <= total f m.
Proof.
  intros Hf Hk. rewrite (total_delete f m k a Hk).
  pose proof (total_nonneg f (delete k m) Hf). lia.
Qed.

Lemma total_ge2 f m j k a b :
  (forall a, 0 <= f a) -> j <> k -> m !! j = Some a -> m !! k = Some b ->
  f a + f b <= total f m.
Proof.
  intros Hf Hne Hj Hk. rewrite (total_delete f m j a Hj).
  assert (f b <= total f (delete j m)); [|lia].
  apply (total_ge f _ k); [done|]. by rewrite lookup_delete_ne.
Qed.

Lemma total_fmap f (g : A -> A) m : (forall a, f (g a) = f a) -> total f (g <$> m) = total f m.
Proof.
  intros Hg. induction m as [|k a m Hk _ IH] using map_first_key_ind.
  - by rewrite fmap_empty.
  - rewrite fmap_insert, !total_insert_new by (by rewrite ?lookup_fmap, ?Hk). by rewrite IH, Hg.
Qed.

(** A total of nonnegative numbers is zero or has a positive summand. *)
Lemma total_none f m : (forall a, 0 <= f a) -> total f m = 0 \/ exists k a, m !! k = Some a /\ 0 < f a.
Proof.
  intros Hf. induction m as [|k a m Hk _ IH] using map_first_key_ind; [by left|]. rewrite total_insert_new by done.
  destruct (decide (f a = 0)) as [E|E].
  - destruct IH as [?|(j & b & Hj & Hb)]; [left; lia|]. right. exists j, b. split; [|done]. rewrite lookup_insert_ne; [done|congruence].
  - right. exists k, a. rewrite lookup_insert_eq. split; [done|]. specialize (Hf a). lia.
Qed.

Lemma total_zero f m : (forall k a, m !! k = Some a -> f a = 0) -> total f m = 0.
Proof.
  induction m as [|k a m Hk _ IH] using map_first_key_ind; intros Hz; [done|].
  rewrite total_insert_new, IH by (try done; intros j b Hj; apply (Hz j);
    rewrite lookup_insert_ne by congruence; done).
  rewrite (Hz k a) by apply lookup_insert_eq. lia.
Qed.

End Total.

(** ** Lists without an element *)

Definition without (f : Z) (l : list Z) : list Z := filter (fun g => g <> f) l.

Lemma elem_of_without f g l : g ∈ without f l <-> g <> f /\ g ∈ l.
Proof. unfold without. by rewrite list_elem_of_filter. Qed.

Lemma without_notin f l : f ∉ l -> without f l = l.
Proof.
  induction l as [|g l IH]; [done|]. intros Hf. apply not_elem_of_cons in Hf as [? Hf].
  unfold without in *. rewrite filter_cons_True by done. by rewrite IH.
Qed.

Lemma without_middle f l1 l2 : f ∉ l1 -> f ∉ l2 -> without f (l1 ++ f :: l2) = l1 ++ l2.
Proof.
  intros H1 H2. unfold without. rewrite list.filter_app, filter_cons_False by auto.
  fold (without f l1) (without f l2). by rewrite !without_notin.
Qed.

(** Distinct numbers below [n] are at most [n]. *)
Lemma nodup_length (l : list Z) n :
  NoDup l -> (forall f, f ∈ l -> 0 <= f < n) -> (length l <= Z.to_nat n)%nat.
Proof.
  intros Hnd Hl. rewrite <- (length_fmap Z.to_nat l), <- (length_seq (Z.to_nat n) 0).
  apply submseteq_length, NoDup_submseteq.
  - apply NoDup_fmap_2_strong; [|done]. intros x y Hx Hy E.
    pose proof (Hl x Hx). pose proof (Hl y Hy). lia.
  - intros k Hk. apply list_elem_of_fmap in Hk as (f & -> & Hf). apply elem_of_seq.
    pose proof (Hl f Hf). lia.
Qed.

