(* ===== verification/Bytes.v ===== *)
(** Runs of bytes inside a block: slices, replacing part of a block, cutting it. *)
From Stdlib Require Import Strings.Byte.
From S2P Require Import Prelude.

(** [n] bytes from byte [i] on. *)
Definition slice (i n : Z) (p : list byte) : list byte := take (Z.to_nat n) (drop (Z.to_nat i) p).

(** [memcpy] of [d] to byte [i] of a page. *)
Definition splice (i : Z) (d p : list byte) : list byte :=
  take (Z.to_nat i) p ++ d ++ drop (Z.to_nat i + length d) p.

(** The first [i] bytes of a page of [bs] bytes, the rest zero. *)
Definition cut (bs i : Z) (p : list byte) : list byte := take (Z.to_nat i) p ++ replicate (Z.to_nat bs - Z.to_nat i) x00.

Lemma nth_splice i d p j : (Z.to_nat i + length d <= length p)%nat -> 0 <= i ->
  nth j (splice i d p) x00 = if decide (Z.to_nat i <= j < Z.to_nat i + length d)%nat then nth (j - Z.to_nat i) d x00 else nth j p x00.
Proof.
  intros Hl Hi. unfold splice. rewrite !nth_lookup. destruct (decide _) as [Hj|Hj].
  - rewrite lookup_app_r, length_take_le by (rewrite ?length_take; lia). rewrite lookup_app_l by lia. done.
  - destruct (decide (j < Z.to_nat i)%nat).
    + rewrite lookup_app_l by (rewrite length_take; lia). by rewrite lookup_take_lt.
    + rewrite lookup_app_r, length_take_le by (rewrite ?length_take; lia). rewrite lookup_app_r by lia. rewrite lookup_drop.
      do 2 f_equal. lia.
Qed.

Lemma length_splice i d p : (Z.to_nat i + length d <= length p)%nat -> length (splice i d p) = length p.
Proof. intros Hl. unfold splice. rewrite !length_app, length_take, length_drop. lia. Qed.

Lemma seqZ_app q a b : 0 <= a -> 0 <= b -> seqZ q a ++ seqZ (q + a) b = seqZ q (a + b).
Proof. intros Ha Hb. by rewrite seqZ_app. Qed.

Lemma slice_length i n (d : list byte) : 0 <= i -> 0 <= n -> i + n <= Z.of_nat (length d) -> length (slice i n d) = Z.to_nat n.
Proof. intros. unfold slice. rewrite length_take, length_drop. lia. Qed.

Lemma slice_app (d : list byte) a n : 0 <= a -> 0 <= n -> slice 0 a d ++ slice a n d = slice 0 (a + n) d.
Proof.
  intros Ha Hn. unfold slice. cbn. rewrite !drop_0. rewrite Z2Nat.inj_add by lia. by rewrite take_take_drop.
Qed.

Lemma cut_all bs i p : length p = Z.to_nat bs -> bs <= i -> cut bs i p = p.
Proof. intros Hl Hi. unfold cut. rewrite take_ge by lia. replace (Z.to_nat bs - Z.to_nat i)%nat with 0%nat by lia. apply app_nil_r. Qed.

Lemma length_cut bs i p : (i <= 0 \/ length p = Z.to_nat bs) -> length (cut bs i p) = Z.to_nat bs.
Proof. intros Hl. unfold cut. rewrite length_app, length_take, length_replicate. lia. Qed.

Lemma nth_cut bs i p j : (i <= 0 \/ length p = Z.to_nat bs) -> (j < Z.to_nat bs)%nat ->
  nth j (cut bs i p) x00 = if decide (Z.of_nat j < i) then nth j p x00 else x00.
Proof.
  intros Hl Hj. unfold cut. rewrite !nth_lookup. destruct (decide _) as [Hji|Hji].
  - rewrite lookup_app_l by (rewrite length_take; lia). by rewrite lookup_take_lt by lia.
  - rewrite lookup_app_r by (rewrite length_take; lia). rewrite length_take, lookup_replicate_2 by lia. done.
Qed.

Lemma cut_idem bs i p : 0 <= i -> length p = Z.to_nat bs -> cut bs i (cut bs i p) = cut bs i p.
Proof.
  intros Hi Hl. unfold cut at 1. destruct (decide (bs <= i)).
  - rewrite (cut_all bs i p) by done. rewrite take_ge by lia. replace (Z.to_nat bs - Z.to_nat i)%nat with 0%nat by lia. apply app_nil_r.
  - unfold cut. rewrite take_app_length' by (rewrite length_take; lia). done.
Qed.
