(* ===== verification/FutexMutex.v ===== *)
(** The mutex in one futex word: [lib/sync/futex.h].

    [mstep] is the code of one thread, one atomic access or one futex call at a
    time; any number of threads lock, try to lock and unlock in any interleaving.
    [FUTEX_WAIT] sleeps only if the word has the expected value, [FUTEX_WAKE] wakes
    one sleeper, and sleepers may wake by themselves.  The theorem: at most one
    thread holds the mutex, the word says whether one does, and while a thread
    sleeps the holder will see that there are waiters or another thread is on its
    way to wake it or to mark the word. *)
From S2P Require Import Prelude.

Inductive mpc :=
  | MLock            (* [lock]: the first exchange *)
  | MSwap            (* [word_.exchange(2)] *)
  | MWait            (* [FutexWait(word_, 2)] *)
  | MSleep
  | MTry             (* [try_lock] *)
  | MHeld
  | MUnlock          (* [word_.exchange(0)] *)
  | MWake            (* [FutexWakeOne(word_)] *)
  | MOut (locked : bool).

(** The next point of a thread, the word after its access, and whether it wakes
    one sleeper.  [MSleep], [MHeld] and [MOut] wait for something else. *)
Definition mstep (t : mpc) (word : Z) : option (mpc * Z * bool) :=
  match t with
  | MLock => Some (if word =? 0 then (MHeld, 1, false) else (if word =? 2 then MWait else MSwap, word, false))
  | MSwap => Some (if word =? 0 then MHeld else MWait, 2, false)
  | MWait => Some (if word =? 2 then MSleep else MSwap, word, false)
  | MTry => Some (if word =? 0 then (MHeld, 1, false) else (MOut false, word, false))
  | MUnlock => Some (if word =? 2 then MWake else MOut true, 0, false)
  | MWake => Some (MOut true, word, true)
  | MSleep | MHeld | MOut _ => None
  end.

Record mutex_system := MSystem { m_word : Z; m_threads : gmap nat mpc }.

(** The threads after a wake-up of at most one sleeper. *)
Inductive one_woken : bool -> gmap nat mpc -> gmap nat mpc -> Prop :=
  | wake_not ts : one_woken false ts ts
  | wake_one ts j : ts !! j = Some MSleep -> one_woken true ts (<[j := MSwap]> ts)
  | wake_nobody ts : (forall j, ts !! j <> Some MSleep) -> one_woken true ts ts.

Inductive mutex_step : mutex_system -> mutex_system -> Prop :=
  | mutex_thread s i t t' w wake ts' :
      m_threads s !! i = Some t -> mstep t (m_word s) = Some (t', w, wake) -> one_woken wake (<[i := t']> (m_threads s)) ts' ->
      mutex_step s (MSystem w ts')
  | mutex_spurious s i : m_threads s !! i = Some MSleep -> mutex_step s (MSystem (m_word s) (<[i := MSwap]> (m_threads s)))
  | mutex_call s i t b :
      (m_threads s !! i = None \/ m_threads s !! i = Some (MOut b)) -> t = MLock \/ t = MTry ->
      mutex_step s (MSystem (m_word s) (<[i := t]> (m_threads s)))
  | mutex_release s i : m_threads s !! i = Some MHeld -> mutex_step s (MSystem (m_word s) (<[i := MUnlock]> (m_threads s))).

Definition mutex_start : mutex_system := MSystem 0 ∅.
Definition mutex_reachable (s : mutex_system) : Prop := rtc mutex_step mutex_start s.

Definition m_holds (t : mpc) : Z := match t with MHeld | MUnlock => 1 | _ => 0 end.
Definition m_sleeps (t : mpc) : Z := match t with MSleep => 1 | _ => 0 end.
(** About to wake a sleeper, or to mark that there are waiters. *)
Definition m_helps (t : mpc) : Z := match t with MSwap | MWake => 1 | _ => 0 end.

Record minv (s : mutex_system) : Prop := {
  m_holders : total m_holds (m_threads s) = if m_word s =? 0 then 0 else 1;
  m_values : 0 <= m_word s <= 2;
  m_heard : 0 < total m_sleeps (m_threads s) -> m_word s = 2 \/ 0 < total m_helps (m_threads s)
}.

Lemma m_signs t : 0 <= m_holds t /\ 0 <= m_sleeps t /\ 0 <= m_helps t.
Proof. destruct t; cbn; lia. Qed.

Lemma woken_one_counts wake ts ts' : one_woken wake ts ts' ->
  total m_holds ts' = total m_holds ts /\ total m_sleeps ts' <= total m_sleeps ts /\ total m_helps ts <= total m_helps ts' /\
  (wake = true -> 0 < total m_sleeps ts' -> 0 < total m_helps ts').
Proof.
  assert (forall f, (forall t, 0 <= f t) -> 0 <= total f ts) as Hp by (intros f Hf; by apply total_nonneg).
  pose proof (Hp m_helps ltac:(intros; apply m_signs)). pose proof (Hp m_sleeps ltac:(intros; apply m_signs)).
  destruct 1 as [ts|ts j Hj|ts Hno].
  - split_and!; try done; lia.
  - rewrite !(total_update m_holds ts j MSleep), !(total_update m_sleeps ts j MSleep), !(total_update m_helps ts j MSleep) by done. cbn. lia.
  - split_and!; try done; try lia. intros _ Hs. rewrite (total_zero m_sleeps) in Hs; [lia|]. intros k t Hk. destruct t; try done. by destruct (Hno k).
Qed.

(** The counts when one thread moves. *)
Lemma minv_move s i t t' w :
  minv s -> m_threads s !! i = Some t -> 0 <= w <= 2 ->
  m_holds t' - m_holds t = (if w =? 0 then 0 else 1) - (if m_word s =? 0 then 0 else 1) ->
  (0 < total m_sleeps (m_threads s) - m_sleeps t + m_sleeps t' -> w = 2 \/ 0 < total m_helps (m_threads s) - m_helps t + m_helps t') ->
  minv (MSystem w (<[i := t']> (m_threads s))).
Proof.
  intros [I1 I2 I3] Hi Hw Hh Hs. split; cbn [m_word m_threads]; rewrite ?(total_update m_holds _ i t), ?(total_update m_sleeps _ i t), ?(total_update m_helps _ i t) by done; [lia|done|done].
Qed.

Lemma minv_step_thread s i t t' w wake ts' :
  minv s -> m_threads s !! i = Some t -> mstep t (m_word s) = Some (t', w, wake) -> one_woken wake (<[i := t']> (m_threads s)) ts' ->
  minv (MSystem w ts').
Proof.
  intros HI Hi Hs Hw. pose proof HI as [I1 I2 I3]. apply woken_one_counts in Hw as (W1 & W2 & W3 & W4).
  pose proof (total_ge m_holds (m_threads s) i t ltac:(intros; apply m_signs) Hi) as G1.
  pose proof (total_ge m_helps (m_threads s) i t ltac:(intros; apply m_signs) Hi) as G2.
  pose proof (total_ge m_sleeps (m_threads s) i t ltac:(intros; apply m_signs) Hi) as G3.
  assert (minv (MSystem w (<[i := t']> (m_threads s))) \/ wake = true) as Hm.
  { destruct t; cbn in Hs, G1, G2, G3; try done;
      repeat match type of Hs with context [if ?b then _ else _] => destruct b eqn:? end; injection Hs as <- <- <-; try (by right); left;
      repeat match goal with H : (_ =? _) = true |- _ => apply Z.eqb_eq in H | H : (_ =? _) = false |- _ => apply Z.eqb_neq in H end;
      (eapply minv_move; [done|exact Hi|lia|..]); cbn; repeat case_match; try lia. }
  destruct Hm as [[J1 J2 J3]| ->].
  - split; cbn in *; [lia|lia|]. intros Hsl. destruct J3; [lia|by left|right; lia].
  - assert (t = MWake /\ t' = MOut true /\ w = m_word s) as (-> & -> & ->) by (destruct t; cbn in Hs; repeat case_match; simplify_eq; done).
    rewrite (total_update m_holds _ i MWake), (total_update m_sleeps _ i MWake), (total_update m_helps _ i MWake) in * by done. cbn in *.
    split; cbn; [lia|lia|]. intros Hsl. right. by apply W4.
Qed.

Lemma minv_step s s' : minv s -> mutex_step s s' -> minv s'.
Proof.
  intros HI Hs. pose proof HI as [I1 I2 I3]. destruct Hs as [s i t t' w wake ts' Hi Hm Hw|s i Hi|s i t b Hi Ht|s i Hi].
  - by eapply minv_step_thread.
  - pose proof (total_ge m_sleeps (m_threads s) i _ ltac:(intros; apply m_signs) Hi). pose proof (total_nonneg m_helps (m_threads s) ltac:(intros; apply m_signs)).
    eapply minv_move; [done|exact Hi|done|cbn; lia|]. cbn in *. lia.
  - assert (forall f, f t = 0 -> (forall b, f (MOut b) = 0) -> total f (<[i := t]> (m_threads s)) = total f (m_threads s)) as U.
    { intros f Ef Eo. destruct Hi as [Hi|Hi]; [rewrite total_insert_new by done; lia|]. rewrite (total_update f _ i (MOut b)), Eo by done. lia. }
    split; cbn [m_word m_threads]; rewrite ?(U m_holds), ?(U m_sleeps), ?(U m_helps) by (done || destruct Ht as [-> | ->]; done); done.
  - eapply minv_move; [done|exact Hi|done|cbn; lia|]. cbn. lia.
Qed.

Lemma minv_reachable s : mutex_reachable s -> minv s.
Proof.
  unfold mutex_reachable. assert (minv mutex_start) as HI by (split; cbn; [done|lia|intros Hs; vm_compute in Hs; done]). revert HI. generalize mutex_start.
  intros s0 HI Hr. induction Hr as [s0|s0 s1 s2 Hs _ IH]; [done|]. apply IH. by eapply minv_step.
Qed.

(** C22 — The futex mutex excludes and forgets nobody: under every interleaving at
    most one thread holds it and the word is zero exactly when none does; and
    while a thread sleeps, either the word tells the holder to wake a waiter when
    it unlocks, or some thread is about to wake a sleeper or to set the word so. *)
Theorem futex_mutex_safe s :
  mutex_reachable s ->
  (forall i j t u, m_threads s !! i = Some t -> m_threads s !! j = Some u -> m_holds t = 1 -> m_holds u = 1 -> i = j) /\
  (m_word s = 0 <-> forall i t, m_threads s !! i = Some t -> m_holds t = 0) /\
  (forall i, m_threads s !! i = Some MSleep ->
     (m_word s = 2 /\ exists j t, m_threads s !! j = Some t /\ m_holds t = 1) \/
     exists j t, m_threads s !! j = Some t /\ m_helps t = 1).
Proof.
  intros HI%minv_reachable. pose proof HI as [I1 I2 I3]. assert (forall t, 0 <= m_holds t) as Hh by (intros; apply m_signs).
  assert (m_word s <> 0 -> exists j t, m_threads s !! j = Some t /\ m_holds t = 1) as Hex.
  { intros Hw. destruct (total_none m_holds (m_threads s) Hh) as [E|(j & t & Hj & Ht)]; [destruct (Z.eqb_spec (m_word s) 0); lia|].
    exists j, t. split; [done|]. by destruct t. }
  split; [|split].
  - intros i j t u Hi Hj Ht Hu. destruct (decide (i = j)) as [|Hne]; [done|].
    pose proof (total_ge2 m_holds (m_threads s) i j t u Hh Hne Hi Hj). destruct (m_word s =? 0); lia.
  - split.
    + intros E i t Hi. pose proof (total_ge m_holds (m_threads s) i t Hh Hi). specialize (Hh t). rewrite E in I1. cbn in I1. lia.
    + intros Hn. destruct (decide (m_word s = 0)) as [|Hne]; [done|]. destruct (Hex Hne) as (j & t & Hj & Ht). specialize (Hn j t Hj). lia.
  - intros i Hi. pose proof (total_ge m_sleeps (m_threads s) i _ ltac:(intros; apply m_signs) Hi) as Hg. cbn in Hg.
    destruct I3 as [E|E]; [lia|left; split; [done|apply Hex; lia]|right].
    destruct (total_none m_helps (m_threads s) ltac:(intros; apply m_signs)) as [?|(j & t & Hj & Ht)]; [lia|]. exists j, t. split; [done|]. by destruct t.
Qed.

(** Two threads lock; the second sleeps, and the first is about to wake it. *)
Definition handover : mutex_system := MSystem 0 (<[0%nat := MWake]> (<[1%nat := MSleep]> ∅)).

Lemma handover_reachable : mutex_reachable handover.
Proof.
  unfold mutex_reachable, handover, mutex_start.
  eapply rtc_l; [apply (mutex_call (MSystem 0 ∅) 0%nat MLock true); [left; apply lookup_empty|by left]|].
  eapply rtc_l; [eapply (mutex_thread _ 0%nat MLock); [apply lookup_insert_eq|reflexivity|apply wake_not]|].
  eapply rtc_l; [apply (mutex_call _ 1%nat MLock true); [left; by vm_compute|by left]|].
  eapply rtc_l; [eapply (mutex_thread _ 1%nat MLock); [apply lookup_insert_eq|reflexivity|apply wake_not]|].
  eapply rtc_l; [eapply (mutex_thread _ 1%nat MSwap); [apply lookup_insert_eq|reflexivity|apply wake_not]|].
  eapply rtc_l; [eapply (mutex_thread _ 1%nat MWait); [apply lookup_insert_eq|reflexivity|apply wake_not]|].
  eapply rtc_l; [apply (mutex_release _ 0%nat); by vm_compute|].
  eapply rtc_l; [eapply (mutex_thread _ 0%nat MUnlock); [apply lookup_insert_eq|reflexivity|apply wake_not]|].
  match goal with |- rtc _ ?a ?b => assert (a = b) as ->; [vm_compute; reflexivity|] end. apply rtc_refl.
Qed.

Lemma futex_mutex_safe_witness :
  m_threads handover !! 1%nat = Some MSleep /\ exists j t, m_threads handover !! j = Some t /\ m_helps t = 1.
Proof.
  destruct (futex_mutex_safe handover handover_reachable) as (_ & _ & Hs).
  assert (m_threads handover !! 1%nat = Some MSleep) as E by (vm_compute; reflexivity). split; [exact E|].
  destruct (Hs 1%nat E) as [[Hw _]|Hj]; [discriminate Hw|exact Hj].
Defined.
