(* ===== verification/Status.v ===== *)
(** Outcome types of the TelePath API: [include/telepath/common/status.h], and
    the packed form of a writeback error stored in a frame descriptor
    ([lib/buffer/frame_control.cc]).  [Result A] is [std::expected<A, Error>],
    [Status] is [std::expected<void, Error>]; the monadic notation is the
    early return of the code ([if (!r.has_value()) return PropagateError(r)]). *)
From stdpp Require Import strings.
From S2P Require Import Prelude.

(** ** Error kinds *)

Inductive ErrorCode :=
  | kInvalidArgument
  | kNotFound
  | kIoError
  | kUnavailable
  | kResourceExhausted
  | kInternal
  | kFailed.

#[export] Instance ErrorCode_eq_dec : EqDecision ErrorCode.
Proof. solve_decision. Defined.

(** The enumeration's [uint8_t] values, which start at 1. *)
Definition code_value (c : ErrorCode) : Z :=
  match c with
  | kInvalidArgument => 1
  | kNotFound => 2
  | kIoError => 3
  | kUnavailable => 4
  | kResourceExhausted => 5
  | kInternal => 6
  | kFailed => 7
  end.

(** [static_cast<ErrorCode>] of a byte; a byte outside the enumeration has no
    enumerator. *)
Definition code_of_value (z : Z) : option ErrorCode :=
  if z =? 1 then Some kInvalidArgument
  else if z =? 2 then Some kNotFound
  else if z =? 3 then Some kIoError
  else if z =? 4 then Some kUnavailable
  else if z =? 5 then Some kResourceExhausted
  else if z =? 6 then Some kInternal
  else if z =? 7 then Some kFailed
  else None.

Inductive ErrorClass := kPage | kResource | kUsage | kFatal.

#[export] Instance ErrorClass_eq_dec : EqDecision ErrorClass.
Proof. solve_decision. Defined.

(** [system_error] is an [int]; messages are static strings. *)
Record Error := MkError {
  code : ErrorCode;
  message : string;
  system_error : Z
}.

#[export] Instance Error_eq_dec : EqDecision Error.
Proof. solve_decision. Defined.

Definition error_class (e : Error) : ErrorClass :=
  match code e with
  | kIoError => kPage
  | kResourceExhausted => kResource
  | kInvalidArgument | kNotFound | kUnavailable => kUsage
  | kInternal | kFailed => kFatal
  end.

Definition retryable (e : Error) : bool :=
  bool_decide (error_class e = kResource).

(** ** Results *)

Inductive Result (A : Type) :=
  | Ok (a : A)
  | Err (e : Error).
Arguments Ok {A} a.
Arguments Err {A} e.

Abbreviation Status := (Result unit).

#[export] Instance Result_eq_dec {A} `{EqDecision A} : EqDecision (Result A).
Proof. solve_decision. Defined.

Definition has_value {A} (r : Result A) : bool :=
  match r with Ok _ => true | Err _ => false end.

Definition InvalidArgument {A} (m : string) : Result A := Err (MkError kInvalidArgument m 0).
Definition NotFound {A} (m : string) (errno : Z) : Result A := Err (MkError kNotFound m errno).
Definition IoError {A} (m : string) (errno : Z) : Result A := Err (MkError kIoError m errno).
Definition Unavailable {A} (m : string) (errno : Z) : Result A := Err (MkError kUnavailable m errno).
Definition ResourceExhausted {A} (m : string) : Result A := Err (MkError kResourceExhausted m 0).
Definition Internal {A} (m : string) : Result A := Err (MkError kInternal m 0).
Definition Failed {A} (m : string) : Result A := Err (MkError kFailed m 0).

(** [Error::ToString]: [strerror] belongs to the C library. *)
Definition ToString (strerror : Z -> string) (e : Error) : string :=
  if system_error e =? 0 then message e
  else (message e +:+ ": " +:+ strerror (system_error e))%string.

Declare Scope result_scope.
Delimit Scope result_scope with result.
Notation "x <-! r ;; k" :=
  (match r with Ok x => k | Err e => Err e end)
  (at level 100, r at next level, right associativity) : result_scope.

(** ** Packed writeback errors *)

(** [PackWritebackError]: code in the low byte, the errno clamped to 24 bits
    above it; 0 stands for success. *)
Definition PackWritebackError (status : Status) : Z :=
  match status with
  | Ok _ => 0
  | Err e =>
      let code := Z.land (code_value (code e)) 0xFF in
      let system_error := Z.min (u32 (Z.max (system_error e) 0)) 0xFFFFFF in
      Z.lor code (u32 (Z.shiftl system_error 8))
  end.

(** [UnpackWritebackError]; [None] for a byte that is no [ErrorCode]. *)
Definition UnpackWritebackError (packed : Z) : option Status :=
  if packed =? 0 then Some (Ok tt)
  else
    code ← code_of_value (Z.land packed 0xFF);
    Some (Err (MkError code "writeback failed" (Z.shiftr packed 8))).

(** ** Lemmas *)

Lemma code_value_range c : 1 <= code_value c <= 7.
Proof. destruct c; simpl; lia. Qed.

Lemma code_of_code_value c : code_of_value (code_value c) = Some c.
Proof. by destruct c. Qed.

(** The packed word is the code plus 256 times the clamped errno. *)
Lemma pack_err_word c m n :
  let s := Z.min (u32 (Z.max n 0)) (2 ^ 24 - 1) in
  0 <= s < 2 ^ 24 /\ PackWritebackError (Err (MkError c m n)) = code_value c + 256 * s.
Proof.
  intros s. pose proof (u32_range (Z.max n 0)) as Hr. unfold is_u32 in Hr.
  assert (0 <= s < 2 ^ 24) as Hs by (unfold s; lia). split; [done|].
  unfold PackWritebackError; simpl. change (Z.min (u32 (Z.max n 0)) 16777215) with s.
  pose proof (code_value_range c) as Hc.
  change 255 with (Z.ones 8).
  rewrite (Z.land_ones (code_value c) 8), Z.mod_small by lia.
  rewrite Z.shiftl_mul_pow2, u32_small by (try unfold is_u32, u32_mod; lia).
  rewrite lor_low_high by lia. lia.
Qed.

Lemma unpack_err_word c s :
  0 <= s < 2 ^ 24 ->
  UnpackWritebackError (code_value c + 256 * s) = Some (Err (MkError c "writeback failed" s)).
Proof.
  intros Hs. pose proof (code_value_range c) as Hc. unfold UnpackWritebackError.
  destruct (Z.eqb_spec (code_value c + 256 * s) 0); [lia|].
  change 0xFF with (Z.ones 8).
  rewrite (Z.land_ones _ 8), Z.shiftr_div_pow2 by lia.
  replace ((code_value c + 256 * s) mod 2 ^ 8) with (code_value c) by zdiv_lia.
  replace ((code_value c + 256 * s) / 2 ^ 8) with s by zdiv_lia.
  by rewrite code_of_code_value.
Qed.

(** Whatever status was packed, unpacking tells success from failure. *)
Lemma unpack_pack (s : Status) :
  exists r, UnpackWritebackError (PackWritebackError s) = Some r /\ has_value r = has_value s.
Proof.
  destruct s as [[]|[c m n]]; [by eexists|].
  destruct (pack_err_word c m n) as [Hs ->]. rewrite unpack_err_word by done. by eexists.
Qed.

(** A packed error survives the round trip: the code is kept, the errno is
    clamped to 24 bits, and only success packs to 0. *)
Lemma writeback_error_roundtrip c m n :
  n < 2 ^ 31 ->
  UnpackWritebackError (PackWritebackError (Ok tt)) = Some (Ok tt) /\
  PackWritebackError (Err (MkError c m n)) <> 0 /\
  is_u32 (PackWritebackError (Err (MkError c m n))) /\
  UnpackWritebackError (PackWritebackError (Err (MkError c m n))) =
    Some (Err (MkError c "writeback failed" (Z.min (Z.max n 0) (2 ^ 24 - 1)))).
Proof.
  intros Hn. destruct (pack_err_word c m n) as [Hs ->]. pose proof (code_value_range c) as Hc.
  rewrite unpack_err_word by done.
  rewrite (u32_small (Z.max n 0)) in * by (unfold is_u32, u32_mod; lia).
  split_and!; [done|lia|unfold is_u32, u32_mod; lia|done].
Qed.

Lemma writeback_error_roundtrip_witness :
  5 < 2 ^ 31 /\
  UnpackWritebackError (PackWritebackError (Err (MkError kIoError "pwritev failed" 5))) =
    Some (Err (MkError kIoError "writeback failed" 5)).
Proof.
  split; [lia|].
  exact (proj2 (proj2 (proj2 (writeback_error_roundtrip kIoError "pwritev failed" 5 ltac:(lia))))).
Defined.
