(* ===== verification/CasLoop.v ===== *)
(** Compare-and-swap loops.

    Every transition of a frame's control word, of the free list head and of
    [rec_lsn] is written in the source as

    [word = load(); while (true) { ... return r; ... yield, word = load(); ...
     if (compare_exchange_weak(word, next)) { wake?; return r; } }]

    The body of such a loop is a function of the word it last observed; it
    either leaves the loop without writing, reloads, or attempts one exchange.
    This file gives the loop its meaning in the presence of other threads and
    proves that a finished loop took effect in one atomic step. *)
From S2P Require Import Prelude.

(** One pass through the body of a CAS loop over words of type [W]:
    [Return a] leaves the loop, [Reload] is [yield(); word = load()],
    [Exchange next wake a] is a [compare_exchange_weak] to [next] that on
    success wakes sleepers when [wake] and returns [a]. *)
Inductive cas_step (W A : Type) :=
  | Return (a : A)
  | Reload
  | Exchange (next : W) (wake : bool) (a : A).
Arguments Return {W A} a.
Arguments Reload {W A}.
Arguments Exchange {W A} next wake a.

Definition map_cas {W V A B} (f : W -> V) (g : A -> B) (s : cas_step W A) : cas_step V B :=
  match s with
  | Return a => Return (g a)
  | Reload => Reload
  | Exchange next wake a => Exchange (f next) wake (g a)
  end.

(** What a pass through the loop body may write. *)
Definition step_next {W A} (P : W -> Prop) (s : cas_step W A) : Prop :=
  match s with Exchange next _ _ => P next | _ => True end.

(** The loop run in isolation, one attempt per unit of fuel: the word, whether
    sleepers were woken, and the result; [None] while it keeps reloading. *)
Definition run_alone {W A} (body : W -> cas_step W A) (word : W) : option (W * bool * A) :=
  match body word with
  | Return a => Some (word, false, a)
  | Reload => None
  | Exchange next wake a => Some (next, wake, a)
  end.

(** ** Interleaved execution *)

Section Loop.
Context {W A : Type}.
Variable body : W -> cas_step W A.

(** The thread holds the word it last observed, or has returned. *)
Inductive loop_pc :=
  | Trying (seen : W)
  | Finished (a : A).

(** A configuration: the shared cell, the values it has held since the loop's
    first load (newest first), and the writes this loop made, each with the
    value replaced. *)
Record loop_cfg := Cfg {
  cell : W;
  history : list W;
  own_writes : list (W * W);
  pc : loop_pc
}.

(** [other] is any step of any other thread; [compare_exchange_weak] may fail
    spuriously, so a failed attempt needs no mismatch. *)
Inductive loop_step : loop_cfg -> loop_cfg -> Prop :=
  | loop_return m h ws w a :
      body w = Return a ->
      loop_step (Cfg m h ws (Trying w)) (Cfg m h ws (Finished a))
  | loop_reload m h ws w :
      body w = Reload ->
      loop_step (Cfg m h ws (Trying w)) (Cfg m h ws (Trying m))
  | loop_cas_success h ws w next wake a :
      body w = Exchange next wake a ->
      loop_step (Cfg w h ws (Trying w)) (Cfg next (next :: h) ((w, next) :: ws) (Finished a))
  | loop_cas_failure m h ws w next wake a :
      body w = Exchange next wake a ->
      loop_step (Cfg m h ws (Trying w)) (Cfg m h ws (Trying m))
  | loop_other m h ws p m' :
      loop_step (Cfg m h ws p) (Cfg m' (m' :: h) ws p).

(** The loop starts by loading the cell. *)
Definition loop_start (m : W) : loop_cfg := Cfg m [m] [] (Trying m).

(** What holds at every point of a run. *)
Definition loop_inv (c : loop_cfg) : Prop :=
  cell c ∈ history c /\
  match pc c with
  | Trying w => own_writes c = [] /\ w ∈ history c
  | Finished a =>
      (own_writes c = [] /\ exists w, w ∈ history c /\ body w = Return a) \/
      (exists w next wake, own_writes c = [(w, next)] /\ w ∈ history c /\
         body w = Exchange next wake a)
  end.

Lemma loop_inv_step c c' : loop_step c c' -> loop_inv c -> loop_inv c'.
Proof.
  unfold loop_inv. destruct 1; simpl; intros [Hm Hpc].
  - destruct Hpc as [-> Hw]. eauto 10.
  - destruct Hpc as [-> Hw]. eauto.
  - destruct Hpc as [-> Hw]. split; [set_solver|]. right.
    exists w, next, wake. set_solver.
  - destruct Hpc as [-> Hw]. eauto.
  - split; [set_solver|]. destruct p.
    { destruct Hpc as [-> Hw]. set_solver. }
    destruct Hpc as [(?&w&?&?)|(w&next&wake&?&?&?)]; [left|right].
    + split; [done|]. exists w. set_solver.
    + exists w, next, wake. set_solver.
Qed.

Lemma loop_inv_start m : loop_inv (loop_start m).
Proof. unfold loop_inv, loop_start; simpl. set_solver. Qed.

Lemma loop_inv_reachable m c : rtc loop_step (loop_start m) c -> loop_inv c.
Proof.
  intros Hr. remember (loop_start m) as c0 eqn:E.
  assert (loop_inv c0) as H0 by (subst; apply loop_inv_start).
  clear E. induction Hr; eauto using loop_inv_step.
Qed.

(** A loop that returned, whatever the other threads did meanwhile and however
    often its exchange failed, either wrote nothing and returned what its body
    decides on a word the cell held since the loop's first load, or wrote
    exactly once, replacing a word the cell held at that moment by what the
    body computes from that word. *)
Lemma cas_loop_finished m c a :
  rtc loop_step (loop_start m) c -> pc c = Finished a ->
  (own_writes c = [] /\ exists w, w ∈ history c /\ body w = Return a) \/
  (exists w next wake, own_writes c = [(w, next)] /\ w ∈ history c /\
     body w = Exchange next wake a).
Proof.
  intros Hr Hpc. destruct (loop_inv_reachable m c Hr) as [_ H].
  by rewrite Hpc in H.
Qed.

End Loop.
