(* ===== verification/FrameControl.v ===== *)
(** The per-frame control word: [lib/buffer/frame_control.h].

    A control word is a [uint32_t] holding the frame's state, its dirty and
    writeback flags, the content latch and the pin count; all of it changes by
    single compare-and-swaps.  Each operation below is the body of its CAS loop
    ([cas_step], see [CasLoop]) on the word last observed, written with the
    masks and shifts of the source.  [ctl] is the word decoded into its fields;
    the refinement lemmas say that every operation on a word is the
    corresponding operation on the fields, so that no operation carries or
    borrows from one field into another. *)
From S2P Require Import Prelude CasLoop.

(** ** Layout *)

(** Residency state of a frame ([buffer_descriptor.h]). *)
Inductive BufferFrameState := kFree | kLoading | kResident.

#[export] Instance BufferFrameState_eq_dec : EqDecision BufferFrameState.
Proof. solve_decision. Defined.

Definition state_value (s : BufferFrameState) : Z :=
  match s with kFree => 0 | kLoading => 1 | kResident => 2 end.

Definition kStateMask : Z := 0x3.
Definition kDirty : Z := Z.shiftl 1 2.
Definition kWritebackQueued : Z := Z.shiftl 1 3.
Definition kWritebackActive : Z := Z.shiftl 1 4.
Definition kPrefetched : Z := Z.shiftl 1 5.
Definition kRedirtied : Z := Z.shiftl 1 6.
Definition kExclusive : Z := Z.shiftl 1 7.
Definition kSharedShift : Z := 8.
Definition kSharedOne : Z := Z.shiftl 1 kSharedShift.
Definition kSharedMask : Z := Z.shiftl 0xFF kSharedShift.
Definition kMaxShared : Z := 0xFF.
Definition kWaiters : Z := Z.shiftl 1 16.
Definition kPinShift : Z := 17.
Definition kPinOne : Z := Z.shiftl 1 kPinShift.
Definition kPinMask : Z := Z.shiftl 0x7FFF kPinShift.
Definition kMaxPins : Z := 0x7FFF.
Definition kWritebackMask : Z := Z.lor kWritebackQueued kWritebackActive.
Definition kLatchMask : Z := Z.lor kExclusive kSharedMask.

(** The state field as the enumeration's underlying value. *)
Definition State (word : Z) : Z := Z.land word kStateMask.
Definition WithState (word : Z) (state : BufferFrameState) : Z :=
  Z.lor (Z.land word (u32_not kStateMask)) (state_value state).
Definition Pins (word : Z) : Z := Z.shiftr (Z.land word kPinMask) kPinShift.
Definition SharedHolders (word : Z) : Z := Z.shiftr (Z.land word kSharedMask) kSharedShift.
Definition StateIs (word : Z) (s : BufferFrameState) : bool := State word =? state_value s.
Definition IsResident (word : Z) : bool := StateIs word kResident.
(** [(word & mask) != 0] *)
Definition any_bit (word mask : Z) : bool := negb (Z.land word mask =? 0).
Definition IsDirty (word : Z) : bool := any_bit word kDirty.
Definition HasWriteback (word : Z) : bool := any_bit word kWritebackMask.

(** ** Operations *)

(** [UpdateAndWake]: returns the replaced word. *)
Definition UpdateAndWake (next : Z -> Z) (wakes : Z -> Z -> bool) (word : Z) : cas_step Z Z :=
  let new_word := next word in
  let wake := any_bit word kWaiters && wakes word new_word in
  Exchange (if wake then Z.land new_word (u32_not kWaiters) else new_word) wake word.

Definition TryPinResident (word : Z) : cas_step Z bool :=
  if negb (IsResident word) then Return false
  else if Pins word =? kMaxPins then Reload
  else Exchange (u32 (word + kPinOne)) false true.

Definition Unpin (word : Z) : cas_step Z (option Z) :=
  if Pins word =? 0 then Return None
  else Exchange (u32 (word - kPinOne)) false (Some word).

Inductive ReserveOutcome := kReserved | kNeedsFlush | kRejected.

(** The second component of the result is [*observed]. *)
Definition TryReserve (popped_from_free_list : bool) (word : Z) : cas_step Z (ReserveOutcome * Z) :=
  if StateIs word kLoading then Return (kRejected, word)
  else if StateIs word kFree && negb popped_from_free_list then Return (kRejected, word)
  else if negb (Pins word =? 0) || any_bit word (Z.lor kLatchMask kWritebackMask)
  then Return (kRejected, word)
  else if IsResident word && IsDirty word then Return (kNeedsFlush, word)
  else
    Exchange (Z.lor (Z.lor (Z.land word kWaiters) kPinOne) (state_value kLoading))
      false (kReserved, word).

Definition PublishResident (release_pin : bool) : Z -> cas_step Z Z :=
  UpdateAndWake
    (fun word => u32 (WithState word kResident - (if release_pin then kPinOne else 0)))
    (fun _ _ => true).

Definition ReleaseToFree : Z -> cas_step Z Z :=
  UpdateAndWake (fun word => Z.land word (Z.lor kWaiters kLatchMask)) (fun _ _ => true).

Inductive DiscardOutcome := kDiscarded | kWriteback | kLatched | kBusy.

(** The second component is [*previous], written only on success. *)
Definition TryDiscardPinned (word : Z) : cas_step Z (DiscardOutcome * option Z) :=
  if HasWriteback word then Return (kWriteback, None)
  else if negb (IsResident word) || negb (Pins word =? 1) then Return (kBusy, None)
  else if any_bit word kLatchMask then Return (kLatched, None)
  else Exchange 0 (any_bit word kWaiters) (kDiscarded, Some word).

Definition MarkDirty (word : Z) : cas_step Z (option bool) :=
  if negb (IsResident word) then Return None
  else
    let next := Z.lor word kDirty in
    let next := if HasWriteback word then Z.lor next kRedirtied else next in
    if next =? word then Return (Some false)
    else Exchange next false (Some (negb (IsDirty word))).

Definition TryAcquireShared (word : Z) : cas_step Z bool :=
  if negb (any_bit word kExclusive) && (SharedHolders word <? kMaxShared)
  then Exchange (u32 (word + kSharedOne)) false true
  else Return false.

Definition ReleaseShared : Z -> cas_step Z Z :=
  UpdateAndWake (fun word => u32 (word - kSharedOne))
    (fun old_word new_word =>
       (SharedHolders new_word =? 0) || (SharedHolders old_word =? kMaxShared)).

Definition TryAcquireExclusive (word : Z) : cas_step Z bool :=
  if negb (any_bit word kLatchMask) then Exchange (Z.lor word kExclusive) false true
  else Return false.

(** The control-word part of [ReleaseExclusive]; it runs after
    [version.fetch_add(1)]. *)
Definition ReleaseExclusive : Z -> cas_step Z Z :=
  UpdateAndWake
    (fun word =>
       let next := Z.land word (u32_not kExclusive) in
       if HasWriteback word then Z.lor next kRedirtied else next)
    (fun _ _ => true).

Definition bump_version (version : Z) : Z := u64 (version + 1).

Inductive QueueOutcome := kQueued | kNotDirty | kPending | kPinned.

Definition TryQueueWriteback (skip_if_pinned : bool) (word : Z) : cas_step Z QueueOutcome :=
  if HasWriteback word then Return kPending
  else if negb (IsResident word) || negb (IsDirty word) then Return kNotDirty
  else if skip_if_pinned && negb (Pins word =? 0) then Return kPinned
  else Exchange (Z.land (Z.lor word kWritebackQueued) (u32_not kRedirtied)) false kQueued.

Definition BeginWriteback : Z -> cas_step Z Z :=
  UpdateAndWake
    (fun word => Z.lor (Z.land word (u32_not kWritebackQueued)) kWritebackActive)
    (fun _ _ => false).

Definition CancelQueuedWriteback : Z -> cas_step Z Z :=
  UpdateAndWake
    (fun word => Z.land word (u32_not (Z.lor kWritebackQueued kRedirtied)))
    (fun _ _ => true).

Record WritebackCompletion := MkCompletion { cleared_dirty : bool; completion_word : Z }.

(** [succeeded && IsResident && IsDirty && (word & (kRedirtied | kExclusive)) == 0] *)
Definition clears_dirty (succeeded : bool) (word : Z) : bool :=
  succeeded && IsResident word && IsDirty word &&
  negb (any_bit word (Z.lor kRedirtied kExclusive)).

Definition CompleteWriteback_next (succeeded : bool) (word : Z) : Z :=
  let next := Z.land word (u32_not (Z.lor kWritebackMask kRedirtied)) in
  if clears_dirty succeeded word then Z.land next (u32_not kDirty) else next.

Definition CompleteWriteback (succeeded : bool) (word : Z) : cas_step Z WritebackCompletion :=
  match UpdateAndWake (CompleteWriteback_next succeeded) (fun _ _ => true) word with
  | Exchange next wake old_word =>
      let cleared :=
        IsDirty old_word && succeeded && IsResident old_word &&
        negb (any_bit old_word (Z.lor kRedirtied kExclusive)) in
      let w := Z.land old_word (u32_not (Z.lor (Z.lor kWritebackMask kRedirtied) kWaiters)) in
      Exchange next wake
        (MkCompletion cleared (if cleared then Z.land w (u32_not kDirty) else w))
  | Return _ => Reload
  | Reload => Reload
  end.

(** ** Waiting

    One pass of [WaitWhile]'s loop on the word just loaded: leave, publish the
    [waiters] bit, or sleep in the futex on the value seen. *)
Inductive wait_step :=
  | WaitReturn (word : Z)
  | WaitSetWaiters (next : Z)
  | WaitSleep (expected : Z).

Definition WaitWhile (blocked : Z -> bool) (word : Z) : wait_step :=
  if negb (blocked word) then WaitReturn word
  else if negb (any_bit word kWaiters) then WaitSetWaiters (Z.lor word kWaiters)
  else WaitSleep word.

(** The conditions the code waits on: [AcquireShared], [AcquireExclusive] (and
    the latch wait of [DropFileBuffers]), [WaitForPendingFlush]. *)
Definition shared_blocked (word : Z) : bool :=
  any_bit word kExclusive || (kMaxShared <=? SharedHolders word).
Definition exclusive_blocked (word : Z) : bool := any_bit word kLatchMask.
Definition writeback_blocked (word : Z) : bool := HasWriteback word.

(** ** recLSN *)

Definition kInvalidLsn : Z := 0.

(** The loop of [LowerRecLsn] on the value of [rec_lsn] last observed. *)
Definition LowerRecLsn (lsn : Z) (current : Z) : cas_step Z unit :=
  if lsn =? kInvalidLsn then Return tt
  else if (current =? kInvalidLsn) || (lsn <? current) then Exchange lsn false tt
  else Return tt.

(** ** The decoded word *)

Record ctl := Ctl {
  c_state : BufferFrameState;
  c_dirty : bool;
  c_queued : bool;
  c_active : bool;
  c_prefetched : bool;
  c_redirtied : bool;
  c_excl : bool;
  c_shared : Z;
  c_waiters : bool;
  c_pins : Z
}.

Definition encode (c : ctl) : Z :=
  state_value (c_state c) + 4 * b2z (c_dirty c) + 8 * b2z (c_queued c) +
  16 * b2z (c_active c) + 32 * b2z (c_prefetched c) + 64 * b2z (c_redirtied c) +
  128 * b2z (c_excl c) + 256 * c_shared c + 65536 * b2z (c_waiters c) +
  131072 * c_pins c.

Definition ctl_ok (c : ctl) : Prop := 0 <= c_shared c < 256 /\ 0 <= c_pins c < 32768.

(** [None] for the state value 3, which names no enumerator. *)
Definition decode (w : Z) : option ctl :=
  let st := if State w =? 0 then Some kFree
            else if State w =? 1 then Some kLoading
            else if State w =? 2 then Some kResident else None in
  s ← st;
  Some (Ctl s (IsDirty w) (any_bit w kWritebackQueued) (any_bit w kWritebackActive)
          (any_bit w kPrefetched) (any_bit w kRedirtied) (any_bit w kExclusive)
          (SharedHolders w) (any_bit w kWaiters) (Pins w)).

Definition set_state (s : BufferFrameState) (c : ctl) : ctl :=
  Ctl s (c_dirty c) (c_queued c) (c_active c) (c_prefetched c) (c_redirtied c)
    (c_excl c) (c_shared c) (c_waiters c) (c_pins c).
Definition set_dirty (b : bool) (c : ctl) : ctl :=
  Ctl (c_state c) b (c_queued c) (c_active c) (c_prefetched c) (c_redirtied c)
    (c_excl c) (c_shared c) (c_waiters c) (c_pins c).
Definition set_queued (b : bool) (c : ctl) : ctl :=
  Ctl (c_state c) (c_dirty c) b (c_active c) (c_prefetched c) (c_redirtied c)
    (c_excl c) (c_shared c) (c_waiters c) (c_pins c).
Definition set_active (b : bool) (c : ctl) : ctl :=
  Ctl (c_state c) (c_dirty c) (c_queued c) b (c_prefetched c) (c_redirtied c)
    (c_excl c) (c_shared c) (c_waiters c) (c_pins c).
Definition set_redirtied (b : bool) (c : ctl) : ctl :=
  Ctl (c_state c) (c_dirty c) (c_queued c) (c_active c) (c_prefetched c) b
    (c_excl c) (c_shared c) (c_waiters c) (c_pins c).
Definition set_excl (b : bool) (c : ctl) : ctl :=
  Ctl (c_state c) (c_dirty c) (c_queued c) (c_active c) (c_prefetched c)
    (c_redirtied c) b (c_shared c) (c_waiters c) (c_pins c).
Definition set_shared (n : Z) (c : ctl) : ctl :=
  Ctl (c_state c) (c_dirty c) (c_queued c) (c_active c) (c_prefetched c)
    (c_redirtied c) (c_excl c) n (c_waiters c) (c_pins c).
Definition set_waiters (b : bool) (c : ctl) : ctl :=
  Ctl (c_state c) (c_dirty c) (c_queued c) (c_active c) (c_prefetched c)
    (c_redirtied c) (c_excl c) (c_shared c) b (c_pins c).
Definition set_pins (n : Z) (c : ctl) : ctl :=
  Ctl (c_state c) (c_dirty c) (c_queued c) (c_active c) (c_prefetched c)
    (c_redirtied c) (c_excl c) (c_shared c) (c_waiters c) n.

Definition c_writeback (c : ctl) : bool := c_queued c || c_active c.
Definition c_latched (c : ctl) : bool := c_excl c || negb (c_shared c =? 0).
Definition c_is (s : BufferFrameState) (c : ctl) : bool := bool_decide (c_state c = s).

(** ** Operations on the decoded word

    What each operation means on the fields. *)

Definition wake_all (c c' : ctl) : cas_step ctl ctl :=
  Exchange (if c_waiters c then set_waiters false c' else c') (c_waiters c) c.

Definition pin_ctl (c : ctl) : cas_step ctl bool :=
  if negb (c_is kResident c) then Return false
  else if c_pins c =? kMaxPins then Reload
  else Exchange (set_pins (c_pins c + 1) c) false true.

Definition unpin_ctl (c : ctl) : cas_step ctl (option ctl) :=
  if c_pins c =? 0 then Return None
  else Exchange (set_pins (c_pins c - 1) c) false (Some c).

Definition reservable_ctl (c : ctl) : bool :=
  (c_pins c =? 0) && negb (c_latched c) && negb (c_writeback c).

Definition reserve_ctl (popped : bool) (c : ctl) : cas_step ctl (ReserveOutcome * ctl) :=
  if c_is kLoading c then Return (kRejected, c)
  else if c_is kFree c && negb popped then Return (kRejected, c)
  else if negb (reservable_ctl c) then Return (kRejected, c)
  else if c_is kResident c && c_dirty c then Return (kNeedsFlush, c)
  else Exchange (Ctl kLoading false false false false false false 0 (c_waiters c) 1)
         false (kReserved, c).

Definition publish_ctl (release_pin : bool) (c : ctl) : cas_step ctl ctl :=
  wake_all c (set_pins (c_pins c - b2z release_pin) (set_state kResident c)).

Definition release_to_free_ctl (c : ctl) : cas_step ctl ctl :=
  wake_all c (Ctl kFree false false false false false (c_excl c) (c_shared c) (c_waiters c) 0).

Definition discard_ctl (c : ctl) : cas_step ctl (DiscardOutcome * option ctl) :=
  if c_writeback c then Return (kWriteback, None)
  else if negb (c_is kResident c) || negb (c_pins c =? 1) then Return (kBusy, None)
  else if c_latched c then Return (kLatched, None)
  else Exchange (Ctl kFree false false false false false false 0 false 0)
         (c_waiters c) (kDiscarded, Some c).

Definition mark_dirty_ctl (c : ctl) : cas_step ctl (option bool) :=
  if negb (c_is kResident c) then Return None
  else if c_dirty c && (negb (c_writeback c) || c_redirtied c) then Return (Some false)
  else Exchange (set_redirtied (c_redirtied c || c_writeback c) (set_dirty true c))
         false (Some (negb (c_dirty c))).

Definition acquire_shared_ctl (c : ctl) : cas_step ctl bool :=
  if negb (c_excl c) && (c_shared c <? kMaxShared)
  then Exchange (set_shared (c_shared c + 1) c) false true else Return false.

Definition release_shared_ctl (c : ctl) : cas_step ctl ctl :=
  let c' := set_shared (c_shared c - 1) c in
  if (c_shared c' =? 0) || (c_shared c =? kMaxShared) then wake_all c c' else Exchange c' false c.

Definition acquire_exclusive_ctl (c : ctl) : cas_step ctl bool :=
  if negb (c_latched c) then Exchange (set_excl true c) false true else Return false.

Definition release_exclusive_ctl (c : ctl) : cas_step ctl ctl :=
  wake_all c (set_redirtied (c_redirtied c || c_writeback c) (set_excl false c)).

Definition queue_ctl (skip_if_pinned : bool) (c : ctl) : cas_step ctl QueueOutcome :=
  if c_writeback c then Return kPending
  else if negb (c_is kResident c) || negb (c_dirty c) then Return kNotDirty
  else if skip_if_pinned && negb (c_pins c =? 0) then Return kPinned
  else Exchange (set_redirtied false (set_queued true c)) false kQueued.

Definition begin_ctl (c : ctl) : cas_step ctl ctl :=
  Exchange (set_active true (set_queued false c)) false c.

Definition cancel_ctl (c : ctl) : cas_step ctl ctl :=
  wake_all c (set_redirtied false (set_queued false c)).

Definition clears_ctl (succeeded : bool) (c : ctl) : bool :=
  succeeded && c_is kResident c && c_dirty c && negb (c_redirtied c || c_excl c).

Definition complete_ctl (succeeded : bool) (c : ctl) : cas_step ctl (bool * ctl) :=
  let c' := set_redirtied false (set_active false (set_queued false c)) in
  let c' := set_dirty (c_dirty c && negb (clears_ctl succeeded c)) c' in
  Exchange (if c_waiters c then set_waiters false c' else c') (c_waiters c)
    (clears_ctl succeeded c, set_waiters false c').

(** ** Reading fields *)

Lemma any_bit_lor w a b : any_bit w (Z.lor a b) = any_bit w a || any_bit w b.
Proof.
  unfold any_bit. rewrite Z.land_lor_distr_r, <- negb_andb. f_equal.
  apply Bool.eq_iff_eq_true.
  by rewrite andb_true_iff, !Z.eqb_eq, Z.lor_eq_0_iff.
Qed.

(** Bounds on every field, for linear arithmetic. *)
Ltac ctl_bounds c :=
  pose proof (b2z_bound (c_dirty c)); pose proof (b2z_bound (c_queued c));
  pose proof (b2z_bound (c_active c)); pose proof (b2z_bound (c_prefetched c));
  pose proof (b2z_bound (c_redirtied c)); pose proof (b2z_bound (c_excl c));
  pose proof (b2z_bound (c_waiters c));
  assert (0 <= state_value (c_state c) <= 2) by (destruct (c_state c); simpl; lia).

Ltac field_solve o l :=
  intros [Hs Hp];
  match goal with |- Z.land (encode ?c) ?m = _ =>
    change m with (Z.shiftl (Z.ones l) o); rewrite land_field by lia;
    unfold encode; ctl_bounds c; simpl (2 ^ _); zdiv_lia
  end.

Section Fields.
Variable c : ctl.

Lemma encode_range : ctl_ok c -> is_u32 (encode c).
Proof. intros [Hs Hp]. unfold is_u32, u32_mod, encode. ctl_bounds c. lia. Qed.

Lemma land_encode_state : ctl_ok c -> Z.land (encode c) kStateMask = state_value (c_state c).
Proof.
  intros [Hs Hp]. change kStateMask with (Z.ones 2). rewrite Z.land_ones by lia.
  unfold encode; ctl_bounds c; simpl (2 ^ _). zdiv_lia.
Qed.
Lemma land_encode_dirty : ctl_ok c -> Z.land (encode c) kDirty = 4 * b2z (c_dirty c).
Proof. field_solve 2 1. Qed.
Lemma land_encode_queued : ctl_ok c -> Z.land (encode c) kWritebackQueued = 8 * b2z (c_queued c).
Proof. field_solve 3 1. Qed.
Lemma land_encode_active : ctl_ok c -> Z.land (encode c) kWritebackActive = 16 * b2z (c_active c).
Proof. field_solve 4 1. Qed.
Lemma land_encode_prefetched : ctl_ok c -> Z.land (encode c) kPrefetched = 32 * b2z (c_prefetched c).
Proof. field_solve 5 1. Qed.
Lemma land_encode_redirtied : ctl_ok c -> Z.land (encode c) kRedirtied = 64 * b2z (c_redirtied c).
Proof. field_solve 6 1. Qed.
Lemma land_encode_excl : ctl_ok c -> Z.land (encode c) kExclusive = 128 * b2z (c_excl c).
Proof. field_solve 7 1. Qed.
Lemma land_encode_shared : ctl_ok c -> Z.land (encode c) kSharedMask = 256 * c_shared c.
Proof. field_solve 8 8. Qed.
Lemma land_encode_waiters : ctl_ok c -> Z.land (encode c) kWaiters = 65536 * b2z (c_waiters c).
Proof. field_solve 16 1. Qed.
Lemma land_encode_pins : ctl_ok c -> Z.land (encode c) kPinMask = 131072 * c_pins c.
Proof. field_solve 17 15. Qed.

End Fields.

Ltac any_bit_solve H :=
  intros Hok; unfold any_bit; rewrite H by done;
  match goal with |- context [b2z ?b] => destruct b; reflexivity end.

Section Readers.
Variable c : ctl.

Lemma any_dirty : ctl_ok c -> any_bit (encode c) kDirty = c_dirty c.
Proof. any_bit_solve land_encode_dirty. Qed.
Lemma any_queued : ctl_ok c -> any_bit (encode c) kWritebackQueued = c_queued c.
Proof. any_bit_solve land_encode_queued. Qed.
Lemma any_active : ctl_ok c -> any_bit (encode c) kWritebackActive = c_active c.
Proof. any_bit_solve land_encode_active. Qed.
Lemma any_prefetched : ctl_ok c -> any_bit (encode c) kPrefetched = c_prefetched c.
Proof. any_bit_solve land_encode_prefetched. Qed.
Lemma any_redirtied : ctl_ok c -> any_bit (encode c) kRedirtied = c_redirtied c.
Proof. any_bit_solve land_encode_redirtied. Qed.
Lemma any_excl : ctl_ok c -> any_bit (encode c) kExclusive = c_excl c.
Proof. any_bit_solve land_encode_excl. Qed.
Lemma any_waiters : ctl_ok c -> any_bit (encode c) kWaiters = c_waiters c.
Proof. any_bit_solve land_encode_waiters. Qed.
Lemma any_shared : ctl_ok c -> any_bit (encode c) kSharedMask = negb (c_shared c =? 0).
Proof. intros Hok; unfold any_bit; rewrite land_encode_shared by done. f_equal. lia. Qed.

Lemma any_writeback : ctl_ok c -> any_bit (encode c) kWritebackMask = c_writeback c.
Proof. intros. unfold kWritebackMask. by rewrite any_bit_lor, any_queued, any_active. Qed.
Lemma any_latch : ctl_ok c -> any_bit (encode c) kLatchMask = c_latched c.
Proof. intros. unfold kLatchMask. by rewrite any_bit_lor, any_excl, any_shared. Qed.

Lemma StateIs_encode s : ctl_ok c -> StateIs (encode c) s = c_is s c.
Proof.
  intros. unfold StateIs, State, c_is. rewrite land_encode_state by done.
  by destruct (c_state c), s.
Qed.
Lemma IsResident_encode : ctl_ok c -> IsResident (encode c) = c_is kResident c.
Proof. apply StateIs_encode. Qed.
Lemma IsDirty_encode : ctl_ok c -> IsDirty (encode c) = c_dirty c.
Proof. apply any_dirty. Qed.
Lemma HasWriteback_encode : ctl_ok c -> HasWriteback (encode c) = c_writeback c.
Proof. apply any_writeback. Qed.
Lemma SharedHolders_encode : ctl_ok c -> SharedHolders (encode c) = c_shared c.
Proof.
  intros Hok. unfold SharedHolders. rewrite land_encode_shared by done.
  unfold kSharedShift. rewrite Z.shiftr_div_pow2 by lia. zdiv_lia.
Qed.
Lemma Pins_encode : ctl_ok c -> Pins (encode c) = c_pins c.
Proof.
  intros Hok. unfold Pins. rewrite land_encode_pins by done.
  unfold kPinShift. rewrite Z.shiftr_div_pow2 by lia. zdiv_lia.
Qed.

End Readers.

#[export] Hint Rewrite any_bit_lor : words.
#[export] Hint Rewrite any_dirty any_queued any_active any_prefetched any_redirtied any_excl
  any_waiters any_shared any_writeback any_latch StateIs_encode IsResident_encode IsDirty_encode
  HasWriteback_encode SharedHolders_encode Pins_encode using done : words.

(** ** Writing fields *)

(** Exposes the arithmetic form of an encoded record. *)
Ltac ctl_arith :=
  unfold encode; cbv [set_state set_dirty set_queued set_active set_redirtied set_excl
    set_shared set_waiters set_pins c_state c_dirty c_queued c_active c_prefetched c_redirtied
    c_excl c_shared c_waiters c_pins];
  change kDirty with 4; change kWritebackQueued with 8; change kWritebackActive with 16;
  change kRedirtied with 64; change kExclusive with 128; change kWaiters with 65536;
  change (b2z true) with 1; change (b2z false) with 0.
Ltac flag_set H :=
  intros Hok; rewrite lor_add, H by done; ctl_arith; lia.
Ltac flag_clear H :=
  intros Hok; rewrite land_u32_not by (by apply encode_range); rewrite H by done;
  ctl_arith; lia.

Section Writers.
Variable c : ctl.

Lemma lor_dirty : ctl_ok c -> Z.lor (encode c) kDirty = encode (set_dirty true c).
Proof. flag_set land_encode_dirty. Qed.
Lemma lor_queued : ctl_ok c -> Z.lor (encode c) kWritebackQueued = encode (set_queued true c).
Proof. flag_set land_encode_queued. Qed.
Lemma lor_active : ctl_ok c -> Z.lor (encode c) kWritebackActive = encode (set_active true c).
Proof. flag_set land_encode_active. Qed.
Lemma lor_redirtied : ctl_ok c -> Z.lor (encode c) kRedirtied = encode (set_redirtied true c).
Proof. flag_set land_encode_redirtied. Qed.
Lemma lor_excl : ctl_ok c -> Z.lor (encode c) kExclusive = encode (set_excl true c).
Proof. flag_set land_encode_excl. Qed.
Lemma lor_waiters : ctl_ok c -> Z.lor (encode c) kWaiters = encode (set_waiters true c).
Proof. flag_set land_encode_waiters. Qed.

Lemma clear_dirty : ctl_ok c -> Z.land (encode c) (u32_not kDirty) = encode (set_dirty false c).
Proof. flag_clear land_encode_dirty. Qed.
Lemma clear_queued : ctl_ok c -> Z.land (encode c) (u32_not kWritebackQueued) = encode (set_queued false c).
Proof. flag_clear land_encode_queued. Qed.
Lemma clear_active : ctl_ok c -> Z.land (encode c) (u32_not kWritebackActive) = encode (set_active false c).
Proof. flag_clear land_encode_active. Qed.
Lemma clear_redirtied : ctl_ok c -> Z.land (encode c) (u32_not kRedirtied) = encode (set_redirtied false c).
Proof. flag_clear land_encode_redirtied. Qed.
Lemma clear_excl : ctl_ok c -> Z.land (encode c) (u32_not kExclusive) = encode (set_excl false c).
Proof. flag_clear land_encode_excl. Qed.
Lemma clear_waiters : ctl_ok c -> Z.land (encode c) (u32_not kWaiters) = encode (set_waiters false c).
Proof. flag_clear land_encode_waiters. Qed.

Lemma add_pin : ctl_ok c -> c_pins c < kMaxPins ->
  u32 (encode c + kPinOne) = encode (set_pins (c_pins c + 1) c).
Proof.
  intros [Hs Hp] Hm. change kMaxPins with 32767 in Hm. change kPinOne with 131072.
  rewrite u32_small; unfold is_u32, u32_mod, encode; simpl; ctl_bounds c; lia.
Qed.
Lemma sub_pin : ctl_ok c -> 0 < c_pins c ->
  u32 (encode c - kPinOne) = encode (set_pins (c_pins c - 1) c).
Proof.
  intros [Hs Hp] Hm. change kPinOne with 131072.
  rewrite u32_small; unfold is_u32, u32_mod, encode; simpl; ctl_bounds c; lia.
Qed.
Lemma add_shared : ctl_ok c -> c_shared c < kMaxShared ->
  u32 (encode c + kSharedOne) = encode (set_shared (c_shared c + 1) c).
Proof.
  intros [Hs Hp] Hm. change kMaxShared with 255 in Hm. change kSharedOne with 256.
  rewrite u32_small; unfold is_u32, u32_mod, encode; simpl; ctl_bounds c; lia.
Qed.
Lemma sub_shared : ctl_ok c -> 0 < c_shared c ->
  u32 (encode c - kSharedOne) = encode (set_shared (c_shared c - 1) c).
Proof.
  intros [Hs Hp] Hm. change kSharedOne with 256.
  rewrite u32_small; unfold is_u32, u32_mod, encode; simpl; ctl_bounds c; lia.
Qed.

End Writers.

#[export] Hint Rewrite lor_dirty lor_queued lor_active lor_redirtied lor_excl lor_waiters
  clear_dirty clear_queued clear_active clear_redirtied clear_excl clear_waiters
  add_pin sub_pin add_shared sub_shared using (done || lia) : words.

(** ** Each operation on the word is the operation on the fields *)

Lemma ctl_ok_waiters b c : ctl_ok c -> ctl_ok (set_waiters b c).
Proof. done. Qed.

Lemma update_and_wake_ctl next wakes c c' :
  ctl_ok c -> ctl_ok c' -> next (encode c) = encode c' ->
  UpdateAndWake next wakes (encode c) =
    let wake := c_waiters c && wakes (encode c) (encode c') in
    Exchange (encode (if wake then set_waiters false c' else c')) wake (encode c).
Proof.
  intros Hok Hok' Hn. unfold UpdateAndWake. rewrite Hn, any_waiters by done.
  destruct (c_waiters c && _); simpl; [|done]. by rewrite clear_waiters.
Qed.

Lemma update_and_wake_all next c c' :
  ctl_ok c -> ctl_ok c' -> next (encode c) = encode c' ->
  UpdateAndWake next (fun _ _ => true) (encode c) = map_cas encode encode (wake_all c c').
Proof.
  intros. rewrite (update_and_wake_ctl _ _ c c') by done. unfold wake_all; simpl.
  by rewrite andb_true_r.
Qed.

Lemma with_state_encode s c : ctl_ok c -> WithState (encode c) s = encode (set_state s c).
Proof.
  intros Hok. unfold WithState.
  rewrite land_u32_not by (by apply encode_range). rewrite land_encode_state by done.
  set (h := (encode c - state_value (c_state c)) / 4).
  replace (encode c - state_value (c_state c)) with (h * 2 ^ 2)
    by (unfold h, encode; ctl_bounds c; destruct Hok; zdiv_lia).
  rewrite Z.lor_comm, lor_low_high by (destruct s; simpl; lia).
  unfold h, encode, set_state; simpl. ctl_bounds c; destruct Hok; zdiv_lia.
Qed.

(** Decides the branch conditions of both sides and compares them. *)
Ltac ctl_cases :=
  repeat match goal with
  | |- context [if ?b then _ else _] =>
      match b with context [if _ then _ else _] => fail 1 | _ => destruct b eqn:? end
  end; simpl; try done.

Section Refinement.
Variable c : ctl.
Hypothesis Hok : ctl_ok c.

Lemma TryPinResident_encode :
  TryPinResident (encode c) = map_cas encode id (pin_ctl c) /\ step_next ctl_ok (pin_ctl c).
Proof using Hok.
  unfold TryPinResident, pin_ctl. autorewrite with words.
  destruct (c_is kResident c); simpl; [|done].
  destruct (Z.eqb_spec (c_pins c) kMaxPins) as [|Hne]; simpl; [done|].
  unfold kMaxPins in Hne. destruct Hok.
  rewrite add_pin by (unfold kMaxPins; done || lia). split; [done|].
  split; simpl; lia.
Qed.

Lemma Unpin_encode :
  Unpin (encode c) = map_cas encode (fmap encode) (unpin_ctl c) /\ step_next ctl_ok (unpin_ctl c).
Proof using Hok.
  unfold Unpin, unpin_ctl. autorewrite with words.
  destruct (Z.eqb_spec (c_pins c) 0); simpl; [done|]. destruct Hok.
  rewrite sub_pin by (done || lia). split; [done|]. split; simpl; lia.
Qed.

Lemma reserve_guard :
  negb (Pins (encode c) =? 0) || any_bit (encode c) (Z.lor kLatchMask kWritebackMask)
  = negb (reservable_ctl c).
Proof using Hok.
  autorewrite with words. unfold reservable_ctl.
  by destruct (c_pins c =? 0), (c_latched c), (c_writeback c).
Qed.

Lemma TryReserve_encode popped :
  TryReserve popped (encode c) = map_cas encode (prod_map id encode) (reserve_ctl popped c) /\
  step_next ctl_ok (reserve_ctl popped c).
Proof using Hok.
  unfold TryReserve, reserve_ctl. rewrite reserve_guard. autorewrite with words.
  rewrite land_encode_waiters by done.
  destruct (c_is kLoading c); [done|].
  destruct (c_is kFree c && negb popped); [done|].
  destruct (negb (reservable_ctl c)); [done|].
  destruct (c_is kResident c && c_dirty c); simpl; [done|].
  split; [|split; simpl; lia]. f_equal.
  by destruct (c_waiters c).
Qed.

Lemma PublishResident_encode release_pin :
  b2z release_pin <= c_pins c ->
  PublishResident release_pin (encode c) = map_cas encode encode (publish_ctl release_pin c) /\
  step_next ctl_ok (publish_ctl release_pin c).
Proof using Hok.
  intros Hp. destruct Hok as [Hs Hp'].
  assert (ctl_ok (set_pins (c_pins c - b2z release_pin) (set_state kResident c))) as Hok'.
  { pose proof (b2z_bound release_pin). split; simpl; lia. }
  split.
  - apply update_and_wake_all; [done..|]. rewrite with_state_encode by done.
    destruct release_pin; simpl in Hp.
    + by rewrite sub_pin by (done || simpl; lia).
    + rewrite Z.sub_0_r, u32_small by (by apply encode_range).
      unfold encode; simpl; lia.
  - unfold publish_ctl, wake_all; simpl. by destruct (c_waiters c).
Qed.

Lemma ReleaseToFree_encode :
  ReleaseToFree (encode c) = map_cas encode encode (release_to_free_ctl c) /\
  step_next ctl_ok (release_to_free_ctl c).
Proof using Hok.
  assert (ctl_ok (Ctl kFree false false false false false (c_excl c) (c_shared c) (c_waiters c) 0))
    by (destruct Hok; split; simpl; lia).
  split; [|unfold release_to_free_ctl, wake_all; simpl; by destruct (c_waiters c)].
  apply update_and_wake_all; [done..|].
  rewrite land_lor_disjoint by done. unfold kLatchMask. rewrite land_lor_disjoint by done.
  rewrite land_encode_waiters, land_encode_excl, land_encode_shared by done.
  unfold encode; simpl; lia.
Qed.

Lemma TryDiscardPinned_encode :
  TryDiscardPinned (encode c) = map_cas encode (prod_map id (fmap encode)) (discard_ctl c) /\
  step_next ctl_ok (discard_ctl c).
Proof using Hok.
  unfold TryDiscardPinned, discard_ctl. autorewrite with words.
  split; [|ctl_cases; split; simpl; lia]. ctl_cases.
Qed.

End Refinement.

Lemma decode_encode c : ctl_ok c -> decode (encode c) = Some c.
Proof.
  intros Hok. unfold decode, State. rewrite land_encode_state by done.
  autorewrite with words. by destruct c as [[] ? ? ? ? ? ? ? ? ?].
Qed.

Lemma encode_inj c1 c2 : ctl_ok c1 -> ctl_ok c2 -> encode c1 = encode c2 -> c1 = c2.
Proof.
  intros H1 H2 E. apply (inj Some). by rewrite <- !decode_encode, E.
Qed.

Lemma encode_eqb c1 c2 : ctl_ok c1 -> ctl_ok c2 -> c1 <> c2 -> (encode c1 =? encode c2) = false.
Proof. intros H1 H2 Hne. apply Z.eqb_neq. intros E. by apply Hne, encode_inj. Qed.

Section Refinement2.
Variable c : ctl.
Hypothesis Hok : ctl_ok c.

Lemma MarkDirty_encode :
  MarkDirty (encode c) = map_cas encode id (mark_dirty_ctl c) /\ step_next ctl_ok (mark_dirty_ctl c).
Proof using Hok.
  unfold MarkDirty, mark_dirty_ctl. autorewrite with words.
  destruct (c_is kResident c); simpl; [|done].
  rewrite ?lor_redirtied by done.
  split; [|by destruct (_ && _)].
  destruct c as [st d q a p r x sh wt pins]; unfold c_writeback; simpl.
  destruct d; simpl; last first.
  { destruct (q || a); simpl; (rewrite encode_eqb; [|done..|by intros [=]]);
      by rewrite ?orb_true_r, ?orb_false_r. }
  destruct (q || a), r; simpl; rewrite ?Z.eqb_refl; try done.
  rewrite encode_eqb; [done..|by intros [=]].
Qed.

Lemma TryAcquireShared_encode :
  TryAcquireShared (encode c) = map_cas encode id (acquire_shared_ctl c) /\
  step_next ctl_ok (acquire_shared_ctl c).
Proof using Hok.
  unfold TryAcquireShared, acquire_shared_ctl. autorewrite with words.
  destruct (c_excl c); simpl; [done|].
  destruct (Z.ltb_spec (c_shared c) kMaxShared) as [Hlt|]; simpl; [|done].
  rewrite add_shared by done. unfold kMaxShared in Hlt. destruct Hok.
  split; [done|]. split; simpl; lia.
Qed.

Lemma ReleaseShared_encode :
  0 < c_shared c ->
  ReleaseShared (encode c) = map_cas encode encode (release_shared_ctl c) /\
  step_next ctl_ok (release_shared_ctl c).
Proof using Hok.
  intros Hs. assert (ctl_ok (set_shared (c_shared c - 1) c)) as Hok'
    by (destruct Hok; split; simpl; lia).
  split; last first.
  { unfold release_shared_ctl, wake_all; simpl. destruct (_ || _); simpl; by destruct (c_waiters c). }
  unfold ReleaseShared, release_shared_ctl.
  rewrite (update_and_wake_ctl _ _ c _ Hok Hok') by (by apply sub_shared).
  autorewrite with words; simpl.
  destruct (_ || _); simpl; [|by rewrite andb_false_r].
  by rewrite andb_true_r.
Qed.

Lemma TryAcquireExclusive_encode :
  TryAcquireExclusive (encode c) = map_cas encode id (acquire_exclusive_ctl c) /\
  step_next ctl_ok (acquire_exclusive_ctl c).
Proof using Hok.
  unfold TryAcquireExclusive, acquire_exclusive_ctl. autorewrite with words.
  by destruct (c_latched c).
Qed.

Lemma ReleaseExclusive_encode :
  ReleaseExclusive (encode c) = map_cas encode encode (release_exclusive_ctl c) /\
  step_next ctl_ok (release_exclusive_ctl c).
Proof using Hok.
  split; last first.
  { unfold release_exclusive_ctl, wake_all; simpl. by destruct (c_waiters c). }
  apply update_and_wake_all; [done..|]. cbv zeta. autorewrite with words.
  rewrite ?lor_redirtied by done.
  destruct (c_writeback c); rewrite ?orb_true_r, ?orb_false_r; [done|].
  by destruct c.
Qed.

Lemma TryQueueWriteback_encode skip :
  TryQueueWriteback skip (encode c) = map_cas encode id (queue_ctl skip c) /\
  step_next ctl_ok (queue_ctl skip c).
Proof using Hok.
  unfold TryQueueWriteback, queue_ctl. autorewrite with words.
  rewrite ?clear_redirtied by done.
  destruct (c_writeback c); simpl; [done|].
  destruct (_ || _); simpl; [done|]. by destruct (_ && _).
Qed.

Lemma BeginWriteback_encode :
  BeginWriteback (encode c) = map_cas encode encode (begin_ctl c) /\ step_next ctl_ok (begin_ctl c).
Proof using Hok.
  split; [|done]. unfold BeginWriteback.
  rewrite (update_and_wake_ctl _ _ c (set_active true (set_queued false c))); [|done..|].
  - by rewrite andb_false_r.
  - autorewrite with words. by rewrite ?lor_active.
Qed.

Lemma CancelQueuedWriteback_encode :
  CancelQueuedWriteback (encode c) = map_cas encode encode (cancel_ctl c) /\
  step_next ctl_ok (cancel_ctl c).
Proof using Hok.
  split; [|unfold cancel_ctl, wake_all; simpl; by destruct (c_waiters c)].
  apply update_and_wake_all; [done..|].
  rewrite u32_not_lor, Z.land_assoc, clear_queued by done. by rewrite clear_redirtied.
Qed.

Lemma clears_dirty_encode succeeded : clears_dirty succeeded (encode c) = clears_ctl succeeded c.
Proof using Hok. unfold clears_dirty, clears_ctl. by autorewrite with words. Qed.

Lemma CompleteWriteback_encode succeeded :
  CompleteWriteback succeeded (encode c) =
    map_cas encode (fun r => MkCompletion (fst r) (encode (snd r))) (complete_ctl succeeded c) /\
  step_next ctl_ok (complete_ctl succeeded c).
Proof using Hok.
  set (c1 := set_redirtied false (set_active false (set_queued false c))).
  set (c2 := set_dirty (c_dirty c && negb (clears_ctl succeeded c)) c1).
  assert (Z.land (encode c) (u32_not (Z.lor kWritebackMask kRedirtied)) = encode c1) as E1.
  { unfold kWritebackMask. rewrite !u32_not_lor, !Z.land_assoc, clear_queued by done.
    by rewrite clear_active, clear_redirtied. }
  assert (CompleteWriteback_next succeeded (encode c) = encode c2) as E2.
  { unfold CompleteWriteback_next. rewrite E1, clears_dirty_encode.
    unfold c2. destruct (clears_ctl succeeded c); rewrite ?andb_false_r, ?andb_true_r.
    - by rewrite clear_dirty.
    - by destruct c. }
  split; last first.
  { unfold complete_ctl; simpl. by destruct (c_waiters c). }
  assert (IsDirty (encode c) && succeeded && IsResident (encode c) &&
    negb (any_bit (encode c) (Z.lor kRedirtied kExclusive)) = clears_ctl succeeded c) as E3.
  { unfold clears_ctl. autorewrite with words.
    by destruct succeeded, (c_dirty c), (c_is kResident c). }
  unfold CompleteWriteback. rewrite (update_and_wake_all _ c c2) by done.
  unfold wake_all. cbn [map_cas]. rewrite E3.
  unfold complete_ctl. fold c1 c2. cbn [map_cas fst snd]. do 2 f_equal.
  rewrite u32_not_lor, Z.land_assoc, E1, clear_waiters by done.
  unfold c2. destruct (clears_ctl succeeded c); rewrite ?andb_false_r, ?andb_true_r.
  - by rewrite clear_dirty.
  - by destruct c.
Qed.

End Refinement2.

(** ** All operations at once *)

Inductive fc_op :=
  | op_pin | op_unpin | op_reserve (popped : bool) | op_publish (release_pin : bool)
  | op_release_to_free | op_discard | op_mark_dirty | op_acquire_shared | op_release_shared
  | op_acquire_exclusive | op_release_exclusive | op_queue (skip_if_pinned : bool)
  | op_begin | op_cancel | op_complete (succeeded : bool).

(** An operation's effect on the word, its result dropped. *)
Definition effect {W A} : cas_step W A -> cas_step W unit := map_cas id (fun _ => tt).

Definition word_step (op : fc_op) (w : Z) : cas_step Z unit :=
  match op with
  | op_pin => effect (TryPinResident w)
  | op_unpin => effect (Unpin w)
  | op_reserve popped => effect (TryReserve popped w)
  | op_publish release_pin => effect (PublishResident release_pin w)
  | op_release_to_free => effect (ReleaseToFree w)
  | op_discard => effect (TryDiscardPinned w)
  | op_mark_dirty => effect (MarkDirty w)
  | op_acquire_shared => effect (TryAcquireShared w)
  | op_release_shared => effect (ReleaseShared w)
  | op_acquire_exclusive => effect (TryAcquireExclusive w)
  | op_release_exclusive => effect (ReleaseExclusive w)
  | op_queue skip => effect (TryQueueWriteback skip w)
  | op_begin => effect (BeginWriteback w)
  | op_cancel => effect (CancelQueuedWriteback w)
  | op_complete succeeded => effect (CompleteWriteback succeeded w)
  end.

Definition ctl_step (op : fc_op) (c : ctl) : cas_step ctl unit :=
  match op with
  | op_pin => effect (pin_ctl c)
  | op_unpin => effect (unpin_ctl c)
  | op_reserve popped => effect (reserve_ctl popped c)
  | op_publish release_pin => effect (publish_ctl release_pin c)
  | op_release_to_free => effect (release_to_free_ctl c)
  | op_discard => effect (discard_ctl c)
  | op_mark_dirty => effect (mark_dirty_ctl c)
  | op_acquire_shared => effect (acquire_shared_ctl c)
  | op_release_shared => effect (release_shared_ctl c)
  | op_acquire_exclusive => effect (acquire_exclusive_ctl c)
  | op_release_exclusive => effect (release_exclusive_ctl c)
  | op_queue skip => effect (queue_ctl skip c)
  | op_begin => effect (begin_ctl c)
  | op_cancel => effect (cancel_ctl c)
  | op_complete succeeded => effect (complete_ctl succeeded c)
  end.

(** What the caller owes: a latch it holds, or the pin it drops. *)
Definition op_pre (op : fc_op) (c : ctl) : Prop :=
  match op with
  | op_release_shared => 0 < c_shared c
  | op_publish release_pin => b2z release_pin <= c_pins c
  | _ => True
  end.

Lemma effect_map {W V A B} (f : W -> V) (g : A -> B) (s : cas_step W A) :
  effect (map_cas f g s) = map_cas f id (effect s).
Proof. by destruct s. Qed.

Lemma effect_next {W A} (P : W -> Prop) (s : cas_step W A) :
  step_next P s -> step_next P (effect s).
Proof. by destruct s. Qed.

(** Each operation, on the encoding of a record of fields. *)
Lemma word_step_encode op c :
  ctl_ok c -> op_pre op c ->
  word_step op (encode c) = map_cas encode id (ctl_step op c) /\
  step_next ctl_ok (ctl_step op c).
Proof.
  intros Hok Hpre.
  destruct op; cbn [word_step ctl_step op_pre] in *;
    match goal with
    | |- effect (TryPinResident _) = _ /\ _ => destruct (TryPinResident_encode c Hok) as [-> ?]
    | |- effect (Unpin _) = _ /\ _ => destruct (Unpin_encode c Hok) as [-> ?]
    | |- effect (TryReserve ?b _) = _ /\ _ => destruct (TryReserve_encode c Hok b) as [-> ?]
    | |- effect (PublishResident ?b _) = _ /\ _ =>
        destruct (PublishResident_encode c Hok b Hpre) as [-> ?]
    | |- effect (ReleaseToFree _) = _ /\ _ => destruct (ReleaseToFree_encode c Hok) as [-> ?]
    | |- effect (TryDiscardPinned _) = _ /\ _ => destruct (TryDiscardPinned_encode c Hok) as [-> ?]
    | |- effect (MarkDirty _) = _ /\ _ => destruct (MarkDirty_encode c Hok) as [-> ?]
    | |- effect (TryAcquireShared _) = _ /\ _ => destruct (TryAcquireShared_encode c Hok) as [-> ?]
    | |- effect (ReleaseShared _) = _ /\ _ => destruct (ReleaseShared_encode c Hok Hpre) as [-> ?]
    | |- effect (TryAcquireExclusive _) = _ /\ _ =>
        destruct (TryAcquireExclusive_encode c Hok) as [-> ?]
    | |- effect (ReleaseExclusive _) = _ /\ _ => destruct (ReleaseExclusive_encode c Hok) as [-> ?]
    | |- effect (TryQueueWriteback ?b _) = _ /\ _ =>
        destruct (TryQueueWriteback_encode c Hok b) as [-> ?]
    | |- effect (BeginWriteback _) = _ /\ _ => destruct (BeginWriteback_encode c Hok) as [-> ?]
    | |- effect (CancelQueuedWriteback _) = _ /\ _ =>
        destruct (CancelQueuedWriteback_encode c Hok) as [-> ?]
    | |- effect (CompleteWriteback ?b _) = _ /\ _ =>
        destruct (CompleteWriteback_encode c Hok b) as [-> ?]
    end; rewrite effect_map; split; try done; by apply effect_next.
Qed.

(** C30 — every operation of the control word, computed with the source's masks,
    shifts and 32-bit arithmetic, acts on the ten fields independently: applied
    to the word that encodes a record of fields it decides as the field-level
    operation does and produces the encoding of its result, whose shared count
    stays below 256 and pin count below 32768, so no count ever carries or
    borrows into a neighbouring field. *)
Theorem frame_control_refines op c :
  ctl_ok c -> op_pre op c ->
  word_step op (encode c) = map_cas encode id (ctl_step op c) /\
  step_next ctl_ok (ctl_step op c).
Proof. apply word_step_encode. Qed.

Lemma frame_control_refines_witness :
  let c := Ctl kResident true false true false false false 255 true 3 in
  word_step op_release_shared (encode c) = map_cas encode id (ctl_step op_release_shared c) /\
  step_next ctl_ok (ctl_step op_release_shared c).
Proof.
  apply (frame_control_refines op_release_shared
           (Ctl kResident true false true false false false 255 true 3)); simpl.
  - split; simpl; lia.
  - lia.
Defined.

(** Every word whose state field is an enumerator is the encoding of its
    decoded fields. *)
Lemma any_bit_z w o : 0 <= o -> b2z (any_bit w (Z.shiftl 1 o)) = (w / 2 ^ o) mod 2.
Proof.
  intros Ho. unfold any_bit. change 1 with (Z.ones 1). rewrite land_field by lia.
  change (2 ^ 1) with 2. pose proof (Z.mod_pos_bound (w / 2 ^ o) 2 ltac:(lia)).
  assert (0 < 2 ^ o) by lia.
  destruct (Z.eqb_spec ((w / 2 ^ o) mod 2 * 2 ^ o) 0); simpl; nia.
Qed.

Lemma encode_decode w c : is_u32 w -> decode w = Some c -> ctl_ok c /\ encode c = w.
Proof.
  intros Hw. unfold decode, State, IsDirty, SharedHolders, Pins, is_u32, u32_mod in *.
  change kStateMask with (Z.ones 2). change kSharedMask with (Z.shiftl (Z.ones 8) 8).
  change kPinMask with (Z.shiftl (Z.ones 15) 17).
  rewrite Z.land_ones, !land_field, !Z.shiftr_div_pow2 by (unfold kSharedShift, kPinShift; lia).
  unfold kSharedShift, kPinShift. rewrite !Z.div_mul by lia.
  destruct (Z.eqb_spec (w mod 2 ^ 2) 0), (Z.eqb_spec (w mod 2 ^ 2) 1),
    (Z.eqb_spec (w mod 2 ^ 2) 2); simpl; intros [= <-];
    cbv [ctl_ok encode c_state c_dirty c_queued c_active c_prefetched c_redirtied c_excl
         c_shared c_waiters c_pins kDirty kWritebackQueued kWritebackActive kPrefetched
         kRedirtied kExclusive kWaiters];
    rewrite !any_bit_z by lia; simpl (2 ^ _) in *; simpl (state_value _);
    split; zdiv_lia.
Qed.

(** An [UpdateAndWake] loop that returned, under any interference by other
    threads and any number of failed exchanges, wrote exactly once; the word it
    returned is the word it replaced, and the word it wrote is [next] of that
    word, with the waiters bit cleared exactly when it had to wake sleepers. *)
Lemma update_and_wake_linearizable next wakes m c w :
  rtc (loop_step (UpdateAndWake next wakes)) (loop_start m) c -> pc c = Finished w ->
  w ∈ history c /\
  own_writes c =
    [(w, if any_bit w kWaiters && wakes w (next w)
         then Z.land (next w) (u32_not kWaiters) else next w)].
Proof.
  intros Hr Hpc.
  destruct (cas_loop_finished _ m c w Hr Hpc) as [(_ & w' & _ & E)|(w' & n & wk & Ew & Hin & E)].
  - done.
  - by injection E as <- <- <-.
Qed.

(** A release of the shared latch that first loses the exchange to a pin. *)
Lemma update_and_wake_linearizable_witness :
  let w1 := encode (Ctl kResident true false false false false false 1 true 1) in
  let w2 := encode (Ctl kResident true false false false false false 1 true 2) in
  w2 ∈ [encode (Ctl kResident true false false false false false 0 false 2); w2; w1] /\
  [(w2, encode (Ctl kResident true false false false false false 0 false 2))] =
    [(w2, Z.land (u32 (w2 - kSharedOne)) (u32_not kWaiters))].
Proof.
  set (w1 := encode (Ctl kResident true false false false false false 1 true 1)).
  set (w2 := encode (Ctl kResident true false false false false false 1 true 2)).
  set (w3 := encode (Ctl kResident true false false false false false 0 false 2)).
  apply (update_and_wake_linearizable (fun word => u32 (word - kSharedOne))
    (fun o n => (SharedHolders n =? 0) || (SharedHolders o =? kMaxShared)) w1
    (Cfg w3 [w3; w2; w1] [(w2, w3)] (Finished w2)) w2); [|reflexivity].
  eapply rtc_l; [apply (loop_other _ w1 [w1] [] (Trying w1) w2)|].
  eapply rtc_l; [eapply loop_cas_failure; vm_compute; reflexivity|].
  eapply rtc_l; [|apply rtc_refl].
  eapply (loop_cas_success _ [w2; w1] [] w2). vm_compute. reflexivity.
Defined.
