(* ===== verification/FrameProtocol.v ===== *)
(** The concurrent protocol of one frame.

    Threads share a frame: its control word ([FrameControl]), its tag, its
    memory, its place in the free list and the writeback in flight.  A thread's
    [role] is where it stands in the buffer manager's code: pinning
    ([buffer_manager_read.cc]), holding a handle ([buffer_manager_handle.cc]),
    loading a page into the frame ([buffer_manager_read.cc],
    [buffer_manager_eviction.cc]), taking a writeback snapshot
    ([buffer_manager_flush.cc]) or dropping the page.  Every step is one atomic
    action: one control-word operation, one store of the tag, one copy made
    while a latch keeps writers out, one disk write.  Threads interleave
    arbitrarily, and a sleeping thread is one inside [FutexWait] of
    [frame_control::WaitWhile].

    [disk] is the backing store and [value] is, for every page, the contents last
    committed: what the last writer of the page had stored when it released its
    exclusive latch.  [elsewhere] tells which pages another frame holds; that frame
    changes their contents and their blocks on disk as it likes, and gives a page up
    only with its contents on disk, as [FrameSafety.eviction_loses_nothing] shows of
    this frame.  The page table gives a page to one frame at a time
    ([PageTable.replace_unless_live_unique]).
    The theorems say that latches exclude, that counts are exact, that a page
    marked clean is on disk, and which waits cannot lose their wake-up. *)
From S2P Require Import Prelude CasLoop FrameControl.

Section Protocol.
Context {T D : Type} `{EqDecision T}.
Variable no_tag : T.
Variable zero_page : D.

(** ** State *)

Inductive role :=
  | RIdle
  (** [TryPinResident] succeeded and no latch is held. *)
  | RPinned
  (** [SharedBufferHandle], [ExclusiveBufferHandle] (with [marked_dirty_]). *)
  | RShared
  | RExcl (marked : bool)
  (** Popped from the free list, not yet reserved. *)
  | RPopped
  (** [TryReserve] succeeded; then the tag is stored, the page table entry
      installed, the page read or zeroed, and published, or the load abandoned. *)
  | RReserved
  | RTagged
  | RLoading
  | RLoaded
  | RZeroed
  | RZeroLatched
  | RAborting
  (** The frame is free again and this thread will push it: after
      [ReleaseToFree], and after [TryDiscardPinned] with the tag not yet
      cleared. *)
  | RFreed
  | RDropped
  (** [PrepareFlushTask] holding the shared latch, without or with a pin of its
      own; [RFlushSnap] is between [TryQueueWriteback] and the copy. *)
  | RFlush (pinned : bool)
  | RFlushSnap (pinned : bool)
  (** The same window in [FlushBuffer] of a handle. *)
  | RSharedSnap
  | RExclSnap (marked : bool).

Inductive wait_kind := WaitShared | WaitExclusive | WaitWriteback | WaitLoad (t : T).

(** Where a thread stands in [WaitWhile]: it loaded a word, found its condition
    blocked, sleeps, or was woken and must reload. *)
Inductive waiting :=
  | Running
  | Seen (k : wait_kind) (w : Z)
  | Ready (k : wait_kind) (w : Z)
  | Asleep (k : wait_kind)
  | Woken (k : wait_kind).

Record thread := Thread { role_of : role; wait_of : waiting }.

(** The writeback in flight: queued without its snapshot, queued, active, and
    written with the outcome of the write. *)
Inductive task :=
  | TQueued
  | TSnapped (t : T) (s : D)
  | TActive (t : T) (s : D)
  | TWritten (t : T) (s : D) (succeeded : bool).

Record frame := Frame {
  word : Z;
  tag : T;
  mem : D;
  disk : T -> D;
  value : T -> D;
  elsewhere : T -> bool;
  zeroed : bool;
  listed : bool;
  wb : option task;
  threads : gmap nat thread
}.

(** ** Steps *)

Definition wake_thread (t : thread) : thread :=
  match wait_of t with
  | Asleep k => Thread (role_of t) (Woken k)
  | _ => t
  end.

Definition wake_if (wake : bool) (m : gmap nat thread) : gmap nat thread :=
  if wake then wake_thread <$> m else m.

(** The word after a successful exchange, sleepers woken, thread [i] in role [r]. *)
Definition exchanged (f : frame) (w : Z) (wake : bool) (i : nat) (r : role) : frame :=
  Frame w (tag f) (mem f) (disk f) (value f) (elsewhere f) (zeroed f) (listed f) (wb f)
    (<[i := Thread r Running]> (wake_if wake (threads f))).

Definition set_word (f : frame) (w : Z) (wake : bool) : frame :=
  Frame w (tag f) (mem f) (disk f) (value f) (elsewhere f) (zeroed f) (listed f) (wb f)
    (wake_if wake (threads f)).
Definition set_tag (f : frame) (t : T) : frame :=
  Frame (word f) t (mem f) (disk f) (value f) (elsewhere f) (zeroed f) (listed f) (wb f) (threads f).
Definition set_mem (f : frame) (d : D) : frame :=
  Frame (word f) (tag f) d (disk f) (value f) (elsewhere f) (zeroed f) (listed f) (wb f) (threads f).
Definition set_disk (f : frame) (t : T) (d : D) : frame :=
  Frame (word f) (tag f) (mem f) (<[t := d]> (disk f)) (value f) (elsewhere f) (zeroed f) (listed f) (wb f)
    (threads f).
Definition set_value (f : frame) (t : T) (d : D) : frame :=
  Frame (word f) (tag f) (mem f) (disk f) (<[t := d]> (value f)) (elsewhere f) (zeroed f) (listed f) (wb f)
    (threads f).
Definition set_elsewhere (f : frame) (t : T) (b : bool) : frame :=
  Frame (word f) (tag f) (mem f) (disk f) (value f) (<[t := b]> (elsewhere f)) (zeroed f) (listed f) (wb f)
    (threads f).
Definition set_zeroed (f : frame) (b : bool) : frame :=
  Frame (word f) (tag f) (mem f) (disk f) (value f) (elsewhere f) b (listed f) (wb f) (threads f).
Definition set_listed (f : frame) (b : bool) : frame :=
  Frame (word f) (tag f) (mem f) (disk f) (value f) (elsewhere f) (zeroed f) b (wb f) (threads f).
Definition set_wb (f : frame) (t : option task) : frame :=
  Frame (word f) (tag f) (mem f) (disk f) (value f) (elsewhere f) (zeroed f) (listed f) t (threads f).
Definition set_thread (f : frame) (i : nat) (r : role) (w : waiting) : frame :=
  Frame (word f) (tag f) (mem f) (disk f) (value f) (elsewhere f) (zeroed f) (listed f) (wb f)
    (<[i := Thread r w]> (threads f)).

(** Thread [i] runs in role [r]. *)
Definition runs (f : frame) (i : nat) (r : role) : Prop := threads f !! i = Some (Thread r Running).
Definition waits (f : frame) (i : nat) (r : role) (w : waiting) : Prop :=
  threads f !! i = Some (Thread r w).

(** The steps that only exchange the control word. *)
Inductive move : role -> role -> fc_op -> Prop :=
  | move_pin : move RIdle RPinned op_pin
  | move_unpin : move RPinned RIdle op_unpin
  | move_acquire_shared : move RPinned RShared op_acquire_shared
  | move_release_shared : move RShared RPinned op_release_shared
  | move_acquire_exclusive : move RPinned (RExcl false) op_acquire_exclusive
  | move_release_exclusive : move (RExcl false) RPinned op_release_exclusive
  | move_reserve_victim : move RIdle RReserved (op_reserve false)
  | move_reserve_popped : move RPopped RReserved (op_reserve true)
  | move_publish : move RLoaded RPinned (op_publish false)
  | move_publish_prefetch : move RLoaded RIdle (op_publish true)
  | move_zero_latch : move RZeroed RZeroLatched op_acquire_exclusive
  | move_release_to_free : move RAborting RFreed op_release_to_free
  | move_flush_latch : move RIdle (RFlush false) op_acquire_shared
  | move_flush_latch_pinned : move RPinned (RFlush true) op_acquire_shared
  | move_flush_unlatch : move (RFlush false) RIdle op_release_shared
  | move_flush_unlatch_pinned : move (RFlush true) RPinned op_release_shared.

(** The roles that may queue a writeback, and their role until the copy. *)
Inductive queues : role -> role -> Prop :=
  | queue_flush p : queues (RFlush p) (RFlushSnap p)
  | queue_shared : queues RShared RSharedSnap
  | queue_excl m : queues (RExcl m) (RExclSnap m).

Definition word_blocked (k : wait_kind) (w : Z) : bool :=
  match k with
  | WaitShared => shared_blocked w
  | WaitExclusive => exclusive_blocked w
  | WaitWriteback => writeback_blocked w
  | WaitLoad _ => true
  end.

(** The condition [WaitWhile] tests on the word [w] it loaded.  The predicate of
    [WaitForLoad] ignores that word and reads the frame again ([IsLoadingTag]). *)
Definition blocked (k : wait_kind) (f : frame) (w : Z) : bool :=
  match k with
  | WaitLoad t => StateIs (word f) kLoading && bool_decide (tag f = t)
  | _ => word_blocked k w
  end.

(** The page table maps the tag to this frame: the frame is resident, or a load has
    installed the entry. *)
Definition installed_of (r : role) : bool :=
  match r with RLoading | RLoaded | RZeroed | RZeroLatched => true | _ => false end.
Definition owns_tag (f : frame) : Prop :=
  IsResident (word f) = true \/ exists i t, threads f !! i = Some t /\ installed_of (role_of t) = true.

Inductive step : frame -> frame -> Prop :=
  | step_move f i r r' op w wake :
      runs f i r -> move r r' op -> word_step op (word f) = Exchange w wake tt ->
      step f (exchanged f w wake i r')
  (** A writer's changes are committed when it releases the latch. *)
  | step_release_written f i w wake :
      runs f i (RExcl true) -> word_step op_release_exclusive (word f) = Exchange w wake tt ->
      step f (set_value (exchanged f w wake i RPinned) (tag f) (mem f))
  | step_pop f i :
      runs f i RIdle -> listed f = true ->
      step f (set_thread (set_listed f false) i RPopped Running)
  | step_push_back f i :
      runs f i RPopped -> step f (set_thread (set_listed f true) i RIdle Running)
  | step_store_tag f i t :
      runs f i RReserved -> step f (set_thread (set_tag f t) i RTagged Running)
  | step_install f i :
      runs f i RTagged -> elsewhere f (tag f) = false -> step f (set_thread f i RLoading Running)
  | step_tag_exists f i :
      runs f i RTagged -> step f (set_thread (set_tag f no_tag) i RAborting Running)
  | step_read f i :
      runs f i RLoading ->
      step f (set_thread (set_zeroed (set_mem f (disk f (tag f))) false) i RLoaded Running)
  | step_zero f i :
      runs f i RLoading -> step f (set_thread (set_mem f zero_page) i RZeroed Running)
  | step_publish_zero f i w wake :
      runs f i RZeroLatched -> word_step (op_publish false) (word f) = Exchange w wake tt ->
      step f (set_zeroed (exchanged f w wake i (RExcl false)) true)
  | step_abort f i d :
      runs f i RLoading ->
      step f (set_thread (set_tag (set_mem f d) no_tag) i RAborting Running)
  | step_push_freed f i :
      runs f i RFreed -> step f (set_thread (set_listed f true) i RIdle Running)
  | step_mark_dirty f i m w wake :
      runs f i (RExcl m) ->
      (word_step op_mark_dirty (word f) = Exchange w wake tt \/
       (word_step op_mark_dirty (word f) = Return tt /\ w = word f /\ wake = false)) ->
      step f (set_zeroed (exchanged f w wake i (RExcl true)) false)
  | step_write f i d :
      runs f i (RExcl true) -> step f (set_mem f d)
  | step_queue f i r r' skip w wake :
      runs f i r -> queues r r' -> word_step (op_queue skip) (word f) = Exchange w wake tt ->
      step f (set_wb (exchanged f w wake i r') (Some TQueued))
  | step_capture f i r r' :
      runs f i r' -> queues r r' ->
      step f (set_thread (set_wb f (Some (TSnapped (tag f) (mem f)))) i r Running)
  | step_cancel f t s w wake :
      wb f = Some (TSnapped t s) -> word_step op_cancel (word f) = Exchange w wake tt ->
      step f (set_wb (set_word f w wake) None)
  | step_begin f t s w wake :
      wb f = Some (TSnapped t s) -> word_step op_begin (word f) = Exchange w wake tt ->
      step f (set_wb (set_word f w wake) (Some (TActive t s)))
  | step_disk_write f t s :
      wb f = Some (TActive t s) ->
      step f (set_wb (set_disk f t s) (Some (TWritten t s true)))
  | step_disk_error f t s torn :
      wb f = Some (TActive t s) ->
      step f (set_wb (set_disk f t torn) (Some (TWritten t s false)))
  | step_complete f t s ok w wake :
      wb f = Some (TWritten t s ok) -> word_step (op_complete ok) (word f) = Exchange w wake tt ->
      step f (set_wb (set_word f w wake) None)
  | step_discard f i w wake :
      runs f i RPinned -> word_step op_discard (word f) = Exchange w wake tt ->
      step f (set_value (exchanged f w wake i RDropped) (tag f) (disk f (tag f)))
  | step_clear_dropped f i :
      runs f i RDropped -> step f (set_thread (set_tag f no_tag) i RFreed Running)
  | step_wait_load f i r k :
      waits f i r Running \/ waits f i r (Woken k) ->
      step f (set_thread f i r (Seen k (word f)))
  | step_wait_return f i r k w :
      waits f i r (Seen k w) -> WaitWhile (blocked k f) w = WaitReturn w ->
      step f (set_thread f i r Running)
  | step_wait_blocked f i r k w :
      waits f i r (Seen k w) -> blocked k f w = true -> step f (set_thread f i r (Ready k w))
  | step_wait_set f i r k w next :
      waits f i r (Ready k w) -> WaitWhile (fun _ => true) w = WaitSetWaiters next ->
      word f = w -> step f (set_thread (set_word f next false) i r (Ready k next))
  | step_wait_set_failed f i r k w next :
      waits f i r (Ready k w) -> WaitWhile (fun _ => true) w = WaitSetWaiters next ->
      step f (set_thread f i r (Seen k (word f)))
  | step_wait_sleep f i r k w :
      waits f i r (Ready k w) -> WaitWhile (fun _ => true) w = WaitSleep w ->
      word f = w -> step f (set_thread f i r (Asleep k))
  | step_wait_no_sleep f i r k w :
      waits f i r (Ready k w) -> WaitWhile (fun _ => true) w = WaitSleep w ->
      word f <> w -> step f (set_thread f i r (Woken k))
  | step_wait_spurious f i r k :
      waits f i r (Asleep k) -> step f (set_thread f i r (Woken k))
  (** Another frame takes a page this one does not own, changes it and its block on
      disk, and gives it up. *)
  | step_other_takes f t : t <> tag f \/ ~ owns_tag f -> step f (set_elsewhere f t true)
  | step_other_changes f t d v : elsewhere f t = true -> step f (set_value (set_disk f t d) t v)
  | step_other_leaves f t : elsewhere f t = true -> disk f t = value f t -> step f (set_elsewhere f t false).

(** A free frame in the free list, nobody using it. *)
Definition initial (f : frame) : Prop :=
  word f = 0 /\ listed f = true /\ wb f = None /\ (forall t, elsewhere f t = false -> disk f t = value f t) /\
  forall i t, threads f !! i = Some t -> t = Thread RIdle Running.

Definition reachable (f : frame) : Prop := exists f0, initial f0 /\ rtc step f0 f.

(** ** Counting roles *)

Definition loader_of (r : role) : Z :=
  match r with
  | RReserved | RTagged | RLoading | RLoaded | RZeroed | RZeroLatched | RAborting => 1
  | _ => 0
  end.
Definition userpin_of (r : role) : Z :=
  match r with
  | RPinned | RShared | RExcl _ | RFlush true | RFlushSnap true | RSharedSnap | RExclSnap _ => 1
  | _ => 0
  end.
Definition shared_of (r : role) : Z :=
  match r with RShared | RFlush _ | RFlushSnap _ | RSharedSnap => 1 | _ => 0 end.
Definition excl_of (r : role) : Z :=
  match r with RExcl _ | RExclSnap _ | RZeroLatched => 1 | _ => 0 end.
Definition owner_of (r : role) : Z :=
  match r with RPopped | RDropped | RFreed => 1 | _ => 0 end.
Definition snap_of (r : role) : Z :=
  match r with RFlushSnap _ | RSharedSnap | RExclSnap _ => 1 | _ => 0 end.

(** The number of threads whose role counts in [g]. *)
Definition count (g : role -> Z) (m : gmap nat thread) : Z := total (fun t => g (role_of t)) m.

Definition queued_task (f : frame) : bool :=
  match wb f with Some TQueued | Some (TSnapped _ _) => true | _ => false end.
Definition active_task (f : frame) : bool :=
  match wb f with Some (TActive _ _) | Some (TWritten _ _ _) => true | _ => false end.
Definition unsnapped_task (f : frame) : bool :=
  match wb f with Some TQueued => true | _ => false end.

(** ** The invariant

    [counts]: the word's fields against the threads' roles. *)
Record counts (c : ctl) (f : frame) : Prop := {
  n_pins : c_pins c = count loader_of (threads f) + count userpin_of (threads f);
  n_shared : c_shared c = count shared_of (threads f);
  n_excl : b2z (c_excl c) = count excl_of (threads f);
  n_loading : b2z (c_is kLoading c) = count loader_of (threads f);
  n_free : b2z (listed f) + count owner_of (threads f) = b2z (c_is kFree c);
  n_snap : count snap_of (threads f) = b2z (unsnapped_task f);
  n_queued : c_queued c = queued_task f;
  n_active : c_active c = active_task f;
  n_idle : c_state c <> kResident ->
    c_dirty c = false /\ c_redirtied c = false /\ c_writeback c = false /\
    count userpin_of (threads f) = 0;
  n_dirty : c_writeback c = true -> c_dirty c = true;
  n_latch : c_excl c = true -> c_shared c = 0
}.

(** [data]: memory, disk and the committed value. *)
Definition role_data (c : ctl) (f : frame) (r : role) : Prop :=
  match r with
  | RLoading | RZeroed | RZeroLatched => elsewhere f (tag f) = false
  | RLoaded => mem f = value f (tag f) /\ zeroed f = false /\ elsewhere f (tag f) = false
  | RExcl true | RExclSnap true => c_dirty c = true
  | RExcl false | RExclSnap false => zeroed f = false -> mem f = value f (tag f)
  | _ => True
  end.

Definition task_data (c : ctl) (f : frame) : Prop :=
  match wb f with
  | Some (TSnapped t s) | Some (TActive t s) | Some (TWritten t s _) =>
      t = tag f /\ (c_redirtied c = false -> c_excl c = false -> s = mem f) /\
      (wb f = Some (TWritten t s true) -> disk f t = s)
  | _ => True
  end.

Record data (c : ctl) (f : frame) : Prop := {
  d_disk u : elsewhere f u = false -> u <> tag f \/ c_state c <> kResident \/ c_dirty c = false -> disk f u = value f u;
  d_own : c_state c = kResident -> elsewhere f (tag f) = false;
  d_dirty : c_state c = kResident -> c_dirty c = true -> zeroed f = false;
  d_clean : c_state c = kResident -> c_excl c = false -> zeroed f = false -> mem f = value f (tag f);
  d_task : task_data c f;
  d_role i t : threads f !! i = Some t -> role_data c f (role_of t)
}.

(** [sleeps]: a thread inside [FutexWait] for a latch or a writeback has the
    waiters bit set and its condition blocked. *)
Definition ctl_blocked (k : wait_kind) (c : ctl) : bool :=
  match k with
  | WaitShared => c_excl c || (kMaxShared <=? c_shared c)
  | WaitExclusive => c_latched c
  | WaitWriteback => c_writeback c
  | WaitLoad _ => true
  end.

Definition wait_ok (c : ctl) (w : waiting) : Prop :=
  match w with
  | Asleep k => c_waiters c = true /\ ctl_blocked k c = true
  | Ready k w => word_blocked k w = true
  | _ => True
  end.

Definition sleeps (c : ctl) (f : frame) : Prop :=
  forall i t, threads f !! i = Some t -> wait_ok c (wait_of t).

Definition inv_at (c : ctl) (f : frame) : Prop :=
  word f = encode c /\ ctl_ok c /\ counts c f /\ data c f /\ sleeps c f.

Definition inv (f : frame) : Prop := exists c, inv_at c f.

(** *** Counting lemmas *)

Lemma wake_role t : role_of (wake_thread t) = role_of t.
Proof. by destruct t as [r []]. Qed.

Lemma count_wake g b m : count g (wake_if b m) = count g m.
Proof.
  destruct b; [|done]. unfold count, wake_if. apply total_fmap. intros t. by rewrite wake_role.
Qed.

Lemma lookup_wake b m i t :
  wake_if b m !! i = Some t ->
  exists t0, m !! i = Some t0 /\ role_of t = role_of t0 /\
    (t = t0 \/ (b = true /\ t = wake_thread t0)).
Proof.
  destruct b; cbn [wake_if].
  - rewrite lookup_fmap. destruct (m !! i) as [t0|]; simpl; [|done].
    intros [= <-]. exists t0. rewrite wake_role. eauto.
  - eauto.
Qed.

Lemma lookup_wake_running b m i r :
  m !! i = Some (Thread r Running) -> wake_if b m !! i = Some (Thread r Running).
Proof. destruct b; [|done]. intros Hi. unfold wake_if. by rewrite lookup_fmap, Hi. Qed.

Lemma count_insert g m i r w r' w' :
  m !! i = Some (Thread r w) -> count g (<[i := Thread r' w']> m) = count g m - g r + g r'.
Proof. intros Hi. unfold count. by rewrite (total_update _ _ _ (Thread r w)). Qed.

Lemma count_exchanged g b m i r r' w :
  m !! i = Some (Thread r Running) ->
  count g (<[i := Thread r' w]> (wake_if b m)) = count g m - g r + g r'.
Proof.
  intros Hi. rewrite (count_insert _ _ _ r Running) by by apply lookup_wake_running.
  by rewrite count_wake.
Qed.

Lemma count_nonneg g m : (forall r, 0 <= g r) -> 0 <= count g m.
Proof. intros Hg. apply total_nonneg. intros t. apply Hg. Qed.

Lemma count_ge g m i r w : (forall r, 0 <= g r) -> m !! i = Some (Thread r w) -> g r <= count g m.
Proof. intros Hg Hi. apply (total_ge (fun t => g (role_of t)) m i (Thread r w)); auto. Qed.

Lemma count_ge2 g m i j r w r' w' :
  (forall r, 0 <= g r) -> i <> j -> m !! i = Some (Thread r w) -> m !! j = Some (Thread r' w') ->
  g r + g r' <= count g m.
Proof.
  intros Hg Hij Hi Hj.
  apply (total_ge2 (fun t => g (role_of t)) m i j (Thread r w) (Thread r' w')); auto.
Qed.

Lemma loader_nonneg r : 0 <= loader_of r. Proof. by destruct r. Qed.
Lemma userpin_nonneg r : 0 <= userpin_of r. Proof. by destruct r as [| | | | | | | | | | | | | |[]|[]| |]. Qed.
Lemma shared_nonneg r : 0 <= shared_of r. Proof. by destruct r. Qed.
Lemma excl_nonneg r : 0 <= excl_of r. Proof. by destruct r. Qed.
Lemma owner_nonneg r : 0 <= owner_of r. Proof. by destruct r. Qed.
Lemma snap_nonneg r : 0 <= snap_of r. Proof. by destruct r. Qed.

(** All bounds a thread's role gives on the counts. *)
Ltac role_bounds Hi :=
  let t g H := pose proof (count_ge g _ _ _ _ H Hi) in
  t loader_of loader_nonneg; t userpin_of userpin_nonneg; t shared_of shared_nonneg;
  t excl_of excl_nonneg; t owner_of owner_nonneg; t snap_of snap_nonneg.

Ltac count_bounds m :=
  pose proof (count_nonneg loader_of m loader_nonneg);
  pose proof (count_nonneg userpin_of m userpin_nonneg);
  pose proof (count_nonneg shared_of m shared_nonneg);
  pose proof (count_nonneg excl_of m excl_nonneg);
  pose proof (count_nonneg owner_of m owner_nonneg);
  pose proof (count_nonneg snap_of m snap_nonneg).

(** What one exchange of the word does to the fields. *)
Lemma word_exchange op c w wake :
  ctl_ok c -> op_pre op c -> word_step op (encode c) = Exchange w wake tt ->
  exists c', w = encode c' /\ ctl_ok c' /\ ctl_step op c = Exchange c' wake tt.
Proof.
  intros Hok Hpre Hw. destruct (word_step_encode op c Hok Hpre) as [E Hn].
  rewrite Hw in E. destruct (ctl_step op c) as [[]| |c' wk []]; try done.
  simpl in E, Hn. injection E as -> ->. eauto.
Qed.

Ltac ctl_cbn :=
  cbn [c_state c_dirty c_queued c_active c_prefetched c_redirtied c_excl c_shared c_waiters
       c_pins set_state set_dirty set_queued set_active set_redirtied set_excl set_shared
       set_waiters set_pins] in *.

(** The exchange an operation makes, as equations between fields. *)
Ltac exchange_cases H :=
  cbn [ctl_step] in H;
  unfold effect, pin_ctl, unpin_ctl, reserve_ctl, publish_ctl, release_to_free_ctl, discard_ctl,
    mark_dirty_ctl, acquire_shared_ctl, release_shared_ctl, acquire_exclusive_ctl,
    release_exclusive_ctl, queue_ctl, begin_ctl, cancel_ctl, complete_ctl, wake_all in H;
  repeat case_match; cbn [map_cas] in H; try discriminate H;
  first [injection H as <- <- | injection H as <-].

Ltac bools :=
  repeat match goal with
  | H : negb _ = true |- _ => apply negb_true_iff in H
  | H : negb _ = false |- _ => apply negb_false_iff in H
  | H : _ && _ = true |- _ => apply andb_true_iff in H as [? ?]
  | H : _ || _ = false |- _ => apply orb_false_iff in H as [? ?]
  | H : (_ =? _) = true |- _ => apply Z.eqb_eq in H
  | H : (_ =? _) = false |- _ => apply Z.eqb_neq in H
  | H : (_ <? _) = true |- _ => apply Z.ltb_lt in H
  | H : (_ <? _) = false |- _ => apply Z.ltb_ge in H
  end.

(** Evaluate the comparisons of concrete states. *)
Ltac state_consts :=
  repeat match goal with
  | H : context [b2z (bool_decide (?s = ?t))] |- _ =>
      let v := eval cbv in (b2z (bool_decide (s = t))) in
      change (b2z (bool_decide (s = t))) with v in H
  | |- context [b2z (bool_decide (?s = ?t))] =>
      let v := eval cbv in (b2z (bool_decide (s = t))) in
      change (b2z (bool_decide (s = t))) with v
  end.

(** Case analysis on the state of a decoded word, and the facts each state gives. *)
Ltac counts_finish :=
  repeat match goal with
  | H : bool_decide (?s = _) = _ |- _ => is_var s; destruct s
  | |- context [bool_decide (?s = _)] => is_var s; destruct s
  | H : ?s <> kResident -> _ |- _ => is_var s; destruct s
  end;
  repeat match goal with
  | H : ?s <> kResident -> _ |- _ => specialize (H ltac:(discriminate)); destruct_and! H
  end;
  try done; try lia; intros; subst; cbn [b2z negb orb andb] in *;
  try done; try lia; rewrite ?orb_true_r, ?orb_false_r in *;
  state_consts;
  try done; try lia; bools; repeat split; try done; try lia; try congruence;
  try (apply orb_false_iff; done); auto.

(** The invariant's arithmetic after an exchange: [rw] rewrites the counts of
    the new threads. *)
Ltac counts_script rw :=
  split; cbn [exchanged threads listed wb set_wb set_word set_zeroed set_value];
  unfold queued_task, active_task, unsnapped_task in *;
  cbn [wb set_wb set_word set_zeroed set_value exchanged]; rw;
  unfold reservable_ctl, c_latched, c_writeback, c_is in *;
  match goal with c : ctl |- _ => destruct c end; ctl_cbn; bools;
  cbn [loader_of userpin_of shared_of excl_of owner_of snap_of] in *;
  try done; try lia; counts_finish.

Lemma counts_move c f i r r' op c' w wake :
  counts c f -> runs f i r -> move r r' op -> ctl_step op c = Exchange c' wake tt ->
  counts c' (exchanged f w wake i r').
Proof.
  intros [? ? ? ? ? ? ? ? ? ? ?] Hi Hm Hs. unfold runs in Hi. role_bounds Hi.
  pose proof (b2z_bound (c_excl c)). pose proof (b2z_bound (listed f)).
  destruct Hm; exchange_cases Hs;
    counts_script ltac:(rewrite ?(count_exchanged _ _ _ _ _ _ _ Hi)).
Qed.

Lemma counts_publish_zero c f i c' w wake :
  counts c f -> runs f i RZeroLatched -> ctl_step (op_publish false) c = Exchange c' wake tt ->
  counts c' (set_zeroed (exchanged f w wake i (RExcl false)) true).
Proof.
  intros [? ? ? ? ? ? ? ? ? ? ?] Hi Hs. unfold runs in Hi. role_bounds Hi.
  pose proof (b2z_bound (c_excl c)). pose proof (b2z_bound (listed f)).
  exchange_cases Hs; counts_script ltac:(rewrite ?(count_exchanged _ _ _ _ _ _ _ Hi)).
Qed.

Lemma counts_release_written c f i c' w wake t d :
  counts c f -> runs f i (RExcl true) -> ctl_step op_release_exclusive c = Exchange c' wake tt ->
  counts c' (set_value (exchanged f w wake i RPinned) t d).
Proof.
  intros [? ? ? ? ? ? ? ? ? ? ?] Hi Hs. unfold runs in Hi. role_bounds Hi.
  pose proof (b2z_bound (c_excl c)). pose proof (b2z_bound (listed f)).
  exchange_cases Hs; counts_script ltac:(rewrite ?(count_exchanged _ _ _ _ _ _ _ Hi)).
Qed.

Lemma counts_mark_dirty c f i m c' w wake :
  counts c f -> runs f i (RExcl m) -> ctl_step op_mark_dirty c = Exchange c' wake tt ->
  counts c' (set_zeroed (exchanged f w wake i (RExcl true)) false).
Proof.
  intros [? ? ? ? ? ? ? ? ? ? ?] Hi Hs. unfold runs in Hi. role_bounds Hi.
  pose proof (b2z_bound (c_excl c)). pose proof (b2z_bound (listed f)).
  exchange_cases Hs; counts_script ltac:(rewrite ?(count_exchanged _ _ _ _ _ _ _ Hi)).
Qed.

Lemma counts_queue c f i r r' skip c' w wake :
  counts c f -> runs f i r -> queues r r' -> ctl_step (op_queue skip) c = Exchange c' wake tt ->
  counts c' (set_wb (exchanged f w wake i r') (Some TQueued)).
Proof.
  intros [? ? ? ? ? ? ? ? ? ? ?] Hi Hq Hs. unfold runs in Hi. role_bounds Hi.
  pose proof (b2z_bound (c_excl c)). pose proof (b2z_bound (listed f)).
  destruct Hq; exchange_cases Hs;
    counts_script ltac:(rewrite ?(count_exchanged _ _ _ _ _ _ _ Hi));
    destruct (wb f) as [[]|]; cbn [b2z] in *; try done; lia.
Qed.

Lemma counts_discard c f i c' w wake t d :
  counts c f -> runs f i RPinned -> ctl_step op_discard c = Exchange c' wake tt ->
  counts c' (set_value (exchanged f w wake i RDropped) t d).
Proof.
  intros [? ? ? ? ? ? ? ? ? ? ?] Hi Hs. unfold runs in Hi. role_bounds Hi.
  pose proof (b2z_bound (c_excl c)). pose proof (b2z_bound (listed f)).
  exchange_cases Hs; counts_script ltac:(rewrite ?(count_exchanged _ _ _ _ _ _ _ Hi)).
Qed.

(** The flush task's own exchanges. *)
Inductive task_op : option task -> fc_op -> option task -> Prop :=
  | task_cancel t s : task_op (Some (TSnapped t s)) op_cancel None
  | task_begin t s : task_op (Some (TSnapped t s)) op_begin (Some (TActive t s))
  | task_complete t s ok : task_op (Some (TWritten t s ok)) (op_complete ok) None.

Lemma counts_task c f op b c' w wake :
  counts c f -> task_op (wb f) op b -> ctl_step op c = Exchange c' wake tt ->
  counts c' (set_wb (set_word f w wake) b).
Proof.
  intros [? ? ? ? ? ? ? ? ? ? ?] Hop Hs. remember (wb f) as b0 eqn:Eb.
  count_bounds (threads f). pose proof (b2z_bound (c_excl c)). pose proof (b2z_bound (listed f)).
  destruct Hop; exchange_cases Hs; counts_script ltac:(rewrite <- ?Eb in *; rewrite ?count_wake).
Qed.

(** A step that leaves the word alone and moves one thread. *)
Lemma counts_thread c f f' i r w r' w' :
  counts c f -> threads f !! i = Some (Thread r w) -> threads f' = <[i := Thread r' w']> (threads f) ->
  loader_of r' = loader_of r -> userpin_of r' = userpin_of r -> shared_of r' = shared_of r ->
  excl_of r' = excl_of r -> b2z (listed f') + owner_of r' = b2z (listed f) + owner_of r ->
  snap_of r' - b2z (unsnapped_task f') = snap_of r - b2z (unsnapped_task f) ->
  queued_task f' = queued_task f -> active_task f' = active_task f ->
  counts c f'.
Proof.
  intros [? ? ? ? ? ? ? ? ? ? ?] Hi Ht ? ? ? ? ? ? Hq Ha.
  split; rewrite ?Ht, ?(count_insert _ _ _ _ _ _ _ Hi), ?Hq, ?Ha; try done; try lia.
  intros Hr. destruct (n_idle0 Hr) as (? & ? & ? & ?). repeat split; try done; lia.
Qed.

Lemma counts_same c f f' :
  counts c f -> threads f' = threads f -> listed f' = listed f ->
  unsnapped_task f' = unsnapped_task f -> queued_task f' = queued_task f ->
  active_task f' = active_task f -> counts c f'.
Proof. intros [] Ht Hl Hu Hq Ha. split; rewrite ?Ht, ?Hl, ?Hu, ?Hq, ?Ha; done. Qed.

Lemma counts_waiters c f b : counts c f -> counts (set_waiters b c) f.
Proof. by intros []; split. Qed.

(** *** Sleepers *)

(** An exchange that wakes nobody while the waiters bit is set keeps the bit and
    every blocked condition blocked. *)
Lemma quiet_exchange op c c' k :
  ctl_ok c -> op_pre op c -> ctl_step op c = Exchange c' false tt -> c_waiters c = true ->
  ctl_blocked k c = true ->
  c_waiters c' = true /\ ctl_blocked k c' = true.
Proof.
  intros [? ?] Hp Hs Hw Hb.
  destruct op; exchange_cases Hs; try congruence;
    destruct k; cbn [ctl_blocked op_pre] in *; unfold reservable_ctl, c_latched, c_writeback in *;
    destruct c; ctl_cbn; subst; cbn [negb orb andb] in *; bools; subst; try done;
    unfold kMaxShared in *; split; try done;
    repeat match goal with |- context [?b || _] => is_var b; destruct b end; cbn [orb] in *;
    try done; rewrite ?negb_true_iff, ?Z.eqb_neq, ?Z.leb_le in *; lia.
Qed.

Lemma sleeps_wake op c c' f f' i r wake :
  ctl_ok c -> op_pre op c -> sleeps c f -> ctl_step op c = Exchange c' wake tt ->
  (threads f' = <[i := Thread r Running]> (wake_if wake (threads f)) \/
   threads f' = wake_if wake (threads f)) ->
  sleeps c' f'.
Proof.
  intros Hok Hp Hsl Hs Ht j t Hj.
  assert (t = Thread r Running \/ wake_if wake (threads f) !! j = Some t) as [->|Hj'].
  { destruct Ht as [Ht|Ht]; rewrite Ht in Hj; [|by right].
    destruct (decide (i = j)) as [->|Hne].
    - rewrite lookup_insert_eq in Hj. left; congruence.
    - rewrite lookup_insert_ne in Hj by done. by right. }
  { done. }
  destruct (lookup_wake _ _ _ _ Hj') as (t0 & Hj0 & _ & Ht0). specialize (Hsl _ _ Hj0).
  destruct wake; [|destruct Ht0 as [->|[? _]]; [|done]].
  - cbn [wake_if] in Hj'. rewrite lookup_fmap, Hj0 in Hj'. injection Hj' as <-.
    destruct t0 as [r0 []]; done.
  - destruct (wait_of t0) as [|?|?|k|?]; try done. destruct Hsl as [Hw Hb].
    by apply (quiet_exchange op c).
Qed.

Lemma sleeps_thread c f f' i r w :
  sleeps c f -> threads f' = <[i := Thread r w]> (threads f) -> wait_ok c w -> sleeps c f'.
Proof.
  intros Hsl Ht Hw j t Hj. rewrite Ht in Hj. destruct (decide (i = j)) as [->|Hne].
  - rewrite lookup_insert_eq in Hj. by injection Hj as <-.
  - rewrite lookup_insert_ne in Hj by done. eauto.
Qed.

Lemma sleeps_same c f f' : sleeps c f -> threads f' = threads f -> sleeps c f'.
Proof. intros Hsl Ht j t Hj. rewrite Ht in Hj. eauto. Qed.

Lemma word_blocked_encode k c : ctl_ok c -> word_blocked k (encode c) = ctl_blocked k c.
Proof.
  intros Hok.
  destruct k; cbn [word_blocked ctl_blocked];
    unfold shared_blocked, exclusive_blocked, writeback_blocked; autorewrite with words; done.
Qed.

(** *** Memory and disk *)

Lemma insert_role (P : role -> Prop) b m i r w j t :
  (forall k t0, k <> i -> m !! k = Some t0 -> P (role_of t0)) -> P r ->
  <[i := Thread r w]> (wake_if b m) !! j = Some t -> P (role_of t).
Proof.
  intros Hm Hr. destruct (decide (i = j)) as [->|Hne].
  - rewrite lookup_insert_eq. by intros [= <-].
  - rewrite lookup_insert_ne by done. intros Hj.
    destruct (lookup_wake _ _ _ _ Hj) as (t0 & ? & -> & _). eauto.
Qed.

(** Threads that keep their roles keep their data facts when the fields and the
    frame they look at are unchanged. *)
Lemma role_data_keep c c' f f' r :
  role_data c f r -> (c_dirty c = true -> c_dirty c' = true) -> mem f' = mem f ->
  value f' = value f -> tag f' = tag f -> zeroed f' = zeroed f -> elsewhere f' = elsewhere f -> role_data c' f' r.
Proof.
  intros Hr Hd Hm Hv Ht Hz He. destruct r as [| | |[]| | | | | | | | | | | | | |[]]; simpl in *;
    rewrite ?Hm, ?Hv, ?Ht, ?Hz, ?He; auto.
Qed.

(** Only the holder of the exclusive latch writes, and only while the frame is
    resident. *)
Lemma excl_pinned c f i t m :
  counts c f -> threads f !! i = Some t -> role_of t = RExcl m \/ role_of t = RExclSnap m ->
  c_excl c = true /\ c_state c = kResident /\ 1 <= c_pins c.
Proof.
  intros [? ? ? ? ? ? ? ? ? ? ?] Hi Hr. destruct t as [r w]. role_bounds Hi.
  pose proof (loader_nonneg r).
  assert (userpin_of r = 1 /\ excl_of r = 1) as [? ?] by (by destruct Hr; simpl in *; subst r).
  split; [|split].
  - destruct (c_excl c); [done|]. simpl in *. lia.
  - destruct (decide (c_state c = kResident)) as [|Hn]; [done|].
    destruct (n_idle0 Hn) as (_ & _ & _ & ?). lia.
  - lia.
Qed.

Lemma loader_state c f i r w :
  counts c f -> threads f !! i = Some (Thread r w) -> loader_of r = 1 -> c_state c = kLoading.
Proof.
  intros [? ? ? ? ? ? ? ? ? ? ?] Hi Hr. role_bounds Hi. unfold c_is in *.
  destruct (c_state c); simpl in *; try done; exfalso; cbn in n_loading0; lia.
Qed.

Lemma loader_unique c f i j r w r' w' :
  counts c f -> threads f !! i = Some (Thread r w) -> threads f !! j = Some (Thread r' w') ->
  loader_of r = 1 -> loader_of r' = 1 -> i = j.
Proof.
  intros [? ? ? ? ? ? ? ? ? ? ?] Hi Hj Hr Hr'. destruct (decide (i = j)) as [|Hne]; [done|].
  pose proof (count_ge2 loader_of _ _ _ _ _ _ _ loader_nonneg Hne Hi Hj).
  pose proof (b2z_bound (c_is kLoading c)). lia.
Qed.

Lemma idle_task c f : counts c f -> c_writeback c = false -> wb f = None.
Proof.
  intros [? ? ? ? ? ? Hq Ha ? ? ?] Hw. unfold c_writeback in Hw. rewrite Hq, Ha in Hw.
  unfold queued_task, active_task in Hw. by destruct (wb f) as [[]|].
Qed.

Lemma busy_task c f : counts c f -> wb f <> None -> c_writeback c = true.
Proof.
  intros Hc Hw. destruct (c_writeback c) eqn:E; [done|]. by apply (idle_task c f Hc) in E.
Qed.

Lemma unloaded_clean c f : counts c f -> c_state c <> kResident -> c_dirty c = false /\ wb f = None.
Proof.
  intros Hc Hs. destruct (n_idle c f Hc Hs) as (? & _ & ? & _). split; [done|].
  by apply (idle_task c).
Qed.

(** Frames that agree on the page. *)
Definition same_page (f f' : frame) : Prop :=
  mem f' = mem f /\ disk f' = disk f /\ value f' = value f /\ tag f' = tag f /\
  zeroed f' = zeroed f /\ wb f' = wb f /\ elsewhere f' = elsewhere f.

(** State and dirty bit kept, the task's view not weakened. *)
Lemma data_keep c c' f f' :
  data c f -> same_page f f' -> c_state c' = c_state c -> c_dirty c' = c_dirty c ->
  (wb f <> None -> c_redirtied c' = false -> c_excl c' = false ->
   c_redirtied c = false /\ c_excl c = false) ->
  (c_excl c' = false -> c_state c = kResident -> zeroed f = false -> mem f = value f (tag f)) ->
  (forall i t, threads f' !! i = Some t -> role_data c' f' (role_of t)) -> data c' f'.
Proof.
  intros [Hdisk Hown Hdirty Hclean Htask Hrole] (Em & Ed & Ev & Et & Ez & Ew & Ee) Es Edi Hb Hcl Hr.
  split; rewrite ?Em, ?Ed, ?Ev, ?Et, ?Ez, ?Es, ?Edi, ?Ee; auto.
  unfold task_data in *. rewrite ?Em, ?Ed, ?Ev, ?Et, ?Ez, ?Ew.
  destruct (wb f) as [[]|]; try done; destruct Htask as (-> & Hs & Hw); repeat split; auto;
    intros; apply Hs; by apply Hb.
Qed.

(** A frame not resident: nothing in flight, the disk holds every page no other
    frame has. *)
Lemma data_unloaded c' f' :
  c_state c' <> kResident -> wb f' = None -> (forall u, elsewhere f' u = false -> disk f' u = value f' u) ->
  (forall i t, threads f' !! i = Some t -> role_data c' f' (role_of t)) -> data c' f'.
Proof. intros Hs Hw Hd Hr. split; auto; try done. unfold task_data. by rewrite Hw. Qed.

(** No thread holds the exclusive latch or loads: every role's facts are trivial. *)
Lemma role_data_quiet c c' f f' t i :
  counts c f -> threads f !! i = Some t -> c_pins c = 0 -> role_data c' f' (role_of t).
Proof.
  intros Hc Hi Hp. destruct t as [r w]. pose proof (n_pins c f Hc). role_bounds Hi.
  count_bounds (threads f). destruct r as [| | |[]| | | | | | | | | | | | | |[]]; simpl in *; try done; lia.
Qed.

Lemma data_reserve c f i r b c' w wake :
  counts c f -> data c f -> threads f !! i = Some (Thread r Running) ->
  ctl_step (op_reserve b) c = Exchange c' wake tt ->
  data c' (exchanged f w wake i RReserved).
Proof.
  intros Hc Hd Hi Hs.
  assert (c_pins c = 0 /\ c_writeback c = false /\ (c_state c <> kResident \/ c_dirty c = false))
    as (Hp & Hw & Hcl).
  { exchange_cases Hs; unfold reservable_ctl, c_is in *; bools; repeat split; try done;
      destruct (c_state c), (c_dirty c); simpl in *; auto; done. }
  apply data_unloaded.
  - by exchange_cases Hs.
  - by apply (idle_task c f).
  - intros u Hu. apply (d_disk c f Hd); auto.
  - intros j t. apply insert_role; [|done]. intros k t0 _ Hk. by eapply role_data_quiet.
Qed.

(** No thread but the loader looks at a frame that is loading. *)
Lemma role_data_loading c c' f f' i r w j t :
  counts c f -> threads f !! i = Some (Thread r w) -> loader_of r = 1 -> j <> i ->
  threads f !! j = Some t -> role_data c' f' (role_of t).
Proof.
  intros Hc Hi Hl Hne Hj. pose proof (loader_state c f i r w Hc Hi Hl) as Hs.
  destruct t as [r' w']. assert (loader_of r' <> 1) as Hn.
  { intros Hl'. apply Hne. eauto using loader_unique. }
  assert (userpin_of r' = 0) as Hu.
  { destruct (n_idle c f Hc) as (_ & _ & _ & Hz); [congruence|]. role_bounds Hj.
    pose proof (userpin_nonneg r'). lia. }
  by destruct r' as [| | |[]| | | | | | | | | | | | | |[]].
Qed.

Lemma data_publish c f i b r' c' w wake :
  counts c f -> data c f -> threads f !! i = Some (Thread RLoaded Running) ->
  ctl_step (op_publish b) c = Exchange c' wake tt -> r' = RPinned \/ r' = RIdle ->
  data c' (exchanged f w wake i r').
Proof.
  intros Hc Hd Hi Hs Hr'. pose proof (loader_state c f i _ _ Hc Hi eq_refl) as Hst.
  destruct (unloaded_clean c f Hc ltac:(congruence)) as [Hcl Hwb].
  destruct (d_role c f Hd _ _ Hi) as (Hm & Hz & He).
  assert (c_dirty c' = c_dirty c) as Edi by by exchange_cases Hs.
  split; cbn [exchanged mem disk value elsewhere tag zeroed wb threads]; auto.
  - intros u Hu _. apply (d_disk c f Hd); [done|]. right; left. congruence.
  - unfold task_data. cbn [exchanged wb]. by rewrite Hwb.
  - intros j t. apply insert_role.
    + intros k t0 Hne Hk. by eapply role_data_loading.
    + by destruct Hr' as [-> | ->].
Qed.

Lemma data_free c f i c' w wake :
  counts c f -> data c f -> threads f !! i = Some (Thread RAborting Running) ->
  ctl_step op_release_to_free c = Exchange c' wake tt -> data c' (exchanged f w wake i RFreed).
Proof.
  intros Hc Hd Hi Hs. pose proof (loader_state c f i _ _ Hc Hi eq_refl) as Hst.
  destruct (unloaded_clean c f Hc ltac:(congruence)) as [Hcl Hwb].
  apply data_unloaded; try done.
  - by exchange_cases Hs.
  - intros u Hu. apply (d_disk c f Hd); [done|]. right; left. congruence.
  - intros j t. apply insert_role; [|done]. intros k t0 Hne Hk. by eapply role_data_loading.
Qed.

Lemma same_page_exchanged f w b i r : same_page f (exchanged f w b i r).
Proof. by repeat split. Qed.

Lemma data_move c f i r r' op c' w wake :
  counts c f -> data c f -> runs f i r -> move r r' op -> ctl_step op c = Exchange c' wake tt ->
  data c' (exchanged f w wake i r').
Proof.
  intros Hc Hd Hi Hm Hs. unfold runs in Hi. pose proof (d_role c f Hd _ _ Hi) as Hri. cbn [role_of] in Hri.
  assert (forall c', c_dirty c' = c_dirty c -> role_data c' f r' ->
    forall j t, threads (exchanged f w wake i r') !! j = Some t ->
                role_data c' (exchanged f w wake i r') (role_of t)) as Hroles.
  { intros c'' Edi Hr' j t. apply insert_role; [|by apply (role_data_keep c'' _ f)].
    intros k t0 _ Hk. apply (role_data_keep c _ f); try done; [|congruence]. by eapply d_role. }
  pose proof (d_clean c f Hd) as Hcl.
  destruct Hm;
    try (by eapply data_reserve); try (by eapply data_free);
    try (eapply data_publish; eauto; fail);
    exchange_cases Hs;
    (eapply data_keep; [done|apply same_page_exchanged|done|done| | |apply Hroles; try done]);
    cbn; try done; try congruence; auto.
  all: try (intros Hw Hr _; rewrite (busy_task c f Hc Hw), orb_true_r in Hr; done).
  apply Hcl; [|unfold c_latched in *; by destruct (c_excl c)].
  destruct (decide (c_state c = kResident)) as [|Hn]; [done|]. destruct (n_idle c f Hc Hn) as (_ & _ & _ & Hu).
  pose proof (count_ge userpin_of _ _ _ _ userpin_nonneg Hi). cbn in *. lia.
Qed.

Lemma data_publish_zero c f i c' w wake :
  counts c f -> data c f -> runs f i RZeroLatched ->
  ctl_step (op_publish false) c = Exchange c' wake tt ->
  data c' (set_zeroed (exchanged f w wake i (RExcl false)) true).
Proof.
  intros Hc Hd Hi Hs. pose proof (loader_state c f i _ _ Hc Hi eq_refl) as Hst.
  destruct (unloaded_clean c f Hc ltac:(congruence)) as [Hcl Hwb].
  assert (c_dirty c' = c_dirty c) as Edi by by exchange_cases Hs.
  split; cbn [exchanged mem disk value elsewhere tag zeroed wb threads set_zeroed]; try done.
  - intros u Hu _. apply (d_disk c f Hd); [done|]. right; left. congruence.
  - intros _. by apply (d_role c f Hd _ _ Hi).
  - congruence.
  - unfold task_data. cbn [exchanged wb set_zeroed]. by rewrite Hwb.
  - intros j t. apply insert_role; [|done].
    intros k t0 Hne Hk. by eapply role_data_loading.
Qed.

(** While a handle holds the exclusive latch nobody else loads or writes. *)
Lemma role_data_excl c c' f f' i r w j t :
  counts c f -> c_state c = kResident -> threads f !! i = Some (Thread r w) -> excl_of r = 1 -> j <> i ->
  threads f !! j = Some t -> role_data c' f' (role_of t).
Proof.
  intros Hc Hs Hi Hr Hne Hj. destruct t as [r' w']. cbn [role_of].
  assert (loader_of r' <> 1) as Hl by (intros Hl; pose proof (loader_state c f j _ _ Hc Hj Hl); congruence).
  assert (excl_of r' <> 1) as He.
  { intros He. pose proof (count_ge2 excl_of _ _ _ _ _ _ _ excl_nonneg Hne Hj Hi). pose proof (n_excl c f Hc).
    pose proof (b2z_bound (c_excl c)). lia. }
  by destruct r' as [| | |[]| | | | | | | | | | | | | |[]].
Qed.

(** After [MarkDirty], and after a store through a marked handle: the page is dirty,
    and its memory is the writer's. *)
Lemma data_written c c' f f' i m w :
  counts c f -> data c f -> threads f !! i = Some (Thread (RExcl m) w) -> c_state c' = c_state c -> c_dirty c' = true ->
  c_excl c' = c_excl c -> tag f' = tag f -> disk f' = disk f -> wb f' = wb f -> value f' = value f ->
  elsewhere f' = elsewhere f -> zeroed f' = false ->
  (forall j t, threads f' !! j = Some t -> role_of t = RExcl true \/ exists t0, j <> i /\ threads f !! j = Some t0 /\ role_of t = role_of t0) ->
  data c' f'.
Proof.
  intros Hc Hd Hi Es Hdi Ee Et Ed Ew Ev Eel Ez Hth. destruct (excl_pinned c f i _ m Hc Hi) as (Hex & Hs & _); [by left|].
  split; rewrite ?Et, ?Ed, ?Ev, ?Eel, ?Ee, ?Es, ?Hdi.
  - intros u Hu [Hu'|[Hu'|Hu']]; try congruence. apply (d_disk c f Hd); auto.
  - by apply (d_own c f Hd).
  - done.
  - congruence.
  - pose proof (d_task c f Hd) as Ht. unfold task_data in *. rewrite Ew, Et, Ed.
    destruct (wb f) as [[]|]; try done; destruct Ht as (? & _ & ?); repeat split; try done; intros; congruence.
  - intros j t Hj. destruct (Hth j t Hj) as [->|(t0 & Hne & Hj0 & ->)]; [done|]. by eapply (role_data_excl c c' f f' i).
Qed.

(** A writer releases the latch: what it stored is committed. *)
Lemma data_release_written c f i c' w wake :
  counts c f -> data c f -> runs f i (RExcl true) -> ctl_step op_release_exclusive c = Exchange c' wake tt ->
  data c' (set_value (exchanged f w wake i RPinned) (tag f) (mem f)).
Proof.
  intros Hc Hd Hi Hs. unfold runs in Hi. destruct (excl_pinned c f i _ true Hc Hi) as (Hex & Hst & _); [by left|].
  pose proof (d_role c f Hd _ _ Hi) as Hdi. cbn in Hdi.
  assert (c_state c' = c_state c /\ c_dirty c' = c_dirty c /\ (c_writeback c = true -> c_redirtied c' = true)) as (Es & Edi & Er).
  { exchange_cases Hs; cbn; repeat split; auto; intros ->; apply orb_true_r. }
  split; cbn [set_value exchanged mem disk value elsewhere tag zeroed wb threads]; rewrite ?Es, ?Edi.
  - intros u Hu [Hu'|[Hu'|Hu']]; try congruence. rewrite fn_lookup_insert_ne by done. apply (d_disk c f Hd); auto.
  - apply Hd.
  - apply Hd.
  - intros _ _ _. by rewrite fn_lookup_insert.
  - pose proof (d_task c f Hd) as Ht. unfold task_data in *. cbn [set_value exchanged wb tag mem disk].
    destruct (wb f) as [b|] eqn:Ew; [|done]. specialize (Er (busy_task c f Hc ltac:(by rewrite Ew))).
    destruct b; try done; destruct Ht as (? & _ & ?); repeat split; try done; intros; congruence.
  - intros j t. apply insert_role; [|done]. intros k t0 Hne Hk. by eapply (role_data_excl c _ f _ i).
Qed.

Lemma mark_dirty_result c c' wake :
  ctl_step op_mark_dirty c = Exchange c' wake tt ->
  c_state c' = c_state c /\ c_dirty c' = true /\ c_excl c' = c_excl c.
Proof. intros Hs. by exchange_cases Hs. Qed.

Lemma data_mark_dirty c f i m c' w wake :
  counts c f -> data c f -> runs f i (RExcl m) -> c_state c' = c_state c -> c_dirty c' = true ->
  c_excl c' = c_excl c -> data c' (set_zeroed (exchanged f w wake i (RExcl true)) false).
Proof.
  intros Hc Hd Hi Es Edi Ee. eapply (data_written c c' f _ i); try done. cbn [set_zeroed exchanged threads]. intros j t Hj.
  destruct (decide (j = i)) as [->|Hne]; [rewrite lookup_insert_eq in Hj; injection Hj as <-; by left|].
  rewrite lookup_insert_ne in Hj by done. right. destruct (lookup_wake _ _ _ _ Hj) as (t0 & ? & ? & _). by exists t0.
Qed.

Lemma data_write c f i d : counts c f -> data c f -> runs f i (RExcl true) -> data c (set_mem f d).
Proof.
  intros Hc Hd Hi. pose proof (d_role c f Hd _ _ Hi) as Hdi. destruct (excl_pinned c f i _ true Hc Hi) as (_ & Hs & _); [by left|].
  eapply (data_written c c f _ i); try done; [by apply (d_dirty c f Hd)|]. cbn [set_mem threads]. intros j t Hj.
  destruct (decide (j = i)) as [->|Hne]; [left|right; by exists t]. unfold runs in Hi. rewrite Hi in Hj. by injection Hj as <-.
Qed.

Lemma data_queue c f i r r' skip c' w wake :
  counts c f -> data c f -> runs f i r -> queues r r' ->
  ctl_step (op_queue skip) c = Exchange c' wake tt ->
  data c' (set_wb (exchanged f w wake i r') (Some TQueued)).
Proof.
  intros Hc Hd Hi Hq Hs. pose proof (d_role c f Hd _ _ Hi) as Hr.
  assert (c_state c' = c_state c /\ c_dirty c' = c_dirty c /\ c_excl c' = c_excl c) as (Es & Edi & Ee) by by exchange_cases Hs.
  split; cbn [exchanged mem disk value elsewhere tag zeroed wb threads set_wb]; rewrite ?Es, ?Edi, ?Ee;
    try apply Hd; try done.
  intros j t. apply insert_role.
  - intros k t0 _ Hk. apply (role_data_keep c _ f); try done; [|congruence]. by eapply d_role.
  - destruct Hq as [| |[]]; simpl in *; congruence || auto.
Qed.

(** Between [TryQueueWriteback] and the copy no other thread can write. *)
Lemma data_capture c f i r r' :
  counts c f -> data c f -> runs f i r' -> queues r r' ->
  data c (set_thread (set_wb f (Some (TSnapped (tag f) (mem f)))) i r Running).
Proof.
  intros Hc Hd Hi Hq. pose proof (d_role c f Hd _ _ Hi) as Hr.
  split; cbn [set_thread mem disk value elsewhere tag zeroed wb threads set_wb]; try apply Hd.
  - unfold task_data. by cbn [set_thread wb set_wb mem tag].
  - intros j t. apply (insert_role (role_data c _) false).
    + intros k t0 _ Hk. apply (role_data_keep c _ f); try done. by eapply d_role.
    + by destruct Hq as [| |[]].
Qed.

(** The flush task's exchanges: [CompleteWriteback] clears the dirty bit only
    when the written snapshot is still the page. *)
Lemma data_task c f op b c' w wake :
  counts c f -> data c f -> task_op (wb f) op b -> ctl_step op c = Exchange c' wake tt ->
  data c' (set_wb (set_word f w wake) b).
Proof.
  intros Hc Hd Hop Hs. pose proof (d_task c f Hd) as Ht. unfold task_data in Ht.
  assert (wb f <> None) as Hwb by (by destruct Hop).
  pose proof (busy_task c f Hc Hwb) as Hbusy. pose proof (n_dirty c f Hc Hbusy) as Hdi.
  remember (wb f) as b0 eqn:Eb.
  assert (c_state c' = c_state c /\ c_excl c' = c_excl c) as [Es Ee] by (by destruct Hop; exchange_cases Hs).
  assert (c_state c = kResident) as Hres.
  { destruct (decide (c_state c = kResident)) as [|Hn]; [done|].
    destruct (unloaded_clean c f Hc Hn). congruence. }
  assert (c_dirty c' = false -> disk f (tag f) = value f (tag f) /\ c_excl c = false) as Hclean.
  { destruct Hop; exchange_cases Hs; ctl_cbn; try (intros; congruence);
      destruct Ht as (-> & Hm & Hw); unfold clears_ctl, c_is; rewrite Hdi, Hres;
      destruct ok, (c_redirtied c) eqn:Er, (c_excl c) eqn:Ex; simpl; try done; intros _;
      (split; [|done]); rewrite (Hw eq_refl), (Hm eq_refl eq_refl); apply (d_clean c f Hd); try done; by apply (d_dirty c f Hd). }
  split; cbn [mem disk value elsewhere tag zeroed wb threads set_wb set_word]; rewrite ?Es, ?Ee.
  - intros u Hel [Hu|[Hu|Hu]]; try congruence.
    + apply (d_disk c f Hd); auto.
    + destruct (decide (u = tag f)) as [->|]; [by apply Hclean|]. apply (d_disk c f Hd); auto.
  - apply Hd.
  - intros _ _. by apply (d_dirty c f Hd).
  - apply Hd.
  - unfold task_data. cbn [wb set_wb set_word mem tag disk].
    destruct Hop; try done. destruct Ht as (-> & Hm & _). repeat split; try done.
    exchange_cases Hs; done.
  - intros j t Hj. destruct (lookup_wake _ _ _ _ Hj) as (t0 & Hj0 & -> & _).
    pose proof (d_role c f Hd _ _ Hj0) as Hr.
    assert (c_dirty c' = false -> forall m, role_of t0 <> RExcl m /\ role_of t0 <> RExclSnap m) as Hn.
    { intros Hf m. destruct (Hclean Hf) as [_ He].
      split; intros E; destruct (excl_pinned c f j t0 m Hc Hj0) as (? & _); auto; congruence. }
    destruct (role_of t0) as [| | |[]| | | | | | | | | | | | | |[]]; simpl in *; try done;
      destruct (c_dirty c') eqn:E; try done; by destruct (Hn eq_refl true).
Qed.

(** *** Steps that leave the word alone *)

Lemma data_loader c f f' i r r' w w' :
  counts c f -> data c f -> threads f !! i = Some (Thread r w) -> loader_of r = 1 ->
  threads f' = <[i := Thread r' w']> (threads f) -> disk f' = disk f -> value f' = value f ->
  wb f' = wb f -> elsewhere f' = elsewhere f -> role_data c f' r' -> data c f'.
Proof.
  intros Hc Hd Hi Hl Ht Ed Ev Ew Ee Hr. pose proof (loader_state c f i _ _ Hc Hi Hl) as Hst.
  destruct (unloaded_clean c f Hc ltac:(congruence)) as [Hcl Hwb].
  apply data_unloaded; [congruence|congruence| |].
  - intros u. rewrite Ed, Ev, Ee. intros Hu. apply (d_disk c f Hd); [done|]. right; left. congruence.
  - intros j t Hj. rewrite Ht in Hj. revert Hj.
    apply (insert_role (role_data c f') false); [|done].
    intros k t0 Hne Hk. by eapply role_data_loading.
Qed.

Lemma data_thread c c' f f' i r w r' w' :
  data c f -> threads f !! i = Some (Thread r w) -> same_page f f' ->
  threads f' = <[i := Thread r' w']> (threads f) ->
  c_state c' = c_state c -> c_dirty c' = c_dirty c -> c_redirtied c' = c_redirtied c ->
  c_excl c' = c_excl c -> (role_data c f r -> role_data c f r') -> data c' f'.
Proof.
  intros Hd Hi Hp Ht Es Edi Er Ee Hr. destruct Hp as (Em & Ed & Ev & Et & Ez & Ew & Eel).
  assert (forall r, role_data c f r -> role_data c' f' r) as Hk.
  { intros r0 H0. apply (role_data_keep c _ f); try done; congruence. }
  apply (data_keep c _ f); try done; try congruence.
  - intros _. by rewrite Er, Ee.
  - rewrite Ee. intros. by apply (d_clean c f Hd).
  - intros j t Hj. rewrite Ht in Hj. revert Hj.
    apply (insert_role (role_data c' f') false).
    + intros k t0 _ Hk0. apply Hk. by eapply d_role.
    + apply Hk, Hr. by apply (d_role c f Hd _ _ Hi).
Qed.

Lemma owner_free c f i r w :
  counts c f -> threads f !! i = Some (Thread r w) -> owner_of r = 1 ->
  c_state c = kFree /\ listed f = false /\ c_pins c = 0.
Proof.
  intros [Hpins ? ? Hload Hfree ? ? ? Hidle ? ?] Hi Hr. role_bounds Hi.
  pose proof (b2z_bound (listed f)). unfold c_is in *.
  destruct (listed f), (c_state c) eqn:Es; state_consts; cbn [b2z] in *; try (exfalso; lia).
  destruct Hidle as (_ & _ & _ & Hu); [done|]. repeat split. lia.
Qed.

Lemma data_clear_dropped c f i :
  counts c f -> data c f -> runs f i RDropped ->
  data c (set_thread (set_tag f no_tag) i RFreed Running).
Proof.
  intros Hc Hd Hi. destruct (owner_free c f i _ _ Hc Hi eq_refl) as (Hs & _ & Hp).
  destruct (unloaded_clean c f Hc ltac:(congruence)) as [_ Hwb].
  apply data_unloaded; [congruence|done| |].
  - intros u Hu. apply (d_disk c f Hd); [done|]. right; left. congruence.
  - intros j t. apply (insert_role (role_data c _) false); [|done].
    intros k t0 _ Hk. by eapply role_data_quiet.
Qed.

Lemma data_discard c f i c' w wake :
  counts c f -> data c f -> runs f i RPinned -> ctl_step op_discard c = Exchange c' wake tt ->
  data c' (set_value (exchanged f w wake i RDropped) (tag f) (disk f (tag f))).
Proof.
  intros Hc Hd Hi Hs.
  assert (c_state c' = kFree /\ c_state c = kResident /\ c_writeback c = false /\ c_excl c = false)
    as (Hs' & Hst & Hw & He).
  { exchange_cases Hs; unfold c_is, c_latched in *; bools; destruct (c_state c); done. }
  apply data_unloaded; [congruence|by apply (idle_task c f)| |].
  - intros u Hu. cbn [set_value exchanged disk value]. destruct (decide (u = tag f)) as [->|Hne].
    + by rewrite fn_lookup_insert.
    + rewrite fn_lookup_insert_ne by done. apply (d_disk c f Hd); auto.
  - intros j t. apply insert_role; [|done]. intros k [r0 w0] _ Hk.
    assert (loader_of r0 <> 1) as Hl by (intros Hl; pose proof (loader_state c f k _ _ Hc Hk Hl); congruence).
    assert (forall m, r0 <> RExcl m /\ r0 <> RExclSnap m) as Hx.
    { intros m. split; intros ->; destruct (excl_pinned c f k _ m Hc Hk) as (? & _); try (by left); try (by right); congruence. }
    destruct r0 as [| | |m| | | | | | | | | | | | | |m]; simpl in *; try done; by destruct (Hx m).
Qed.

(** The write of the snapshot, successful or torn. *)
Lemma data_disk_write c f t s d ok :
  counts c f -> data c f -> wb f = Some (TActive t s) -> (ok = true -> d = s) ->
  data c (set_wb (set_disk f t d) (Some (TWritten t s ok))).
Proof.
  intros Hc Hd Hw Hok. pose proof (d_task c f Hd) as Ht. unfold task_data in Ht. rewrite Hw in Ht.
  destruct Ht as (-> & Hm & _).
  assert (wb f <> None) as Hn by (by rewrite Hw).
  pose proof (n_dirty c f Hc (busy_task c f Hc Hn)) as Hdi.
  assert (c_state c = kResident) as Hres.
  { destruct (decide (c_state c = kResident)) as [|Hr]; [done|].
    destruct (unloaded_clean c f Hc Hr). congruence. }
  split; cbn [set_wb set_disk mem disk value elsewhere tag zeroed wb threads]; try apply Hd.
  - intros u Hel [Hu|[Hu|Hu]]; try congruence.
    rewrite fn_lookup_insert_ne by done. apply (d_disk c f Hd); auto.
  - unfold task_data. cbn [set_wb set_disk wb tag mem disk]. repeat split; try done.
    intros [= ->]. rewrite fn_lookup_insert. auto.
Qed.

(** The page of a frame that has it, or is loading it, is held by no other frame. *)
Lemma data_own c f r i w :
  data c f -> threads f !! i = Some (Thread r w) -> installed_of r = true -> elsewhere f (tag f) = false.
Proof. intros Hd Hi Hr. pose proof (d_role c f Hd _ _ Hi) as H. destruct r; try done. apply H. Qed.

Lemma data_other_takes c f t :
  data c f -> (c_state c = kResident \/ (exists i u, threads f !! i = Some u /\ installed_of (role_of u) = true) -> t <> tag f) ->
  data c (set_elsewhere f t true).
Proof.
  intros Hd Hne. assert (forall u, (<[t := true]> (elsewhere f)) u = false -> elsewhere f u = false) as He.
  { intros u. destruct (decide (u = t)) as [->|Hu]; [by rewrite fn_lookup_insert|by rewrite fn_lookup_insert_ne]. }
  split; cbn [set_elsewhere mem disk value elsewhere tag zeroed wb threads]; try apply Hd.
  - intros u Hu. by apply (d_disk c f Hd), He.
  - intros Hs. rewrite fn_lookup_insert_ne by (intros E; apply Hne; [by left|done]). by apply Hd.
  - intros i u Hi. pose proof (d_role c f Hd _ _ Hi) as Hr.
    assert (installed_of (role_of u) = true -> (<[t := true]> (elsewhere f)) (tag f) = false) as Hin.
    { intros Hr'. rewrite fn_lookup_insert_ne by (intros E; apply Hne; [right; by exists i, u|done]). destruct u. by eapply data_own. }
    destruct (role_of u) as [| | |[]| | | | | | | | | | | | | |[]]; simpl in *; auto. destruct Hr as (? & ? & _). auto.
Qed.

Lemma data_other_changes c f t d v :
  counts c f -> data c f -> elsewhere f t = true -> data c (set_value (set_disk f t d) t v).
Proof.
  intros Hc Hd Ht. assert (forall u, elsewhere f u = false -> u <> t) as Hne by (intros u Hu ->; congruence).
  pose proof (fun H => Hne _ (d_own c f Hd H)) as Hown.
  split; cbn [set_value set_disk mem disk value elsewhere tag zeroed wb threads]; try apply Hd.
  - intros u Hu. specialize (Hne u Hu). rewrite !fn_lookup_insert_ne by done. by apply (d_disk c f Hd).
  - intros Hs. specialize (Hown Hs). rewrite fn_lookup_insert_ne by done. by apply (d_clean c f Hd).
  - pose proof (d_task c f Hd) as Htk. unfold task_data in *. cbn [set_value set_disk mem disk value tag wb].
    destruct (wb f) as [b|] eqn:Ew; [|done].
    assert (tag f <> t) as Htg.
    { apply Hown. destruct (decide (c_state c = kResident)) as [|Hn]; [done|]. destruct (unloaded_clean c f Hc Hn). congruence. }
    destruct b; try done; destruct Htk as (-> & ? & ?); rewrite fn_lookup_insert_ne by done; done.
  - intros i u Hi. pose proof (d_role c f Hd _ _ Hi) as Hr. destruct u as [r w]. cbn [role_of] in *.
    assert (forall m, r = RExcl m \/ r = RExclSnap m -> tag f <> t) as Hx.
    { intros m Hm. apply Hown. by apply (excl_pinned c f i _ m Hc Hi). }
    destruct r as [| | |[]| | | | | | | | | | | | | |[]]; simpl in *; try done.
    + rewrite fn_lookup_insert_ne by (symmetry; apply (Hx false); auto). done.
    + destruct Hr as (? & ? & He). rewrite fn_lookup_insert_ne by (symmetry; by apply Hne). done.
    + rewrite fn_lookup_insert_ne by (symmetry; apply (Hx false); auto). done.
Qed.

Lemma data_other_leaves c f t : data c f -> disk f t = value f t -> data c (set_elsewhere f t false).
Proof.
  intros Hd Ht. assert (forall u, elsewhere f u = false -> (<[t := false]> (elsewhere f)) u = false) as He.
  { intros u Hu. destruct (decide (u = t)) as [->|Hne]; [by rewrite fn_lookup_insert|by rewrite fn_lookup_insert_ne]. }
  split; cbn [set_elsewhere mem disk value elsewhere tag zeroed wb threads]; try apply Hd.
  - intros u Hu. destruct (decide (u = t)) as [->|Hne]; [done|]. rewrite fn_lookup_insert_ne in Hu by done. by apply (d_disk c f Hd).
  - intros Hs. by apply He, Hd.
  - intros i u Hi. pose proof (d_role c f Hd _ _ Hi) as Hr. destruct (role_of u) as [| | |[]| | | | | | | | | | | | | |[]]; simpl in *; auto.
    destruct Hr as (? & ? & ?). auto.
Qed.

(** *** The invariant is inductive *)

Lemma move_pre c f i r r' op : counts c f -> runs f i r -> move r r' op -> op_pre op c.
Proof.
  intros Hc Hi Hm. pose proof (n_pins c f Hc). pose proof (n_shared c f Hc).
  unfold runs in Hi. role_bounds Hi.
  destruct Hm; cbn [op_pre b2z loader_of userpin_of shared_of] in *; try done; lia.
Qed.

Lemma inv_exchange op c f f' i r w wake :
  inv_at c f -> op_pre op c -> word_step op (word f) = Exchange w wake tt ->
  word f' = w ->
  (threads f' = <[i := Thread r Running]> (wake_if wake (threads f)) \/
   threads f' = wake_if wake (threads f)) ->
  (forall c', ctl_step op c = Exchange c' wake tt -> counts c' f' /\ data c' f') -> inv f'.
Proof.
  intros (Hw & Hok & Hc & Hd & Hsl) Hp Hs Ew Ht Hcd. rewrite Hw in Hs.
  destruct (word_exchange _ _ _ _ Hok Hp Hs) as (c' & -> & Hok' & Hs').
  destruct (Hcd c' Hs'). exists c'. unfold inv_at; split_and!; try done.
  by apply (sleeps_wake op c c' f f' i r wake).
Qed.

(** A step that leaves the word alone and moves thread [i]. *)
Lemma inv_thread c f f' i r w r' w' :
  inv_at c f -> threads f !! i = Some (Thread r w) -> word f' = word f ->
  threads f' = <[i := Thread r' w']> (threads f) -> wait_ok c w' ->
  counts c f' -> data c f' -> inv f'.
Proof.
  intros (Hw & Hok & Hc & Hd & Hsl) Hi Ew Ht Hwait Hc' Hd'.
  exists c. unfold inv_at; split_and!; try done; [congruence|]. by eapply sleeps_thread.
Qed.

(** A step of [WaitWhile]. *)
Lemma inv_wait c f i r w w' :
  inv_at c f -> threads f !! i = Some (Thread r w) -> wait_ok c w' -> inv (set_thread f i r w').
Proof.
  intros Hinv Hi Hw'. pose proof Hinv as (Hw & Hok & Hc & Hd & Hsl).
  apply (inv_thread c f _ i r w r w'); try done.
  - by eapply counts_thread.
  - by eapply (data_thread c c f _ i r w r w').
Qed.

Lemma inv_set_waiters c f i r k w next :
  inv_at c f -> waits f i r (Ready k w) -> WaitWhile (fun _ => true) w = WaitSetWaiters next ->
  word f = w -> inv (set_thread (set_word f next false) i r (Ready k next)).
Proof.
  intros (Hw & Hok & Hc & Hd & Hsl) Hi Hww Ew. subst w.
  pose proof (Hsl _ _ Hi) as Hb. cbn [wait_of wait_ok] in Hb.
  unfold WaitWhile in Hww. cbn [negb] in Hww. rewrite Hw in Hww, Hb.
  destruct (any_bit (encode c) kWaiters); [done|]. injection Hww as <-.
  rewrite lor_waiters by done. assert (ctl_ok (set_waiters true c)) as Hok' by by apply ctl_ok_waiters.
  exists (set_waiters true c). unfold inv_at; split_and!; try done.
  - apply counts_waiters. by eapply (counts_thread c f).
  - by eapply (data_thread c _ f _ i r).
  - apply (sleeps_thread _ (set_word f (encode (set_waiters true c)) false) _ i r
             (Ready k (encode (set_waiters true c)))); [|done|].
    + intros j t Hj. specialize (Hsl j t Hj). destruct (wait_of t) as [| | |k0|]; try done.
      destruct Hsl as [_ Hbl]. split; [done|]. by destruct k0.
    + cbn [wait_ok]. rewrite word_blocked_encode in * by done. by destruct k.
Qed.

Lemma inv_mark_dirty c f i m w wake :
  inv_at c f -> runs f i (RExcl m) ->
  (word_step op_mark_dirty (word f) = Exchange w wake tt \/
   (word_step op_mark_dirty (word f) = Return tt /\ w = word f /\ wake = false)) ->
  inv (set_zeroed (exchanged f w wake i (RExcl true)) false).
Proof.
  intros Hinv Hi Hs. pose proof Hinv as (Hw & Hok & Hc & Hd & Hsl).
  destruct Hs as [Hs|(Hs & -> & ->)].
  - eapply (inv_exchange op_mark_dirty c f _ i); try done; [by left|]. intros c' Hs'.
    destruct (mark_dirty_result _ _ _ Hs') as (? & ? & ?).
    split; [by eapply counts_mark_dirty|by eapply data_mark_dirty].
  - destruct (excl_pinned c f i _ m Hc Hi) as (_ & Hres & _); [by left|].
    assert (c_dirty c = true) as Hdi.
    { rewrite Hw, (proj1 (word_step_encode op_mark_dirty c Hok I)) in Hs. cbn [ctl_step] in Hs.
      unfold mark_dirty_ctl, c_is in Hs. rewrite Hres in Hs. by destruct (c_dirty c). }
    eapply (inv_thread c f _ i); try done; [|by eapply data_mark_dirty].
    by eapply (counts_thread c f).
Qed.

Lemma inv_task c f op b w wake :
  inv_at c f -> task_op (wb f) op b -> word_step op (word f) = Exchange w wake tt ->
  inv (set_wb (set_word f w wake) b).
Proof.
  intros Hinv Hop Hs. pose proof Hinv as (Hw & Hok & Hc & Hd & Hsl).
  eapply (inv_exchange op c f _ 0%nat RIdle); try done; [by destruct Hop|by right|].
  intros c' Hs'. split; [by eapply counts_task|by eapply data_task].
Qed.

(** A disk write or a change of another page: no thread and no bit moves. *)
Lemma inv_same c f f' :
  inv_at c f -> word f' = word f -> threads f' = threads f -> counts c f' -> data c f' -> inv f'.
Proof.
  intros (Hw & Hok & Hc & Hd & Hsl) Ew Ht Hc' Hd'. exists c. unfold inv_at; split_and!; try done.
  - congruence.
  - by apply (sleeps_same c f).
Qed.

Lemma counts_capture c f i r r' :
  counts c f -> runs f i r' -> queues r r' ->
  counts c (set_thread (set_wb f (Some (TSnapped (tag f) (mem f)))) i r Running).
Proof.
  intros Hc Hi Hq.
  assert (wb f = Some TQueued) as Hb.
  { pose proof (n_snap c f Hc). unfold runs in Hi. role_bounds Hi. unfold unsnapped_task in *.
    destruct Hq; cbn [snap_of] in *; destruct (wb f) as [[]|]; cbn [b2z] in *; try done; lia. }
  eapply (counts_thread c f); try done; try (by destruct Hq);
    unfold unsnapped_task, queued_task, active_task; simpl; rewrite Hb; [|done..].
  by destruct Hq.
Qed.

(** The word a thread sleeps on has the waiters bit and blocks it. *)
Lemma sleep_ok c f i r k w :
  inv_at c f -> waits f i r (Ready k w) -> WaitWhile (fun _ => true) w = WaitSleep w ->
  word f = w -> wait_ok c (Asleep k).
Proof.
  intros (Hw & Hok & _ & _ & Hsl) Hi Hww Ew. subst w.
  pose proof (Hsl _ _ Hi) as Hb. cbn [wait_of wait_ok] in *.
  unfold WaitWhile in Hww. cbn [negb] in Hww. rewrite Hw, any_waiters in Hww by done.
  rewrite Hw, word_blocked_encode in Hb by done. by destruct (c_waiters c).
Qed.

Ltac thread_step c f i Hi :=
  eapply (inv_thread c f _ i); [done|exact Hi|done|done|done|by eapply (counts_thread c f)|].

Lemma inv_step f f' : inv f -> step f f' -> inv f'.
Proof.
  intros [c Hinv] Hst. pose proof Hinv as (Hw & Hok & Hc & Hd & Hsl).
  destruct Hst as [f i r r' op w wake Hi Hm Hs|f i w wake Hi Hs|f i Hi Hl|f i Hi|f i t Hi|f i Hi He|f i Hi|f i Hi|f i Hi
    |f i w wake Hi Hs|f i d Hi|f i Hi|f i m w wake Hi Hs|f i d Hi|f i r r' skip w wake Hi Hq Hs
    |f i r r' Hi Hq|f t s w wake Hb Hs|f t s w wake Hb Hs|f t s Hb|f t s torn Hb
    |f t s ok w wake Hb Hs|f i w wake Hi Hs|f i Hi|f i r k Hi|f i r k w Hi Hww|f i r k w Hi Hbl
    |f i r k w next Hi Hww Ew|f i r k w next Hi Hww|f i r k w Hi Hww Ew|f i r k w Hi Hww Ew
    |f i r k Hi|f t Ht|f t d v Ht|f t Ht Hdv].
  - eapply (inv_exchange op c f _ i); try done; [by eapply move_pre|by left|].
    intros c' Hs'. split; [by eapply counts_move|by eapply data_move].
  - eapply (inv_exchange op_release_exclusive c f _ i); try done; [by left|].
    intros c' Hs'. split; [by eapply counts_release_written|by eapply data_release_written].
  - destruct (listed f) eqn:El; [|done].
    eapply (inv_thread c f _ i); [done|exact Hi|done|done|done| |by eapply (data_thread c _ f)].
    eapply (counts_thread c f); try done. simpl. by rewrite El.
  - destruct (owner_free c f i _ _ Hc Hi eq_refl) as (_ & El & _).
    eapply (inv_thread c f _ i); [done|exact Hi|done|done|done| |by eapply (data_thread c _ f)].
    eapply (counts_thread c f); try done. simpl. by rewrite El.
  - thread_step c f i Hi. by eapply (data_loader c f _ i).
  - thread_step c f i Hi. by eapply (data_loader c f _ i).
  - thread_step c f i Hi. by eapply (data_loader c f _ i).
  - thread_step c f i Hi. eapply (data_loader c f _ i); try done. pose proof (d_role c f Hd _ _ Hi) as He. cbn in He. split; [|done]. simpl.
    apply (d_disk c f Hd); [done|]. right; left. by rewrite (loader_state c f i _ _ Hc Hi).
  - thread_step c f i Hi. eapply (data_loader c f _ i); try done. by apply (d_role c f Hd _ _ Hi).
  - eapply (inv_exchange (op_publish false) c f _ i); try done; [|by left|].
    + pose proof (n_pins c f Hc). unfold runs in Hi. role_bounds Hi. cbn in *. lia.
    + intros c' Hs'. split; [by eapply counts_publish_zero|by eapply data_publish_zero].
  - thread_step c f i Hi. by eapply (data_loader c f _ i).
  - destruct (owner_free c f i _ _ Hc Hi eq_refl) as (_ & El & _).
    eapply (inv_thread c f _ i); [done|exact Hi|done|done|done| |by eapply (data_thread c _ f)].
    eapply (counts_thread c f); try done. simpl. by rewrite El.
  - by eapply inv_mark_dirty.
  - apply (inv_same c f); try done; [by eapply counts_same|by eapply data_write].
  - eapply (inv_exchange (op_queue skip) c f _ i); try done; [by left|].
    intros c' Hs'. split; [by eapply counts_queue|by eapply data_queue].
  - eapply (inv_thread c f _ i); [done|exact Hi|done|done|done| |by eapply data_capture].
    by apply (counts_capture c f i r r').
  - by eapply inv_task; [done|rewrite Hb; constructor|].
  - by eapply inv_task; [done|rewrite Hb; constructor|].
  - apply (inv_same c f); try done; [|by eapply data_disk_write].
    eapply counts_same; try done; unfold unsnapped_task, queued_task, active_task; simpl; by rewrite Hb.
  - apply (inv_same c f); try done; [|by eapply data_disk_write].
    eapply counts_same; try done; unfold unsnapped_task, queued_task, active_task; simpl; by rewrite Hb.
  - by eapply inv_task; [done|rewrite Hb; constructor|].
  - eapply (inv_exchange op_discard c f _ i); try done; [by left|].
    intros c' Hs'. split; [by eapply counts_discard|by eapply data_discard].
  - thread_step c f i Hi. by eapply data_clear_dropped.
  - destruct Hi as [Hi|Hi]; by eapply inv_wait.
  - by eapply inv_wait.
  - eapply inv_wait; try done. by destruct k.
  - by eapply inv_set_waiters.
  - by eapply inv_wait.
  - eapply inv_wait; try done. by eapply sleep_ok.
  - by eapply inv_wait.
  - by eapply inv_wait.
  - apply (inv_same c f); try done; [by eapply counts_same|]. apply data_other_takes; [done|]. intros Ho.
    destruct Ht as [?|Hn]; [done|]. exfalso. apply Hn. destruct Ho as [Hs|Ho]; [left|by right].
    rewrite Hw, IsResident_encode by done. unfold c_is. by rewrite Hs.
  - apply (inv_same c f); try done; [by eapply counts_same|]. by apply data_other_changes.
  - apply (inv_same c f); try done; [by eapply counts_same|]. by apply data_other_leaves.
Qed.

Lemma inv_initial f : initial f -> inv f.
Proof.
  intros (Hw & Hl & Hb & Hd & Ht).
  assert (forall g, g RIdle = 0 -> count g (threads f) = 0) as Hz.
  { intros g Hg. unfold count. apply total_zero. intros i t Hi. by rewrite (Ht i t Hi). }
  exists (Ctl kFree false false false false false false 0 false 0).
  unfold inv_at; split_and!; try done.
  - split; rewrite ?Hl; unfold unsnapped_task, queued_task, active_task; rewrite ?Hb, ?Hz;
      try done.
  - split; try done.
    + intros u Hu _. by apply Hd.
    + unfold task_data. by rewrite Hb.
    + intros i t Hi. by rewrite (Ht i t Hi).
  - intros i t Hi. by rewrite (Ht i t Hi).
Qed.

Lemma inv_reachable f : reachable f -> inv f.
Proof.
  intros (f0 & H0 & Hr). apply inv_initial in H0. induction Hr; eauto using inv_step.
Qed.

End Protocol.
