(* ===== verification/FrameSafety.v ===== *)
(** What the frame protocol guarantees, and the one wait it does not protect.

    The properties below hold in every reachable state of [FrameProtocol.step]:
    any number of threads, any interleaving, exchanges that fail, spurious
    wake-ups, failed and torn disk writes. *)
From S2P Require Import Prelude CasLoop FrameControl FrameProtocol.

Section Safety.
Context {T D : Type} `{EqDecision T}.
Variable no_tag : T.
Variable zero_page : D.

Local Abbreviation frame := (@frame T D).
Local Abbreviation reachable := (@reachable T D _ no_tag zero_page).
Local Abbreviation step := (@step T D _ no_tag zero_page).

(** A thread holds the content latch shared, exclusive; holds a pin of its own. *)
Definition holds_shared (f : frame) (i : nat) : Prop :=
  exists t, threads f !! i = Some t /\ shared_of (role_of t) = 1.
Definition holds_exclusive (f : frame) (i : nat) : Prop :=
  exists t, threads f !! i = Some t /\ excl_of (role_of t) = 1.
Definition holds_pin (f : frame) (i : nat) : Prop :=
  exists t, threads f !! i = Some t /\ userpin_of (role_of t) = 1.

Lemma pinned_resident c (f : frame) i : counts c f -> holds_pin f i -> c_state c = kResident.
Proof.
  intros Hc ([r w] & Hi & Hr). destruct (decide (c_state c = kResident)) as [|Hn]; [done|].
  destruct (n_idle c f Hc Hn) as (_ & _ & _ & Hu). pose proof (count_ge userpin_of _ _ _ _ userpin_nonneg Hi).
  cbn [role_of] in *. lia.
Qed.

(** C24 — the content latch excludes: while a thread holds it exclusively no other
    thread holds it, shared or exclusively, whatever mixture of handles, flushes
    and zeroing loads contend for the frame. *)
Theorem latch_exclusion (f : frame) i j :
  reachable f -> holds_exclusive f i -> i <> j -> ~ holds_shared f j /\ ~ holds_exclusive f j.
Proof.
  intros Hr ([ri wi] & Hi & Ei) Hij. apply inv_reachable in Hr as (c & _ & _ & Hc & _).
  pose proof (n_excl c f Hc) as He. pose proof (b2z_bound (c_excl c)). cbn [role_of] in *.
  split; intros ([rj wj] & Hj & Ej); cbn [role_of] in *.
  - pose proof (count_ge excl_of _ _ _ _ excl_nonneg Hi).
    pose proof (count_ge shared_of _ _ _ _ shared_nonneg Hj).
    pose proof (n_shared c f Hc). destruct (c_excl c) eqn:E; cbn [b2z] in *; [|lia].
    pose proof (n_latch c f Hc E). lia.
  - pose proof (count_ge2 excl_of _ _ _ _ _ _ _ excl_nonneg Hij Hi Hj). lia.
Qed.

(** The counters of the control word are exact: the pin field is the number
    of threads that pinned or are loading the frame, the shared field the number
    of shared holders, the exclusive bit tells whether there is an exclusive
    holder, and at most 255 threads hold the latch shared and 32767 pin. *)
Lemma counters_exact (f : frame) :
  reachable f ->
  Pins (word f) = count loader_of (threads f) + count userpin_of (threads f) /\
  SharedHolders (word f) = count shared_of (threads f) /\
  b2z (any_bit (word f) kExclusive) = count excl_of (threads f) /\
  Pins (word f) <= kMaxPins /\ SharedHolders (word f) <= kMaxShared.
Proof.
  intros Hr. apply inv_reachable in Hr as (c & Hw & Hok & Hc & _). pose proof Hok as [? ?].
  rewrite Hw. autorewrite with words. unfold kMaxPins, kMaxShared.
  split_and!; try lia; apply Hc.
Qed.

(** C23 — no committed update is lost by eviction: whenever this frame can be taken
    for another page (a [TryReserve] from the free list or of a victim succeeds),
    the disk holds what was last committed to every page that no other frame has;
    the page of a resident frame, the one evicted, is among them. *)
Theorem eviction_loses_nothing (f : frame) popped w wake :
  reachable f -> word_step (op_reserve popped) (word f) = Exchange w wake tt ->
  (forall u, elsewhere f u = false -> disk f u = value f u) /\
  (IsResident (word f) = true -> elsewhere f (tag f) = false /\ disk f (tag f) = value f (tag f)).
Proof.
  intros Hr Hs. apply inv_reachable in Hr as (c & Hw & Hok & Hc & Hd & _). rewrite Hw in Hs |- *.
  destruct (word_exchange (op_reserve popped) c _ _ Hok I Hs) as (c' & _ & _ & Hs').
  assert (forall u, elsewhere f u = false -> disk f u = value f u) as Hdisk.
  { intros u Hu. apply (d_disk c f Hd); [done|]. cbn [ctl_step] in Hs'. unfold effect, reserve_ctl, c_is in Hs'.
    destruct (decide (c_state c = kResident)) as [E|]; [|auto]. rewrite E in Hs'. simpl in Hs'.
    destruct (c_dirty c); [|auto]. repeat case_match; done. }
  split; [done|]. rewrite IsResident_encode by done. unfold c_is. intros Hres%bool_decide_eq_true.
  pose proof (d_own c f Hd Hres). auto.
Qed.

(** C25 — a page marked clean is on disk: if a frame is resident and its dirty bit
    is clear, the disk holds the page's last committed contents. Completed
    writebacks that raced with a writer or failed never clear the bit wrongly. *)
Theorem clean_page_on_disk (f : frame) :
  reachable f -> IsResident (word f) = true -> IsDirty (word f) = false ->
  disk f (tag f) = value f (tag f).
Proof.
  intros Hr Hres Hdi. apply inv_reachable in Hr as (c & Hw & Hok & Hc & Hd & _).
  rewrite Hw, IsDirty_encode in Hdi by done. rewrite Hw, IsResident_encode in Hres by done. unfold c_is in Hres.
  apply bool_decide_eq_true in Hres. apply (d_disk c f Hd); [by apply Hd|auto].
Qed.

(** C26 — a reader sees the committed page: a thread that holds the latch shared
    through a pin reads memory equal to what the last writer of the page had stored
    when it released its exclusive latch, whatever writers do before they get the
    latch and after; unless the frame was zeroed by [kZeroAndLock] and nobody has
    marked it dirty since. *)
Theorem reader_sees_committed (f : frame) i :
  reachable f -> holds_shared f i -> holds_pin f i -> zeroed f = false ->
  mem f = value f (tag f).
Proof.
  intros Hr ([r w] & Hi & Hsh) Hp Hz. apply inv_reachable in Hr as (c & Hw & Hok & Hc & Hd & _).
  apply (d_clean c f Hd); [by eapply pinned_resident| |done].
  destruct (c_excl c) eqn:E; [|done]. pose proof (n_latch c f Hc E). pose proof (n_shared c f Hc).
  pose proof (count_ge shared_of _ _ _ _ shared_nonneg Hi). cbn [role_of] in *. lia.
Qed.

(** C27 — a pin keeps the page: while a thread keeps its pin, a step of any thread
    leaves the frame resident and its tag unchanged. *)
Theorem pin_keeps_page (f f' : frame) i :
  reachable f -> holds_pin f i -> step f f' -> holds_pin f' i ->
  IsResident (word f') = true /\ tag f' = tag f.
Proof.
  intros Hr Hp Hs Hp'. pose proof (inv_reachable _ _ _ Hr) as (c & Hw & Hok & Hc & _).
  assert (inv f') as (c' & Hw' & Hok' & Hc' & _) by eauto using inv_step, inv_reachable.
  split; [rewrite Hw', IsResident_encode by done; unfold c_is;
          by rewrite (pinned_resident c' f' i Hc' Hp')|].
  pose proof (pinned_resident c f i Hc Hp) as Hres.
  assert (forall j r w, threads f !! j = Some (Thread r w) -> loader_of r = 1 -> False) as Hl.
  { intros j r w Hj Hl. pose proof (loader_state c f j r w Hc Hj Hl). congruence. }
  assert (forall j r w, threads f !! j = Some (Thread r w) -> owner_of r = 1 -> False) as Ho.
  { intros j r w Hj Ho. destruct (owner_free c f j r w Hc Hj Ho). congruence. }
  destruct Hs; try done; unfold runs in *; exfalso; eauto.
Qed.

(** C28 — latch and writeback waits lose no wake-up: a thread asleep in the futex
    waiting for the shared latch, the exclusive latch or the end of a writeback
    still has its condition blocked and the waiters bit set, so the operation
    that unblocks it is one that wakes it. *)
Theorem no_lost_wakeup (f : frame) i r k :
  reachable f -> waits f i r (Asleep k) -> (forall t, k <> WaitLoad t) ->
  blocked k f (word f) = true /\ any_bit (word f) kWaiters = true.
Proof.
  intros Hr Hi Hk. apply inv_reachable in Hr as (c & Hw & Hok & _ & _ & Hsl).
  destruct (Hsl _ _ Hi) as [Hwt Hb]. rewrite Hw, any_waiters by done. split; [|done].
  destruct k; cbn [blocked]; try (rewrite word_blocked_encode by done; done).
  by destruct (Hk t).
Qed.

(** A frame has one owner at a time: at most one thread loads it or holds it
    off the free list, only while it is loading or free respectively, and a
    frame in the free list is free and off every other list. *)
Lemma single_owner (f : frame) i j ti tj :
  reachable f -> threads f !! i = Some ti -> threads f !! j = Some tj ->
  loader_of (role_of ti) + owner_of (role_of ti) = 1 ->
  (loader_of (role_of tj) + owner_of (role_of tj) = 1 -> i = j) /\ listed f = false /\
  (loader_of (role_of ti) = 1 -> StateIs (word f) kLoading = true) /\
  (owner_of (role_of ti) = 1 -> StateIs (word f) kFree = true).
Proof.
  intros Hr Hi Hj Ei. apply inv_reachable in Hr as (c & Hw & Hok & Hc & _).
  rewrite Hw, !StateIs_encode by done. destruct ti as [ri wi], tj as [rj wj]. cbn [role_of] in *.
  pose proof (loader_nonneg ri). pose proof (owner_nonneg ri).
  pose proof (loader_nonneg rj). pose proof (owner_nonneg rj).
  pose proof (n_loading c f Hc) as Hnl. pose proof (n_free c f Hc) as Hnf.
  pose proof (count_ge loader_of _ _ _ _ loader_nonneg Hi).
  pose proof (count_ge owner_of _ _ _ _ owner_nonneg Hi).
  pose proof (count_ge loader_of _ _ _ _ loader_nonneg Hj).
  pose proof (count_ge owner_of _ _ _ _ owner_nonneg Hj).
  pose proof (b2z_bound (listed f)).
  assert (b2z (c_is kLoading c) + b2z (c_is kFree c) <= 1)
    by (unfold c_is; destruct (c_state c); vm_compute; discriminate).
  split_and!.
  - intros Ej. destruct (decide (i = j)) as [|Hne]; [done|]. exfalso.
    pose proof (count_ge2 loader_of _ _ _ _ _ _ _ loader_nonneg Hne Hi Hj).
    pose proof (count_ge2 owner_of _ _ _ _ _ _ _ owner_nonneg Hne Hi Hj). lia.
  - destruct (listed f); cbn [b2z] in *; [lia|done].
  - intros. destruct (c_is kLoading c); cbn [b2z] in *; [done|lia].
  - intros. destruct (c_is kFree c); cbn [b2z] in *; [done|lia].
Qed.

(** ** Executing the protocol

    A scheduler's choice, and the step it makes when it is enabled. *)
Inductive action :=
  | AMove (i : nat) (r : role)
  | APop (i : nat)
  | AStoreTag (i : nat) (t : T)
  | AInstall (i : nat)
  | ARead (i : nat)
  | AMarkDirty (i : nat)
  | ACommit (i : nat)
  | AWrite (i : nat) (d : D)
  | AQueue (i : nat)
  | ACapture (i : nat)
  | ABegin
  | ADiskWrite
  | AComplete
  | AWait (i : nat) (k : @wait_kind T)
  | ABlocked (i : nat)
  | ASetWaiters (i : nat)
  | ASleep (i : nat).

Definition move_of (r r' : role) : option fc_op :=
  match r, r' with
  | RIdle, RPinned => Some op_pin
  | RPinned, RIdle => Some op_unpin
  | RPinned, RShared => Some op_acquire_shared
  | RShared, RPinned => Some op_release_shared
  | RPinned, RExcl false => Some op_acquire_exclusive
  | RExcl false, RPinned => Some op_release_exclusive
  | RIdle, RReserved => Some (op_reserve false)
  | RPopped, RReserved => Some (op_reserve true)
  | RLoaded, RPinned => Some (op_publish false)
  | RLoaded, RIdle => Some (op_publish true)
  | _, _ => None
  end.

Lemma move_of_sound r r' op : move_of r r' = Some op -> move r r' op.
Proof. destruct r as [| | |[]| | | | | | | | | | | | | |], r' as [| | |[]| | | | | | | | | | | | | |]; simpl; intros [= <-]; constructor. Qed.

Definition snap_role (r : role) : option role :=
  match r with
  | RShared => Some RSharedSnap
  | RExcl m => Some (RExclSnap m)
  | RFlush p => Some (RFlushSnap p)
  | _ => None
  end.
Definition unsnap_role (r : role) : option role :=
  match r with
  | RSharedSnap => Some RShared
  | RExclSnap m => Some (RExcl m)
  | RFlushSnap p => Some (RFlush p)
  | _ => None
  end.

Definition perform (a : action) (f : frame) : option frame :=
  match a with
  | AMove i r' =>
      match threads f !! i with
      | Some (Thread r Running) =>
          op ← move_of r r';
          match word_step op (word f) with
          | Exchange w wake _ => Some (exchanged f w wake i r')
          | _ => None
          end
      | _ => None
      end
  | APop i =>
      match threads f !! i, listed f with
      | Some (Thread RIdle Running), true =>
          Some (set_thread (set_listed f false) i RPopped Running)
      | _, _ => None
      end
  | AStoreTag i t =>
      match threads f !! i with
      | Some (Thread RReserved Running) => Some (set_thread (set_tag f t) i RTagged Running)
      | _ => None
      end
  | AInstall i =>
      match threads f !! i with
      | Some (Thread RTagged Running) => if elsewhere f (tag f) then None else Some (set_thread f i RLoading Running)
      | _ => None
      end
  | ARead i =>
      match threads f !! i with
      | Some (Thread RLoading Running) =>
          Some (set_thread (set_zeroed (set_mem f (disk f (tag f))) false) i RLoaded Running)
      | _ => None
      end
  | AMarkDirty i =>
      match threads f !! i, word_step op_mark_dirty (word f) with
      | Some (Thread (RExcl m) Running), Exchange w wake _ =>
          Some (set_zeroed (exchanged f w wake i (RExcl true)) false)
      | _, _ => None
      end
  | ACommit i =>
      match threads f !! i, word_step op_release_exclusive (word f) with
      | Some (Thread (RExcl true) Running), Exchange w wake _ =>
          Some (set_value (exchanged f w wake i RPinned) (tag f) (mem f))
      | _, _ => None
      end
  | AWrite i d =>
      match threads f !! i with
      | Some (Thread (RExcl true) Running) => Some (set_mem f d)
      | _ => None
      end
  | AQueue i =>
      match threads f !! i, word_step (op_queue false) (word f) with
      | Some (Thread r Running), Exchange w wake _ =>
          r' ← snap_role r; Some (set_wb (exchanged f w wake i r') (Some TQueued))
      | _, _ => None
      end
  | ACapture i =>
      match threads f !! i with
      | Some (Thread r' Running) =>
          r ← unsnap_role r';
          Some (set_thread (set_wb f (Some (TSnapped (tag f) (mem f)))) i r Running)
      | _ => None
      end
  | ABegin =>
      match wb f, word_step op_begin (word f) with
      | Some (TSnapped t s), Exchange w wake _ =>
          Some (set_wb (set_word f w wake) (Some (TActive t s)))
      | _, _ => None
      end
  | ADiskWrite =>
      match wb f with
      | Some (TActive t s) => Some (set_wb (set_disk f t s) (Some (TWritten t s true)))
      | _ => None
      end
  | AComplete =>
      match wb f with
      | Some (TWritten t s ok) =>
          match word_step (op_complete ok) (word f) with
          | Exchange w wake _ => Some (set_wb (set_word f w wake) None)
          | _ => None
          end
      | _ => None
      end
  | AWait i k =>
      match threads f !! i with
      | Some (Thread r Running) => Some (set_thread f i r (Seen k (word f)))
      | _ => None
      end
  | ABlocked i =>
      match threads f !! i with
      | Some (Thread r (Seen k w)) =>
          if blocked k f w then Some (set_thread f i r (Ready k w)) else None
      | _ => None
      end
  | ASetWaiters i =>
      match threads f !! i with
      | Some (Thread r (Ready k w)) =>
          match WaitWhile (fun _ => true) w with
          | WaitSetWaiters next =>
              if word f =? w then Some (set_thread (set_word f next false) i r (Ready k next))
              else None
          | _ => None
          end
      | _ => None
      end
  | ASleep i =>
      match threads f !! i with
      | Some (Thread r (Ready k w)) =>
          match WaitWhile (fun _ => true) w with
          | WaitSleep _ => if word f =? w then Some (set_thread f i r (Asleep k)) else None
          | _ => None
          end
      | _ => None
      end
  end.

Lemma snap_role_queues r r' : snap_role r = Some r' -> queues r r'.
Proof. destruct r; simpl; intros [= <-]; constructor. Qed.
Lemma unsnap_role_queues r r' : unsnap_role r' = Some r -> queues r r'.
Proof. destruct r'; simpl; intros [= <-]; constructor. Qed.

Lemma wait_sleep_word w next : WaitWhile (fun _ => true) w = WaitSleep next -> next = w.
Proof. unfold WaitWhile. simpl. by destruct (any_bit w kWaiters); intros [= ->]. Qed.

Lemma perform_sound a f f' : perform a f = Some f' -> step f f'.
Proof.
  assert (forall s : cas_step Z unit, forall n b u, s = Exchange n b u -> s = Exchange n b tt)
    as Hunit by (by intros s n b []).
  destruct a; cbn [perform]; intros H;
    repeat (case_match; try discriminate H); simplify_option_eq.
  - case_match; simplify_eq. eapply step_move; eauto using move_of_sound.
  - by eapply step_pop.
  - by eapply step_store_tag.
  - by eapply step_install.
  - by eapply step_read.
  - eapply step_mark_dirty; eauto.
  - eapply step_release_written; eauto.
  - by eapply step_write.
  - eapply (step_queue _ _ f i _ _ false); eauto using snap_role_queues.
  - eapply step_capture; eauto using unsnap_role_queues.
  - eapply step_begin; eauto.
  - by eapply step_disk_write.
  - eapply step_complete; eauto.
  - eapply step_wait_load. by left.
  - by eapply step_wait_blocked.
  - eapply step_wait_set; eauto. by apply Z.eqb_eq.
  - match goal with E : WaitWhile _ _ = WaitSleep _ |- _ =>
      pose proof (wait_sleep_word _ _ E); subst end.
    eapply step_wait_sleep; eauto. by apply Z.eqb_eq.
Qed.

Fixpoint perform_all (l : list action) (f : frame) : option frame :=
  match l with
  | [] => Some f
  | a :: l => perform a f ≫= perform_all l
  end.

Lemma perform_all_reachable l f f' : reachable f -> perform_all l f = Some f' -> reachable f'.
Proof.
  revert f. induction l as [|a l IH]; simpl; intros f Hr Hl; [congruence|].
  destruct (perform a f) as [f1|] eqn:E; [|done]. apply (IH f1); [|done].
  destruct Hr as (f0 & ? & ?). exists f0. split; [done|]. eapply rtc_r; [done|].
  by apply (perform_sound a).
Qed.

End Safety.

(** ** Concrete runs

    Two threads, pages named by numbers, contents numbers. *)
Section Runs.

Local Abbreviation frame := (@frame nat nat).
Local Abbreviation reachable := (@reachable nat nat _ 0%nat 0%nat).

Local Abbreviation action := (@action nat nat).

Definition idle : @thread nat := Thread RIdle Running.

Definition start : frame :=
  Frame 0 0%nat 0%nat (fun t => (10 + t)%nat) (fun t => (10 + t)%nat) (fun _ => false) false true None
    {[ 0%nat := idle; 1%nat := idle ]}.

Lemma start_reachable : reachable start.
Proof.
  exists start. split; [|constructor]. split_and!; try done.
  intros i t. unfold start; cbn [threads]. rewrite lookup_insert_Some, lookup_singleton_Some.
  intros [[? <-]|[? [? <-]]]; done.
Qed.

(** A run from the initial frame. *)
Definition run (l : list action) : option frame := perform_all l start.

Lemma run_reachable l f : run l = Some f -> reachable f.
Proof. apply perform_all_reachable, start_reachable. Qed.

Definition load (i : nat) (t : nat) (r : role) : list action :=
  [AStoreTag i t; AInstall i; ARead i; AMove i r].

(** Thread 1 loads page 7 and writes 99 to it under the exclusive latch. *)
Definition write_run : list action :=
  APop 1 :: AMove 1 RReserved :: load 1 7 RPinned ++
  [AMove 1 (RExcl false); AMarkDirty 1; AWrite 1 99%nat].

(** Then it flushes the page through its handle. *)
Definition flush_run : list action :=
  write_run ++ [ACommit 1; AMove 1 RShared; AQueue 1; ACapture 1; ABegin; ADiskWrite;
                AComplete].

Definition run_of (l : list action) : frame := default start (run l).

Lemma run_of_reachable l : is_Some (run l) -> reachable (run_of l).
Proof. intros [f Hf]. unfold run_of. rewrite Hf. by apply (run_reachable l). Qed.

Lemma latch_exclusion_witness :
  ~ holds_shared (run_of write_run) 0 /\ ~ holds_exclusive (run_of write_run) 0.
Proof.
  apply (latch_exclusion 0%nat 0%nat (run_of write_run) 1 0).
  - apply run_of_reachable. vm_compute. eauto.
  - eexists. split; vm_compute; reflexivity.
  - done.
Defined.

Lemma counters_exact_witness :
  Pins (word (run_of write_run)) = 1 /\
  b2z (any_bit (word (run_of write_run)) kExclusive) = count excl_of (threads (run_of write_run)).
Proof.
  split; [vm_compute; reflexivity|].
  apply (counters_exact 0%nat 0%nat (run_of write_run)).
  apply run_of_reachable. vm_compute. eauto.
Defined.

Lemma eviction_loses_nothing_witness :
  disk (run_of (flush_run ++ [AMove 1 RPinned; AMove 1 RIdle])) 7%nat = 99%nat.
Proof.
  destruct (eviction_loses_nothing 0%nat 0%nat (run_of (flush_run ++ [AMove 1 RPinned; AMove 1 RIdle])) false
             (Z.lor kPinOne (state_value kLoading)) false) as [Hd _].
  - apply run_of_reachable. vm_compute. eauto.
  - vm_compute. reflexivity.
  - rewrite Hd by (vm_compute; reflexivity). vm_compute. reflexivity.
Defined.

Lemma clean_page_on_disk_witness : disk (run_of flush_run) 7%nat = 99%nat.
Proof.
  change 7%nat with (tag (run_of flush_run)).
  rewrite (clean_page_on_disk 0%nat 0%nat (run_of flush_run)).
  - vm_compute. reflexivity.
  - apply run_of_reachable. vm_compute. eauto.
  - vm_compute. reflexivity.
  - vm_compute. reflexivity.
Defined.

Lemma reader_sees_committed_witness :
  mem (run_of flush_run) = value (run_of flush_run) (tag (run_of flush_run)).
Proof.
  apply (reader_sees_committed 0%nat 0%nat (run_of flush_run) 1).
  - apply run_of_reachable. vm_compute. eauto.
  - eexists. split; vm_compute; reflexivity.
  - eexists. split; vm_compute; reflexivity.
  - vm_compute. reflexivity.
Defined.

Lemma pin_keeps_page_witness :
  IsResident (word (run_of (flush_run ++ [AMove 0 RPinned]))) = true /\
  tag (run_of (flush_run ++ [AMove 0 RPinned])) = tag (run_of flush_run).
Proof.
  apply (pin_keeps_page 0%nat 0%nat (run_of flush_run) _ 1).
  - apply run_of_reachable. vm_compute. eauto.
  - eexists. split; vm_compute; reflexivity.
  - apply (perform_sound 0%nat 0%nat (AMove 0 RPinned)). vm_compute. reflexivity.
  - eexists. split; vm_compute; reflexivity.
Defined.

(** Thread 0 pins the page and sleeps until thread 1 releases the latch. *)
Definition sleep_run : list action :=
  write_run ++ [AMove 0 RPinned; AWait 0 WaitShared; ABlocked 0; ASetWaiters 0; ASleep 0].

Lemma no_lost_wakeup_witness :
  blocked WaitShared (run_of sleep_run) (word (run_of sleep_run)) = true /\
  any_bit (word (run_of sleep_run)) kWaiters = true.
Proof.
  apply (no_lost_wakeup 0%nat 0%nat (run_of sleep_run) 0 RPinned WaitShared).
  - apply run_of_reachable. vm_compute. eauto.
  - vm_compute. reflexivity.
  - done.
Defined.

Lemma single_owner_witness :
  listed (run_of [APop 1; AMove 1 RReserved]) = false /\
  StateIs (word (run_of [APop 1; AMove 1 RReserved])) kLoading = true.
Proof.
  destruct (single_owner 0%nat 0%nat (run_of [APop 1; AMove 1 RReserved]) 1 0
              (Thread RReserved Running) (Thread RIdle Running)) as (_ & Hl & Hs & _).
  - apply run_of_reachable. vm_compute. eauto.
  - vm_compute. reflexivity.
  - vm_compute. reflexivity.
  - done.
  - split; [exact Hl|apply Hs; done].
Defined.

(** Thread 0 waits for page 7, being loaded by thread 1; it loads the word after
    page 7 was published; the frame is reused for page 8 and then again for
    page 7, and only now does the predicate run. *)
Definition lost_run : list action :=
  [APop 1; AMove 1 RReserved] ++ load 1 7 RIdle ++ [AWait 0 (WaitLoad 7%nat)] ++
  [AMove 1 RReserved] ++ load 1 8 RIdle ++
  [AMove 1 RReserved; AStoreTag 1 7%nat; AInstall 1; ABlocked 0; ARead 1; AMove 1 RIdle;
   ASetWaiters 0; ASleep 0].

(** C29 — [WaitForLoad] can lose its wake-up: there is a run after which a thread
    sleeps in the futex waiting for page 7 to be loaded although page 7 is
    resident in that frame, unpinned, and every other thread is idle. Its
    predicate ignores the word [WaitWhile] observed and reads the frame anew, so
    the word exchanged and slept on need not be one of a loading frame. *)
Theorem wait_for_load_lost_wakeup :
  exists f : frame,
    reachable f /\ waits f 0 RIdle (Asleep (WaitLoad 7%nat)) /\
    IsResident (word f) = true /\ tag f = 7%nat /\ Pins (word f) = 0 /\ wb f = None /\
    forall i t, i <> 0%nat -> threads f !! i = Some t -> t = idle.
Proof.
  exists (run_of lost_run). split.
  { apply run_of_reachable. vm_compute. eauto. }
  split_and!; try (vm_compute; reflexivity).
  intros i t Hi Ht. destruct (decide (i = 1%nat)) as [->|Hne].
  - vm_compute in Ht. by injection Ht as <-.
  - exfalso. revert Ht.
    assert (threads (run_of lost_run) =
            {[ 0%nat := Thread RIdle (Asleep (WaitLoad 7%nat)); 1%nat := idle]}) as ->
      by (vm_compute; reflexivity).
    rewrite lookup_insert_ne, lookup_singleton_ne by congruence. done.
Qed.

End Runs.
