(* ===== verification/Layout.v ===== *)
(** Tags, block geometry and the memory layout of the kernel region:
    [common/types.h], [common/block_geometry.h], [lib/common/state_layout.h],
    [lib/buffer/kernel_region.h], [lib/buffer/frame_memory_pool.h].

    [std::size_t] and [std::uint64_t] are 64 bits wide; sums, products and
    shifts wrap.  The theorems show that for every pool the options accept the
    arrays of the region neither wrap, overlap nor leave the region, and that
    block offsets are faithful for every block whose offset is representable. *)
From stdpp Require Import strings.
From S2P Require Import Prelude Status.
Open Scope result_scope.

(** ** Types *)

Definition kDefaultPageSize : Z := 4096.
Definition kCacheLineSize : Z := 64.
(** [static_cast<FrameId>(-1)] *)
Definition kInvalidFrameId : Z := u32 (-1).

(** [FileId] is 32 bits wide, [BlockId] 64. *)
Record BufferTag := MkTag { file_id : Z; block_id : Z }.

#[export] Instance BufferTag_eq_dec : EqDecision BufferTag.
Proof. solve_decision. Defined.

#[export] Instance BufferTag_countable : Countable BufferTag.
Proof.
  refine (inj_countable' (fun t => (file_id t, block_id t)) (fun p => MkTag p.1 p.2) _).
  by intros [].
Defined.

Definition tag_ok (t : BufferTag) : Prop := is_u32 (file_id t) /\ is_u64 (block_id t).

(** [operator==] *)
Definition tag_eqb (a b : BufferTag) : bool := (file_id a =? file_id b) && (block_id a =? block_id b).

(** [BufferTag{}] *)
Definition no_page : BufferTag := MkTag 0 0.

(** [BufferTagHash], over the two [std::hash] values. *)
Definition BufferTagHash (hash_file hash_block : Z -> Z) (t : BufferTag) : Z :=
  let left := hash_file (file_id t) in
  let right := hash_block (block_id t) in
  Z.lxor left (u64 (right + 0x9e3779b9 + u64 (Z.shiftl left 6) + Z.shiftr left 2)).

(** ** Block geometry *)

(** [std::has_single_bit] *)
Definition has_single_bit (x : Z) : bool := negb (x =? 0) && (Z.land x (x - 1) =? 0).

(** [std::countr_zero] of a 64-bit value: 64 for 0. *)
Fixpoint count_zeros (fuel : nat) (x : Z) : Z :=
  match fuel with
  | O => 0
  | S fuel => if Z.odd x then 0 else 1 + count_zeros fuel (x / 2)
  end.
Definition countr_zero (x : Z) : Z := count_zeros 64 x.

Record BlockGeometry := MkGeometry { block_shift : Z }.

#[export] Instance BlockGeometry_eq_dec : EqDecision BlockGeometry.
Proof. solve_decision. Defined.

Definition kMinBlockSize : Z := Z.shiftl 1 12.
Definition kMaxBlockSize : Z := Z.shiftl 1 22.

Definition IsValidBlockSize (block_size : Z) : bool :=
  has_single_bit block_size && (kMinBlockSize <=? block_size) && (block_size <=? kMaxBlockSize).

Definition Create (block_size : Z) : Result BlockGeometry :=
  if negb (IsValidBlockSize block_size)
  then InvalidArgument "block size must be a power of two between 4 KiB and 4 MiB"
  else Ok (MkGeometry (countr_zero block_size)).

Definition block_size (g : BlockGeometry) : Z := u64 (Z.shiftl 1 (block_shift g)).
Definition block_mask (g : BlockGeometry) : Z := u64 (u64 (Z.shiftl 1 (block_shift g)) - 1).
Definition BlockOffset (g : BlockGeometry) (block : Z) : Z := u64 (Z.shiftl block (block_shift g)).
Definition FrameOffset (g : BlockGeometry) (frame_id : Z) : Z := u64 (Z.shiftl frame_id (block_shift g)).
Definition MaxFrameCount (g : BlockGeometry) : Z := Z.shiftr (u64_mod - 1) (block_shift g).

(** A geometry that [Create] or [Of] can return. *)
Definition geometry_ok (g : BlockGeometry) : Prop := 12 <= block_shift g <= 22.

Lemma single_bit_pow2 x : 0 < x -> Z.land x (x - 1) = 0 -> x = 2 ^ Z.log2 x.
Proof.
  intros Hx Hl. pose proof (Z.log2_spec x Hx) as [Hlo Hhi].
  destruct (decide (x = 2 ^ Z.log2 x)) as [|Hne]; [done|].
  assert (Z.log2 (x - 1) = Z.log2 x) as El.
  { apply Z.log2_unique; [apply Z.log2_nonneg|lia]. }
  assert (Z.testbit (Z.land x (x - 1)) (Z.log2 x) = true) as Hb.
  { rewrite Z.land_spec, Z.bit_log2 by lia. rewrite <- El, Z.bit_log2; [done|].
    assert (0 < 2 ^ Z.log2 x) by (apply Z.pow_pos_nonneg; [lia|apply Z.log2_nonneg]). lia. }
  by rewrite Hl, Z.bits_0 in Hb.
Qed.

Lemma count_zeros_pow2 n k : (k < n)%nat -> count_zeros n (2 ^ Z.of_nat k) = Z.of_nat k.
Proof.
  revert n. induction k as [|k IH]; intros [|n] Hn; try lia; [done|].
  cbn [count_zeros]. replace (2 ^ Z.of_nat (S k)) with (2 * 2 ^ Z.of_nat k)
    by (rewrite Nat2Z.inj_succ, Z.pow_succ_r; lia).
  rewrite Z.odd_mul. cbn [Z.odd andb]. rewrite (Z.mul_comm 2), Z.div_mul, IH by lia. lia.
Qed.

Lemma valid_block_size_pow2 b :
  IsValidBlockSize b = true -> 12 <= Z.log2 b <= 22 /\ b = 2 ^ Z.log2 b.
Proof.
  unfold IsValidBlockSize, has_single_bit, kMinBlockSize, kMaxBlockSize.
  rewrite !andb_true_iff, negb_true_iff, Z.eqb_neq, Z.eqb_eq, !Z.leb_le.
  change (Z.shiftl 1 12) with 4096. change (Z.shiftl 1 22) with 4194304.
  intros [[[_ Hl] Hlo] Hhi]. assert (b = 2 ^ Z.log2 b) as E by (apply single_bit_pow2; lia).
  split; [|done]. split.
  - change 12 with (Z.log2 4096). apply Z.log2_le_mono. lia.
  - change 22 with (Z.log2 4194304). apply Z.log2_le_mono. lia.
Qed.

Lemma countr_zero_pow2 k : 0 <= k < 64 -> countr_zero (2 ^ k) = k.
Proof.
  intros Hk. unfold countr_zero. rewrite <- (Z2Nat.id k) at 1 by lia.
  rewrite count_zeros_pow2 by lia. lia.
Qed.

Lemma create_geometry b g : Create b = Ok g -> geometry_ok g /\ block_size g = b /\ block_mask g = b - 1.
Proof.
  unfold Create. destruct (IsValidBlockSize b) eqn:E; cbn [negb]; [|done]. intros [= <-].
  destruct (valid_block_size_pow2 b E) as [Hk Eb].
  assert (2 ^ Z.log2 b <= 2 ^ 22) by (apply Z.pow_le_mono_r; lia).
  assert (0 < 2 ^ Z.log2 b) by (apply Z.pow_pos_nonneg; lia).
  unfold geometry_ok, block_size, block_mask. cbn [block_shift].
  rewrite Eb at 1 2 3 5. rewrite countr_zero_pow2 by lia. rewrite Z.shiftl_1_l.
  assert (is_u64 (2 ^ Z.log2 b)) by (unfold is_u64, u64_mod; lia).
  rewrite !(u64_small (2 ^ _)) by done. split; [done|]. split; [done|].
  rewrite u64_small; [lia|]. unfold is_u64, u64_mod in *; lia.
Qed.

(** [BlockGeometry::Create] accepts exactly the powers of two from 4 KiB to
    4 MiB, and the geometry it returns reproduces the size it was given: its
    shift is in range, [block_size] is the argument and [block_mask] is one less. *)
Lemma geometry_create_spec b :
  match Create b with
  | Ok g => geometry_ok g /\ block_size g = b /\ block_mask g = b - 1
  | Err e => code e = kInvalidArgument /\ forall k, 12 <= k <= 22 -> b <> 2 ^ k
  end.
Proof.
  destruct (Create b) as [g|err] eqn:Ec; [by apply create_geometry|].
  unfold Create in Ec. destruct (IsValidBlockSize b) eqn:E; cbn [negb] in Ec; [done|]. injection Ec as <-.
  split; [done|]. intros k Hk ->. assert (exists j, (j < 11)%nat /\ k = 12 + Z.of_nat j) as (j & Hj & ->).
  { exists (Z.to_nat (k - 12)). lia. }
  do 11 (destruct j as [|j]; [vm_compute in E; discriminate|]). lia.
Qed.

(** ** Placing arrays *)

(** [StateLayout::Align]; the alignment is a power of two. *)
Definition Align (value alignment : Z) : Z :=
  Z.land (u64 (value + alignment - 1)) (u64_not (alignment - 1)).

Record StateLayout := MkLayout { layout_size : Z }.

(** [Add<T>(count, alignment)] with [sizeof(T)] explicit: the offset and the new layout. *)
Definition Add (sizeof count alignment : Z) (l : StateLayout) : Z * StateLayout :=
  let offset := Align (layout_size l) alignment in
  (offset, MkLayout (u64 (offset + u64 (count * sizeof)))).

Definition size (l : StateLayout) : Z :=
  Align (if layout_size l =? 0 then 1 else layout_size l) kCacheLineSize.

(** [StateStorage::Bind] and [CheckStateMemory]: address and length of the
    caller's memory. *)
Definition CheckStateMemory (address length bytes : Z) : Status :=
  if length <? bytes then InvalidArgument "replacer state memory is too small"
  else if negb (address mod kCacheLineSize =? 0)
  then InvalidArgument "replacer state memory must be cache-line aligned"
  else Ok tt.

(** [std::bit_ceil] *)
Definition bit_ceil (x : Z) : Z := if x <=? 1 then 1 else 2 ^ Z.log2_up x.
Definition BucketCount (frame_capacity : Z) : Z := bit_ceil (Z.max frame_capacity 1).

Record TableOffsets := MkTableOffsets {
  o_heads : Z;
  o_next : Z;
  o_bucket_of : Z;
  o_key_file_id : Z;
  o_key_block_id : Z;
  o_stripes : Z
}.

Definition TableReserve (frame_capacity stripe_count : Z) (l : StateLayout) : TableOffsets * StateLayout :=
  let '(heads, l) := Add 4 (BucketCount frame_capacity) kCacheLineSize l in
  let '(next, l) := Add 4 frame_capacity kCacheLineSize l in
  let '(bucket_of, l) := Add 4 frame_capacity kCacheLineSize l in
  let '(key_file_id, l) := Add 4 frame_capacity kCacheLineSize l in
  let '(key_block_id, l) := Add 8 frame_capacity kCacheLineSize l in
  let '(stripes, l) := Add kCacheLineSize (Z.max stripe_count 1) kCacheLineSize l in
  (MkTableOffsets heads next bucket_of key_file_id key_block_id stripes, l).

Record ListOffsets := MkListOffsets { o_head : Z; o_links : Z }.

Definition FreeListReserve (capacity : Z) (l : StateLayout) : ListOffsets * StateLayout :=
  let '(head, l) := Add 8 1 kCacheLineSize l in
  let '(next, l) := Add 4 capacity kCacheLineSize l in
  (MkListOffsets head next, l).

Definition kFrameAlignment : Z := 4096.

Definition PoolReserve (pool_size : Z) (g : BlockGeometry) (l : StateLayout) : Z * StateLayout :=
  Add 1 (u64 (Z.shiftl pool_size (block_shift g))) kFrameAlignment l.

Definition Validate (pool_size : Z) (g : BlockGeometry) : Status :=
  if pool_size =? 0 then InvalidArgument "frame memory pool size must be non-zero"
  else if kInvalidFrameId <=? pool_size
  then InvalidArgument "frame memory pool size exceeds the frame id range"
  else if MaxFrameCount g <? pool_size
  then InvalidArgument "frame memory pool size overflows the address space"
  else Ok tt.

Record KernelLayout := MkKernelLayout {
  k_shared : Z;
  k_descriptors : Z;
  k_page_table : TableOffsets;
  k_free_list : ListOffsets;
  k_frames : Z;
  k_bytes : Z
}.

(** [KernelLayout::For]: [KernelShared] holds one 64-bit counter, a descriptor
    is one cache line. *)
Definition KernelLayoutFor (pool_size stripe_count : Z) (g : BlockGeometry) : KernelLayout :=
  let l := MkLayout 0 in
  let '(shared, l) := Add 8 1 kCacheLineSize l in
  let '(descriptors, l) := Add kCacheLineSize pool_size kCacheLineSize l in
  let '(page_table, l) := TableReserve pool_size stripe_count l in
  let '(free_list, l) := FreeListReserve pool_size l in
  let '(frames, l) := PoolReserve pool_size g l in
  MkKernelLayout shared descriptors page_table free_list frames (size l).

(** ** Correctness of the layout *)

Lemma align_spec v k :
  0 <= k < 32 -> 0 <= v < 2 ^ 60 ->
  v <= Align v (2 ^ k) < v + 2 ^ k /\ Align v (2 ^ k) mod 2 ^ k = 0.
Proof.
  intros Hk Hv. assert (0 < 2 ^ k) by (apply Z.pow_pos_nonneg; lia).
  assert (2 ^ k <= 2 ^ 32) by (apply Z.pow_le_mono_r; lia).
  unfold Align. rewrite u64_small by (unfold is_u64, u64_mod; lia).
  rewrite land_u64_not by (unfold is_u64, u64_mod; lia).
  replace (2 ^ k - 1) with (Z.ones k) by (rewrite Z.ones_equiv; symmetry; apply Z.sub_1_r).
  rewrite Z.land_ones by lia. replace (v + 2 ^ k - 1) with (v + (2 ^ k - 1)) by lia.
  set (m := 2 ^ k) in *. pose proof (Z.mod_pos_bound (v + (m - 1)) m ltac:(lia)).
  pose proof (Z.div_mod (v + (m - 1)) m ltac:(lia)). split; [lia|].
  replace (v + (m - 1) - (v + (m - 1)) mod m) with ((v + (m - 1)) / m * m) by lia.
  by apply Z.mod_mul; lia.
Qed.

(** One array: it starts aligned at or after the end of the previous ones and
    ends where the layout now ends. *)
Lemma add_spec sizeof count k l :
  0 <= k < 32 -> 0 <= layout_size l < 2 ^ 59 -> 0 <= count * sizeof < 2 ^ 59 ->
  let '(o, l') := Add sizeof count (2 ^ k) l in
  layout_size l <= o < layout_size l + 2 ^ k /\ o mod 2 ^ k = 0 /\
  layout_size l' = o + count * sizeof.
Proof.
  intros Hk Hl Hc. unfold Add. cbn [layout_size].
  destruct (align_spec (layout_size l) k Hk ltac:(lia)) as [Ha Hm].
  assert (2 ^ k <= 2 ^ 32) by (apply Z.pow_le_mono_r; lia).
  split; [done|]. split; [done|].
  rewrite (u64_small (count * sizeof)) by (unfold is_u64, u64_mod; lia).
  apply u64_small. unfold is_u64, u64_mod. lia.
Qed.

Lemma bit_ceil_bound x : 1 <= x -> x <= bit_ceil x <= 2 * x.
Proof.
  intros Hx. unfold bit_ceil. destruct (Z.leb_spec x 1); [lia|].
  pose proof (Z.log2_up_spec x ltac:(lia)) as [Hlo Hhi].
  assert (0 < Z.log2_up x) by (apply Z.log2_up_pos; lia).
  assert (2 ^ Z.log2_up x = 2 * 2 ^ Z.pred (Z.log2_up x)) as E
    by (rewrite <- Z.pow_succ_r, Z.succ_pred by lia; done).
  lia.
Qed.

(** The arrays of a kernel layout in address order: offset, length in bytes,
    alignment. *)
Definition arrays (pool_size stripe_count : Z) (g : BlockGeometry) (k : KernelLayout) : list (Z * Z * Z) :=
  [(k_shared k, 8, 64); (k_descriptors k, 64 * pool_size, 64);
   (o_heads (k_page_table k), 4 * BucketCount pool_size, 64);
   (o_next (k_page_table k), 4 * pool_size, 64); (o_bucket_of (k_page_table k), 4 * pool_size, 64);
   (o_key_file_id (k_page_table k), 4 * pool_size, 64);
   (o_key_block_id (k_page_table k), 8 * pool_size, 64);
   (o_stripes (k_page_table k), 64 * Z.max stripe_count 1, 64);
   (o_head (k_free_list k), 8, 64); (o_links (k_free_list k), 4 * pool_size, 64);
   (k_frames k, pool_size * block_size g, 4096)].

(** Aligned arrays, each after the end of the one before, all below [limit]. *)
Fixpoint placed (start limit : Z) (l : list (Z * Z * Z)) : Prop :=
  match l with
  | [] => start <= limit
  | (o, n, a) :: l => start <= o /\ o mod a = 0 /\ placed (o + n) limit l
  end.

Lemma validate_ok pool_size g :
  geometry_ok g -> 0 <= pool_size -> Validate pool_size g = Ok tt -> 0 < pool_size < 2 ^ 32 - 1.
Proof.
  intros Hg Hp. unfold Validate. change kInvalidFrameId with (2 ^ 32 - 1).
  destruct (Z.eqb_spec pool_size 0), (Z.leb_spec (2 ^ 32 - 1) pool_size); try done; lia.
Qed.

Lemma arena_bytes pool_size g :
  geometry_ok g -> 0 <= pool_size < 2 ^ 32 ->
  u64 (Z.shiftl pool_size (block_shift g)) = pool_size * block_size g /\
  4096 <= block_size g <= 2 ^ 22.
Proof.
  intros Hg Hp. unfold geometry_ok, block_size in *.
  assert (2 ^ 12 <= 2 ^ block_shift g <= 2 ^ 22) by (split; apply Z.pow_le_mono_r; lia).
  rewrite Z.shiftl_1_l, Z.shiftl_mul_pow2 by lia.
  rewrite !u64_small by (unfold is_u64, u64_mod; nia). lia.
Qed.

(** Place the next array of the goal with [add_spec]. *)
Ltac place k :=
  match goal with |- context [Add ?s ?c ?a ?l] =>
    let o := fresh "o" in let l' := fresh "l" in let H := fresh "H" in
    pose proof (add_spec s c k l ltac:(lia) ltac:(cbn [layout_size]; lia) ltac:(lia)) as H;
    let v := eval vm_compute in (2 ^ k) in change (2 ^ k) with v in H;
    cbn [layout_size] in H;
    destruct (Add s c a l) as [o l']; destruct H as (? & ? & ?)
  end.

(** C36 — for every pool size the pool validation accepts, every valid geometry
    and up to 2^32 page-table stripes, the layout of the kernel region computed
    with wrapping 64-bit arithmetic places the eleven arrays in order without
    overlap, cache-line aligned (the frames page aligned), inside the region. *)
Theorem kernel_layout_placed pool_size stripe_count g :
  geometry_ok g -> 0 <= pool_size -> Validate pool_size g = Ok tt -> 0 <= stripe_count <= 2 ^ 32 ->
  let k := KernelLayoutFor pool_size stripe_count g in
  placed 0 (k_bytes k) (arrays pool_size stripe_count g k) /\ k_bytes k < 2 ^ 60.
Proof.
  intros Hg Hp0 Hv Hs. pose proof (validate_ok _ _ Hg Hp0 Hv) as Hp.
  destruct (arena_bytes pool_size g Hg ltac:(lia)) as [Ha Hb].
  pose proof (bit_ceil_bound (Z.max pool_size 1) ltac:(lia)) as Hc.
  assert (pool_size * block_size g <= (2 ^ 32) * 2 ^ 22) by nia.
  cbv zeta. unfold KernelLayoutFor, TableReserve, FreeListReserve, PoolReserve, kCacheLineSize,
    kFrameAlignment. rewrite Ha. fold (BucketCount pool_size) in Hc.
  do 10 place 6. place 12. unfold size, kCacheLineSize.
  destruct (Z.eqb_spec (layout_size l9) 0); [lia|].
  pose proof (align_spec (layout_size l9) 6 ltac:(lia) ltac:(lia)) as [Hz _].
  change (2 ^ 6) with 64 in Hz. cbn [arrays placed k_shared k_descriptors k_page_table k_free_list
    k_frames k_bytes o_heads o_next o_bucket_of o_key_file_id o_key_block_id o_stripes o_head o_links].
  split_and!; try done; lia.
Qed.

Lemma kernel_layout_placed_witness :
  let k := KernelLayoutFor 1000 16 (MkGeometry 13) in
  placed 0 (k_bytes k) (arrays 1000 16 (MkGeometry 13) k) /\ k_bytes k < 2 ^ 60.
Proof.
  apply (kernel_layout_placed 1000 16 (MkGeometry 13)).
  - split; simpl; lia.
  - lia.
  - vm_compute. reflexivity.
  - lia.
Defined.

(** [FrameMemoryPool::GetFrameData], the address of a frame. *)
Definition GetFrameData (data : Z) (g : BlockGeometry) (frame_id : Z) : Z := data + FrameOffset g frame_id.

Lemma frame_offset_exact g i :
  geometry_ok g -> 0 <= i < 2 ^ 32 -> FrameOffset g i = i * block_size g.
Proof. intros Hg Hi. by destruct (arena_bytes i g Hg Hi). Qed.

(** Frames do not overlap: in an accepted pool the block-sized areas
    [GetFrameData] returns for two distinct frames are disjoint and lie inside
    the frame area of the region. *)
Lemma frames_disjoint data pool_size g i j :
  geometry_ok g -> 0 <= pool_size -> Validate pool_size g = Ok tt -> 0 <= i < j -> j < pool_size ->
  data <= GetFrameData data g i /\
  GetFrameData data g i + block_size g <= GetFrameData data g j /\
  GetFrameData data g j + block_size g <= data + pool_size * block_size g.
Proof.
  intros Hg Hp0 Hv Hij Hj. pose proof (validate_ok _ _ Hg Hp0 Hv) as Hp.
  destruct (arena_bytes pool_size g Hg ltac:(lia)) as [_ Hb].
  unfold GetFrameData. rewrite !frame_offset_exact by (done || lia). nia.
Qed.

Lemma frames_disjoint_witness :
  GetFrameData 4096 (MkGeometry 12) 3 + block_size (MkGeometry 12) <=
  GetFrameData 4096 (MkGeometry 12) 4.
Proof.
  apply (frames_disjoint 4096 8 (MkGeometry 12) 3 4).
  - split; simpl; lia.
  - lia.
  - vm_compute. reflexivity.
  - lia.
  - lia.
Defined.

(** A block's file offset is exact precisely when it fits 64 bits: for a
    valid geometry [BlockOffset] is the product of block number and block size
    if and only if the block number is below [2^(64 - shift)]; from there on the
    shift drops high bits and distinct blocks share an offset. *)
Lemma block_offset_exact g b :
  geometry_ok g -> is_u64 b ->
  (BlockOffset g b = b * block_size g <-> b < 2 ^ (64 - block_shift g)) /\
  (2 ^ (64 - block_shift g) <= b ->
   BlockOffset g b = BlockOffset g (b - 2 ^ (64 - block_shift g))).
Proof.
  intros Hg Hb. unfold geometry_ok, is_u64, u64_mod in *.
  assert (2 ^ 12 <= 2 ^ block_shift g <= 2 ^ 22) by (split; apply Z.pow_le_mono_r; lia).
  assert (2 ^ (64 - block_shift g) * 2 ^ block_shift g = 2 ^ 64) as Hm
    by (rewrite <- Z.pow_add_r by lia; f_equal; lia).
  unfold BlockOffset, block_size. rewrite Z.shiftl_1_l, !Z.shiftl_mul_pow2 by lia.
  rewrite (u64_small (2 ^ block_shift g)) by (unfold is_u64, u64_mod; lia).
  unfold u64, u64_mod. set (s := 2 ^ block_shift g) in *. set (q := 2 ^ (64 - block_shift g)) in *.
  split; [split|].
  - intros E. pose proof (Z.mod_pos_bound (b * s) (2 ^ 64) ltac:(lia)) as Hr. rewrite E in Hr. nia.
  - intros Hq. apply Z.mod_small. nia.
  - intros Hq. replace (b * s) with ((b - q) * s + 1 * 2 ^ 64) by lia. apply Z.mod_add. lia.
Qed.

Lemma block_offset_exact_witness :
  BlockOffset (MkGeometry 12) 5 = 20480 /\ BlockOffset (MkGeometry 12) (2 ^ 52) = BlockOffset (MkGeometry 12) 0.
Proof.
  assert (geometry_ok (MkGeometry 12)) as Hg by (split; simpl; lia).
  split.
  - destruct (block_offset_exact (MkGeometry 12) 5 Hg) as [[_ H] _].
    + split; vm_compute; congruence.
    + apply H. vm_compute. reflexivity.
  - destruct (block_offset_exact (MkGeometry 12) (2 ^ 52) Hg) as [_ H].
    + split; vm_compute; congruence.
    + apply H. vm_compute. congruence.
Defined.
