(* ===== verification/FreeList.v ===== *)
(** The lock-free list of free frames: [lib/buffer/frame_free_list.h].

    The head is a 64-bit word packing a frame index and a 32-bit version; the
    links are an array indexed by frame.  [Push] and [Pop] are given twice: run
    alone, as functions on the memory, and as threads that interleave between
    the load of the head, the access to a link and the exchange of the head.
    The concurrent theorem is linearizability to a LIFO stack, for executions in
    which no thread keeps a loaded head across 2^32 successful operations (the
    range of the version counter). *)
From S2P Require Import Prelude.

(** ** Packed head *)

Definition kNone : Z := 2 ^ 32 - 1.
Definition Pack (index version : Z) : Z := Z.lor (u64 (Z.shiftl version 32)) index.
Definition Index (head : Z) : Z := u32 head.
Definition Version (head : Z) : Z := u32 (Z.shiftr head 32).

Lemma pack_value i v : is_u32 i -> is_u32 v -> Pack i v = i + v * 2 ^ 32.
Proof.
  intros Hi Hv. unfold Pack, is_u32, u32_mod in *. rewrite Z.shiftl_mul_pow2 by lia.
  rewrite u64_small by (unfold is_u64, u64_mod; lia). rewrite Z.lor_comm. by apply lor_low_high.
Qed.

Lemma index_pack i v : is_u32 i -> is_u32 v -> Index (Pack i v) = i.
Proof.
  intros Hi Hv. rewrite pack_value by done. unfold Index, u32, u32_mod in *.
  rewrite Z.mod_add by lia. by apply u32_small.
Qed.

Lemma version_pack i v : is_u32 i -> is_u32 v -> Version (Pack i v) = v.
Proof.
  intros Hi Hv. rewrite pack_value by done. unfold Version. rewrite Z.shiftr_div_pow2 by lia.
  rewrite Z.div_add, Z.div_small by (lia || exact Hi). by apply u32_small.
Qed.

(** ** The list in memory *)

Record free_list := FreeList { head : Z; next : Z -> Z }.

(** The constructor with [initialize]. *)
Definition Empty : free_list := FreeList (Pack kNone 0) (fun _ => kNone).

(** The word a successful exchange writes. *)
Definition push_head (frame_id h : Z) : Z := Pack (u32 frame_id) (u32 (Version h + 1)).
Definition pop_head (next_index h : Z) : Z := Pack next_index (u32 (Version h + 1)).

Definition Push (frame_id : Z) (s : free_list) : free_list :=
  FreeList (push_head frame_id (head s)) (<[frame_id := Index (head s)]> (next s)).

Definition Pop (s : free_list) : option Z * free_list :=
  if Index (head s) =? kNone then (None, s)
  else (Some (Index (head s)), FreeList (pop_head (next s (Index (head s))) (head s)) (next s)).

(** The frames of a chain starting at index [i]. *)
Fixpoint chain (i : Z) (nx : Z -> Z) (l : list Z) : Prop :=
  match l with
  | [] => i = kNone
  | f :: l => i = f /\ 0 <= f < kNone /\ chain (nx f) nx l
  end.

Definition holds (s : free_list) (l : list Z) : Prop :=
  chain (Index (head s)) (next s) l /\ NoDup l /\ head s = Pack (Index (head s)) (Version (head s)).

Lemma chain_frame i nx l f : chain i nx l -> f ∈ l -> 0 <= f < kNone.
Proof.
  revert i. induction l as [|g l IH]; simpl; intros i; [by intros _ ?%not_elem_of_nil|].
  intros (-> & Hg & Hc) [->|Hin]%elem_of_cons; eauto.
Qed.

Lemma chain_insert i nx l f v : f ∉ l -> chain i nx l -> chain i (<[f := v]> nx) l.
Proof.
  revert i. induction l as [|g l IH]; simpl; intros i Hf; [done|]. intros (-> & Hg & Hc).
  apply not_elem_of_cons in Hf as [Hne Hf]. rewrite fn_lookup_insert_ne by done. auto.
Qed.

Lemma kNone_u32 : is_u32 kNone.
Proof. split; unfold kNone, u32_mod; lia. Qed.

Lemma frame_u32 f : 0 <= f < kNone -> is_u32 f.
Proof. unfold kNone, is_u32, u32_mod. lia. Qed.

#[export] Hint Resolve kNone_u32 frame_u32 u32_range : telepath.

Lemma push_index f h : 0 <= f < kNone -> Index (push_head f h) = f.
Proof.
  intros Hf. unfold push_head. rewrite (u32_small f) by auto with telepath.
  apply index_pack; auto with telepath.
Qed.

Lemma pop_index n h : is_u32 n -> Index (pop_head n h) = n.
Proof. intros Hn. apply index_pack; auto with telepath. Qed.

Lemma chain_start_u32 i nx l : chain i nx l -> is_u32 i.
Proof. destruct l as [|f l]; simpl; [intros ->; apply kNone_u32|intros (-> & Hf & _); by apply frame_u32]. Qed.

Lemma push_holds s l f : holds s l -> 0 <= f < kNone -> f ∉ l -> holds (Push f s) (f :: l).
Proof.
  intros (Hc & Hnd & Hh) Hf Hfl. unfold holds, Push. cbn [head next]. rewrite push_index by done. split_and!.
  - simpl. split_and!; [done|lia..|]. rewrite fn_lookup_insert. by apply chain_insert.
  - by constructor.
  - unfold push_head at 1. rewrite (u32_small f) by auto with telepath. f_equal.
    unfold push_head. rewrite version_pack; auto with telepath.
Qed.

Lemma pop_holds s l :
  holds s l ->
  match l with
  | [] => Pop s = (None, s)
  | g :: l' => exists s', Pop s = (Some g, s') /\ holds s' l'
  end.
Proof.
  intros (Hc & Hnd & Hh). unfold Pop. destruct l as [|g l']; simpl in Hc.
  - by rewrite Hc, Z.eqb_refl.
  - destruct Hc as (E & Hg & Hc). rewrite E. destruct (Z.eqb_spec g kNone); [lia|].
    eexists. split; [done|]. pose proof (chain_start_u32 _ _ _ Hc) as Hu.
    unfold holds. cbn [head next]. rewrite pop_index by done. split_and!; [done| |].
    + by inversion Hnd.
    + unfold pop_head. by rewrite version_pack by auto with telepath.
Qed.

Lemma empty_holds : holds Empty [].
Proof. split_and!; [vm_compute; reflexivity|constructor|vm_compute; reflexivity]. Qed.

(** Run alone, [Push] and [Pop] are the operations of a stack: starting from
    a list that holds the frames [l], pushing a frame outside it gives
    [frame :: l], popping returns and removes the first frame, popping the empty
    list returns nothing and changes nothing. *)
Lemma free_list_lifo s l f :
  holds s l -> 0 <= f < kNone -> f ∉ l ->
  holds (Push f s) (f :: l) /\
  match l with
  | [] => Pop s = (None, s)
  | g :: l' => exists s', Pop s = (Some g, s') /\ holds s' l'
  end.
Proof. intros Hs Hf Hfl. split; [by apply push_holds|by apply pop_holds]. Qed.

Lemma free_list_lifo_witness :
  holds (Push 3 (Push 7 Empty)) [3; 7].
Proof.
  assert (holds Empty []) as He.
  { split_and!; [vm_compute; reflexivity|constructor|vm_compute; reflexivity]. }
  destruct (free_list_lifo Empty [] 7 He) as [H7 _]; [unfold kNone; lia|set_solver|].
  apply (free_list_lifo (Push 7 Empty) [7] 3 H7); [unfold kNone; lia|set_solver].
Defined.

(** ** Interleaved execution *)

(** Who has a frame: the list, a thread pushing it, or a client. *)
Inductive place := InList | Pushing (i : nat) | Out.

(** A thread between its accesses to shared memory.  [seen] is the head it
    loaded, [at_op] the number of exchanges that had succeeded by then. *)
Inductive fl_pc :=
  | FIdle
  | FPushLoaded (f seen at_op : Z)
  | FPushStored (f seen at_op : Z)
  | FPopLoaded (seen at_op : Z)
  | FPopRead (seen n at_op : Z).

Record fl_state := FlState {
  memory : free_list;
  ops : Z;
  place_of : Z -> place;
  pcs : gmap nat fl_pc
}.

(** A completed operation, at its linearization point. *)
Inductive fl_op := OPush (f : Z) | OPop (r : option Z).

Definition at_pc (s : fl_state) (i : nat) (p : fl_pc) : fl_state :=
  FlState (memory s) (ops s) (place_of s) (<[i := p]> (pcs s)).

Inductive fl_step : fl_state -> option fl_op -> fl_state -> Prop :=
  | fl_push_load s i f :
      pcs s !! i = Some FIdle -> place_of s f = Out -> 0 <= f < kNone ->
      fl_step s None
        (FlState (memory s) (ops s) (<[f := Pushing i]> (place_of s))
           (<[i := FPushLoaded f (head (memory s)) (ops s)]> (pcs s)))
  | fl_push_store s i f h v :
      pcs s !! i = Some (FPushLoaded f h v) ->
      fl_step s None
        (FlState (FreeList (head (memory s)) (<[f := Index h]> (next (memory s)))) (ops s)
           (place_of s) (<[i := FPushStored f h v]> (pcs s)))
  | fl_push_exchange s i f h v :
      pcs s !! i = Some (FPushStored f h v) -> head (memory s) = h ->
      fl_step s (Some (OPush f))
        (FlState (FreeList (push_head f h) (next (memory s))) (ops s + 1)
           (<[f := InList]> (place_of s)) (<[i := FIdle]> (pcs s)))
  | fl_push_retry s i f h v :
      pcs s !! i = Some (FPushStored f h v) ->
      fl_step s None (at_pc s i (FPushLoaded f (head (memory s)) (ops s)))
  | fl_pop_load s i :
      pcs s !! i = Some FIdle -> Index (head (memory s)) <> kNone ->
      fl_step s None (at_pc s i (FPopLoaded (head (memory s)) (ops s)))
  | fl_pop_empty s i :
      pcs s !! i = Some FIdle -> Index (head (memory s)) = kNone ->
      fl_step s (Some (OPop None)) (at_pc s i FIdle)
  | fl_pop_read s i h v :
      pcs s !! i = Some (FPopLoaded h v) ->
      fl_step s None (at_pc s i (FPopRead h (next (memory s) (Index h)) v))
  | fl_pop_exchange s i h n v :
      pcs s !! i = Some (FPopRead h n v) -> head (memory s) = h ->
      fl_step s (Some (OPop (Some (Index h))))
        (FlState (FreeList (pop_head n h) (next (memory s))) (ops s + 1)
           (<[Index h := Out]> (place_of s)) (<[i := FIdle]> (pcs s)))
  | fl_pop_retry s i h n v :
      pcs s !! i = Some (FPopRead h n v) -> Index (head (memory s)) <> kNone ->
      fl_step s None (at_pc s i (FPopLoaded (head (memory s)) (ops s)))
  | fl_pop_retry_empty s i h n v :
      pcs s !! i = Some (FPopRead h n v) -> Index (head (memory s)) = kNone ->
      fl_step s (Some (OPop None)) (at_pc s i FIdle).

Definition loaded_at (p : fl_pc) : option Z :=
  match p with
  | FIdle => None
  | FPushLoaded _ _ v | FPushStored _ _ v | FPopLoaded _ v | FPopRead _ _ v => Some v
  end.

(** No thread holds a head older than the version counter's range. *)
Definition fresh (s : fl_state) : Prop :=
  forall i p v, pcs s !! i = Some p -> loaded_at p = Some v -> ops s - v < 2 ^ 32.

(** Executions, with the operations completed so far. *)
Inductive fl_run : fl_state -> list fl_op -> fl_state -> Prop :=
  | fl_run_nil s : fl_run s [] s
  | fl_run_step s tr s1 o s2 :
      fl_run s tr s1 -> fresh s1 -> fl_step s1 o s2 -> fl_run s (tr ++ option_list o) s2.

(** The sequential stack. *)
Definition fl_apply (o : fl_op) (l : list Z) : option (list Z) :=
  match o, l with
  | OPush f, _ => if decide (f ∈ l) then None else Some (f :: l)
  | OPop None, [] => Some []
  | OPop (Some f), g :: l => if f =? g then Some l else None
  | _, _ => None
  end.

Fixpoint fl_replay (tr : list fl_op) (l : list Z) : option (list Z) :=
  match tr with
  | [] => Some l
  | o :: tr => fl_apply o l ≫= fl_replay tr
  end.

Lemma fl_replay_app tr o l l' l2 :
  fl_replay tr l = Some l' -> fl_apply o l' = Some l2 -> fl_replay (tr ++ [o]) l = Some l2.
Proof.
  revert l. induction tr as [|o' tr IH]; simpl; intros l.
  - intros [= ->] ->. done.
  - destruct (fl_apply o' l) as [l1|]; simpl; [|done]. eauto.
Qed.

(** What a thread knows of the list of [l] frames. *)
Definition pc_ok (s : fl_state) (l : list Z) (i : nat) (p : fl_pc) : Prop :=
  match p with
  | FIdle => True
  | FPushLoaded f h v =>
      place_of s f = Pushing i /\ 0 <= f < kNone /\ v <= ops s /\ Version h = u32 v /\
      (v = ops s -> h = head (memory s))
  | FPushStored f h v =>
      place_of s f = Pushing i /\ 0 <= f < kNone /\ v <= ops s /\ Version h = u32 v /\
      (v = ops s -> h = head (memory s)) /\ next (memory s) f = Index h
  | FPopLoaded h v =>
      v <= ops s /\ Version h = u32 v /\ Index h <> kNone /\ (v = ops s -> h = head (memory s))
  | FPopRead h n v =>
      v <= ops s /\ Version h = u32 v /\ Index h <> kNone /\
      (v = ops s -> h = head (memory s) /\ n = next (memory s) (Index h))
  end.

Record fl_inv (s : fl_state) (l : list Z) : Prop := {
  fi_chain : chain (Index (head (memory s))) (next (memory s)) l;
  fi_nodup : NoDup l;
  fi_version : Version (head (memory s)) = u32 (ops s);
  fi_place f : f ∈ l <-> place_of s f = InList;
  fi_pc i p : pcs s !! i = Some p -> pc_ok s l i p
}.

(** The version tells whether the head a thread loaded is still current. *)
Lemma fresh_current s l i p v h :
  fl_inv s l -> fresh s -> pcs s !! i = Some p -> loaded_at p = Some v -> v <= ops s ->
  Version h = u32 v -> head (memory s) = h -> v = ops s.
Proof.
  intros [_ _ Hv _ _] Hf Hi Hp Hle Hvh <-. specialize (Hf _ _ _ Hi Hp). rewrite Hv in Hvh.
  unfold u32, u32_mod in Hvh.
  assert ((ops s - v) mod 2 ^ 32 = 0) as Hz by (rewrite Zminus_mod, Hvh, Z.sub_diag; done).
  rewrite Z.mod_small in Hz by lia. lia.
Qed.

(** Other threads' knowledge survives a step that keeps what they look at. *)
Lemma pc_ok_other s s' l l' i j p :
  fl_inv s l -> pcs s !! j = Some p -> j <> i ->
  (forall f, place_of s f = Pushing j -> place_of s' f = Pushing j /\
     next (memory s') f = next (memory s) f) ->
  (ops s' = ops s /\ head (memory s') = head (memory s) /\
   (forall f, f ∈ l -> next (memory s') f = next (memory s) f) \/ ops s' = ops s + 1) ->
  pc_ok s' l' j p.
Proof.
  intros [Hc _ _ _ Hpc] Hj _ Hpl Hop. specialize (Hpc j p Hj).
  assert (forall h v, v <= ops s -> (v = ops s -> h = head (memory s)) ->
            v <= ops s' /\ (v = ops s' -> h = head (memory s'))) as Hcur.
  { intros h v Hle Hh. destruct Hop as [(-> & -> & _)| ->]; [done|]. split; lia. }
  destruct p as [|f h v|f h v|h v|h n v]; cbn [pc_ok] in *; [done|..].
  - destruct Hpc as (Hp & Hf & Hle & Hv & Hh). destruct (Hpl f Hp). destruct (Hcur h v Hle Hh). done.
  - destruct Hpc as (Hp & Hf & Hle & Hv & Hh & Hn). destruct (Hpl f Hp) as [? E].
    destruct (Hcur h v Hle Hh). rewrite E. done.
  - destruct Hpc as (Hle & Hv & Hi & Hh). destruct (Hcur h v Hle Hh). done.
  - destruct Hpc as (Hle & Hv & Hi & Hh).
    destruct (Hcur h v Hle (fun E => proj1 (Hh E))) as [? Hcur']. split_and!; try done.
    intros E. split; [by apply Hcur'|]. destruct Hop as [(Eo & Eh & En)|Eo]; [|lia].
    rewrite Eo in E. destruct (Hh E) as [-> ->]. symmetry. apply En.
    destruct l as [|g l]; [done|]. destruct Hc as [-> _]. set_solver.
Qed.

Ltac fl_pcs i Hinv :=
  intros j q Hj; cbn [pcs memory place_of ops at_pc] in Hj;
  destruct (decide (j = i)) as [->|Hne];
  [rewrite lookup_insert_eq in Hj; injection Hj as <-|
   rewrite lookup_insert_ne in Hj by done;
   eapply (pc_ok_other _ _ _ _ i j q Hinv Hj Hne)].

Lemma fl_inv_at_pc s l i p p0 :
  fl_inv s l -> pcs s !! i = Some p0 -> pc_ok s l i p -> fl_inv (at_pc s i p) l.
Proof.
  intros Hinv Hi Hp. pose proof Hinv as [? ? ? ? ?]. split; try done.
  fl_pcs i Hinv; [by destruct p|auto..].
Qed.

Lemma fl_inv_push_exchange s l i f h v :
  fl_inv s l -> fresh s -> pcs s !! i = Some (FPushStored f h v) -> head (memory s) = h ->
  (f ∉ l) /\
  fl_inv (FlState (FreeList (push_head f h) (next (memory s))) (ops s + 1)
            (<[f := InList]> (place_of s)) (<[i := FIdle]> (pcs s))) (f :: l).
Proof.
  intros Hinv Hfr Hi Eh. pose proof Hinv as [Hc Hnd Hver Hpl Hpc].
  destruct (Hpc _ _ Hi) as (Hp & Hf & Hle & Hv & _ & Hn).
  assert (f ∉ l) as Hfl by (rewrite Hpl, Hp; done). split; [done|].
  split; cbn [memory ops place_of head next].
  - rewrite push_index by done. simpl. split_and!; try done; try lia. rewrite Hn, <- Eh. done.
  - by constructor.
  - unfold push_head. rewrite (u32_small f), version_pack by auto with telepath.
    rewrite <- Eh, Hver. unfold u32, u32_mod. by rewrite Zplus_mod_idemp_l.
  - intros g. rewrite elem_of_cons, Hpl. destruct (decide (g = f)) as [->|Hne].
    + rewrite fn_lookup_insert. naive_solver.
    + rewrite fn_lookup_insert_ne by done. naive_solver.
  - fl_pcs i Hinv; [done| |by right]. cbn [memory place_of next]. intros g Hg.
    rewrite fn_lookup_insert_ne; [done|]. intros ->. congruence.
Qed.

Lemma fl_inv_pop_exchange s l i h n v :
  fl_inv s l -> fresh s -> pcs s !! i = Some (FPopRead h n v) -> head (memory s) = h ->
  exists l', l = Index h :: l' /\
  fl_inv (FlState (FreeList (pop_head n h) (next (memory s))) (ops s + 1)
            (<[Index h := Out]> (place_of s)) (<[i := FIdle]> (pcs s))) l'.
Proof.
  intros Hinv Hfr Hi Eh. pose proof Hinv as [Hc Hnd Hver Hpl Hpc].
  destruct (Hpc _ _ Hi) as (Hle & Hv & Hx & Hcur).
  assert (v = ops s) as Ev by (by eapply fresh_current).
  destruct (Hcur Ev) as [_ ->]. rewrite Eh in Hc.
  destruct l as [|g l']; simpl in Hc; [done|]. destruct Hc as (<- & Hr & Hc).
  inversion_clear Hnd as [|? ? Hni Hnd']. exists l'. split; [done|].
  split; cbn [memory ops place_of head next].
  - rewrite pop_index by by eapply chain_start_u32. done.
  - done.
  - unfold pop_head. rewrite version_pack by (eauto using chain_start_u32 with telepath).
    rewrite <- Eh, Hver. unfold u32, u32_mod. by rewrite Zplus_mod_idemp_l.
  - intros g. destruct (decide (g = Index h)) as [->|Hne].
    + rewrite fn_lookup_insert. naive_solver.
    + rewrite fn_lookup_insert_ne by done. rewrite <- Hpl, elem_of_cons. naive_solver.
  - fl_pcs i Hinv; [done| |by right]. cbn [memory place_of next]. intros g Hg.
    rewrite fn_lookup_insert_ne; [done|]. intros <-.
    assert (place_of s (Index h) = InList) by (apply Hpl; set_solver). congruence.
Qed.

Lemma fl_inv_push_load s l i f :
  fl_inv s l -> pcs s !! i = Some FIdle -> place_of s f = Out -> 0 <= f < kNone ->
  fl_inv (FlState (memory s) (ops s) (<[f := Pushing i]> (place_of s))
            (<[i := FPushLoaded f (head (memory s)) (ops s)]> (pcs s))) l.
Proof.
  intros Hinv Hi Ho Hf. pose proof Hinv as [Hc Hnd Hver Hpl Hpc].
  split; cbn [memory ops place_of head next]; try done.
  - intros g. rewrite Hpl. destruct (decide (g = f)) as [->|Hne].
    + by rewrite fn_lookup_insert, Ho.
    + by rewrite fn_lookup_insert_ne.
  - fl_pcs i Hinv; [|intros g Hg|by left].
    + cbn. rewrite fn_lookup_insert. split_and!; (done || lia).
    + cbn. rewrite fn_lookup_insert_ne; [done|]. intros ->. congruence.
Qed.

Lemma fl_inv_push_store s l i f h v :
  fl_inv s l -> pcs s !! i = Some (FPushLoaded f h v) ->
  fl_inv (FlState (FreeList (head (memory s)) (<[f := Index h]> (next (memory s)))) (ops s)
            (place_of s) (<[i := FPushStored f h v]> (pcs s))) l.
Proof.
  intros Hinv Hi. pose proof Hinv as [Hc Hnd Hver Hpl Hpc].
  destruct (Hpc _ _ Hi) as (Hp & Hf & Hle & Hv & Hh).
  assert (f ∉ l) as Hfl by (rewrite Hpl, Hp; done).
  split; cbn [memory ops place_of head next]; try done.
  - by apply chain_insert.
  - fl_pcs i Hinv; cbn [memory place_of next ops head].
    + cbn. rewrite fn_lookup_insert. done.
    + intros g Hg. rewrite fn_lookup_insert_ne; [done|]. intros ->. congruence.
    + left. split_and!; try done. intros g Hg. rewrite fn_lookup_insert_ne; [done|]. congruence.
Qed.

Lemma fl_inv_step s l o s' :
  fl_inv s l -> fresh s -> fl_step s o s' ->
  exists l', match o with Some o => fl_apply o l = Some l' | None => l' = l end /\ fl_inv s' l'.
Proof.
  intros Hinv Hfr Hs. pose proof Hinv as [Hc Hnd Hver Hpl Hpc].
  destruct Hs as [s i f Hi Ho Hf|s i f h v Hi|s i f h v Hi Eh|s i f h v Hi|s i Hi Hx|s i Hi Hx
    |s i h v Hi|s i h n v Hi Eh|s i h n v Hi Hx|s i h n v Hi Hx].
  - exists l. split; [done|]. by apply fl_inv_push_load.
  - exists l. split; [done|]. by apply fl_inv_push_store.
  - destruct (fl_inv_push_exchange s l i f h v) as [Hfl Hi']; try done. exists (f :: l).
    split; [|done]. cbn [fl_apply]. rewrite decide_False; done.
  - exists l. split; [done|]. destruct (Hpc _ _ Hi) as (? & ? & ? & ? & ? & ?).
    eapply fl_inv_at_pc; try done; cbn; split_and!; (done || lia).
  - exists l. split; [done|]. eapply fl_inv_at_pc; try done; cbn; split_and!; (done || lia).
  - assert (l = []) as ->.
    { destruct l as [|g l]; [done|]. destruct Hc as (E & Hg & _). exfalso. lia. }
    exists []. split; [done|]. by eapply fl_inv_at_pc.
  - exists l. split; [done|]. destruct (Hpc _ _ Hi) as (? & ? & ? & ?).
    eapply fl_inv_at_pc; try done; cbn; naive_solver.
  - destruct (fl_inv_pop_exchange s l i h n v) as (l' & -> & Hi'); try done. exists l'.
    split; [|done]. cbn [fl_apply]. by rewrite Z.eqb_refl.
  - exists l. split; [done|]. eapply fl_inv_at_pc; try done; cbn; split_and!; (done || lia).
  - assert (l = []) as ->.
    { destruct l as [|g l]; [done|]. destruct Hc as (E & Hg & _). exfalso. lia. }
    exists []. split; [done|]. by eapply fl_inv_at_pc.
Qed.

(** An empty list, every frame with a client, every thread idle. *)
Definition fl_start (threads : gset nat) : fl_state :=
  FlState Empty 0 (fun _ => Out) (gset_to_gmap FIdle threads).

Lemma fl_inv_start ths : fl_inv (fl_start ths) [].
Proof.
  split; try done.
  - constructor.
  - intros f. split; [by intros ?%not_elem_of_nil|done].
  - intros i p Hi. cbn in Hi. apply lookup_gset_to_gmap_Some in Hi as [_ <-]. done.
Qed.

Lemma fl_inv_run ths tr s :
  fl_run (fl_start ths) tr s -> exists l, fl_replay tr [] = Some l /\ fl_inv s l.
Proof.
  remember (fl_start ths) as s0 eqn:E. induction 1 as [|s tr s1 o s2 _ IH Hf Hs]; subst.
  - exists []. split; [done|]. apply fl_inv_start.
  - destruct IH as (l & Hr & Hi); [done|].
    destruct (fl_inv_step _ _ _ _ Hi Hf Hs) as (l' & Ho & Hi'). exists l'. split; [|done].
    destruct o as [o|]; simpl; [by eapply fl_replay_app|]. rewrite app_nil_r. congruence.
Qed.

(** C31 — the lock-free list is linearizable: in any interleaving of pushes and
    pops by any number of threads in which no thread keeps a loaded head across
    2^32 successful operations, the operations in the order of their exchanges
    (loads, for pops that find the list empty) are a legal history of a LIFO
    stack, no frame is in the stack twice, and memory holds that stack. *)
Theorem free_list_linearizable ths tr s :
  fl_run (fl_start ths) tr s ->
  exists l, fl_replay tr [] = Some l /\ NoDup l /\
    chain (Index (head (memory s))) (next (memory s)) l.
Proof. intros Hr. destruct (fl_inv_run ths tr s Hr) as (l & ? & [? ? _ _ _]). eauto. Qed.

(** Executions of fewer than 2^32 operations are fresh. *)
Definition loads_nonneg (s : fl_state) : bool :=
  forallb (fun p => match loaded_at p.2 with Some v => 0 <=? v | None => true end) (map_to_list (pcs s)).

Lemma few_ops_fresh s : loads_nonneg s = true -> ops s < 2 ^ 32 -> fresh s.
Proof.
  intros Hl Ho i p v Hi Hp. unfold loads_nonneg in Hl. rewrite forallb_forall in Hl.
  specialize (Hl (i, p)). cbn [snd] in Hl. rewrite Hp in Hl. apply Z.leb_le in Hl; [lia|].
  apply list_elem_of_In. by apply elem_of_map_to_list.
Qed.

(** The state after thread 0 pushed frame 5. *)
Lemma free_list_linearizable_witness :
  exists s l, fl_replay [OPush 5] [] = Some l /\ NoDup l /\
    chain (Index (head (memory s))) (next (memory s)) l.
Proof.
  eexists. apply (free_list_linearizable {[0%nat; 1%nat]} [OPush 5]).
  eapply (fl_run_step _ [] _ (Some (OPush 5)));
    [eapply (fl_run_step _ [] _ None); [eapply (fl_run_step _ [] _ None); [apply fl_run_nil|..]|..]|..].
  - apply few_ops_fresh; vm_compute; reflexivity.
  - eapply (fl_push_load _ 0 5); [vm_compute; reflexivity..|unfold kNone; lia].
  - apply few_ops_fresh; vm_compute; reflexivity.
  - eapply (fl_push_store _ 0 5); vm_compute; reflexivity.
  - apply few_ops_fresh; vm_compute; reflexivity.
  - eapply (fl_push_exchange _ 0 5); vm_compute; reflexivity.
Defined.
