(* ===== verification/PageTable.v ===== *)
(** The page table: [lib/buffer/page_table.h], [lib/buffer/page_table.cc].

    Frames are the nodes of the bucket chains; the arrays [heads_], [next_],
    [bucket_of_], [key_file_id_], [key_block_id_] are functions from indices.
    Writers hold the stripe locks, so a writer is one atomic transformation of
    the table, bracketed by the two increments of each stripe's sequence
    counter.  [represents] relates the arrays to one list of frames per bucket,
    newest first; the theorems say what lookups return in terms of those lists. *)
From S2P Require Import Prelude Layout FreeList.

(** ** Hashing *)

Definition MixTag (tag : BufferTag) : Z :=
  let value := Z.lxor (Z.lxor (block_id tag) (u64 (Z.shiftl (file_id tag) 40)))
                 (Z.shiftr (file_id tag) 24) in
  let value := Z.lxor value (Z.shiftr value 30) in
  let value := u64 (value * 0xbf58476d1ce4e5b9) in
  let value := Z.lxor value (Z.shiftr value 27) in
  let value := u64 (value * 0x94d049bb133111eb) in
  Z.lxor value (Z.shiftr value 31).

(** ** State *)

Record page_table := PageTable {
  frame_capacity : Z;
  bucket_mask : Z;
  stripe_count : Z;
  heads : Z -> Z;
  link : Z -> Z;
  bucket_of : Z -> Z;
  key_file_id : Z -> Z;
  key_block_id : Z -> Z;
  sequence : Z -> Z
}.

(** The constructor with [Place(base, offsets, true)]. *)
Definition NewTable (capacity stripes : Z) : page_table :=
  PageTable capacity (BucketCount capacity - 1) (Z.max stripes 1)
    (fun _ => kNone) (fun _ => kNone) (fun _ => kNone) (fun _ => 0) (fun _ => 0) (fun _ => 0).

Definition BucketFor (t : page_table) (tag : BufferTag) : Z := Z.land (MixTag tag) (bucket_mask t).
Definition StripeFor (t : page_table) (bucket : Z) : Z := bucket mod stripe_count t.
Definition MapsTo (t : page_table) (frame_id : Z) (tag : BufferTag) : bool :=
  (key_file_id t frame_id =? file_id tag) && (key_block_id t frame_id =? block_id tag).

(** ** Stripe locks

    The stripes [StripeWriter] locks, in locking order. *)
Definition StripeWriter (first : Z) (second : option Z) : list Z :=
  match second with
  | Some second => if second =? first then [first]
                   else if second <? first then [second; first] else [first; second]
  | None => [first]
  end.

Definition bump (t : page_table) (stripe : Z) : page_table :=
  PageTable (frame_capacity t) (bucket_mask t) (stripe_count t) (heads t) (link t) (bucket_of t)
    (key_file_id t) (key_block_id t) (<[stripe := u32 (sequence t stripe + 1)]> (sequence t)).

Definition bump_all (t : page_table) (stripes : list Z) : page_table := foldl bump t stripes.

(** A writer's critical section. *)
Definition with_stripes {A} (stripes : list Z) (body : page_table -> A * page_table) (t : page_table)
    : A * page_table :=
  let '(a, t) := body (bump_all t stripes) in (a, bump_all t (reverse stripes)).

(** ** Chains *)

Definition Link (bucket : Z) (tag : BufferTag) (frame_id : Z) (t : page_table) : page_table :=
  PageTable (frame_capacity t) (bucket_mask t) (stripe_count t)
    (<[bucket := frame_id]> (heads t)) (<[frame_id := heads t bucket]> (link t))
    (<[frame_id := bucket]> (bucket_of t)) (<[frame_id := file_id tag]> (key_file_id t))
    (<[frame_id := block_id tag]> (key_block_id t)) (sequence t).

Definition set_heads (t : page_table) (h : Z -> Z) : page_table :=
  PageTable (frame_capacity t) (bucket_mask t) (stripe_count t) h (link t) (bucket_of t)
    (key_file_id t) (key_block_id t) (sequence t).
Definition set_link (t : page_table) (n : Z -> Z) : page_table :=
  PageTable (frame_capacity t) (bucket_mask t) (stripe_count t) (heads t) n (bucket_of t)
    (key_file_id t) (key_block_id t) (sequence t).
Definition set_bucket_of (t : page_table) (b : Z -> Z) : page_table :=
  PageTable (frame_capacity t) (bucket_mask t) (stripe_count t) (heads t) (link t) b
    (key_file_id t) (key_block_id t) (sequence t).

(** The [while] loop of [Unlink]: the links after it; [None] when the chain is
    longer than the fuel. *)
Fixpoint unlink_walk (fuel : nat) (frame_id after current : Z) (nx : Z -> Z) : option (Z -> Z) :=
  match fuel with
  | O => None
  | S fuel =>
      if current =? kNone then Some nx
      else if nx current =? frame_id then Some (<[current := after]> nx)
      else unlink_walk fuel frame_id after (nx current) nx
  end.

Definition chain_fuel (t : page_table) : nat := S (Z.to_nat (frame_capacity t)).

Definition Unlink (frame_id : Z) (t : page_table) : option page_table :=
  let bucket := bucket_of t frame_id in
  let after := link t frame_id in
  let current := heads t bucket in
  t' ← (if current =? frame_id then Some (set_heads t (<[bucket := after]> (heads t)))
        else nx ← unlink_walk (chain_fuel t) frame_id after current (link t); Some (set_link t nx));
  let t' := set_link t' (<[frame_id := kNone]> (link t')) in
  Some (set_bucket_of t' (<[frame_id := kNone]> (bucket_of t'))).

(** The bounded walk of the lookups: the first frame satisfying [p]. *)
Fixpoint walk (steps : nat) (p : Z -> bool) (frame : Z) (nx : Z -> Z) : option Z :=
  match steps with
  | O => None
  | S steps =>
      if frame =? kNone then None
      else if p frame then Some frame else walk steps p (nx frame) nx
  end.

(** ** Operations *)

(** [None] while the stripe's sequence is odd: the reader spins. *)
Definition LookupFrameId (tag : BufferTag) (t : page_table) : option (option Z) :=
  let bucket := BucketFor t tag in
  let before := sequence t (StripeFor t bucket) in
  if negb (Z.land before 1 =? 0) then None
  else Some (walk (Z.to_nat (frame_capacity t)) (fun f => MapsTo t f tag) (heads t bucket) (link t)).

Definition writer_stripes (t : page_table) (old_bucket new_bucket : Z) : list Z :=
  StripeWriter (StripeFor t new_bucket)
    (if old_bucket =? kNone then None else Some (StripeFor t old_bucket)).

(** An [Unlink] that runs out of fuel leaves the table as it is; the invariant
    excludes it. *)
Definition unlinked (frame_id : Z) (t : page_table) : page_table := default t (Unlink frame_id t).

Definition Replace (old_tag new_tag : BufferTag) (frame_id : Z) (t : page_table) : page_table :=
  let old_bucket := bucket_of t frame_id in
  let new_bucket := BucketFor t new_tag in
  (with_stripes (writer_stripes t old_bucket new_bucket)
     (fun t =>
        let t := if negb (old_bucket =? kNone) &&
                    (MapsTo t frame_id old_tag || negb (MapsTo t frame_id new_tag))
                 then unlinked frame_id t else t in
        (tt, if bucket_of t frame_id =? kNone then Link new_bucket new_tag frame_id t else t)) t).2.

Definition Install (tag : BufferTag) (frame_id : Z) : page_table -> page_table :=
  Replace tag tag frame_id.

Definition Remove (tag : BufferTag) (frame_id : Z) (t : page_table) : page_table :=
  let bucket := bucket_of t frame_id in
  if bucket =? kNone then t
  else (with_stripes (StripeWriter (StripeFor t bucket) None)
          (fun t => (tt, if MapsTo t frame_id tag then unlinked frame_id t else t)) t).2.

Definition ReplaceUnlessLive (old_tag : option BufferTag) (new_tag : BufferTag) (frame_id : Z)
    (live : Z -> bool) (t : page_table) : option Z * page_table :=
  let old_bucket := bucket_of t frame_id in
  let new_bucket := BucketFor t new_tag in
  with_stripes (writer_stripes t old_bucket new_bucket)
    (fun t =>
       let existing :=
         walk (Z.to_nat (frame_capacity t))
           (fun f => negb (f =? frame_id) && MapsTo t f new_tag && live f)
           (heads t new_bucket) (link t) in
       let linked_under_new := negb (old_bucket =? kNone) && MapsTo t frame_id new_tag in
       let maps_old := match old_tag with Some o => MapsTo t frame_id o | None => false end in
       let t := if negb (old_bucket =? kNone) &&
                   (maps_old || negb linked_under_new || bool_decide (is_Some existing))
                then unlinked frame_id t else t in
       match existing with
       | Some f => (Some f, t)
       | None =>
           (None, if bucket_of t frame_id =? kNone then Link new_bucket new_tag frame_id t else t)
       end) t.

(** ** Representation *)

(** The key stored for a frame. *)
Definition key (t : page_table) (f : Z) : BufferTag := MkTag (key_file_id t f) (key_block_id t f).

Record represents (t : page_table) (chains : Z -> list Z) : Prop := {
  r_capacity : 0 <= frame_capacity t < kNone;
  r_mask : 0 <= bucket_mask t < kNone;
  r_chain b : 0 <= b <= bucket_mask t -> chain (heads t b) (link t) (chains b);
  r_nodup b : 0 <= b <= bucket_mask t -> NoDup (chains b);
  r_bucket f : 0 <= f < frame_capacity t ->
    bucket_of t f = kNone \/ (0 <= bucket_of t f <= bucket_mask t /\ f ∈ chains (bucket_of t f));
  r_frame b f : 0 <= b <= bucket_mask t -> f ∈ chains b ->
    0 <= f < frame_capacity t /\ bucket_of t f = b /\ BucketFor t (key t f) = b
}.

Lemma walk_chain n p i nx l : chain i nx l -> (length l <= n)%nat -> walk n p i nx = find p l.
Proof.
  revert n i. induction l as [|f l IH]; simpl; intros n i Hc Hn.
  - destruct n; simpl; [done|]. by rewrite Hc, Z.eqb_refl.
  - destruct Hc as (-> & Hf & Hc). destruct n as [|n]; [lia|]. simpl.
    destruct (Z.eqb_spec f kNone); [lia|]. destruct (p f); [done|]. apply IH; [done|lia].
Qed.

Lemma chain_app i nx l1 f l2 :
  chain i nx (l1 ++ f :: l2) -> 0 <= f < kNone /\ chain f nx (f :: l2) /\ chain (nx f) nx l2.
Proof.
  revert i. induction l1 as [|g l1 IH]; simpl; intros i.
  - intros (-> & ? & ?). auto.
  - intros (_ & _ & Hc). eauto.
Qed.

(** Bypassing the successor of [p]. *)
Lemma chain_bypass i nx l1 p f l2 :
  NoDup (l1 ++ p :: f :: l2) -> chain i nx (l1 ++ p :: f :: l2) ->
  chain i (<[p := nx f]> nx) (l1 ++ p :: l2).
Proof.
  revert i. induction l1 as [|g l1 IH]; simpl; intros i Hnd Hc.
  - destruct Hc as (-> & Hp & _ & Hf & Hc). split; [done|]. split; [done|].
    rewrite fn_lookup_insert. apply chain_insert; [|done].
    inversion_clear Hnd as [|? ? Hni _]. set_solver.
  - destruct Hc as (-> & Hg & Hc). inversion_clear Hnd as [|? ? Hni Hnd'].
    rewrite fn_lookup_insert_ne by set_solver. auto.
Qed.

Lemma unlink_walk_chain n f after i nx l1 p l2 :
  NoDup (l1 ++ p :: f :: l2) -> chain i nx (l1 ++ p :: f :: l2) -> (length l1 < n)%nat ->
  unlink_walk n f after i nx = Some (<[p := after]> nx).
Proof.
  revert n i. induction l1 as [|g l1 IH]; simpl; intros n i Hnd Hc Hn; destruct n as [|n]; try lia;
    destruct Hc as (-> & Hg & Hc); cbn [unlink_walk].
  - destruct (Z.eqb_spec p kNone); [lia|]. destruct Hc as [-> _]. by rewrite Z.eqb_refl.
  - destruct (Z.eqb_spec g kNone); [lia|]. inversion_clear Hnd as [|? ? Hni Hnd'].
    destruct (Z.eqb_spec (nx g) f) as [E|_].
    { exfalso. destruct l1 as [|h l1]; simpl in Hc.
      - destruct Hc as (E' & _). rewrite E' in E. subst. inversion_clear Hnd'. set_solver.
      - destruct Hc as (E' & _). rewrite E' in E. subst. inversion_clear Hnd'. set_solver. }
    apply IH; [done|done|lia].
Qed.

Lemma represents_length t chains b :
  represents t chains -> 0 <= b <= bucket_mask t -> (length (chains b) <= Z.to_nat (frame_capacity t))%nat.
Proof.
  intros Hr Hb. apply nodup_length; [by eapply r_nodup|].
  intros f Hf. by destruct (r_frame t chains Hr b f Hb Hf).
Qed.

(** Links of frames in other chains do not matter to a chain. *)
Lemma chain_other t chains b b' f v :
  represents t chains -> 0 <= b <= bucket_mask t -> 0 <= b' <= bucket_mask t -> b <> b' ->
  f ∈ chains b' -> chain (heads t b) (<[f := v]> (link t)) (chains b).
Proof.
  intros Hr Hb Hb' Hne Hf. apply chain_insert; [|by eapply r_chain].
  intros Hf'. destruct (r_frame t chains Hr b f Hb Hf') as (_ & E & _).
  destruct (r_frame t chains Hr b' f Hb' Hf) as (_ & E' & _). congruence.
Qed.

Lemma bucket_range t tag : 0 <= bucket_mask t -> 0 <= BucketFor t tag <= bucket_mask t.
Proof.
  intros Hm. unfold BucketFor. split.
  - apply Z.land_nonneg. by right.
  - by apply land_le.
Qed.

(** ** Linking and unlinking *)

Lemma in_chain t chains f b :
  represents t chains -> 0 <= f < frame_capacity t -> bucket_of t f = b -> b <> kNone ->
  0 <= b <= bucket_mask t /\ f ∈ chains b.
Proof. intros Hr Hf <- Hb. destruct (r_bucket t chains Hr f Hf) as [|[? ?]]; [done|]. done. Qed.

(** What [Unlink] leaves alone. *)
Definition same_entries (t t' : page_table) (f : Z) : Prop :=
  frame_capacity t' = frame_capacity t /\ bucket_mask t' = bucket_mask t /\
  stripe_count t' = stripe_count t /\ key_file_id t' = key_file_id t /\
  key_block_id t' = key_block_id t /\ sequence t' = sequence t /\
  bucket_of t' f = kNone /\ (forall g, g <> f -> bucket_of t' g = bucket_of t g).

Ltac same_entries_tac :=
  unfold same_entries; cbn; split_and!; try done;
  [by rewrite fn_lookup_insert|intros; by rewrite fn_lookup_insert_ne].

Lemma represents_unlinked t t' chains f b h nx :
  represents t chains -> 0 <= b <= bucket_mask t -> f ∈ chains b -> same_entries t t' f ->
  heads t' b = h -> (forall b', b' <> b -> heads t' b' = heads t b') -> link t' = nx ->
  chain h nx (without f (chains b)) ->
  (forall b', 0 <= b' <= bucket_mask t -> b' <> b -> chain (heads t b') nx (chains b')) ->
  represents t' (<[b := without f (chains b)]> chains).
Proof.
  intros Hr Hb Hf (Ec & Em & Es & Ekf & Ekb & Eq & Eb & Eb') Eh Eh' En Hc Ho. pose proof Hr as [? ? ? Hnd Hbk Hfr].
  assert (forall b' g, g ∈ (<[b := without f (chains b)]> chains) b' <->
            g <> f /\ g ∈ chains b' \/ g = f /\ b' <> b /\ g ∈ chains b') as Hin.
  { intros b' g. destruct (decide (b' = b)) as [->|Hne].
    - rewrite fn_lookup_insert, elem_of_without. naive_solver.
    - rewrite fn_lookup_insert_ne by done. destruct (decide (g = f)); naive_solver. }
  assert (forall b', 0 <= b' <= bucket_mask t -> f ∈ chains b' -> b' = b) as Huniq.
  { intros b' Hb' Hf'. destruct (Hfr b' f Hb' Hf') as (_ & <- & _).
    by destruct (Hfr b f Hb Hf) as (_ & <- & _). }
  split; rewrite ?Ec, ?Em; try done.
  - intros b' Hb'. rewrite En. destruct (decide (b' = b)) as [->|Hne].
    + by rewrite fn_lookup_insert, Eh.
    + rewrite fn_lookup_insert_ne, Eh' by done. auto.
  - intros b' Hb'. destruct (decide (b' = b)) as [->|Hne].
    + rewrite fn_lookup_insert. apply list.NoDup_filter. auto.
    + rewrite fn_lookup_insert_ne by done. auto.
  - intros g Hg. destruct (decide (g = f)) as [->|Hne]; [by left|].
    rewrite Eb' by done. destruct (Hbk g Hg) as [|[? ?]]; [by left|].
    right. split; [done|]. apply Hin. by left.
  - intros b' g Hb' Hg. apply Hin in Hg as [[Hne Hg]|(-> & Hne & Hg)]; [|by destruct Hne; apply Huniq].
    destruct (Hfr b' g Hb' Hg) as (? & ? & Hk). rewrite Eb' by done.
    split_and!; try done; try lia. unfold BucketFor, key in *. rewrite Em, Ekf, Ekb. done.
Qed.

Lemma unlink_represents t chains f b :
  represents t chains -> 0 <= f < frame_capacity t -> bucket_of t f = b -> b <> kNone ->
  exists t', Unlink f t = Some t' /\ same_entries t t' f /\
    represents t' (<[b := without f (chains b)]> chains).
Proof.
  intros Hr Hf Eb Hb. destruct (in_chain t chains f b Hr Hf Eb Hb) as [Hbm Hin].
  pose proof (r_chain t chains Hr b Hbm) as Hc. pose proof (r_nodup t chains Hr b Hbm) as Hnd.
  pose proof (represents_length t chains b Hr Hbm) as Hlen.
  assert (forall b' g v, 0 <= b' <= bucket_mask t -> b' <> b -> g ∈ chains b ->
    forall nx, chain (heads t b') nx (chains b') -> chain (heads t b') (<[g := v]> nx) (chains b')) as Ho.
  { intros b' g v Hb' Hne Hg nx Hcb. apply chain_insert; [|done]. intros Hg'.
    destruct (r_frame t chains Hr b' g Hb' Hg') as (_ & E1 & _).
    destruct (r_frame t chains Hr b g Hbm Hg) as (_ & E2 & _). congruence. }
  destruct (list_elem_of_split _ _ Hin) as (l1 & l2 & El). rewrite El in *.
  assert ((f ∉ l1) /\ (f ∉ l2)) as [Hf1 Hf2].
  { apply list.NoDup_app in Hnd as (_ & Hd & Hn2). apply list.NoDup_cons in Hn2 as [? _]. set_solver. }
  destruct (chain_app _ _ _ _ _ Hc) as (Hfn & _ & Hc2).
  unfold Unlink. rewrite Eb. destruct l1 as [|p l1 _] using rev_ind.
  - pose proof Hc as [Eh _]. rewrite Eh, Z.eqb_refl. eexists. split; [reflexivity|].
    match goal with |- ?A /\ _ => assert A as Hse by same_entries_tac end.
    split; [exact Hse|]. rewrite <- El.
    eapply (represents_unlinked t _ _ f b (link t f)); try done; cbn [set_bucket_of set_link set_heads heads link].
    + rewrite El. set_solver.
    + by rewrite fn_lookup_insert.
    + intros b' Hne. by rewrite fn_lookup_insert_ne.
    + rewrite El, (without_middle f [] l2) by done. by apply chain_insert.
    + intros b' Hb' Hne. apply Ho; try done; by eapply r_chain.
  - rewrite <- app_assoc in *. cbn [app] in *.
    assert (p <> f) as Hpf by set_solver.
    assert (heads t b <> f) as Hhf.
    { destruct l1 as [|g l1]; simpl in Hc; destruct Hc as [-> _]; set_solver. }
    destruct (Z.eqb_spec (heads t b) f); [done|].
    rewrite (unlink_walk_chain _ _ _ _ _ l1 p l2) by
      (try done; rewrite length_app in Hlen; unfold chain_fuel; simpl in Hlen; lia).
    eexists. split; [reflexivity|].
    match goal with |- ?A /\ _ => assert A as Hse by same_entries_tac end.
    split; [exact Hse|]. rewrite <- El.
    eapply (represents_unlinked t _ _ f b (heads t b)); try done; cbn [set_bucket_of set_link set_heads heads link].
    + rewrite El. set_solver.
    + rewrite El. replace (l1 ++ p :: f :: l2) with ((l1 ++ [p]) ++ f :: l2) by by rewrite <- app_assoc.
      rewrite without_middle, <- app_assoc by done. cbn [app].
      apply chain_insert; [set_solver|]. by apply chain_bypass.
    + intros b' Hb' Hne. apply Ho; try done. apply Ho; try done; [set_solver|].
      by eapply r_chain.
Qed.

Lemma unlinked_represents t chains f b :
  represents t chains -> 0 <= f < frame_capacity t -> bucket_of t f = b -> b <> kNone ->
  same_entries t (unlinked f t) f /\
  represents (unlinked f t) (<[b := without f (chains b)]> chains).
Proof.
  intros Hr Hf Hb Hn. destruct (unlink_represents t chains f b Hr Hf Hb Hn) as (t' & E & ? & ?).
  unfold unlinked. by rewrite E.
Qed.

Lemma link_represents t chains b tag f :
  represents t chains -> 0 <= f < frame_capacity t -> bucket_of t f = kNone -> b = BucketFor t tag ->
  represents (Link b tag f t) (<[b := f :: chains b]> chains).
Proof.
  intros Hr Hf Hn ->. pose proof Hr as [Hcap Hm Hc Hnd Hbk Hfr].
  pose proof (bucket_range t tag ltac:(lia)) as Hb. set (b := BucketFor t tag) in *.
  assert (forall b', 0 <= b' <= bucket_mask t -> f ∉ chains b') as Hfo.
  { intros b' Hb' Hf'. destruct (Hfr b' f Hb' Hf') as (_ & E & _). lia. }
  split; cbn [Link frame_capacity bucket_mask heads link bucket_of]; try done.
  - intros b' Hb'. destruct (decide (b' = b)) as [->|Hne].
    + rewrite !fn_lookup_insert. cbn [chain]. split; [done|]. split; [lia|].
      rewrite fn_lookup_insert. apply chain_insert; auto.
    + rewrite !fn_lookup_insert_ne by done. apply chain_insert; auto.
  - intros b' Hb'. destruct (decide (b' = b)) as [->|Hne].
    + rewrite fn_lookup_insert. constructor; auto.
    + rewrite fn_lookup_insert_ne by done. auto.
  - intros g Hg. destruct (decide (g = f)) as [->|Hne].
    + right. rewrite fn_lookup_insert, fn_lookup_insert. split; [done|]. set_solver.
    + rewrite (fn_lookup_insert_ne (bucket_of t)) by done.
      destruct (Hbk g Hg) as [|[? ?]]; [by left|]. right. split; [done|].
      destruct (decide (bucket_of t g = b)) as [E|E].
      * rewrite E, fn_lookup_insert in *. set_solver.
      * by rewrite fn_lookup_insert_ne.
  - intros b' g Hb' Hg.
    assert (g = f /\ b' = b \/ g <> f /\ g ∈ chains b') as [[-> ->]|[Hne Hg']].
    { destruct (decide (b' = b)) as [->|Hne].
      - rewrite fn_lookup_insert in Hg. destruct (decide (g = f)); [by left|]. right. set_solver.
      - rewrite fn_lookup_insert_ne in Hg by done. right. split; [|done]. intros ->.
        by apply (Hfo b' Hb'). }
    + rewrite fn_lookup_insert. split_and!; try done; try lia.
      unfold BucketFor, key. cbn. rewrite !fn_lookup_insert. by destruct tag.
    + destruct (Hfr b' g Hb' Hg') as (? & ? & Hk). rewrite fn_lookup_insert_ne by done.
      split_and!; try done; try lia. unfold BucketFor, key in *. cbn.
      rewrite !fn_lookup_insert_ne by done. done.
Qed.

(** ** Sequence counters *)

(** No writer is inside: every stripe's sequence is even. *)
Definition quiescent (t : page_table) : Prop := forall s, Z.odd (sequence t s) = false.

Lemma odd_u32_succ x : Z.odd (u32 (x + 1)) = negb (Z.odd x).
Proof.
  unfold u32, u32_mod. rewrite <- !Z.bit0_odd, Z.mod_pow2_bits_low by lia.
  rewrite !Z.bit0_odd, Z.odd_add. by destruct (Z.odd x).
Qed.

Lemma bump_all_odd t l s :
  NoDup l -> Z.odd (sequence (bump_all t l) s) = xorb (Z.odd (sequence t s)) (bool_decide (s ∈ l)).
Proof.
  unfold bump_all. revert t. induction l as [|r l IH]; intros t Hnd; cbn [foldl].
  - by destruct (Z.odd _).
  - apply list.NoDup_cons in Hnd as [Hr Hnd]. rewrite IH by done. cbn [bump sequence].
    destruct (decide (s = r)) as [->|Hne].
    + rewrite fn_lookup_insert, odd_u32_succ. rewrite (bool_decide_false (r ∈ l)) by done.
      rewrite bool_decide_true by set_solver. by destruct (Z.odd _).
    + rewrite fn_lookup_insert_ne by done. f_equal. apply bool_decide_ext. set_solver.
Qed.

Lemma stripe_writer_nodup a b : NoDup (StripeWriter a b).
Proof.
  destruct b as [b|]; cbn [StripeWriter]; [|apply NoDup_singleton].
  destruct (Z.eqb_spec b a); [apply NoDup_singleton|].
  destruct (b <? a); (constructor; [set_solver|apply NoDup_singleton]).
Qed.

(** Everything but the sequence counters. *)
Definition same_arrays (t t' : page_table) : Prop :=
  frame_capacity t' = frame_capacity t /\ bucket_mask t' = bucket_mask t /\
  stripe_count t' = stripe_count t /\ heads t' = heads t /\ link t' = link t /\
  bucket_of t' = bucket_of t /\ key_file_id t' = key_file_id t /\ key_block_id t' = key_block_id t.

Lemma bump_all_arrays t l : same_arrays t (bump_all t l).
Proof.
  unfold bump_all. revert t. induction l as [|r l IH]; intros t; [done|]. cbn [foldl].
  unfold same_arrays in *.
  destruct (IH (bump t r)) as (-> & -> & -> & -> & -> & -> & -> & ->). done.
Qed.

Lemma represents_arrays t t' chains : same_arrays t t' -> represents t chains -> represents t' chains.
Proof.
  intros (Ec & Em & Es & Eh & El & Eb & Ef & Ek) [? ? ? ? ? Hf].
  split; rewrite ?Ec, ?Em, ?Eh, ?El, ?Eb; try done.
  intros b f Hb Hin. unfold BucketFor, key. rewrite Em, Ef, Ek. by apply Hf.
Qed.

(** A writer leaves every sequence even again. *)
Lemma with_stripes_quiescent {A} l (body : page_table -> A * page_table) t :
  NoDup l -> quiescent t -> (forall t, sequence (body t).2 = sequence t) ->
  quiescent (with_stripes l body t).2.
Proof.
  intros Hnd Hq Hb s. unfold with_stripes. specialize (Hb (bump_all t l)).
  destruct (body (bump_all t l)) as [a t1]; cbn [snd] in *.
  rewrite bump_all_odd by (by rewrite reverse_Permutation). rewrite Hb, bump_all_odd, Hq by done.
  rewrite (bool_decide_ext (s ∈ reverse l) (s ∈ l)) by apply elem_of_reverse.
  by destruct (bool_decide (s ∈ l)).
Qed.

(** ** Lookups *)

Lemma find_without p f l : find p l <> Some f -> find p (without f l) = find p l.
Proof.
  induction l as [|g l IH]; [done|]. unfold without in *. cbn [find].
  destruct (decide (g = f)) as [->|Hne].
  - rewrite filter_cons_False by auto. destruct (p f); [done|]. auto.
  - rewrite filter_cons_True by done. cbn [find]. destruct (p g); auto.
Qed.

Lemma find_ext (p q : Z -> bool) l : (forall g, g ∈ l -> p g = q g) -> find p l = find q l.
Proof.
  induction l as [|g l IH]; [done|]. intros H. cbn [find]. rewrite (H g) by set_solver.
  rewrite IH; [done|]. set_solver.
Qed.

Lemma lookup_find t chains tag :
  represents t chains -> quiescent t ->
  LookupFrameId tag t = Some (find (fun f => MapsTo t f tag) (chains (BucketFor t tag))).
Proof.
  intros Hr Hq. unfold LookupFrameId. pose proof (r_mask t chains Hr).
  pose proof (bucket_range t tag ltac:(lia)) as Hb.
  replace (Z.land (sequence t (StripeFor t (BucketFor t tag))) 1) with 0.
  - cbn [Z.eqb negb]. f_equal. apply walk_chain; [by eapply r_chain|by eapply represents_length].
  - specialize (Hq (StripeFor t (BucketFor t tag))). change 1 with (Z.ones 1).
    rewrite Z.land_ones, Zmod_odd, Hq by lia. done.
Qed.

Lemma maps_to_key t f tag : MapsTo t f tag = true <-> key t f = tag.
Proof.
  unfold MapsTo, key. rewrite andb_true_iff, !Z.eqb_eq. destruct tag; simpl.
  split; [by intros [-> ->]|by intros [= -> ->]].
Qed.

(** The frame taken out of its chain, if it is in one. *)
Definition detached (f : Z) (t : page_table) : page_table :=
  if bucket_of t f =? kNone then t else unlinked f t.

Lemma detached_represents t chains f :
  represents t chains -> 0 <= f < frame_capacity t ->
  exists chains', represents (detached f t) chains' /\
    (forall b, 0 <= b <= bucket_mask t -> chains' b = without f (chains b)) /\
    same_entries t (detached f t) f.
Proof.
  intros Hr Hf. unfold detached.
  destruct (Z.eqb_spec (bucket_of t f) kNone) as [E|Hn].
  - exists chains. split; [done|]. split.
    + intros b Hb. rewrite without_notin; [done|]. intros Hin.
      destruct (r_frame t chains Hr b f Hb Hin) as (_ & Eb & _). pose proof (r_mask t chains Hr). lia.
    + unfold same_entries. by split_and!.
  - destruct (unlinked_represents t chains f _ Hr Hf eq_refl Hn) as [Hse Hr'].
    eexists. split; [exact Hr'|]. split; [|done]. intros b Hb.
    destruct (decide (b = bucket_of t f)) as [->|Hne]; [by rewrite fn_lookup_insert|].
    rewrite fn_lookup_insert_ne, without_notin; [done| |done]. intros Hin.
    destruct (r_frame t chains Hr b f Hb Hin) as (_ & Eb & _). done.
Qed.

Definition wf (t : page_table) : Prop := quiescent t /\ exists chains, represents t chains.

(** [f] is in the table under [tag]. *)
Definition linked (t : page_table) (f : Z) (tag : BufferTag) : Prop :=
  bucket_of t f <> kNone /\ key t f = tag.

(** The table with [f] taken out and linked first under [tag]. *)
Definition relinked (tag : BufferTag) (f : Z) (t : page_table) : page_table :=
  Link (BucketFor t tag) tag f (detached f t).

(** How one table's entries relate to another's, [f] apart. *)
Definition agree_but (f : Z) (t t' : page_table) : Prop :=
  frame_capacity t' = frame_capacity t /\ bucket_mask t' = bucket_mask t /\
  forall g, g <> f -> bucket_of t' g = bucket_of t g /\ key t' g = key t g.

Lemma relinked_represents t chains tag f :
  represents t chains -> 0 <= f < frame_capacity t ->
  exists chains', represents (relinked tag f t) chains' /\
    (forall b, 0 <= b <= bucket_mask t ->
       chains' b = if b =? BucketFor t tag then f :: without f (chains b) else without f (chains b)) /\
    agree_but f t (relinked tag f t) /\ linked (relinked tag f t) f tag.
Proof.
  intros Hr Hf. destruct (detached_represents t chains f Hr Hf) as (ch1 & Hr1 & Hch1 & Hse).
  destruct Hse as (Ec & Em & Es & Ef & Ek & Eq & Eb & Eb').
  assert (BucketFor t tag = BucketFor (detached f t) tag) as EB by (unfold BucketFor; by rewrite Em).
  pose proof (link_represents (detached f t) ch1 (BucketFor t tag) tag f Hr1 ltac:(lia) Eb EB) as Hl.
  pose proof (r_mask t chains Hr). pose proof (bucket_range t tag ltac:(lia)).
  eexists. split; [exact Hl|]. split; [|split].
  - intros b Hb. destruct (Z.eqb_spec b (BucketFor t tag)) as [->|Hne].
    + by rewrite fn_lookup_insert, Hch1.
    + by rewrite fn_lookup_insert_ne, Hch1.
  - unfold agree_but, relinked, key. cbn [Link frame_capacity bucket_mask bucket_of key_file_id key_block_id].
    split; [done|]. split; [done|]. intros g Hg. rewrite !fn_lookup_insert_ne by done.
    rewrite Eb', Ef, Ek by done. done.
  - unfold linked, relinked, key. cbn [Link bucket_of key_file_id key_block_id].
    rewrite !fn_lookup_insert. split; [lia|]. by destruct tag.
Qed.

Lemma agree_maps f t t' g tag : agree_but f t t' -> g <> f -> MapsTo t' g tag = MapsTo t g tag.
Proof.
  intros (_ & _ & Ha) Hg. destruct (Ha g Hg) as [_ E]. unfold key in E. injection E as E1 E2.
  unfold MapsTo. by rewrite E1, E2.
Qed.

(** Lookups of other tags do not see the change. *)
Lemma relinked_lookup_other t chains tag f t' other :
  represents t chains -> quiescent t -> 0 <= f < frame_capacity t -> quiescent t' ->
  same_arrays (relinked tag f t) t' -> other <> tag ->
  LookupFrameId other t <> Some (Some f) -> LookupFrameId other t' = LookupFrameId other t.
Proof.
  intros Hr Hq Hf Hq' Hsa Hne. pose proof (r_mask t chains Hr). pose proof (bucket_range t other ltac:(lia)) as Hb.
  destruct (relinked_represents t chains tag f Hr Hf) as (ch' & Hr' & Hch & Hag & [_ Hkey]).
  pose proof (represents_arrays _ _ _ Hsa Hr') as Hr''.
  assert (agree_but f t t' /\ key t' f = tag) as [Hag' Hk'].
  { destruct Hsa as (? & ? & ? & ? & ? & E1 & E2 & E3). destruct Hag as (Ec & Em & Ha).
    unfold agree_but, key in *. rewrite E1, E2, E3. split; [|done]. split_and!; [congruence..|done]. }
  rewrite (lookup_find t' ch') by done. rewrite (lookup_find t chains) by done. intros Hnf.
  f_equal. assert (BucketFor t' other = BucketFor t other) as ->
    by (unfold BucketFor; destruct Hag' as (_ & -> & _); done).
  assert (find (fun g => MapsTo t' g other) (without f (chains (BucketFor t other))) =
          find (fun g => MapsTo t g other) (chains (BucketFor t other))) as E.
  { rewrite <- (find_without (fun g => MapsTo t g other) f) by congruence. apply find_ext.
    intros g Hg. apply elem_of_without in Hg as [Hg _]. by eapply agree_maps. }
  rewrite Hch by done. destruct (_ =? _); [|done]. cbn [find].
  destruct (MapsTo t' f other) eqn:Em; [|done]. apply maps_to_key in Em. congruence.
Qed.

Lemma relinked_lookup_self t chains tag f t' :
  represents t chains -> 0 <= f < frame_capacity t -> quiescent t' ->
  same_arrays (relinked tag f t) t' -> LookupFrameId tag t' = Some (Some f).
Proof.
  intros Hr Hf Hq' Hsa. pose proof (r_mask t chains Hr). pose proof (bucket_range t tag ltac:(lia)) as Hb.
  destruct (relinked_represents t chains tag f Hr Hf) as (ch' & Hr' & Hch & Hag & [_ Hkey]).
  rewrite (lookup_find t' ch') by eauto using represents_arrays.
  assert (BucketFor t' tag = BucketFor t tag) as ->.
  { unfold BucketFor. destruct Hsa as (_ & -> & _). by destruct Hag as (_ & -> & _). }
  rewrite Hch, Z.eqb_refl by done. cbn [find].
  assert (MapsTo t' f tag = true) as ->; [|done].
  apply maps_to_key. destruct Hsa as (_ & _ & _ & _ & _ & _ & E2 & E3).
  unfold key in *. by rewrite E2, E3.
Qed.

(** *** Writers, up to sequence counters *)

Definition set_sequence (t : page_table) (q : Z -> Z) : page_table :=
  PageTable (frame_capacity t) (bucket_mask t) (stripe_count t) (heads t) (link t) (bucket_of t)
    (key_file_id t) (key_block_id t) q.

Lemma bump_all_set t l : bump_all t l = set_sequence t (sequence (bump_all t l)).
Proof.
  unfold bump_all. revert t. induction l as [|r l IH]; intros t; cbn [foldl]; [by destruct t|].
  rewrite IH. done.
Qed.

Lemma unlinked_set f t q : unlinked f (set_sequence t q) = set_sequence (unlinked f t) q.
Proof.
  unfold unlinked, Unlink. cbn [set_sequence heads link bucket_of chain_fuel frame_capacity].
  unfold chain_fuel. cbn [set_sequence frame_capacity].
  destruct (heads t (bucket_of t f) =? f); [done|].
  destruct (unlink_walk _ _ _ _ _); done.
Qed.

Lemma same_arrays_set t q : same_arrays t (set_sequence t q).
Proof. done. Qed.

Lemma same_arrays_bump t t' l : same_arrays t t' -> same_arrays t (bump_all t' l).
Proof. rewrite bump_all_set. done. Qed.

Lemma unlinked_seq_any t f : sequence (unlinked f t) = sequence t.
Proof.
  unfold unlinked, Unlink. destruct (heads t (bucket_of t f) =? f); [done|].
  destruct (unlink_walk _ _ _ _ _); done.
Qed.

(** The table [Replace] leaves. *)
Lemma replace_arrays old_tag new_tag f t chains :
  represents t chains -> 0 <= f < frame_capacity t ->
  same_arrays (if negb (bucket_of t f =? kNone) && negb (MapsTo t f old_tag) && MapsTo t f new_tag
               then t else relinked new_tag f t) (Replace old_tag new_tag f t).
Proof.
  intros Hr Hf. unfold Replace, with_stripes.
  set (l := writer_stripes _ _ _). rewrite (bump_all_set t l). set (q := sequence (bump_all t l)).
  cbn [snd]. apply same_arrays_bump. unfold relinked, detached.
  change (MapsTo (set_sequence t q)) with (MapsTo t).
  destruct (Z.eqb_spec (bucket_of t f) kNone) as [E|Hn]; cbn [negb andb].
  - cbn [set_sequence bucket_of]. rewrite E, Z.eqb_refl. done.
  - destruct (MapsTo t f old_tag); cbn [negb orb andb].
    + rewrite unlinked_set. cbn [set_sequence bucket_of].
      destruct (unlinked_represents t chains f _ Hr Hf eq_refl Hn) as [Hse _].
      destruct Hse as (_ & _ & _ & _ & _ & _ & -> & _). rewrite Z.eqb_refl. done.
    + destruct (MapsTo t f new_tag); cbn [negb].
      * cbn [set_sequence bucket_of]. destruct (Z.eqb_spec (bucket_of t f) kNone); done.
      * rewrite unlinked_set. cbn [set_sequence bucket_of].
        destruct (unlinked_represents t chains f _ Hr Hf eq_refl Hn) as [Hse _].
        destruct Hse as (_ & _ & _ & _ & _ & _ & -> & _). rewrite Z.eqb_refl. done.
Qed.

Lemma replace_quiescent old_tag new_tag f t : quiescent t -> quiescent (Replace old_tag new_tag f t).
Proof.
  intros Hq. unfold Replace. apply with_stripes_quiescent; [apply stripe_writer_nodup|done|].
  intros t'. cbn [snd]. set (t1 := if _ && _ then _ else _).
  assert (sequence t1 = sequence t') as <- by (subst t1; destruct (_ && _); [apply unlinked_seq_any|done]).
  by destruct (bucket_of t1 f =? kNone).
Qed.

Lemma lookup_same_arrays t t' tag :
  wf t -> quiescent t' -> same_arrays t t' -> LookupFrameId tag t' = LookupFrameId tag t.
Proof.
  intros [Hq [ch Hr]] Hq' Hsa. rewrite (lookup_find t ch), (lookup_find t' ch) by eauto using represents_arrays.
  destruct Hsa as (_ & E & _ & _ & _ & _ & E1 & E2). unfold BucketFor, MapsTo. by rewrite E, E1, E2.
Qed.

Lemma replace_wf old_tag new_tag f t :
  wf t -> 0 <= f < frame_capacity t -> wf (Replace old_tag new_tag f t).
Proof.
  intros [Hq [ch Hr]] Hf. pose proof (replace_arrays old_tag new_tag f t ch Hr Hf) as Hsa.
  destruct (relinked_represents t ch new_tag f Hr Hf) as (ch' & Hr' & _).
  split; [by apply replace_quiescent|].
  destruct (negb _ && _ && _); eauto using represents_arrays.
Qed.

(** [Replace] (and [Install]) maps the new tag: the table stays well formed;
    afterwards a lookup of the new tag returns the frame (unless the frame was
    already linked under the new tag and not under the old one, when nothing
    changes), and a lookup of any other tag returns what it returned before,
    unless that was this frame. *)
Lemma replace_lookup old_tag new_tag f t :
  wf t -> 0 <= f < frame_capacity t ->
  let t' := Replace old_tag new_tag f t in
  wf t' /\
  (linked t f new_tag -> key t f <> old_tag -> forall tag, LookupFrameId tag t' = LookupFrameId tag t) /\
  (~ linked t f new_tag \/ key t f = old_tag ->
     LookupFrameId new_tag t' = Some (Some f) /\
     forall tag, tag <> new_tag -> LookupFrameId tag t <> Some (Some f) ->
                 LookupFrameId tag t' = LookupFrameId tag t).
Proof.
  intros [Hq [ch Hr]] Hf t'. pose proof (replace_arrays old_tag new_tag f t ch Hr Hf) as Hsa.
  pose proof (replace_quiescent old_tag new_tag f t Hq) as Hq'. fold t' in Hsa, Hq'.
  destruct (relinked_represents t ch new_tag f Hr Hf) as (ch' & Hr' & _).
  assert (negb (bucket_of t f =? kNone) && negb (MapsTo t f old_tag) && MapsTo t f new_tag = true <->
          linked t f new_tag /\ key t f <> old_tag) as Hcase.
  { unfold linked. rewrite !andb_true_iff, !negb_true_iff, Z.eqb_neq, maps_to_key.
    rewrite <- (not_true_iff_false (MapsTo t f old_tag)), maps_to_key. tauto. }
  destruct (negb _ && _ && _).
  - destruct (proj1 Hcase eq_refl) as [Hl Hk]. split_and!.
    + by apply replace_wf; [split; eauto|].
    + intros _ _ tag. apply lookup_same_arrays; try done. by split; eauto.
    + intros [?|?]; done.
  - split_and!.
    + by apply replace_wf; [split; eauto|].
    + intros Hl Hk. by discriminate (proj2 Hcase (conj Hl Hk)).
    + intros _. split; [by apply (relinked_lookup_self t ch)|].
      intros tag Hne Hnf. by apply (relinked_lookup_other t ch new_tag f).
Qed.

(** *** Removal *)

Lemma remove_arrays tag f t :
  same_arrays (if MapsTo t f tag then detached f t else t) (Remove tag f t).
Proof.
  unfold Remove, with_stripes, detached. destruct (Z.eqb_spec (bucket_of t f) kNone) as [E|Hn].
  - by destruct (MapsTo t f tag).
  - set (l := StripeWriter _ _). rewrite (bump_all_set t l). set (q := sequence (bump_all t l)).
    cbn [snd]. apply same_arrays_bump. change (MapsTo (set_sequence t q)) with (MapsTo t).
    destruct (MapsTo t f tag); [|done]. by rewrite unlinked_set.
Qed.

Lemma remove_quiescent tag f t : quiescent t -> quiescent (Remove tag f t).
Proof.
  intros Hq. unfold Remove. destruct (_ =? _); [done|].
  apply with_stripes_quiescent; [apply stripe_writer_nodup|done|].
  intros t'. cbn [snd]. destruct (MapsTo t' f tag); [apply unlinked_seq_any|done].
Qed.

Lemma detached_lookup t chains f t' tag :
  represents t chains -> quiescent t -> 0 <= f < frame_capacity t -> quiescent t' ->
  same_arrays (detached f t) t' ->
  LookupFrameId tag t' <> Some (Some f) /\
  (LookupFrameId tag t <> Some (Some f) -> LookupFrameId tag t' = LookupFrameId tag t).
Proof.
  intros Hr Hq Hf Hq' Hsa. pose proof (r_mask t chains Hr). pose proof (bucket_range t tag ltac:(lia)) as Hb.
  destruct (detached_represents t chains f Hr Hf) as (ch' & Hr' & Hch & Hse).
  rewrite (lookup_find t' ch'), (lookup_find t chains) by eauto using represents_arrays.
  destruct Hsa as (_ & E & _ & _ & _ & _ & E1 & E2). destruct Hse as (_ & Em & _ & E3 & E4 & _).
  assert (BucketFor t' tag = BucketFor t tag) as -> by (unfold BucketFor; by rewrite E, Em).
  assert (forall g, MapsTo t' g tag = MapsTo t g tag) as Hm
    by (intros g; unfold MapsTo; by rewrite E1, E2, E3, E4).
  rewrite Hch by done. rewrite (find_ext _ (fun g => MapsTo t g tag)) by auto. split.
  - intros [= Hfd]. apply find_some in Hfd as [Hin _]. apply list_elem_of_In, elem_of_without in Hin. naive_solver.
  - intros Hn. by rewrite find_without by congruence.
Qed.

(** [Remove] unmaps a tag from a frame and nothing else: the table stays well
    formed, the frame is no longer linked under the tag, no lookup that did not
    return this frame changes, and when the frame is mapped under another tag
    the call has no effect on any lookup. *)
Lemma remove_lookup tag f t :
  wf t -> 0 <= f < frame_capacity t ->
  let t' := Remove tag f t in
  wf t' /\ ~ linked t' f tag /\ LookupFrameId tag t' <> Some (Some f) /\
  (key t f <> tag -> forall other, LookupFrameId other t' = LookupFrameId other t) /\
  (forall other, LookupFrameId other t <> Some (Some f) ->
                 LookupFrameId other t' = LookupFrameId other t).
Proof.
  intros [Hq [ch Hr]] Hf t'. pose proof (remove_arrays tag f t) as Hsa.
  pose proof (remove_quiescent tag f t Hq) as Hq'. fold t' in Hsa, Hq'.
  destruct (detached_represents t ch f Hr Hf) as (ch' & Hr' & _ & Hse).
  destruct (MapsTo t f tag) eqn:Em.
  - split_and!.
    + split; eauto using represents_arrays.
    + intros [Hl _]. apply Hl. destruct Hsa as (_ & _ & _ & _ & _ & -> & _).
      by destruct Hse as (_ & _ & _ & _ & _ & _ & -> & _).
    + by eapply (detached_lookup t ch f).
    + apply maps_to_key in Em. done.
    + intros other. by eapply (detached_lookup t ch f).
  - assert (forall other, LookupFrameId other t' = LookupFrameId other t) as Hl.
    { intros other. apply lookup_same_arrays; try done. by split; eauto. }
    assert (key t f <> tag) as Hk by (by rewrite <- maps_to_key, Em).
    split_and!; try done.
    + split; eauto using represents_arrays.
    + intros [_ E]. apply Hk. destruct Hsa as (_ & _ & _ & _ & _ & _ & E1 & E2).
      unfold key in *. by rewrite <- E1, <- E2.
    + rewrite Hl, (lookup_find t ch) by done. intros [= Hfd]. apply find_some in Hfd as [_ Hm].
      congruence.
Qed.

(** *** Claiming a tag for a frame *)

Definition other_live (t : page_table) (f : Z) (tag : BufferTag) (live : Z -> bool) (g : Z) : bool :=
  negb (g =? f) && MapsTo t g tag && live g.

Definition maps_opt (t : page_table) (f : Z) (o : option BufferTag) : bool :=
  match o with Some o => MapsTo t f o | None => false end.

Lemma replace_unless_live_arrays old_tag new_tag f live t chains :
  represents t chains -> 0 <= f < frame_capacity t ->
  let '(r, t') := ReplaceUnlessLive old_tag new_tag f live t in
  r = find (other_live t f new_tag live) (chains (BucketFor t new_tag)) /\
  same_arrays
    (if bool_decide (is_Some r) then detached f t
     else if negb (bucket_of t f =? kNone) && negb (maps_opt t f old_tag) && MapsTo t f new_tag
          then t else relinked new_tag f t) t'.
Proof.
  intros Hr Hf. pose proof (r_mask t chains Hr). pose proof (bucket_range t new_tag ltac:(lia)) as Hb.
  unfold ReplaceUnlessLive, with_stripes.
  set (l := writer_stripes _ _ _). rewrite (bump_all_set t l). set (q := sequence (bump_all t l)).
  change (MapsTo (set_sequence t q)) with (MapsTo t).
  cbn [set_sequence frame_capacity heads link bucket_of].
  fold (maps_opt t f old_tag).
  rewrite (walk_chain _ _ _ _ (chains (BucketFor t new_tag)))
    by (by eapply r_chain || by eapply represents_length).
  change (fun f0 : Z => negb (f0 =? f) && MapsTo t f0 new_tag && live f0)
    with (other_live t f new_tag live).
  pose proof (unlinked_represents t chains f _ Hr Hf eq_refl) as Hu. unfold relinked, detached.
  destruct (find (other_live t f new_tag live) _) as [g|].
  - rewrite (bool_decide_true (is_Some (Some g))) by eauto. rewrite orb_true_r, andb_true_r. split; [done|].
    apply same_arrays_bump. destruct (Z.eqb_spec (bucket_of t f) kNone); [done|].
    cbn [negb]. by rewrite unlinked_set.
  - rewrite (bool_decide_false (is_Some None)) by (by intros [? ?]). rewrite orb_false_r. split; [done|].
    apply same_arrays_bump. destruct (Z.eqb_spec (bucket_of t f) kNone) as [E|Hn]; cbn [negb andb].
    + cbn [set_sequence bucket_of]. rewrite E, Z.eqb_refl. done.
    + destruct (Hu Hn) as [(_ & _ & _ & _ & _ & _ & Eu & _) _].
      destruct (maps_opt t f old_tag), (MapsTo t f new_tag); cbn [negb orb andb];
        rewrite ?unlinked_set; cbn [set_sequence bucket_of]; rewrite ?Eu, ?Z.eqb_refl; try done.
      destruct (Z.eqb_spec (bucket_of t f) kNone); done.
Qed.

Lemma replace_unless_live_quiescent old_tag new_tag f live t :
  quiescent t -> quiescent (ReplaceUnlessLive old_tag new_tag f live t).2.
Proof.
  intros Hq. unfold ReplaceUnlessLive. apply with_stripes_quiescent; [apply stripe_writer_nodup|done|].
  intros t'. cbv zeta. set (t1 := if _ && _ then _ else _).
  assert (sequence t1 = sequence t') as E by (subst t1; destruct (_ && _); [apply unlinked_seq_any|done]).
  destruct (walk _ _ _ _); cbn [snd]; [done|]. by destruct (bucket_of t1 f =? kNone).
Qed.

Lemma linked_in_chain t chains g tag :
  represents t chains -> 0 <= g < frame_capacity t -> linked t g tag -> g ∈ chains (BucketFor t tag).
Proof.
  intros Hr Hg [Hb <-]. destruct (in_chain t chains g _ Hr Hg eq_refl Hb) as [Hm Hin].
  destruct (r_frame t chains Hr _ g Hm Hin) as (_ & _ & ->). done.
Qed.

Lemma chain_linked t chains g tag :
  represents t chains -> g ∈ chains (BucketFor t tag) -> MapsTo t g tag = true ->
  0 <= g < frame_capacity t /\ linked t g tag.
Proof.
  intros Hr Hin Hm. pose proof (r_mask t chains Hr). pose proof (bucket_range t tag ltac:(lia)) as Hb.
  destruct (r_frame t chains Hr _ g Hb Hin) as (Hg & Eb & _). split; [done|].
  split; [lia|]. by apply maps_to_key.
Qed.

(** What [ReplaceUnlessLive] leaves. *)
Lemma replace_unless_live_spec old_tag new_tag f live t :
  wf t -> 0 <= f < frame_capacity t ->
  let '(r, t') := ReplaceUnlessLive old_tag new_tag f live t in
  wf t' /\ agree_but f t t' /\
  match r with
  | Some g => 0 <= g < frame_capacity t /\ g <> f /\ linked t' g new_tag /\ live g = true /\ bucket_of t' f = kNone
  | None => linked t' f new_tag /\
      forall g, 0 <= g < frame_capacity t -> g <> f -> linked t' g new_tag -> live g = false
  end.
Proof.
  intros [Hq [ch Hr]] Hf. pose proof (replace_unless_live_arrays old_tag new_tag f live t ch Hr Hf) as Ha.
  pose proof (replace_unless_live_quiescent old_tag new_tag f live t Hq) as Hq'.
  destruct (ReplaceUnlessLive _ _ _ _ _) as [r t']. cbn [snd] in Hq'. destruct Ha as [Er Hsa].
  destruct (detached_represents t ch f Hr Hf) as (chd & Hrd & _ & Hse).
  destruct (relinked_represents t ch new_tag f Hr Hf) as (chr & Hrr & _ & Hag & Hlk).
  pose proof Hsa as (Ec & Em & _ & _ & _ & Eb & E1 & E2).
  destruct r as [g|].
  - rewrite bool_decide_true in * by eauto. symmetry in Er. apply find_some in Er as [Hin Hp].
    apply list_elem_of_In in Hin. unfold other_live in Hp.
    apply andb_true_iff in Hp as [[Hne Hmp]%andb_true_iff Hlive].
    apply negb_true_iff, Z.eqb_neq in Hne.
    destruct Hse as (Dc & Dm & _ & D1 & D2 & _ & Db & Db').
    destruct (chain_linked t ch g new_tag Hr Hin Hmp) as [Hrange [Hl Hk]].
    split_and!; try done; try apply Hrange.
    + split; eauto using represents_arrays.
    + split_and!; [congruence..|]. intros h Hh. unfold key. rewrite Eb, E1, E2, D1, D2, Db' by done. done.
    + split; [rewrite Eb, Db' by done; done|]. unfold key in *. by rewrite E1, E2, D1, D2.
    + by rewrite Eb.
  - rewrite bool_decide_false in * by (by intros [? ?]).
    assert (forall g, g ∈ ch (BucketFor t new_tag) -> g <> f -> MapsTo t g new_tag = true ->
              live g = false) as Hno.
    { intros g Hin Hne Hmp. symmetry in Er. apply list_elem_of_In in Hin.
      pose proof (find_none _ _ Er g Hin) as Hp. unfold other_live in Hp. rewrite Hmp in Hp.
      destruct (Z.eqb_spec g f); [done|]. by destruct (live g). }
    assert (agree_but f t t' /\ linked t' f new_tag /\ wf t') as (Hag' & Hlk' & Hwf).
    { destruct (negb (bucket_of t f =? kNone) && _ && _) eqn:Ecase.
      - apply andb_true_iff in Ecase as [[Hb _]%andb_true_iff Hm].
        apply negb_true_iff, Z.eqb_neq in Hb. apply maps_to_key in Hm.
        split_and!; [| |split; eauto using represents_arrays].
        + split_and!; [done..|]. intros h Hh. unfold key. by rewrite Eb, E1, E2.
        + unfold linked, key in *. by rewrite Eb, E1, E2.
      - destruct Hag as (Rc & Rm & Ra). split_and!; [| |split; eauto using represents_arrays].
        + split_and!; [congruence..|]. intros h Hh. unfold key in *. rewrite Eb, E1, E2. by apply Ra.
        + unfold linked, key in *. by rewrite Eb, E1, E2. }
    split_and!; try done. intros g Hg Hne [Hl Hk].
    destruct Hag' as (_ & _ & Ha). destruct (Ha g Hne) as [Eg Ekg].
    assert (linked t g new_tag) as Hlg by (split; congruence).
    apply Hno; [by eapply linked_in_chain|done|]. apply maps_to_key. apply Hlg.
Qed.

(** C32 — [ReplaceUnlessLive] gives a tag at most one live frame: if it returns a
    frame, that frame is another one, linked under the tag and live, and this
    frame is in no chain afterwards; if it returns nothing, this frame is linked
    under the tag and no other frame linked under it is live. Either way the
    table stays well formed and no other frame's entry changes. *)
Theorem replace_unless_live_unique old_tag new_tag f live t :
  wf t -> 0 <= f < frame_capacity t ->
  let '(r, t') := ReplaceUnlessLive old_tag new_tag f live t in
  wf t' /\ agree_but f t t' /\
  match r with
  | Some g => 0 <= g < frame_capacity t /\ g <> f /\ linked t' g new_tag /\ live g = true /\ bucket_of t' f = kNone
  | None => linked t' f new_tag /\
      forall g, 0 <= g < frame_capacity t -> g <> f -> linked t' g new_tag -> live g = false
  end.
Proof. apply replace_unless_live_spec. Qed.

(** What [Remove] leaves. *)
Lemma remove_spec tag f t :
  wf t -> 0 <= f < frame_capacity t ->
  wf (Remove tag f t) /\ agree_but f t (Remove tag f t) /\
  (linked t f tag -> bucket_of (Remove tag f t) f = kNone) /\
  (~ linked t f tag -> bucket_of (Remove tag f t) f = bucket_of t f /\ key (Remove tag f t) f = key t f).
Proof.
  intros [Hq [ch Hr]] Hf. pose proof (remove_arrays tag f t) as Hsa.
  pose proof (remove_quiescent tag f t Hq) as Hq'. set (t' := Remove tag f t) in *.
  destruct (detached_represents t ch f Hr Hf) as (ch' & Hr' & _ & Hse).
  destruct (MapsTo t f tag) eqn:Em.
  - pose proof Hsa as (E1 & E2 & _ & _ & _ & Eb & Ek1 & Ek2).
    destruct Hse as (D1 & D2 & _ & D3 & D4 & _ & Db & Db'). split_and!.
    + split; eauto using represents_arrays.
    + split_and!; [congruence..|]. intros g Hg. unfold key. rewrite Eb, Ek1, Ek2, D3, D4, Db' by done. done.
    + intros _. by rewrite Eb.
    + intros Hn. assert (bucket_of t f = kNone) as E0.
      { destruct (decide (bucket_of t f = kNone)); [done|]. destruct Hn. split; [done|]. by apply maps_to_key. }
      unfold key. by rewrite Eb, Db, Ek1, Ek2, D3, D4.
  - pose proof Hsa as (E1 & E2 & _ & _ & _ & Eb & Ek1 & Ek2). split_and!.
    + split; eauto using represents_arrays.
    + split_and!; [done..|]. intros g Hg. unfold key. by rewrite Eb, Ek1, Ek2.
    + intros [_ Hk]. apply maps_to_key in Hk. congruence.
    + intros _. unfold key. by rewrite Eb, Ek1, Ek2.
Qed.

(** What a lookup returns, in terms of the entries. *)
Lemma lookup_spec tag t :
  wf t -> exists r, LookupFrameId tag t = Some r /\
  match r with
  | Some f => 0 <= f < frame_capacity t /\ linked t f tag
  | None => forall f, 0 <= f < frame_capacity t -> ~ linked t f tag
  end.
Proof.
  intros [Hq [ch Hr]]. exists (find (fun f => MapsTo t f tag) (ch (BucketFor t tag))).
  split; [by apply lookup_find|]. destruct (find _ _) as [f|] eqn:E.
  - apply find_some in E as [Hin Hm]. apply list_elem_of_In in Hin. by eapply chain_linked.
  - intros f Hf Hl. pose proof (linked_in_chain t ch f tag Hr Hf Hl) as Hin. apply list_elem_of_In in Hin.
    pose proof (find_none _ _ E f Hin) as Hm. destruct Hl as [_ Hk]. apply maps_to_key in Hk. congruence.
Qed.

(** *** Construction and examples *)

Lemma bucket_count_bound n : 0 <= n <= 2 ^ 31 -> 1 <= BucketCount n <= 2 ^ 31.
Proof.
  intros Hn. unfold BucketCount, bit_ceil. destruct (Z.leb_spec (Z.max n 1) 1); [lia|]. split.
  - assert (0 < 2 ^ Z.log2_up (Z.max n 1)) by (apply Z.pow_pos_nonneg; [lia|apply Z.log2_up_nonneg]). lia.
  - apply Z.pow_le_mono_r; [lia|]. change 31 with (Z.log2_up (2 ^ 31)). apply Z.log2_up_le_mono. lia.
Qed.

Lemma new_table_wf capacity stripes : 0 <= capacity <= 2 ^ 31 -> wf (NewTable capacity stripes).
Proof.
  intros Hc. pose proof (bucket_count_bound capacity Hc). split; [done|].
  exists (fun _ => []). split; cbn [NewTable frame_capacity bucket_mask heads link bucket_of];
    try (unfold kNone; lia); try done; auto.
  - intros. constructor.
  - intros b f _ Hf. by apply not_elem_of_nil in Hf.
Qed.

Lemma replace_lookup_witness :
  LookupFrameId (MkTag 1 7) (Install (MkTag 1 7) 3 (NewTable 8 2)) = Some (Some 3).
Proof.
  apply (replace_lookup (MkTag 1 7) (MkTag 1 7) 3 (NewTable 8 2)).
  - apply new_table_wf. lia.
  - simpl. lia.
  - left. intros [H _]. by apply H.
Defined.

Lemma remove_lookup_witness :
  ~ linked (Remove (MkTag 1 7) 3 (Install (MkTag 1 7) 3 (NewTable 8 2))) 3 (MkTag 1 7).
Proof.
  apply (remove_lookup (MkTag 1 7) 3 (Install (MkTag 1 7) 3 (NewTable 8 2))).
  - apply replace_wf; [apply new_table_wf; lia|simpl; lia].
  - vm_compute. split; congruence.
Defined.

Lemma replace_unless_live_unique_witness :
  let '(r, t') := ReplaceUnlessLive None (MkTag 1 7) 3 (fun _ => true) (NewTable 8 2) in
  wf t' /\ r = None /\ linked t' 3 (MkTag 1 7).
Proof.
  pose proof (replace_unless_live_unique None (MkTag 1 7) 3 (fun _ => true) (NewTable 8 2)
                (new_table_wf 8 2 ltac:(lia)) ltac:(simpl; lia)) as H.
  assert ((ReplaceUnlessLive None (MkTag 1 7) 3 (fun _ => true) (NewTable 8 2)).1 = None) as E
    by (vm_compute; reflexivity).
  destruct (ReplaceUnlessLive _ _ _ _ _) as [r t']. cbn [fst] in E. subst r.
  destruct H as (Hw & _ & Hl & _). done.
Defined.

(** A pool of more than 2^31 frames has 2^32 buckets. *)
Lemma big_table_mask n stripes : 2 ^ 31 < n < 2 ^ 32 - 1 -> bucket_mask (NewTable n stripes) = kNone.
Proof.
  intros Hn. cbn [NewTable bucket_mask]. unfold BucketCount, bit_ceil. destruct (Z.leb_spec (Z.max n 1) 1); [lia|].
  rewrite Z.max_l by lia. rewrite (Z.log2_up_unique n 32) by (cbn; lia). done.
Qed.

(** [Install] of a frame that is not linked. *)
Lemma install_unlinked tag frame t :
  bucket_of t frame = kNone ->
  let s := StripeFor t (BucketFor t tag) in Install tag frame t = bump (Link (BucketFor t tag) tag frame (bump t s)) s.
Proof.
  intros E. cbv zeta. unfold Install, Replace, with_stripes, writer_stripes. rewrite E, Z.eqb_refl. cbn [negb andb StripeWriter].
  change (bump_all t [StripeFor t (BucketFor t tag)]) with (bump t (StripeFor t (BucketFor t tag))).
  change (bucket_of (bump t _) frame) with (bucket_of t frame). by rewrite E, Z.eqb_refl.
Qed.

(** C33 — above 2^31 frames the table loses entries: the pool validation accepts
    every pool of more than 2^31 and fewer than 2^32 - 1 frames, whatever the
    block size; the table then has 2^32 buckets, and a page whose hash ends in 32
    ones belongs to the last of them, whose number is the sentinel [kNone].
    Installed in any frame it is found, but its frame is recorded as unlinked, so
    that [Remove] does nothing and the page is still found afterwards. *)
Theorem bucket_sentinel_collision n g stripes tag frame :
  2 ^ 31 < n < 2 ^ 32 - 1 -> geometry_ok g -> 0 <= frame < n -> MixTag tag mod 2 ^ 32 = 2 ^ 32 - 1 ->
  Validate n g = Status.Ok tt /\
  let t := Install tag frame (NewTable n stripes) in
  bucket_of t frame = kNone /\ LookupFrameId tag t = Some (Some frame) /\
  Remove tag frame t = t /\ LookupFrameId tag (Remove tag frame t) = Some (Some frame).
Proof.
  intros Hn Hg Hf Htag. split.
  { unfold Validate. change kInvalidFrameId with (2 ^ 32 - 1). destruct (Z.eqb_spec n 0), (Z.leb_spec (2 ^ 32 - 1) n); try lia.
    destruct (Z.ltb_spec (MaxFrameCount g) n) as [Hlt|]; [|done]. exfalso. revert Hlt. apply Z.le_ngt.
    unfold MaxFrameCount, u64_mod. rewrite Z.shiftr_div_pow2 by (destruct Hg; lia).
    apply Z.div_le_lower_bound; [apply Z.pow_pos_nonneg; destruct Hg; lia|].
    assert (2 ^ block_shift g <= 2 ^ 22) by (apply Z.pow_le_mono_r; destruct Hg; lia). nia. }
  pose proof (big_table_mask n stripes Hn) as Em.
  assert (forall t, bucket_mask t = kNone -> BucketFor t tag = kNone) as Hb.
  { intros t E. unfold BucketFor. rewrite E. change kNone with (Z.ones 32). rewrite Z.land_ones by lia. exact Htag. }
  cbv zeta. set (t := Install _ _ _).
  assert (bucket_mask t = kNone /\ frame_capacity t = n /\ bucket_of t frame = kNone /\ heads t kNone = frame /\ MapsTo t frame tag = true /\
          sequence t (StripeFor t kNone) = 2) as (Etm & Etc & Etb & Eth & Etk & Ets).
  { unfold t. rewrite install_unlinked by done. cbv zeta. rewrite (Hb _ Em). set (s := StripeFor (NewTable n stripes) kNone).
    cbn [Link bump frame_capacity bucket_mask stripe_count heads link bucket_of key_file_id key_block_id sequence]. unfold MapsTo.
    cbn [key_file_id key_block_id]. rewrite !fn_lookup_insert. split_and!; try done.
    cbn. by rewrite !fn_lookup_insert, !Z.eqb_refl. }
  assert (LookupFrameId tag t = Some (Some frame)) as El.
  { unfold LookupFrameId. rewrite (Hb t Etm), Ets, Etc. cbn [negb Z.land Z.eqb]. replace (Z.to_nat n) with (S (Z.to_nat (n - 1))) by lia.
    cbn [walk]. rewrite Eth, Etk. destruct (Z.eqb_spec frame kNone) as [E|]; [|done]. unfold kNone in E. lia. }
  assert (Remove tag frame t = t) as Er by (unfold Remove; by rewrite Etb, Z.eqb_refl).
  by rewrite Er.
Qed.

Lemma bucket_sentinel_collision_witness :
  let tag := MkTag 0 14071717550923821167 in
  let t := Install tag 7 (NewTable (2 ^ 31 + 1) 16) in
  bucket_of t 7 = kNone /\ LookupFrameId tag (Remove tag 7 t) = Some (Some 7).
Proof.
  destruct (bucket_sentinel_collision (2 ^ 31 + 1) (MkGeometry 12) 16 (MkTag 0 14071717550923821167) 7) as (_ & H1 & _ & _ & H2).
  - lia.
  - split; cbn; lia.
  - lia.
  - vm_compute. reflexivity.
  - split; [exact H1|exact H2].
Defined.
