(* ===== verification/Replacer.v ===== *)
(** Page replacement: the interface [include/telepath/replacer/replacer.h] and
    what every policy promises to the buffer manager.

    A policy orders frames; [IsEvictable] is the buffer manager's probe.  The
    calling thread is a parameter where a policy keeps per-thread batches.
    [ReplacerLaws] is the contract: accesses and nominations do not change which
    frames are tracked, [RecordLoad] starts and [Remove] stops tracking a frame,
    a nominated frame is tracked and evictable, and when nothing is nominated
    no tracked frame is evictable.  Clients are proved against it, each policy
    discharges it. *)
From S2P Require Import Prelude.

Class Replacer (S : Type) := {
  RecordAccess : nat -> Z -> S -> S;
  RecordLoad : nat -> Z -> S -> S;
  Victim : (Z -> bool) -> S -> option Z * S;
  Remove : nat -> Z -> S -> S
}.

(** [valid] is the policy's state invariant, [capacity] its number of frames and
    [steady] excludes the wrap-around of a 64-bit hand during one sweep. *)
Class ReplacerLaws (S : Type) `{Replacer S} := {
  valid : S -> Prop;
  frames : S -> Z;
  tracked : S -> Z -> Prop;
  steady : S -> Prop;
  access_law th f s : valid s -> 0 <= f ->
    valid (RecordAccess th f s) /\ frames (RecordAccess th f s) = frames s /\
    forall g, tracked (RecordAccess th f s) g <-> tracked s g;
  load_law th f s : valid s -> 0 <= f < frames s ->
    valid (RecordLoad th f s) /\ frames (RecordLoad th f s) = frames s /\
    forall g, tracked (RecordLoad th f s) g <-> g = f \/ tracked s g;
  remove_law th f s : valid s -> 0 <= f < frames s ->
    valid (Remove th f s) /\ frames (Remove th f s) = frames s /\
    forall g, tracked (Remove th f s) g <-> g <> f /\ tracked s g;
  victim_law probe s : valid s ->
    let '(r, s') := Victim probe s in
    valid s' /\ frames s' = frames s /\ (forall g, tracked s' g <-> tracked s g) /\
    match r with
    | Some f => tracked s f /\ probe f = true
    | None => steady s -> forall f, tracked s f -> probe f = false
    end;
  tracked_range s f : valid s -> tracked s f -> 0 <= f < frames s
}.

(** ** A run of a policy

    What a client may rely on after any sequence of calls. *)
Inductive replacer_call :=
  | CallAccess (th : nat) (f : Z)
  | CallLoad (th : nat) (f : Z)
  | CallRemove (th : nat) (f : Z)
  | CallVictim (probe : Z -> bool).

Section Client.
Context {S : Type} `{ReplacerLaws S}.

Definition perform (c : replacer_call) (s : S) : S :=
  match c with
  | CallAccess th f => RecordAccess th f s
  | CallLoad th f => RecordLoad th f s
  | CallRemove th f => Remove th f s
  | CallVictim probe => (Victim probe s).2
  end.

Definition perform_all (l : list replacer_call) (s : S) : S := foldl (flip perform) s l.

Definition call_in_range (n : Z) (c : replacer_call) : Prop :=
  match c with
  | CallAccess _ f => 0 <= f
  | CallLoad _ f | CallRemove _ f => 0 <= f < n
  | CallVictim _ => True
  end.

(** The frames loaded and not removed since, in terms of the calls alone. *)
Definition loaded_after (c : replacer_call) (l : gset Z) : gset Z :=
  match c with
  | CallLoad _ f => {[ f ]} ∪ l
  | CallRemove _ f => l ∖ {[ f ]}
  | _ => l
  end.

Definition loaded (l : list replacer_call) : gset Z := foldl (flip loaded_after) ∅ l.

Lemma perform_tracks c s (l : gset Z) :
  valid s -> call_in_range (frames s) c -> (forall g, tracked s g <-> g ∈ l) ->
  valid (perform c s) /\ frames (perform c s) = frames s /\
  forall g, tracked (perform c s) g <-> g ∈ loaded_after c l.
Proof.
  intros Hv Hc Hl. destruct c as [th f|th f|th f|probe]; cbn [perform loaded_after call_in_range] in *.
  - destruct (access_law th f s Hv Hc) as (? & ? & Ht). split_and!; try done. intros g. by rewrite Ht.
  - destruct (load_law th f s Hv Hc) as (? & ? & Ht). split_and!; try done. intros g.
    rewrite Ht, Hl. set_solver.
  - destruct (remove_law th f s Hv Hc) as (? & ? & Ht). split_and!; try done. intros g.
    rewrite Ht, Hl. set_solver.
  - pose proof (victim_law probe s Hv) as Hvl. destruct (Victim probe s) as [r s'].
    destruct Hvl as (? & ? & Ht & _). split_and!; try done. intros g. simpl. by rewrite Ht.
Qed.

Lemma run_tracks cs s0 :
  valid s0 -> (forall g, ~ tracked s0 g) -> Forall (call_in_range (frames s0)) cs ->
  valid (perform_all cs s0) /\ frames (perform_all cs s0) = frames s0 /\
  forall g, tracked (perform_all cs s0) g <-> g ∈ loaded cs.
Proof.
  intros Hv He Hr. induction cs as [|c cs IH] using rev_ind.
  - cbn. split_and!; try done. intros g. unfold loaded. cbn. specialize (He g). set_solver.
  - apply list.Forall_app in Hr as [Hr Hc]. apply list.Forall_cons in Hc as [Hc _].
    destruct (IH Hr) as (Hv' & Ef & Ht). unfold perform_all, loaded in *.
    rewrite !foldl_app. cbn [foldl flip]. rewrite <- Ef in Hc.
    destruct (perform_tracks c _ _ Hv' Hc Ht) as (? & ? & ?). split_and!; try done. congruence.
Qed.

End Client.
