(* ===== verification/Clock.v ===== *)
(** The clock policies: [lib/replacer/clock_replacer.cc] (one reference bit per
    frame) and [lib/replacer/clock_sweep_replacer.cc] (a usage count up to 5).

    Both sweep a 64-bit hand over an array of one byte per frame, skip frames
    that are untracked or not evictable, lower warm frames and nominate the
    first cold one; the sweep is written once and instantiated.  The functions
    are the calls run alone: the weak exchanges of the clock sweep succeed. *)
From S2P Require Import Prelude Layout Replacer.

(** Construction in caller memory: the two arrays of either policy. *)
Definition ClockLayoutFor (capacity : Z) : Z * Z * Z :=
  let l := MkLayout 0 in
  let '(hand, l) := Add 8 1 kCacheLineSize l in
  let '(state, l) := Add 1 capacity kCacheLineSize l in
  (hand, state, size l).

Record clock := Clock { capacity : Z; hand : Z; marks : Z -> Z }.

Definition set_mark (s : clock) (f v : Z) : clock := Clock (capacity s) (hand s) (<[f := v]> (marks s)).

(** ** The sweep *)

Section Sweep.
Variables (kUntracked : Z) (cold : Z -> bool) (lower : Z -> Z).

(** The loop of [Victim]: [fuel] is the bound on [scanned]. *)
Fixpoint sweep (fuel : nat) (probe : Z -> bool) (s : clock) : option Z * clock :=
  match fuel with
  | O => (None, s)
  | S fuel =>
      let candidate := hand s mod capacity s in
      let s := Clock (capacity s) (u64 (hand s + 1)) (marks s) in
      let observed := marks s candidate in
      if (observed =? kUntracked) || negb (probe candidate) then sweep fuel probe s
      else if negb (cold observed) then sweep fuel probe (set_mark s candidate (lower observed))
      else (Some candidate, s)
  end.

(** The marks in use, and how many times one can be lowered before it is cold. *)
Variables (levels : Z -> Prop) (rank : Z -> Z).
Hypothesis lower_rank : forall m, levels m -> m <> kUntracked -> cold m = false ->
  rank (lower m) = rank m - 1 /\ lower m <> kUntracked /\ levels (lower m).
Hypothesis rank_nonneg : forall m, levels m -> m <> kUntracked -> 0 <= rank m.

Definition clock_ok (s : clock) : Prop :=
  0 <= capacity s < kInvalidFrameId /\ 0 <= hand s < u64_mod /\
  forall f, 0 <= f < capacity s -> levels (marks s f).

(** Storing a mark. *)
Lemma set_mark_ok s f v : clock_ok s -> levels v -> clock_ok (set_mark s f v).
Proof.
  intros (? & ? & Hm) Hv. split; [done|]. split; [done|]. intros g Hg. cbn [set_mark marks].
  destruct (decide (g = f)) as [->|Hne]; [by rewrite fn_lookup_insert|].
  rewrite fn_lookup_insert_ne by done. by apply Hm.
Qed.

Definition marked (s : clock) (f : Z) : Prop := 0 <= f < capacity s /\ marks s f <> kUntracked.

(** How often a hand at [h] passes frame [f] of [n] in [r] positions. *)
Definition passes (n f h r : Z) : Z := (h + r - 1 - f) / n - (h - 1 - f) / n.

Lemma pass_step n f h :
  0 <= f < n -> (h - f) / n - (h - 1 - f) / n = if h mod n =? f then 1 else 0.
Proof.
  intros Hf. pose proof (Z.div_mod h n ltac:(lia)) as Eh. pose proof (Z.mod_pos_bound h n ltac:(lia)).
  set (q := h / n) in *. set (r := h mod n) in *.
  replace (h - f) with (r - f + q * n) by lia. replace (h - 1 - f) with (r - 1 - f + q * n) by lia.
  rewrite !Z.div_add by lia. destruct (Z.eqb_spec r f) as [->|Hne].
  - replace (f - f) with 0 by lia. replace (f - 1 - f) with (n - 1 + (-1) * n) by lia.
    rewrite Z.div_add, Z.div_0_l, Z.div_small by lia. lia.
  - destruct (decide (r < f)).
    + replace (r - f) with (n + r - f + (-1) * n) by lia.
      replace (r - 1 - f) with (n + r - 1 - f + (-1) * n) by lia.
      rewrite !Z.div_add, !Z.div_small by lia. lia.
    + rewrite !Z.div_small by lia. lia.
Qed.

Lemma passes_succ n f h r :
  0 <= f < n -> passes n f h (r + 1) = (if h mod n =? f then 1 else 0) + passes n f (h + 1) r.
Proof.
  intros Hf. rewrite <- (pass_step n f h Hf). unfold passes.
  replace (h + 1 + r - 1 - f) with (h + (r + 1) - 1 - f) by lia.
  replace (h + 1 - 1 - f) with (h - f) by lia. lia.
Qed.

Lemma passes_round n f h k : 0 < n -> passes n f h (k * n) = k.
Proof.
  intros Hn. unfold passes. replace (h + k * n - 1 - f) with (h - 1 - f + k * n) by lia.
  rewrite Z.div_add by lia. lia.
Qed.

(** What a sweep leaves and returns. *)
Lemma sweep_spec fuel probe s :
  0 < capacity s -> clock_ok s ->
  let '(r, s') := sweep fuel probe s in
  capacity s' = capacity s /\ clock_ok s' /\ (forall f, marked s' f <-> marked s f) /\
  match r with
  | Some f => marked s f /\ probe f = true
  | None =>
      hand s + Z.of_nat fuel <= u64_mod ->
      forall f, marked s f -> probe f = true ->
                passes (capacity s) f (hand s) (Z.of_nat fuel) <= rank (marks s f)
  end.
Proof.
  revert s. induction fuel as [|fuel IH]; intros s Hcap Hok; pose proof Hok as (_ & Hh & Hlv); cbn [sweep].
  { split_and!; try done. intros _ f [Hf Hm] _. unfold passes. rewrite Z.add_0_r, Z.sub_diag.
    apply rank_nonneg; auto. }
  pose proof (u64_range (hand s + 1)) as Hu. pose proof (Z.mod_pos_bound (hand s) (capacity s) Hcap) as Hc.
  set (c := hand s mod capacity s) in *. cbn [marks].
  assert (clock_ok (Clock (capacity s) (u64 (hand s + 1)) (marks s))) as Hok'
    by (destruct Hok as (? & _ & ?); split; [done|]; by split).
  rewrite Nat2Z.inj_succ. unfold Z.succ.
  assert (hand s + (Z.of_nat fuel + 1) <= u64_mod ->
          hand s + 1 = u64_mod /\ fuel = O \/ u64 (hand s + 1) = hand s + 1) as Hwrap.
  { intros Hb. destruct (decide (hand s + 1 = u64_mod)); [left; split; [done|lia]|right].
    apply u64_small. unfold is_u64. lia. }
  destruct ((marks s c =? kUntracked) || negb (probe c)) eqn:Eskip.
  - specialize (IH (Clock (capacity s) (u64 (hand s + 1)) (marks s)) Hcap Hok').
    destruct (sweep fuel probe _) as [r s']. cbn [capacity hand marks] in IH.
    destruct IH as (? & ? & Hm & Hr). split_and!; try done.
    destruct r as [f|]; [done|]. intros Hb f Hf Hp.
    rewrite passes_succ by apply Hf. fold c. destruct (Z.eqb_spec c f) as [<-|Hne].
    { exfalso. apply orb_true_iff in Eskip as [E|E].
      - apply Z.eqb_eq in E. by destruct Hf.
      - by rewrite Hp in E. }
    destruct (Hwrap Hb) as [[? ->]|Ew].
    + unfold passes. replace (hand s + 1 + Z.of_nat 0 - 1 - f) with (hand s + 1 - 1 - f) by lia.
      rewrite Z.sub_diag. destruct Hf. apply rank_nonneg; auto.
    + rewrite Ew in Hr. rewrite Z.add_0_l. apply Hr; [lia|done|done].
  - apply orb_false_iff in Eskip as [E1 E2]. apply Z.eqb_neq in E1. apply negb_false_iff in E2.
    destruct (cold (marks s c)) eqn:Ecold; cbn [negb].
    { split_and!; done. }
    destruct (lower_rank _ (Hlv c Hc) E1 Ecold) as (Er & Hl & Hlow).
    specialize (IH (set_mark (Clock (capacity s) (u64 (hand s + 1)) (marks s)) c (lower (marks s c))) Hcap
      (set_mark_ok _ _ _ Hok' Hlow)).
    destruct (sweep fuel probe _) as [r s']. cbn [set_mark capacity hand marks] in IH.
    destruct IH as (? & ? & Hm & Hr).
    assert (forall f, marked (set_mark (Clock (capacity s) (u64 (hand s + 1)) (marks s)) c (lower (marks s c))) f
                      <-> marked s f) as Hmk.
    { intros f. unfold marked, set_mark. cbn [capacity marks].
      destruct (decide (f = c)) as [->|Hne]; [rewrite fn_lookup_insert|by rewrite fn_lookup_insert_ne].
      split; intros [? ?]; done. }
    split_and!; try done.
    { intros f. by rewrite Hm, Hmk. }
    destruct r as [f|]; [destruct Hr as [Hr1 Hr2]; split; [apply Hmk; exact Hr1|exact Hr2]|].
    intros Hb f Hf Hp. rewrite passes_succ by apply Hf. fold c.
    assert (passes (capacity s) f (hand s + 1) (Z.of_nat fuel) <=
            rank ((<[c:=lower (marks s c)]> (marks s)) f)) as Hle.
    { destruct (Hwrap Hb) as [[? ->]|Ew].
      - unfold passes. replace (hand s + 1 + Z.of_nat 0 - 1 - f) with (hand s + 1 - 1 - f) by lia.
        rewrite Z.sub_diag. apply Hmk in Hf as [Hf Hu']. apply rank_nonneg; [|done].
        by apply (set_mark_ok _ c _ Hok' Hlow).
      - rewrite Ew in Hr. apply Hr; [lia|apply Hmk; exact Hf|done]. }
    destruct (Z.eqb_spec c f) as [<-|Hne].
    + rewrite fn_lookup_insert in Hle. lia.
    + rewrite fn_lookup_insert_ne in Hle by done. lia.
Qed.

End Sweep.

(** ** Clock *)

Module ClockReplacer.

Definition kUntracked : Z := 0.
Definition kClear : Z := 1.
Definition kReferenced : Z := 2.

Definition Make (n : Z) : clock := Clock n 0 (fun _ => kUntracked).

Definition RecordAccess (f : Z) (s : clock) : clock :=
  if capacity s <=? f then s
  else if marks s f =? kClear then set_mark s f kReferenced else s.

Definition RecordLoad (f : Z) (s : clock) : clock :=
  if capacity s <=? f then s else set_mark s f kReferenced.

(** [observed == kReferenced] clears the bit; anything else tracked is taken. *)
Definition Victim (probe : Z -> bool) (s : clock) : option Z * clock :=
  if capacity s =? 0 then (None, s)
  else sweep kUntracked (fun m => negb (m =? kReferenced)) (fun _ => kClear)
         (Z.to_nat (2 * capacity s)) probe s.

Definition Remove (f : Z) (s : clock) : clock :=
  if capacity s <=? f then s else set_mark s f kUntracked.

End ClockReplacer.

(** ** Clock sweep *)

Module ClockSweepReplacer.

Definition kUntracked : Z := 0xFF.
Definition kMaxUsageCount : Z := 5.

Definition Make (n : Z) : clock := Clock n 0 (fun _ => kUntracked).

Definition RecordAccess (f : Z) (s : clock) : clock :=
  if capacity s <=? f then s
  else if kMaxUsageCount <=? marks s f then s
  else set_mark s f (marks s f + 1).

Definition RecordLoad (f : Z) (s : clock) : clock :=
  if capacity s <=? f then s else set_mark s f 1.

Definition Victim (probe : Z -> bool) (s : clock) : option Z * clock :=
  if capacity s =? 0 then (None, s)
  else sweep kUntracked (fun m => negb (0 <? m)) (fun m => m - 1)
         (Z.to_nat ((kMaxUsageCount + 1) * capacity s)) probe s.

Definition Remove (f : Z) (s : clock) : clock :=
  if capacity s <=? f then s else set_mark s f kUntracked.

End ClockSweepReplacer.

(** ** The contract *)

(** A clock type with its own marks, so that each policy has its own instance. *)
Record clock_state := ClockState { clock_of : clock }.
Record sweep_state := SweepState { sweep_of : clock }.

#[export] Instance clock_replacer : Replacer clock_state := {
  RecordAccess _ f s := ClockState (ClockReplacer.RecordAccess f (clock_of s));
  RecordLoad _ f s := ClockState (ClockReplacer.RecordLoad f (clock_of s));
  Victim probe s := let '(r, c) := ClockReplacer.Victim probe (clock_of s) in (r, ClockState c);
  Remove _ f s := ClockState (ClockReplacer.Remove f (clock_of s))
}.

#[export] Instance sweep_replacer : Replacer sweep_state := {
  RecordAccess _ f s := SweepState (ClockSweepReplacer.RecordAccess f (sweep_of s));
  RecordLoad _ f s := SweepState (ClockSweepReplacer.RecordLoad f (sweep_of s));
  Victim probe s := let '(r, c) := ClockSweepReplacer.Victim probe (sweep_of s) in (r, SweepState c);
  Remove _ f s := SweepState (ClockSweepReplacer.Remove f (sweep_of s))
}.

Definition clock_levels (m : Z) : Prop := m = 0 \/ m = 1 \/ m = 2.
Definition sweep_levels (m : Z) : Prop := m = 0xFF \/ 0 <= m <= 5.

Lemma set_mark_marked u s f v g :
  0 <= f < capacity s ->
  marked u (set_mark s f v) g <-> if decide (g = f) then v <> u else marked u s g.
Proof.
  intros Hf. unfold marked, set_mark. cbn [capacity marks]. destruct (decide (g = f)) as [->|Hne].
  - rewrite fn_lookup_insert. tauto.
  - by rewrite fn_lookup_insert_ne.
Qed.

(** The bound on the scan is enough rounds for the warmest mark. *)
Lemma sweep_complete u cold lower rank (levels : Z -> Prop) rounds probe s :
  (forall m, levels m -> m <> u -> cold m = false ->
     rank (lower m) = rank m - 1 /\ lower m <> u /\ levels (lower m)) ->
  (forall m, levels m -> m <> u -> 0 <= rank m < rounds) ->
  0 < rounds -> 0 < capacity s -> clock_ok levels s ->
  let '(r, s') := sweep u cold lower (Z.to_nat (rounds * capacity s)) probe s in
  clock_ok levels s' /\ capacity s' = capacity s /\ (forall f, marked u s' f <-> marked u s f) /\
  match r with
  | Some f => marked u s f /\ probe f = true
  | None => hand s + rounds * capacity s <= u64_mod -> forall f, marked u s f -> probe f = false
  end.
Proof.
  intros Hlow Hlv Hr Hcap Hok.
  pose proof (sweep_spec u cold lower levels rank Hlow (fun m H1 H2 => proj1 (Hlv m H1 H2))
                (Z.to_nat (rounds * capacity s)) probe s Hcap Hok) as Hs.
  destruct (sweep _ _ _ _ _ _) as [r s']. destruct Hs as (Ec & Hok' & Hmk & Hres). split_and!; try done.
  destruct r as [f|]; [done|]. intros Hb f Hf. destruct (probe f) eqn:Ep; [|done]. exfalso.
  rewrite Z2Nat.id in Hres by lia. specialize (Hres Hb f Hf Ep).
  rewrite passes_round in Hres by done. destruct Hf as [Hf Hu].
  destruct Hok as (_ & _ & Hm). pose proof (Hlv (marks s f) (Hm f Hf) Hu). lia.
Qed.

#[export] Program Instance clock_laws : ReplacerLaws clock_state := {
  valid s := clock_ok clock_levels (clock_of s);
  frames s := capacity (clock_of s);
  tracked s := marked ClockReplacer.kUntracked (clock_of s);
  steady s := hand (clock_of s) + 2 * capacity (clock_of s) <= u64_mod
}.
Next Obligation.
  intros th f [s] Hok Hf. cbn in *. unfold ClockReplacer.RecordAccess.
  destruct (Z.leb_spec (capacity s) f); [done|]. destruct (Z.eqb_spec (marks s f) ClockReplacer.kClear) as [E|]; [|done].
  split_and!; [by apply set_mark_ok; [|unfold clock_levels, ClockReplacer.kReferenced; lia]|done|].
  intros g. rewrite set_mark_marked by lia. destruct (decide (g = f)) as [->|Hne]; [|done].
  unfold marked. rewrite E. unfold ClockReplacer.kReferenced, ClockReplacer.kClear, ClockReplacer.kUntracked. lia.
Qed.
Next Obligation.
  intros th f [s] Hok Hf. cbn in *. unfold ClockReplacer.RecordLoad.
  destruct (Z.leb_spec (capacity s) f); [lia|].
  split_and!; [by apply set_mark_ok; [|unfold clock_levels, ClockReplacer.kReferenced; lia]|done|].
  intros g. rewrite set_mark_marked by lia. destruct (decide (g = f)) as [->|Hne]; [|tauto].
  split; [auto|done].
Qed.
Next Obligation.
  intros th f [s] Hok Hf. cbn in *. unfold ClockReplacer.Remove.
  destruct (Z.leb_spec (capacity s) f); [lia|].
  split_and!; [by apply set_mark_ok; [|unfold clock_levels, ClockReplacer.kUntracked; lia]|done|].
  intros g. rewrite set_mark_marked by lia. destruct (decide (g = f)) as [->|Hne]; tauto.
Qed.
Next Obligation.
  intros probe [s] Hok. cbn [Victim clock_replacer clock_of] in *. unfold ClockReplacer.Victim.
  destruct (Z.eqb_spec (capacity s) 0) as [E|].
  { cbn. split_and!; try done. intros _ f [Hf _]. lia. }
  pose proof (sweep_complete ClockReplacer.kUntracked (fun m => negb (m =? ClockReplacer.kReferenced))
    (fun _ => ClockReplacer.kClear) (fun m => m - 1) clock_levels 2 probe s) as H.
  destruct (sweep _ _ _ _ _ _) as [r s']. cbn [clock_of].
  apply H; clear H; try lia; try done; unfold clock_levels, ClockReplacer.kReferenced,
    ClockReplacer.kClear, ClockReplacer.kUntracked in *.
  - intros m Hm _ Hc. apply negb_false_iff, Z.eqb_eq in Hc. lia.
  - intros m Hm Hu. lia.
  - destruct Hok as (? & _). lia.
Qed.
Next Obligation. intros [s] f _ [Hf _]. done. Qed.

#[export] Program Instance sweep_laws : ReplacerLaws sweep_state := {
  valid s := clock_ok sweep_levels (sweep_of s);
  frames s := capacity (sweep_of s);
  tracked s := marked ClockSweepReplacer.kUntracked (sweep_of s);
  steady s := hand (sweep_of s) + 6 * capacity (sweep_of s) <= u64_mod
}.
Next Obligation.
  intros th f [s] Hok Hf. cbn in *. unfold ClockSweepReplacer.RecordAccess.
  destruct (Z.leb_spec (capacity s) f); [done|].
  destruct (Z.leb_spec ClockSweepReplacer.kMaxUsageCount (marks s f)) as [|Hlt]; [done|].
  assert (sweep_levels (marks s f)) as Hl by (by apply Hok).
  unfold ClockSweepReplacer.kMaxUsageCount, sweep_levels in *.
  split_and!; [by apply set_mark_ok; [|unfold sweep_levels; lia]|done|].
  intros g. rewrite set_mark_marked by lia. destruct (decide (g = f)) as [->|Hne]; [|done].
  unfold marked, ClockSweepReplacer.kUntracked. lia.
Qed.
Next Obligation.
  intros th f [s] Hok Hf. cbn in *. unfold ClockSweepReplacer.RecordLoad.
  destruct (Z.leb_spec (capacity s) f); [lia|].
  split_and!; [by apply set_mark_ok; [|unfold sweep_levels; lia]|done|].
  intros g. rewrite set_mark_marked by lia. destruct (decide (g = f)) as [->|Hne]; [|tauto].
  split; [auto|done].
Qed.
Next Obligation.
  intros th f [s] Hok Hf. cbn in *. unfold ClockSweepReplacer.Remove.
  destruct (Z.leb_spec (capacity s) f); [lia|].
  split_and!; [by apply set_mark_ok; [|unfold sweep_levels, ClockSweepReplacer.kUntracked; lia]|done|].
  intros g. rewrite set_mark_marked by lia. destruct (decide (g = f)) as [->|Hne]; tauto.
Qed.
Next Obligation.
  intros probe [s] Hok. cbn [Victim sweep_replacer sweep_of] in *. unfold ClockSweepReplacer.Victim.
  destruct (Z.eqb_spec (capacity s) 0) as [E|].
  { cbn. split_and!; try done. intros _ f [Hf _]. lia. }
  pose proof (sweep_complete ClockSweepReplacer.kUntracked (fun m => negb (0 <? m))
    (fun m => m - 1) id sweep_levels 6 probe s) as H.
  change (ClockSweepReplacer.kMaxUsageCount + 1) with 6.
  destruct (sweep _ _ _ _ _ _) as [r s']. cbn [sweep_of].
  apply H; clear H; try lia; try done; unfold sweep_levels, ClockSweepReplacer.kUntracked, id in *.
  - intros m Hm Hu Hc. apply negb_false_iff, Z.ltb_lt in Hc. lia.
  - intros m Hm Hu. lia.
  - destruct Hok as (? & _). lia.
Qed.
Next Obligation. intros [s] f _ [Hf _]. done. Qed.

(** ** What the sweeps promise *)

(** The clock sweep finds a victim whenever there is one: over any valid
    state whose hand does not wrap during the call, [Victim] returns a tracked,
    evictable frame if one exists and nothing otherwise, within
    [(kMaxUsageCount + 1) * capacity] positions; the frames tracked do not change. *)
Lemma clock_sweep_victim probe s :
  clock_ok sweep_levels s -> hand s + 6 * capacity s <= u64_mod ->
  let '(r, s') := ClockSweepReplacer.Victim probe s in
  clock_ok sweep_levels s' /\
  (forall f, marked ClockSweepReplacer.kUntracked s' f <-> marked ClockSweepReplacer.kUntracked s f) /\
  match r with
  | Some f => marked ClockSweepReplacer.kUntracked s f /\ probe f = true
  | None => forall f, marked ClockSweepReplacer.kUntracked s f -> probe f = false
  end.
Proof.
  intros Hok Hst. pose proof (victim_law probe (SweepState s) Hok) as H. cbn in H.
  destruct (ClockSweepReplacer.Victim probe s) as [r s'].
  destruct H as (? & _ & ? & Hr). split_and!; try done. destruct r; [done|]. by apply Hr.
Qed.

(** Three loaded frames, one of them accessed until it saturates. *)
Definition sweep_example : clock :=
  let s := ClockSweepReplacer.Make 3 in
  let s := foldl (fun s f => ClockSweepReplacer.RecordLoad f s) s [0; 1; 2] in
  foldl (fun s f => ClockSweepReplacer.RecordAccess f s) s [1; 1; 1; 1; 1; 1; 2].

Lemma clock_sweep_victim_witness :
  (ClockSweepReplacer.Victim (fun f => negb (f =? 0)) sweep_example).1 = Some 2 /\
  match (ClockSweepReplacer.Victim (fun f => negb (f =? 0)) sweep_example).1 with
  | Some f => marked ClockSweepReplacer.kUntracked sweep_example f
  | None => True
  end.
Proof.
  split; [vm_compute; reflexivity|].
  pose proof (clock_sweep_victim (fun f => negb (f =? 0)) sweep_example) as H.
  destruct (ClockSweepReplacer.Victim _ _) as [[f|] s']; [|done]. cbn [fst]. apply H.
  - split; [split; vm_compute; congruence|]. split; [split; vm_compute; congruence|].
    intros g Hg. change (capacity sweep_example) with 3 in Hg.
    assert (g = 0 \/ g = 1 \/ g = 2) as [->|[->| ->]] by lia; right; vm_compute; split; congruence.
  - vm_compute. congruence.
Defined.
