(* ===== verification/FrameList.v ===== *)
(** The intrusive doubly linked list of frames, [lib/replacer/frame_list.h]: the
    recency lists of the LRU and 2Q policies.

    The links are two arrays indexed by frame; [is_list s l] says that they
    represent the frames [l], front first.  Every operation is shown to be the
    operation on [l], and the walk from the back visits [l] in reverse. *)
From S2P Require Import Prelude Layout.

Definition kNoFrame : Z := kInvalidFrameId.

Record frame_list := FrameList {
  l_front : Z;
  l_back : Z;
  front_to_back : Z -> Z;
  back_to_front : Z -> Z;
  l_linked : Z -> bool
}.

(** [Place] with [initialize]. *)
Definition EmptyList : frame_list :=
  FrameList kNoFrame kNoFrame (fun _ => kNoFrame) (fun _ => kNoFrame) (fun _ => false).

Definition Contains (f : Z) (s : frame_list) : bool := l_linked s f.

Definition PushFront (f : Z) (s : frame_list) : frame_list :=
  let ftb := <[f := l_front s]> (front_to_back s) in
  let btf := <[f := kNoFrame]> (back_to_front s) in
  let btf := if negb (l_front s =? kNoFrame) then <[l_front s := f]> btf else btf in
  FrameList f (if l_back s =? kNoFrame then f else l_back s) ftb btf (<[f := true]> (l_linked s)).

Definition Unlink (f : Z) (s : frame_list) : frame_list :=
  let toward_back := front_to_back s f in
  let toward_front := back_to_front s f in
  let '(front, ftb) :=
    if negb (toward_front =? kNoFrame)
    then (l_front s, <[toward_front := toward_back]> (front_to_back s))
    else (toward_back, front_to_back s) in
  let '(back, btf) :=
    if negb (toward_back =? kNoFrame)
    then (l_back s, <[toward_back := toward_front]> (back_to_front s))
    else (toward_front, back_to_front s) in
  FrameList front back ftb btf (<[f := false]> (l_linked s)).

Definition MoveToFront (f : Z) (s : frame_list) : frame_list := PushFront f (Unlink f s).

(** [for (c = back(); c != kNone; c = TowardFront(c)) if (probe(c)) return c]:
    outer [None] when the fuel runs out. *)
Fixpoint scan (fuel : nat) (probe : Z -> bool) (c : Z) (btf : Z -> Z) : option (option Z) :=
  match fuel with
  | O => None
  | S fuel =>
      if c =? kNoFrame then Some None
      else if negb (probe c) then scan fuel probe (btf c) btf
      else Some (Some c)
  end.

(** A list over [capacity] frames has at most [capacity] entries. *)
Definition PickFrom (capacity : Z) (probe : Z -> bool) (s : frame_list) : option Z :=
  default None (scan (S (Z.to_nat capacity)) probe (l_back s) (back_to_front s)).

(** ** Representation *)

(** Consecutive entries from [prev] (excluded) to [nxt] (excluded). *)
Fixpoint seg (ftb btf : Z -> Z) (prev : Z) (l : list Z) (nxt : Z) : Prop :=
  match l with
  | [] => True
  | x :: l => btf x = prev /\ ftb x = hd nxt l /\ seg ftb btf x l nxt
  end.

Record is_list (s : frame_list) (l : list Z) : Prop := {
  il_front : l_front s = hd kNoFrame l;
  il_back : l_back s = List.last l kNoFrame;
  il_seg : seg (front_to_back s) (back_to_front s) kNoFrame l kNoFrame;
  il_nodup : NoDup l;
  il_range f : f ∈ l -> 0 <= f < kNoFrame;
  il_linked f : l_linked s f = true <-> f ∈ l
}.

Lemma seg_app ftb btf p l1 l2 n :
  seg ftb btf p (l1 ++ l2) n <-> seg ftb btf p l1 (hd n l2) /\ seg ftb btf (List.last l1 p) l2 n.
Proof.
  revert p. induction l1 as [|x l1 IH]; intros p; cbn [app seg]; [simpl; tauto|].
  rewrite IH. assert (hd n (l1 ++ l2) = hd (hd n l2) l1) as -> by (by destruct l1).
  assert (List.last (x :: l1) p = List.last l1 x) as -> by (revert x; clear; induction l1 as [|y l IH]; intros x; [done|]; cbn in *; destruct l; auto).
  tauto.
Qed.

(** Only the entries' own links matter. *)
Lemma seg_ext ftb btf ftb' btf' p l n :
  (forall x, x ∈ l -> ftb' x = ftb x /\ btf' x = btf x) -> seg ftb btf p l n -> seg ftb' btf' p l n.
Proof.
  revert p. induction l as [|x l IH]; intros p He; [done|]. intros (E1 & E2 & Hs). cbn [seg].
  destruct (He x ltac:(set_solver)) as [-> ->]. split_and!; try done.
  apply IH; [|done]. intros y Hy. apply He. set_solver.
Qed.

(** Redirecting the last entry's forward link. *)
Lemma seg_next ftb btf p l x n n' :
  NoDup (l ++ [x]) -> seg ftb btf p (l ++ [x]) n -> seg (<[x := n']> ftb) btf p (l ++ [x]) n'.
Proof.
  intros Hnd. rewrite !seg_app. cbn [hd seg]. intros (Hs & E1 & E2 & _). split_and!; try done.
  - apply (seg_ext ftb btf); [|done]. intros y Hy. split; [|done].
    rewrite fn_lookup_insert_ne; [done|]. intros ->. apply list.NoDup_app in Hnd. set_solver.
  - by rewrite fn_lookup_insert.
Qed.

(** Redirecting the first entry's backward link. *)
Lemma seg_prev ftb btf p p' x l n :
  NoDup (x :: l) -> seg ftb btf p (x :: l) n -> seg ftb (<[x := p']> btf) p' (x :: l) n.
Proof.
  intros Hnd (E1 & E2 & Hs). apply list.NoDup_cons in Hnd as [Hx _].
  cbn [seg]. rewrite fn_lookup_insert. split_and!; try done.
  apply (seg_ext ftb btf); [|done]. intros y Hy. split; [done|].
  rewrite fn_lookup_insert_ne; [done|]. by intros ->.
Qed.

Lemma empty_is_list : is_list EmptyList [].
Proof.
  split; try done; [constructor|intros f Hf|intros f; split; intros Hf]; try done;
    by apply not_elem_of_nil in Hf.
Qed.

Lemma hd_range s l : is_list s l -> hd kNoFrame l = kNoFrame -> l = [].
Proof.
  intros Hl. destruct l as [|x l]; [done|]. simpl. intros ->.
  destruct (il_range s _ Hl kNoFrame); [set_solver|]. lia.
Qed.

Lemma last_range s l x : is_list s (l ++ [x]) -> List.last (l ++ [x]) kNoFrame = x /\ x <> kNoFrame.
Proof.
  intros Hl. rewrite last_last. split; [done|]. intros ->.
  destruct (il_range s _ Hl kNoFrame); [set_solver|]. lia.
Qed.

Lemma last_app_cons {A} (l : list A) x l' d : List.last (l ++ x :: l') d = List.last (x :: l') d.
Proof. induction l as [|y l IH]; [done|]. cbn [app]. rewrite <- IH. by destruct l. Qed.

(** *** PushFront *)
Lemma push_front_is_list s l f :
  is_list s l -> 0 <= f < kNoFrame -> f ∉ l -> is_list (PushFront f s) (f :: l).
Proof.
  intros Hl Hf Hn. pose proof Hl as [Hfr Hbk Hseg Hnd Hrg Hlk].
  split; cbn [PushFront l_front l_back front_to_back back_to_front l_linked hd].
  - done.
  - rewrite Hbk. destruct l as [|x l] using rev_ind.
    + done.
    + clear IHl. destruct (last_range s l x Hl) as [-> Hx]. destruct (Z.eqb_spec x kNoFrame); [done|].
      change (f :: l ++ [x]) with ((f :: l) ++ [x]). by rewrite last_last.
  - rewrite Hfr. destruct l as [|x l].
    + cbn [hd seg]. rewrite Z.eqb_refl. cbn [negb]. by rewrite !fn_lookup_insert.
    + cbn [hd]. destruct (Z.eqb_spec x kNoFrame) as [->|Hx].
      { destruct (Hrg kNoFrame); [set_solver|]. lia. }
      cbn [negb]. assert (f <> x) by set_solver.
      split_and!.
      * by rewrite fn_lookup_insert_ne, fn_lookup_insert by done.
      * by rewrite fn_lookup_insert.
      * apply (seg_ext (front_to_back s) (<[x := f]> (back_to_front s))).
        -- intros y Hy. assert (y <> f) by (intros ->; done). split.
           ++ by rewrite fn_lookup_insert_ne.
           ++ destruct (decide (y = x)) as [->|]; [by rewrite !fn_lookup_insert|].
              by rewrite !fn_lookup_insert_ne.
        -- by eapply seg_prev.
  - by constructor.
  - intros g [->|Hg]%elem_of_cons; auto.
  - intros g. rewrite elem_of_cons. destruct (decide (g = f)) as [->|Hne].
    + rewrite fn_lookup_insert. naive_solver.
    + rewrite fn_lookup_insert_ne, Hlk by done. naive_solver.
Qed.

(** *** Unlink *)

(** The neighbours of an entry. *)
Lemma neighbours s l1 f l2 :
  is_list s (l1 ++ f :: l2) ->
  front_to_back s f = hd kNoFrame l2 /\ back_to_front s f = List.last l1 kNoFrame.
Proof. intros Hl. pose proof (il_seg s _ Hl) as Hs. apply seg_app in Hs as [_ (E1 & E2 & _)]. done. Qed.

Lemma seg_bypass s l1 f l2 :
  is_list s (l1 ++ f :: l2) ->
  let tf := List.last l1 kNoFrame in
  let tb := hd kNoFrame l2 in
  seg (if negb (tf =? kNoFrame) then <[tf := tb]> (front_to_back s) else front_to_back s)
    (if negb (tb =? kNoFrame) then <[tb := tf]> (back_to_front s) else back_to_front s)
    kNoFrame (l1 ++ l2) kNoFrame.
Proof.
  intros Hl tf tb. pose proof Hl as [_ _ Hseg Hnd Hrg _].
  apply seg_app in Hseg as [Hs1 (_ & _ & Hs2)]. cbn [hd] in Hs1.
  apply list.NoDup_app in Hnd as (Hn1 & Hd & Hn2). apply list.NoDup_cons in Hn2 as [Hf2 Hn2].
  assert (forall y, y ∈ l1 -> y <> tb) as Htb.
  { intros y Hy ->. destruct l2 as [|z l2]; cbn in *.
    - destruct (Hrg kNoFrame); [set_solver|]. lia.
    - apply (Hd z Hy). set_solver. }
  assert (forall y, y ∈ l2 -> y <> tf) as Htf.
  { intros y Hy ->. destruct l1 as [|z l1 _] using rev_ind; subst tf.
    - cbn in Hy. destruct (Hrg kNoFrame); [set_solver|]. lia.
    - rewrite last_last in Hy. apply (Hd z); set_solver. }
  apply seg_app. split.
  - destruct l1 as [|z l1 _] using rev_ind; [done|].
    assert (tf = z) as Etf by (subst tf; by rewrite last_last).
    assert (z <> kNoFrame) as Hz by (intros ->; destruct (Hrg kNoFrame); [set_solver|lia]).
    rewrite Etf. destruct (Z.eqb_spec z kNoFrame); [done|]. cbn [negb].
    apply (seg_ext (<[z := tb]> (front_to_back s)) (back_to_front s)).
    + intros y Hy. split; [done|]. destruct (negb _); [|done]. rewrite fn_lookup_insert_ne; [done|].
      intros E. by apply (Htb y Hy).
    + by eapply seg_next.
  - destruct l2 as [|z l2]; [done|]. subst tb. cbn [hd].
    assert (z <> kNoFrame) as Hz by (intros ->; destruct (Hrg kNoFrame); [set_solver|lia]).
    destruct (Z.eqb_spec z kNoFrame); [done|]. cbn [negb].
    apply (seg_ext (front_to_back s) (<[z := tf]> (back_to_front s))).
    + intros y Hy. split; [|done]. destruct (negb _); [|done]. rewrite fn_lookup_insert_ne; [done|].
      intros E. by apply (Htf y Hy).
    + by eapply seg_prev.
Qed.

Lemma unlink_is_list s l f : is_list s l -> f ∈ l -> is_list (Unlink f s) (without f l).
Proof.
  intros Hl Hin. destruct (list_elem_of_split _ _ Hin) as (l1 & l2 & ->).
  destruct (neighbours s l1 f l2 Hl) as [Etb Etf]. pose proof (seg_bypass s l1 f l2 Hl) as Hseg.
  pose proof Hl as [Hfr Hbk _ Hnd Hrg Hlk].
  assert (f ∉ l1 /\ f ∉ l2 /\ NoDup (l1 ++ l2)) as (H1 & H2 & Hn).
  { apply list.NoDup_app in Hnd as (Hn1 & Hd & Hn2). apply list.NoDup_cons in Hn2 as [Hf2 Hn2].
    split_and!; [|done|apply list.NoDup_app; split_and!]; set_solver. }
  rewrite without_middle by done. cbv zeta in Hseg. rewrite <- Etb, <- Etf in Hseg.
  unfold Unlink. rewrite Etf, Etb in *.
  assert (forall x l, l1 = l ++ [x] -> x <> kNoFrame) as Hl1.
  { intros x l -> ->. destruct (Hrg kNoFrame); [set_solver|lia]. }
  assert (forall x l, l2 = x :: l -> x <> kNoFrame) as Hl2.
  { intros x l -> ->. destruct (Hrg kNoFrame); [set_solver|lia]. }
  destruct (negb (List.last l1 kNoFrame =? kNoFrame)) eqn:Ef;
    destruct (negb (hd kNoFrame l2 =? kNoFrame)) eqn:Eb;
    (split; cbn [l_front l_back front_to_back back_to_front l_linked]; [| |exact Hseg|exact Hn| |]).
  all: try (intros g Hg; apply Hrg; set_solver).
  all: try (intros g; destruct (decide (g = f)) as [->|Hne];
    [rewrite fn_lookup_insert; set_solver|rewrite fn_lookup_insert_ne, Hlk by done; set_solver]).
  all: rewrite ?negb_true_iff, ?negb_false_iff, ?Z.eqb_eq, ?Z.eqb_neq in *.
  all: destruct l1 as [|x l1 _] using rev_ind; rewrite ?last_last in *; try done.
  all: try (by destruct (Hl1 x l1 eq_refl)).
  all: destruct l2 as [|y l2]; cbn [hd] in *; try done; try (by destruct (Hl2 y l2 eq_refl)).
  all: rewrite ?app_nil_r, ?last_last, ?Hfr, ?Hbk.
  all: try (by destruct l1).
  all: by rewrite !last_app_cons.
Qed.

(** *** MoveToFront *)
Lemma move_to_front_is_list s l f :
  is_list s l -> f ∈ l -> is_list (MoveToFront f s) (f :: without f l).
Proof.
  intros Hl Hf. apply push_front_is_list.
  - by apply unlink_is_list.
  - by eapply il_range.
  - rewrite elem_of_without. naive_solver.
Qed.

(** *** Walking from the back *)
Lemma scan_spec ftb btf probe l n fuel :
  seg ftb btf kNoFrame l n -> (forall f, f ∈ l -> f <> kNoFrame) -> (length l < fuel)%nat ->
  scan fuel probe (List.last l kNoFrame) btf = Some (find probe (reverse l)).
Proof.
  revert fuel n. induction l as [|x l IH] using rev_ind; intros fuel n Hs Hr Hf.
  - destruct fuel; [simpl in Hf; lia|]. done.
  - rewrite last_last, reverse_snoc. rewrite length_app in Hf. cbn in Hf.
    destruct fuel as [|fuel]; [lia|]. cbn [scan find].
    destruct (Z.eqb_spec x kNoFrame) as [E|_]; [by destruct (Hr x); [set_solver|]|].
    apply seg_app in Hs as [Hs (E & _)]. destruct (probe x); [done|]. cbn [negb].
    rewrite E. eapply IH; [done|set_solver|lia].
Qed.

Lemma pick_from_spec capacity probe s l :
  is_list s l -> (forall f, f ∈ l -> 0 <= f < capacity) ->
  PickFrom capacity probe s = find probe (reverse l).
Proof.
  intros Hl Hc. unfold PickFrom. rewrite (il_back s l Hl).
  rewrite (scan_spec (front_to_back s) _ _ l kNoFrame); [done|by apply il_seg| |].
  - intros f Hf. pose proof (il_range s l Hl f Hf). lia.
  - pose proof (nodup_length l capacity (il_nodup s l Hl) Hc). lia.
Qed.

Lemma contains_spec s l f : is_list s l -> Contains f s = bool_decide (f ∈ l).
Proof.
  intros Hl. unfold Contains. pose proof (il_linked s l Hl f) as H.
  destruct (l_linked s f), (bool_decide_reflect (f ∈ l)); naive_solver.
Qed.
