(* ===== verification/Lru.v ===== *)
(** Policies with batched accesses: [lib/replacer/access_batcher.h],
    [lib/replacer/lru_replacer.cc], [lib/replacer/two_queue_replacer.cc].

    An access is buffered in the calling thread's slot and applied under the
    policy latch when 64 have accumulated, or when the thread loads or removes a
    frame, or when any thread asks for a victim.  The batching is written once
    over a policy (how an access, a load, a removal and a choice change it) and
    instantiated with LRU and 2Q.  The theorems: batching does not change what a
    thread's own history decides, and both policies keep the replacer contract. *)
From S2P Require Import Prelude Layout FrameList Replacer.

(** ** Access batches *)

Definition kBatchSize : Z := 64.

(** [slot_count_] for a number of hardware threads. *)
Definition slot_count_for (hardware : Z) : Z := bit_ceil (Z.max 4 (2 * Z.max 1 hardware)).

Record batcher := Batcher { slot_count : Z; slots : Z -> list Z }.

Definition NewBatcher (hardware : Z) : batcher := Batcher (slot_count_for hardware) (fun _ => []).

(** [SlotIndex] of the thread that took ticket [th]. *)
Definition SlotIndex (th : nat) (b : batcher) : Z := Z.land (Z.of_nat th) (slot_count b - 1).

Section Batching.
Context {P : Type}.
Variable apply : Z -> P -> P.

Definition apply_all (l : list Z) (p : P) : P := foldl (flip apply) p l.

Definition Record_ (th : nat) (f : Z) (bp : batcher * P) : batcher * P :=
  let '(b, p) := bp in
  let i := SlotIndex th b in
  let frames := slots b i ++ [f] in
  if Z.of_nat (length frames) <? kBatchSize
  then (Batcher (slot_count b) (<[i := frames]> (slots b)), p)
  else (Batcher (slot_count b) (<[i := []]> (slots b)), apply_all frames p).

Definition drain_slot (i : Z) (bp : batcher * P) : batcher * P :=
  let '(b, p) := bp in
  (Batcher (slot_count b) (<[i := []]> (slots b)), apply_all (slots b i) p).

Definition DrainCurrentThread (th : nat) (bp : batcher * P) : batcher * P :=
  drain_slot (SlotIndex th bp.1) bp.

Definition DrainAll (bp : batcher * P) : batcher * P :=
  foldl (flip drain_slot) bp (seqZ 0 (slot_count bp.1)).

(** The policy once the pending accesses of slot [i] are applied. *)
Definition settled (i : Z) (bp : batcher * P) : P := apply_all (slots bp.1 i) bp.2.

(** Only slot [i] has pending accesses. *)
Definition only_slot (i : Z) (b : batcher) : Prop :=
  0 <= i < slot_count b /\ forall j, j <> i -> slots b j = [].

Lemma apply_all_snoc l f p : apply_all (l ++ [f]) p = apply f (apply_all l p).
Proof. unfold apply_all. by rewrite foldl_app. Qed.

Lemma record_settled th f bp :
  let i := SlotIndex th bp.1 in
  settled i (Record_ th f bp) = apply f (settled i bp) /\
  slot_count (Record_ th f bp).1 = slot_count bp.1 /\
  (only_slot i bp.1 -> only_slot i (Record_ th f bp).1).
Proof.
  destruct bp as [b p]. cbn [fst]. unfold Record_, settled, only_slot. set (i := SlotIndex th b).
  destruct (_ <? _); cbn [fst snd slots slot_count]; rewrite fn_lookup_insert.
  - rewrite apply_all_snoc. split_and!; try done. intros [Hi Hj]. split; [done|]. intros j Hne.
    rewrite fn_lookup_insert_ne by done. auto.
  - rewrite apply_all_snoc. split_and!; try done. intros [Hi Hj]. split; [done|]. intros j Hne.
    rewrite fn_lookup_insert_ne by done. auto.
Qed.

Lemma drain_current_settled th bp :
  let i := SlotIndex th bp.1 in
  (DrainCurrentThread th bp).2 = settled i bp /\
  slots (DrainCurrentThread th bp).1 i = [] /\
  slot_count (DrainCurrentThread th bp).1 = slot_count bp.1 /\
  (only_slot i bp.1 -> only_slot i (DrainCurrentThread th bp).1).
Proof.
  destruct bp as [b p]. unfold DrainCurrentThread, drain_slot, settled, only_slot. cbn [fst snd slots slot_count].
  rewrite fn_lookup_insert. split_and!; try done. intros [Hi Hj]. split; [done|]. intros j Hne.
  rewrite fn_lookup_insert_ne by done. auto.
Qed.

Lemma drain_empty i l bp :
  i ∉ l -> (forall j, j <> i -> slots bp.1 j = []) ->
  (foldl (flip drain_slot) bp l).2 = bp.2 /\
  slots (foldl (flip drain_slot) bp l).1 i = slots bp.1 i /\
  (forall j, j <> i -> slots (foldl (flip drain_slot) bp l).1 j = []) /\
  slot_count (foldl (flip drain_slot) bp l).1 = slot_count bp.1.
Proof.
  revert bp. induction l as [|j l IH]; intros bp Hi Hs; [done|].
  apply not_elem_of_cons in Hi as [Hij Hi]. cbn [foldl flip].
  assert (slots bp.1 j = []) as Ej by auto.
  destruct (IH (drain_slot j bp)) as (E1 & E2 & E3 & E4); [done| |].
  - destruct bp as [b p]. cbn [drain_slot fst slots]. intros k Hk.
    destruct (decide (k = j)) as [->|]; [by rewrite fn_lookup_insert|].
    rewrite fn_lookup_insert_ne by done. auto.
  - destruct bp as [b p]. cbn [drain_slot fst snd slots slot_count] in *. rewrite !Ej in *.
    rewrite fn_lookup_insert_ne in E2 by congruence. by split_and!.
Qed.

(** With one thread pending, draining every slot applies exactly its accesses. *)
Lemma drain_all_settled i bp :
  only_slot i bp.1 ->
  (DrainAll bp).2 = settled i bp /\ (forall j, slots (DrainAll bp).1 j = []) /\
  slot_count (DrainAll bp).1 = slot_count bp.1.
Proof.
  intros [Hi Hs]. unfold DrainAll.
  assert (seqZ 0 (slot_count bp.1) = seqZ 0 i ++ i :: seqZ (i + 1) (slot_count bp.1 - i - 1)) as ->.
  { replace (slot_count bp.1) with (i + (slot_count bp.1 - i)) at 1 by lia.
    rewrite seqZ_app by lia. f_equal. rewrite (seqZ_cons (0 + i)) by lia. f_equal; f_equal; lia. }
  rewrite foldl_app. cbn [foldl flip].
  destruct (drain_empty i (seqZ 0 i) bp) as (E1 & E2 & E3 & E4); [rewrite elem_of_seqZ; lia|done|].
  set (bp1 := foldl (flip drain_slot) bp (seqZ 0 i)) in *.
  destruct (drain_empty i (seqZ (i + 1) (slot_count bp.1 - i - 1)) (drain_slot i bp1)) as (F1 & F2 & F3 & F4).
  - rewrite elem_of_seqZ. lia.
  - destruct bp1 as [b1 p1]. cbn [drain_slot fst slots] in *. intros j Hj.
    rewrite fn_lookup_insert_ne by done. auto.
  - rewrite F1, F4. split_and!.
    + destruct bp1 as [b1 p1]. cbn [drain_slot fst snd] in *. unfold settled. by rewrite E1, E2.
    + intros j. destruct (decide (j = i)) as [->|Hj]; [|auto]. rewrite F2. destruct bp1 as [b1 p1].
      cbn [drain_slot fst slots]. by rewrite fn_lookup_insert.
    + destruct bp1 as [b1 p1]. done.
Qed.

(** Any property of the policy that accesses keep survives every batch operation. *)
Section Keep.
Variable K : P -> Prop.
Hypothesis keep : forall f p, K p -> K (apply f p).

Lemma apply_all_keep l p : K p -> K (apply_all l p).
Proof. revert p. induction l as [|f l IH]; intros p Hp; [done|]. apply IH. by apply keep. Qed.

Lemma record_keep th f bp : K bp.2 -> K (Record_ th f bp).2.
Proof. destruct bp as [b p]. unfold Record_. destruct (_ <? _); [done|]. apply apply_all_keep. Qed.

Lemma drain_slot_keep i bp : K bp.2 -> K (drain_slot i bp).2.
Proof. destruct bp as [b p]. apply apply_all_keep. Qed.

Lemma drain_all_keep bp : K bp.2 -> K (DrainAll bp).2.
Proof.
  unfold DrainAll. generalize (seqZ 0 (slot_count bp.1)). intros l. revert bp.
  induction l as [|i l IH]; intros bp Hp; [done|]. cbn [foldl flip]. apply IH. by apply drain_slot_keep.
Qed.

End Keep.

End Batching.

(** ** Policies under a latch *)

Class Policy (P : Type) := {
  p_capacity : P -> Z;
  p_touch : Z -> P -> P;
  p_load : Z -> P -> P;
  p_remove : Z -> P -> P;
  p_pick : (Z -> bool) -> P -> option Z
}.

Section Batched.
Context {P : Type} `{Policy P}.

Definition BatchedAccess (th : nat) (f : Z) (bp : batcher * P) : batcher * P := Record_ p_touch th f bp.

Definition BatchedLoad (th : nat) (f : Z) (bp : batcher * P) : batcher * P :=
  if p_capacity bp.2 <=? f then bp
  else let '(b, p) := DrainCurrentThread p_touch th bp in (b, p_load f p).

Definition BatchedVictim (probe : Z -> bool) (bp : batcher * P) : option Z * (batcher * P) :=
  let bp := DrainAll p_touch bp in (p_pick probe bp.2, bp).

Definition BatchedRemove (th : nat) (f : Z) (bp : batcher * P) : batcher * P :=
  if p_capacity bp.2 <=? f then bp
  else let '(b, p) := DrainCurrentThread p_touch th bp in (b, p_remove f p).

(** The policy with every call applied at once. *)
Definition immediate (c : replacer_call) (p : P) : P :=
  match c with
  | CallAccess _ f => p_touch f p
  | CallLoad _ f => p_load f p
  | CallRemove _ f => p_remove f p
  | CallVictim _ => p
  end.

Definition batched (c : replacer_call) (bp : batcher * P) : batcher * P :=
  match c with
  | CallAccess th f => BatchedAccess th f bp
  | CallLoad th f => BatchedLoad th f bp
  | CallRemove th f => BatchedRemove th f bp
  | CallVictim probe => (BatchedVictim probe bp).2
  end.

Definition by_thread (th : nat) (c : replacer_call) : Prop :=
  match c with
  | CallAccess th' _ | CallLoad th' _ | CallRemove th' _ => th' = th
  | CallVictim _ => True
  end.

Hypothesis capacity_touch : forall f p, p_capacity (p_touch f p) = p_capacity p.
Hypothesis capacity_load : forall f p, p_capacity (p_load f p) = p_capacity p.
Hypothesis capacity_remove : forall f p, p_capacity (p_remove f p) = p_capacity p.

Lemma settled_capacity i (bp : batcher * P) : p_capacity (settled p_touch i bp) = p_capacity bp.2.
Proof.
  unfold settled. generalize (slots bp.1 i). intros l. generalize bp.2. induction l as [|f l IH]; [done|].
  intros p. unfold apply_all in *. cbn [foldl flip]. by rewrite IH, capacity_touch.
Qed.

(** One call of one thread: the batched policy, its pending accesses applied,
    does what the immediate policy does. *)
Lemma batched_settled th c (bp : batcher * P) n :
  by_thread th c -> call_in_range n c -> p_capacity bp.2 = n ->
  let i := SlotIndex th bp.1 in
  only_slot i bp.1 ->
  settled p_touch i (batched c bp) = immediate c (settled p_touch i bp) /\
  only_slot i (batched c bp).1 /\ slot_count (batched c bp).1 = slot_count bp.1 /\
  p_capacity (batched c bp).2 = n.
Proof.
  intros Hth Hr Hn i Ho. pose proof (settled_capacity i bp) as Hsc.
  destruct c as [th' f|th' f|th' f|probe]; cbn [by_thread batched immediate call_in_range] in *; subst th' || idtac.
  - destruct (record_settled p_touch th f bp) as (E1 & E2 & E3). split_and!; auto.
    unfold BatchedAccess. rewrite <- Hn.
    apply (record_keep p_touch (fun p => p_capacity p = p_capacity bp.2)); [|done].
    intros g p <-. apply capacity_touch.
  - unfold BatchedLoad. destruct (Z.leb_spec (p_capacity bp.2) f); [lia|].
    destruct (drain_current_settled p_touch th bp) as (E1 & E2 & E3 & E4). fold i in E1, E2, E4.
    destruct (DrainCurrentThread p_touch th bp) as [b p]. cbn [fst snd] in *.
    unfold settled at 1. cbn [fst snd]. rewrite E2. cbn. split_and!; auto; [by rewrite E1|].
    by rewrite capacity_load, E1, Hsc.
  - unfold BatchedRemove. destruct (Z.leb_spec (p_capacity bp.2) f); [lia|].
    destruct (drain_current_settled p_touch th bp) as (E1 & E2 & E3 & E4). fold i in E1, E2, E4.
    destruct (DrainCurrentThread p_touch th bp) as [b p]. cbn [fst snd] in *.
    unfold settled at 1. cbn [fst snd]. rewrite E2. cbn. split_and!; auto; [by rewrite E1|].
    by rewrite capacity_remove, E1, Hsc.
  - destruct (drain_all_settled p_touch i bp Ho) as (E1 & E2 & E3).
    unfold BatchedVictim. cbn [snd]. destruct Ho as [Hi _]. unfold settled at 1, only_slot. rewrite E2, E3.
    split_and!; auto; try lia. by rewrite E1, Hsc.
Qed.

Lemma batched_run th cs (bp : batcher * P) n :
  Forall (by_thread th) cs -> Forall (call_in_range n) cs -> p_capacity bp.2 = n ->
  let i := SlotIndex th bp.1 in
  only_slot i bp.1 ->
  settled p_touch i (foldl (flip batched) bp cs) = foldl (flip immediate) (settled p_touch i bp) cs /\
  only_slot i (foldl (flip batched) bp cs).1.
Proof.
  intros Hth. revert bp. induction Hth as [|c cs Hc Hth IH]; intros bp Hr Hn i Ho; [done|].
  apply list.Forall_cons in Hr as [Hrc Hr]. cbn [foldl flip].
  destruct (batched_settled th c bp n Hc Hrc Hn Ho) as (E1 & Ho' & E3 & En). fold i in E1, Ho'.
  assert (SlotIndex th (batched c bp).1 = i) as Ei by (unfold SlotIndex; by rewrite E3).
  specialize (IH (batched c bp) Hr En). cbv zeta in IH. rewrite Ei, E1 in IH. auto.
Qed.

End Batched.

#[export] Instance batched_replacer {P} `{Policy P} : Replacer (batcher * P) := {
  RecordAccess := BatchedAccess;
  RecordLoad := BatchedLoad;
  Victim := BatchedVictim;
  Remove := BatchedRemove
}.

(** What a policy promises for its batched form to keep the contract. *)
Class PolicyLaws (P : Type) `{Policy P} := {
  p_valid : P -> Prop;
  p_tracked : P -> Z -> Prop;
  p_touch_law f p : p_valid p ->
    p_valid (p_touch f p) /\ p_capacity (p_touch f p) = p_capacity p /\
    forall g, p_tracked (p_touch f p) g <-> p_tracked p g;
  p_load_law f p : p_valid p -> 0 <= f < p_capacity p ->
    p_valid (p_load f p) /\ p_capacity (p_load f p) = p_capacity p /\
    forall g, p_tracked (p_load f p) g <-> g = f \/ p_tracked p g;
  p_remove_law f p : p_valid p -> 0 <= f < p_capacity p ->
    p_valid (p_remove f p) /\ p_capacity (p_remove f p) = p_capacity p /\
    forall g, p_tracked (p_remove f p) g <-> g <> f /\ p_tracked p g;
  p_pick_law probe p : p_valid p ->
    match p_pick probe p with
    | Some f => p_tracked p f /\ probe f = true
    | None => forall f, p_tracked p f -> probe f = false
    end;
  p_range p f : p_valid p -> p_tracked p f -> 0 <= f < p_capacity p
}.

Section BatchedLaws.
Context {P : Type} `{PolicyLaws P}.

(** Valid, with the capacity and tracked frames of [p0]. *)
Definition like (p0 p : P) : Prop :=
  p_valid p /\ p_capacity p = p_capacity p0 /\ forall g, p_tracked p g <-> p_tracked p0 g.

Lemma like_touch p0 f p : like p0 p -> like p0 (p_touch f p).
Proof.
  intros (Hv & Hc & Ht). destruct (p_touch_law f p Hv) as (? & ? & Ht'). unfold like. split_and!; [done|congruence|].
  intros g. by rewrite Ht'.
Qed.

Lemma like_refl p : p_valid p -> like p p.
Proof. intros Hv. unfold like. by split_and!. Qed.

#[export] Program Instance batched_laws : ReplacerLaws (batcher * P) := {
  valid bp := p_valid bp.2;
  frames bp := p_capacity bp.2;
  tracked bp := p_tracked bp.2;
  steady _ := True
}.
Next Obligation.
  intros th f bp Hv Hf. cbn in *.
  by apply (record_keep p_touch (like bp.2) (like_touch bp.2)), like_refl.
Qed.
Next Obligation.
  intros th f bp Hv Hf. cbn in *. unfold BatchedLoad. destruct (Z.leb_spec (p_capacity bp.2) f); [lia|].
  destruct (drain_slot_keep p_touch (like bp.2) (like_touch bp.2) (SlotIndex th bp.1) bp (like_refl _ Hv))
    as (Hv' & Hc & Ht). unfold DrainCurrentThread. destruct (drain_slot _ _ _) as [b p]. cbn [snd] in *.
  destruct (p_load_law f p Hv') as (? & ? & Ht'); [lia|]. split_and!; [done|congruence|].
  intros g. by rewrite Ht', Ht.
Qed.
Next Obligation.
  intros th f bp Hv Hf. cbn in *. unfold BatchedRemove. destruct (Z.leb_spec (p_capacity bp.2) f); [lia|].
  destruct (drain_slot_keep p_touch (like bp.2) (like_touch bp.2) (SlotIndex th bp.1) bp (like_refl _ Hv))
    as (Hv' & Hc & Ht). unfold DrainCurrentThread. destruct (drain_slot _ _ _) as [b p]. cbn [snd] in *.
  destruct (p_remove_law f p Hv') as (? & ? & Ht'); [lia|]. split_and!; [done|congruence|].
  intros g. by rewrite Ht', Ht.
Qed.
Next Obligation.
  intros probe bp Hv. cbn in *.
  destruct (drain_all_keep p_touch (like bp.2) (like_touch bp.2) bp (like_refl _ Hv)) as (Hv' & Hc & Ht).
  pose proof (p_pick_law probe _ Hv') as Hp. split_and!; try done.
  destruct (p_pick probe _) as [f|].
  - by rewrite <- Ht.
  - intros _ f Hf. apply Hp. by rewrite Ht.
Qed.
Next Obligation. intros bp f Hv Hf. by apply p_range. Qed.

End BatchedLaws.

(** ** LRU *)

Record lru := Lru { lru_capacity : Z; recency : frame_list }.

Definition MakeLru (n : Z) : lru := Lru n EmptyList.

Definition LruTouch (f : Z) (s : lru) : lru :=
  if (f <? lru_capacity s) && Contains f (recency s)
  then Lru (lru_capacity s) (MoveToFront f (recency s)) else s.

Definition LruLoad (f : Z) (s : lru) : lru :=
  Lru (lru_capacity s)
    (if Contains f (recency s) then MoveToFront f (recency s) else PushFront f (recency s)).

Definition LruRemove (f : Z) (s : lru) : lru :=
  if Contains f (recency s) then Lru (lru_capacity s) (Unlink f (recency s)) else s.

#[export] Instance lru_policy : Policy lru := {
  p_capacity := lru_capacity;
  p_touch := LruTouch;
  p_load := LruLoad;
  p_remove := LruRemove;
  p_pick probe s := PickFrom (lru_capacity s) probe (recency s)
}.

Lemma lru_capacity_touch f s : lru_capacity (LruTouch f s) = lru_capacity s.
Proof. unfold LruTouch. by destruct (_ && _). Qed.
Lemma lru_capacity_remove f s : lru_capacity (LruRemove f s) = lru_capacity s.
Proof. unfold LruRemove. by destruct (Contains _ _). Qed.

(** The recency order as a list, most recent first. *)
Definition touch_order (f : Z) (l : list Z) : list Z := if decide (f ∈ l) then f :: without f l else l.

Definition lru_order (c : replacer_call) (l : list Z) : list Z :=
  match c with
  | CallAccess _ f => touch_order f l
  | CallLoad _ f => f :: without f l
  | CallRemove _ f => without f l
  | CallVictim _ => l
  end.

Record lru_is (s : lru) (l : list Z) : Prop := {
  lru_cap : 0 <= lru_capacity s <= kNoFrame;
  lru_list : is_list (recency s) l;
  lru_range f : f ∈ l -> 0 <= f < lru_capacity s
}.

Lemma lru_touch_is f s l : lru_is s l -> lru_is (LruTouch f s) (touch_order f l).
Proof.
  intros [Hc Hl Hr]. unfold LruTouch, touch_order. rewrite (contains_spec _ _ _ Hl).
  destruct (decide (f ∈ l)) as [Hf|Hf].
  - rewrite bool_decide_true by done. destruct (Z.ltb_spec f (lru_capacity s)); [|pose proof (Hr f Hf); lia].
    cbn [andb]. split; cbn [lru_capacity recency]; [done|by apply move_to_front_is_list|].
    intros g. rewrite elem_of_cons, elem_of_without. naive_solver.
  - rewrite bool_decide_false, andb_false_r by done. done.
Qed.

Lemma lru_load_is f s l : lru_is s l -> 0 <= f < lru_capacity s -> lru_is (LruLoad f s) (f :: without f l).
Proof.
  intros [Hc Hl Hr] Hf. unfold LruLoad. rewrite (contains_spec _ _ _ Hl). split; cbn [lru_capacity recency].
  - done.
  - case_bool_decide as Hin; [by apply move_to_front_is_list|].
    rewrite without_notin by done. apply push_front_is_list; [done|lia|done].
  - intros g. rewrite elem_of_cons, elem_of_without. naive_solver.
Qed.

Lemma lru_remove_is f s l : lru_is s l -> lru_is (LruRemove f s) (without f l).
Proof.
  intros [Hc Hl Hr]. unfold LruRemove. rewrite (contains_spec _ _ _ Hl). case_bool_decide as Hin.
  - split; cbn [lru_capacity recency]; [done|by apply unlink_is_list|].
    intros g. rewrite elem_of_without. naive_solver.
  - by rewrite without_notin.
Qed.

Lemma lru_pick_is probe s l : lru_is s l -> p_pick probe s = find probe (reverse l).
Proof. intros [Hc Hl Hr]. by apply pick_from_spec. Qed.

Lemma touch_order_elem f g l : g ∈ touch_order f l <-> g ∈ l.
Proof.
  unfold touch_order. destruct (decide (f ∈ l)); [|done]. rewrite elem_of_cons, elem_of_without.
  destruct (decide (g = f)); naive_solver.
Qed.

(** [find] over a reversed list decides evictability of every entry. *)
Lemma find_reverse probe (l : list Z) :
  match find probe (reverse l) with
  | Some f => f ∈ l /\ probe f = true
  | None => forall f, f ∈ l -> probe f = false
  end.
Proof.
  destruct (find probe (reverse l)) as [f|] eqn:E.
  - apply find_some in E as [Hin Hp]. split; [|done]. by apply elem_of_reverse, list_elem_of_In.
  - intros f Hf. apply (find_none _ _ E). by apply list_elem_of_In, elem_of_reverse.
Qed.

#[export] Program Instance lru_laws : PolicyLaws lru := {
  p_valid s := exists l, lru_is s l;
  p_tracked s f := Contains f (recency s) = true
}.
Next Obligation.
  intros f s [l Hl]. pose proof (lru_touch_is f s l Hl) as Hl'. cbn. split_and!; [eauto| |].
  - apply lru_capacity_touch.
  - intros g. rewrite (contains_spec _ _ _ (lru_list _ _ Hl')), (contains_spec _ _ _ (lru_list _ _ Hl)).
    rewrite !bool_decide_eq_true. apply touch_order_elem.
Qed.
Next Obligation.
  intros f s [l Hl] Hf. pose proof (lru_load_is f s l Hl Hf) as Hl'. cbn. split_and!; [eauto|done|].
  intros g. pose proof (lru_list _ _ Hl') as H1. cbn [LruLoad recency] in H1.
  rewrite (contains_spec _ _ _ H1), (contains_spec _ _ _ (lru_list _ _ Hl)).
  rewrite !bool_decide_eq_true, elem_of_cons, elem_of_without. destruct (decide (g = f)); tauto.
Qed.
Next Obligation.
  intros f s [l Hl] Hf. pose proof (lru_remove_is f s l Hl) as Hl'. cbn. split_and!; [eauto| |].
  - apply lru_capacity_remove.
  - intros g. rewrite (contains_spec _ _ _ (lru_list _ _ Hl')), (contains_spec _ _ _ (lru_list _ _ Hl)).
    by rewrite !bool_decide_eq_true, elem_of_without.
Qed.
Next Obligation.
  intros probe s [l Hl]. rewrite (lru_pick_is probe s l Hl). pose proof (find_reverse probe l) as Hf.
  pose proof (lru_list _ _ Hl) as H1.
  destruct (find probe (reverse l)).
  - by rewrite (contains_spec _ _ _ H1), bool_decide_eq_true.
  - intros f. rewrite (contains_spec _ _ _ H1), bool_decide_eq_true. auto.
Qed.
Next Obligation.
  intros s f [l Hl] Hf. rewrite (contains_spec _ _ _ (lru_list _ _ Hl)), bool_decide_eq_true in Hf.
  by apply (lru_range s l).
Qed.

Lemma make_lru_is n : 0 <= n <= kNoFrame -> lru_is (MakeLru n) [].
Proof.
  intros Hn. split; [done|apply empty_is_list|]. intros f Hf. by apply not_elem_of_nil in Hf.
Qed.

Lemma lru_immediate n cs s l :
  Forall (call_in_range n) cs -> lru_capacity s = n -> lru_is s l ->
  lru_is (foldl (flip immediate) s cs) (foldl (flip lru_order) l cs).
Proof.
  intros Hr. revert s l. induction Hr as [|c cs Hc Hr IH]; intros s l Hn Hs; [done|].
  cbn [foldl flip]. apply IH.
  - by destruct c; cbn; rewrite ?lru_capacity_touch, ?lru_capacity_remove.
  - destruct c; cbn [immediate lru_order call_in_range] in *.
    + by apply lru_touch_is.
    + apply lru_load_is; [done|by rewrite Hn].
    + by apply lru_remove_is.
    + done.
Qed.

Lemma slot_index_range th hw : only_slot (SlotIndex th (NewBatcher hw)) (NewBatcher hw).
Proof.
  split; [|done]. cbn [NewBatcher slot_count]. unfold SlotIndex, slot_count_for. cbn [NewBatcher slot_count].
  unfold slot_count_for. pose proof (bit_ceil_bound (Z.max 4 (2 * Z.max 1 hw)) ltac:(lia)).
  set (n := bit_ceil _) in *. split.
  - apply Z.land_nonneg. lia.
  - pose proof (land_le (Z.of_nat th) (n - 1) ltac:(lia)). lia.
Qed.

(** The batched LRU policy is LRU: after any calls one thread makes, in any
    number and order, [Victim] returns the least recently used evictable frame
    of the order in which every recorded access, load and removal takes effect
    at once; batching accesses does not change the choice. *)
Lemma lru_batched_exact hw th n cs probe :
  0 <= n <= kNoFrame -> Forall (by_thread th) cs -> Forall (call_in_range n) cs ->
  (BatchedVictim probe (foldl (flip batched) (NewBatcher hw, MakeLru n) cs)).1 =
  find probe (reverse (foldl (flip lru_order) [] cs)).
Proof.
  intros Hn Hth Hr. pose proof (slot_index_range th hw) as Ho.
  destruct (@batched_run lru lru_policy lru_capacity_touch (fun _ _ => eq_refl) lru_capacity_remove
    th cs (NewBatcher hw, MakeLru n) n Hth Hr eq_refl Ho) as [Es Ho'].
  cbn [fst] in *. unfold BatchedVictim. cbn [fst].
  destruct (drain_all_settled p_touch _ _ Ho') as (-> & _ & _). rewrite Es.
  apply lru_pick_is, (lru_immediate n); [done|done|]. by apply make_lru_is.
Qed.

Definition lru_calls : list replacer_call :=
  [CallLoad 3 0; CallLoad 3 1; CallLoad 3 2; CallAccess 3 0; CallAccess 3 1; CallRemove 3 2; CallAccess 3 0].

Lemma lru_batched_exact_witness :
  (BatchedVictim (fun _ => true) (foldl (flip batched) (NewBatcher 8, MakeLru 4) lru_calls)).1 = Some 1.
Proof.
  rewrite (lru_batched_exact 8 3 4 lru_calls).
  - vm_compute. reflexivity.
  - split; vm_compute; congruence.
  - repeat constructor.
  - repeat constructor; simpl; lia.
Defined.
