(* ===== verification/TwoQueue.v ===== *)
(** The 2Q policy, [lib/replacer/two_queue_replacer.cc]: a first-access queue
    [history] and a re-access queue [cache], both doubly linked lists, with the
    batched accesses of [Lru]. *)
From S2P Require Import Prelude Layout FrameList Replacer Lru.

Record two_queue := TwoQueue { tq_capacity : Z; history : frame_list; cache : frame_list }.

Definition MakeTwoQueue (n : Z) : two_queue := TwoQueue n EmptyList EmptyList.

Definition TqTouch (f : Z) (s : two_queue) : two_queue :=
  if tq_capacity s <=? f then s
  else if Contains f (history s)
  then TwoQueue (tq_capacity s) (Unlink f (history s)) (PushFront f (cache s))
  else if Contains f (cache s)
  then TwoQueue (tq_capacity s) (history s) (MoveToFront f (cache s)) else s.

Definition Untrack (f : Z) (s : two_queue) : two_queue :=
  TwoQueue (tq_capacity s)
    (if Contains f (history s) then Unlink f (history s) else history s)
    (if Contains f (cache s) then Unlink f (cache s) else cache s).

Definition TqLoad (f : Z) (s : two_queue) : two_queue :=
  let s := Untrack f s in TwoQueue (tq_capacity s) (PushFront f (history s)) (cache s).

Definition TqPick (probe : Z -> bool) (s : two_queue) : option Z :=
  match PickFrom (tq_capacity s) probe (history s) with
  | Some f => Some f
  | None => PickFrom (tq_capacity s) probe (cache s)
  end.

#[export] Instance two_queue_policy : Policy two_queue := {
  p_capacity := tq_capacity;
  p_touch := TqTouch;
  p_load := TqLoad;
  p_remove := Untrack;
  p_pick := TqPick
}.

(** ** As two lists, most recent first *)

Definition tq_order (c : replacer_call) (hc : list Z * list Z) : list Z * list Z :=
  let '(h, c') := hc in
  match c with
  | CallAccess _ f =>
      if decide (f ∈ h) then (without f h, f :: c')
      else if decide (f ∈ c') then (h, f :: without f c') else (h, c')
  | CallLoad _ f => (f :: without f h, without f c')
  | CallRemove _ f => (without f h, without f c')
  | CallVictim _ => (h, c')
  end.

Record tq_is (s : two_queue) (h c : list Z) : Prop := {
  tq_cap : 0 <= tq_capacity s <= kNoFrame;
  tq_history : is_list (history s) h;
  tq_cache : is_list (cache s) c;
  tq_disjoint f : f ∈ h -> f ∈ c -> False;
  tq_hrange f : f ∈ h -> 0 <= f < tq_capacity s;
  tq_crange f : f ∈ c -> 0 <= f < tq_capacity s
}.

Ltac lists := repeat setoid_rewrite elem_of_cons; repeat setoid_rewrite elem_of_without.

Lemma tq_touch_is th f s h c :
  tq_is s h c -> let '(h', c') := tq_order (CallAccess th f) (h, c) in tq_is (TqTouch f s) h' c'.
Proof.
  intros [Hcap Hh Hc Hd Hhr Hcr]. cbn [tq_order]. unfold TqTouch.
  rewrite (contains_spec _ _ _ Hh), (contains_spec _ _ _ Hc).
  destruct (decide (f ∈ h)) as [Hf|Hf]; [|destruct (decide (f ∈ c)) as [Hf'|Hf']].
  - destruct (Z.leb_spec (tq_capacity s) f); [pose proof (Hhr f Hf); lia|]. rewrite bool_decide_true by done.
    split; cbn [tq_capacity history cache]; try done.
    + by apply unlink_is_list.
    + apply push_front_is_list; [done|by apply (il_range _ _ Hh)|]. intros Hfc. by apply (Hd f).
    + lists. naive_solver.
    + lists. naive_solver.
    + lists. naive_solver.
  - destruct (Z.leb_spec (tq_capacity s) f); [pose proof (Hcr f Hf'); lia|].
    rewrite bool_decide_false, bool_decide_true by done.
    split; cbn [tq_capacity history cache]; try done.
    + by apply move_to_front_is_list.
    + lists. naive_solver.
    + lists. naive_solver.
  - rewrite !bool_decide_false by done. by destruct (_ <=? _).
Qed.

Lemma untrack_is f s h c : tq_is s h c -> tq_is (Untrack f s) (without f h) (without f c).
Proof.
  intros [Hcap Hh Hc Hd Hhr Hcr]. unfold Untrack.
  rewrite (contains_spec _ _ _ Hh), (contains_spec _ _ _ Hc).
  split; cbn [tq_capacity history cache]; try done.
  - case_bool_decide; [by apply unlink_is_list|by rewrite without_notin].
  - case_bool_decide; [by apply unlink_is_list|by rewrite without_notin].
  - lists. naive_solver.
  - lists. naive_solver.
  - lists. naive_solver.
Qed.

Lemma tq_load_is f s h c :
  tq_is s h c -> 0 <= f < tq_capacity s -> tq_is (TqLoad f s) (f :: without f h) (without f c).
Proof.
  intros Hs Hf. pose proof (untrack_is f s h c Hs) as [Hcap Hh Hc Hd Hhr Hcr].
  split; cbn [TqLoad tq_capacity history cache] in *; try done.
  - apply push_front_is_list; [done|cbn in Hcap; lia|]. rewrite elem_of_without. naive_solver.
  - intros g. rewrite elem_of_cons. intros [->|Hg]; [|by apply Hd].
    rewrite elem_of_without. naive_solver.
  - intros g. rewrite elem_of_cons. intros [->|Hg]; [done|by apply Hhr].
Qed.

Lemma tq_pick_is probe s h c :
  tq_is s h c ->
  TqPick probe s = match find probe (reverse h) with Some f => Some f | None => find probe (reverse c) end.
Proof.
  intros [Hcap Hh Hc Hd Hhr Hcr]. unfold TqPick.
  by rewrite (pick_from_spec _ _ _ h), (pick_from_spec _ _ _ c).
Qed.

Lemma make_two_queue_is n : 0 <= n <= kNoFrame -> tq_is (MakeTwoQueue n) [] [].
Proof.
  intros Hn. split; try done; try apply empty_is_list; intros f Hf; by apply not_elem_of_nil in Hf.
Qed.

Lemma tq_capacity_touch f s : tq_capacity (TqTouch f s) = tq_capacity s.
Proof. unfold TqTouch. by repeat case_match. Qed.

Definition tq_elem (f : Z) (s : two_queue) : Prop :=
  Contains f (history s) = true \/ Contains f (cache s) = true.

Lemma tq_elem_is f s h c : tq_is s h c -> tq_elem f s <-> f ∈ h \/ f ∈ c.
Proof.
  intros Hs. unfold tq_elem. rewrite (contains_spec _ _ _ (tq_history _ _ _ Hs)), (contains_spec _ _ _ (tq_cache _ _ _ Hs)).
  by rewrite !bool_decide_eq_true.
Qed.

#[export] Program Instance two_queue_laws : PolicyLaws two_queue := {
  p_valid s := exists h c, tq_is s h c;
  p_tracked s f := tq_elem f s
}.
Next Obligation.
  intros f s (h & c & Hs). pose proof (tq_touch_is 0 f s h c Hs) as Hs'. cbn [p_touch two_queue_policy p_capacity].
  destruct (tq_order _ _) as [h' c'] eqn:E. split_and!; [eauto|apply tq_capacity_touch|].
  intros g. rewrite (tq_elem_is _ _ _ _ Hs'), (tq_elem_is _ _ _ _ Hs). cbn [tq_order] in E.
  destruct (decide (f ∈ h)), (decide (f ∈ c)), (decide (g = f)); simplify_eq; lists; naive_solver.
Qed.
Next Obligation.
  intros f s (h & c & Hs) Hf. pose proof (tq_load_is f s h c Hs Hf) as Hs'.
  cbn [p_load two_queue_policy p_capacity]. split_and!; [eauto|done|]. intros g.
  rewrite (tq_elem_is _ _ _ _ Hs'), (tq_elem_is _ _ _ _ Hs). lists. destruct (decide (g = f)); naive_solver.
Qed.
Next Obligation.
  intros f s (h & c & Hs) Hf. pose proof (untrack_is f s h c Hs) as Hs'.
  cbn [p_remove two_queue_policy p_capacity]. split_and!; [eauto|done|]. intros g.
  rewrite (tq_elem_is _ _ _ _ Hs'), (tq_elem_is _ _ _ _ Hs). lists. naive_solver.
Qed.
Next Obligation.
  intros probe s (h & c & Hs). cbn [p_pick two_queue_policy]. rewrite (tq_pick_is probe s h c Hs).
  pose proof (find_reverse probe h) as Hh. pose proof (find_reverse probe c) as Hc.
  destruct (find probe (reverse h)); [|destruct (find probe (reverse c))].
  - rewrite (tq_elem_is _ _ _ _ Hs). naive_solver.
  - rewrite (tq_elem_is _ _ _ _ Hs). naive_solver.
  - intros f. rewrite (tq_elem_is _ _ _ _ Hs). naive_solver.
Qed.
Next Obligation.
  intros s f (h & c & Hs) Hf. rewrite (tq_elem_is _ _ _ _ Hs) in Hf.
  destruct Hf; [by apply (tq_hrange s h c)|by apply (tq_crange s h c)].
Qed.

Lemma tq_immediate n cs s h c :
  Forall (call_in_range n) cs -> tq_capacity s = n -> tq_is s h c ->
  let '(h', c') := foldl (flip tq_order) (h, c) cs in tq_is (foldl (flip immediate) s cs) h' c'.
Proof.
  intros Hr. revert s h c. induction Hr as [|k cs Hk Hr IH]; intros s h c Hn Hs; [done|].
  cbn [foldl flip]. destruct (tq_order k (h, c)) as [h1 c1] eqn:E. apply IH.
  - destruct k; cbn; [by rewrite tq_capacity_touch|done|done|done].
  - destruct k as [th f|th f|th f|probe]; cbn [immediate call_in_range] in *.
    + pose proof (tq_touch_is th f s h c Hs) as H. by rewrite E in H.
    + injection E as <- <-. apply tq_load_is; [done|by rewrite Hn].
    + injection E as <- <-. by apply untrack_is.
    + by injection E as <- <-.
Qed.

(** The batched 2Q policy is 2Q: after any calls one thread makes, [Victim]
    returns the oldest evictable frame among those accessed only by their load,
    and only when there is none the least recently used evictable frame among
    those accessed again, with every access applied. *)
Lemma two_queue_batched_exact hw th n cs probe :
  0 <= n <= kNoFrame -> Forall (by_thread th) cs -> Forall (call_in_range n) cs ->
  let '(h, c) := foldl (flip tq_order) ([], []) cs in
  (BatchedVictim probe (foldl (flip batched) (NewBatcher hw, MakeTwoQueue n) cs)).1 =
  match find probe (reverse h) with Some f => Some f | None => find probe (reverse c) end.
Proof.
  intros Hn Hth Hr. pose proof (slot_index_range th hw) as Ho.
  destruct (@batched_run two_queue two_queue_policy tq_capacity_touch (fun _ _ => eq_refl)
    (fun _ _ => eq_refl) th cs (NewBatcher hw, MakeTwoQueue n) n Hth Hr eq_refl Ho) as [Es Ho'].
  pose proof (tq_immediate n cs (MakeTwoQueue n) [] [] Hr eq_refl (make_two_queue_is n Hn)) as Hi.
  destruct (foldl (flip tq_order) ([], []) cs) as [h c].
  cbn [fst] in *. unfold BatchedVictim. cbn [fst].
  destruct (drain_all_settled p_touch _ _ Ho') as (-> & _ & _). rewrite Es. by apply tq_pick_is.
Qed.

Definition tq_calls : list replacer_call :=
  [CallLoad 0 0; CallLoad 0 1; CallLoad 0 2; CallAccess 0 0; CallAccess 0 1].

Lemma two_queue_batched_exact_witness :
  (BatchedVictim (fun f => negb (f =? 2)) (foldl (flip batched) (NewBatcher 2, MakeTwoQueue 4) tq_calls)).1 =
  Some 0.
Proof.
  pose proof (two_queue_batched_exact 2 0 4 tq_calls (fun f => negb (f =? 2))) as H.
  rewrite H.
  - vm_compute. reflexivity.
  - split; vm_compute; congruence.
  - repeat constructor.
  - repeat constructor; simpl; lia.
Defined.
