(* ===== verification/Sieve.v ===== *)
(** The SIEVE policy, [lib/replacer/sieve_replacer.cc]: an insertion-ordered
    queue with one visited bit per frame and a hand that moves from the oldest
    entry towards the newest and wraps around.

    The queue's links ([newest], [oldest], [newer], [older], [linked]) are the
    doubly linked list of [FrameList], front = newest: [PushNewest] and [Unlink]
    make the same stores as [PushFront] and [FrameList.Unlink], plus the hand
    and the count. *)
From S2P Require Import Prelude Layout FrameList Replacer Clock.

Record sieve := Sieve {
  sv_capacity : Z;
  queue : frame_list;
  sv_hand : Z;
  linked_count : Z;
  visited : Z -> Z
}.

Definition MakeSieve (n : Z) : sieve := Sieve n EmptyList kNoFrame 0 (fun _ => 0).

Definition newer (s : sieve) (f : Z) : Z := back_to_front (queue s) f.
Definition oldest (s : sieve) : Z := l_back (queue s).

Definition SieveUnlink (f : Z) (s : sieve) : sieve :=
  let newer_frame := newer s f in
  Sieve (sv_capacity s) (Unlink f (queue s))
    (if sv_hand s =? f then newer_frame else sv_hand s) (u64 (linked_count s - 1)) (visited s).

Definition PushNewest (f : Z) (s : sieve) : sieve :=
  Sieve (sv_capacity s) (PushFront f (queue s)) (sv_hand s) (u64 (linked_count s + 1)) (visited s).

Definition set_visited (f v : Z) (s : sieve) : sieve :=
  Sieve (sv_capacity s) (queue s) (sv_hand s) (linked_count s) (<[f := v]> (visited s)).
Definition set_hand (h : Z) (s : sieve) : sieve :=
  Sieve (sv_capacity s) (queue s) h (linked_count s) (visited s).

Definition SieveAccess (f : Z) (s : sieve) : sieve :=
  if sv_capacity s <=? f then s
  else if visited s f =? 0 then set_visited f 1 s else s.

Definition SieveLoad (f : Z) (s : sieve) : sieve :=
  if sv_capacity s <=? f then s
  else
    let s := if Contains f (queue s) then SieveUnlink f s else s in
    PushNewest f (set_visited f 0 s).

Definition SieveRemove (f : Z) (s : sieve) : sieve :=
  if sv_capacity s <=? f then s
  else
    let s := if Contains f (queue s) then SieveUnlink f s else s in
    set_visited f 0 s.

(** The loop of [Victim] on the current candidate; [fuel] is
    [2 * linked_count - scanned]. *)
Fixpoint sieve_loop (fuel : nat) (probe : Z -> bool) (candidate : Z) (s : sieve) : option Z * sieve :=
  match fuel with
  | O => (None, set_hand candidate s)
  | S fuel =>
      if candidate =? kNoFrame then (None, set_hand candidate s)
      else
        let next := if negb (newer s candidate =? kNoFrame) then newer s candidate else oldest s in
        if negb (probe candidate) then sieve_loop fuel probe next s
        else if negb (visited s candidate =? 0)
        then sieve_loop fuel probe next (set_visited candidate 0 s)
        else (Some candidate, set_hand next s)
  end.

Definition SieveVictim (probe : Z -> bool) (s : sieve) : option Z * sieve :=
  let candidate := if negb (sv_hand s =? kNoFrame) then sv_hand s else oldest s in
  sieve_loop (Z.to_nat (2 * linked_count s)) probe candidate s.

#[export] Instance sieve_replacer : Replacer sieve := {
  RecordAccess _ := SieveAccess;
  RecordLoad _ := SieveLoad;
  Victim := SieveVictim;
  Remove _ := SieveRemove
}.

(** ** The ring *)

(** Entries from the oldest on, and the position that follows. *)
Lemma ring_next s l i f :
  is_list s l -> reverse l !! i = Some f ->
  exists g, reverse l !! (S i mod length l)%nat = Some g /\
    g = (if negb (back_to_front s f =? kNoFrame) then back_to_front s f else l_back s).
Proof.
  intros Hl Hi. pose proof (lookup_lt_Some _ _ _ Hi) as Hlt. rewrite length_reverse in Hlt.
  rewrite reverse_lookup_Some in Hi. destruct Hi as [Hi _].
  apply list_elem_of_split_length in Hi as (l1 & l2 & El & Elen). subst l.
  destruct (neighbours s l1 f l2 Hl) as [_ ->].
  pose proof (il_back s _ Hl) as Hbk. pose proof (il_range s _ Hl) as Hrg.
  rewrite length_app in *. cbn [length] in *. destruct l1 as [|x l1 _] using rev_ind.
  - cbn [List.last]. rewrite Z.eqb_refl. cbn [negb app] in *. exists (l_back s). split; [|done].
    cbn [length] in *. replace (S i) with (1 * (0 + S (length l2)))%nat by lia.
    rewrite Nat.Div0.mod_mul. rewrite Hbk. apply reverse_lookup_Some. cbn [length]. split; [|lia].
    replace (S (length l2) - 1)%nat with (length l2) by lia.
    clear. revert f. induction l2 as [|y l2 IH]; intros f; [done|]. cbn [length lookup list_lookup]. apply IH.
  - rewrite last_last. assert (x <> kNoFrame) as Hx by (intros ->; destruct (Hrg kNoFrame); [set_solver|lia]).
    destruct (Z.eqb_spec x kNoFrame); [done|]. cbn [negb]. exists x. split; [|done].
    rewrite length_app in *. cbn [length] in *. rewrite Nat.mod_small by lia.
    apply reverse_lookup_Some. rewrite !length_app. cbn [length]. split; [|lia].
    rewrite <- app_assoc. cbn [app].
    rewrite lookup_app_r by lia. replace (_ - _ - _)%nat with 0%nat by lia. done.
Qed.

(** ** The state invariant *)

Record sieve_rep (s : sieve) (l : list Z) : Prop := {
  sr_capacity : 0 <= sv_capacity s < kInvalidFrameId;
  sr_list : is_list (queue s) l;
  sr_count : linked_count s = Z.of_nat (length l);
  sr_hand : sv_hand s = kNoFrame \/ sv_hand s ∈ l;
  sr_range f : f ∈ l -> 0 <= f < sv_capacity s
}.

Lemma make_sieve_rep n : 0 <= n < kInvalidFrameId -> sieve_rep (MakeSieve n) [].
Proof.
  intros Hn. split; try done; [apply empty_is_list|by left|].
  intros f Hf. by apply not_elem_of_nil in Hf.
Qed.

Lemma set_visited_rep s l f v : sieve_rep s l -> sieve_rep (set_visited f v s) l.
Proof. intros []. by split. Qed.

Lemma set_hand_rep s l h : sieve_rep s l -> h = kNoFrame \/ h ∈ l -> sieve_rep (set_hand h s) l.
Proof. intros [] Hh. by split. Qed.

(** A queue never holds more entries than frames. *)
Lemma rep_length s l : sieve_rep s l -> Z.of_nat (length l) <= sv_capacity s.
Proof.
  intros Hr. pose proof (nodup_length l (sv_capacity s) (il_nodup _ _ (sr_list s l Hr)) (sr_range s l Hr)).
  pose proof (sr_capacity s l Hr). lia.
Qed.

Lemma without_length (l : list Z) f : NoDup l -> f ∈ l -> length l = S (length (without f l)).
Proof.
  intros Hnd Hf. destruct (list_elem_of_split _ _ Hf) as (l1 & l2 & ->).
  apply list.NoDup_app in Hnd as (_ & Hd & Hn2). apply list.NoDup_cons in Hn2 as [Hf2 _].
  rewrite without_middle; [rewrite !length_app; cbn; lia|set_solver|done].
Qed.

Lemma sieve_unlink_rep s l f : sieve_rep s l -> f ∈ l -> sieve_rep (SieveUnlink f s) (without f l).
Proof.
  intros Hr Hf. pose proof (rep_length s l Hr). destruct Hr as [Hc Hl Hn Hh Hrg].
  pose proof (without_length l f (il_nodup _ _ Hl) Hf).
  split; cbn [SieveUnlink sv_capacity queue sv_hand linked_count].
  - done.
  - by apply unlink_is_list.
  - rewrite u64_small; [lia|]. unfold is_u64. change kInvalidFrameId with (2 ^ 32 - 1) in *. change u64_mod with (2 ^ 64). lia.
  - destruct (Z.eqb_spec (sv_hand s) f) as [E|Hne].
    + destruct (list_elem_of_split _ _ Hf) as (l1 & l2 & ->). unfold newer.
      destruct (neighbours _ _ _ _ Hl) as [_ ->]. destruct l1 as [|x l1 _] using rev_ind; [by left|right].
      rewrite last_last. apply elem_of_without. split; [|set_solver].
      pose proof (il_nodup _ _ Hl) as Hnd. apply list.NoDup_app in Hnd as (_ & Hd & _).
      intros Ex. apply (Hd f); [rewrite <- Ex|]; set_solver.
    + destruct Hh as [->|Hh]; [by left|right]. by apply elem_of_without.
  - intros g [_ Hg]%elem_of_without. by apply Hrg.
Qed.

Lemma push_newest_rep s l f :
  sieve_rep s l -> 0 <= f < sv_capacity s -> f ∉ l -> sieve_rep (PushNewest f s) (f :: l).
Proof.
  intros Hr Hf Hn. pose proof (rep_length s l Hr). destruct Hr as [Hc Hl Hcnt Hh Hrg].
  split; cbn [PushNewest sv_capacity queue sv_hand linked_count].
  - done.
  - apply push_front_is_list; [done| |done]. unfold kNoFrame. lia.
  - cbn [length]. rewrite u64_small; [lia|]. unfold is_u64.
    change kInvalidFrameId with (2 ^ 32 - 1) in *. change u64_mod with (2 ^ 64). lia.
  - destruct Hh as [->|Hh]; [by left|right; set_solver].
  - intros g [->|Hg]%elem_of_cons; auto.
Qed.

(** Unlinking a frame that may be absent, as [RecordLoad] and [Remove] do. *)
Lemma drop_rep s l f :
  sieve_rep s l -> sieve_rep (if Contains f (queue s) then SieveUnlink f s else s) (without f l).
Proof.
  intros Hr. rewrite (contains_spec _ l) by apply Hr. case_bool_decide as Hf.
  - by apply sieve_unlink_rep.
  - by rewrite without_notin.
Qed.

Lemma drop_capacity s f :
  sv_capacity (if Contains f (queue s) then SieveUnlink f s else s) = sv_capacity s.
Proof. by destruct (Contains _ _). Qed.

(** ** The scan *)

Definition sieve_rank (v : Z) : Z := if v =? 0 then 0 else 1.

Lemma sieve_loop_spec fuel probe i c s l :
  sieve_rep s l -> reverse l !! (i mod length l)%nat = Some c ->
  let '(r, s') := sieve_loop fuel probe c s in
  sieve_rep s' l /\ sv_capacity s' = sv_capacity s /\
  match r with
  | Some f => f ∈ l /\ probe f = true
  | None => forall j f, reverse l !! j = Some f -> probe f = true ->
      passes (Z.of_nat (length l)) (Z.of_nat j) (Z.of_nat i) (Z.of_nat fuel) <= sieve_rank (visited s f)
  end.
Proof.
  revert i c s. induction fuel as [|fuel IH]; intros i c s Hr Hi; cbn [sieve_loop];
    assert (c ∈ l) as Hc by (apply elem_of_reverse; by eapply list_elem_of_lookup_2).
  { split; [apply set_hand_rep; auto|]. split; [done|]. intros j f _ _. unfold passes, sieve_rank.
    rewrite Z.add_0_r, Z.sub_diag. by destruct (_ =? _). }
  pose proof (il_range _ _ (sr_list s l Hr) c Hc). destruct (Z.eqb_spec c kNoFrame); [lia|].
  destruct (ring_next _ l _ _ (sr_list s l Hr) Hi) as (nxt & Hnx & Enx).
  unfold newer, oldest. rewrite <- Enx.
  assert (0 < length l)%nat as Hlen by (destruct l; [by apply not_elem_of_nil in Hc|cbn; lia]).
  assert (reverse l !! (S i mod length l)%nat = Some nxt) as Hnx'.
  { rewrite <- Hnx. f_equal. change (S i) with (1 + i)%nat. rewrite <- Nat.Div0.add_mod_idemp_r. done. }
  assert (forall j f, reverse l !! j = Some f ->
    passes (Z.of_nat (length l)) (Z.of_nat j) (Z.of_nat i) (Z.of_nat (S fuel)) =
    (if decide (f = c) then 1 else 0) +
    passes (Z.of_nat (length l)) (Z.of_nat j) (Z.of_nat (S i)) (Z.of_nat fuel)) as Hpass.
  { intros j f Hj. pose proof (lookup_lt_Some _ _ _ Hj) as Hlt. rewrite length_reverse in Hlt.
    rewrite !Nat2Z.inj_succ. unfold Z.succ. rewrite passes_succ by lia. f_equal.
    rewrite <- Nat2Z.inj_mod. destruct (decide (f = c)) as [->|Hne].
    - assert (j = (i mod length l)%nat) as ->; [|by rewrite Z.eqb_refl].
      eapply NoDup_lookup; [|done|done]. rewrite reverse_Permutation. apply (il_nodup _ _ (sr_list s l Hr)).
    - destruct (Z.eqb_spec (Z.of_nat (i mod length l)) (Z.of_nat j)) as [E|]; [|done].
      apply Nat2Z.inj in E. subst j. congruence. }
  destruct (probe c) eqn:Ep; cbn [negb].
  - destruct (visited s c =? 0) eqn:Ev; cbn [negb].
    { split; [apply set_hand_rep; [done|]; right; apply elem_of_reverse; by eapply list_elem_of_lookup_2|].
      done. }
    specialize (IH (S i) nxt (set_visited c 0 s) (set_visited_rep _ _ _ _ Hr) Hnx').
    destruct (sieve_loop _ _ _ _) as [r s']. destruct IH as (? & ? & Hres). split; [done|]. split; [done|].
    destruct r; [done|]. intros j f Hj Hp. rewrite (Hpass j f Hj). specialize (Hres j f Hj Hp).
    cbn [set_visited visited] in Hres. destruct (decide (f = c)) as [->|Hne].
    + rewrite fn_lookup_insert in Hres. unfold sieve_rank in *. rewrite Ev. simpl in Hres. lia.
    + rewrite fn_lookup_insert_ne in Hres by done. lia.
  - specialize (IH (S i) nxt s Hr Hnx'). destruct (sieve_loop _ _ _ _) as [r s'].
    destruct IH as (? & ? & Hres). split; [done|]. split; [done|]. destruct r; [done|].
    intros j f Hj Hp. rewrite (Hpass j f Hj). destruct (decide (f = c)) as [->|Hne]; [congruence|].
    specialize (Hres j f Hj Hp). lia.
Qed.

(** The first candidate is a position of the ring. *)
Lemma start_position s l :
  sieve_rep s l -> l <> [] ->
  exists i, reverse l !! (i mod length l)%nat =
    Some (if negb (sv_hand s =? kNoFrame) then sv_hand s else oldest s).
Proof.
  intros [_ Hl _ Hh _] Hne. assert (0 < length l)%nat by (destruct l; [done|cbn; lia]).
  assert (oldest s ∈ l /\ reverse l !! 0%nat = Some (oldest s)) as [_ Hold].
  { unfold oldest. rewrite (il_back _ _ Hl). destruct l as [|x l _] using rev_ind; [done|].
    rewrite last_last, reverse_snoc. split; [set_solver|done]. }
  destruct (Z.eqb_spec (sv_hand s) kNoFrame) as [E|Hn]; cbn [negb].
  - exists 0%nat. by rewrite Nat.Div0.mod_0_l.
  - destruct Hh as [|Hh]; [done|]. apply elem_of_reverse, list_elem_of_lookup_1 in Hh as [i Hi].
    exists i. rewrite Nat.mod_small; [done|]. apply lookup_lt_Some in Hi. by rewrite length_reverse in Hi.
Qed.

Lemma sieve_victim_spec probe s l :
  sieve_rep s l ->
  let '(r, s') := SieveVictim probe s in
  sieve_rep s' l /\ sv_capacity s' = sv_capacity s /\
  match r with
  | Some f => f ∈ l /\ probe f = true
  | None => forall f, f ∈ l -> probe f = false
  end.
Proof.
  intros Hr. unfold SieveVictim. rewrite (sr_count s l Hr). destruct (decide (l = [])) as [->|Hne].
  - cbn [length sieve_loop Z.to_nat Z.mul Z.of_nat]. split; [|split; [done|]].
    + apply set_hand_rep; [done|left]. destruct (Z.eqb_spec (sv_hand s) kNoFrame); cbn [negb].
      * unfold oldest. by rewrite (il_back _ _ (sr_list s _ Hr)).
      * destruct (sr_hand s _ Hr) as [|H]; [done|]. by apply not_elem_of_nil in H.
    + intros f Hf. by apply not_elem_of_nil in Hf.
  - destruct (start_position s l Hr Hne) as (i & Hi).
    pose proof (sieve_loop_spec (Z.to_nat (2 * Z.of_nat (length l))) probe i _ s l Hr Hi) as H.
    destruct (sieve_loop _ _ _ _) as [r s']. destruct H as (? & ? & Hres). split; [done|]. split; [done|].
    destruct r; [done|]. intros f Hf. destruct (probe f) eqn:Ep; [|done]. exfalso.
    apply elem_of_reverse, list_elem_of_lookup_1 in Hf as [j Hj]. specialize (Hres j f Hj Ep).
    rewrite Z2Nat.id in Hres by lia.
    rewrite passes_round in Hres by (destruct l; [done|cbn; lia]).
    unfold sieve_rank in Hres. destruct (_ =? 0); lia.
Qed.

(** ** The contract *)

Lemma sieve_load_rep s l f :
  sieve_rep s l -> 0 <= f < sv_capacity s -> sieve_rep (SieveLoad f s) (f :: without f l).
Proof.
  intros Hr Hf. unfold SieveLoad. destruct (Z.leb_spec (sv_capacity s) f); [lia|].
  apply push_newest_rep.
  - by apply set_visited_rep, drop_rep.
  - cbn [set_visited sv_capacity]. by rewrite drop_capacity.
  - rewrite elem_of_without. tauto.
Qed.

Lemma sieve_remove_rep s l f :
  sieve_rep s l -> 0 <= f < sv_capacity s -> sieve_rep (SieveRemove f s) (without f l).
Proof.
  intros Hr Hf. unfold SieveRemove. destruct (Z.leb_spec (sv_capacity s) f); [lia|].
  by apply set_visited_rep, drop_rep.
Qed.

Lemma rep_tracked s l f : sieve_rep s l -> l_linked (queue s) f = true <-> f ∈ l.
Proof. intros Hr. apply (il_linked _ _ (sr_list s l Hr)). Qed.

#[export] Program Instance sieve_laws : ReplacerLaws sieve := {
  valid s := exists l, sieve_rep s l;
  frames := sv_capacity;
  tracked s f := l_linked (queue s) f = true;
  steady _ := True
}.
Next Obligation.
  intros th f s [l Hr] Hf. cbn [RecordAccess sieve_replacer]. unfold SieveAccess.
  destruct (_ <=? _); [eauto|]. destruct (_ =? 0); [|eauto].
  split; [exists l; by apply set_visited_rep|done].
Qed.
Next Obligation.
  intros th f s [l Hr] Hf. cbn [RecordLoad sieve_replacer].
  pose proof (sieve_load_rep s l f Hr Hf) as Hr'. split; [by eexists|]. split.
  - unfold SieveLoad. destruct (_ <=? _); [done|]. cbn [PushNewest set_visited sv_capacity]. apply drop_capacity.
  - intros g. rewrite (rep_tracked _ _ g Hr'), (rep_tracked _ _ g Hr), elem_of_cons, elem_of_without.
    destruct (decide (g = f)); naive_solver.
Qed.
Next Obligation.
  intros th f s [l Hr] Hf. cbn [Remove sieve_replacer].
  pose proof (sieve_remove_rep s l f Hr Hf) as Hr'. split; [by eexists|]. split.
  - unfold SieveRemove. destruct (_ <=? _); [done|]. cbn [set_visited sv_capacity]. apply drop_capacity.
  - intros g. by rewrite (rep_tracked _ _ g Hr'), (rep_tracked _ _ g Hr), elem_of_without.
Qed.
Next Obligation.
  intros probe s [l Hr]. cbn [Victim sieve_replacer]. pose proof (sieve_victim_spec probe s l Hr) as H.
  destruct (SieveVictim probe s) as [r s']. destruct H as (Hr' & ? & Hres).
  split; [by exists l|]. split; [done|]. split.
  - intros g. by rewrite (rep_tracked _ _ g Hr'), (rep_tracked _ _ g Hr).
  - destruct r as [f|]; [by rewrite (rep_tracked _ _ f Hr)|].
    intros _ f Hf. apply Hres. by apply (rep_tracked s).
Qed.
Next Obligation. intros s f [l Hr] Hf. cbn. apply (sr_range _ _ Hr). by apply (rep_tracked s). Qed.

(** ** What SIEVE promises *)

(** After any sequence of accesses, loads, removals and nominations on a
    SIEVE policy, the next nomination returns a frame that was loaded, not
    removed since and evictable if there is one, and nothing otherwise: the
    linked queue, the hand and the bound [2 * linked_count] on the scan never
    make it miss one. *)
Lemma sieve_victim n cs probe :
  0 <= n < kInvalidFrameId -> Forall (call_in_range n) cs ->
  match (SieveVictim probe (perform_all cs (MakeSieve n))).1 with
  | Some f => f ∈ loaded cs /\ probe f = true
  | None => forall f, f ∈ loaded cs -> probe f = false
  end.
Proof.
  intros Hn Hcs.
  assert (valid (MakeSieve n)) as Hv0 by (exists []; by apply make_sieve_rep).
  destruct (run_tracks cs (MakeSieve n) Hv0 ltac:(by intros g) Hcs) as (Hv & _ & Ht).
  pose proof (victim_law probe _ Hv) as H. cbn [Victim sieve_replacer] in H.
  destruct (SieveVictim probe _) as [[f|] s']; destruct H as (_ & _ & _ & Hr); cbn [fst].
  - destruct Hr as [Hr ?]. split; [|done]. by apply Ht.
  - intros f Hf. apply Hr; [exact I|]. by apply Ht.
Qed.

Definition sieve_calls : list replacer_call :=
  [CallLoad 0 0; CallLoad 0 1; CallLoad 0 2; CallAccess 0 0; CallVictim (fun _ => true);
   CallRemove 0 1; CallLoad 0 3].

Lemma sieve_victim_witness :
  match (SieveVictim (fun f => negb (f =? 2)) (perform_all sieve_calls (MakeSieve 4))).1 with
  | Some f => f = 3 /\ f ∈ loaded sieve_calls
  | None => False
  end.
Proof.
  pose proof (sieve_victim 4 sieve_calls (fun f => negb (f =? 2))) as H.
  assert ((SieveVictim (fun f => negb (f =? 2)) (perform_all sieve_calls (MakeSieve 4))).1 = Some 3) as E
    by (vm_compute; reflexivity).
  rewrite E in *. split; [reflexivity|]. apply H; [split; vm_compute; congruence|].
  repeat constructor; cbn; lia.
Defined.
