(* ===== verification/OrderedSet.v ===== *)
(** The ordered set of frames of the LRU-K and plan policies,
    [lib/replacer/indexed_ordered_set.h]: a treap whose nodes are the frames and
    whose links are frame numbers.

    [is_set K s l] says that the links of [s] hold the frames [l], in increasing
    order of their key [K] and then of their number.  Insertion and removal are
    shown to be insertion into and removal from [l], a walk by [Next] (or
    [Previous]) from [First] (or [Last]) visits [l] forwards (or backwards), and
    nothing outside the set's own nodes is written, which is what lets two sets
    share one node array.  Loops have fuel; one round per frame of the set, and
    one to stop, is enough. *)
From stdpp Require Import sorting.
From S2P Require Import Prelude Layout FrameList.

Record node := Node {
  n_key : Z;
  n_left : Z;
  n_right : Z;
  n_parent : Z;
  n_linked : bool
}.

Definition empty_node : node := Node 0 kNoFrame kNoFrame kNoFrame false.

(** The array and the root, which belong to the caller. *)
Record ordered_set := OSet { nodes : Z -> node; root : Z }.

Definition set_left (c : Z) (n : node) : node := Node (n_key n) c (n_right n) (n_parent n) (n_linked n).
Definition set_right (c : Z) (n : node) : node := Node (n_key n) (n_left n) c (n_parent n) (n_linked n).
Definition set_parent (p : Z) (n : node) : node := Node (n_key n) (n_left n) (n_right n) p (n_linked n).
Definition set_linked (b : bool) (n : node) : node := Node (n_key n) (n_left n) (n_right n) (n_parent n) b.

Definition upd_node (f : Z) (g : node -> node) (s : ordered_set) : ordered_set :=
  OSet (<[f := g (nodes s f)]> (nodes s)) (root s).

(** The constructor of the nodes leaves what [Reset] establishes. *)
Definition Reset : ordered_set := OSet (fun _ => empty_node) kNoFrame.

Definition Contains (f : Z) (s : ordered_set) : bool := n_linked (nodes s f).

Definition Priority (f : Z) : Z :=
  let value := u64 (f + 0x9e3779b97f4a7c15) in
  let value := u64 (Z.lxor value (Z.shiftr value 30) * 0xbf58476d1ce4e5b9) in
  let value := u64 (Z.lxor value (Z.shiftr value 27) * 0x94d049bb133111eb) in
  Z.lxor value (Z.shiftr value 31).

Definition Less (s : ordered_set) (a b : Z) : bool :=
  (n_key (nodes s a) <? n_key (nodes s b)) || ((n_key (nodes s a) =? n_key (nodes s b)) && (a <? b)).

Definition Replace (f replacement : Z) (s : ordered_set) : ordered_set :=
  let parent := n_parent (nodes s f) in
  let s :=
    if parent =? kNoFrame then OSet (nodes s) replacement
    else if n_left (nodes s parent) =? f then upd_node parent (set_left replacement) s
    else upd_node parent (set_right replacement) s in
  if negb (replacement =? kNoFrame) then upd_node replacement (set_parent parent) s else s.

Definition Rotate (f : Z) (s : ordered_set) : ordered_set :=
  let parent := n_parent (nodes s f) in
  let s := Replace parent f s in
  let s :=
    if n_left (nodes s parent) =? f then
      let s := upd_node parent (set_left (n_right (nodes s f))) s in
      let s := if negb (n_right (nodes s f) =? kNoFrame)
               then upd_node (n_right (nodes s f)) (set_parent parent) s else s in
      upd_node f (set_right parent) s
    else
      let s := upd_node parent (set_right (n_left (nodes s f))) s in
      let s := if negb (n_left (nodes s f) =? kNoFrame)
               then upd_node (n_left (nodes s f)) (set_parent parent) s else s in
      upd_node f (set_left parent) s in
  upd_node parent (set_parent f) s.

(** What [FrameId *link] points to. *)
Inductive link := RootLink | LeftLink (p : Z) | RightLink (p : Z).

Definition read_link (l : link) (s : ordered_set) : Z :=
  match l with RootLink => root s | LeftLink p => n_left (nodes s p) | RightLink p => n_right (nodes s p) end.
Definition write_link (l : link) (f : Z) (s : ordered_set) : ordered_set :=
  match l with
  | RootLink => OSet (nodes s) f
  | LeftLink p => upd_node p (set_left f) s
  | RightLink p => upd_node p (set_right f) s
  end.

Fixpoint descend (fuel : nat) (f parent : Z) (l : link) (s : ordered_set) : option (Z * link) :=
  match fuel with
  | O => None
  | S fuel =>
      let c := read_link l s in
      if c =? kNoFrame then Some (parent, l)
      else descend fuel f c (if Less s f c then LeftLink c else RightLink c) s
  end.

Fixpoint lift (fuel : nat) (f : Z) (s : ordered_set) : option ordered_set :=
  match fuel with
  | O => None
  | S fuel =>
      let parent := n_parent (nodes s f) in
      if negb (parent =? kNoFrame) && (Priority parent <? Priority f)
      then lift fuel f (Rotate f s) else Some s
  end.

Definition Insert (fuel : nat) (f key : Z) (s : ordered_set) : option ordered_set :=
  let s := OSet (<[f := Node key kNoFrame kNoFrame kNoFrame true]> (nodes s)) (root s) in
  '(parent, l) ← descend fuel f kNoFrame RootLink s;
  lift fuel f (upd_node f (set_parent parent) (write_link l f s)).

Fixpoint sink (fuel : nat) (f : Z) (s : ordered_set) : option ordered_set :=
  match fuel with
  | O => None
  | S fuel =>
      let left := n_left (nodes s f) in
      let right := n_right (nodes s f) in
      if negb (left =? kNoFrame) || negb (right =? kNoFrame) then
        let child := if left =? kNoFrame then right
                     else if right =? kNoFrame then left
                     else if Priority right <? Priority left then left else right in
        sink fuel f (Rotate child s)
      else Some s
  end.

Definition Erase (fuel : nat) (f : Z) (s : ordered_set) : option ordered_set :=
  if negb (n_linked (nodes s f)) then Some s
  else s ← sink fuel f s; Some (upd_node f (set_linked false) (Replace f kNoFrame s)).

Fixpoint extreme_loop (fuel : nat) (f : Z) (leftmost : bool) (s : ordered_set) : option Z :=
  match fuel with
  | O => None
  | S fuel =>
      let child := if leftmost then n_left (nodes s f) else n_right (nodes s f) in
      if child =? kNoFrame then Some f else extreme_loop fuel child leftmost s
  end.

Definition Extreme (fuel : nat) (f : Z) (leftmost : bool) (s : ordered_set) : option Z :=
  if f =? kNoFrame then Some kNoFrame else extreme_loop fuel f leftmost s.

Fixpoint climb (fuel : nat) (f parent : Z) (forward : bool) (s : ordered_set) : option Z :=
  match fuel with
  | O => None
  | S fuel =>
      if negb (parent =? kNoFrame) &&
         (f =? if forward then n_right (nodes s parent) else n_left (nodes s parent))
      then climb fuel parent (n_parent (nodes s parent)) forward s
      else Some parent
  end.

Definition Step (fuel : nat) (f : Z) (forward : bool) (s : ordered_set) : option Z :=
  let child := if forward then n_right (nodes s f) else n_left (nodes s f) in
  if negb (child =? kNoFrame) then Extreme fuel child forward s
  else climb fuel f (n_parent (nodes s f)) forward s.

Definition First (fuel : nat) (s : ordered_set) : option Z := Extreme fuel (root s) true s.
Definition Last (fuel : nat) (s : ordered_set) : option Z := Extreme fuel (root s) false s.
Definition Next (fuel : nat) (f : Z) (s : ordered_set) : option Z := Step fuel f true s.
Definition Previous (fuel : nat) (f : Z) (s : ordered_set) : option Z := Step fuel f false s.

(** [for (c = First(); c != kNone; c = Next(c)) if (probe(c)) return c] and the
    same from the other end. *)
Fixpoint walk (rounds fuel : nat) (forward : bool) (probe : Z -> bool) (c : Z) (s : ordered_set) : option (option Z) :=
  match rounds with
  | O => None
  | S rounds =>
      if c =? kNoFrame then Some None
      else if probe c then Some (Some c)
      else c ← Step fuel c forward s; walk rounds fuel forward probe c s
  end.

Definition PickFrom (fuel : nat) (forward : bool) (probe : Z -> bool) (s : ordered_set) : option (option Z) :=
  c ← Extreme fuel (root s) forward s; walk fuel fuel forward probe c s.

(** One split of a list at an element it has once. *)
Lemma split_nodup (l1 l2 l1' l2' : list Z) f :
  l1 ++ f :: l2 = l1' ++ f :: l2' -> NoDup (l1' ++ f :: l2') -> l2 = l2'.
Proof.
  revert l1'. induction l1 as [|a l1 IH]; intros [|a' l1'] E Hnd; simplify_eq/=; try done.
  - apply list.NoDup_cons in Hnd as [Hnd _]. set_solver.
  - apply list.NoDup_cons in Hnd as [Hnd _]. set_solver.
  - apply list.NoDup_cons in Hnd as [_ Hnd]. by eapply IH.
Qed.

(** ** Trees and places in them *)

Inductive tree := Leaf | Fork (l : tree) (f : Z) (r : tree).

Fixpoint inorder (t : tree) : list Z :=
  match t with Leaf => [] | Fork l f r => inorder l ++ f :: inorder r end.

Definition top (t : tree) : Z := match t with Leaf => kNoFrame | Fork _ f _ => f end.

(** The way up from a place: was it a left child, under which frame, next to
    which sibling. *)
Definition place := list (bool * Z * tree).

Definition up (k : place) : Z := match k with [] => kNoFrame | (_, p, _) :: _ => p end.

Fixpoint before (k : place) : list Z :=
  match k with
  | [] => []
  | (true, _, _) :: k => before k
  | (false, p, s) :: k => before k ++ inorder s ++ [p]
  end.
Fixpoint after (k : place) : list Z :=
  match k with
  | [] => []
  | (true, p, s) :: k => p :: inorder s ++ after k
  | (false, _, _) :: k => after k
  end.

Definition whole (k : place) (t : tree) : list Z := before k ++ inorder t ++ after k.

Section Sets.
Context (K : Z -> Z).

(** The nodes of a subtree under [p], and of a place whose hole points to [c]. *)
Fixpoint tree_at (ns : Z -> node) (p : Z) (t : tree) : Prop :=
  match t with
  | Leaf => True
  | Fork l f r => 0 <= f < kNoFrame /\ ns f = Node (K f) (top l) (top r) p true /\ tree_at ns f l /\ tree_at ns f r
  end.

Fixpoint place_at (ns : Z -> node) (rt c : Z) (k : place) : Prop :=
  match k with
  | [] => rt = c
  | (b, p, s) :: k => 0 <= p < kNoFrame /\
      ns p = Node (K p) (if b : bool then c else top s) (if b then top s else c) (up k) true /\
      tree_at ns p s /\ place_at ns rt p k
  end.

Definition zipped (s : ordered_set) (k : place) (t : tree) : Prop :=
  tree_at (nodes s) (up k) t /\ place_at (nodes s) (root s) (top t) k /\ NoDup (whole k t).

Definition less (a b : Z) : Prop := K a < K b \/ K a = K b /\ a < b.

Definition is_set (s : ordered_set) (l : list Z) : Prop :=
  exists t, zipped s [] t /\ inorder t = l /\ StronglySorted less l.

(** ** Moving about *)

Definition on (k : place) : list Z := before k ++ after k.

Lemma whole_perm k t : whole k t ≡ₚ inorder t ++ on k.
Proof. unfold whole, on. rewrite !app_assoc. f_equiv. apply Permutation_app_comm. Qed.

Lemma elem_of_on g b p s k : g ∈ on ((b, p, s) :: k) <-> g = p \/ g ∈ inorder s \/ g ∈ on k.
Proof. unfold on. destruct b; cbn; set_solver. Qed.

Lemma on_nodup b p s k : NoDup (on ((b, p, s) :: k)) -> p ∉ inorder s /\ p ∉ on k.
Proof.
  intros Hnd. unfold on in Hnd. destruct b; cbn in Hnd.
  - apply list.NoDup_app in Hnd as (_ & H1 & H2). apply list.NoDup_cons in H2 as [H2 _]. unfold on. set_solver.
  - apply list.NoDup_app in Hnd as (H1 & H2 & _). apply list.NoDup_app in H1 as (_ & H3 & H4).
    apply list.NoDup_app in H4 as (_ & H4 & _). unfold on. set_solver.
Qed.

Definition grow (b : bool) (p : Z) (s t : tree) : tree := if b then Fork t p s else Fork s p t.

Lemma whole_grow b p s k t : whole ((b, p, s) :: k) t = whole k (grow b p s t).
Proof. unfold whole. destruct b; cbn; by rewrite <- !app_assoc. Qed.

(** Taking a subtree into the focus, or leaving it. *)
Lemma zipped_grow s b p sib k t : zipped s ((b, p, sib) :: k) t <-> zipped s k (grow b p sib t).
Proof. unfold zipped. rewrite whole_grow. destruct b; cbn; tauto. Qed.

Lemma zipped_nodup s k t : zipped s k t ->
  NoDup (inorder t) /\ NoDup (on k) /\ forall g, g ∈ inorder t -> g ∉ on k.
Proof. intros (_ & _ & Hnd). rewrite whole_perm in Hnd. apply list.NoDup_app in Hnd as (? & ? & ?). auto. Qed.

Lemma top_in t : t = Leaf /\ top t = kNoFrame \/ top t ∈ inorder t.
Proof. destruct t; [by left|right]. cbn. set_solver. Qed.

Lemma tree_node ns p t g : tree_at ns p t -> g ∈ inorder t ->
  0 <= g < kNoFrame /\ n_key (ns g) = K g /\ n_linked (ns g) = true.
Proof.
  revert p. induction t as [|l IHl f r IHr]; intros p; cbn; [set_solver|].
  intros (Hf & E & Hl & Hr) Hg. apply elem_of_app in Hg as [Hg|Hg]; [by eapply IHl|].
  apply elem_of_cons in Hg as [->|Hg]; [|by eapply IHr]. by rewrite E.
Qed.

Lemma place_node ns rt c k g : place_at ns rt c k -> g ∈ on k ->
  0 <= g < kNoFrame /\ n_key (ns g) = K g /\ n_linked (ns g) = true.
Proof.
  revert c. induction k as [|[[b p] s] k IH]; intros c; [set_solver|]. intros (Hp & E & Hs & Hk) Hg.
  apply elem_of_on in Hg as [->|[Hg|Hg]]; [by rewrite E|by eapply tree_node|by eapply IH].
Qed.

Lemma zipped_node s k t g : zipped s k t -> g ∈ whole k t ->
  0 <= g < kNoFrame /\ n_key (nodes s g) = K g /\ n_linked (nodes s g) = true.
Proof.
  intros (Ht & Hk & _) Hg. rewrite whole_perm, elem_of_app in Hg.
  destruct Hg; [by eapply tree_node|by eapply place_node].
Qed.

Lemma tree_ext ns ns' p t : tree_at ns p t -> (forall g, g ∈ inorder t -> ns' g = ns g) -> tree_at ns' p t.
Proof.
  revert p. induction t as [|l IHl f r IHr]; intros p; [done|]. cbn. intros (Hf & E & Hl & Hr) Hx.
  split; [done|]. split; [rewrite Hx by set_solver; done|]. split; [apply IHl|apply IHr]; try done; set_solver.
Qed.

(** A subtree hung under another frame. *)
Lemma tree_move ns ns' p p' t :
  tree_at ns p t -> NoDup (inorder t) -> (forall g, g ∈ inorder t -> g <> top t -> ns' g = ns g) ->
  (t <> Leaf -> ns' (top t) = set_parent p' (ns (top t))) -> tree_at ns' p' t.
Proof.
  destruct t as [|l f r]; [done|]. cbn [tree_at inorder top]. intros (Hf & E & Hl & Hr) Hnd Hx Hf'.
  apply list.NoDup_app in Hnd as (_ & Hlr & Hnd). apply list.NoDup_cons in Hnd as [Hnf _].
  split; [done|]. split; [rewrite Hf' by done; by rewrite E|].
  split; (eapply tree_ext; [done|]); intros g Hg; apply Hx; try set_solver.
Qed.

Lemma place_ext ns ns' rt c k : place_at ns rt c k -> (forall g, g ∈ on k -> ns' g = ns g) -> place_at ns' rt c k.
Proof.
  revert c. induction k as [|[[b p] s] k IH]; intros c; [done|]. cbn [place_at]. intros (Hp & E & Hs & Hk) Hx.
  setoid_rewrite elem_of_on in Hx. split; [done|]. split; [by rewrite Hx by auto|].
  split; [eapply tree_ext; [done|]; intros; apply Hx; auto|]. apply IH; [done|]. intros; apply Hx; auto.
Qed.

(** [Replace] in the focus's place. *)
Lemma replace_spec s c d k :
  place_at (nodes s) (root s) c k -> n_parent (nodes s c) = up k -> 0 <= c < kNoFrame -> c ∉ on k -> NoDup (on k) ->
  d ∉ on k ->
  let s' := Replace c d s in
  place_at (nodes s') (root s') d k /\
  forall g, g ∉ on k -> nodes s' g = if decide (g = d /\ d <> kNoFrame) then set_parent (up k) (nodes s g) else nodes s g.
Proof.
  intros Hk Hup Hc Hck Hnd Hdk. unfold Replace. rewrite Hup. cbv zeta.
  assert (forall s1, (forall g, g ∉ on k -> nodes s1 g = nodes s g) -> place_at (nodes s1) (root s1) d k ->
    let s' := if negb (d =? kNoFrame) then upd_node d (set_parent (up k)) s1 else s1 in
    place_at (nodes s') (root s') d k /\
    forall g, g ∉ on k -> nodes s' g = if decide (g = d /\ d <> kNoFrame) then set_parent (up k) (nodes s g) else nodes s g) as Hfin.
  { intros s1 Ho Hp. destruct (Z.eqb_spec d kNoFrame) as [->|Hd]; cbn [negb].
    - split; [done|]. intros g Hg. rewrite decide_False by naive_solver. auto.
    - split.
      + eapply place_ext; [done|]. intros g Hg. cbn. rewrite fn_lookup_insert_ne; [done|]. intros ->. done.
      + intros g Hg. cbn. destruct (decide (g = d)) as [->|Hne].
        * rewrite fn_lookup_insert, decide_True by done. by rewrite Ho.
        * rewrite fn_lookup_insert_ne by done. rewrite decide_False by naive_solver. auto. }
  destruct k as [|[[b p] sib] k]; cbn [up] in *.
  - rewrite Z.eqb_refl. by apply Hfin.
  - destruct Hk as (Hp & E & Hs & Hk). destruct (Z.eqb_spec p kNoFrame); [lia|].
    destruct (on_nodup _ _ _ _ Hnd) as [Hps Hpk].
    assert (forall g, nodes s p = Node (K p) (if b then c else top sib) (if b then top sib else c) (up k) true ->
      g (nodes s p) = Node (K p) (if b then d else top sib) (if b then top sib else d) (up k) true ->
      place_at (nodes (upd_node p g s)) (root s) d ((b, p, sib) :: k)) as Hput.
    { intros g _ Eg. cbn [place_at nodes upd_node]. split; [done|]. split; [by rewrite fn_lookup_insert|].
      split; [eapply tree_ext; [done|]|eapply place_ext; [done|]]; intros h Hh; rewrite fn_lookup_insert_ne; congruence. }
    assert (forall g h, h ∉ on ((b, p, sib) :: k) -> nodes (upd_node p g s) h = nodes s h) as Hout.
    { intros g h Hh. rewrite elem_of_on in Hh. cbn. rewrite fn_lookup_insert_ne; [done|]. naive_solver. }
    rewrite E. cbn [n_left]. destruct b.
    + rewrite Z.eqb_refl. apply Hfin; [by apply Hout|]. apply Hput; [done|]. by rewrite E.
    + destruct (Z.eqb_spec (top sib) c) as [Ec|_].
      { exfalso. apply Hck. apply elem_of_on. destruct (top_in sib) as [[_ Et]|Hin]; [lia|]. rewrite Ec in Hin. auto. }
      apply Hfin; [by apply Hout|]. apply Hput; [done|]. by rewrite E.
Qed.

(** ** Rotations *)

(** The child of [f] that changes sides hangs under [p]. *)
Definition hang (c p : Z) (s : ordered_set) : ordered_set :=
  if negb (c =? kNoFrame) then upd_node c (set_parent p) s else s.

Lemma hang_nodes c p s g : nodes (hang c p s) g =
  if decide (g = c /\ c <> kNoFrame) then set_parent p (nodes s g) else nodes s g.
Proof.
  unfold hang. destruct (Z.eqb_spec c kNoFrame) as [->|Hc]; cbn [negb].
  - by rewrite decide_False by naive_solver.
  - cbn. destruct (decide (g = c)) as [->|Hne].
    + by rewrite fn_lookup_insert, decide_True.
    + rewrite fn_lookup_insert_ne by done. by rewrite decide_False by naive_solver.
Qed.

(** The facts a rotation starts from. *)
Lemma rotate_start s k b l f r p sib :
  zipped s k (grow b p sib (Fork l f r)) ->
  nodes s f = Node (K f) (top l) (top r) p true /\ f <> p /\ f <> kNoFrame /\ p <> kNoFrame /\
  let s1 := Replace p f s in
  nodes s1 p = Node (K p) (if b then f else top sib) (if b then top sib else f) (up k) true /\
  nodes s1 f = Node (K f) (top l) (top r) (up k) true /\
  place_at (nodes s1) (root s1) f k /\
  (forall g, g ∉ f :: on k -> nodes s1 g = nodes s g).
Proof.
  intros Hz. destruct (zipped_nodup _ _ _ Hz) as (Hnd & Hon & Hdisj). destruct Hz as (Ht & Hk & _).
  assert (0 <= p < kNoFrame /\ nodes s p = Node (K p) (if b then f else top sib) (if b then top sib else f) (up k) true /\
    0 <= f < kNoFrame /\ nodes s f = Node (K f) (top l) (top r) p true) as (Hp & Ep & Hf & Ef) by (destruct b; cbn in Ht; tauto).
  assert (f <> p) as Hne.
  { intros ->. rewrite Ep in Ef. destruct b; cbn in Hnd; rewrite ?list.NoDup_app, ?list.NoDup_cons in Hnd; set_solver. }
  assert (p ∉ on k /\ f ∉ on k) as [Hpk Hfk] by (split; apply Hdisj; destruct b; cbn; set_solver).
  split; [done|]. split; [done|]. split; [lia|]. split; [lia|].
  assert (top (grow b p sib (Fork l f r)) = p) as Etop by (by destruct b). rewrite Etop in Hk.
  destruct (replace_spec s p f k Hk) as [Hk' Hn]; try done; [by rewrite Ep|].
  cbv zeta. split_and!; [| |done|].
  - rewrite Hn by done. rewrite decide_False by naive_solver. done.
  - rewrite Hn by done. rewrite decide_True by (split; [done|lia]). by rewrite Ef.
  - intros g Hg. apply not_elem_of_cons in Hg as [Hg1 Hg2]. rewrite Hn by done. by rewrite decide_False by naive_solver.
Qed.

Lemma nodup_fork l f r : NoDup (inorder (Fork l f r)) <->
  NoDup (inorder l) /\ NoDup (inorder r) /\ f ∉ inorder l /\ f ∉ inorder r /\ forall g, g ∈ inorder l -> g ∉ inorder r.
Proof. cbn. rewrite list.NoDup_app, list.NoDup_cons. set_solver. Qed.


(** The nodes after a rotation; [b] says that [f] was the left child of [p]. *)
Lemma rotate_nodes s f p b :
  n_parent (nodes s f) = p -> f <> p ->
  let s1 := Replace p f s in
  (n_left (nodes s1 p) =? f) = b ->
  let c := if b then n_right (nodes s1 f) else n_left (nodes s1 f) in
  c <> f -> c <> p ->
  root (Rotate f s) = root s1 /\
  nodes (Rotate f s) p = set_parent f ((if b then set_left c else set_right c) (nodes s1 p)) /\
  nodes (Rotate f s) f = (if b then set_right p else set_left p) (nodes s1 f) /\
  forall g, g <> f -> g <> p ->
    nodes (Rotate f s) g = if decide (g = c /\ c <> kNoFrame) then set_parent p (nodes s1 g) else nodes s1 g.
Proof.
  intros Ep Hne. cbv zeta. intros Eb Hcf Hcp.
  assert (Rotate f s = upd_node p (set_parent f) (upd_node f (if b then set_right p else set_left p)
    (hang (if b then n_right (nodes (Replace p f s) f) else n_left (nodes (Replace p f s) f)) p
      (upd_node p (if b then set_left (n_right (nodes (Replace p f s) f))
                   else set_right (n_left (nodes (Replace p f s) f))) (Replace p f s))))) as ->.
  { unfold Rotate, hang. rewrite Ep. cbv zeta. rewrite Eb. destruct b; cbn [nodes upd_node];
      by rewrite fn_lookup_insert_ne by congruence. }
  set (s1 := Replace p f s) in *. set (c := if b then _ else _) in *.
  set (s2 := upd_node p _ s1). set (s3 := hang c p s2).
  assert (nodes s3 p = (if b then set_left c else set_right c) (nodes s1 p)) as E3p.
  { unfold s3. rewrite hang_nodes, decide_False by naive_solver. unfold s2. cbn. rewrite fn_lookup_insert. by destruct b. }
  assert (nodes s3 f = nodes s1 f) as E3f.
  { unfold s3. rewrite hang_nodes, decide_False by naive_solver. unfold s2. cbn. by rewrite fn_lookup_insert_ne. }
  split; [unfold s3, hang; by destruct (negb _)|]. cbn [nodes upd_node].
  split; [by rewrite fn_lookup_insert, fn_lookup_insert_ne, E3p|].
  split; [rewrite fn_lookup_insert_ne, fn_lookup_insert by done; by rewrite E3f|].
  intros g Hgf Hgp. rewrite !fn_lookup_insert_ne by done. unfold s3. rewrite hang_nodes. unfold s2. cbn.
  by rewrite fn_lookup_insert_ne.
Qed.

(** A subtree after [f] has turned above its parent [p]. *)
Definition turned (b : bool) (l : tree) (f : Z) (r : tree) (p : Z) (sib : tree) : tree :=
  if b then Fork l f (Fork r p sib) else Fork (Fork sib p l) f r.

Lemma whole_turned k b l f r p sib : whole k (turned b l f r p sib) = whole k (grow b p sib (Fork l f r)).
Proof. unfold whole, turned. destruct b; cbn; rewrite <- ?app_assoc; cbn; by rewrite <- ?app_assoc. Qed.

(** Trees and the place around after a rotation. *)
Lemma rotate_spec s k b l f r p sib :
  zipped s k (grow b p sib (Fork l f r)) ->
  zipped (Rotate f s) k (turned b l f r p sib) /\
  forall g, g ∉ whole k (grow b p sib (Fork l f r)) -> nodes (Rotate f s) g = nodes s g.
Proof.
  intros Hz. destruct (rotate_start s k b l f r p sib Hz) as (Ef & Hne & Hf & Hp & Ep1 & Ef1 & Hk1 & Ho1).
  destruct (zipped_nodup _ _ _ Hz) as (Hnd & Hon & Hdisj). destruct Hz as (Ht & Hk & Hw).
  set (inner := if b then r else l). set (outer := if b then l else r).
  assert (forall g, g ∈ inorder (grow b p sib (Fork l f r)) <-> g = f \/ g = p \/ g ∈ inorder inner \/ g ∈ inorder outer \/ g ∈ inorder sib) as Hel.
  { intros g. unfold inner, outer. destruct b; cbn; set_solver. }
  assert (NoDup (inorder inner) /\ f ∉ inorder inner /\ p ∉ inorder inner /\ f ∉ inorder outer /\ p ∉ inorder outer /\
    f ∉ inorder sib /\ p ∉ inorder sib /\ (forall g, g ∈ inorder inner -> g ∉ inorder outer /\ g ∉ inorder sib)) as
    (Hni & Hfi & Hpi & Hfo & Hpo & Hfs & Hps & Hio).
  { unfold inner, outer. clear -Hnd K. destruct b; cbn [grow] in Hnd; rewrite !nodup_fork in Hnd; cbn in Hnd.
    - destruct Hnd as ((? & ? & ? & ? & Hlr) & ? & H1 & ? & H2). apply not_elem_of_app in H1 as [? H1].
      apply not_elem_of_cons in H1 as [? ?]. split_and!; try done.
      + apply H2. set_solver.
      + intros g Hg. split; [|apply H2; set_solver]. intros Hl. by apply (Hlr g).
    - destruct Hnd as (? & (? & ? & ? & ? & Hlr) & ? & H1 & H2). apply not_elem_of_app in H1 as [? H1].
      apply not_elem_of_cons in H1 as [? ?]. split_and!; try done.
      + intros Hs. apply (H2 f Hs). set_solver.
      + intros g Hg. split; [by apply Hlr|]. intros Hs. apply (H2 g Hs). set_solver. }
  assert (0 <= p < kNoFrame /\ 0 <= f < kNoFrame /\ tree_at (nodes s) f inner /\ tree_at (nodes s) f outer /\
    tree_at (nodes s) p sib) as (Hpr & Hfr & Hti & Hto & Hts) by (unfold inner, outer; destruct b; cbn in Ht; tauto).
  assert ((n_left (nodes (Replace p f s) p) =? f) = b) as Eb.
  { rewrite Ep1. cbn. destruct b; [apply Z.eqb_refl|]. apply Z.eqb_neq. destruct (top_in sib) as [[_ ->]|Hin]; congruence. }
  assert ((if b then n_right (nodes (Replace p f s) f) else n_left (nodes (Replace p f s) f)) = top inner) as Ec
    by (rewrite Ef1; unfold inner; by destruct b).
  destruct (rotate_nodes s f p b) as (Er & Gp & Gf & Go); [by rewrite Ef|done|done|..];
    rewrite ?Ec in *; try (destruct (top_in inner) as [[_ ->]|Hin]; congruence).
  assert (f ∉ on k /\ p ∉ on k /\ (forall g, g ∈ inorder inner -> g ∉ on k) /\ (forall g, g ∈ inorder outer -> g ∉ on k) /\
    (forall g, g ∈ inorder sib -> g ∉ on k)) as (Hfk & Hpk & Hik & Hok & Hsk).
  { split_and!; intros; apply Hdisj, Hel; tauto. }
  clear Hdisj Hnd Hon Ht. set (s1 := Replace p f s) in *. set (s4 := Rotate f s) in *.
  assert (forall g, g ∉ inorder inner -> ~ (g = top inner /\ top inner <> kNoFrame)) as Hti'.
  { intros g Hg [-> ?]. by destruct (top_in inner) as [[_ ?]|?]. }
  assert (forall g, g ∉ on k -> g <> f -> g <> p -> g ∉ inorder inner -> nodes s4 g = nodes s g) as Hout.
  { intros g Hg Hgf Hgp Hgi. rewrite Go, decide_False by auto. apply Ho1. by apply not_elem_of_cons. }
  assert (tree_at (nodes s4) p inner) as Ti.
  { apply (tree_move (nodes s) _ f); try done.
    - intros g Hg Hgt. rewrite Go, decide_False by (congruence || naive_solver).
      apply Ho1, not_elem_of_cons. split; [congruence|auto].
    - intros Hl. destruct (top_in inner) as [[? _]|Hin]; [done|]. pose proof (tree_node _ _ _ _ Hti Hin) as [? _].
      rewrite Go, decide_True by (congruence || (split; [done|lia])). rewrite Ho1; [done|].
      apply not_elem_of_cons. split; [congruence|auto]. }
  assert (tree_at (nodes s4) f outer) as To.
  { eapply tree_ext; [done|]. intros g Hg. apply Hout; [auto|congruence..|]. intros Hi. by destruct (Hio g Hi). }
  assert (tree_at (nodes s4) p sib) as Ts.
  { eapply tree_ext; [done|]. intros g Hg. apply Hout; [auto|congruence..|]. intros Hi. by destruct (Hio g Hi). }
  split.
  - split; [|split].
    + rewrite Ep1 in Gp. rewrite Ef1 in Gf. unfold inner, outer, turned in *. destruct b; cbn [tree_at]; split_and!; try done; lia.
    + rewrite Er. assert (top (turned b l f r p sib) = f) as -> by (by destruct b).
      eapply place_ext; [exact Hk1|]. intros g Hg. rewrite Go by congruence. rewrite decide_False; [done|].
      apply Hti'. intros Hi. by apply (Hik g).
    + by rewrite whole_turned.
  - intros g Hg. rewrite whole_perm, not_elem_of_app, Hel in Hg. apply Hout; tauto.
Qed.

(** ** Opening and closing a place *)

Lemma zipped_close s k t : zipped s k t -> exists t', zipped s [] t' /\ inorder t' = whole k t.
Proof.
  revert t. induction k as [|[[b p] sib] k IH]; intros t Hz.
  - exists t. split; [done|]. unfold whole. cbn. by rewrite app_nil_r.
  - rewrite whole_grow. by apply IH, zipped_grow.
Qed.

Lemma zipped_open s k t f : zipped s k t -> f ∈ inorder t ->
  exists k' l r, zipped s k' (Fork l f r) /\ whole k' (Fork l f r) = whole k t.
Proof.
  revert k. induction t as [|l IHl g r IHr]; intros k Hz Hf; [by apply not_elem_of_nil in Hf|].
  cbn in Hf. apply elem_of_app in Hf as [Hf|Hf]; [|apply elem_of_cons in Hf as [->|Hf]].
  - destruct (IHl ((true, g, r) :: k)) as (k' & l' & r' & Hz' & E); [by apply zipped_grow|done|].
    exists k', l', r'. split; [done|]. by rewrite E, whole_grow.
  - by exists k, l, r.
  - destruct (IHr ((false, g, l) :: k)) as (k' & l' & r' & Hz' & E); [by apply zipped_grow|done|].
    exists k', l', r'. split; [done|]. by rewrite E, whole_grow.
Qed.

Lemma length_on k : (length k <= length (on k))%nat.
Proof.
  induction k as [|[[b p] sib] k IH]; [done|]. unfold on in *. destruct b; cbn; rewrite ?length_app in *; cbn in *;
    rewrite ?length_app in *; cbn in *; lia.
Qed.

Lemma length_whole k t : length (whole k t) = (length (inorder t) + length (on k))%nat.
Proof. by rewrite (Permutation_length (whole_perm k t)), length_app. Qed.

(** The links changed by an operation on the frames [l]. *)
Definition only_in (l : list Z) (s s' : ordered_set) : Prop := forall g, g ∉ l -> nodes s' g = nodes s g.

Lemma only_in_trans l s1 s2 s3 : only_in l s1 s2 -> only_in l s2 s3 -> only_in l s1 s3.
Proof. intros H1 H2 g Hg. rewrite H2, H1 by done. done. Qed.

Lemma lift_spec fuel s k l f r :
  zipped s k (Fork l f r) -> (length k < fuel)%nat ->
  exists s' t', lift fuel f s = Some s' /\ zipped s' [] t' /\ inorder t' = whole k (Fork l f r) /\
    only_in (whole k (Fork l f r)) s s'.
Proof.
  revert s k l r. induction fuel as [|fuel IH]; intros s k l r Hz Hk; [lia|]. cbn [lift].
  assert (n_parent (nodes s f) = up k) as -> by (destruct Hz as ((_ & -> & _) & _); done).
  destruct (negb _ && _) eqn:Ec.
  - destruct k as [|[[b p] sib] k]; [cbn in Ec; by rewrite Z.eqb_refl in Ec|].
    rewrite zipped_grow in Hz. destruct (rotate_spec s k b l f r p sib Hz) as [Hz' Ho].
    rewrite whole_grow. pose proof (whole_turned k b l f r p sib) as Ew. rewrite <- Ew in Ho |- *. cbn in Hk. destruct b.
    + destruct (IH _ _ _ _ Hz' ltac:(lia)) as (s' & t' & El & Hz2 & Ei & Ho2). exists s', t'.
      split_and!; try done. by eapply only_in_trans.
    + destruct (IH _ _ _ _ Hz' ltac:(lia)) as (s' & t' & El & Hz2 & Ei & Ho2). exists s', t'.
      split_and!; try done. by eapply only_in_trans.
  - destruct (zipped_close _ _ _ Hz) as (t' & Hz' & Ei). by exists s, t'.
Qed.

Lemma sink_spec fuel s k l f r :
  zipped s k (Fork l f r) -> (length (inorder l) + length (inorder r) < fuel)%nat ->
  exists s' k', sink fuel f s = Some s' /\ zipped s' k' (Fork Leaf f Leaf) /\
    whole k' (Fork Leaf f Leaf) = whole k (Fork l f r) /\ only_in (whole k (Fork l f r)) s s'.
Proof.
  revert s k l r. induction fuel as [|fuel IH]; intros s k l r Hz Hk; [lia|]. cbn [sink].
  assert (nodes s f = Node (K f) (top l) (top r) (up k) true /\ tree_at (nodes s) f l /\ tree_at (nodes s) f r) as (-> & Hl & Hr)
    by (destruct Hz as ((_ & -> & ? & ?) & _); done).
  cbn [n_left n_right].
  assert (forall b c l1 l2 sib, grow b f sib (Fork l1 c l2) = Fork l f r -> (length (inorder (if b then l2 else l1)) +
    length (inorder sib) < fuel)%nat ->
    exists s' k', sink fuel f (Rotate c s) = Some s' /\ zipped s' k' (Fork Leaf f Leaf) /\
      whole k' (Fork Leaf f Leaf) = whole k (Fork l f r) /\ only_in (whole k (Fork l f r)) s s') as Hgo.
  { intros b c l1 l2 sib Eg Hsz. rewrite <- Eg in Hz |- *. destruct (rotate_spec s k b l1 c l2 f sib Hz) as [Hz' Ho].
    pose proof (whole_turned k b l1 c l2 f sib) as Ew. rewrite <- Ew in Ho |- *. destruct b.
    - apply (zipped_grow (Rotate c s) false c l1 k (Fork l2 f sib)) in Hz'.
      destruct (IH _ _ _ _ Hz' Hsz) as (s' & k' & Es & Hz2 & Ew2 & Ho2). rewrite whole_grow in Ew2, Ho2.
      exists s', k'. split_and!; try done. by eapply only_in_trans.
    - apply (zipped_grow (Rotate c s) true c l2 k (Fork sib f l1)) in Hz'.
      destruct (IH _ _ _ _ Hz' ltac:(lia)) as (s' & k' & Es & Hz2 & Ew2 & Ho2). rewrite whole_grow in Ew2, Ho2.
      exists s', k'. split_and!; try done. by eapply only_in_trans. }
  destruct l as [|l1 c l2], r as [|r1 d r2]; cbn [top] in *.
  - rewrite !Z.eqb_refl. cbn [negb orb]. by exists s, k.
  - destruct Hr as (Hd & _). rewrite Z.eqb_refl. destruct (Z.eqb_spec d kNoFrame); [lia|]. cbn [negb orb].
    apply (Hgo false d r1 r2 Leaf); [done|]. cbn in *. rewrite length_app in Hk. cbn in Hk. lia.
  - destruct Hl as (Hc & _). rewrite Z.eqb_refl. destruct (Z.eqb_spec c kNoFrame); [lia|]. cbn [negb orb].
    apply (Hgo true c l1 l2 Leaf); [done|]. cbn in *. rewrite length_app in Hk. cbn in Hk. lia.
  - destruct Hl as (Hc & _), Hr as (Hd & _). destruct (Z.eqb_spec c kNoFrame); [lia|].
    destruct (Z.eqb_spec d kNoFrame); [lia|]. cbn [negb orb]. destruct (_ <? _).
    + apply (Hgo true c l1 l2 (Fork r1 d r2)); [done|]. cbn in *. rewrite !length_app in *. cbn in *. lia.
    + apply (Hgo false d r1 r2 (Fork l1 c l2)); [done|]. cbn in *. rewrite !length_app in *. cbn in *. lia.
Qed.

(** ** Removal *)

Lemma zipped_leaf s k f : zipped s k (Fork Leaf f Leaf) ->
  let s' := upd_node f (set_linked false) (Replace f kNoFrame s) in
  zipped s' k Leaf /\ only_in (whole k (Fork Leaf f Leaf)) s s' /\ n_linked (nodes s' f) = false.
Proof.
  intros Hz. destruct (zipped_nodup _ _ _ Hz) as (_ & Hon & Hdisj). destruct Hz as ((Hf & Ef & _) & Hk & _).
  assert (f ∉ on k) as Hfk by (apply Hdisj; cbn; set_solver).
  destruct (replace_spec s f kNoFrame k Hk) as [Hk' Hn]; try done; [by rewrite Ef| |].
  { intros Hin. pose proof (place_node _ _ _ _ _ Hk Hin) as [? _]. lia. }
  cbv zeta. split; [|split].
  - split; [done|]. split; [|by rewrite whole_perm]. cbn [root upd_node nodes top].
    eapply place_ext; [exact Hk'|]. intros g Hg. rewrite fn_lookup_insert_ne; [done|]. congruence.
  - intros g Hg. rewrite whole_perm in Hg. cbn in Hg. apply not_elem_of_cons in Hg as [Hgf Hgk].
    cbn. rewrite fn_lookup_insert_ne, Hn by done. by rewrite decide_False by naive_solver.
  - cbn. by rewrite fn_lookup_insert.
Qed.

Lemma sorted_without l f : StronglySorted less l -> StronglySorted less (without f l).
Proof.
  induction 1 as [|g l Hs IH Hg]; [constructor|]. unfold without in *. cbn. destruct (decide _); [|done].
  constructor; [done|]. rewrite list.Forall_forall in Hg |- *. intros h Hh. apply Hg.
  by apply list_elem_of_filter in Hh as [_ ?].
Qed.

Lemma erase_spec fuel s l f :
  is_set s l -> f ∈ l -> (length l <= fuel)%nat ->
  exists s', Erase fuel f s = Some s' /\ is_set s' (without f l) /\ only_in l s s' /\ n_linked (nodes s' f) = false.
Proof.
  intros (t & Hz & <- & Hs) Hf Hl. destruct (zipped_open s [] t f Hz Hf) as (k & tl & tr & Hz1 & Ew).
  assert (whole [] t = inorder t) as Et by (unfold whole; cbn; by rewrite app_nil_r). rewrite Et in Ew.
  unfold Erase. assert (n_linked (nodes s f) = true) as -> by (eapply tree_node; [apply Hz|done]). cbn [negb].
  assert (length (inorder tl) + length (inorder tr) < fuel)%nat as Hsz.
  { rewrite <- Ew, length_whole in Hl. cbn in Hl. rewrite length_app in Hl. cbn in Hl. lia. }
  destruct (sink_spec fuel s k tl f tr Hz1 Hsz) as (s1 & k1 & -> & Hz2 & Ew2 & Ho1). cbn [mbind option_bind].
  destruct (zipped_leaf s1 k1 f Hz2) as (Hz3 & Ho2 & Hu). eexists. split; [done|].
  rewrite Ew2, Ew in Ho2. rewrite Ew in Ho1. split; [|split; [by eapply only_in_trans|done]].
  destruct (zipped_close _ _ _ Hz3) as (t' & Hz4 & Et'). exists t'. split; [done|].
  assert (inorder t' = without f (inorder t)) as E; [|split; [done|by apply sorted_without]].
  destruct (zipped_nodup _ _ _ Hz2) as (_ & _ & Hd). specialize (Hd f ltac:(cbn; set_solver)).
  unfold on in Hd. apply not_elem_of_app in Hd as [? ?].
  rewrite Et', <- Ew, <- Ew2. unfold whole. cbn. by rewrite without_middle.
Qed.

Lemma erase_absent fuel s f : n_linked (nodes s f) = false -> Erase fuel f s = Some s.
Proof. unfold Erase. by intros ->. Qed.

(** ** Insertion *)

Lemma less_trans a b c : less a b -> less b c -> less a c.
Proof. unfold less. lia. Qed.

Lemma less_total a b : a <> b -> ~ less a b -> less b a.
Proof. unfold less. lia. Qed.

Lemma less_spec s a b : n_key (nodes s a) = K a -> n_key (nodes s b) = K b -> Less s a b = true <-> less a b.
Proof.
  intros Ea Eb. unfold Less, less. rewrite Ea, Eb.
  destruct (Z.ltb_spec (K a) (K b)), (Z.eqb_spec (K a) (K b)), (Z.ltb_spec a b); cbn; intuition lia.
Qed.

Definition link_of (k : place) : link :=
  match k with [] => RootLink | (true, p, _) :: _ => LeftLink p | (false, p, _) :: _ => RightLink p end.

Lemma read_link_of s k c : place_at (nodes s) (root s) c k -> read_link (link_of k) s = c.
Proof. destruct k as [|[[[] p] sib] k]; cbn; [done|..]; by intros (_ & -> & _). Qed.

(** Everything before the place is below [f], everything after is above. *)
Definition fits (f : Z) (k : place) : Prop := Forall (fun a => less a f) (before k) /\ Forall (less f) (after k).

Lemma fits_step s k l c r f :
  zipped s k (Fork l c r) -> StronglySorted less (whole k (Fork l c r)) -> f <> c -> fits f k -> n_key (nodes s f) = K f ->
  if Less s f c then fits f ((true, c, r) :: k) else fits f ((false, c, l) :: k).
Proof.
  intros Hz Hs Hne [Hb Ha] Ef. assert (n_key (nodes s c) = K c) as Ec.
  { eapply zipped_node; [done|]. rewrite whole_perm. cbn. set_solver. }
  unfold whole in Hs. cbn in Hs. apply StronglySorted_app in Hs as (_ & _ & Hs). rewrite <- app_assoc in Hs.
  apply StronglySorted_app in Hs as (Hlc & _ & Hs). cbn in Hs. apply StronglySorted_inv in Hs as [_ Hcr].
  rewrite list.Forall_forall in Hcr. destruct (Less s f c) eqn:El.
  - apply (less_spec s f c Ef Ec) in El. split; [done|]. cbn. constructor; [done|]. apply list.Forall_app. split; [|done].
    apply list.Forall_forall. intros a Hin. eapply less_trans; [exact El|]. apply Hcr. set_solver.
  - assert (less c f) as Hlt.
    { apply less_total; [done|]. intros E. apply (less_spec s f c Ef Ec) in E. congruence. }
    split; [|done]. cbn. apply list.Forall_app. split; [done|]. apply list.Forall_app. split; [|by constructor].
    apply list.Forall_forall. intros a Hin. eapply less_trans; [|exact Hlt]. apply Hlc; set_solver.
Qed.

Lemma descend_spec fuel s k t f :
  zipped s k t -> StronglySorted less (whole k t) -> f ∉ whole k t -> n_key (nodes s f) = K f -> fits f k ->
  (length (inorder t) < fuel)%nat ->
  exists k', descend fuel f (up k) (link_of k) s = Some (up k', link_of k') /\ zipped s k' Leaf /\
    whole k' Leaf = whole k t /\ fits f k'.
Proof.
  revert k t. induction fuel as [|fuel IH]; intros k t Hz Hs Hf Ef Hfit Hl; [lia|]. cbn [descend].
  rewrite (read_link_of s k (top t)) by apply Hz. destruct t as [|l c r]; cbn [top].
  - rewrite Z.eqb_refl. by exists k.
  - assert (0 <= c < kNoFrame) as Hc by (apply Hz). destruct (Z.eqb_spec c kNoFrame); [lia|].
    assert (f <> c) as Hne. { intros ->. apply Hf. rewrite whole_perm. cbn. set_solver. }
    pose proof (fits_step s k l c r f Hz Hs Hne Hfit Ef) as Hfit'. cbn in Hl. rewrite length_app in Hl. cbn in Hl.
    destruct (Less s f c).
    + destruct (IH ((true, c, r) :: k) l) as (k' & Ed & Hz' & Ew & Hk'); rewrite ?whole_grow in *; try done; [by apply zipped_grow|lia|].
      by exists k'.
    + destruct (IH ((false, c, l) :: k) r) as (k' & Ed & Hz' & Ew & Hk'); rewrite ?whole_grow in *; try done; [by apply zipped_grow|lia|].
      by exists k'.
Qed.

Lemma zipped_put s k f :
  zipped s k Leaf -> f ∉ on k -> 0 <= f < kNoFrame -> (exists p, nodes s f = Node (K f) kNoFrame kNoFrame p true) ->
  let s' := upd_node f (set_parent (up k)) (write_link (link_of k) f s) in
  zipped s' k (Fork Leaf f Leaf) /\ only_in (f :: on k) s s'.
Proof.
  intros (_ & Hk & Hnd) Hf Hr (q & Ef). cbv zeta.
  assert (NoDup (whole k (Fork Leaf f Leaf))) as Hnd'.
  { rewrite whole_perm in *. cbn. by apply list.NoDup_cons. }
  destruct k as [|[[b p] sib] k].
  - cbn in Hk |- *. split; [|intros g Hg; apply not_elem_of_cons in Hg as [? _]; cbn; by rewrite fn_lookup_insert_ne].
    split; [|split; [done|done]]. cbn. rewrite fn_lookup_insert, Ef. done.
  - destruct Hk as (Hp & Ep & Hs & Hk). cbn [top] in Ep.
    assert (write_link (link_of ((b, p, sib) :: k)) f s = upd_node p (if b then set_left f else set_right f) s) as -> by (by destruct b).
    assert (f <> p) as Hne by (intros ->; apply Hf, elem_of_on; auto).
    rewrite whole_perm in Hnd. cbn [inorder app] in Hnd.
    destruct (on_nodup _ _ _ _ Hnd) as [Hps Hpk].
    assert (f ∉ inorder sib /\ f ∉ on k) as [Hfs Hfk] by (rewrite elem_of_on in Hf; tauto).
    split.
    + split; [|split; [|done]]; cbn [nodes upd_node up root].
      * cbn. split; [done|]. by rewrite fn_lookup_insert, fn_lookup_insert_ne, Ef.
      * cbn [place_at top]. split; [done|]. split; [|split].
        -- rewrite fn_lookup_insert_ne, fn_lookup_insert, Ep by done. by destruct b.
        -- eapply tree_ext; [done|]. intros g Hg. rewrite !fn_lookup_insert_ne by congruence. done.
        -- eapply place_ext; [done|]. intros g Hg. rewrite !fn_lookup_insert_ne by congruence. done.
    + intros g Hg. rewrite not_elem_of_cons, elem_of_on in Hg. destruct Hg as [Hg1 Hg2]. cbn.
      rewrite !fn_lookup_insert_ne; [done|intros ->; apply Hg2; by left|done].
Qed.

Lemma insert_sorted l1 f l2 :
  StronglySorted less (l1 ++ l2) -> Forall (fun a => less a f) l1 -> Forall (less f) l2 -> StronglySorted less (l1 ++ f :: l2).
Proof.
  intros Hs H1 H2. apply StronglySorted_app in Hs as (H12 & Hs1 & Hs2). rewrite list.Forall_forall in H1.
  apply StronglySorted_app. split_and!; [|done|by constructor].
  intros a b Ha Hb. apply elem_of_cons in Hb as [->|Hb]; [by apply H1|by apply H12].
Qed.

Lemma insert_spec fuel s l f :
  is_set s l -> f ∉ l -> 0 <= f < kNoFrame -> (length l < fuel)%nat ->
  exists s' l1 l2, Insert fuel f (K f) s = Some s' /\ l = l1 ++ l2 /\ is_set s' (l1 ++ f :: l2) /\ only_in (f :: l) s s'.
Proof.
  intros (t & Hz & <- & Hs) Hf Hr Hl. unfold Insert.
  set (s0 := OSet (<[f := Node (K f) kNoFrame kNoFrame kNoFrame true]> (nodes s)) (root s)).
  assert (whole [] t = inorder t) as Et by (unfold whole; cbn; by rewrite app_nil_r).
  assert (zipped s0 [] t) as Hz0.
  { destruct Hz as (Ht & Hk & Hnd). split; [|split; [exact Hk|done]]. eapply tree_ext; [exact Ht|]. intros g Hg.
    unfold s0. cbn. rewrite fn_lookup_insert_ne; [done|]. congruence. }
  assert (nodes s0 f = Node (K f) kNoFrame kNoFrame kNoFrame true) as Ef0 by (unfold s0; cbn; by rewrite fn_lookup_insert).
  destruct (descend_spec fuel s0 [] t f Hz0) as (k & Ed & Hz1 & Ew & Hfit); rewrite ?Et in *; try done; [by rewrite Ef0|].
  cbn [up link_of] in Ed. rewrite Ed. cbn [mbind option_bind].
  assert (f ∉ on k) as Hfk by (intros Hin; apply Hf; rewrite <- Ew, whole_perm; done).
  destruct (zipped_put s0 k f Hz1 Hfk Hr) as [Hz2 Ho2]; [by exists kNoFrame|].
  assert (length k < fuel)%nat as Hlk.
  { pose proof (length_on k). rewrite <- Ew, length_whole in Hl. cbn in Hl. lia. }
  destruct (lift_spec fuel _ k Leaf f Leaf Hz2 Hlk) as (s' & t' & El & Hz3 & Ei & Ho3).
  exists s', (before k), (after k). split; [done|]. split; [by rewrite <- Ew|]. split.
  - exists t'. split; [done|]. split; [done|]. apply insert_sorted; [|apply Hfit..].
    unfold whole in Ew. cbn in Ew. by rewrite Ew.
  - assert (forall g, g ∉ f :: inorder t -> g ∉ f :: on k) as Hsub.
    { intros g. rewrite <- Ew, whole_perm. done. }
    intros g Hg. rewrite Ho3, Ho2 by (try apply Hsub; rewrite ?whole_perm; auto).
    unfold s0. cbn. rewrite fn_lookup_insert_ne; [done|]. set_solver.
Qed.

(** ** Walks *)

Definition along (forward : bool) (l : list Z) : list Z := if forward then l else reverse l.

Lemma along_app b l1 l2 : along b (l1 ++ l2) = if b then along b l1 ++ along b l2 else along b l2 ++ along b l1.
Proof. destruct b; [done|]. apply reverse_app. Qed.

Lemma extreme_spec fuel b s p l f r :
  tree_at (nodes s) p (Fork l f r) -> (length (inorder (Fork l f r)) <= fuel)%nat ->
  extreme_loop fuel f b s = Some (hd kNoFrame (along b (inorder (Fork l f r)))).
Proof.
  revert p l f r. induction fuel as [|fuel IH]; intros p l f r (Hf & Ef & Hl & Hr) Hle;
    [cbn in Hle; rewrite length_app in Hle; cbn in Hle; lia|].
  cbn in Hle. rewrite length_app in Hle. cbn in Hle. cbn [extreme_loop]. rewrite Ef. cbn [n_left n_right inorder].
  destruct b; cbn [along].
  - destruct l as [|l1 c l2]; cbn [top].
    + by rewrite Z.eqb_refl.
    + destruct (Z.eqb_spec c kNoFrame) as [->|_]; [destruct Hl as (? & _); lia|].
      rewrite (IH f l1 c l2 Hl) by lia. cbn. by destruct (inorder l1).
  - destruct r as [|r1 c r2]; cbn [top].
    + rewrite Z.eqb_refl. by rewrite reverse_app.
    + destruct (Z.eqb_spec c kNoFrame) as [->|_]; [destruct Hr as (? & _); lia|].
      rewrite (IH f r1 c r2 Hr) by lia. cbn [along inorder]. rewrite !reverse_app, !reverse_cons, reverse_app, reverse_cons.
      by destruct (reverse (inorder r2)).
Qed.

Lemma Extreme_spec fuel b s p t :
  tree_at (nodes s) p t -> (length (inorder t) <= fuel)%nat ->
  Extreme fuel (top t) b s = Some (hd kNoFrame (along b (inorder t))).
Proof.
  intros Ht Hl. unfold Extreme. destruct t as [|l f r]; cbn [top].
  - rewrite Z.eqb_refl. by destruct b.
  - destruct (Z.eqb_spec f kNoFrame); [destruct Ht as (? & _); lia|]. by eapply extreme_spec.
Qed.

(** The frames that follow a place. *)
Definition ahead (forward : bool) (k : place) : list Z := if forward then after k else reverse (before k).

Lemma climb_spec fuel b s k t :
  zipped s k t -> t <> Leaf -> (length k < fuel)%nat -> climb fuel (top t) (up k) b s = Some (hd kNoFrame (ahead b k)).
Proof.
  revert k t. induction fuel as [|fuel IH]; intros k t Hz Ht Hl; [lia|]. cbn [climb].
  destruct k as [|[[b' p] sib] k]; cbn [up]; [rewrite Z.eqb_refl; by destruct b|].
  pose proof Hz as (_ & (Hp & Ep & Hs & Hk) & _). destruct (Z.eqb_spec p kNoFrame); [lia|]. cbn [negb andb].
  rewrite Ep. cbn [n_left n_right n_parent].
  assert (top t <> top sib) as Hts.
  { destruct (zipped_nodup _ _ _ Hz) as (_ & _ & Hd). destruct (top_in t) as [[? _]|Hin]; [done|].
    specialize (Hd _ Hin). rewrite elem_of_on in Hd. destruct (top_in sib) as [[_ ->]|Hin']; [|intros E; rewrite E in Hd; tauto].
    pose proof (tree_node _ _ _ _ (proj1 Hz) Hin) as [? _]. lia. }
  cbn in Hl. destruct b, b'; cbn [ahead after before].
  - apply Z.eqb_neq in Hts. by rewrite Hts.
  - rewrite Z.eqb_refl. apply (IH k (Fork sib p t)); [by apply (zipped_grow s false)|done|lia].
  - rewrite Z.eqb_refl. apply (IH k (Fork t p sib)); [by apply (zipped_grow s true)|done|lia].
  - apply Z.eqb_neq in Hts. rewrite Hts. by rewrite !reverse_app.
Qed.

Lemma step_spec fuel b s l l1 f l2 :
  is_set s l -> along b l = l1 ++ f :: l2 -> (length l <= fuel)%nat -> Step fuel f b s = Some (hd kNoFrame l2).
Proof.
  intros (t & Hz & <- & Hs) El Hl.
  assert (whole [] t = inorder t) as Et by (unfold whole; cbn; by rewrite app_nil_r).
  assert (f ∈ inorder t) as Hf by (destruct b; cbn in El; [|apply elem_of_reverse]; rewrite El; set_solver).
  destruct (zipped_open s [] t f Hz Hf) as (k & tl & tr & Hz1 & Ew). rewrite Et in Ew.
  pose proof Hz1 as ((Hfr & Ef & Htl & Htr) & _). pose proof (length_on k) as Hok.
  rewrite <- Ew, length_whole in Hl. cbn in Hl. rewrite length_app in Hl. cbn in Hl.
  assert (l2 = along b (inorder (if b then tr else tl)) ++ ahead b k) as ->.
  { assert (NoDup (l1 ++ f :: l2)) as Hnd.
    { rewrite <- El. destruct Hz as (_ & _ & Hnd). rewrite Et in Hnd. destruct b; [done|]. cbn. by rewrite reverse_Permutation. }
    rewrite <- Ew in El. unfold whole in El. cbn in El. rewrite <- app_assoc in El. cbn in El.
    destruct b; cbn in El |- *.
    - rewrite app_assoc in El. symmetry in El. rewrite El in Hnd. by apply (split_nodup _ _ _ _ _ El).
    - rewrite !reverse_app, reverse_cons, reverse_app in El. rewrite <- !app_assoc in El. cbn in El.
      rewrite app_assoc in El. symmetry in El. rewrite El in Hnd. by apply (split_nodup _ _ _ _ _ El). }
  unfold Step. rewrite Ef. cbn [n_left n_right n_parent].
  assert ((if b then top tr else top tl) = top (if b then tr else tl)) as -> by (by destruct b).
  assert (tree_at (nodes s) f (if b then tr else tl)) as Hc by (by destruct b).
  destruct (if b then tr else tl) as [|c1 c c2] eqn:Ec; cbn [top].
  - rewrite Z.eqb_refl. cbn [negb]. cbn. replace (along b [] ++ ahead b k) with (ahead b k) by (by destruct b).
    apply (climb_spec fuel b s k (Fork tl f tr)); [done|done|lia].
  - destruct (Z.eqb_spec c kNoFrame); [destruct Hc as (? & _); lia|]. cbn [negb].
    change c with (top (Fork c1 c c2)) at 1. rewrite (Extreme_spec fuel b s f) by (done || (rewrite <- Ec; destruct b; lia)).
    f_equal. destruct b; cbn [along inorder]; [by destruct (inorder c1)|]. rewrite reverse_app, reverse_cons, <- app_assoc.
    by destruct (reverse (inorder c2)).
Qed.

Lemma walk_spec rounds fuel b probe s l l1 l2 :
  is_set s l -> along b l = l1 ++ l2 -> (length l <= fuel)%nat -> (length l2 < rounds)%nat ->
  walk rounds fuel b probe (hd kNoFrame l2) s = Some (find probe l2).
Proof.
  intros Hs. revert l1 l2. induction rounds as [|rounds IH]; intros l1 l2 El Hl Hr; [lia|]. cbn [walk].
  destruct l2 as [|f l2]; cbn [hd]; [by rewrite Z.eqb_refl|]. cbn [find].
  assert (0 <= f < kNoFrame) as Hf.
  { destruct Hs as (t & Hz & <- & _). eapply (tree_node (nodes s)); [apply Hz|].
    destruct b; cbn in El; [|apply elem_of_reverse]; rewrite El; set_solver. }
  destruct (Z.eqb_spec f kNoFrame); [lia|]. destruct (probe f); [done|].
  rewrite (step_spec fuel b s l l1 f l2 Hs El Hl). cbn [mbind option_bind].
  apply (IH (l1 ++ [f])); [by rewrite <- app_assoc|done|cbn in Hr; lia].
Qed.

Lemma pick_spec fuel b probe s l :
  is_set s l -> (length l < fuel)%nat -> PickFrom fuel b probe s = Some (find probe (along b l)).
Proof.
  intros Hs Hl. unfold PickFrom. destruct Hs as (t & Hz & <- & Hs). pose proof Hz as (Ht & Hk & _). cbn in Hk.
  rewrite Hk, (Extreme_spec fuel b s _ t Ht) by lia. cbn [mbind option_bind].
  apply (walk_spec fuel fuel b probe s (inorder t) []); try done; [by exists t|lia|].
  destruct b; cbn; [done|]. by rewrite length_reverse.
Qed.

(** ** Sets and their elements *)

Lemma empty_set : is_set Reset [].
Proof. exists Leaf. split; [|split; [done|constructor]]. split; [done|]. split; [done|]. unfold whole. constructor. Qed.

Lemma set_range s l f : is_set s l -> f ∈ l -> 0 <= f < kNoFrame.
Proof. intros (t & Hz & <- & _) Hf. by eapply tree_node; [apply Hz|]. Qed.

Lemma set_contains s l f : is_set s l -> f ∈ l -> n_linked (nodes s f) = true.
Proof. intros (t & Hz & <- & _) Hf. by eapply tree_node; [apply Hz|]. Qed.

Lemma set_key s l f : is_set s l -> f ∈ l -> n_key (nodes s f) = K f.
Proof. intros (t & Hz & <- & _) Hf. by eapply tree_node; [apply Hz|]. Qed.

Lemma set_nodup s l : is_set s l -> NoDup l.
Proof. intros (t & (_ & _ & Hnd) & <- & _). unfold whole in Hnd. cbn in Hnd. by rewrite app_nil_r in Hnd. Qed.

(** Another set's nodes may change. *)
Lemma set_ext s ns' l : is_set s l -> (forall g, g ∈ l -> ns' g = nodes s g) -> is_set (OSet ns' (root s)) l.
Proof.
  intros (t & (Ht & Hk & Hnd) & <- & Hs) Hx. exists t. split; [|done]. split; [|done]. by eapply tree_ext.
Qed.
End Sets.

(** Keys of frames that are not in the set do not matter. *)
Lemma tree_key K K' ns p t : tree_at K ns p t -> (forall g, g ∈ inorder t -> K' g = K g) -> tree_at K' ns p t.
Proof.
  revert p. induction t as [|l IHl f r IHr]; intros p; [done|]. cbn. intros (Hf & E & Hl & Hr) Hx.
  split; [done|]. split; [rewrite Hx by set_solver; done|]. split; [apply IHl|apply IHr]; try done; set_solver.
Qed.

Lemma sorted_key K K' l : StronglySorted (less K) l -> (forall g, g ∈ l -> K' g = K g) -> StronglySorted (less K') l.
Proof.
  induction 1 as [|f l Hs IH Hf]; intros Hx; constructor; [apply IH; set_solver|].
  rewrite list.Forall_forall in Hf |- *. intros g Hg. specialize (Hf g Hg). unfold less in *. rewrite !Hx by set_solver. done.
Qed.

Lemma set_rekey K K' s l : is_set K s l -> (forall g, g ∈ l -> K' g = K g) -> is_set K' s l.
Proof.
  intros (t & (Ht & Hk & Hnd) & <- & Hs) Hx. exists t. split; [|split; [done|by eapply sorted_key]].
  split; [by eapply tree_key|]. done.
Qed.

(** What a walk with a probe finds: the first element in its direction. *)
Lemma find_first {R : Z -> Z -> Prop} probe (l : list Z) f :
  StronglySorted R l -> find probe l = Some f -> forall g, g ∈ l -> probe g = true -> g = f \/ R f g.
Proof.
  induction 1 as [|a l Hs IH Ha]; cbn; [done|]. destruct (probe a) eqn:E.
  - intros [= ->] g Hg _. apply elem_of_cons in Hg as [->|Hg]; [by left|right]. rewrite list.Forall_forall in Ha. auto.
  - intros Hf g Hg Hp. apply elem_of_cons in Hg as [->|Hg]; [congruence|]. auto.
Qed.

Lemma sorted_reverse {R : Z -> Z -> Prop} l : StronglySorted R l -> StronglySorted (flip R) (reverse l).
Proof.
  induction 1 as [|a l Hs IH Ha]; [constructor|]. rewrite reverse_cons. apply StronglySorted_app. rewrite list.Forall_forall in Ha.
  split_and!; [|done|by repeat constructor]. intros x y Hx Hy. apply list_elem_of_singleton in Hy as ->.
  apply Ha. by apply elem_of_reverse.
Qed.

Lemma pick_extreme K s l b probe :
  is_set K s l ->
  match find probe (along b l) with
  | Some f => f ∈ l /\ probe f = true /\
      forall g, g ∈ l -> probe g = true -> g = f \/ (if b then less K f g else less K g f)
  | None => forall g, g ∈ l -> probe g = false
  end.
Proof.
  intros (t & _ & <- & Hs). set (l := inorder t) in *.
  assert (forall g, g ∈ along b l <-> g ∈ l) as Hel by (intros g; destruct b; [done|apply elem_of_reverse]).
  destruct (find probe (along b l)) as [f|] eqn:E.
  - pose proof (find_some _ _ E) as [Hin Hp]. split; [by apply Hel, list_elem_of_In|]. split; [done|].
    intros g Hg Hpg. apply Hel in Hg. destruct b; cbn in E, Hg.
    + by apply (find_first probe l f Hs E).
    + by apply (find_first probe _ f (sorted_reverse _ Hs) E).
  - intros g Hg. apply (find_none _ _ E). by apply list_elem_of_In, Hel.
Qed.
