(* ===== verification/PlanReplacer.v ===== *)
(** Belady replacement for a known plan: [lib/replacer/plan_replacer.cc].

    Tracked frames are the members of an ordered set keyed by the plan position
    at which they are next needed.  The calls take the policy's latch for their
    whole duration, so each is one step. *)
From S2P Require Import Prelude Layout FrameList Replacer OrderedSet.

Definition kNeverUsed : Z := u64_mod - 1.

(** Offsets of the header (latch and root) and of the nodes, and the total size. *)
Definition PlanLayoutFor (capacity : Z) : Z * Z * Z :=
  let l := MkLayout 0 in
  let '(header, l) := Add 8 1 kCacheLineSize l in
  let '(nodes, l) := Add 24 capacity kCacheLineSize l in
  (header, nodes, size l).

Record plan := Plan { pl_capacity : Z; order : ordered_set }.

Definition MakePlan (n : Z) : plan := Plan n Reset.

Definition pl_fuel (s : plan) : nat := S (Z.to_nat (pl_capacity s)).
Definition set_order (o : option ordered_set) (s : plan) : plan := Plan (pl_capacity s) (default (order s) o).

Definition Update (f next_use : Z) (s : plan) : plan :=
  let s := set_order (Erase (pl_fuel s) f (order s)) s in
  set_order (Insert (pl_fuel s) f next_use (order s)) s.

Definition PlanAccess (f : Z) (s : plan) : plan := s.

Definition PlanLoad (f : Z) (s : plan) : plan := if pl_capacity s <=? f then s else Update f 0 s.

Definition PlanVictim (probe : Z -> bool) (s : plan) : option Z :=
  default None (PickFrom (pl_fuel s) false probe (order s)).

Definition PlanRemove (f : Z) (s : plan) : plan :=
  if pl_capacity s <=? f then s else set_order (Erase (pl_fuel s) f (order s)) s.

Definition SetNextUse (f next_use : Z) (s : plan) : plan :=
  if pl_capacity s <=? f then s
  else if OrderedSet.Contains f (order s) then Update f next_use s else s.

Definition ForgetPlan (s : plan) : plan :=
  foldl (fun s f => if OrderedSet.Contains f (order s) then Update f kNeverUsed s else s) s (seqZ 0 (pl_capacity s)).

#[export] Instance plan_replacer : Replacer plan := {
  RecordAccess _ := PlanAccess;
  RecordLoad _ := PlanLoad;
  Victim probe s := (PlanVictim probe s, s);
  Remove _ := PlanRemove
}.

(** ** The plan as a map *)

(** [s] tracks the frames of [m], each with its next use. *)
Record plan_is (s : plan) (m : gmap Z Z) : Prop := {
  pl_cap : 0 <= pl_capacity s <= kNoFrame;
  pl_range f : is_Some (m !! f) -> 0 <= f < pl_capacity s;
  pl_linked f : OrderedSet.Contains f (order s) = true <-> is_Some (m !! f);
  pl_set : exists l, is_set (fun g => default 0 (m !! g)) (order s) l /\ forall f, f ∈ l <-> is_Some (m !! f)
}.

Lemma make_plan_is n : 0 <= n <= kNoFrame -> plan_is (MakePlan n) ∅.
Proof.
  intros Hn. split; [done|..].
  - intros f [u Hu]. by rewrite lookup_empty in Hu.
  - intros f. cbn. rewrite lookup_empty. split; [done|]. intros []. done.
  - exists []. split; [apply empty_set|]. intros f. rewrite lookup_empty. split; [by intros ?%not_elem_of_nil|by intros []].
Qed.

Lemma plan_length s m l : plan_is s m -> NoDup l -> (forall f, f ∈ l -> is_Some (m !! f)) -> (length l < pl_fuel s)%nat.
Proof.
  intros Hs Hnd Hl. unfold pl_fuel. pose proof (nodup_length l (pl_capacity s) Hnd) as Hn.
  assert (length l <= Z.to_nat (pl_capacity s))%nat; [|lia]. apply Hn. intros f Hf. apply (pl_range s m Hs). auto.
Qed.

Lemma plan_erase s m f : plan_is s m -> plan_is (set_order (Erase (pl_fuel s) f (order s)) s) (delete f m).
Proof.
  intros Hs. destruct (pl_set s m Hs) as (l & Hset & Hl). pose proof (set_nodup _ _ _ Hset) as Hnd.
  pose proof (plan_length s m l Hs Hnd ltac:(naive_solver)) as Hlen.
  assert (forall h, is_Some (delete f m !! h) <-> h <> f /\ is_Some (m !! h)) as Hdel.
  { intros h. destruct (decide (h = f)) as [->|Hh]; [rewrite lookup_delete_eq|rewrite lookup_delete_ne by done].
    - split; [by intros []|naive_solver].
    - naive_solver. }
  destruct (decide (f ∈ l)) as [Hf|Hf].
  - destruct (erase_spec _ (pl_fuel s) (order s) l f Hset Hf) as (o & Eo & Hset' & Ho & Hu); [lia|].
    rewrite Eo. split; cbn [set_order pl_capacity order from_option id].
    + apply Hs.
    + intros h Hh. apply (pl_range s m Hs). by apply Hdel in Hh as [_ ?].
    + intros h. rewrite Hdel. unfold OrderedSet.Contains. destruct (decide (h = f)) as [->|Hh]; [rewrite Hu; naive_solver|].
      destruct (decide (h ∈ l)) as [Hhl|Hhl].
      * rewrite (set_contains _ _ _ h Hset'); [|by apply elem_of_without]. apply Hl in Hhl. naive_solver.
      * rewrite Ho by done. pose proof (pl_linked s m Hs h) as Hlk. unfold OrderedSet.Contains in Hlk. naive_solver.
    + exists (without f l). split; [|intros h; by rewrite elem_of_without, Hdel, Hl].
      eapply set_rekey; [exact Hset'|]. intros g Hg. apply elem_of_without in Hg as [Hg _]. cbn. by rewrite lookup_delete_ne.
  - assert (m !! f = None) as Hm by (apply eq_None_not_Some; intros Hm; by apply Hf, Hl).
    rewrite (erase_absent (pl_fuel s) (order s) f); cbn.
    + rewrite delete_id by done. by destruct s.
    + apply not_true_iff_false. intros E. apply (pl_linked s m Hs) in E. rewrite Hm in E. by destruct E.
Qed.

Lemma plan_insert s m f u : plan_is s m -> m !! f = None -> 0 <= f < pl_capacity s ->
  plan_is (set_order (Insert (pl_fuel s) f u (order s)) s) (<[f := u]> m).
Proof.
  intros Hs Hm Hf. destruct (pl_set s m Hs) as (l & Hset & Hl). pose proof (set_nodup _ _ _ Hset) as Hnd.
  pose proof (plan_length s m l Hs Hnd ltac:(naive_solver)) as Hlen.
  set (K := fun g => default 0 (<[f := u]> m !! g)).
  assert (f ∉ l) as Hfl by (rewrite Hl, Hm; by intros []).
  assert (is_set K (order s) l) as Hset'.
  { eapply set_rekey; [exact Hset|]. intros g Hg. unfold K. rewrite lookup_insert_ne; [done|]. congruence. }
  destruct (insert_spec K (pl_fuel s) (order s) l f Hset' Hfl) as (o & l1 & l2 & Eo & El & Hso & Ho); [|done|].
  { pose proof (pl_cap s m Hs). lia. }
  assert (K f = u) as EK by (unfold K; by rewrite lookup_insert_eq). rewrite EK in Eo. rewrite Eo.
  assert (forall h, is_Some (<[f := u]> m !! h) <-> h = f \/ h ∈ l) as Hins.
  { intros h. rewrite Hl. destruct (decide (h = f)) as [->|Hh].
    - rewrite lookup_insert_eq. naive_solver.
    - rewrite lookup_insert_ne by done. naive_solver. }
  assert (forall h, h ∈ l1 ++ f :: l2 <-> h = f \/ h ∈ l) as Hel by (rewrite El; set_solver).
  split; cbn [set_order pl_capacity order from_option id].
  - apply Hs.
  - intros h Hh. apply Hins in Hh as [->|Hh]; [done|]. by apply (pl_range s m Hs), Hl.
  - intros h. rewrite Hins. unfold OrderedSet.Contains. destruct (decide (h = f \/ h ∈ l)) as [Hh|Hh].
    + rewrite (set_contains _ _ _ h Hso); [done|by apply Hel].
    + rewrite Ho by (rewrite elem_of_cons; tauto). pose proof (pl_linked s m Hs h) as Hlk. unfold OrderedSet.Contains in Hlk.
      rewrite Hlk, <- Hl. tauto.
  - exists (l1 ++ f :: l2). split; [done|]. intros h. by rewrite Hel, Hins.
Qed.

Lemma plan_update s m f u : plan_is s m -> 0 <= f < pl_capacity s -> plan_is (Update f u s) (<[f := u]> m).
Proof.
  intros Hs Hf. unfold Update. rewrite <- insert_delete_eq. apply plan_insert; [by apply plan_erase|apply lookup_delete_eq|done].
Qed.

Lemma update_capacity f u s : pl_capacity (Update f u s) = pl_capacity s.
Proof. done. Qed.

Lemma plan_forget s m : plan_is s m -> plan_is (ForgetPlan s) ((fun _ => kNeverUsed) <$> m).
Proof.
  intros Hs. unfold ForgetPlan. remember (pl_capacity s) as n eqn:En.
  assert (forall l s m0, plan_is s m0 -> pl_capacity s = n -> (forall f, f ∈ l -> 0 <= f < n) ->
    (forall f, is_Some (m0 !! f) <-> is_Some (m !! f)) -> (forall f, f ∈ l \/ forall u, m0 !! f = Some u -> u = kNeverUsed) ->
    plan_is (foldl (fun s f => if OrderedSet.Contains f (order s) then Update f kNeverUsed s else s) s l)
      ((fun _ => kNeverUsed) <$> m)) as Hgo.
  { clear Hs s En. intros l. induction l as [|f l IH]; intros s m0 Hs Hn Hr Hdom Hdone; cbn.
    - replace ((fun _ : Z => kNeverUsed) <$> m) with m0; [done|]. apply map_eq. intros f. rewrite lookup_fmap.
      destruct (Hdone f) as [Hf|Hf]; [by apply not_elem_of_nil in Hf|]. specialize (Hdom f).
      destruct (m0 !! f) as [u|], (m !! f) as [v|]; cbn; [by rewrite (Hf u)|destruct Hdom; naive_solver..|done].
    - destruct (OrderedSet.Contains f (order s)) eqn:Ef.
      + apply (IH (Update f kNeverUsed s) (<[f := kNeverUsed]> m0)).
        * apply plan_update; [done|]. rewrite Hn. apply Hr. set_solver.
        * by rewrite update_capacity.
        * set_solver.
        * apply (pl_linked s m0 Hs) in Ef. intros g. rewrite <- Hdom. destruct (decide (g = f)) as [->|Hg];
            [rewrite lookup_insert_eq; naive_solver|by rewrite lookup_insert_ne].
        * intros g. destruct (decide (g = f)) as [->|Hg]; [right; rewrite lookup_insert_eq; naive_solver|].
          rewrite lookup_insert_ne by done. destruct (Hdone g) as [Hin|]; [left; set_solver|by right].
      + apply (IH s m0); try done; [set_solver|]. intros g. destruct (decide (g = f)) as [->|Hg].
        * right. intros u Hu. assert (OrderedSet.Contains f (order s) = true); [|congruence].
          apply (pl_linked s m0 Hs). by exists u.
        * destruct (Hdone g) as [Hin|]; [left; set_solver|by right]. }
  apply (Hgo _ s m); try done.
  - intros f Hf. apply elem_of_seqZ in Hf. lia.
  - intros f. rewrite En. destruct (decide (is_Some (m !! f))) as [Hf|Hf].
    + left. apply elem_of_seqZ. pose proof (pl_range s m Hs f Hf). lia.
    + right. intros u Hu. destruct Hf. by exists u.
Qed.

Lemma plan_pick s m probe : plan_is s m ->
  match PlanVictim probe s with
  | Some f => exists u, m !! f = Some u /\ probe f = true /\
      forall g v, m !! g = Some v -> probe g = true -> v < u \/ v = u /\ g <= f
  | None => forall g, is_Some (m !! g) -> probe g = false
  end.
Proof.
  intros Hs. destruct (pl_set s m Hs) as (l & Hset & Hl). pose proof (set_nodup _ _ _ Hset) as Hnd.
  pose proof (plan_length s m l Hs Hnd ltac:(naive_solver)) as Hlen. unfold PlanVictim.
  rewrite (pick_spec _ (pl_fuel s) false probe (order s) l Hset Hlen). cbn [default].
  pose proof (pick_extreme _ _ l false probe Hset) as Hp. destruct (find _ _) as [f|].
  - destruct Hp as (Hf & Hpf & Hmax). apply Hl in Hf as [u Hu]. exists u. split; [done|]. split; [done|]. intros g v Hv Hpg.
    destruct (Hmax g ltac:(apply Hl; by exists v) Hpg) as [->|Hless]; [right; split; [congruence|lia]|].
    unfold less in Hless. rewrite Hu, Hv in Hless. cbn in Hless. lia.
  - intros g Hg. by apply Hp, Hl.
Qed.

#[export] Program Instance plan_laws : ReplacerLaws plan := {
  valid s := exists m, plan_is s m;
  frames := pl_capacity;
  tracked s f := OrderedSet.Contains f (order s) = true;
  steady _ := True
}.
Next Obligation. intros th f s [m Hm] _. cbn. split; [by exists m|done]. Qed.
Next Obligation.
  intros th f s [m Hm] Hf. cbn. unfold PlanLoad. destruct (Z.leb_spec (pl_capacity s) f); [lia|].
  pose proof (plan_update s m f 0 Hm Hf) as Hm'. split; [by exists (<[f := 0]> m)|]. split; [done|].
  intros g. rewrite (pl_linked _ _ Hm'), (pl_linked _ _ Hm). destruct (decide (g = f)) as [->|Hg].
  - rewrite lookup_insert_eq. naive_solver.
  - rewrite lookup_insert_ne by done. naive_solver.
Qed.
Next Obligation.
  intros th f s [m Hm] Hf. cbn. unfold PlanRemove. destruct (Z.leb_spec (pl_capacity s) f); [lia|].
  pose proof (plan_erase s m f Hm) as Hm'. split; [by exists (delete f m)|]. split; [done|].
  intros g. rewrite (pl_linked _ _ Hm'), (pl_linked _ _ Hm). destruct (decide (g = f)) as [->|Hg].
  - rewrite lookup_delete_eq. split; [by intros []|naive_solver].
  - rewrite lookup_delete_ne by done. naive_solver.
Qed.
Next Obligation.
  intros probe s [m Hm]. cbn. split; [by exists m|]. split; [done|]. split; [done|].
  pose proof (plan_pick s m probe Hm) as Hp. destruct (PlanVictim probe s) as [f|].
  - destruct Hp as (u & Hu & Hpf & _). split; [|done]. apply (pl_linked _ _ Hm). by exists u.
  - intros _ f Hf. by apply Hp, (pl_linked _ _ Hm).
Qed.
Next Obligation. intros s f [m Hm] Hf. apply (pl_range s m Hm). by apply (pl_linked _ _ Hm). Qed.

(** ** Runs *)

Inductive plan_call :=
  | PlanDo (c : replacer_call)
  | PlanSet (f next_use : Z)
  | PlanForget.

Definition plan_step (s : plan) (c : plan_call) : plan :=
  match c with
  | PlanDo c => perform c s
  | PlanSet f u => SetNextUse f u s
  | PlanForget => ForgetPlan s
  end.

(** The next uses of the tracked frames, in terms of the calls alone. *)
Definition next_uses (m : gmap Z Z) (c : plan_call) : gmap Z Z :=
  match c with
  | PlanDo (CallLoad _ f) => <[f := 0]> m
  | PlanDo (CallRemove _ f) => delete f m
  | PlanDo _ => m
  | PlanSet f u => if decide (is_Some (m !! f)) then <[f := u]> m else m
  | PlanForget => (fun _ => kNeverUsed) <$> m
  end.

Definition plan_in_range (n : Z) (c : plan_call) : Prop :=
  match c with PlanDo c => call_in_range n c | PlanSet f _ => 0 <= f | PlanForget => True end.

Lemma forget_capacity s : pl_capacity (ForgetPlan s) = pl_capacity s.
Proof.
  unfold ForgetPlan. generalize (seqZ 0 (pl_capacity s)). intros l. revert s.
  induction l as [|f l IH]; intros s; [done|]. cbn. rewrite IH. by destruct (OrderedSet.Contains f (order s)).
Qed.

Lemma plan_step_is n s m c : plan_is s m -> pl_capacity s = n -> plan_in_range n c ->
  plan_is (plan_step s c) (next_uses m c) /\ pl_capacity (plan_step s c) = n.
Proof.
  intros Hs Hn Hc. destruct c as [[th f|th f|th f|probe]|f u|]; cbn [plan_step next_uses plan_in_range call_in_range] in *.
  - done.
  - cbn. unfold PlanLoad. destruct (Z.leb_spec (pl_capacity s) f); [lia|]. split; [|done]. apply plan_update; [done|lia].
  - cbn. unfold PlanRemove. destruct (Z.leb_spec (pl_capacity s) f); [lia|]. split; [|done]. by apply plan_erase.
  - done.
  - unfold SetNextUse. destruct (Z.leb_spec (pl_capacity s) f).
    + rewrite decide_False; [done|]. intros Hf. pose proof (pl_range s m Hs f Hf). lia.
    + destruct (OrderedSet.Contains f (order s)) eqn:E.
      * rewrite decide_True by (by apply (pl_linked s m Hs)). split; [|done]. apply plan_update; [done|lia].
      * rewrite decide_False; [done|]. intros Hf. apply (pl_linked s m Hs) in Hf. congruence.
  - split; [by apply plan_forget|]. by rewrite forget_capacity.
Qed.

Lemma plan_run_is n cs s m : plan_is s m -> pl_capacity s = n -> Forall (plan_in_range n) cs ->
  plan_is (foldl plan_step s cs) (foldl next_uses m cs).
Proof.
  intros Hs Hn Hr. revert s m Hs Hn. induction Hr as [|c cs Hc Hr IH]; intros s m Hs Hn; [done|].
  cbn. destruct (plan_step_is n s m c Hs Hn Hc) as [Hs' Hn']. by apply IH.
Qed.

(** The plan policy is Belady's: after any calls, [Victim] returns, among
    the tracked frames that may be evicted, one whose next use is furthest away
    (the highest number among equals), and nothing only when none may be evicted.
    The next uses are those the calls set: zero when loaded, the value of the
    last [SetNextUse] since, or [kNeverUsed] after [ForgetPlan]. *)
Lemma plan_victim_belady n cs probe :
  0 <= n <= kNoFrame -> Forall (plan_in_range n) cs ->
  let m := foldl next_uses ∅ cs in
  match PlanVictim probe (foldl plan_step (MakePlan n) cs) with
  | Some f => exists u, m !! f = Some u /\ probe f = true /\
      forall g v, m !! g = Some v -> probe g = true -> v < u \/ v = u /\ g <= f
  | None => forall g, is_Some (m !! g) -> probe g = false
  end.
Proof. intros Hn Hr m. apply plan_pick. apply (plan_run_is n); [by apply make_plan_is|done|done]. Qed.

Definition plan_calls : list plan_call :=
  [PlanDo (CallLoad 0 0); PlanDo (CallLoad 0 1); PlanDo (CallLoad 0 2); PlanForget; PlanSet 0 7; PlanSet 1 9;
   PlanDo (CallLoad 0 3); PlanSet 2 4; PlanDo (CallRemove 0 1); PlanSet 1 11; PlanDo (CallAccess 0 3)].

Lemma plan_victim_belady_witness :
  PlanVictim (fun _ => true) (foldl plan_step (MakePlan 8) plan_calls) = Some 0 /\
  exists u, foldl next_uses ∅ plan_calls !! 0 = Some u /\ u = 7.
Proof.
  pose proof (plan_victim_belady 8 plan_calls (fun _ => true)) as Hb.
  assert (PlanVictim (fun _ => true) (foldl plan_step (MakePlan 8) plan_calls) = Some 0) as E by (vm_compute; reflexivity).
  split; [exact E|]. rewrite E in Hb. destruct Hb as (u & Hu & _ & _).
  - split; vm_compute; congruence.
  - repeat constructor; simpl; lia.
  - exists u. split; [exact Hu|]. vm_compute in Hu. by injection Hu as <-.
Defined.
