(* ===== verification/LruK.v ===== *)
(** LRU-K replacement: [lib/replacer/lru_k_replacer.cc].

    Every frame keeps a ring of its last K access times.  Frames with fewer than
    K accesses wait in one ordered set, keyed by their latest access, the others
    in a second one, keyed by their K-th most recent access; the two sets share
    one node array.  [lruk_is s H] relates the rings and the sets to the access
    times [H] of every tracked frame, latest first. *)
From S2P Require Import Prelude Layout FrameList Replacer Lru OrderedSet.

Record access_history := History { h_tracked : bool; h_count : Z; h_oldest : Z }.

Record lruk := LruK {
  lk_capacity : Z;
  history_length : Z;
  lk_clock : Z;
  histories : Z -> access_history;
  timestamps : Z -> Z;
  lk_nodes : Z -> node;
  incomplete_root : Z;
  complete_root : Z
}.

(** Offsets of the header, the histories, the timestamps and the nodes, and the
    total size. *)
Definition LruKLayoutFor (capacity history_length : Z) : Z * Z * Z * Z * Z :=
  let l := MkLayout 0 in
  let '(header, l) := Add 24 1 kCacheLineSize l in
  let '(histories, l) := Add 12 capacity kCacheLineSize l in
  let '(timestamps, l) := Add 8 (capacity * history_length) kCacheLineSize l in
  let '(nodes, l) := Add 24 capacity kCacheLineSize l in
  (header, histories, timestamps, nodes, size l).

Definition MakeLruK (n k : Z) : lruk :=
  LruK n (if k =? 0 then 1 else k) 0 (fun _ => History false 0 0) (fun _ => 0) (fun _ => empty_node) kNoFrame kNoFrame.

Definition incomplete (s : lruk) : ordered_set := OSet (lk_nodes s) (incomplete_root s).
Definition complete (s : lruk) : ordered_set := OSet (lk_nodes s) (complete_root s).

Definition put_incomplete (o : option ordered_set) (s : lruk) : lruk :=
  let o := default (incomplete s) o in
  LruK (lk_capacity s) (history_length s) (lk_clock s) (histories s) (timestamps s) (nodes o) (root o) (complete_root s).
Definition put_complete (o : option ordered_set) (s : lruk) : lruk :=
  let o := default (complete s) o in
  LruK (lk_capacity s) (history_length s) (lk_clock s) (histories s) (timestamps s) (nodes o) (incomplete_root s) (root o).
Definition put_history (f : Z) (h : access_history) (s : lruk) : lruk :=
  LruK (lk_capacity s) (history_length s) (lk_clock s) (<[f := h]> (histories s)) (timestamps s) (lk_nodes s)
    (incomplete_root s) (complete_root s).
Definition put_time (i now : Z) (s : lruk) : lruk :=
  LruK (lk_capacity s) (history_length s) now (histories s) (<[i := now]> (timestamps s)) (lk_nodes s)
    (incomplete_root s) (complete_root s).

Definition lk_fuel (s : lruk) : nat := S (Z.to_nat (lk_capacity s)).

Definition HasIncompleteHistory (f : Z) (s : lruk) : bool := h_count (histories s f) <? history_length s.

Definition Timestamp (f age : Z) (s : lruk) : Z :=
  timestamps s (f * history_length s + (h_oldest (histories s f) + age) mod history_length s).

Definition LkEnqueue (f : Z) (s : lruk) : lruk :=
  let count := h_count (histories s f) in
  if HasIncompleteHistory f s
  then put_incomplete (Insert (lk_fuel s) f (Timestamp f (u32 (count - 1)) s) (incomplete s)) s
  else put_complete (Insert (lk_fuel s) f (Timestamp f 0 s) (complete s)) s.

Definition LkDequeue (f : Z) (s : lruk) : lruk :=
  if HasIncompleteHistory f s
  then put_incomplete (Erase (lk_fuel s) f (incomplete s)) s
  else put_complete (Erase (lk_fuel s) f (complete s)) s.

Definition Append (f : Z) (s : lruk) : lruk :=
  let h := histories s f in
  let now := u64 (lk_clock s + 1) in
  if h_count h <? history_length s then
    put_history f (History (h_tracked h) (u32 (h_count h + 1)) (h_oldest h))
      (put_time (f * history_length s + (h_oldest h + h_count h) mod history_length s) now s)
  else
    put_history f (History (h_tracked h) (h_count h) (u32 ((h_oldest h + 1) mod history_length s)))
      (put_time (f * history_length s + h_oldest h) now s).

Definition LkTouch (f : Z) (s : lruk) : lruk :=
  if (lk_capacity s <=? f) || negb (h_tracked (histories s f)) then s
  else LkEnqueue f (Append f (LkDequeue f s)).

(** [RecordLoad] and [Remove] once the calling thread's accesses are applied. *)
Definition LkLoad (f : Z) (s : lruk) : lruk :=
  let s := if h_tracked (histories s f) then LkDequeue f s else s in
  LkEnqueue f (Append f (put_history f (History true 0 0) s)).

Definition LkRemove (f : Z) (s : lruk) : lruk :=
  if negb (h_tracked (histories s f)) then s
  else put_history f (History false 0 0) (LkDequeue f s).

Definition LkPick (probe : Z -> bool) (s : lruk) : option Z :=
  match default None (PickFrom (lk_fuel s) true probe (incomplete s)) with
  | Some f => Some f
  | None => default None (PickFrom (lk_fuel s) true probe (complete s))
  end.

#[export] Instance lruk_policy : Policy lruk := {
  p_capacity := lk_capacity;
  p_touch := LkTouch;
  p_load := LkLoad;
  p_remove := LkRemove;
  p_pick := LkPick
}.

(** ** Rings *)

(** The ring of frame [f] holds the times [h], latest first. *)
Record ring (s : lruk) (f : Z) (h : list Z) : Prop := {
  r_count : h_count (histories s f) = Z.of_nat (length h);
  r_bound : Z.of_nat (length h) <= history_length s;
  r_oldest : 0 <= h_oldest (histories s f) < history_length s;
  r_times i : (i < length h)%nat -> Timestamp f (Z.of_nat (length h) - 1 - Z.of_nat i) s = nth i h 0
}.

Lemma slot_ne n x d : 0 < d < n -> (x + d) mod n <> x mod n.
Proof.
  intros Hd E. assert (d mod n = 0) as Hz.
  { replace d with (x + d - x) by lia. rewrite Zminus_mod, E, Z.sub_diag. apply Z.mod_0_l. lia. }
  rewrite Z.mod_small in Hz by lia. lia.
Qed.

(** Slots of different frames are different. *)
Lemma slot_frame n f g a b : 0 < n -> f <> g -> f * n + a mod n <> g * n + b mod n.
Proof.
  intros Hn Hfg E. pose proof (Z.mod_pos_bound a n Hn). pose proof (Z.mod_pos_bound b n Hn). nia.
Qed.

Definition recorded (s : lruk) (h : list Z) : list Z :=
  take (Z.to_nat (history_length s)) (u64 (lk_clock s + 1) :: h).

Lemma append_fields f s :
  lk_capacity (Append f s) = lk_capacity s /\ history_length (Append f s) = history_length s /\
  lk_clock (Append f s) = u64 (lk_clock s + 1) /\ incomplete (Append f s) = incomplete s /\
  complete (Append f s) = complete s /\ h_tracked (histories (Append f s) f) = h_tracked (histories s f) /\
  forall g, g <> f -> histories (Append f s) g = histories s g.
Proof.
  unfold Append. destruct (_ <? _); cbn; rewrite fn_lookup_insert; split_and!; try done; intros g Hg;
    by rewrite fn_lookup_insert_ne.
Qed.

Lemma append_ring f s h :
  ring s f h -> 1 <= history_length s < u32_mod -> ring (Append f s) f (recorded s h).
Proof.
  intros [Hc Hb Ho Ht] Hk. unfold recorded. set (n := history_length s) in *. set (now := u64 (lk_clock s + 1)).
  unfold Timestamp in Ht. fold n in Ht. set (o := h_oldest (histories s f)) in *.
  unfold Append. fold n now. destruct (Z.ltb_spec (h_count (histories s f)) n) as [Hlt|Hge]; rewrite Hc in *.
  - rewrite take_ge by (cbn; lia). split; cbn [history_length histories put_history put_time length]; fold n;
      rewrite ?fn_lookup_insert; cbn [h_count h_oldest]; [rewrite u32_small by (split; lia); lia|lia|done|].
    intros i Hi. unfold Timestamp. cbn. rewrite fn_lookup_insert. cbn [h_oldest]. fold n o. destruct i as [|i]; cbn [nth].
    + replace (Z.of_nat (S (length h)) - 1 - Z.of_nat 0) with (Z.of_nat (length h)) by lia. by rewrite fn_lookup_insert.
    + replace (Z.of_nat (S (length h)) - 1 - Z.of_nat (S i)) with (Z.of_nat (length h) - 1 - Z.of_nat i) by lia.
      rewrite fn_lookup_insert_ne; [apply Ht; lia|].
      intros E. apply Z.add_cancel_l in E. eapply (slot_ne n (o + (Z.of_nat (length h) - 1 - Z.of_nat i)) (Z.of_nat i + 1)); [lia|].
      rewrite <- E. f_equal. lia.
  - assert (Z.of_nat (length h) = n) as En by lia.
    assert (length (take (Z.to_nat n) (now :: h)) = Z.to_nat n) as El by (rewrite length_take; cbn; lia).
    assert (0 <= (o + 1) mod n < n) as Hm by (apply Z.mod_pos_bound; lia).
    split; cbn [history_length histories put_history put_time]; fold n;
      rewrite ?fn_lookup_insert; cbn [h_count h_oldest]; rewrite ?El; [lia|lia|fold o; rewrite u32_small by (split; lia); lia|].
    intros i Hi. unfold Timestamp. cbn. rewrite fn_lookup_insert. cbn [h_oldest]. fold n o.
    rewrite u32_small by (split; lia). rewrite Zplus_mod_idemp_l, Z2Nat.id by lia.
    replace (o + 1 + (n - 1 - Z.of_nat i)) with (o - Z.of_nat i + 1 * n) by lia. rewrite Z_mod_plus_full.
    destruct i as [|i].
    + replace (o - Z.of_nat 0) with o by lia. rewrite (Z.mod_small o) by lia. rewrite fn_lookup_insert.
      destruct (Z.to_nat n) eqn:E; [lia|]. done.
    + rewrite fn_lookup_insert_ne.
      * specialize (Ht i ltac:(lia)). replace (o + (Z.of_nat (length h) - 1 - Z.of_nat i)) with (o - Z.of_nat (S i) + 1 * n) in Ht by lia.
        rewrite Z_mod_plus_full in Ht. rewrite Ht. destruct (Z.to_nat n) as [|n'] eqn:E; [lia|]. cbn.
        clear -Hi. revert i n' Hi. induction h as [|x h IH]; intros [|i] [|n'] Hi; cbn in *; try lia; try done. apply IH. lia.
      * intros E. apply Z.add_cancel_l in E. apply (slot_ne n (o - Z.of_nat (S i)) (Z.of_nat (S i))); [lia|].
        rewrite <- E. replace (o - _ + _) with o by lia. rewrite Z.mod_small; lia.
Qed.

Lemma append_other f g s h : g <> f -> 1 <= history_length s -> 0 <= h_oldest (histories s f) < history_length s ->
  ring s g h -> ring (Append f s) g h.
Proof.
  intros Hg Hn Hof [Hc Hb Ho Ht]. destruct (append_fields f s) as (_ & En & _ & _ & _ & _ & Eh).
  split; rewrite ?En, ?Eh by done; try done. intros i Hi. specialize (Ht i Hi). rewrite <- Ht. unfold Timestamp.
  rewrite Eh, En by done. unfold Append. destruct (_ <? _); cbn; rewrite fn_lookup_insert_ne; try done.
  - apply slot_frame; lia.
  - rewrite <- (Z.mod_small (h_oldest (histories s f)) (history_length s)) at 1 by done. apply slot_frame; lia.
Qed.

(** ** The two queues *)

Definition full (n : Z) (h : list Z) : bool := n <=? Z.of_nat (length h).

(** The key a frame waits under: its latest access, or its K-th most recent. *)
Definition lk_key (n : Z) (Q : gmap Z (list Z)) (f : Z) : Z :=
  match Q !! f with
  | Some h => if full n h then List.last h 0 else hd 0 h
  | None => 0
  end.

(** The frames of [Q] wait in the two sets. *)
Record queued (s : lruk) (Q : gmap Z (list Z)) : Prop := {
  q_range f : is_Some (Q !! f) -> 0 <= f < lk_capacity s /\ lk_capacity s <= kNoFrame;
  q_sets : exists li lc, is_set (lk_key (history_length s) Q) (incomplete s) li /\
    is_set (lk_key (history_length s) Q) (complete s) lc /\
    (forall f, f ∈ li <-> exists h, Q !! f = Some h /\ full (history_length s) h = false) /\
    (forall f, f ∈ lc <-> exists h, Q !! f = Some h /\ full (history_length s) h = true)
}.

Lemma queued_length s Q l : queued s Q -> NoDup l -> (forall f, f ∈ l -> is_Some (Q !! f)) -> (length l < lk_fuel s)%nat.
Proof.
  intros Hq Hnd Hl. unfold lk_fuel. assert (length l <= Z.to_nat (lk_capacity s))%nat; [|lia].
  apply nodup_length; [done|]. intros f Hf. by apply (q_range s Q Hq), Hl.
Qed.

(** The history of a frame decides its queue. *)
Lemma ring_full s f h : ring s f h -> HasIncompleteHistory f s = negb (full (history_length s) h).
Proof. intros [Hc _ _ _]. unfold HasIncompleteHistory, full. rewrite Hc. destruct (Z.ltb_spec (Z.of_nat (length h)) (history_length s)), (Z.leb_spec (history_length s) (Z.of_nat (length h))); cbn; lia || done. Qed.

(** Dequeueing changes only the sets. *)
Lemma dequeue_fields f s :
  lk_capacity (LkDequeue f s) = lk_capacity s /\ history_length (LkDequeue f s) = history_length s /\
  lk_clock (LkDequeue f s) = lk_clock s /\ histories (LkDequeue f s) = histories s /\
  timestamps (LkDequeue f s) = timestamps s.
Proof. unfold LkDequeue. by destruct (HasIncompleteHistory f s). Qed.

Lemma enqueue_fields f s :
  lk_capacity (LkEnqueue f s) = lk_capacity s /\ history_length (LkEnqueue f s) = history_length s /\
  lk_clock (LkEnqueue f s) = lk_clock s /\ histories (LkEnqueue f s) = histories s /\
  timestamps (LkEnqueue f s) = timestamps s.
Proof. unfold LkEnqueue. by destruct (HasIncompleteHistory f s). Qed.

Lemma delete_elem (Q : gmap Z (list Z)) f h0 n b (l : list Z) :
  Q !! f = Some h0 -> full n h0 = b -> (forall g, g ∈ l <-> exists h, Q !! g = Some h /\ full n h = b) ->
  forall g, g ∈ without f l <-> exists h, delete f Q !! g = Some h /\ full n h = b.
Proof.
  intros Hf Hb Hl g. rewrite elem_of_without, Hl. destruct (decide (g = f)) as [->|Hg].
  - rewrite lookup_delete_eq. naive_solver.
  - rewrite lookup_delete_ne by done. naive_solver.
Qed.

Lemma delete_other (Q : gmap Z (list Z)) f h0 n b (l : list Z) :
  Q !! f = Some h0 -> full n h0 <> b -> (forall g, g ∈ l <-> exists h, Q !! g = Some h /\ full n h = b) ->
  forall g, g ∈ l <-> exists h, delete f Q !! g = Some h /\ full n h = b.
Proof.
  intros Hf Hb Hl g. rewrite Hl. destruct (decide (g = f)) as [->|Hg].
  - rewrite lookup_delete_eq. naive_solver.
  - rewrite lookup_delete_ne by done. naive_solver.
Qed.

Lemma key_delete Q f n g : g <> f -> lk_key n (delete f Q) g = lk_key n Q g.
Proof. intros Hg. unfold lk_key. by rewrite lookup_delete_ne. Qed.

Lemma key_insert Q f h n g : g <> f -> lk_key n (<[f := h]> Q) g = lk_key n Q g.
Proof. intros Hg. unfold lk_key. by rewrite lookup_insert_ne. Qed.

(** The other set keeps its nodes while one of them changes its own. *)
Lemma other_set K ns rt o lo l lown :
  is_set K (OSet ns rt) l -> only_in lown (OSet ns lo) o -> (forall g, g ∈ l -> g ∉ lown) -> is_set K (OSet (nodes o) rt) l.
Proof. intros Hs Ho Hd. apply (set_ext K (OSet ns rt)); [done|]. intros g Hg. by apply Ho, Hd. Qed.

Lemma dequeue_queued s Q f h :
  queued s Q -> Q !! f = Some h -> ring s f h -> queued (LkDequeue f s) (delete f Q).
Proof.
  intros Hq Hf Hr. destruct (q_sets s Q Hq) as (li & lc & Hi & Hc & Eli & Elc).
  destruct (dequeue_fields f s) as (Ecap & Elen & _).
  assert (forall g, g ∈ li -> g ∉ lc) as Hdisj.
  { intros g Hgi Hgc. apply Eli in Hgi as (h1 & E1 & F1). apply Elc in Hgc as (h2 & E2 & F2). congruence. }
  pose proof (queued_length s Q li Hq (set_nodup _ _ _ Hi) ltac:(intros g Hg; apply Eli in Hg as (? & ? & _); by eexists)) as Hni.
  pose proof (queued_length s Q lc Hq (set_nodup _ _ _ Hc) ltac:(intros g Hg; apply Elc in Hg as (? & ? & _); by eexists)) as Hnc.
  split.
  { intros g [h' Hg]. rewrite Ecap. apply (q_range s Q Hq). exists h'. apply lookup_delete_Some in Hg as [_ ?]. done. }
  rewrite Elen. unfold LkDequeue. rewrite (ring_full s f h Hr). set (n := history_length s) in *.
  destruct (full n h) eqn:Ef; cbn [negb].
  - destruct (erase_spec _ (lk_fuel s) (complete s) lc f Hc) as (o & -> & Hs' & Ho & _); [apply Elc; by exists h|lia|].
    exists li, (without f lc). split_and!.
    + eapply set_rekey; [apply (other_set _ _ _ o (complete_root s) li lc Hi Ho Hdisj)|].
      intros g Hg. apply key_delete. intros ->. apply Eli in Hg as (? & ? & ?). congruence.
    + eapply set_rekey; [by destruct o|]. intros g Hg. apply elem_of_without in Hg as [Hg _]. by apply key_delete.
    + apply (delete_other Q f h); [done|congruence|done].
    + by apply (delete_elem Q f h).
  - destruct (erase_spec _ (lk_fuel s) (incomplete s) li f Hi) as (o & -> & Hs' & Ho & _); [apply Eli; by exists h|lia|].
    exists (without f li), lc. split_and!.
    + eapply set_rekey; [by destruct o|]. intros g Hg. apply elem_of_without in Hg as [Hg _]. by apply key_delete.
    + eapply set_rekey; [apply (other_set _ _ _ o (incomplete_root s) lc li Hc Ho)|].
      * intros g Hg1 Hg2. by apply (Hdisj g).
      * intros g Hg. apply key_delete. intros ->. apply Elc in Hg as (? & ? & ?). congruence.
    + by apply (delete_elem Q f h).
    + apply (delete_other Q f h); [done|congruence|done].
Qed.

Lemma insert_elem (Q : gmap Z (list Z)) f h0 n b (l l1 l2 : list Z) :
  Q !! f = None -> full n h0 = b -> l = l1 ++ l2 -> (forall g, g ∈ l <-> exists h, Q !! g = Some h /\ full n h = b) ->
  forall g, g ∈ l1 ++ f :: l2 <-> exists h, <[f := h0]> Q !! g = Some h /\ full n h = b.
Proof.
  intros Hf Hb -> Hl g. assert (g ∈ l1 ++ f :: l2 <-> g = f \/ g ∈ l1 ++ l2) as -> by set_solver.
  rewrite Hl. destruct (decide (g = f)) as [->|Hg].
  - rewrite lookup_insert_eq. naive_solver.
  - rewrite lookup_insert_ne by done. naive_solver.
Qed.

Lemma insert_other (Q : gmap Z (list Z)) f h0 n b (l : list Z) :
  Q !! f = None -> full n h0 <> b -> (forall g, g ∈ l <-> exists h, Q !! g = Some h /\ full n h = b) ->
  forall g, g ∈ l <-> exists h, <[f := h0]> Q !! g = Some h /\ full n h = b.
Proof.
  intros Hf Hb Hl g. rewrite Hl. destruct (decide (g = f)) as [->|Hg].
  - rewrite lookup_insert_eq. naive_solver.
  - rewrite lookup_insert_ne by done. naive_solver.
Qed.

Lemma nth_last (h : list Z) : h <> [] -> nth (length h - 1) h 0 = List.last h 0.
Proof.
  destruct h as [|x h] using rev_ind; [done|]. intros _. rewrite length_app. cbn.
  replace (length h + 1 - 1)%nat with (length h) by lia. rewrite app_nth2, Nat.sub_diag, last_last by lia. done.
Qed.

(** The timestamp a frame is filed under is its key. *)
Lemma ring_key s f h Q : ring s f h -> h <> [] -> 1 <= history_length s < u32_mod ->
  lk_key (history_length s) (<[f := h]> Q) f =
  if full (history_length s) h then Timestamp f 0 s else Timestamp f (u32 (h_count (histories s f) - 1)) s.
Proof.
  intros [Hc Hb Ho Ht] Hh Hn. assert (0 < length h)%nat as Hl by (destruct h; [done|cbn; lia]).
  unfold lk_key. rewrite lookup_insert_eq, Hc. destruct (full _ h).
  - rewrite <- nth_last, <- Ht by (done || lia). f_equal. lia.
  - rewrite u32_small by (split; lia). specialize (Ht 0%nat Hl). replace (Z.of_nat (length h) - 1 - Z.of_nat 0) with (Z.of_nat (length h) - 1) in Ht by lia.
    rewrite Ht. by destruct h.
Qed.

Lemma enqueue_queued s Q f h :
  queued s Q -> Q !! f = None -> ring s f h -> h <> [] -> 1 <= history_length s < u32_mod ->
  0 <= f < lk_capacity s -> lk_capacity s <= kNoFrame ->
  queued (LkEnqueue f s) (<[f := h]> Q).
Proof.
  intros Hq Hf Hr Hh Hn Hfr Hcap. destruct (q_sets s Q Hq) as (li & lc & Hi & Hc & Eli & Elc).
  destruct (enqueue_fields f s) as (Ecap & Elen & _).
  assert (f ∉ li /\ f ∉ lc) as [Hfi Hfc] by (rewrite Eli, Elc, Hf; naive_solver).
  assert (forall g, g ∈ li -> g ∉ lc) as Hdisj.
  { intros g Hgi Hgc. apply Eli in Hgi as (h1 & E1 & F1). apply Elc in Hgc as (h2 & E2 & F2). congruence. }
  pose proof (queued_length s Q li Hq (set_nodup _ _ _ Hi) ltac:(intros g Hg; apply Eli in Hg as (? & ? & _); by eexists)) as Hni.
  pose proof (queued_length s Q lc Hq (set_nodup _ _ _ Hc) ltac:(intros g Hg; apply Elc in Hg as (? & ? & _); by eexists)) as Hnc.
  split.
  { intros g Hg. rewrite Ecap. split; [|done]. destruct (decide (g = f)) as [->|Hgf]; [done|].
    rewrite lookup_insert_ne in Hg by done. by apply (q_range s Q Hq). }
  rewrite Elen. pose proof (ring_key s f h Q Hr Hh Hn) as Ek. unfold LkEnqueue. rewrite (ring_full s f h Hr).
  set (n := history_length s) in *. set (Q' := <[f := h]> Q) in *.
  assert (forall o l, is_set (lk_key n Q) o l -> f ∉ l -> is_set (lk_key n Q') o l) as Hre.
  { intros o l Ho Hl. eapply set_rekey; [exact Ho|]. intros g Hg. apply key_insert. congruence. }
  destruct (full n h) eqn:Ef; cbn [negb]; rewrite <- Ek.
  - destruct (insert_spec (lk_key n Q') (lk_fuel s) (complete s) lc f) as (o & l1 & l2 & -> & El & Hs' & Ho); [by apply Hre|done|lia|done|].
    exists li, (l1 ++ f :: l2). split_and!.
    + apply (other_set _ _ _ o (complete_root s) li (f :: lc) (Hre _ _ Hi Hfi) Ho).
      intros g Hg. rewrite not_elem_of_cons. split; [congruence|auto].
    + by destruct o.
    + apply insert_other; [done|congruence|done].
    + by apply (insert_elem Q f h n true lc).
  - destruct (insert_spec (lk_key n Q') (lk_fuel s) (incomplete s) li f) as (o & l1 & l2 & -> & El & Hs' & Ho); [by apply Hre|done|lia|done|].
    exists (l1 ++ f :: l2), lc. split_and!.
    + by destruct o.
    + apply (other_set _ _ _ o (incomplete_root s) lc (f :: li) (Hre _ _ Hc Hfc) Ho).
      intros g Hg. rewrite not_elem_of_cons. split; [congruence|]. intros Hg2. by apply (Hdisj g).
    + by apply (insert_elem Q f h n false li).
    + apply insert_other; [done|congruence|done].
Qed.

(** ** The policy as access times *)

Record lruk_is (s : lruk) (H : gmap Z (list Z)) : Prop := {
  lk_cap : 0 <= lk_capacity s <= kNoFrame;
  lk_len : 1 <= history_length s < u32_mod;
  lk_tracked f : h_tracked (histories s f) = true <-> is_Some (H !! f);
  lk_ring f h : H !! f = Some h -> ring s f h /\ h <> [];
  lk_queued : queued s H
}.

Lemma make_lruk_is n k : 0 <= n <= kNoFrame -> 0 <= k < u32_mod -> lruk_is (MakeLruK n k) ∅.
Proof.
  intros Hn Hk. split; cbn.
  - done.
  - destruct (Z.eqb_spec k 0); unfold u32_mod in *; lia.
  - intros f. rewrite lookup_empty. split; [done|by intros []].
  - done.
  - split; [intros f; rewrite lookup_empty; by intros []|]. exists [], [].
    split_and!; try apply empty_set; intros f; setoid_rewrite lookup_empty; split; try (by intros ?%not_elem_of_nil); naive_solver.
Qed.

Lemma ring_same s s' f h : ring s f h -> histories s' f = histories s f -> history_length s' = history_length s ->
  timestamps s' = timestamps s -> ring s' f h.
Proof. intros [? ? ? Ht] E1 E2 E3. split; unfold Timestamp in *; by rewrite ?E1, ?E2, ?E3. Qed.

Lemma queued_same s s' Q : queued s Q -> lk_capacity s' = lk_capacity s -> history_length s' = history_length s ->
  incomplete s' = incomplete s -> complete s' = complete s -> queued s' Q.
Proof. intros [? ?] E1 E2 E3 E4. split; by rewrite ?E1, ?E2, ?E3, ?E4. Qed.

Lemma recorded_nonempty s h : 1 <= history_length s -> recorded s h <> [].
Proof. intros Hn. unfold recorded. destruct (Z.to_nat (history_length s)) eqn:E; [lia|]. done. Qed.

(** Filing a new access of a frame that waits in neither queue. *)
Lemma append_enqueue s H f h :
  0 <= lk_capacity s <= kNoFrame -> 1 <= history_length s < u32_mod -> 0 <= f < lk_capacity s ->
  h_tracked (histories s f) = true -> ring s f h ->
  (forall g, g <> f -> (h_tracked (histories s g) = true <-> is_Some (H !! g))) ->
  (forall g h, g <> f -> H !! g = Some h -> ring s g h /\ h <> []) -> queued s (delete f H) ->
  let s' := LkEnqueue f (Append f s) in
  lruk_is s' (<[f := recorded s h]> H) /\ lk_capacity s' = lk_capacity s /\ history_length s' = history_length s /\
  lk_clock s' = u64 (lk_clock s + 1).
Proof.
  intros Hcap Hn Hf Ht Hr Hto Hro Hq. cbv zeta.
  destruct (append_fields f s) as (A1 & A2 & A3 & A4 & A5 & A6 & A7).
  destruct (enqueue_fields f (Append f s)) as (B1 & B2 & B3 & B4 & B5).
  pose proof (append_ring f s h Hr Hn) as Hr'. pose proof (recorded_nonempty s h ltac:(lia)) as Hne.
  assert (queued (LkEnqueue f (Append f s)) (<[f := recorded s h]> (delete f H))) as Hq'.
  { apply enqueue_queued; rewrite ?A1, ?A2; try done; try lia; [by eapply queued_same|apply lookup_delete_eq]. }
  rewrite insert_delete_eq in Hq'.
  split; [|split_and!; congruence]. split; rewrite ?B1, ?B2, ?A1, ?A2; try done.
  - intros g. rewrite B4. destruct (decide (g = f)) as [->|Hg].
    + rewrite A6, Ht, lookup_insert_eq. naive_solver.
    + rewrite A7, lookup_insert_ne by done. by apply Hto.
  - intros g hg Hg. destruct (decide (g = f)) as [->|Hgf].
    + rewrite lookup_insert_eq in Hg. simplify_eq. split; [|done]. by eapply ring_same; [exact Hr'|rewrite B4|..].
    + rewrite lookup_insert_ne in Hg by done. destruct (Hro g hg Hgf Hg) as [Hrg Hhg]. split; [|done].
      eapply ring_same; [apply (append_other f g s hg)|..]; try done; [lia|apply Hr|by rewrite B4].
Qed.

Lemma lk_touch_is f s H : lruk_is s H ->
  match H !! f with
  | None => LkTouch f s = s
  | Some h => lruk_is (LkTouch f s) (<[f := recorded s h]> H) /\ lk_clock (LkTouch f s) = u64 (lk_clock s + 1)
  end /\ lk_capacity (LkTouch f s) = lk_capacity s /\ history_length (LkTouch f s) = history_length s.
Proof.
  intros [Hcap Hn Ht Hr Hq]. unfold LkTouch. destruct (H !! f) as [h|] eqn:Ef.
  - assert (0 <= f < lk_capacity s) as Hf by (apply (q_range s H Hq); by exists h).
    assert (h_tracked (histories s f) = true) as Et by (apply Ht; by exists h).
    rewrite Et. destruct (Z.leb_spec (lk_capacity s) f); [lia|]. cbn [negb orb].
    destruct (dequeue_fields f s) as (D1 & D2 & D3 & D4 & D5). destruct (Hr f h Ef) as [Hrf Hhf].
    destruct (append_enqueue (LkDequeue f s) H f h) as (Hi & E1 & E2 & E3); rewrite ?D1, ?D2, ?D4; try done.
    + by eapply ring_same; [exact Hrf|rewrite D4|..].
    + intros g hg _ Hg. destruct (Hr g hg Hg). split; [|done]. by eapply ring_same; [done|rewrite D4|..].
    + by apply (dequeue_queued s H f h).
    + unfold recorded in *. rewrite D2, D3 in *. split; [done|]. split; congruence.
  - assert (h_tracked (histories s f) = false) as ->.
    { apply not_true_iff_false. rewrite Ht, Ef. by intros []. }
    rewrite orb_true_r. done.
Qed.

(** The state [LkLoad] and [LkRemove] start from, with the frame in no queue. *)
Lemma lk_detached f s H : lruk_is s H ->
  let s' := if h_tracked (histories s f) then LkDequeue f s else s in
  queued s' (delete f H) /\ lk_capacity s' = lk_capacity s /\ history_length s' = history_length s /\
  lk_clock s' = lk_clock s /\ histories s' = histories s /\ timestamps s' = timestamps s.
Proof.
  intros [Hcap Hn Ht Hr Hq]. cbv zeta. destruct (h_tracked (histories s f)) eqn:Et.
  - apply Ht in Et as [h Ef]. destruct (Hr f h Ef) as [Hrf _]. pose proof (dequeue_fields f s).
    split; [by apply (dequeue_queued s H f h)|done].
  - rewrite delete_id; [done|]. apply eq_None_not_Some. intros Hs. apply Ht in Hs. congruence.
Qed.

Lemma lk_load_is f s H : lruk_is s H -> 0 <= f < lk_capacity s ->
  lruk_is (LkLoad f s) (<[f := [u64 (lk_clock s + 1)]]> H) /\ lk_capacity (LkLoad f s) = lk_capacity s /\
  history_length (LkLoad f s) = history_length s /\ lk_clock (LkLoad f s) = u64 (lk_clock s + 1).
Proof.
  intros Hs Hf. pose proof (lk_detached f s H Hs) as (Hq & D1 & D2 & D3 & D4 & D5). destruct Hs as [Hcap Hn Ht Hr _].
  unfold LkLoad. set (s1 := if h_tracked (histories s f) then LkDequeue f s else s) in *.
  set (s2 := put_history f (History true 0 0) s1).
  assert (recorded s2 [] = [u64 (lk_clock s + 1)]) as Erec.
  { unfold recorded, s2. cbn. rewrite D2, D3. destruct (Z.to_nat (history_length s)) as [|[]] eqn:E; [lia|done..]. }
  rewrite <- Erec, <- D1, <- D2, <- D3. apply (append_enqueue s2 H f []); cbn; rewrite ?D1, ?D2, ?fn_lookup_insert; try done.
  - split; cbn; rewrite ?fn_lookup_insert; cbn; try done; try lia.
  - intros g Hg. rewrite fn_lookup_insert_ne, D4 by done. apply Ht.
  - intros g hg Hgf Hg. destruct (Hr g hg Hg) as [Hrg ?]. split; [|done].
    eapply ring_same; [exact Hrg|..]; cbn; try done. by rewrite fn_lookup_insert_ne, D4.
  - by eapply queued_same.
Qed.

Lemma lk_remove_is f s H : lruk_is s H ->
  lruk_is (LkRemove f s) (delete f H) /\ lk_capacity (LkRemove f s) = lk_capacity s /\
  history_length (LkRemove f s) = history_length s /\ lk_clock (LkRemove f s) = lk_clock s.
Proof.
  intros Hs. pose proof (lk_detached f s H Hs) as (Hq & D1 & D2 & D3 & D4 & D5). pose proof Hs as [Hcap Hn Ht Hr _].
  unfold LkRemove. destruct (h_tracked (histories s f)) eqn:Et; cbn [negb].
  - split; [|done]. split; cbn; rewrite ?D1, ?D2; try done.
    + intros g. destruct (decide (g = f)) as [->|Hg].
      * rewrite fn_lookup_insert, lookup_delete_eq. split; [done|by intros []].
      * rewrite fn_lookup_insert_ne, lookup_delete_ne, D4 by done. apply Ht.
    + intros g hg Hg. apply lookup_delete_Some in Hg as [Hgf Hg]. destruct (Hr g hg Hg) as [Hrg ?]. split; [|done].
      eapply ring_same; [exact Hrg|..]; cbn; try done. by rewrite fn_lookup_insert_ne, D4.
    + by eapply queued_same.
  - split; [|done]. rewrite delete_id; [done|]. apply eq_None_not_Some. intros Hsm. apply Ht in Hsm. congruence.
Qed.

(** [a] is evicted before [b]: fewer than K accesses first, then the older key,
    then the lower number. *)
Definition evicted_before (n : Z) (H : gmap Z (list Z)) (a b : Z) (ha hb : list Z) : Prop :=
  match full n ha, full n hb with
  | false, true => True
  | true, false => False
  | _, _ => less (lk_key n H) a b
  end.

Lemma lk_pick_is probe s H : lruk_is s H ->
  match LkPick probe s with
  | Some f => exists h, H !! f = Some h /\ probe f = true /\
      forall g hg, H !! g = Some hg -> probe g = true -> g <> f -> evicted_before (history_length s) H f g h hg
  | None => forall g, is_Some (H !! g) -> probe g = false
  end.
Proof.
  intros [Hcap Hn Ht Hr Hq]. destruct (q_sets s H Hq) as (li & lc & Hi & Hc & Eli & Elc).
  pose proof (queued_length s H li Hq (set_nodup _ _ _ Hi) ltac:(intros g Hg; apply Eli in Hg as (? & ? & _); by eexists)) as Hni.
  pose proof (queued_length s H lc Hq (set_nodup _ _ _ Hc) ltac:(intros g Hg; apply Elc in Hg as (? & ? & _); by eexists)) as Hnc.
  unfold LkPick. rewrite (pick_spec _ _ true probe _ li Hi Hni), (pick_spec _ _ true probe _ lc Hc Hnc). cbn [default from_option id].
  pose proof (pick_extreme _ _ _ true probe Hi) as Pi. pose proof (pick_extreme _ _ _ true probe Hc) as Pc. unfold evicted_before.
  destruct (find probe (along true li)) as [f|].
  - destruct Pi as (Hf & Hp & Hmin). apply Eli in Hf as (h & Eh & Fh). exists h. split; [done|]. split; [done|].
    intros g hg Hg Hpg Hgf. rewrite Fh. destruct (full _ hg) eqn:Fg; [done|].
    destruct (Hmin g ltac:(apply Eli; by exists hg) Hpg) as [?|?]; done.
  - destruct (find probe (along true lc)) as [f|].
    + destruct Pc as (Hf & Hp & Hmin). apply Elc in Hf as (h & Eh & Fh). exists h. split; [done|]. split; [done|].
      intros g hg Hg Hpg Hgf. rewrite Fh. destruct (full _ hg) eqn:Fg.
      * destruct (Hmin g ltac:(apply Elc; by exists hg) Hpg) as [?|?]; done.
      * rewrite (Pi g) in Hpg; [done|]. apply Eli. by exists hg.
    + intros g [hg Hg]. destruct (full (history_length s) hg) eqn:Fg.
      * apply Pc, Elc. by exists hg.
      * apply Pi, Eli. by exists hg.
Qed.

#[export] Program Instance lruk_laws : PolicyLaws lruk := {
  p_valid s := exists H, lruk_is s H;
  p_tracked s f := h_tracked (histories s f) = true
}.
Next Obligation.
  intros f s [H Hs]. destruct (lk_touch_is f s H Hs) as (Ht & Ec & _). cbn. destruct (H !! f) as [h|] eqn:Ef.
  - destruct Ht as [Hs' _]. split; [by eexists|]. split; [done|]. intros g.
    rewrite (lk_tracked _ _ Hs'), (lk_tracked _ _ Hs). destruct (decide (g = f)) as [->|Hg].
    + rewrite lookup_insert_eq, Ef. naive_solver.
    + by rewrite lookup_insert_ne.
  - rewrite Ht. split; [by exists H|done].
Qed.
Next Obligation.
  intros f s [H Hs] Hf. destruct (lk_load_is f s H Hs Hf) as (Hs' & Ec & _). cbn. split; [by eexists|]. split; [done|].
  intros g. rewrite (lk_tracked _ _ Hs'), (lk_tracked _ _ Hs). destruct (decide (g = f)) as [->|Hg].
  - rewrite lookup_insert_eq. naive_solver.
  - rewrite lookup_insert_ne by done. naive_solver.
Qed.
Next Obligation.
  intros f s [H Hs] Hf. destruct (lk_remove_is f s H Hs) as (Hs' & Ec & _). cbn. split; [by eexists|]. split; [done|].
  intros g. rewrite (lk_tracked _ _ Hs'), (lk_tracked _ _ Hs). destruct (decide (g = f)) as [->|Hg].
  - rewrite lookup_delete_eq. split; [by intros []|naive_solver].
  - rewrite lookup_delete_ne by done. naive_solver.
Qed.
Next Obligation.
  intros probe s [H Hs]. cbn. pose proof (lk_pick_is probe s H Hs) as Hp. destruct (LkPick probe s) as [f|].
  - destruct Hp as (h & Hh & Hpf & _). split; [|done]. apply (lk_tracked _ _ Hs). by exists h.
  - intros f Hf. by apply Hp, (lk_tracked _ _ Hs).
Qed.
Next Obligation.
  intros s f [H Hs] Hf. apply (lk_tracked _ _ Hs) in Hf. by apply (q_range s H (lk_queued _ _ Hs)).
Qed.

(** ** Runs *)

Lemma lk_touch_capacity f s : lk_capacity (LkTouch f s) = lk_capacity s.
Proof.
  unfold LkTouch. destruct (_ || _); [done|].
  by rewrite (proj1 (enqueue_fields _ _)), (proj1 (append_fields _ _)), (proj1 (dequeue_fields _ _)).
Qed.
Lemma lk_load_capacity f s : lk_capacity (LkLoad f s) = lk_capacity s.
Proof.
  unfold LkLoad. rewrite (proj1 (enqueue_fields _ _)), (proj1 (append_fields _ _)). cbn.
  destruct (h_tracked _); [apply dequeue_fields|done].
Qed.
Lemma lk_remove_capacity f s : lk_capacity (LkRemove f s) = lk_capacity s.
Proof. unfold LkRemove. destruct (negb _); [done|]. cbn. apply dequeue_fields. Qed.

(** The number of accesses so far and the last K access times of every loaded
    frame, latest first, in terms of the calls alone. *)
Record access_log := AccessLog { now : Z; times : gmap Z (list Z) }.

Definition lk_order (k : Z) (c : replacer_call) (r : access_log) : access_log :=
  match c with
  | CallAccess _ f =>
      match times r !! f with
      | Some h => AccessLog (now r + 1) (<[f := take (Z.to_nat k) (now r + 1 :: h)]> (times r))
      | None => r
      end
  | CallLoad _ f => AccessLog (now r + 1) (<[f := [now r + 1]]> (times r))
  | CallRemove _ f => AccessLog (now r) (delete f (times r))
  | CallVictim _ => r
  end.

Lemma lk_step n k s r c :
  lruk_is s (times r) -> lk_clock s = now r -> 0 <= now r -> now r + 1 < u64_mod -> lk_capacity s = n ->
  history_length s = k -> call_in_range n c ->
  let s' := immediate c s in let r' := lk_order k c r in
  lruk_is s' (times r') /\ lk_clock s' = now r' /\ 0 <= now r' <= now r + 1 /\ lk_capacity s' = n /\ history_length s' = k.
Proof.
  intros Hs Hc Hn Hw Hcap Hk Hr. assert (u64 (lk_clock s + 1) = now r + 1) as Ew by (rewrite Hc; apply u64_small; split; lia).
  cbv zeta. destruct c as [th f|th f|th f|probe]; cbn [immediate lk_order call_in_range] in *.
  - destruct (lk_touch_is f s _ Hs) as (Ht & E1 & E2). cbn. destruct (times r !! f) as [h|] eqn:Ef.
    + destruct Ht as [Hs' Ecl]. unfold recorded in Hs'. rewrite Ew, Hk in *. cbn. split_and!; try done; try congruence; lia.
    + rewrite Ht. split_and!; try done; lia.
  - destruct (lk_load_is f s _ Hs ltac:(lia)) as (Hs' & E1 & E2 & E3). cbn. rewrite Ew in *. split_and!; try done; try congruence; lia.
  - destruct (lk_remove_is f s _ Hs) as (Hs' & E1 & E2 & E3). cbn. split_and!; try done; try congruence; lia.
  - split_and!; try done; lia.
Qed.

Lemma lk_immediate n k cs s r :
  Forall (call_in_range n) cs -> lruk_is s (times r) -> lk_clock s = now r -> 0 <= now r ->
  now r + Z.of_nat (length cs) < u64_mod -> lk_capacity s = n -> history_length s = k ->
  lruk_is (foldl (flip immediate) s cs) (times (foldl (flip (lk_order k)) r cs)) /\
  history_length (foldl (flip immediate) s cs) = k.
Proof.
  intros Hr. revert s r. induction Hr as [|c cs Hc Hr IH]; intros s r Hs Hcl Hn Hw Hcap Hk; [done|].
  cbn in Hw |- *. destruct (lk_step n k s r c Hs Hcl Hn ltac:(lia) Hcap Hk Hc) as (Hs' & Hcl' & Hn' & Hcap' & Hk').
  apply IH; try done; lia.
Qed.

(** C34 — the batched LRU-K policy is LRU-K: after any calls one thread makes
    (fewer than the 64-bit clock can count), [Victim] returns the tracked frame,
    among those that may be evicted, that LRU-K evicts first: frames with fewer
    than K accesses go first, the one whose latest access is oldest, then the
    frame whose K-th most recent access is oldest.  It returns nothing only when
    no tracked frame may be evicted.  The access times are those of the calls,
    each taking effect at once. *)
Theorem lru_k_batched_exact hw th n k cs probe :
  0 <= n <= kNoFrame -> 1 <= k < u32_mod -> Forall (by_thread th) cs -> Forall (call_in_range n) cs ->
  Z.of_nat (length cs) < u64_mod ->
  let H := times (foldl (flip (lk_order k)) (AccessLog 0 ∅) cs) in
  match (BatchedVictim probe (foldl (flip batched) (NewBatcher hw, MakeLruK n k) cs)).1 with
  | Some f => exists h, H !! f = Some h /\ probe f = true /\
      forall g hg, H !! g = Some hg -> probe g = true -> g <> f -> evicted_before k H f g h hg
  | None => forall g, is_Some (H !! g) -> probe g = false
  end.
Proof.
  intros Hn Hk Hth Hr Hl. pose proof (slot_index_range th hw) as Ho.
  destruct (@batched_run lruk lruk_policy lk_touch_capacity lk_load_capacity lk_remove_capacity
    th cs (NewBatcher hw, MakeLruK n k) n Hth Hr eq_refl Ho) as [Es Ho'].
  cbn [fst] in *. unfold BatchedVictim. cbn [fst]. destruct (drain_all_settled p_touch _ _ Ho') as (-> & _ & _). rewrite Es.
  assert (history_length (MakeLruK n k) = k) as Ek by (cbn; destruct (Z.eqb_spec k 0); lia).
  destruct (lk_immediate n k cs (MakeLruK n k) (AccessLog 0 ∅)) as [Hi Ei]; try done; [apply make_lruk_is; lia|].
  cbv zeta. pose proof (lk_pick_is probe _ _ Hi) as Hp. by rewrite Ei in Hp.
Qed.

Definition lruk_calls : list replacer_call :=
  [CallLoad 1 0; CallLoad 1 1; CallLoad 1 2; CallAccess 1 0; CallAccess 1 1; CallAccess 1 2; CallAccess 1 0;
   CallLoad 1 3; CallRemove 1 3; CallAccess 1 3; CallAccess 1 5].

(** Frame 1's second most recent access (its load, at time 2) is older than those
    of frames 2 (time 3) and 0 (time 4). *)
Lemma lru_k_batched_exact_witness :
  (BatchedVictim (fun _ => true) (foldl (flip batched) (NewBatcher 2, MakeLruK 6 2) lruk_calls)).1 = Some 1 /\
  times (foldl (flip (lk_order 2)) (AccessLog 0 ∅) lruk_calls) !! 1 = Some [5; 2].
Proof.
  pose proof (lru_k_batched_exact 2 1 6 2 lruk_calls (fun _ => true)) as Hb.
  assert ((BatchedVictim (fun _ => true) (foldl (flip batched) (NewBatcher 2, MakeLruK 6 2) lruk_calls)).1 = Some 1) as E
    by (vm_compute; reflexivity).
  split; [exact E|]. rewrite E in Hb. destruct Hb as (h & Hh & _ & _).
  - split; vm_compute; congruence.
  - split; vm_compute; congruence.
  - repeat constructor.
  - repeat constructor; simpl; lia.
  - vm_compute. reflexivity.
  - rewrite Hh. vm_compute in Hh. by injection Hh as <-.
Defined.
