(* ===== verification/FlushScheduler.v ===== *)
(** The flush scheduler, [lib/buffer/flush_scheduler.h] and [.cc]: the foreground
    and background queues of writeback tasks and the choice of the next batch.

    Both queues change only under the scheduler's latch, so [Enqueue] and
    [TakeNextBatch] are transformations of the state; the counter of consecutive
    foreground flushes is [thread_local], one per worker.  [sched_step] is the
    interleaving of the calls of any number of threads.  The tasks themselves are
    opaque here; [cleaner_owned] is the field the queues depend on. *)
From stdpp Require Import strings.
From S2P Require Import Prelude Status.

Section Scheduler.
Context {T : Type} (cleaner_owned : T -> bool).

Record scheduler := Scheduler {
  submit_batch_size : Z;
  foreground_burst_limit : Z;
  foreground_queue : list T;
  background_queue : list T;
  consecutive_foreground_flushes : nat -> Z;
  sched_shutdown : bool
}.

Definition MakeScheduler (batch burst : Z) : scheduler :=
  Scheduler batch burst [] [] (fun _ => 0) false.

Definition set_queues (s : scheduler) (fg bg : list T) : scheduler :=
  Scheduler (submit_batch_size s) (foreground_burst_limit s) fg bg
    (consecutive_foreground_flushes s) (sched_shutdown s).

(** One task leaves a queue and the worker's counter becomes [n]. *)
Definition took (s : scheduler) (w : nat) (fg bg : list T) (n : Z) : scheduler :=
  Scheduler (submit_batch_size s) (foreground_burst_limit s) fg bg
    (<[w := n]> (consecutive_foreground_flushes s)) (sched_shutdown s).

(** Null tasks are not representable. *)
Definition Enqueue (task : T) (s : scheduler) : Status * scheduler :=
  if sched_shutdown s then (Unavailable "flush scheduler is shutting down" 0, s)
  else if cleaner_owned task
  then (Ok tt, set_queues s (foreground_queue s) (background_queue s ++ [task]))
  else (Ok tt, set_queues s (foreground_queue s ++ [task]) (background_queue s)).

Definition is_empty (l : list T) : bool := match l with [] => true | _ => false end.

Definition ShouldServeBackground (s : scheduler) (n : Z) : bool :=
  negb (is_empty (background_queue s)) && (foreground_burst_limit s <=? n).

(** One pass of the loop of [TakeNextBatch]; [None] is the [break]. *)
Definition take_one (w : nat) (s : scheduler) : option (T * scheduler) :=
  let n := consecutive_foreground_flushes s w in
  match foreground_queue s, background_queue s with
  | fg, b :: bg =>
      if ShouldServeBackground s n then Some (b, took s w fg bg 0)
      else match fg with
           | f :: fg => Some (f, took s w fg (b :: bg) (u64 (n + 1)))
           | [] => Some (b, took s w fg bg 0)
           end
  | f :: fg, [] => Some (f, took s w fg [] (u64 (n + 1)))
  | [], [] => None
  end.

Fixpoint take_loop (room : nat) (w : nat) (s : scheduler) : list T * scheduler :=
  match room with
  | O => ([], s)
  | S room =>
      match take_one w s with
      | None => ([], s)
      | Some (t, s) => let '(ts, s) := take_loop room w s in (t :: ts, s)
      end
  end.

(** A call that does not block: [None] while there is nothing to do and the
    scheduler runs; otherwise the tasks and [should_stop]. *)
Definition TakeNextBatch (w : nat) (s : scheduler) : option (list T * bool * scheduler) :=
  if is_empty (foreground_queue s) && is_empty (background_queue s)
  then if sched_shutdown s then Some ([], true, s) else None
  else let '(ts, s) := take_loop (Z.to_nat (submit_batch_size s)) w s in Some (ts, false, s).

(** [Shutdown] before the workers are joined. *)
Definition BeginShutdown (s : scheduler) : scheduler :=
  Scheduler (submit_batch_size s) (foreground_burst_limit s) (foreground_queue s)
    (background_queue s) (consecutive_foreground_flushes s) true.

(** ** Interleaved calls *)

(** What a step did: a task entered, a task was taken by a worker. *)
Inductive sched_event := Entered (t : T) | Taken (w : nat) (t : T).

Inductive sched_step : scheduler -> sched_event -> scheduler -> Prop :=
  | sched_enqueue s t s' : Enqueue t s = (Ok tt, s') -> sched_step s (Entered t) s'
  | sched_take s w t s' : take_one w s = Some (t, s') -> sched_step s (Taken w t) s'.

Inductive sched_run : scheduler -> list sched_event -> scheduler -> Prop :=
  | run_nil s : sched_run s [] s
  | run_cons s e s1 es s2 : sched_step s e s1 -> sched_run s1 es s2 -> sched_run s (e :: es) s2.

Definition takes (es : list sched_event) : nat :=
  length (filter (fun e => match e with Taken _ _ => true | _ => false end = true) es).

(** ** Every task is taken once, in order *)

Lemma take_one_spec w s t s' :
  take_one w s = Some (t, s') ->
  submit_batch_size s' = submit_batch_size s /\ foreground_burst_limit s' = foreground_burst_limit s /\
  (forall v, v <> w -> consecutive_foreground_flushes s' v = consecutive_foreground_flushes s v) /\
  ((background_queue s = t :: background_queue s' /\ foreground_queue s' = foreground_queue s /\
    consecutive_foreground_flushes s' w = 0) \/
   (foreground_queue s = t :: foreground_queue s' /\ background_queue s' = background_queue s /\
    (background_queue s <> [] -> consecutive_foreground_flushes s w < foreground_burst_limit s) /\
    consecutive_foreground_flushes s' w = u64 (consecutive_foreground_flushes s w + 1))).
Proof.
  unfold take_one, ShouldServeBackground. intros E.
  destruct (foreground_queue s) as [|f fg] eqn:Ef, (background_queue s) as [|b bg] eqn:Eb;
    cbn [is_empty negb andb] in E; try done;
    try destruct (Z.leb_spec (foreground_burst_limit s) (consecutive_foreground_flushes s w));
    injection E as <- <-;
    (split; [done|]; split; [done|]; split;
      [intros v Hv; cbn; by rewrite fn_lookup_insert_ne|]);
    cbn [took background_queue foreground_queue consecutive_foreground_flushes];
    rewrite fn_lookup_insert; [left|left|right|right|left|right]; done.
Qed.

(** A worker finds a task whenever there is one. *)
Lemma take_one_total w s :
  foreground_queue s <> [] \/ background_queue s <> [] -> exists t s', take_one w s = Some (t, s').
Proof.
  intros Hq. unfold take_one. destruct (foreground_queue s) as [|f fg], (background_queue s) as [|b bg];
    try destruct (ShouldServeBackground _ _); eauto. by destruct Hq.
Qed.

(** ** Background tasks are not starved *)

(** How many more foreground tasks the workers [ws] may take while background
    work is pending. *)
Definition slack (ws : list nat) (s : scheduler) : Z :=
  foldr (fun w n => Z.max 0 (foreground_burst_limit s - consecutive_foreground_flushes s w) + n) 0 ws.

Lemma slack_bound ws s :
  0 <= foreground_burst_limit s -> (forall w, 0 <= consecutive_foreground_flushes s w) ->
  0 <= slack ws s <= Z.of_nat (length ws) * foreground_burst_limit s.
Proof.
  intros HL Hc. induction ws as [|w ws IH]; cbn [slack foldr length]; [lia|].
  fold (slack ws s). specialize (Hc w). lia.
Qed.

Lemma slack_ext ws s s' :
  foreground_burst_limit s' = foreground_burst_limit s ->
  (forall w, w ∈ ws -> consecutive_foreground_flushes s' w = consecutive_foreground_flushes s w) ->
  slack ws s' = slack ws s.
Proof.
  intros HL. induction ws as [|w ws IH]; intros He; [done|]. cbn [slack foldr].
  fold (slack ws s) (slack ws s'). rewrite HL, IH, (He w) by set_solver. done.
Qed.

(** Only worker [w]'s term changes. *)
Lemma slack_update ws w s s' :
  NoDup ws -> w ∈ ws -> foreground_burst_limit s' = foreground_burst_limit s ->
  (forall v, v <> w -> consecutive_foreground_flushes s' v = consecutive_foreground_flushes s v) ->
  slack ws s' = slack ws s
    - Z.max 0 (foreground_burst_limit s - consecutive_foreground_flushes s w)
    + Z.max 0 (foreground_burst_limit s - consecutive_foreground_flushes s' w).
Proof.
  intros Hnd Hw HL He. induction ws as [|v ws IH]; [by apply not_elem_of_nil in Hw|].
  apply list.NoDup_cons in Hnd as [Hv Hnd]. cbn [slack foldr]. fold (slack ws s) (slack ws s').
  apply elem_of_cons in Hw as [->|Hw].
  - rewrite (slack_ext ws s s'); [rewrite HL; lia|done|]. intros u Hu. apply He. by intros ->.
  - rewrite IH, HL, (He v); [lia| |done|done]. by intros ->.
Qed.

Record sched_ok (s : scheduler) : Prop := {
  so_limit : 1 <= foreground_burst_limit s < u64_mod;
  so_count w : 0 <= consecutive_foreground_flushes s w
}.

Lemma take_one_ok w s t s' : sched_ok s -> take_one w s = Some (t, s') -> sched_ok s'.
Proof.
  intros [HL Hc] E. destruct (take_one_spec _ _ _ _ E) as (_ & EL & Ho & Hcase).
  split; [by rewrite EL|]. intros v. destruct (decide (v = w)) as [->|Hv]; [|by rewrite Ho].
  destruct Hcase as [(_ & _ & ->)|(_ & _ & _ & ->)]; [lia|]. apply u64_range.
Qed.

(** Enqueue puts a task into the queue of its kind. *)
Definition sched_typed (s : scheduler) : Prop :=
  Forall (fun t => cleaner_owned t = false) (foreground_queue s) /\ Forall (fun t => cleaner_owned t = true) (background_queue s).

(** The tasks of one kind that workers of [vs] take in a run. *)
Definition took_by (vs : list nat) (background : bool) (es : list sched_event) : nat :=
  length (filter (fun e => match e with
    | Taken w t => bool_decide (w ∈ vs) && Bool.eqb (cleaner_owned t) background
    | Entered _ => false
    end = true) es).

(** The takes of a run that are by workers in [ws]. *)
Definition by_workers (ws : list nat) (es : list sched_event) : Prop :=
  Forall (fun e => match e with Taken w _ => w ∈ ws | Entered _ => True end) es.

Lemma took_by_entered vs bg t es : took_by vs bg (Entered t :: es) = took_by vs bg es.
Proof. unfold took_by. by rewrite filter_cons_False. Qed.

Lemma took_by_taken vs bg w t es :
  took_by vs bg (Taken w t :: es) = ((if bool_decide (w ∈ vs) && Bool.eqb (cleaner_owned t) bg then 1 else 0) + took_by vs bg es)%nat.
Proof.
  unfold took_by. destruct (bool_decide (w ∈ vs) && _) eqn:E; [by rewrite filter_cons_True|]. rewrite filter_cons_False; [done|]. by rewrite E.
Qed.

Lemma took_by_all ws es : by_workers ws es -> takes es = (took_by ws false es + took_by ws true es)%nat.
Proof.
  intros Hw. induction Hw as [|[t|w t] es Hw _ IH]; [done|..].
  - rewrite !took_by_entered. unfold takes. rewrite filter_cons_False by done. exact IH.
  - rewrite !took_by_taken, bool_decide_eq_true_2 by done. unfold takes in *. rewrite filter_cons_True by done. cbn [length]. rewrite IH.
    destruct (cleaner_owned t); cbn; lia.
Qed.

Lemma took_by_one ws w bg es : by_workers ws es -> (took_by [w] bg es <= took_by ws bg es)%nat.
Proof.
  intros Hw. induction Hw as [|[t|v t] es Hv _ IH]; [done|by rewrite !took_by_entered|]. rewrite !took_by_taken, (bool_decide_eq_true_2 (v ∈ ws)) by done.
  destruct (bool_decide _), (Bool.eqb _ _); cbn; lia.
Qed.

Lemma enqueue_waits t s s' k b :
  sched_ok s -> sched_typed s -> background_queue s !! k = Some b -> Enqueue t s = (Ok tt, s') ->
  sched_ok s' /\ sched_typed s' /\ background_queue s' !! k = Some b /\ foreground_burst_limit s' = foreground_burst_limit s /\
  forall vs, slack vs s' = slack vs s.
Proof.
  intros [HL Hc] [Tf Tb] Hk E. unfold Enqueue in E. destruct (sched_shutdown s); [done|].
  destruct (cleaner_owned t) eqn:Et; injection E as <-; (split; [done|]); unfold sched_typed; cbn [set_queues background_queue foreground_queue].
  - split; [split; [done|apply list.Forall_app; split; [done|by apply list.Forall_singleton]]|]. split; [by apply lookup_app_l_Some|done].
  - split; [split; [apply list.Forall_app; split; [done|by apply list.Forall_singleton]|done]|done].
Qed.

(** A worker takes a task while the background task in position [k] waits: it is
    that task, a background task before it, or a foreground task within the
    worker's burst. *)
Lemma take_waits w s t s' k b :
  sched_ok s -> sched_typed s -> background_queue s !! k = Some b -> take_one w s = Some (t, s') ->
  sched_ok s' /\ sched_typed s' /\ foreground_burst_limit s' = foreground_burst_limit s /\
  (cleaner_owned t = true /\ (k = O /\ t = b \/ exists k', k = S k' /\ background_queue s' !! k' = Some b) \/
   cleaner_owned t = false /\ background_queue s' !! k = Some b) /\
  forall vs, NoDup vs -> slack vs s' + (if bool_decide (w ∈ vs) && negb (cleaner_owned t) then 1 else 0) <=
    slack vs s + (if bool_decide (w ∈ vs) && cleaner_owned t then foreground_burst_limit s else 0).
Proof.
  intros Hok [Tf Tb] Hk E. pose proof Hok as [HL Hc]. split; [by eapply take_one_ok|]. pose proof (take_one_ok _ _ _ _ Hok E) as [_ Hc'].
  destruct (take_one_spec _ _ _ _ E) as (_ & EL & Ho & Hcase).
  assert (forall vs, NoDup vs -> w ∉ vs -> slack vs s' = slack vs s) as Hout.
  { intros vs _ Hv. apply slack_ext; [done|]. intros v Hin. apply Ho. by intros ->. }
  assert (forall vs, NoDup vs -> w ∈ vs -> slack vs s' = slack vs s - Z.max 0 (foreground_burst_limit s - consecutive_foreground_flushes s w) +
    Z.max 0 (foreground_burst_limit s - consecutive_foreground_flushes s' w)) as Hin by (intros vs Hnd Hv; by apply slack_update).
  pose proof (Hc w). destruct Hcase as [(Eb & Ef & Ec)|(Ef & Eb & Hlt & Ec)].
  - rewrite Eb in Tb, Hk. apply list.Forall_cons in Tb as [Tt Tb]. split; [split; [by rewrite Ef|done]|]. split; [done|]. split.
    + left. split; [done|]. destruct k as [|k]; cbn in Hk; [left; split; congruence|right; by exists k].
    + intros vs Hnd. rewrite Tt. case_bool_decide as Hv; cbn [negb andb]; [rewrite (Hin vs Hnd Hv), Ec; lia|rewrite (Hout vs Hnd Hv); lia].
  - rewrite Ef in Tf. apply list.Forall_cons in Tf as [Tt Tf]. split; [split; [done|by rewrite Eb]|]. split; [done|]. split; [right; by rewrite Eb|].
    assert (consecutive_foreground_flushes s w < foreground_burst_limit s) as Hl by (apply Hlt; intros E0; by rewrite E0 in Hk).
    rewrite u64_small in Ec by (unfold is_u64; lia).
    intros vs Hnd. rewrite Tt. case_bool_decide as Hv; cbn [negb andb]; [rewrite (Hin vs Hnd Hv), Ec; lia|rewrite (Hout vs Hnd Hv); lia].
Qed.

Lemma run_waits ws s es s' k b :
  sched_ok s -> sched_typed s -> background_queue s !! k = Some b -> sched_run s es s' -> by_workers ws es ->
  if decide (took_by ws true es <= k)%nat
  then background_queue s' !! (k - took_by ws true es)%nat = Some b /\ sched_ok s' /\
    forall vs, NoDup vs -> slack vs s' + Z.of_nat (took_by vs false es) <= slack vs s + Z.of_nat (took_by vs true es) * foreground_burst_limit s
  else exists w, Taken w b ∈ es.
Proof.
  intros Hok Hty Hk Hrun. revert k Hok Hty Hk. induction Hrun as [s|s e s1 es s2 Hstep Hrun IH]; intros k Hok Hty Hk Hw.
  { rewrite decide_True by (unfold took_by; cbn; lia). unfold took_by. cbn. rewrite Nat.sub_0_r. split; [done|]. split; [done|]. intros. lia. }
  apply list.Forall_cons in Hw as [Hwe Hw]. destruct Hstep as [s t s1 E|s w t s1 E].
  - destruct (enqueue_waits t s s1 k b Hok Hty Hk E) as (Hok1 & Hty1 & Hk1 & EL & Es). specialize (IH k Hok1 Hty1 Hk1 Hw).
    rewrite took_by_entered. destruct (decide _); [|destruct IH as [v Hv]; exists v; set_solver].
    destruct IH as (? & ? & IH). split; [done|]. split; [done|]. intros vs Hnd. rewrite !took_by_entered, <- EL, <- Es. by apply IH.
  - destruct (take_waits w s t s1 k b Hok Hty Hk E) as (Hok1 & Hty1 & EL & Hcase & Es). rewrite took_by_taken, bool_decide_eq_true_2 by done.
    assert (forall vs, NoDup vs ->
      slack vs s2 + Z.of_nat (took_by vs false es) <= slack vs s1 + Z.of_nat (took_by vs true es) * foreground_burst_limit s1 ->
      slack vs s2 + Z.of_nat (took_by vs false (Taken w t :: es)) <= slack vs s + Z.of_nat (took_by vs true (Taken w t :: es)) * foreground_burst_limit s) as Hsum.
    { intros vs Hnd Hs. rewrite !took_by_taken. specialize (Es vs Hnd). rewrite EL in Hs.
      destruct (bool_decide (w ∈ vs)), (cleaner_owned t); cbn [andb negb Bool.eqb] in *; lia. }
    destruct Hcase as [(Et & [[-> ->]|(k' & -> & Hk')])|(Et & Hk')]; rewrite Et; cbn [andb Bool.eqb Nat.add].
    + rewrite decide_False by lia. exists w. set_solver.
    + specialize (IH k' Hok1 Hty1 Hk' Hw). destruct (decide (took_by ws true es <= k')%nat).
      * rewrite decide_True by lia. destruct IH as (IH1 & IH2 & IH3). split; [exact IH1|]. split; [done|]. intros vs Hnd. by apply Hsum, IH3.
      * rewrite decide_False by lia. destruct IH as [v Hv]. exists v. set_solver.
    + specialize (IH k Hok1 Hty1 Hk' Hw). destruct (decide _); [|destruct IH as [v Hv]; exists v; set_solver].
      destruct IH as (IH1 & IH2 & IH3). split; [exact IH1|]. split; [done|]. intros vs Hnd. by apply Hsum, IH3.
Qed.

(** A batch is a run of takes by its worker. *)
Lemma take_loop_spec room w s :
  let '(ts, s') := take_loop room w s in
  (length ts <= room)%nat /\ sched_run s (Taken w <$> ts) s' /\
  exists fg bg, ts ≡ₚ fg ++ bg /\ fg `sublist_of` ts /\ bg `sublist_of` ts /\
    foreground_queue s = fg ++ foreground_queue s' /\ background_queue s = bg ++ background_queue s'.
Proof.
  revert s. induction room as [|room IH]; intros s; cbn [take_loop].
  { split; [done|]. split; [constructor|]. by exists [], []. }
  destruct (take_one w s) as [[t s1]|] eqn:E; last first.
  { split; [cbn; lia|]. split; [constructor|]. by exists [], []. }
  specialize (IH s1). destruct (take_loop room w s1) as [ts s2].
  destruct IH as (Hlen & Hrun & fg & bg & Hp & Hf & Hb & Ef & Eb). split; [cbn; lia|].
  split; [rewrite fmap_cons; eapply run_cons; [by apply sched_take|done]|].
  destruct (take_one_spec _ _ _ _ E) as (_ & _ & _ & [(Eb1 & Ef1 & _)|(Ef1 & Eb1 & _)]).
  - exists fg, (t :: bg). rewrite Eb1, Eb, <- Ef1, Ef. split_and!; try done.
    + rewrite Hp. apply Permutation_middle.
    + by apply sublist_cons.
    + by apply sublist_skip.
  - exists (t :: fg), bg. rewrite Ef1, Ef, <- Eb1, Eb. split_and!; try done.
    + by rewrite Hp.
    + by apply sublist_skip.
    + by apply sublist_cons.
Qed.

End Scheduler.
Arguments scheduler : clear implicits.
Arguments sched_event : clear implicits.

(** ** What the scheduler promises *)

(** C37 — background writeback is never starved: whatever foreground tasks keep
    arriving and however the calls of the workers [ws] interleave, as long as the
    background task in position [k] waits, it has moved forward by the background
    tasks taken, and no worker has taken more than [L] foreground tasks (the burst
    limit) for each background task it took and [L] besides; for the head of the
    queue that is [L] in all.  So the task has been taken once [W] workers have
    taken more than [k + (W + k) * L] tasks. *)
Theorem background_not_starved {T} (owned : T -> bool) ws s es s' k b :
  NoDup ws -> sched_ok s -> sched_typed owned s -> background_queue s !! k = Some b ->
  sched_run owned s es s' -> by_workers ws es ->
  let L := foreground_burst_limit s in
  let taken := took_by owned ws true es in
  if decide (taken <= k)%nat
  then background_queue s' !! (k - taken)%nat = Some b /\
    (forall w, Z.of_nat (took_by owned [w] false es) <= (Z.of_nat (took_by owned [w] true es) + 1) * L /\ (took_by owned [w] true es <= taken)%nat) /\
    Z.of_nat (takes es) <= Z.of_nat k + (Z.of_nat (length ws) + Z.of_nat k) * L
  else exists w, Taken w b ∈ es.
Proof.
  intros Hnd Hok Hty Hk Hrun Hw L taken. pose proof (run_waits owned ws s es s' k b Hok Hty Hk Hrun Hw) as Hr. fold taken in Hr.
  destruct (decide (taken <= k)%nat) as [Ht|]; [|done]. destruct Hr as (Hb & Hok' & Hs). split; [done|].
  assert (1 <= L) as HL by apply Hok.
  assert (forall vs, NoDup vs -> Z.of_nat (took_by owned vs false es) <= (Z.of_nat (length vs) + Z.of_nat (took_by owned vs true es)) * L) as Hall.
  { intros vs Hv. specialize (Hs vs Hv). fold L in Hs. pose proof (slack_bound vs s ltac:(fold L; lia) (so_count s Hok)) as H1. fold L in H1.
    assert (0 <= slack vs s') by (clear; induction vs as [|v vs IH]; cbn [slack foldr]; [lia|fold (slack vs s'); lia]). lia. }
  split; [|rewrite (took_by_all owned ws es Hw); specialize (Hall ws Hnd); fold taken in Hall |- *; nia].
  intros w. split; [|by apply took_by_one]. specialize (Hall [w] (NoDup_singleton w)). cbn [length] in Hall. lia.
Qed.

(** One worker, burst limit 1: a background task behind a stream of foreground ones. *)
Definition starve_start : scheduler Z := Scheduler 1 1 [1; 2; 3; 4] [-7] (fun _ => 0) false.

Lemma background_not_starved_witness :
  background_queue (took starve_start 0 [2; 3; 4] [-7] 1) !! 0%nat = Some (-7) /\
  exists w, Taken w (-7) ∈ [Taken 0 1; Taken 0 (-7); Taken 0 2].
Proof.
  assert (sched_ok starve_start) as Hok by (split; [split; vm_compute; congruence|done]).
  assert (sched_typed (fun z => z <? 0) starve_start) as Hty by (split; repeat constructor).
  split.
  - apply (background_not_starved (fun z => z <? 0) [0%nat] starve_start [Taken 0 1] (took starve_start 0 [2; 3; 4] [-7] 1) 0 (-7)
             (NoDup_singleton _) Hok Hty eq_refl); [|repeat constructor].
    eapply run_cons; [apply sched_take; vm_compute; reflexivity|]. apply run_nil.
  - apply (background_not_starved (fun z => z <? 0) [0%nat] starve_start [Taken 0 1; Taken 0 (-7); Taken 0 2]
             (took (took (took starve_start 0 [2; 3; 4] [-7] 1) 0 [2; 3; 4] [] 0) 0 [3; 4] [] 1) 0 (-7) (NoDup_singleton _) Hok Hty eq_refl); [|repeat constructor].
    eapply run_cons; [apply sched_take; vm_compute; reflexivity|].
    eapply run_cons; [apply sched_take; vm_compute; reflexivity|].
    eapply run_cons; [apply sched_take; vm_compute; reflexivity|]. apply run_nil.
Defined.

Lemma take_loop_fields {T} room w (s : scheduler T) :
  submit_batch_size (take_loop room w s).2 = submit_batch_size s /\
  sched_shutdown (take_loop room w s).2 = sched_shutdown s.
Proof.
  revert s. induction room as [|room IH]; intros s; cbn [take_loop]; [done|].
  destruct (take_one w s) as [[t s1]|] eqn:E; [|done].
  assert (submit_batch_size s1 = submit_batch_size s /\ sched_shutdown s1 = sched_shutdown s) as [E1 E2].
  { unfold take_one in E. destruct (foreground_queue s), (background_queue s);
      try destruct (ShouldServeBackground _ _); by simplify_eq. }
  specialize (IH s1). destruct (take_loop room w s1) as [ts s2]. cbn in *. by rewrite <- E1, <- E2.
Qed.

(** What a worker gets: the heads of the two queues, and nothing only when both
    are empty. *)
Lemma take_batch_spec {T} (owned : T -> bool) w (s : scheduler T) :
  1 <= submit_batch_size s ->
  match TakeNextBatch w s with
  | None => foreground_queue s = [] /\ background_queue s = [] /\ sched_shutdown s = false
  | Some (ts, stop, s') =>
      Z.of_nat (length ts) <= submit_batch_size s /\ sched_run owned s (Taken w <$> ts) s' /\
      (exists fg bg, ts ≡ₚ fg ++ bg /\ fg `sublist_of` ts /\ bg `sublist_of` ts /\
         foreground_queue s = fg ++ foreground_queue s' /\ background_queue s = bg ++ background_queue s') /\
      (ts = [] <-> stop = true) /\
      (stop = true -> sched_shutdown s = true /\ foreground_queue s = [] /\ background_queue s = []) /\
      submit_batch_size s' = submit_batch_size s /\ sched_shutdown s' = sched_shutdown s
  end.
Proof.
  intros Hb. unfold TakeNextBatch.
  destruct (is_empty (foreground_queue s) && is_empty (background_queue s)) eqn:Ee.
  - apply andb_true_iff in Ee as [E1 E2].
    destruct (foreground_queue s) eqn:Ef, (background_queue s) eqn:Eb; try done.
    destruct (sched_shutdown s) eqn:Es; [|done].
    split; [cbn; lia|]. split; [constructor|]. split; [exists [], []; by rewrite Ef, Eb|]. done.
  - pose proof (take_loop_spec owned (Z.to_nat (submit_batch_size s)) w s) as H.
    pose proof (take_loop_fields (Z.to_nat (submit_batch_size s)) w s) as [F1 F2].
    destruct (take_loop _ w s) as [ts0 s0] eqn:El. destruct H as (Hl & Hr & Hq).
    split; [lia|]. split; [done|]. split; [done|]. split; [|done]. split; [|done]. intros ->. exfalso.
    replace (Z.to_nat (submit_batch_size s)) with (S (Z.to_nat (submit_batch_size s - 1))) in El by lia.
    cbn [take_loop] in El. destruct (take_one_total w s) as (t & s1 & E1).
    + destruct (foreground_queue s); [|by left]. destruct (background_queue s); [done|by right].
    + rewrite E1 in El. by destruct (take_loop _ _ s1).
Qed.

(** A batch is taken in order and loses nothing: [TakeNextBatch] returns at
    most [submit_batch_size] tasks, which are the heads of the two queues in
    their order and leave them; it returns none only to report a shutdown with
    both queues empty. *)
Lemma take_batch_fifo {T} (owned : T -> bool) w (s : scheduler T) ts stop s' :
  1 <= submit_batch_size s -> TakeNextBatch w s = Some (ts, stop, s') ->
  Z.of_nat (length ts) <= submit_batch_size s /\ sched_run owned s (Taken w <$> ts) s' /\
  (exists fg bg, ts ≡ₚ fg ++ bg /\ fg `sublist_of` ts /\ bg `sublist_of` ts /\
     foreground_queue s = fg ++ foreground_queue s' /\ background_queue s = bg ++ background_queue s') /\
  (ts = [] <-> stop = true) /\
  (stop = true -> sched_shutdown s = true /\ foreground_queue s = [] /\ background_queue s = []).
Proof.
  intros Hb E. pose proof (take_batch_spec owned w s Hb) as Hs. rewrite E in Hs.
  destruct Hs as (? & ? & ? & ? & ? & _ & _). done.
Qed.

Lemma take_batch_fifo_witness :
  exists fg bg, [1; -7] ≡ₚ fg ++ bg /\ [1; 2; 3; 4] = fg ++ [2; 3; 4].
Proof.
  destruct (take_batch_fifo (fun z => z <? 0) 0 (Scheduler 2 1 [1; 2; 3; 4] [-7] (fun _ => 0) false) [1; -7]
    false (took (took (Scheduler 2 1 [1; 2; 3; 4] [-7] (fun _ => 0) false) 0 [2; 3; 4] [-7] 1) 0 [2; 3; 4] [] 0))
    as (_ & _ & (fg & bg & Hp & _ & _ & Hf & _) & _).
  - cbn. lia.
  - vm_compute. reflexivity.
  - by exists fg, bg.
Defined.
