(* ===== verification/Cleaner.v ===== *)
(** The background cleaner, [lib/buffer/cleaner_controller.h] and [.cc]: the
    candidate queue with its lazy deletion, the in-flight count and the passes of
    the cleaner thread.

    Every operation runs under the controller's latch.  [ResetCandidate] does not
    search the queue: it clears the frame's flag and moves its generation on, so
    that a stale entry is dropped when it is taken.  [live] is the queue without
    stale entries; the refinement says that the controller is a FIFO of distinct
    frames. *)
From S2P Require Import Prelude.

Record cleaner := Cleaner {
  cl_pool_size : Z;
  dirty_page_high_watermark : Z;
  dirty_page_low_watermark : Z;
  inflight_flushes : Z;
  candidate_queue : list (Z * Z);
  candidate_enqueued : Z -> bool;
  candidate_generations : Z -> Z
}.

Definition MakeCleaner (pool_size high low : Z) : cleaner :=
  Cleaner pool_size high low 0 [] (fun _ => false) (fun _ => 0).

Definition set_inflight (n : Z) (s : cleaner) : cleaner :=
  Cleaner (cl_pool_size s) (dirty_page_high_watermark s) (dirty_page_low_watermark s) n
    (candidate_queue s) (candidate_enqueued s) (candidate_generations s).
Definition set_candidates (q : list (Z * Z)) (e : Z -> bool) (g : Z -> Z) (s : cleaner) : cleaner :=
  Cleaner (cl_pool_size s) (dirty_page_high_watermark s) (dirty_page_low_watermark s)
    (inflight_flushes s) q e g.

Definition ResetCandidate (f : Z) (s : cleaner) : cleaner :=
  if cl_pool_size s <=? f then s
  else set_candidates (candidate_queue s) (<[f := false]> (candidate_enqueued s))
         (<[f := u64 (candidate_generations s f + 1)]> (candidate_generations s)) s.

Definition EnqueueCandidate (f : Z) (s : cleaner) : cleaner :=
  if cl_pool_size s <=? f then s
  else if candidate_enqueued s f then s
  else set_candidates (candidate_queue s ++ [(f, candidate_generations s f)])
         (<[f := true]> (candidate_enqueued s)) (candidate_generations s) s.

Definition OnFlushScheduled (s : cleaner) : cleaner :=
  set_inflight (u64 (inflight_flushes s + 1)) s.

Definition OnFlushFinished (s : cleaner) : cleaner :=
  if 0 <? inflight_flushes s then set_inflight (inflight_flushes s - 1) s else s.

(** The loop of [TakeCandidate] on the queue. *)
Fixpoint take_candidate (pool : Z) (e : Z -> bool) (g : Z -> Z) (q : list (Z * Z)) : option Z * list (Z * Z) :=
  match q with
  | [] => (None, [])
  | (f, n) :: q =>
      if pool <=? f then take_candidate pool e g q
      else if negb (e f) then take_candidate pool e g q
      else if negb (g f =? n) then take_candidate pool e g q
      else (Some f, q)
  end.

Definition TakeCandidate (s : cleaner) : option Z * cleaner :=
  let '(r, q) := take_candidate (cl_pool_size s) (candidate_enqueued s) (candidate_generations s)
                   (candidate_queue s) in
  (r, set_candidates q (match r with
                        | Some f => <[f := false]> (candidate_enqueued s)
                        | None => candidate_enqueued s
                        end) (candidate_generations s) s).

(** ** The cleaner thread

    One pass of the loops of [Run], from one point where the latch is held to the
    next: [Outer] and [Throttled] are the two condition waits, [Passing] the head
    of the inner loop, [Seeding] and [Scheduling f] the two callbacks, which run
    without the latch.  [dirty] is the value of the shared dirty-page count. *)
Inductive cleaner_pc := Outer | Passing | Throttled | Seeding | Scheduling (f : Z).

Definition flush_budget (dirty : Z) (s : cleaner) : Z :=
  if dirty_page_low_watermark s <? dirty then dirty - dirty_page_low_watermark s else 0.

(** What [TakeCandidate] and the callback after it make of a pass. *)
Definition take_and_go (s : cleaner) : cleaner_pc * cleaner :=
  let '(r, s) := TakeCandidate s in
  (match r with Some f => Scheduling f | None => Passing end, s).

(** [None] while the thread sleeps in the condition variable. *)
Definition RunPass (dirty : Z) (pc : cleaner_pc) (s : cleaner) : option (cleaner_pc * cleaner) :=
  match pc with
  | Outer => if dirty_page_high_watermark s <=? dirty then Some (Passing, s) else None
  | Throttled =>
      if (dirty <? dirty_page_high_watermark s) || (inflight_flushes s <? flush_budget dirty s)
      then Some (Passing, s) else None
  | Passing =>
      if dirty <? dirty_page_high_watermark s then Some (Outer, s)
      else if flush_budget dirty s =? 0 then Some (Outer, s)
      else if flush_budget dirty s <=? inflight_flushes s then Some (Throttled, s)
      else match candidate_queue s with
           | [] => Some (Seeding, s)
           | _ => Some (take_and_go s)
           end
  | Seeding => match candidate_queue s with [] => Some (Outer, s) | _ => Some (take_and_go s) end
  | Scheduling f => Some (Passing, s)
  end.

(** ** The queue of live candidates *)

Definition is_live (pool : Z) (e : Z -> bool) (g : Z -> Z) (c : Z * Z) : bool :=
  negb (pool <=? c.1) && e c.1 && (g c.1 =? c.2).

Definition live_of (pool : Z) (e : Z -> bool) (g : Z -> Z) (q : list (Z * Z)) : list Z :=
  fst <$> filter (fun c => is_live pool e g c = true) q.

Definition live (s : cleaner) : list Z :=
  live_of (cl_pool_size s) (candidate_enqueued s) (candidate_generations s) (candidate_queue s).

(** Flags, generations and entries agree, and [room] more calls cannot wrap a
    generation around. *)
Record cleaner_ok (room : Z) (s : cleaner) : Prop := {
  co_gen f : 0 <= candidate_generations s f < u64_mod - room;
  co_entry f n : (f, n) ∈ candidate_queue s -> 0 <= f < cl_pool_size s /\ n <= candidate_generations s f;
  co_flag f : candidate_enqueued s f = true <-> (f, candidate_generations s f) ∈ candidate_queue s;
  co_nodup : NoDup (candidate_queue s)
}.

Lemma live_cons pool e g c q :
  live_of pool e g (c :: q) = if is_live pool e g c then c.1 :: live_of pool e g q else live_of pool e g q.
Proof.
  unfold live_of. destruct (is_live pool e g c) eqn:E.
  - by rewrite filter_cons_True.
  - by rewrite filter_cons_False by (by rewrite E).
Qed.

Lemma live_app pool e g q1 q2 : live_of pool e g (q1 ++ q2) = live_of pool e g q1 ++ live_of pool e g q2.
Proof. unfold live_of. by rewrite list.filter_app, fmap_app. Qed.

Lemma live_ext pool e g e' g' q :
  (forall c, c ∈ q -> is_live pool e' g' c = is_live pool e g c) -> live_of pool e' g' q = live_of pool e g q.
Proof.
  induction q as [|c q IH]; [done|]. intros H. rewrite !live_cons, IH, (H c) by set_solver. done.
Qed.

(** The frames that are live are the flagged ones. *)
Lemma live_elem room s f : cleaner_ok room s -> f ∈ live s <-> candidate_enqueued s f = true.
Proof.
  intros Hok. unfold live, live_of. rewrite list_elem_of_fmap. split.
  - intros ([g n] & -> & Hc). apply list_elem_of_filter in Hc as [Hc _]. unfold is_live in Hc. cbn in *.
    by apply andb_true_iff in Hc as [[_ ?]%andb_true_iff _].
  - intros Hf. pose proof (proj1 (co_flag room s Hok f) Hf) as Hin.
    exists (f, candidate_generations s f). split; [done|]. apply list_elem_of_filter. split; [|done].
    unfold is_live. cbn. rewrite Hf, Z.eqb_refl, andb_true_r.
    destruct (co_entry room s Hok _ _ Hin). destruct (Z.leb_spec (cl_pool_size s) f); [lia|done].
Qed.

Lemma live_without pool e g f n q :
  live_of pool (<[f := false]> e) (<[f := n]> g) q = without f (live_of pool e g q).
Proof.
  induction q as [|[h m] q IH]; [done|]. rewrite !live_cons. unfold is_live at 1 2. cbn [fst snd].
  destruct (decide (h = f)) as [->|Hne].
  - rewrite !fn_lookup_insert, andb_false_r. cbn [andb]. rewrite IH.
    destruct (_ && _ && _); [|done]. unfold without. by rewrite filter_cons_False by auto.
  - rewrite !fn_lookup_insert_ne by done. rewrite IH. destruct (_ && _ && _); [|done].
    unfold without. by rewrite filter_cons_True.
Qed.

(** ** Each operation on the live candidates *)

Lemma reset_live f s : 0 <= f < cl_pool_size s -> live (ResetCandidate f s) = without f (live s).
Proof.
  intros Hf. unfold ResetCandidate. destruct (Z.leb_spec (cl_pool_size s) f); [lia|]. apply live_without.
Qed.

Lemma reset_ok room f s :
  0 <= room -> cleaner_ok (room + 1) s -> 0 <= f < cl_pool_size s -> cleaner_ok room (ResetCandidate f s).
Proof.
  intros Hr [Hg He Hfl Hnd] Hf. unfold ResetCandidate. destruct (Z.leb_spec (cl_pool_size s) f); [lia|].
  pose proof (Hg f) as Hgf.
  assert (u64 (candidate_generations s f + 1) = candidate_generations s f + 1) as Eu
    by (apply u64_small; unfold is_u64; lia).
  split; cbn [set_candidates candidate_generations candidate_queue candidate_enqueued cl_pool_size]; rewrite ?Eu.
  - intros g. specialize (Hg g). destruct (decide (g = f)) as [->|Hne];
      [rewrite fn_lookup_insert|rewrite fn_lookup_insert_ne by done]; lia.
  - intros g n Hin. destruct (He g n Hin) as [? ?]. split; [done|].
    destruct (decide (g = f)) as [->|Hne]; [rewrite fn_lookup_insert|rewrite fn_lookup_insert_ne by done]; lia.
  - intros g. destruct (decide (g = f)) as [->|Hne]; [|by rewrite !fn_lookup_insert_ne].
    rewrite !fn_lookup_insert. split; [done|]. intros Hin. destruct (He _ _ Hin). lia.
  - done.
Qed.

Lemma weaken_room room room' s : room' <= room -> cleaner_ok room s -> cleaner_ok room' s.
Proof. intros Hr [Hg He Hfl Hnd]. split; try done. intros f. specialize (Hg f). lia. Qed.

Lemma enqueue_live room f s :
  cleaner_ok room s -> 0 <= f < cl_pool_size s ->
  live (EnqueueCandidate f s) = if decide (f ∈ live s) then live s else live s ++ [f].
Proof.
  intros Hok Hf. unfold EnqueueCandidate. destruct (Z.leb_spec (cl_pool_size s) f); [lia|].
  destruct (candidate_enqueued s f) eqn:Ef.
  - rewrite decide_True; [done|]. by apply (live_elem room).
  - rewrite decide_False by (rewrite (live_elem room) by done; by rewrite Ef).
    unfold live at 1. cbn [set_candidates cl_pool_size candidate_enqueued candidate_generations candidate_queue].
    rewrite live_app, live_cons. unfold is_live. cbn [fst snd]. rewrite fn_lookup_insert, Z.eqb_refl.
    destruct (Z.leb_spec (cl_pool_size s) f); [lia|]. cbn [negb andb]. f_equal.
    apply live_ext. intros [g n] Hin. unfold is_live. cbn [fst snd].
    destruct (decide (g = f)) as [->|Hne]; [|by rewrite fn_lookup_insert_ne].
    rewrite fn_lookup_insert, Ef, andb_false_r, andb_true_r. cbn [andb].
    destruct (Z.eqb_spec (candidate_generations s f) n) as [<-|]; [|by rewrite andb_false_r].
    apply (co_flag room s Hok) in Hin. congruence.
Qed.

Lemma enqueue_ok room f s :
  cleaner_ok room s -> 0 <= f < cl_pool_size s -> cleaner_ok room (EnqueueCandidate f s).
Proof.
  intros Hok Hf. pose proof Hok as [Hg He Hfl Hnd]. unfold EnqueueCandidate.
  destruct (Z.leb_spec (cl_pool_size s) f); [lia|]. destruct (candidate_enqueued s f) eqn:Ef; [done|].
  assert ((f, candidate_generations s f) ∉ candidate_queue s) as Hn
    by (intros Hin; apply Hfl in Hin; congruence).
  split; cbn [set_candidates candidate_generations candidate_queue candidate_enqueued cl_pool_size].
  - done.
  - intros g n [Hin|Hin]%elem_of_app; [by apply He|].
    apply list_elem_of_singleton in Hin. injection Hin as -> ->. lia.
  - intros g. destruct (decide (g = f)) as [->|Hne]; [rewrite fn_lookup_insert; set_solver|].
    rewrite fn_lookup_insert_ne, Hfl by done. set_solver.
  - apply list.NoDup_app. split; [done|]. split; [set_solver|apply NoDup_singleton].
Qed.

(** Taking the first live candidate; stale ones before it are dropped. *)
Lemma take_candidate_spec pool e g q :
  match live_of pool e g q with
  | [] => take_candidate pool e g q = (None, [])
  | f :: l => exists q1 q2, q = q1 ++ (f, g f) :: q2 /\ take_candidate pool e g q = (Some f, q2) /\
                live_of pool e g q1 = [] /\ live_of pool e g q2 = l
  end.
Proof.
  induction q as [|[f n] q IH]; [done|]. rewrite live_cons. unfold is_live. cbn [fst snd take_candidate].
  destruct (pool <=? f) eqn:E1, (e f) eqn:E2, (Z.eqb_spec (g f) n) as [E3|E3]; cbn [negb andb].
  all: try (exists [], q; by rewrite E3).
  all: destruct (live_of pool e g q) as [|h l]; [done|].
  all: destruct IH as (q1 & q2 & -> & Et & E4 & E5); exists ((f, n) :: q1), q2.
  all: split_and!; try done; rewrite live_cons, E4; unfold is_live; cbn [fst snd]; rewrite ?E1, ?E2; try done.
  all: destruct (Z.eqb_spec (g f) n); try done.
Qed.

Lemma take_live room s :
  cleaner_ok room s -> (TakeCandidate s).1 = head (live s) /\ live (TakeCandidate s).2 = tail (live s) /\
  cleaner_ok room (TakeCandidate s).2.
Proof.
  intros Hok. pose proof Hok as [Hg He Hfl Hnd]. unfold TakeCandidate.
  pose proof (take_candidate_spec (cl_pool_size s) (candidate_enqueued s) (candidate_generations s) (candidate_queue s)) as H.
  fold (live s) in H. destruct (live s) as [|f l] eqn:El.
  - rewrite H. cbn [fst snd]. split; [done|]. split; [done|].
    assert (forall h, candidate_enqueued s h = false) as Hno.
    { intros h. destruct (candidate_enqueued s h) eqn:Eh; [|done].
      apply (live_elem room) in Eh; [|done]. rewrite El in Eh. by apply not_elem_of_nil in Eh. }
    split; cbn; [done|intros ? ? Hin; by apply not_elem_of_nil in Hin| |constructor].
    intros h. rewrite Hno. split; [done|]. intros Hin. by apply not_elem_of_nil in Hin.
  - destruct H as (q1 & q2 & Eq & -> & E1 & E2). cbn [fst snd]. split; [done|].
    rewrite Eq in He, Hnd. assert (forall h, candidate_enqueued s h = true <-> (h, candidate_generations s h) ∈ q1 ++ (f, candidate_generations s f) :: q2) as Hfl'
      by (intros h; by rewrite Hfl, Eq).
    apply list.NoDup_app in Hnd as (Hn1 & Hd & Hn2). apply list.NoDup_cons in Hn2 as [Hf2 Hn2].
    assert (forall h, (h, candidate_generations s h) ∉ q1) as Hq1.
    { intros h Hin. assert (h ∈ live_of (cl_pool_size s) (candidate_enqueued s) (candidate_generations s) q1) as Hl;
        [|rewrite E1 in Hl; by apply not_elem_of_nil in Hl].
      unfold live_of. apply list_elem_of_fmap. exists (h, candidate_generations s h). split; [done|].
      apply list_elem_of_filter. split; [|done]. unfold is_live. cbn. rewrite Z.eqb_refl, andb_true_r.
      destruct (He h (candidate_generations s h) ltac:(set_solver)) as [? _]. destruct (Z.leb_spec (cl_pool_size s) h); [lia|].
      cbn. apply Hfl'. set_solver. }
    split.
    + unfold live. cbn [set_candidates cl_pool_size candidate_enqueued candidate_generations candidate_queue tail].
      rewrite <- E2. apply live_ext. intros [h n] Hin. unfold is_live. cbn [fst snd].
      destruct (decide (h = f)) as [->|Hne]; [|by rewrite fn_lookup_insert_ne].
      rewrite fn_lookup_insert, andb_false_r. cbn [andb].
      destruct (Z.eqb_spec (candidate_generations s f) n) as [<-|]; [done|by rewrite andb_false_r].
    + split; cbn [set_candidates candidate_generations candidate_queue candidate_enqueued cl_pool_size].
      * done.
      * intros h n Hin. apply He. set_solver.
      * intros h. destruct (decide (h = f)) as [->|Hne].
        -- rewrite fn_lookup_insert. split; [done|]. done.
        -- rewrite fn_lookup_insert_ne, Hfl' by done. specialize (Hq1 h). set_solver.
      * done.
Qed.

(** ** A run of calls *)

Inductive cleaner_call := CallReset (f : Z) | CallEnqueue (f : Z) | CallTake.

Definition cleaner_do (c : cleaner_call) (s : cleaner) : cleaner :=
  match c with
  | CallReset f => ResetCandidate f s
  | CallEnqueue f => EnqueueCandidate f s
  | CallTake => (TakeCandidate s).2
  end.

(** The specification: a FIFO of distinct frames. *)
Definition fifo_do (c : cleaner_call) (l : list Z) : list Z :=
  match c with
  | CallReset f => without f l
  | CallEnqueue f => if decide (f ∈ l) then l else l ++ [f]
  | CallTake => tail l
  end.

Definition cleaner_call_ok (pool : Z) (c : cleaner_call) : Prop :=
  match c with CallReset f | CallEnqueue f => 0 <= f < pool | CallTake => True end.

Lemma cleaner_do_spec room c s :
  0 <= room -> cleaner_ok (room + 1) s -> cleaner_call_ok (cl_pool_size s) c ->
  cleaner_ok room (cleaner_do c s) /\ cl_pool_size (cleaner_do c s) = cl_pool_size s /\
  live (cleaner_do c s) = fifo_do c (live s).
Proof.
  intros Hr Hok Hc. destruct c as [f|f|]; cbn [cleaner_do fifo_do cleaner_call_ok] in *.
  - split; [by apply reset_ok|]. split; [|by apply reset_live]. unfold ResetCandidate. by destruct (_ <=? _).
  - split; [apply enqueue_ok; [|done]; by apply (weaken_room (room + 1)); [lia|]|].
    split; [|by apply (enqueue_live (room + 1))].
    unfold EnqueueCandidate. destruct (_ <=? _); [done|]. by destruct (candidate_enqueued _ _).
  - destruct (take_live _ s Hok) as (_ & El & Hok'). split; [by apply (weaken_room (room + 1)); [lia|]|].
    split; [|done]. unfold TakeCandidate. by destruct (take_candidate _ _ _ _).
Qed.

Lemma cleaner_run cs s :
  cleaner_ok (Z.of_nat (length cs)) s -> Forall (cleaner_call_ok (cl_pool_size s)) cs ->
  cleaner_ok 0 (foldl (flip cleaner_do) s cs) /\
  live (foldl (flip cleaner_do) s cs) = foldl (flip fifo_do) (live s) cs.
Proof.
  revert s. induction cs as [|c cs IH]; intros s Hok Hcs; [done|].
  apply list.Forall_cons in Hcs as [Hc Hcs]. cbn [foldl flip length] in *.
  rewrite Nat2Z.inj_succ in Hok. destruct (cleaner_do_spec (Z.of_nat (length cs)) c s ltac:(lia) Hok Hc) as (Hok' & Ep & El).
  unfold flip at 1 2 3. rewrite <- El. apply IH; [done|]. by rewrite Ep.
Qed.

Lemma make_cleaner_ok pool high low room : 0 <= room < u64_mod -> cleaner_ok room (MakeCleaner pool high low).
Proof.
  intros Hr. split; cbn.
  - intros f. lia.
  - intros f n Hin. by apply not_elem_of_nil in Hin.
  - intros f. split; [done|]. intros Hin. by apply not_elem_of_nil in Hin.
  - constructor.
Qed.

(** The candidate queue is a FIFO of distinct frames: after any sequence of
    [EnqueueCandidate], [ResetCandidate] and [TakeCandidate] calls (fewer than
    2^64), the next [TakeCandidate] returns the frame enqueued longest ago that
    has been neither taken nor reset since, and none if there is no such frame;
    the generation counters make stale entries invisible. *)
Lemma cleaner_queue_refines_fifo pool high low cs :
  Z.of_nat (length cs) < u64_mod -> Forall (cleaner_call_ok pool) cs ->
  (TakeCandidate (foldl (flip cleaner_do) (MakeCleaner pool high low) cs)).1 =
  head (foldl (flip fifo_do) [] cs).
Proof.
  intros Hn Hcs.
  destruct (cleaner_run cs (MakeCleaner pool high low)) as [Hok El]; [apply make_cleaner_ok; lia|done|].
  rewrite (proj1 (take_live 0 _ Hok)), El. done.
Qed.

Lemma cleaner_queue_refines_fifo_witness :
  (TakeCandidate (foldl (flip cleaner_do) (MakeCleaner 4 2 1)
     [CallEnqueue 1; CallEnqueue 3; CallReset 1; CallEnqueue 1; CallEnqueue 3])).1 = Some 3.
Proof.
  rewrite (cleaner_queue_refines_fifo 4 2 1
    [CallEnqueue 1; CallEnqueue 3; CallReset 1; CallEnqueue 1; CallEnqueue 3]).
  - reflexivity.
  - vm_compute. reflexivity.
  - repeat constructor; cbn; lia.
Defined.

(** ** The thread's passes *)

(** The cleaner does not overshoot: it schedules a flush only when the dirty
    pages are at the high watermark or above it, and even if every flush in
    flight and the new one succeed, the dirty-page count does not fall below the
    low watermark. *)
Lemma cleaner_within_budget dirty pc s f s' :
  RunPass dirty pc s = Some (Scheduling f, s') -> pc = Passing ->
  dirty_page_high_watermark s <= dirty /\
  dirty_page_low_watermark s <= dirty - (inflight_flushes s + 1) /\
  inflight_flushes s' = inflight_flushes s.
Proof.
  intros E ->. cbn [RunPass] in E. unfold flush_budget in E.
  destruct (Z.ltb_spec dirty (dirty_page_high_watermark s)); [done|].
  destruct (Z.ltb_spec (dirty_page_low_watermark s) dirty).
  - destruct (_ =? 0); [done|].
    destruct (Z.leb_spec (dirty - dirty_page_low_watermark s) (inflight_flushes s)); [done|].
    destruct (candidate_queue s) as [|c q] eqn:Eq; [done|].
    injection E as E. unfold take_and_go, TakeCandidate in E. destruct (take_candidate _ _ _ _) as [[g|] q'].
    + injection E as -> <-. cbn. lia.
    + done.
  - cbn in E. done.
Qed.

Lemma cleaner_within_budget_witness :
  let s := EnqueueCandidate 1 (MakeCleaner 4 2 1) in
  dirty_page_low_watermark s <= 3 - (inflight_flushes s + 1).
Proof.
  set (s := EnqueueCandidate 1 (MakeCleaner 4 2 1)).
  apply (cleaner_within_budget 3 Passing s 1
    (set_candidates [] (<[1 := false]> (candidate_enqueued s)) (candidate_generations s) s)).
  - vm_compute. reflexivity.
  - reflexivity.
Defined.

(** The thread alone: [n] passes with the dirty count unchanged and a seed
    callback that finds no candidate. *)
Fixpoint passes_alone (n : nat) (dirty : Z) (pc : cleaner_pc) (s : cleaner) : option (cleaner_pc * cleaner) :=
  match n with
  | O => Some (pc, s)
  | S n => '(pc, s) ← RunPass dirty pc s; passes_alone n dirty pc s
  end.

Lemma passes_app m n dirty pc s :
  passes_alone (m + n) dirty pc s = '(pc, s) ← passes_alone m dirty pc s; passes_alone n dirty pc s.
Proof.
  revert pc s. induction m as [|m IH]; intros pc s; [done|]. cbn [Nat.add passes_alone]. destruct (RunPass dirty pc s) as [[pc1 s1]|]; [|done]. apply IH.
Qed.

(** No candidate, dirty pages at the high watermark or above, room in the budget:
    the head of the inner loop, the seed callback, and out of the loop. *)
Lemma cleaner_turn dirty s :
  candidate_queue s = [] -> dirty_page_low_watermark s < dirty_page_high_watermark s <= dirty ->
  inflight_flushes s < dirty - dirty_page_low_watermark s ->
  RunPass dirty Outer s = Some (Passing, s) /\ RunPass dirty Passing s = Some (Seeding, s) /\ RunPass dirty Seeding s = Some (Outer, s).
Proof.
  intros Eq Hd Hi. cbn [RunPass]. unfold flush_budget. rewrite Eq.
  destruct (Z.leb_spec (dirty_page_high_watermark s) dirty); [|lia]. destruct (Z.ltb_spec dirty (dirty_page_high_watermark s)); [lia|].
  destruct (Z.ltb_spec (dirty_page_low_watermark s) dirty); [|lia]. destruct (Z.eqb_spec (dirty - dirty_page_low_watermark s) 0); [lia|].
  destruct (Z.leb_spec (dirty - dirty_page_low_watermark s) (inflight_flushes s)); [lia|]. done.
Qed.

(** C38 — The cleaner thread can spin: for every pool and watermarks (the low one
    below the high one), when the dirty pages are at the high watermark or above
    it, the flushes in flight leave room in the budget, the candidate queue is
    empty and the seed callback adds nothing to it, then after any number of turns
    (the outer wait, the head of the inner loop, seeding) the thread is back at the
    outer wait with its state unchanged, and the wait returns at once. *)
Theorem cleaner_spins n dirty s :
  candidate_queue s = [] -> dirty_page_low_watermark s < dirty_page_high_watermark s <= dirty ->
  inflight_flushes s < dirty - dirty_page_low_watermark s ->
  passes_alone (n * 3) dirty Outer s = Some (Outer, s) /\ RunPass dirty Outer s = Some (Passing, s).
Proof.
  intros Eq Hd Hi. destruct (cleaner_turn dirty s Eq Hd Hi) as (E1 & E2 & E3). split; [|done].
  induction n as [|n IH]; [done|]. change (S n * 3)%nat with (3 + n * 3)%nat. rewrite passes_app.
  cbn [passes_alone]. rewrite E1. cbn [mbind option_bind]. rewrite E2. cbn [mbind option_bind]. rewrite E3. exact IH.
Qed.

(** A pool of four frames, three of them dirty. *)
Lemma cleaner_spins_witness : passes_alone 30 3 Outer (MakeCleaner 4 2 1) = Some (Outer, MakeCleaner 4 2 1).
Proof. apply (cleaner_spins 10 3 (MakeCleaner 4 2 1)); cbn; [reflexivity|lia|lia]. Defined.
