(* ===== verification/Interfaces.v ===== *)
(** What the buffer manager relies on: the page table, the free list and the disk
    backend as interfaces with laws, and the components of this development as
    their instances ([Replacer] is the fourth interface).

    A page is a list of bytes.  A backend is [include/telepath/io/disk_backend.h]
    seen by a caller that submits one request and waits for it: a successful read
    returns what the store holds, a successful write replaces one block, a failed
    write leaves the other blocks alone and may leave any bytes in its own. *)
From Stdlib Require Import Strings.Byte.
From stdpp Require Import strings.
From S2P Require Import Prelude Bytes Status Layout FreeList PageTable.

Definition page : Type := list byte.
Definition zero_page (g : BlockGeometry) : page := replicate (Z.to_nat (block_size g)) x00.

(** ** Page table *)

Class FrameTable (T : Type) := {
  lookup_frame : BufferTag -> T -> option Z;
  remove_frame : BufferTag -> Z -> T -> T;
  replace_unless_live : option BufferTag -> BufferTag -> Z -> (Z -> bool) -> T -> option Z * T
}.

(** [entry t f] is the tag frame [f] is linked under. *)
Class FrameTableLaws (T : Type) `{FrameTable T} := {
  table_ok : T -> Prop;
  table_frames : T -> Z;
  entry : T -> Z -> option BufferTag;
  lookup_law tag t : table_ok t ->
    match lookup_frame tag t with
    | Some f => 0 <= f < table_frames t /\ entry t f = Some tag
    | None => forall f, 0 <= f < table_frames t -> entry t f <> Some tag
    end;
  remove_law tag f t : table_ok t -> 0 <= f < table_frames t ->
    table_ok (remove_frame tag f t) /\ table_frames (remove_frame tag f t) = table_frames t /\
    (forall g, g <> f -> entry (remove_frame tag f t) g = entry t g) /\
    entry (remove_frame tag f t) f = if decide (entry t f = Some tag) then None else entry t f;
  replace_law old_tag new_tag f live t : table_ok t -> 0 <= f < table_frames t ->
    let '(r, t') := replace_unless_live old_tag new_tag f live t in
    table_ok t' /\ table_frames t' = table_frames t /\
    (forall g, g <> f -> entry t' g = entry t g) /\
    match r with
    | Some g => 0 <= g < table_frames t /\ g <> f /\ entry t g = Some new_tag /\ live g = true /\ entry t' f = None
    | None => entry t' f = Some new_tag /\
        forall g, 0 <= g < table_frames t -> g <> f -> entry t g = Some new_tag -> live g = false
    end
}.

#[export] Instance page_table_map : FrameTable page_table := {
  lookup_frame tag t := default None (LookupFrameId tag t);
  remove_frame := PageTable.Remove;
  replace_unless_live := ReplaceUnlessLive
}.

Definition table_entry (t : page_table) (f : Z) : option BufferTag :=
  if bucket_of t f =? kNone then None else Some (key t f).

Lemma table_entry_linked t f tag : table_entry t f = Some tag <-> linked t f tag.
Proof.
  unfold table_entry, linked. destruct (Z.eqb_spec (bucket_of t f) kNone); [naive_solver|].
  split; [by intros [= ->]|by intros [_ ->]].
Qed.

Lemma table_entry_agree f t t' g : agree_but f t t' -> g <> f -> table_entry t' g = table_entry t g.
Proof. intros (_ & _ & Ha) Hg. destruct (Ha g Hg) as [Eb Ek]. unfold table_entry. by rewrite Eb, Ek. Qed.

#[export] Program Instance page_table_laws : FrameTableLaws page_table := {
  table_ok := wf;
  table_frames := frame_capacity;
  entry := table_entry
}.
Next Obligation.
  intros tag t Hwf. cbn [lookup_frame page_table_map].
  destruct (lookup_spec tag t Hwf) as (r & -> & Hr). cbn [default]. destruct r as [f|].
  - destruct Hr. split; [done|]. by apply table_entry_linked.
  - intros f Hf Hl. apply table_entry_linked in Hl. by apply (Hr f).
Qed.
Next Obligation.
  intros tag f t Hwf Hf. cbn [remove_frame page_table_map].
  destruct (remove_spec tag f t Hwf Hf) as (Hwf' & Hag & Hl & Hn).
  split; [done|]. split; [apply Hag|]. split; [by intros; eapply table_entry_agree|].
  destruct (decide (table_entry t f = Some tag)) as [E|E]; rewrite table_entry_linked in E.
  - unfold table_entry. by rewrite (Hl E).
  - destruct (Hn E) as [Eb Ek]. unfold table_entry. by rewrite Eb, Ek.
Qed.
Next Obligation.
  intros old_tag new_tag f live t Hwf Hf. cbn [replace_unless_live page_table_map].
  pose proof (replace_unless_live_spec old_tag new_tag f live t Hwf Hf) as H.
  destruct (ReplaceUnlessLive _ _ _ _ _) as [r t']. destruct H as (Hwf' & Hag & Hr).
  split; [done|]. split; [apply Hag|]. split; [by intros; eapply table_entry_agree|].
  destruct r as [g|].
  - destruct Hr as (Hg & Hne & Hl & Hlive & Hb). split_and!; try done; try apply Hg.
    + rewrite <- (table_entry_agree f t t' g Hag Hne). by apply table_entry_linked.
    + unfold table_entry. by rewrite Hb.
  - destruct Hr as [Hl Hno]. split; [by apply table_entry_linked|].
    intros g Hg Hne Hlg. apply Hno; try done. apply table_entry_linked.
    by rewrite (table_entry_agree f t t').
Qed.

(** ** Free list *)

Class FreeFrames (F : Type) := {
  push_free : Z -> F -> F;
  pop_free : F -> option Z * F
}.

Class FreeFramesLaws (F : Type) `{FreeFrames F} := {
  free_holds : F -> list Z -> Prop;
  push_law s l f : free_holds s l -> 0 <= f < kInvalidFrameId -> f ∉ l -> free_holds (push_free f s) (f :: l);
  pop_law s l : free_holds s l ->
    match l with
    | [] => pop_free s = (None, s)
    | g :: l' => exists s', pop_free s = (Some g, s') /\ free_holds s' l'
    end
}.

#[export] Instance free_list_frames : FreeFrames free_list := { push_free := Push; pop_free := Pop }.

#[export] Program Instance free_list_laws : FreeFramesLaws free_list := { free_holds := holds }.
Next Obligation. intros s l f. apply push_holds. Qed.
Next Obligation. intros s l. apply pop_holds. Qed.

(** ** Disk *)

Class Backend (B : Type) := {
  disk_read : BufferTag -> B -> Result page * B;
  disk_write : BufferTag -> page -> B -> Status * B;
  disk_sync : Z -> B -> Status * B
}.

(** [contents] are the blocks; the laws hold for the blocks that are
    [addressable], the ids whose byte offset the backend can represent, and for
    pages that fit, which are one block long. *)
Class BackendLaws (B : Type) `{Backend B} := {
  contents : B -> BufferTag -> page;
  addressable : BufferTag -> Prop;
  page_fits : page -> Prop;
  contents_law b tag : page_fits (contents b tag);
  disk_read_law tag b : addressable tag ->
    let '(r, b') := disk_read tag b in
    contents b' = contents b /\ match r with Ok p => p = contents b tag | Err _ => True end;
  disk_write_law tag p b : addressable tag ->
    let '(r, b') := disk_write tag p b in
    (forall other, other <> tag -> contents b' other = contents b other) /\
    match r with Ok _ => page_fits p -> contents b' tag = p | Err _ => True end;
  disk_sync_law file b : contents (disk_sync file b).2 = contents b
}.

(** A store in memory whose requests fail on a given plan: the n-th request
    fails when [plan n]. *)
Record ram_disk := RamDisk { ram : BufferTag -> page; requests : nat; plan : nat -> bool }.

Definition ram_next (d : ram_disk) (m : BufferTag -> page) : ram_disk := RamDisk m (S (requests d)) (plan d).

#[export] Instance ram_backend : Backend ram_disk := {
  disk_read tag d :=
    if plan d (requests d) then (IoError "read failed" 5, ram_next d (ram d))
    else (Ok (ram d tag), ram_next d (ram d));
  disk_write tag p d :=
    if plan d (requests d) then (IoError "write failed" 5, ram_next d (<[tag := []]> (ram d)))
    else (Ok tt, ram_next d (<[tag := p]> (ram d)));
  disk_sync _ d :=
    if plan d (requests d) then (IoError "sync failed" 5, ram_next d (ram d))
    else (Ok tt, ram_next d (ram d))
}.

#[export] Program Instance ram_laws : BackendLaws ram_disk := { contents := ram; addressable _ := True; page_fits _ := True }.
Next Obligation. done. Qed.
Next Obligation. intros tag b _. cbn. by destruct (plan b (requests b)). Qed.
Next Obligation.
  intros tag p b _. cbn. destruct (plan b (requests b)); cbn.
  - split; [|done]. intros. by rewrite fn_lookup_insert_ne.
  - rewrite fn_lookup_insert. split; [|done]. intros. by rewrite fn_lookup_insert_ne.
Qed.
Next Obligation. intros file b. cbn. by destruct (plan b (requests b)). Qed.

(** ** Files *)

(** A page of a file that ends after [n] bytes. *)
Definition cut_file (bs file n : Z) (t : BufferTag) (p : page) : page :=
  if file_id t =? file then cut bs (n - block_id t * bs) p else p.

(** The synchronous calls of a backend about files. *)
Class FileBackend (B : Type) := {
  GetFileSize : Z -> B -> Result Z * B;
  SetFileSize : Z -> Z -> B -> Status * B
}.

(** Every block with a 64-bit offset has an address.  Blocks read as zeros past
    the end of the file.  Asking for the size changes
    nothing; setting it cuts or extends the file, or fails and changes nothing. *)
Class FileBackendLaws (B : Type) (bs : Z) `{BackendLaws B} `{FileBackend B} := {
  file_block_law file block : is_u64 file -> 0 <= block -> block * bs < u64_mod -> addressable (B := B) (MkTag file block);
  fits_law (p : page) : page_fits (B := B) p <-> length p = Z.to_nat bs;
  get_size_law file b :
    let '(r, b') := GetFileSize file b in
    contents b' = contents b /\
    forall n, r = Ok n -> is_u64 n /\ forall t, file_id t = file -> cut_file bs file n t (contents b t) = contents b t;
  set_size_law file n b : is_u64 n ->
    let '(r, b') := SetFileSize file n b in
    if has_value r then forall t, contents b' t = cut_file bs file n t (contents b t) else contents b' = contents b
}.
