(* ===== verification/IoEngine.v ===== *)
(** Completion delivery: [lib/buffer/io_engine.{h,cc}].

    The engine is a step relation: threads that submit, wait, shut down and the
    reaper run their code one access to shared memory (or one call of the
    backend) at a time, in any interleaving, over any backend that keeps the
    contract of [include/telepath/io/disk_backend.h].  [tstep] is the code of
    one thread; [issued] and [delivered] record, for the statements only, the
    completion objects that were handed in and the ones that were completed.
    The theorems: every completion runs exactly once, [Wait] returns only when
    all of its requests have completed and reports an error if one failed, and
    the reaper sleeps only when nobody depends on it. *)
From stdpp Require Import strings.
From S2P Require Import Prelude Status Layout.

Inductive DiskOperation := kRead | kWrite | kSync.
Inductive DiskSubmitMode := kWait | kAsync.

Definition kMaxDiskRequestBlocks : Z := 32.
Definition kReapBatch : nat := 32.
Definition kAsyncTokenTag : Z := 1.

(** [buffers] are addresses, one for each block. *)
Record DiskRequest := MkRequest {
  token : Z;
  operation : DiskOperation;
  request_tag : BufferTag;
  block_count : Z;
  buffers : list Z
}.

Definition DiskCompletion : Type := Z * Status.

(** ** The backend *)

(** [bk_reap n wait] is [None] while a waiting call blocks; [bk_advance] is the
    backend's own progress. *)
Class DiskBackend (B : Type) := {
  bk_submit : list DiskRequest -> DiskSubmitMode -> B -> Result nat * B;
  bk_reap : nat -> bool -> B -> option (Result (list DiskCompletion) * B);
  bk_shutdown : B -> B;
  bk_advance : B -> B
}.

(** "Every accepted request produces exactly one [DiskCompletion], carrying the
    request's token": [outstanding] are the tokens of the accepted requests that
    were not reaped. *)
Class DiskBackendLaws (B : Type) `{DiskBackend B} := {
  outstanding : B -> list Z;
  submit_law reqs m b :
    let '(r, b') := bk_submit reqs m b in
    match r with
    | Ok n => (n <= length reqs)%nat /\ outstanding b' ≡ₚ (token <$> take n reqs) ++ outstanding b
    | Err _ => outstanding b' = outstanding b
    end;
  reap_law n wait b :
    match bk_reap n wait b with
    | Some (Ok cs, b') => (length cs <= n)%nat /\ outstanding b ≡ₚ cs.*1 ++ outstanding b'
    | Some (Err _, b') => outstanding b' = outstanding b
    | None => True
    end;
  shutdown_law b : outstanding (bk_shutdown b) = outstanding b;
  advance_law b : outstanding (bk_advance b) = outstanding b
}.

(** [max_request_blocks_] *)
Definition ClampRequestBlocks (capability : Z) : Z := Z.max 1 (Z.min capability kMaxDiskRequestBlocks).

(** ** Tokens *)

Definition tag_token (t : Z) : Z := Z.lor t kAsyncTokenTag.
Definition is_async (t : Z) : bool := negb (Z.land t kAsyncTokenTag =? 0).
(** The completion object a token points to. *)
Definition object_of (t : Z) : Z := Z.land t (u64_not kAsyncTokenTag).

Definition tag_request (r : DiskRequest) : DiskRequest :=
  MkRequest (tag_token (token r)) (operation r) (request_tag r) (block_count r) (buffers r).

Section Engine.
Context {B : Type} `{DiskBackendLaws B}.

(** ** State *)

(** [pending_], [error_claimed_] and [error_] of a waiter are maps over the
    waiters' addresses. *)
Record engine := Engine {
  backend : B;
  demand : Z;
  stopping : bool;
  stopped : bool;
  stop_status : Status;
  reaper_running : bool;
  fatal : option Error;
  pending : Z -> Z;
  error_claimed : Z -> bool;
  waiter_error : Z -> Status;
  issued : list Z;
  delivered : list (Z * Status);
  wakes : Z
}.

Definition NewEngine (b : B) : engine :=
  Engine b 0 false false (Unavailable "io engine stopped" 0) false None (fun _ => 0) (fun _ => false) (fun _ => Ok tt) [] [] 0.

Definition set_backend (b : B) (s : engine) : engine :=
  Engine b (demand s) (stopping s) (stopped s) (stop_status s) (reaper_running s) (fatal s) (pending s)
    (error_claimed s) (waiter_error s) (issued s) (delivered s) (wakes s).
Definition set_demand (d : Z) (s : engine) : engine :=
  Engine (backend s) d (stopping s) (stopped s) (stop_status s) (reaper_running s) (fatal s) (pending s)
    (error_claimed s) (waiter_error s) (issued s) (delivered s) (wakes s).
Definition set_stop (going done : bool) (r : Status) (s : engine) : engine :=
  Engine (backend s) (demand s) going done r (reaper_running s) (fatal s) (pending s)
    (error_claimed s) (waiter_error s) (issued s) (delivered s) (wakes s).
Definition set_reaper (b : bool) (s : engine) : engine :=
  Engine (backend s) (demand s) (stopping s) (stopped s) (stop_status s) b (fatal s) (pending s)
    (error_claimed s) (waiter_error s) (issued s) (delivered s) (wakes s).
Definition set_fatal (e : option Error) (s : engine) : engine :=
  Engine (backend s) (demand s) (stopping s) (stopped s) (stop_status s) (reaper_running s) e (pending s)
    (error_claimed s) (waiter_error s) (issued s) (delivered s) (wakes s).
Definition set_pending (p : Z -> Z) (s : engine) : engine :=
  Engine (backend s) (demand s) (stopping s) (stopped s) (stop_status s) (reaper_running s) (fatal s) p
    (error_claimed s) (waiter_error s) (issued s) (delivered s) (wakes s).
Definition set_claimed (c : Z -> bool) (s : engine) : engine :=
  Engine (backend s) (demand s) (stopping s) (stopped s) (stop_status s) (reaper_running s) (fatal s) (pending s)
    c (waiter_error s) (issued s) (delivered s) (wakes s).
Definition set_waiter_error (e : Z -> Status) (s : engine) : engine :=
  Engine (backend s) (demand s) (stopping s) (stopped s) (stop_status s) (reaper_running s) (fatal s) (pending s)
    (error_claimed s) e (issued s) (delivered s) (wakes s).
Definition note_issued (l : list Z) (s : engine) : engine :=
  Engine (backend s) (demand s) (stopping s) (stopped s) (stop_status s) (reaper_running s) (fatal s) (pending s)
    (error_claimed s) (waiter_error s) (issued s ++ l) (delivered s) (wakes s).
Definition note_delivered (c : Z * Status) (s : engine) : engine :=
  Engine (backend s) (demand s) (stopping s) (stopped s) (stop_status s) (reaper_running s) (fatal s) (pending s)
    (error_claimed s) (waiter_error s) (issued s) (delivered s ++ [c]) (wakes s).
Definition note_wake (s : engine) : engine :=
  Engine (backend s) (demand s) (stopping s) (stopped s) (stop_status s) (reaper_running s) (fatal s) (pending s)
    (error_claimed s) (waiter_error s) (issued s) (delivered s) (wakes s + 1).

(** ** Threads *)

(** Where a thread goes on after [Dispatch] or [Deliver]. *)
Inductive kont :=
  | KSubmit (rest : list DiskRequest) (m : DiskSubmitMode)
  | KWait (w : Z) (sleeping : bool)
  | KRun
  | KEnd.

Inductive pc :=
  | PCall (reqs : list DiskRequest) (m : DiskSubmitMode)
  | PSubmit (rest : list DiskRequest) (m : DiskSubmitMode)
  | PStopRead (rest : list DiskRequest)
  | PSubmitNow (r : DiskRequest) (rest : list DiskRequest) (m : DiskSubmitMode)
  | PDispatch (cs : list DiskCompletion) (k : kont)
  | PWriteError (c : DiskCompletion) (cs : list DiskCompletion) (k : kont)
  | PCount (c : DiskCompletion) (cs : list DiskCompletion) (k : kont)
  | PDemand (c : DiskCompletion) (cs : list DiskCompletion) (k : kont)
  | PWait (w : Z) (sleeping : bool)
  | PWaitReap (w : Z) (sleeping : bool)
  | PWaitStop (w : Z) (sleeping : bool)
  | PWaitEnd (w : Z) (sleeping : bool)
  | PRun
  | PRunDemand
  | PRunSleep
  | PRunReap
  | PRunStop (e : Error)
  | PRunStopped
  | PShutdown (reason : Status)
  | PShutBackend
  | PShutWake
  | PShutJoin
  | PDone (r : option Status).

Definition resume (k : kont) : pc :=
  match k with
  | KSubmit rest m => PSubmit rest m
  | KWait w sleeping => PWait w sleeping
  | KRun => PRun
  | KEnd => PDone None
  end.

Definition AddReaperDemand (count : Z) (s : engine) : engine := set_demand (u32 (demand s + count)) s.

Definition leave_sleep (sleeping : bool) (s : engine) : engine :=
  if sleeping then set_demand (u32 (demand s - 1)) s else s.

(** One step of a thread; [None] when it blocks or has returned. *)
Definition tstep (t : pc) (s : engine) : option (pc * engine) :=
  match t with
  (* Submit *)
  | PCall reqs kWait => Some (PSubmit reqs kWait, s)
  | PCall reqs kAsync =>
      let tagged := tag_request <$> reqs in
      Some (PSubmit tagged kAsync, AddReaperDemand (u32 (Z.of_nat (length tagged))) s)
  (* SubmitTagged *)
  | PSubmit [] _ => Some (PDone None, s)
  | PSubmit (r :: rest) m => if stopped s then Some (PStopRead (r :: rest), s) else Some (PSubmitNow r rest m, s)
  | PStopRead rest => Some (PDispatch ((fun r => (token r, stop_status s)) <$> rest) KEnd, s)
  | PSubmitNow r rest m =>
      let '(accepted, b) := bk_submit (r :: rest) m (backend s) in
      match accepted with
      | Ok (S n) => Some (PSubmit (drop n rest) m, set_backend b s)
      | Ok O => Some (PDispatch [(token r, Internal "disk backend accepted no request")] (KSubmit rest m), set_backend b s)
      | Err e => Some (PDispatch [(token r, Err e)] (KSubmit rest m), set_backend b s)
      end
  (* Dispatch, Deliver, IoWaiter::Complete *)
  | PDispatch [] k => Some (resume k, s)
  | PDispatch (c :: cs) k =>
      let w := object_of c.1 in
      if negb (has_value c.2) && negb (error_claimed s w)
      then Some (PWriteError c cs k, set_claimed (<[w := true]> (error_claimed s)) s)
      else Some (PCount c cs k, s)
  | PWriteError c cs k =>
      Some (PCount c cs k, set_waiter_error (<[object_of c.1 := c.2]> (waiter_error s)) s)
  | PCount c cs k =>
      let w := object_of c.1 in
      Some (if is_async c.1 then PDemand c cs k else PDispatch cs k,
            note_delivered (w, c.2) (set_pending (<[w := u32 (pending s w - 1)]> (pending s)) s))
  | PDemand c cs k => Some (PDispatch cs k, set_demand (u32 (demand s - 1)) s)
  (* Wait *)
  | PWait w sleeping => Some (if pending s w =? 0 then PWaitEnd w sleeping else PWaitReap w sleeping, s)
  | PWaitReap w sleeping =>
      match bk_reap kReapBatch false (backend s) with
      | Some (Ok (c :: cs), b) => Some (PDispatch (c :: cs) (KWait w sleeping), set_backend b s)
      | Some (_, b) => Some (PWaitStop w sleeping, set_backend b s)
      | None => Some (PWaitStop w sleeping, s)
      end
  | PWaitStop w sleeping =>
      if stopped s then Some (PDone (Some (stop_status s)), leave_sleep sleeping s)
      else if sleeping then Some (PWait w true, s)
      else Some (PWait w true, AddReaperDemand 1 s)
  | PWaitEnd w sleeping => Some (PDone (Some (waiter_error s w)), leave_sleep sleeping s)
  (* Run *)
  | PRun => Some (if stopping s then PRunReap else PRunDemand, s)
  | PRunDemand => Some (if demand s =? 0 then PRunSleep else PRunReap, s)
  | PRunSleep => if demand s =? 0 then None else Some (PRun, s)
  | PRunReap =>
      match bk_reap kReapBatch true (backend s) with
      | None => None
      | Some (Ok cs, b) => Some (PDispatch cs KRun, set_backend b s)
      | Some (Err e, b) =>
          Some (PRunStop e, set_fatal (if stopping s then fatal s else Some e) (set_backend b s))
      end
  | PRunStop e => Some (PRunStopped, set_stop (stopping s) (stopped s) (if stopping s then stop_status s else Err e) s)
  | PRunStopped => Some (PDone None, set_reaper false (set_stop (stopping s) true (stop_status s) s))
  (* Shutdown *)
  | PShutdown reason =>
      if stopping s then Some (PDone None, s) else Some (PShutBackend, set_stop true (stopped s) reason s)
  | PShutBackend => Some (PShutWake, set_backend (bk_shutdown (backend s)) s)
  | PShutWake => Some (PShutJoin, note_wake (set_demand (u32 (demand s + 1)) s))
  | PShutJoin => if reaper_running s then None else Some (PDone None, set_stop (stopping s) true (stop_status s) s)
  | PDone _ => None
  end.

Record system := System { shared : engine; threads : gmap nat pc }.

(** A client gives each request of a call to a waiter of its own, whose count it
    raised before ([IoWaiter(n)] or [Add(n)]); completion objects are aligned, so
    their addresses do not use the bit of the tag. *)
Inductive engine_step : system -> system -> Prop :=
  | step_thread s i t t' e' :
      threads s !! i = Some t -> tstep t (shared s) = Some (t', e') ->
      engine_step s (System e' (<[i := t']> (threads s)))
  | step_backend s : engine_step s (System (set_backend (bk_advance (backend (shared s))) (shared s)) (threads s))
  | step_submit s i w reqs m :
      threads s !! i = None -> Forall (fun r => token r = w) reqs -> object_of w = w ->
      engine_step s (System (note_issued ((fun _ => w) <$> reqs)
                       (set_pending (<[w := u32 (pending (shared s) w + Z.of_nat (length reqs))]> (pending (shared s))) (shared s)))
                     (<[i := PCall reqs m]> (threads s)))
  | step_wait s i w : threads s !! i = None -> engine_step s (System (shared s) (<[i := PWait w false]> (threads s)))
  | step_start s i :
      threads s !! i = None -> reaper_running (shared s) = false ->
      engine_step s (System (set_reaper true (shared s)) (<[i := PRun]> (threads s)))
  | step_shutdown s i reason :
      threads s !! i = None -> engine_step s (System (shared s) (<[i := PShutdown reason]> (threads s))).

Definition start (b : B) : system := System (NewEngine b) ∅.

Definition reachable (b : B) (s : system) : Prop := rtc engine_step (start b) s.

(** ** Counting requests in flight *)

Lemma object_tagged t : object_of (tag_token t) = object_of t.
Proof.
  unfold object_of, tag_token. rewrite Z.land_lor_distr_l.
  replace (Z.land kAsyncTokenTag (u64_not kAsyncTokenTag)) with 0 by (vm_compute; reflexivity). apply Z.lor_0_r.
Qed.

Lemma async_tagged t : is_async (tag_token t) = true.
Proof.
  unfold is_async, tag_token. rewrite Z.land_lor_distr_l, Z.land_diag. unfold kAsyncTokenTag.
  destruct (Z.eqb_spec (Z.lor (Z.land t 1) 1) 0) as [E|]; [|done]. apply Z.lor_eq_0_iff in E. lia.
Qed.

Lemma async_object w : object_of w = w -> is_async w = false.
Proof.
  intros E. unfold is_async. rewrite <- E. unfold object_of. rewrite <- Z.land_assoc.
  replace (Z.land (u64_not kAsyncTokenTag) kAsyncTokenTag) with 0 by (vm_compute; reflexivity). by rewrite Z.land_0_r.
Qed.

(** The weight of a list of tokens. *)
Definition weigh (wt : Z -> Z) (l : list Z) : Z := foldr (fun t n => wt t + n) 0 l.

Lemma weigh_app wt l1 l2 : weigh wt (l1 ++ l2) = weigh wt l1 + weigh wt l2.
Proof. induction l1 as [|t l1 IH]; cbn; [done|]. unfold weigh in *. cbn. rewrite IH. lia. Qed.

#[global] Instance weigh_perm wt : Proper ((≡ₚ) ==> eq) (weigh wt).
Proof. intros l1 l2 Hp. induction Hp; cbn; try lia; unfold weigh in *; cbn in *; lia. Qed.

Lemma weigh_nonneg wt l : (forall t, 0 <= wt t) -> 0 <= weigh wt l.
Proof. intros Hw. induction l as [|t l IH]; unfold weigh in *; cbn; [done|]. specialize (Hw t). lia. Qed.

(** The requests a thread still has to hand on; with [late], also one whose
    completion ran but whose demand was not given back. *)
Definition kont_weight (wt : Z -> Z) (k : kont) : Z :=
  match k with KSubmit rest _ => weigh wt (token <$> rest) | _ => 0 end.

Definition weight (late : bool) (wt : Z -> Z) (t : pc) : Z :=
  match t with
  | PCall reqs _ => weigh wt (token <$> reqs)
  | PSubmit rest _ | PStopRead rest => weigh wt (token <$> rest)
  | PSubmitNow r rest _ => wt (token r) + weigh wt (token <$> rest)
  | PDispatch cs k => weigh wt (cs.*1) + kont_weight wt k
  | PWriteError c cs k | PCount c cs k => wt c.1 + weigh wt (cs.*1) + kont_weight wt k
  | PDemand c cs k => (if late then wt c.1 else 0) + weigh wt (cs.*1) + kont_weight wt k
  | _ => 0
  end.

Definition in_flight (late : bool) (wt : Z -> Z) (s : system) : Z :=
  weigh wt (outstanding (backend (shared s))) + total (weight late wt) (threads s).

Definition for_object (w t : Z) : Z := b2z (bool_decide (object_of t = w)).
Definition async_weight (t : Z) : Z := b2z (is_async t).

(** Waiters that count as demand. *)
Definition kont_sleeps (k : kont) : Z := match k with KWait _ sleeping => b2z sleeping | _ => 0 end.

Definition sleeps (t : pc) : Z :=
  match t with
  | PDispatch _ k | PWriteError _ _ k | PCount _ _ k | PDemand _ _ k => kont_sleeps k
  | PWait _ sleeping | PWaitReap _ sleeping | PWaitStop _ sleeping | PWaitEnd _ sleeping => b2z sleeping
  | _ => 0
  end.

Definition occurrences (w : Z) (l : list Z) : Z := weigh (fun t => b2z (bool_decide (t = w))) l.

(** ** The effect of one step *)

(** [set] fields that do not matter for counting are left alone. *)
Lemma resume_weight late wt k : weight late wt (resume k) = kont_weight wt k.
Proof. by destruct k. Qed.
Lemma resume_sleeps k : sleeps (resume k) = kont_sleeps k.
Proof. by destruct k. Qed.

Lemma weigh_completions {A} wt (f : A -> Z) (g : A -> Status) l : weigh wt ((fun r => (f r, g r)) <$> l).*1 = weigh wt (f <$> l).
Proof. f_equal. rewrite <- list_fmap_compose. by apply list_fmap_ext. Qed.

Lemma weigh_submitted wt r rest n b b' :
  outstanding b' ≡ₚ (token <$> take (S n) (r :: rest)) ++ outstanding b ->
  weigh wt (outstanding b') + weigh wt (token <$> drop n rest) = wt (token r) + weigh wt (token <$> rest) + weigh wt (outstanding b).
Proof.
  intros ->. rewrite weigh_app. pose proof (take_drop n rest) as E.
  assert (weigh wt (token <$> rest) = weigh wt (token <$> take n rest) + weigh wt (token <$> drop n rest)) as ->.
  { rewrite <- E at 1. by rewrite fmap_app, weigh_app. }
  cbn. unfold weigh. cbn. lia.
Qed.

Lemma object_twice t : object_of (object_of t) = object_of t.
Proof. unfold object_of. by rewrite <- Z.land_assoc, Z.land_diag. Qed.

Lemma weigh_tagged wt reqs : (forall t, wt (tag_token t) = wt t) -> weigh wt (token <$> (tag_request <$> reqs)) = weigh wt (token <$> reqs).
Proof. intros Hw. induction reqs as [|r reqs IH]; unfold weigh in *; cbn; [done|]. by rewrite IH, Hw. Qed.

Lemma weigh_tagged_async reqs : weigh async_weight (token <$> (tag_request <$> reqs)) = Z.of_nat (length reqs).
Proof.
  induction reqs as [|r reqs IH]; unfold weigh in *; cbn [fmap list_fmap foldr length]; [done|]. rewrite IH.
  unfold async_weight at 1. cbn [token tag_request]. rewrite async_tagged. cbn. lia.
Qed.

(** The backend's answers move tokens between the threads and the backend. *)
Lemma submit_moves wt r rest m b b' a :
  bk_submit (r :: rest) m b = (a, b') ->
  match a with
  | Ok (S n) => weigh wt (outstanding b') + weigh wt (token <$> drop n rest) =
                  wt (token r) + weigh wt (token <$> rest) + weigh wt (outstanding b)
  | _ => weigh wt (outstanding b') = weigh wt (outstanding b)
  end.
Proof.
  intros E. pose proof (submit_law (r :: rest) m b) as Hl. rewrite E in Hl. destruct a as [[|n]|e].
  - destruct Hl as [_ Hl]. by rewrite Hl.
  - destruct Hl as [_ Hl]. by apply weigh_submitted.
  - by rewrite Hl.
Qed.

Lemma reap_moves wt n wait b b' a :
  bk_reap n wait b = Some (a, b') ->
  weigh wt (outstanding b) = match a with Ok cs => weigh wt cs.*1 | Err _ => 0 end + weigh wt (outstanding b').
Proof.
  intros E. pose proof (reap_law n wait b) as Hl. rewrite E in Hl. destruct a as [cs|e].
  - destruct Hl as [_ Hl]. by rewrite Hl, weigh_app.
  - by rewrite Hl.
Qed.

(** What a step does to the requests of one waiter: nothing, or it completes one. *)
Definition counted (w : Z) (t : pc) (s : engine) : Z :=
  weigh (for_object w) (outstanding (backend s)) + weight false (for_object w) t.

Definition flows (w : Z) (t : pc) (s : engine) (t' : pc) (s' : engine) : Prop :=
  exists d, counted w t' s' = counted w t s - d /\
    occurrences w (delivered s').*1 = occurrences w (delivered s).*1 + d /\
    (d = 0 /\ pending s' w = pending s w \/ d = 1 /\ pending s' w = u32 (pending s w - 1)) /\ issued s' = issued s.

Lemma flows_same w t s t' s' :
  counted w t' s' = counted w t s -> delivered s' = delivered s -> pending s' = pending s -> issued s' = issued s ->
  flows w t s t' s'.
Proof. intros E1 E2 E3 E4. exists 0. rewrite E1, E2, E3, E4. split_and!; [lia|lia|by left|done]. Qed.

Lemma for_object_tagged w t : for_object w (tag_token t) = for_object w t.
Proof. unfold for_object. by rewrite object_tagged. Qed.

Lemma counted_submit w r rest m s a b :
  bk_submit (r :: rest) m (backend s) = (a, b) ->
  forall t', (match a with
    | Ok (S n) => t' = PSubmit (drop n rest) m
    | _ => exists st, t' = PDispatch [(token r, st)] (KSubmit rest m)
    end) -> flows w (PSubmitNow r rest m) s t' (set_backend b s).
Proof.
  intros E t' Ht. pose proof (submit_moves (for_object w) r rest m _ _ _ E) as Hm.
  apply flows_same; try done. unfold counted. destruct a as [[|n]|e]; [destruct Ht as [st ->]|subst t'|destruct Ht as [st ->]];
    cbn [weight backend set_backend kont_weight]; rewrite ?Hm; cbn; unfold weigh in *; cbn; lia.
Qed.

Lemma counted_reap w t t' n wait s a b :
  bk_reap n wait (backend s) = Some (a, b) -> weight false (for_object w) t = 0 ->
  weight false (for_object w) t' = match a with Ok cs => weigh (for_object w) cs.*1 | Err _ => 0 end ->
  flows w t s t' (set_backend b s).
Proof.
  intros E Et Et'. pose proof (reap_moves (for_object w) n wait _ _ _ E) as Hm. apply flows_same; try done.
  unfold counted. cbn [backend set_backend]. rewrite Et, Et', Hm. lia.
Qed.

Lemma occurrences_snoc w l a : occurrences w (l ++ [a]) = occurrences w l + b2z (bool_decide (a = w)).
Proof. unfold occurrences. rewrite weigh_app. unfold weigh at 2. cbn. lia. Qed.

Lemma tstep_flows w t s t' s' : tstep t s = Some (t', s') -> flows w t s t' s'.
Proof.
  intros Hs. destruct t as [reqs m|rest m|rest|r rest m|cs k|c cs k|c cs k|c cs k|v sl|v sl|v sl|v sl| | | | |e| |reason| | | |r];
    cbn [tstep] in Hs.
  - destruct m; simplify_eq Hs; intros; subst; apply flows_same; try done. unfold counted. cbn [weight backend AddReaperDemand set_demand].
    by rewrite (weigh_tagged _ reqs (for_object_tagged w)).
  - destruct rest as [|r rest]; [|destruct (stopped s)]; simplify_eq Hs; intros; subst; by apply flows_same.
  - simplify_eq Hs; intros; subst. apply flows_same; try done. unfold counted. cbn [weight kont_weight].
    rewrite (weigh_completions _ token (fun _ => stop_status s')). lia.
  - destruct (bk_submit (r :: rest) m (backend s)) as [a b] eqn:E.
    destruct a as [[|n]|e]; simplify_eq Hs; intros; subst; apply (counted_submit w r rest m s _ _ E); by eexists || done.
  - destruct cs as [|c cs]; [|destruct (negb _ && _)]; simplify_eq Hs; intros; subst; apply flows_same; try done;
      unfold counted; rewrite ?resume_weight; cbn; unfold weigh; cbn; lia.
  - simplify_eq Hs; intros; subst. by apply flows_same.
  - simplify_eq Hs; intros; subst. exists (for_object w c.1). unfold counted.
    assert (weight false (for_object w) (if is_async c.1 then PDemand c cs k else PDispatch cs k) =
      weigh (for_object w) cs.*1 + kont_weight (for_object w) k) as -> by (destruct (is_async c.1); cbn; lia).
    cbn [delivered note_delivered set_pending pending backend issued weight]. rewrite fmap_app. cbn [fmap list_fmap fst].
    rewrite occurrences_snoc. unfold for_object. split_and!; [lia|done| |done].
    case_bool_decide as Ew; cbn; [right|left]; (split; [done|]); [|by rewrite fn_lookup_insert_ne].
    by rewrite <- Ew, fn_lookup_insert.
  - simplify_eq Hs; intros; subst. by apply flows_same.
  - simplify_eq Hs; intros; subst. apply flows_same; try done. unfold counted. by destruct (_ =? 0).
  - destruct (bk_reap _ _ _) as [[[[|c cs]|e] b]|] eqn:E; simplify_eq Hs; intros; subst;
      try (apply (counted_reap w _ _ _ _ _ _ _ E); cbn; unfold weigh; cbn; lia). by apply flows_same.
  - destruct (stopped s); [|destruct sl]; simplify_eq Hs; intros; subst; apply flows_same; try done; unfold leave_sleep; by destruct sl.
  - simplify_eq Hs; intros; subst. apply flows_same; unfold counted, leave_sleep; by destruct sl.
  - simplify_eq Hs; intros; subst. apply flows_same; try done. unfold counted. by destruct (stopping _).
  - simplify_eq Hs; intros; subst. apply flows_same; try done. unfold counted. by destruct (_ =? 0).
  - destruct (_ =? 0); simplify_eq Hs; intros; subst. by apply flows_same.
  - destruct (bk_reap _ _ _) as [[[cs|e] b]|] eqn:E; simplify_eq Hs; intros; subst.
    + apply (counted_reap w _ _ _ _ _ _ _ E); cbn; [done|lia].
    + pose proof (counted_reap w PRunReap (PRunStop e) _ _ _ _ _ E eq_refl eq_refl) as (d & A1 & A2 & A3 & A4). by exists d.
  - simplify_eq Hs; intros; subst. by apply flows_same.
  - simplify_eq Hs; intros; subst. by apply flows_same.
  - destruct (stopping s); simplify_eq Hs; intros; subst; by apply flows_same.
  - simplify_eq Hs; intros; subst. apply flows_same; try done. unfold counted. cbn. by rewrite shutdown_law.
  - simplify_eq Hs; intros; subst. by apply flows_same.
  - destruct (reaper_running s); simplify_eq Hs; intros; subst. by apply flows_same.
  - done.
Qed.

(** What a step does to the demand: asynchronous requests whose completion has
    not been accounted for, waiters asleep and the wake of a shutdown. *)
Definition owed (t : pc) (s : engine) : Z :=
  weigh async_weight (outstanding (backend s)) + weight true async_weight t + sleeps t + wakes s.

Definition paid (t : pc) (s : engine) (t' : pc) (s' : engine) : Prop :=
  exists d, owed t' s' = owed t s + d /\ (d = 0 /\ demand s' = demand s \/ demand s' = u32 (demand s + d)).

Lemma paid_same t s t' s' : owed t' s' = owed t s -> demand s' = demand s -> paid t s t' s'.
Proof. intros E1 E2. exists 0. split; [lia|by left]. Qed.

Lemma u32_add_r a b : u32 (a + u32 b) = u32 (a + b).
Proof. unfold u32. apply Zplus_mod_idemp_r. Qed.
Lemma u32_add_l a b : u32 (u32 a + b) = u32 (a + b).
Proof. unfold u32. apply Zplus_mod_idemp_l. Qed.

Lemma paid_sleep w sl r s : paid (PWaitEnd w sl) s (PDone r) (leave_sleep sl s).
Proof.
  exists (- b2z sl). unfold owed, leave_sleep. destruct sl; cbn; split; [lia|by right|lia|by left].
Qed.

Lemma tstep_paid t s t' s' :
  (match t with
   | PCall reqs _ => weigh async_weight (token <$> reqs) = 0
   | PDemand c _ _ => is_async c.1 = true
   | _ => True
   end) ->
  tstep t s = Some (t', s') -> paid t s t' s'.
Proof.
  intros Hpc Hs. destruct t as [reqs m|rest m|rest|r rest m|cs k|c cs k|c cs k|c cs k|v sl|v sl|v sl|v sl| | | | |e| |reason| | | |r];
    cbn [tstep] in Hs.
  - destruct m; simplify_eq Hs; intros; subst; [by apply paid_same|]. exists (Z.of_nat (length reqs)). unfold owed.
    cbn [weight backend AddReaperDemand set_demand demand sleeps wakes].
    rewrite weigh_tagged_async, Hpc, length_fmap, u32_add_r. split; [lia|by right].
  - destruct rest as [|r rest]; [|destruct (stopped s)]; simplify_eq Hs; intros; subst; by apply paid_same.
  - simplify_eq Hs; intros; subst. apply paid_same; try done. unfold owed. cbn [weight kont_weight sleeps kont_sleeps].
    rewrite (weigh_completions _ token (fun _ => stop_status s')). lia.
  - destruct (bk_submit (r :: rest) m (backend s)) as [a b] eqn:E. pose proof (submit_moves async_weight _ _ _ _ _ _ E) as Hm.
    destruct a as [[|n]|e]; simplify_eq Hs; intros; subst; apply paid_same; try done; unfold owed;
      cbn [weight backend set_backend kont_weight sleeps kont_sleeps wakes]; rewrite ?Hm; cbn; unfold weigh in *; cbn; lia.
  - destruct cs as [|c cs]; [|destruct (negb _ && _)]; simplify_eq Hs; intros; subst; apply paid_same; try done; unfold owed;
      rewrite ?resume_weight, ?resume_sleeps; cbn; unfold weigh; cbn; lia.
  - simplify_eq Hs; intros; subst. by apply paid_same.
  - simplify_eq Hs; intros; subst. apply paid_same; [|done]. unfold owed.
    destruct (is_async c.1) eqn:Ea; cbn; [done|]. assert (async_weight c.1 = 0) by (unfold async_weight; by rewrite Ea). lia.
  - simplify_eq Hs; intros; subst. exists (-1). unfold owed. cbn.
    assert (async_weight c.1 = 1) by (unfold async_weight; by rewrite Hpc). split; [lia|by right].
  - simplify_eq Hs; intros; subst. apply paid_same; [|done]. unfold owed. by destruct (_ =? 0).
  - destruct (bk_reap _ _ _) as [[[[|c cs]|e] b]|] eqn:E; simplify_eq Hs; intros; subst; try (by apply paid_same);
      (apply paid_same; [|done]); pose proof (reap_moves async_weight _ _ _ _ _ E) as Hm; unfold owed;
      cbn [backend set_backend weight kont_weight sleeps kont_sleeps wakes]; rewrite Hm; unfold weigh; cbn; lia.
  - destruct (stopped s); [|destruct sl]; simplify_eq Hs; intros; subst.
    + destruct (paid_sleep v sl (Some (stop_status s)) s) as (d & E1 & E2). by exists d.
    + by apply paid_same.
    + exists 1. unfold owed. cbn. split; [lia|by right].
  - simplify_eq Hs; intros; subst. apply paid_sleep.
  - simplify_eq Hs; intros; subst. apply paid_same; [|done]. unfold owed. by destruct (stopping _).
  - simplify_eq Hs; intros; subst. apply paid_same; [|done]. unfold owed. by destruct (_ =? 0).
  - destruct (_ =? 0); simplify_eq Hs; intros; subst. by apply paid_same.
  - destruct (bk_reap _ _ _) as [[[cs|e] b]|] eqn:E; simplify_eq Hs; intros; subst;
      (apply paid_same; [|done]); pose proof (reap_moves async_weight _ _ _ _ _ E) as Hm; unfold owed;
      cbn [backend set_backend set_fatal weight kont_weight sleeps kont_sleeps wakes]; rewrite Hm; lia.
  - simplify_eq Hs; intros; subst. by apply paid_same.
  - simplify_eq Hs; intros; subst. by apply paid_same.
  - destruct (stopping s); simplify_eq Hs; intros; subst; by apply paid_same.
  - simplify_eq Hs; intros; subst. apply paid_same; try done. unfold owed. cbn. by rewrite shutdown_law.
  - simplify_eq Hs; intros; subst. exists 1. unfold owed. cbn. split; [lia|by right].
  - destruct (reaper_running s); simplify_eq Hs; intros; subst. by apply paid_same.
  - done.
Qed.

(** ** Errors of a waiter *)

(** A completion with an error in a thread's hands has been noted, or is next. *)
Definition pc_ok (s : engine) (t : pc) : Prop :=
  match t with
  | PCall reqs _ => weigh async_weight (token <$> reqs) = 0
  | PWriteError c _ _ => has_value c.2 = false /\ error_claimed s (object_of c.1) = true
  | PCount c _ _ => has_value c.2 = false -> error_claimed s (object_of c.1) = true
  | PDemand c _ _ => is_async c.1 = true
  | _ => True
  end.

Definition writes_error (w : Z) (t : pc) : Prop :=
  match t with PWriteError c _ _ => object_of c.1 = w | _ => False end.

Lemma pc_ok_mono s s' t : (forall w, error_claimed s w = true -> error_claimed s' w = true) -> pc_ok s t -> pc_ok s' t.
Proof. intros Hm. destruct t; cbn; naive_solver. Qed.

Lemma tstep_errors t s t' s' :
  tstep t s = Some (t', s') -> pc_ok s t ->
  pc_ok s' t' /\ (forall w, error_claimed s w = true -> error_claimed s' w = true) /\
  (forall w e, (w, Err e) ∈ delivered s' -> (w, Err e) ∈ delivered s \/ error_claimed s' w = true) /\
  (forall w, error_claimed s' w = true ->
     (error_claimed s w = true /\ ~ writes_error w t) /\ waiter_error s' w = waiter_error s w \/
     writes_error w t' \/ has_value (waiter_error s' w) = false).
Proof.
  intros Hs Hok.
  assert (forall t' s', pc_ok s' t' -> error_claimed s' = error_claimed s -> delivered s' = delivered s ->
    waiter_error s' = waiter_error s -> match t with PWriteError _ _ _ => False | _ => True end ->
    pc_ok s' t' /\ (forall w, error_claimed s w = true -> error_claimed s' w = true) /\
    (forall w e, (w, Err e) ∈ delivered s' -> (w, Err e) ∈ delivered s \/ error_claimed s' w = true) /\
    (forall w, error_claimed s' w = true ->
       (error_claimed s w = true /\ ~ writes_error w t) /\ waiter_error s' w = waiter_error s w \/
       writes_error w t' \/ has_value (waiter_error s' w) = false)) as Hsame.
  { clear. intros t' s' A1 A2 A3 A4 A5. rewrite A2, A3, A4. assert (forall w, ~ writes_error w t) by (intros w; destruct t; cbn; tauto).
    split_and!; auto. }
  destruct t as [reqs m|rest m|rest|r rest m|cs k|c cs k|c cs k|c cs k|v sl|v sl|v sl|v sl| | | | |e| |reason| | | |r]; cbn [tstep] in Hs.
  - destruct m; simplify_eq Hs; intros; subst; by apply Hsame.
  - destruct rest as [|r rest]; [|destruct (stopped s)]; simplify_eq Hs; intros; subst; by apply Hsame.
  - simplify_eq Hs; intros; subst. by apply Hsame.
  - destruct (bk_submit _ _ _) as [[[|n]|e] b]; simplify_eq Hs; intros; subst; by apply Hsame.
  - destruct cs as [|c cs]; [simplify_eq Hs; intros; subst; apply Hsame; try done; by destruct k|].
    destruct (negb (has_value c.2)) eqn:Ev; cbn [andb] in Hs; [destruct (error_claimed s (object_of c.1)) eqn:Ec; cbn [negb] in Hs|];
      simplify_eq Hs; intros; subst.
    + apply Hsame; try done. cbn. congruence.
    + apply negb_true_iff in Ev. cbn. split_and!.
      * done.
      * by rewrite fn_lookup_insert.
      * intros w Hw. destruct (decide (w = object_of c.1)) as [->|]; [by rewrite fn_lookup_insert|by rewrite fn_lookup_insert_ne].
      * auto.
      * intros w Hw. destruct (decide (w = object_of c.1)) as [->|]; [auto|]. rewrite fn_lookup_insert_ne in Hw by done. auto.
    + apply Hsame; try done. cbn. apply negb_false_iff in Ev. congruence.
  - simplify_eq Hs; intros; subst. destruct Hok as [Hv Hc]. cbn. split_and!; auto. intros w Hw.
    destruct (decide (object_of c.1 = w)) as [<-|]; [rewrite fn_lookup_insert; auto|rewrite fn_lookup_insert_ne by done; auto].
  - simplify_eq Hs; intros; subst. cbn in *. split_and!; auto.
    + by destruct (is_async c.1) eqn:E.
    + intros w e' Hin. apply elem_of_app in Hin as [Hin|Hin]; [by left|]. apply list_elem_of_singleton in Hin. simplify_eq.
      right. apply Hok. destruct c as [? []]; simplify_eq/=; done.
  - simplify_eq Hs; intros; subst. by apply Hsame.
  - simplify_eq Hs; intros; subst. apply Hsame; try done. by destruct (_ =? 0).
  - destruct (bk_reap _ _ _) as [[[[|c cs]|e] b]|]; simplify_eq Hs; intros; subst; by apply Hsame.
  - destruct (stopped s); [|destruct sl]; simplify_eq Hs; intros; subst; apply Hsame; try done; unfold leave_sleep; by destruct sl.
  - simplify_eq Hs; intros; subst. apply Hsame; try done; unfold leave_sleep; by destruct sl.
  - simplify_eq Hs; intros; subst. apply Hsame; try done. by destruct (stopping _).
  - simplify_eq Hs; intros; subst. apply Hsame; try done. by destruct (_ =? 0).
  - destruct (_ =? 0); simplify_eq Hs; intros; subst. by apply Hsame.
  - destruct (bk_reap _ _ _) as [[[cs|e] b]|]; simplify_eq Hs; intros; subst; by apply Hsame.
  - simplify_eq Hs; intros; subst. by apply Hsame.
  - simplify_eq Hs; intros; subst. by apply Hsame.
  - destruct (stopping s); simplify_eq Hs; intros; subst; by apply Hsame.
  - simplify_eq Hs; intros; subst. by apply Hsame.
  - simplify_eq Hs; intros; subst. by apply Hsame.
  - destruct (reaper_running s); simplify_eq Hs; intros; subst. by apply Hsame.
  - done.
Qed.

(** ** The invariant of all reachable states *)

Record inv (s : system) : Prop := {
  i_pending w : pending (shared s) w = u32 (in_flight false (for_object w) s);
  i_flow w : occurrences w (issued (shared s)) = occurrences w (delivered (shared s)).*1 + in_flight false (for_object w) s;
  i_demand : demand (shared s) = u32 (in_flight true async_weight s + total sleeps (threads s) + wakes (shared s));
  i_pc i t : threads s !! i = Some t -> pc_ok (shared s) t;
  i_noted w e : (w, Err e) ∈ delivered (shared s) -> error_claimed (shared s) w = true;
  i_error w : error_claimed (shared s) w = true ->
    has_value (waiter_error (shared s) w) = false \/ exists i t, threads s !! i = Some t /\ writes_error w t
}.

Lemma inv_start b : outstanding b = [] -> inv (start b).
Proof.
  intros Hb. split; cbn; unfold in_flight; cbn; rewrite ?Hb; try done.
  - intros w e Hin. by apply not_elem_of_nil in Hin.
Qed.

Lemma engine_inv_thread s i t t' e' :
  inv s -> threads s !! i = Some t -> tstep t (shared s) = Some (t', e') -> inv (System e' (<[i := t']> (threads s))).
Proof.
  intros [I1 I2 I3 I4 I5 I6] Hi Hs.
  assert (forall w, exists d, in_flight false (for_object w) (System e' (<[i := t']> (threads s))) = in_flight false (for_object w) s - d /\
    occurrences w (delivered e').*1 = occurrences w (delivered (shared s)).*1 + d /\
    (d = 0 /\ pending e' w = pending (shared s) w \/ d = 1 /\ pending e' w = u32 (pending (shared s) w - 1)) /\
    issued e' = issued (shared s)) as Hfl.
  { intros w. destruct (tstep_flows w t (shared s) t' e' Hs) as (d & E1 & E2 & E3 & E4). exists d. split; [|done].
    unfold in_flight, counted in *. cbn. rewrite (total_update _ _ _ t) by done. lia. }
  destruct (tstep_errors t (shared s) t' e' Hs (I4 i t Hi)) as (P1 & P2 & P3 & P4).
  split; cbn [shared threads].
  - intros w. destruct (Hfl w) as (d & -> & _ & [ [-> ->] | [-> ->] ] & _); rewrite I1; [by rewrite Z.sub_0_r|].
    unfold u32. by rewrite Zminus_mod_idemp_l.
  - intros w. destruct (Hfl w) as (d & -> & -> & _ & ->). rewrite I2. lia.
  - destruct (tstep_paid t (shared s) t' e') as (d & E1 & E2); [|done|].
    { specialize (I4 i t Hi). by destruct t. }
    assert (in_flight true async_weight (System e' (<[i := t']> (threads s))) + total sleeps (<[i := t']> (threads s)) + wakes e' =
      in_flight true async_weight s + total sleeps (threads s) + wakes (shared s) + d) as ->.
    { unfold in_flight, owed in *. cbn. rewrite !(total_update _ _ _ t) by done. lia. }
    destruct E2 as [ [-> ->] | -> ]; rewrite I3; [by rewrite Z.add_0_r|by rewrite u32_add_l].
  - intros h th Hh. destruct (decide (h = i)) as [->|Hne].
    + rewrite lookup_insert_eq in Hh. by simplify_eq.
    + rewrite lookup_insert_ne in Hh by done. eapply pc_ok_mono; [exact P2|by eapply I4].
  - intros w e Hin. destruct (P3 w e Hin) as [Hin'|]; [|done]. apply P2. by eapply I5.
  - intros w Hw. destruct (P4 w Hw) as [ [[Hc Hn] ->] | [Hwr|] ]; [|right|by left].
    + destruct (I6 w Hc) as [|(h & th & Hh & Hwr)]; [by left|right]. exists h, th. split; [|done].
      rewrite lookup_insert_ne; [done|]. intros ->. rewrite Hi in Hh. by simplify_eq.
    + exists i, t'. by rewrite lookup_insert_eq.
Qed.

(** A new thread that holds no request. *)
Lemma inv_spawn s e' i t :
  inv s -> threads s !! i = None -> (forall late wt, weight late wt t = 0) -> sleeps t = 0 -> pc_ok e' t ->
  backend e' = backend (shared s) -> demand e' = demand (shared s) -> pending e' = pending (shared s) ->
  error_claimed e' = error_claimed (shared s) -> waiter_error e' = waiter_error (shared s) -> issued e' = issued (shared s) ->
  delivered e' = delivered (shared s) -> wakes e' = wakes (shared s) -> inv (System e' (<[i := t]> (threads s))).
Proof.
  intros [I1 I2 I3 I4 I5 I6] Hi Hw Hsl Hok E1 E2 E3 E4 E5 E6 E7 E8.
  assert (forall late wt, in_flight late wt (System e' (<[i := t]> (threads s))) = in_flight late wt s) as Hfl.
  { intros. unfold in_flight. cbn. rewrite E1, total_insert_new, Hw by done. lia. }
  split; cbn [shared threads]; rewrite ?E2, ?E3, ?E4, ?E5, ?E6, ?E7, ?E8, ?Hfl; try done.
  - intros w. rewrite Hfl. apply I1.
  - intros w. rewrite Hfl. apply I2.
  - rewrite total_insert_new, Hsl by done. by rewrite I3.
  - intros h th Hh. destruct (decide (h = i)) as [->|Hne]; [rewrite lookup_insert_eq in Hh; by simplify_eq|].
    rewrite lookup_insert_ne in Hh by done. eapply pc_ok_mono; [|by eapply I4]. by rewrite E4.
  - intros w Hc. destruct (I6 w Hc) as [|(h & th & Hh & ?)]; [by left|right].
    exists h, th. split; [|done]. rewrite lookup_insert_ne; [done|]. congruence.
Qed.

Lemma weigh_constant wt w reqs : Forall (fun r => token r = w) reqs -> weigh wt (token <$> reqs) = wt w * Z.of_nat (length reqs).
Proof.
  induction 1 as [|r reqs Hr _ IH]; unfold weigh in *; cbn [fmap list_fmap foldr length]; [lia|]. rewrite IH, Hr. lia.
Qed.

Lemma inv_submit s i w reqs m :
  inv s -> threads s !! i = None -> Forall (fun r => token r = w) reqs -> object_of w = w ->
  inv (System (note_issued ((fun _ => w) <$> reqs)
         (set_pending (<[w := u32 (pending (shared s) w + Z.of_nat (length reqs))]> (pending (shared s))) (shared s)))
       (<[i := PCall reqs m]> (threads s))).
Proof.
  intros [I1 I2 I3 I4 I5 I6] Hi Hreqs Hw. set (s' := System _ _).
  assert (forall late wt, in_flight late wt s' = in_flight late wt s + wt w * Z.of_nat (length reqs)) as Hfl.
  { intros. unfold in_flight. cbn. rewrite total_insert_new by done. cbn [weight]. rewrite (weigh_constant wt w) by done. lia. }
  assert (async_weight w = 0) as Ha by (unfold async_weight; by rewrite async_object).
  split; cbn [shared threads s' note_issued set_pending pending issued delivered demand error_claimed waiter_error wakes].
  - intros v. rewrite Hfl. assert (for_object v w = b2z (bool_decide (w = v))) as Ev by (unfold for_object; by rewrite Hw).
    destruct (decide (v = w)) as [->|Hne].
    + rewrite fn_lookup_insert, I1, Ev, bool_decide_true by done. rewrite u32_add_l. f_equal. cbn. lia.
    + rewrite fn_lookup_insert_ne, I1, Ev, bool_decide_false by congruence. f_equal. cbn. lia.
  - intros v. rewrite Hfl. unfold occurrences at 1. rewrite weigh_app. fold (occurrences v (issued (shared s))). rewrite I2.
    assert (weigh (fun t => b2z (bool_decide (t = v))) ((fun _ => w) <$> reqs) = for_object v w * Z.of_nat (length reqs)) as ->; [|lia].
    clear -Hw. unfold for_object. rewrite Hw. induction reqs as [|r reqs IH]; unfold weigh in *; cbn [fmap list_fmap foldr length]; [lia|].
    rewrite IH. lia.
  - rewrite Hfl, Ha, total_insert_new by done. cbn [sleeps]. rewrite I3. f_equal. lia.
  - intros h th Hh. destruct (decide (h = i)) as [->|Hne].
    + rewrite lookup_insert_eq in Hh. simplify_eq. cbn. rewrite (weigh_constant _ w) by done. lia.
    + rewrite lookup_insert_ne in Hh by done. eapply pc_ok_mono; [|by eapply I4]. done.
  - done.
  - intros v Hc. destruct (I6 v Hc) as [|(h & th & Hh & ?)]; [by left|right].
    exists h, th. split; [|done]. rewrite lookup_insert_ne; [done|]. congruence.
Qed.

Lemma engine_inv_step s s' : inv s -> engine_step s s' -> inv s'.
Proof.
  intros Hs Hst. destruct Hst.
  - by eapply engine_inv_thread.
  - destruct Hs as [I1 I2 I3 I4 I5 I6]. unfold in_flight in *.
    split; cbn [shared threads set_backend backend] in *; rewrite ?advance_law; try done.
    + intros w. unfold in_flight. cbn. rewrite advance_law. apply I1.
    + intros w. unfold in_flight. cbn. rewrite advance_law. apply I2.
    + unfold in_flight. cbn. by rewrite advance_law.
  - by apply inv_submit.
  - by apply inv_spawn.
  - by apply inv_spawn.
  - by apply inv_spawn.
Qed.

Lemma engine_inv_reachable b s : outstanding b = [] -> reachable b s -> inv s.
Proof.
  intros Hb Hr. pose proof (inv_start b Hb) as Hi. unfold reachable in Hr.
  induction Hr as [|x y z Hst _ IH]; [done|]. apply IH. by eapply engine_inv_step.
Qed.

Lemma kont_weight_nonneg wt k : (forall t, 0 <= wt t) -> 0 <= kont_weight wt k.
Proof. intros Hw. destruct k; cbn; try done. by apply weigh_nonneg. Qed.

Lemma weight_nonneg late wt t : (forall t, 0 <= wt t) -> 0 <= weight late wt t.
Proof.
  intros Hw. destruct t; cbn; try done; try (by apply weigh_nonneg);
    repeat match goal with |- context [weigh wt ?l] => pose proof (weigh_nonneg wt l Hw); generalize dependent (weigh wt l); intros end;
    repeat match goal with |- context [kont_weight wt ?k] => pose proof (kont_weight_nonneg wt k Hw); generalize dependent (kont_weight wt k); intros end;
    repeat match goal with |- context [wt ?k] => pose proof (Hw k); generalize dependent (wt k); intros end; try lia.
  destruct late; lia.
Qed.

Lemma in_flight_nonneg late wt s : (forall t, 0 <= wt t) -> 0 <= in_flight late wt s.
Proof.
  intros Hw. unfold in_flight. pose proof (weigh_nonneg wt (outstanding (backend (shared s))) Hw).
  pose proof (total_nonneg (weight late wt) (threads s) (fun t => weight_nonneg late wt t Hw)). lia.
Qed.

Lemma for_object_nonneg w t : 0 <= for_object w t.
Proof. apply b2z_bound. Qed.

Lemma occurrences_in w l : 0 < occurrences w l -> w ∈ l.
Proof.
  unfold occurrences, weigh. induction l as [|a l IH]; cbn; [lia|]. case_bool_decide as E; [subst; by left|].
  cbn. intros Hl. right. by apply IH.
Qed.

Lemma occurrences_perm l1 l2 : (forall w, occurrences w l1 = occurrences w l2) -> l1 ≡ₚ l2.
Proof.
  revert l2. induction l1 as [|a l1 IH]; intros l2 Hoc.
  - destruct l2 as [|b l2]; [done|]. specialize (Hoc b). unfold occurrences, weigh in Hoc. cbn in Hoc.
    rewrite bool_decide_true in Hoc by done. cbn in Hoc.
    pose proof (weigh_nonneg (fun t => b2z (bool_decide (t = b))) l2 ltac:(intros; apply b2z_bound)). unfold weigh in *. lia.
  - assert (a ∈ l2) as Ha.
    { apply occurrences_in. rewrite <- Hoc. unfold occurrences, weigh. cbn. rewrite bool_decide_true by done. cbn.
      pose proof (weigh_nonneg (fun t => b2z (bool_decide (t = a))) l1 ltac:(intros; apply b2z_bound)). unfold weigh in *. lia. }
    apply list_elem_of_split in Ha as (l3 & l4 & ->). rewrite <- Permutation_middle. f_equiv. apply IH. intros w. specialize (Hoc w).
    unfold occurrences in *. rewrite weigh_app in *. unfold weigh in *. cbn in Hoc. lia.
Qed.

(** C39 — every completion runs exactly once: however the threads interleave, the
    requests handed in for a completion object are at any time those whose
    completion ran plus those still in flight (with a thread or at the backend),
    so none is completed twice and none is lost; and when all threads are done
    and the backend has nothing outstanding, the completions that ran are the
    requests handed in. *)
Theorem io_exactly_once b s :
  outstanding b = [] -> reachable b s ->
  (forall w, occurrences w (issued (shared s)) = occurrences w (delivered (shared s)).*1 + in_flight false (for_object w) s /\
             0 <= in_flight false (for_object w) s) /\
  ((forall i t, threads s !! i = Some t -> exists r, t = PDone r) -> outstanding (backend (shared s)) = [] ->
   issued (shared s) ≡ₚ (delivered (shared s)).*1).
Proof.
  intros Hb Hr. pose proof (engine_inv_reachable b s Hb Hr) as Hi. split.
  - intros w. split; [apply (i_flow s Hi)|]. apply in_flight_nonneg. intros t. apply b2z_bound.
  - intros Hdone Hout. apply occurrences_perm. intros w. rewrite (i_flow s Hi w). unfold in_flight. rewrite Hout.
    rewrite total_zero; [cbn; lia|]. intros i t Ht. by destruct (Hdone i t Ht) as [r ->].
Qed.

(** C40 — [Wait] waits for everything: when a waiter leaves the loop of [Wait], as
    many of its completions ran as requests were handed in for it, and if one of
    them failed the status it is about to return is an error. *)
Theorem io_wait_complete b s i w sl :
  outstanding b = [] -> reachable b s -> threads s !! i = Some (PWait w sl) ->
  tstep (PWait w sl) (shared s) = Some (PWaitEnd w sl, shared s) -> in_flight false (for_object w) s < u32_mod ->
  occurrences w (issued (shared s)) = occurrences w (delivered (shared s)).*1 /\
  (forall e, (w, Err e) ∈ delivered (shared s) -> has_value (waiter_error (shared s) w) = false).
Proof.
  intros Hb Hr Ht Hst Hlt. pose proof (engine_inv_reachable b s Hb Hr) as Hi.
  pose proof (in_flight_nonneg false (for_object w) s (for_object_nonneg w)) as Hnn.
  assert (in_flight false (for_object w) s = 0) as E0.
  { cbn in Hst. destruct (Z.eqb_spec (pending (shared s) w) 0) as [E|]; [|done].
    rewrite (i_pending s Hi), u32_small in E by done. done. }
  split; [rewrite (i_flow s Hi w); lia|]. intros e He. destruct (i_error s Hi w (i_noted s Hi w e He)) as [|(h & t & Hh & Hwr)]; [done|].
  exfalso. assert (1 <= total (weight false (for_object w)) (threads s)) as Hge.
  { destruct t as [| | | | |c cs k| | | | | | | | | | | | | | | | |]; try done.
    pose proof (total_ge _ (threads s) h _ (fun t => weight_nonneg false _ t (for_object_nonneg w)) Hh) as Hx. cbn in Hx, Hwr.
    assert (for_object w c.1 = 1) as E1 by (unfold for_object; by rewrite bool_decide_true).
    pose proof (weigh_nonneg (for_object w) cs.*1 (for_object_nonneg w)).
    pose proof (kont_weight_nonneg (for_object w) k (for_object_nonneg w)). lia. }
  unfold in_flight in E0. pose proof (weigh_nonneg (for_object w) (outstanding (backend (shared s))) (for_object_nonneg w)). lia.
Qed.

(** The reaper sleeps only when nobody depends on it: if it finds no demand
    and goes to sleep, no asynchronous request is in flight and no waiter is
    asleep, so every later completion has a thread that reaps it. *)
Lemma io_reaper_idle b s i :
  outstanding b = [] -> reachable b s -> threads s !! i = Some PRunDemand ->
  tstep PRunDemand (shared s) = Some (PRunSleep, shared s) ->
  in_flight true async_weight s + total sleeps (threads s) + wakes (shared s) < u32_mod -> 0 <= wakes (shared s) ->
  in_flight true async_weight s = 0 /\ forall j t, threads s !! j = Some t -> sleeps t = 0.
Proof.
  intros Hb Hr Ht Hst Hlt Hwk. pose proof (engine_inv_reachable b s Hb Hr) as Hi.
  pose proof (in_flight_nonneg true async_weight s ltac:(intros; apply b2z_bound)) as H1.
  assert (forall t, 0 <= sleeps t) as Hsl.
  { intros t. assert (forall k, 0 <= kont_sleeps k) by (intros []; cbn; try done; apply b2z_bound). destruct t; cbn; auto; try lia; apply b2z_bound. }
  pose proof (total_nonneg sleeps (threads s) Hsl) as H2.
  assert (demand (shared s) = 0) as E by (cbn in Hst; by destruct (Z.eqb_spec (demand (shared s)) 0)).
  rewrite (i_demand s Hi), u32_small in E by (split; lia). split; [lia|]. intros j t Hj.
  pose proof (total_ge sleeps (threads s) j t Hsl Hj). specialize (Hsl t). lia.
Qed.

(** ** Executing a schedule *)

Inductive action :=
  | ActThread (i : nat)
  | ActBackend
  | ActSubmit (i : nat) (w : Z) (ops : list (DiskOperation * BufferTag)) (m : DiskSubmitMode)
  | ActWait (i : nat) (w : Z)
  | ActStart (i : nat)
  | ActShutdown (i : nat) (reason : Status).

Definition requests_for (w : Z) (ops : list (DiskOperation * BufferTag)) : list DiskRequest :=
  (fun o => MkRequest w o.1 o.2 1 [w]) <$> ops.

Definition act (s : system) (a : action) : option system :=
  match a with
  | ActThread i => t ← threads s !! i; '(t', e') ← tstep t (shared s); Some (System e' (<[i := t']> (threads s)))
  | ActBackend => Some (System (set_backend (bk_advance (backend (shared s))) (shared s)) (threads s))
  | ActSubmit i w ops m =>
      let reqs := requests_for w ops in
      if decide (threads s !! i = None) then
        if object_of w =? w then
          Some (System (note_issued ((fun _ => w) <$> reqs)
                 (set_pending (<[w := u32 (pending (shared s) w + Z.of_nat (length reqs))]> (pending (shared s))) (shared s)))
               (<[i := PCall reqs m]> (threads s)))
        else None
      else None
  | ActWait i w => if decide (threads s !! i = None) then Some (System (shared s) (<[i := PWait w false]> (threads s))) else None
  | ActStart i =>
      if decide (threads s !! i = None) then
        if reaper_running (shared s) then None else Some (System (set_reaper true (shared s)) (<[i := PRun]> (threads s)))
      else None
  | ActShutdown i r => if decide (threads s !! i = None) then Some (System (shared s) (<[i := PShutdown r]> (threads s))) else None
  end.

(** An action that is not possible is skipped. *)
Definition execute (l : list action) (s : system) : system := foldl (fun s a => default s (act s a)) s l.

Lemma act_step s a s' : act s a = Some s' -> engine_step s s'.
Proof.
  destruct a as [i| |i w ops m|i w|i|i r]; cbn; intros Ha.
  - destruct (threads s !! i) as [t|] eqn:Et; [|done]. cbn in Ha. destruct (tstep t (shared s)) as [[t' e']|] eqn:Es; [|done].
    cbn in Ha. simplify_eq. by eapply step_thread.
  - simplify_eq. constructor.
  - destruct (decide _); [|done]. destruct (Z.eqb_spec (object_of w) w); [|done]. simplify_eq. apply step_submit; try done.
    unfold requests_for. apply Forall_fmap, list.Forall_forall. done.
  - destruct (decide _); [|done]. simplify_eq. by constructor.
  - destruct (decide _); [|done]. destruct (reaper_running (shared s)) eqn:E; [done|]. simplify_eq. by constructor.
  - destruct (decide _); [|done]. simplify_eq. by constructor.
Qed.

Lemma execute_reachable l b : reachable b (execute l (start b)).
Proof.
  unfold reachable, execute. generalize (start b). induction l as [|a l IH]; intros s; cbn; [constructor|].
  destruct (act s a) as [s1|] eqn:E; cbn; [|apply IH]. eapply rtc_l; [by eapply act_step|apply IH].
Qed.

Definition all_done (s : system) : bool :=
  forallb (fun it => match it.2 with PDone _ => true | _ => false end) (map_to_list (threads s)).

Lemma all_done_spec s : all_done s = true -> forall i t, threads s !! i = Some t -> exists r, t = PDone r.
Proof.
  intros Ha i t Hi. unfold all_done in Ha. rewrite forallb_forall in Ha.
  specialize (Ha (i, t)). rewrite <- list_elem_of_In, elem_of_map_to_list in Ha. specialize (Ha Hi). cbn in Ha.
  destruct t; try done. by eexists.
Qed.
End Engine.

(** ** A backend with a bounded queue *)

(** Requests complete in order; those whose token [bad] marks fail. *)
Record fifo := Fifo { depth : nat; accepted : list Z; bad : Z -> bool; shut : bool }.

#[export] Instance fifo_backend : DiskBackend fifo := {
  bk_submit reqs m b :=
    if shut b then (Unavailable "disk backend shut down" 0, b)
    else let n := Nat.min (length reqs) (depth b - length (accepted b)) in
         (Ok n, Fifo (depth b) (accepted b ++ (token <$> take n reqs)) (bad b) (shut b));
  bk_reap n wait b :=
    match accepted b with
    | [] => if wait then if shut b then Some (Unavailable "disk backend shut down" 0, b) else None else Some (Ok [], b)
    | _ => Some (Ok ((fun t => (t, if bad b t then IoError "request failed" 5 else Ok tt)) <$> take n (accepted b)),
                 Fifo (depth b) (drop n (accepted b)) (bad b) (shut b))
    end;
  bk_shutdown b := Fifo (depth b) (accepted b) (bad b) true;
  bk_advance b := b
}.

#[export] Program Instance fifo_laws : DiskBackendLaws fifo := { outstanding := accepted }.
Next Obligation.
  intros reqs m b. cbn. destruct (shut b); [done|]. split; [lia|]. cbn. apply Permutation_app_comm.
Qed.
Next Obligation.
  intros n wait b. cbn. destruct (accepted b) as [|t l] eqn:E.
  - destruct wait, (shut b); cbn; rewrite ?E; try done; (split; [lia|done]).
  - split; [rewrite length_fmap, length_take; lia|]. rewrite <- list_fmap_compose, list_fmap_id. cbn. by rewrite take_drop.
Qed.
Next Obligation. done. Qed.
Next Obligation. done. Qed.

(** Three requests of a waiter at 64, which fail, next to an asynchronous one for
    an object at 128 that the reaper delivers; then the engine shuts down. *)
Definition demo_backend : fifo := Fifo 8 [] (fun t => t =? 64) false.

Definition demo_ops (n : nat) : list (DiskOperation * BufferTag) := repeat (kRead, no_page) n.

Definition demo_asleep : list action :=
  [ActSubmit 1 64 (demo_ops 3) kWait] ++ repeat (ActThread 1) 6 ++ [ActStart 0; ActThread 0].

Definition demo_waiting : list action :=
  demo_asleep ++ repeat (ActThread 0) 2 ++ [ActSubmit 2 128 (demo_ops 1) kAsync] ++ repeat (ActThread 2) 6 ++
  [ActWait 3 64] ++ repeat (ActThread 3) 13.

Definition demo_final : list action :=
  demo_waiting ++ repeat (ActThread 3) 12 ++ [ActShutdown 4 (Unavailable "closed" 0)] ++ repeat (ActThread 4) 5 ++
  repeat (ActThread 0) 12 ++ repeat (ActThread 4) 5.

Lemma io_exactly_once_witness :
  [64; 64; 64; 128] ≡ₚ (delivered (shared (execute demo_final (start demo_backend)))).*1.
Proof.
  destruct (io_exactly_once demo_backend (execute demo_final (start demo_backend))) as [_ Hp];
    [reflexivity|apply execute_reachable|].
  assert (issued (shared (execute demo_final (start demo_backend))) = [64; 64; 64; 128]) as E by (vm_compute; reflexivity).
  rewrite E in Hp. apply Hp; [apply all_done_spec|]; vm_compute; reflexivity.
Defined.

Lemma io_wait_complete_witness :
  has_value (waiter_error (shared (execute demo_waiting (start demo_backend))) 64) = false.
Proof.
  set (s := execute demo_waiting (start demo_backend)).
  destruct (io_wait_complete demo_backend s 3 64 false) as [_ He];
    [reflexivity|apply execute_reachable|vm_compute; reflexivity|vm_compute; reflexivity|vm_compute; reflexivity|].
  apply (He (MkError kIoError "request failed" 5)). apply list_elem_of_In. vm_compute. left. reflexivity.
Defined.

Lemma io_reaper_idle_witness : in_flight true async_weight (execute demo_asleep (start demo_backend)) = 0.
Proof.
  set (s := execute demo_asleep (start demo_backend)).
  destruct (io_reaper_idle demo_backend s 0) as [E _];
    [reflexivity|apply execute_reachable|vm_compute; reflexivity|vm_compute; reflexivity|vm_compute; reflexivity|vm_compute; congruence|].
  exact E.
Defined.
