(* ===== verification/FdCache.v ===== *)
(** The operating system and the cache of open descriptors:
    [lib/io/file_descriptor_cache.{h,cc}].

    The system is the parameter [Posix], system calls on a state [S]; [PosixLaws]
    says what they are documented to do: reads and writes may be short or
    interrupted, a read returns nothing only at the end of the file.  The theorem:
    a descriptor stays open on its file while it is acquired. *)
From Stdlib Require Import Strings.Byte.
From stdpp Require Import strings pretty.
From S2P Require Import Prelude Status.

(** ** The operating system *)

Definition EINTR : Z := 4.
Definition EIO : Z := 5.

(** A call returns its result or an [errno]. *)
Class Posix (S : Type) := {
  sys_open : string -> S -> (Z + Z) * S;
  sys_close : Z -> S -> S;
  sys_preadv : Z -> Z -> Z -> S -> (list byte + Z) * S;
  sys_pwritev : Z -> Z -> list byte -> S -> (Z + Z) * S;
  sys_fdatasync : Z -> S -> (unit + Z) * S;
  sys_fstat : Z -> S -> (Z + Z) * S;
  sys_ftruncate : Z -> Z -> S -> (unit + Z) * S;
  (** How many more calls a signal will interrupt. *)
  signals : S -> nat
}.

(** [fbyte s path pos] is byte [pos] of the file, zero past its end; [fd_path]
    are the open descriptors. *)
Class PosixLaws (S : Type) `{Posix S} := {
  fbyte : S -> string -> Z -> byte;
  fd_path : S -> Z -> option string;
  open_law path s :
    let '(r, s') := sys_open path s in
    fbyte s' = fbyte s /\
    match r with
    | inl fd => fd_path s fd = None /\ forall g, fd_path s' g = if decide (g = fd) then Some path else fd_path s g
    | inr _ => fd_path s' = fd_path s
    end;
  close_law fd s :
    fbyte (sys_close fd s) = fbyte s /\ forall g, g <> fd -> fd_path (sys_close fd s) g = fd_path s g;
  preadv_law fd offset n s path : fd_path s fd = Some path ->
    let '(r, s') := sys_preadv fd offset n s in
    fbyte s' = fbyte s /\ fd_path s' = fd_path s /\
    match r with
    | inl bytes => (signals s' <= signals s)%nat /\ 0 <= offset /\ Z.of_nat (length bytes) <= n /\
        bytes = fbyte s path <$> seqZ offset (Z.of_nat (length bytes)) /\
        (bytes = [] -> 0 < n -> forall pos, offset <= pos -> fbyte s path pos = x00)
    | inr e => e = EINTR -> (signals s' < signals s)%nat
    end;
  pwritev_law fd offset d s path : fd_path s fd = Some path ->
    let '(r, s') := sys_pwritev fd offset d s in
    fd_path s' = fd_path s /\ (forall other, other <> path -> fbyte s' other = fbyte s other) /\
    match r with
    | inl n => (signals s' <= signals s)%nat /\ 0 <= offset /\ 0 <= n <= Z.of_nat (length d) /\
        forall pos, fbyte s' path pos =
          if decide (offset <= pos < offset + n) then nth (Z.to_nat (pos - offset)) d x00 else fbyte s path pos
    | inr e => (e = EINTR -> (signals s' < signals s)%nat /\ fbyte s' path = fbyte s path) /\
        forall pos, ~ (0 <= offset <= pos /\ pos < offset + Z.of_nat (length d)) -> fbyte s' path pos = fbyte s path pos
    end;
  fdatasync_law fd s : fbyte (sys_fdatasync fd s).2 = fbyte s /\ fd_path (sys_fdatasync fd s).2 = fd_path s;
  fstat_law fd s path : fd_path s fd = Some path ->
    let '(r, s') := sys_fstat fd s in
    fbyte s' = fbyte s /\ fd_path s' = fd_path s /\
    forall n, r = inl n -> is_u64 n /\ forall pos, n <= pos -> fbyte s path pos = x00;
  ftruncate_law fd n s path : fd_path s fd = Some path ->
    let '(r, s') := sys_ftruncate fd n s in
    fd_path s' = fd_path s /\
    match r with
    | inl _ => 0 <= n /\ (forall other, other <> path -> fbyte s' other = fbyte s other) /\
        forall pos, 0 <= pos -> fbyte s' path pos = if decide (pos < n) then fbyte s path pos else x00
    | inr _ => fbyte s' = fbyte s
    end
}.

(** ** Descriptors *)

Record fd_entry := Entry { entry_fd : Z; last_used : Z; pins : Z }.

Record fd_cache := FdCache {
  root_path : string;
  max_open_files : Z;
  fd_clock : Z;
  fd_entries : gmap Z fd_entry
}.

Definition MakeFdCache (root : string) (max_open : Z) : fd_cache :=
  FdCache root (if max_open =? 0 then 64 else max_open) 0 ∅.

Definition file_path (root : string) (file : Z) : string := root +:+ ("/file_" +:+ (pretty file +:+ ".tp")).

Definition set_entries (m : gmap Z fd_entry) (c : fd_cache) : fd_cache :=
  FdCache (root_path c) (max_open_files c) (fd_clock c) m.
(** [++clock_]: the cache with the new time. *)
Definition tick (c : fd_cache) : fd_cache :=
  FdCache (root_path c) (max_open_files c) (u64 (fd_clock c + 1)) (fd_entries c).

(** One step of the search for the least recently used descriptor nobody pins. *)
Definition older_idle (victim : option (Z * fd_entry)) (it : Z * fd_entry) : option (Z * fd_entry) :=
  if negb (pins it.2 =? 0) then victim
  else match victim with
       | None => Some it
       | Some v => if last_used it.2 <? last_used v.2 then Some it else Some v
       end.

Section Fd.
Context {S : Type} `{Posix S}.

Fixpoint evict_loop (fuel : nat) (target : Z) (c : fd_cache) (s : S) : fd_cache * S :=
  match fuel with
  | O => (c, s)
  | Datatypes.S fuel =>
      if Z.of_nat (base.size (fd_entries c)) <=? target then (c, s)
      else
        match foldl older_idle None (map_to_list (fd_entries c)) with
        | None => (c, s)
        | Some (file, e) =>
            evict_loop fuel target (set_entries (delete file (fd_entries c)) c) (if 0 <=? entry_fd e then sys_close (entry_fd e) s else s)
        end
  end.

Definition EvictIdleLocked (target : Z) (c : fd_cache) (s : S) : fd_cache * S :=
  evict_loop (Datatypes.S (base.size (fd_entries c))) target c s.

Definition Acquire (file : Z) (c : fd_cache) (s : S) : Result Z * fd_cache * S :=
  match fd_entries c !! file with
  | Some e =>
      let c := tick c in
      (Ok (entry_fd e), set_entries (<[file := Entry (entry_fd e) (fd_clock c) (pins e + 1)]> (fd_entries c)) c, s)
  | None =>
      let '(c, s) := EvictIdleLocked (max_open_files c - 1) c s in
      let '(r, s) := sys_open (file_path (root_path c) file) s in
      match r with
      | inr e => (IoError "open failed" e, c, s)
      | inl fd =>
          let c := tick c in
          (Ok fd, set_entries (<[file := Entry fd (fd_clock c) 1]> (fd_entries c)) c, s)
      end
  end.

Definition Release (file : Z) (c : fd_cache) (s : S) : fd_cache * S :=
  match fd_entries c !! file with
  | None => (c, s)
  | Some e =>
      let c := tick c in
      let pins := if 0 <? pins e then pins e - 1 else pins e in
      EvictIdleLocked (max_open_files c) (set_entries (<[file := Entry (entry_fd e) (fd_clock c) pins]> (fd_entries c)) c) s
  end.

Definition CloseIdle (c : fd_cache) (s : S) : fd_cache * S := EvictIdleLocked 0 c s.

(** The destructor closes every descriptor. *)
Definition CloseAll (c : fd_cache) (s : S) : S :=
  foldl (fun s (it : Z * fd_entry) => if 0 <=? entry_fd it.2 then sys_close (entry_fd it.2) s else s) s (map_to_list (fd_entries c)).

Definition FdFileSize (file : Z) (c : fd_cache) (s : S) : Result Z * fd_cache * S :=
  let '(fd, c, s) := Acquire file c s in
  match fd with
  | Err e => (Err e, c, s)
  | Ok fd =>
      let '(r, s) := sys_fstat fd s in
      let '(c, s) := Release file c s in
      (match r with inr e => IoError "fstat failed" e | inl n => Ok n end, c, s)
  end.

(** A 64-bit unsigned number converted to [off_t]. *)
Definition to_off (x : Z) : Z := if x <? 2 ^ 63 then x else x - u64_mod.

Definition FdSetFileSize (file n : Z) (c : fd_cache) (s : S) : Status * fd_cache * S :=
  let '(fd, c, s) := Acquire file c s in
  match fd with
  | Err e => (Err e, c, s)
  | Ok fd =>
      let '(r, s) := sys_ftruncate fd (to_off n) s in
      let '(c, s) := Release file c s in
      (match r with inr e => IoError "ftruncate failed" e | inl _ => Ok tt end, c, s)
  end.
End Fd.

(** ** The descriptors stay open *)

Lemma string_app_inv_l (a b c : string) : a +:+ b = a +:+ c -> b = c.
Proof. induction a as [|x a IH]; cbn; [done|]. intros [= E]. by apply IH. Qed.

Lemma length_string_app (a b : string) : String.length (a +:+ b) = (String.length a + String.length b)%nat.
Proof. induction a as [|x a IH]; [done|]. change (Datatypes.S (String.length (a +:+ b)) = Datatypes.S (String.length a + String.length b)). lia. Qed.

Lemma string_app_inv_r (a b c : string) : a +:+ c = b +:+ c -> a = b.
Proof.
  intros E. assert (String.length a = String.length b) as El.
  { apply (f_equal String.length) in E. rewrite !length_string_app in E. lia. }
  revert b E El. induction a as [|x a IH]; intros [|y b] E El; cbn in *; try done. injection E as -> E. f_equal. apply IH; [done|lia].
Qed.

Lemma file_path_inj root f g : file_path root f = file_path root g -> f = g.
Proof. unfold file_path. intros E. by apply string_app_inv_l, string_app_inv_l, string_app_inv_r, (inj pretty) in E. Qed.

(** What the search returns. *)
Lemma older_idle_spec l best :
  (forall b, best = Some b -> pins b.2 = 0) ->
  match foldl older_idle best l with
  | Some v => pins v.2 = 0 /\ (v ∈ l \/ best = Some v) /\
      (forall e, e ∈ l \/ best = Some e -> pins e.2 = 0 -> last_used v.2 <= last_used e.2)
  | None => best = None /\ forall e, e ∈ l -> pins e.2 <> 0
  end.
Proof.
  revert best. induction l as [|x l IH]; intros best Hb; cbn [foldl].
  { destruct best as [b|]; [|by split; [|intros e ?%not_elem_of_nil]]. split; [by apply Hb|]. split; [by right|].
    intros e [?%not_elem_of_nil|[= ->]] _; [done|lia]. }
  assert (forall b, older_idle best x = Some b -> pins b.2 = 0) as Hb'.
  { unfold older_idle. destruct (Z.eqb_spec (pins x.2) 0) as [E|E]; cbn [negb]; [|done].
    destruct best as [v|]; [destruct (_ <? _)|]; intros b [= <-]; try done. by apply Hb. }
  specialize (IH _ Hb'). destruct (foldl older_idle _ l) as [v|].
  - destruct IH as (Hp & Hin & Hmin). split; [done|]. unfold older_idle in *.
    destruct (Z.eqb_spec (pins x.2) 0) as [E|E]; cbn [negb] in *.
    + destruct best as [w|]; [destruct (Z.ltb_spec (last_used x.2) (last_used w.2))|].
      * split; [destruct Hin as [?|[= ->]]; left; [by right|by left]|]. intros e [[->|He]%elem_of_cons|[= ->]] Hpe; [apply Hmin; [by right|done]|apply Hmin; [by left|done]|].
        etrans; [apply (Hmin x); [by right|done]|lia].
      * split; [destruct Hin as [?|[= ->]]; [left; by right|by right]|]. intros e [[->|He]%elem_of_cons|[= ->]] Hpe; [|apply Hmin; [by left|done]|apply Hmin; [by right|done]].
        etrans; [apply (Hmin w); [by right|by apply Hb]|lia].
      * split; [destruct Hin as [?|[= ->]]; left; [by right|by left]|]. intros e [[->|He]%elem_of_cons|?] Hpe; [apply Hmin; [by right|done]|apply Hmin; [by left|done]|done].
    + split; [destruct Hin as [?|?]; [left; by right|by right]|]. intros e [[->|He]%elem_of_cons|?] Hpe; [done|apply Hmin; [by left|done]|apply Hmin; [by right|done]].
  - destruct IH as [E Hall]. unfold older_idle in E. destruct (Z.eqb_spec (pins x.2) 0) as [Ex|Ex]; cbn [negb] in E.
    + destruct best; [by destruct (_ <? _)|done].
    + split; [done|]. intros e [->|He]%elem_of_cons; [done|by apply Hall].
Qed.

Section FdSafe.
Context {S : Type} `{PosixLaws S}.

(** Every cached descriptor is open on its file. *)
Definition fds_ok (c : fd_cache) (s : S) : Prop :=
  forall file e, fd_entries c !! file = Some e -> fd_path s (entry_fd e) = Some (file_path (root_path c) file).

(** The cache is within its bound, or everything in it is pinned. *)
Definition within (n : Z) (c : fd_cache) : Prop :=
  Z.of_nat (base.size (fd_entries c)) <= n \/ forall file e, fd_entries c !! file = Some e -> pins e <> 0.

(** What closing idle descriptors keeps. *)
Record evicted (target : Z) (c : fd_cache) (s : S) (c' : fd_cache) (s' : S) : Prop := {
  ev_ok : fds_ok c' s';
  ev_bytes : fbyte s' = fbyte s;
  ev_root : root_path c' = root_path c;
  ev_max : max_open_files c' = max_open_files c;
  ev_sub file e : fd_entries c' !! file = Some e -> fd_entries c !! file = Some e;
  ev_pinned file e : fd_entries c !! file = Some e -> pins e <> 0 -> fd_entries c' !! file = Some e;
  ev_within : within target c'
}.

Lemma evict_loop_spec fuel target c s :
  fds_ok c s -> (base.size (fd_entries c) < fuel)%nat ->
  let '(c', s') := evict_loop fuel target c s in evicted target c s c' s'.
Proof.
  revert c s. induction fuel as [|fuel IH]; intros c s Hok Hf; [lia|]. cbn [evict_loop].
  destruct (Z.leb_spec (Z.of_nat (base.size (fd_entries c))) target); [by split; try done; left|].
  pose proof (older_idle_spec (map_to_list (fd_entries c)) None ltac:(done)) as Hp.
  destruct (foldl older_idle None _) as [[file e]|].
  2: { split; try done. right. intros file e He. apply (proj2 Hp (file, e)). by apply elem_of_map_to_list. }
  destruct Hp as (Hp0 & [Hin|?] & _); [|done]. apply elem_of_map_to_list in Hin. cbn in Hp0.
  set (c1 := set_entries _ c). set (s1 := if 0 <=? entry_fd e then _ else s).
  assert (fds_ok c1 s1 /\ fbyte s1 = fbyte s) as [Hok1 Eb].
  { unfold s1. destruct (0 <=? entry_fd e).
    - destruct (close_law (entry_fd e) s) as [Eb Hg]. split; [|done]. intros g d Hd. change (delete file (fd_entries c) !! g = Some d) in Hd. apply lookup_delete_Some in Hd as [Hne Hd]. cbn.
      rewrite Hg; [by apply Hok|]. intros E. apply Hne. pose proof (Hok g d Hd) as E1. pose proof (Hok file e Hin) as E2.
      rewrite E in E1. rewrite E1 in E2. injection E2 as E2. symmetry. by apply file_path_inj in E2.
    - split; [|done]. intros g d Hd. change (delete file (fd_entries c) !! g = Some d) in Hd. apply lookup_delete_Some in Hd as [_ Hd]. by apply Hok. }
  assert (base.size (fd_entries c1) < fuel)%nat as Hf1.
  { cbn. rewrite map_size_delete_Some by done. assert (base.size (fd_entries c) <> 0%nat) by (rewrite map_size_non_empty_iff; intros E; by rewrite E, lookup_empty in Hin). lia. }
  specialize (IH c1 s1 Hok1 Hf1). destruct (evict_loop fuel target c1 s1) as [c' s']. destruct IH as [J1 J2 J3 J4 J5 J6 J7].
  split; try done; [congruence|..].
  - intros g d Hd. apply J5 in Hd. change (delete file (fd_entries c) !! g = Some d) in Hd. by apply lookup_delete_Some in Hd as [_ ?].
  - intros g d Hd Hpd. apply J6; [|done]. change (delete file (fd_entries c) !! g = Some d). apply lookup_delete_Some. split; [|done]. intros <-. congruence.
Qed.

Lemma evict_spec target c s :
  fds_ok c s -> let '(c', s') := EvictIdleLocked target c s in evicted target c s c' s'.
Proof. intros Hok. apply evict_loop_spec; [done|lia]. Qed.

(** *** Acquiring and releasing *)

Record acquired (file : Z) (c : fd_cache) (s : S) (r : Result Z) (c' : fd_cache) (s' : S) : Prop := {
  ac_ok : fds_ok c' s';
  ac_bytes : fbyte s' = fbyte s;
  ac_root : root_path c' = root_path c;
  ac_max : max_open_files c' = max_open_files c;
  ac_fd fd : r = Ok fd -> fd_path s' fd = Some (file_path (root_path c) file) /\
    exists e, fd_entries c' !! file = Some e /\ entry_fd e = fd /\
      pins e = match fd_entries c !! file with Some e0 => pins e0 + 1 | None => 1 end;
  ac_err : has_value r = false -> fd_entries c !! file = None /\ fd_entries c' !! file = None;
  ac_sub g e : g <> file -> fd_entries c' !! g = Some e -> fd_entries c !! g = Some e;
  ac_pinned g e : g <> file -> fd_entries c !! g = Some e -> pins e <> 0 -> fd_entries c' !! g = Some e
}.

Lemma acquire_spec file c s :
  fds_ok c s -> let '(r, c', s') := Acquire file c s in acquired file c s r c' s'.
Proof.
  intros Hok. unfold Acquire. destruct (fd_entries c !! file) as [e|] eqn:Ee.
  - assert (fds_ok (set_entries (<[file := Entry (entry_fd e) (fd_clock (tick c)) (pins e + 1)]> (fd_entries c)) (tick c)) s) as Hok'.
    { intros g d Hd. cbn in Hd. apply lookup_insert_Some in Hd as [[<- <-]|[_ Hd]]; cbn; [by apply Hok|by apply Hok]. }
    split; try done; cbn.
    + intros fd [= <-]. split; [by apply Hok|]. rewrite lookup_insert_eq, Ee. by eexists.
    + intros g d Hg. by rewrite lookup_insert_ne.
    + intros g d Hg Hd _. by rewrite lookup_insert_ne.
  - pose proof (evict_spec (max_open_files c - 1) c s Hok) as Hev. destruct (EvictIdleLocked _ c s) as [c1 s1].
    destruct Hev as [J1 J2 J3 J4 J5 J6 J7]. pose proof (open_law (file_path (root_path c1) file) s1) as Ho.
    destruct (sys_open _ s1) as [r s2]. destruct Ho as [Eb Ho]. destruct r as [fd|e].
    + destruct Ho as [Hnew Ho].
      assert (fds_ok (set_entries (<[file := Entry fd (fd_clock (tick c1)) 1]> (fd_entries (tick c1))) (tick c1)) s2) as Hok'.
      { intros g d Hd. cbn in Hd. rewrite Ho. apply lookup_insert_Some in Hd as [[<- <-]|[_ Hd]]; cbn; [by rewrite decide_True|].
        rewrite decide_False; [by apply J1|]. intros E. pose proof (J1 g d Hd) as Eg. rewrite E in Eg. congruence. }
      split; try done; cbn; [congruence|..].
      * intros fd' [= <-]. split; [rewrite Ho, decide_True by done; by rewrite J3|]. rewrite lookup_insert_eq, Ee. by eexists.
      * intros g d Hg. rewrite lookup_insert_ne by done. apply J5.
      * intros g d Hg. rewrite lookup_insert_ne by done. apply J6.
    + split; try done; cbn.
      * intros g d Hd. rewrite Ho. by apply J1.
      * congruence.
      * intros _. split; [done|]. destruct (fd_entries c1 !! file) as [d|] eqn:Ed; [|done]. apply J5 in Ed. congruence.
      * intros g d _. apply J5.
      * intros g d _. apply J6.
Qed.

Lemma acquire_within file c s :
  fds_ok c s -> 1 <= max_open_files c -> within (max_open_files c) c -> (forall g e, fd_entries c !! g = Some e -> 0 <= pins e) ->
  let '(r, c', s') := Acquire file c s in within (max_open_files c) c'.
Proof.
  intros Hok Hm Hw Hp. unfold Acquire. destruct (fd_entries c !! file) as [e|] eqn:Ee.
  - destruct Hw as [Hw|Hw]; [left|right].
    + change (Z.of_nat (base.size (<[file := Entry (entry_fd e) (fd_clock (tick c)) (pins e + 1)]> (fd_entries c))) <= max_open_files c).
      by rewrite map_size_insert_Some.
    + intros g d Hd. change (<[file := Entry (entry_fd e) (fd_clock (tick c)) (pins e + 1)]> (fd_entries c) !! g = Some d) in Hd.
      apply lookup_insert_Some in Hd as [[<- <-]|[_ Hd]]; cbn; [specialize (Hp file e Ee); lia|by eapply Hw].
  - pose proof (evict_spec (max_open_files c - 1) c s Hok) as Hev. destruct (EvictIdleLocked _ c s) as [c1 s1].
    destruct Hev as [J1 J2 J3 J4 J5 J6 J7].
    assert (fd_entries c1 !! file = None) as En by (destruct (fd_entries c1 !! file) eqn:Ed; [apply J5 in Ed; congruence|done]).
    destruct (sys_open _ s1) as [[fd|e] s2]; destruct J7 as [J7|J7]; try (left; lia); try by right.
    + left. change (Z.of_nat (base.size (<[file := Entry fd (fd_clock (tick c1)) 1]> (fd_entries c1))) <= max_open_files c).
      rewrite map_size_insert_None by done. lia.
    + right. intros g d Hd. change (<[file := Entry fd (fd_clock (tick c1)) 1]> (fd_entries c1) !! g = Some d) in Hd.
      apply lookup_insert_Some in Hd as [[<- <-]|[_ Hd]]; [done|by eapply J7].
Qed.

Lemma release_spec file c s :
  fds_ok c s ->
  let '(c', s') := Release file c s in
  match fd_entries c !! file with
  | None => c' = c /\ s' = s
  | Some e =>
      let e' := Entry (entry_fd e) (fd_clock (tick c)) (if 0 <? pins e then pins e - 1 else pins e) in
      evicted (max_open_files c) (set_entries (<[file := e']> (fd_entries c)) (tick c)) s c' s'
  end.
Proof.
  intros Hok. unfold Release. destruct (fd_entries c !! file) as [e|] eqn:Ee; [|done].
  apply evict_spec. intros g d Hd. change (root_path _) with (root_path c).
  match type of Hd with fd_entries (set_entries ?m _) !! _ = _ => change (m !! g = Some d) in Hd end.
  apply lookup_insert_Some in Hd as [[<- <-]|[_ Hd]]; cbn; by apply Hok.
Qed.

(** *** Any sequence of calls *)

Inductive fd_op := OpAcquire (file : Z) | OpRelease (file : Z) | OpCloseIdle.

(** The cache, the system and how often each file is acquired and not released. *)
Definition fd_step (op : fd_op) (x : fd_cache * S * (Z -> Z)) : fd_cache * S * (Z -> Z) :=
  let '(c, s, held) := x in
  match op with
  | OpAcquire file => let '(r, c', s') := Acquire file c s in (c', s', if has_value r then <[file := held file + 1]> held else held)
  | OpRelease file => let '(c', s') := Release file c s in (c', s', <[file := held file - 1]> held)
  | OpCloseIdle => let '(c', s') := CloseIdle c s in (c', s', held)
  end.

(** Releases match acquisitions. *)
Fixpoint fd_allowed (ops : list fd_op) (x : fd_cache * S * (Z -> Z)) : Prop :=
  match ops with
  | [] => True
  | op :: ops => match op with OpRelease file => 0 < x.2 file | _ => True end /\ fd_allowed ops (fd_step op x)
  end.

Record fd_inv (root : string) (m : Z) (x : fd_cache * S * (Z -> Z)) : Prop := {
  fi_ok : fds_ok x.1.1 x.1.2;
  fi_held file : 0 <= x.2 file;
  fi_pins file e : fd_entries x.1.1 !! file = Some e -> pins e = x.2 file;
  fi_kept file : x.2 file <> 0 -> is_Some (fd_entries x.1.1 !! file);
  fi_max : 1 <= max_open_files x.1.1;
  fi_within : within (max_open_files x.1.1) x.1.1;
  fi_root : root_path x.1.1 = root;
  fi_bound : max_open_files x.1.1 = m
}.

Lemma fd_inv_evicted root m target c s held c' s' :
  fd_inv root m (c, s, held) -> evicted target c s c' s' -> within (max_open_files c) c' -> fd_inv root m (c', s', held).
Proof.
  intros [J1 J2 J3 J4 J5 J6 J7 J8] [V1 V2 V3 V4 V5 V6 V7] Hw. cbn in *. split; cbn; try done; try congruence; try (by rewrite V4).
  - intros file e He. by apply J3, V5.
  - intros file Hh. destruct (J4 file Hh) as [e He]. exists e. apply V6; [done|]. by rewrite (J3 file e He).
Qed.

Lemma within_mono n m c : n <= m -> within n c -> within m c.
Proof. intros Hnm [?|?]; [left; lia|by right]. Qed.

Lemma fd_step_inv root m op x :
  fd_inv root m x -> match op with OpRelease file => 0 < x.2 file | _ => True end -> fd_inv root m (fd_step op x).
Proof.
  destruct x as [[c s] held]. intros HI Hop. pose proof HI as [J1 J2 J3 J4 J5 J6 J7 J8]. cbn [fst snd] in *. destruct op as [file|file|]; cbn [fd_step].
  - pose proof (acquire_spec file c s J1) as Ha. pose proof (acquire_within file c s J1 J5 J6) as Hw.
    destruct (Acquire file c s) as [[r c'] s']. destruct Ha as [A1 A2 A3 A4 A5 A6 A7 A8].
    assert (within (max_open_files c) c') as Hw' by (apply Hw; intros g e He; rewrite (J3 g e He); apply J2).
    assert (forall g, g <> file -> held g <> 0 -> is_Some (fd_entries c' !! g)) as Hk.
    { intros g Hg Hh. destruct (J4 g Hh) as [e He]. exists e. apply A8; [done|done|]. by rewrite (J3 g e He). }
    destruct r as [fd|e]; cbn [has_value].
    + destruct (A5 fd eq_refl) as (_ & e & He & _ & Hp).
      assert (pins e = held file + 1) as Ep.
      { rewrite Hp. destruct (fd_entries c !! file) as [e0|] eqn:E0; [by rewrite (J3 file e0 E0)|].
        destruct (decide (held file = 0)) as [->|Hn]; [done|]. destruct (J4 file Hn). congruence. }
      split; cbn; try done; try congruence; try (by rewrite A4).
      * intros g. destruct (decide (g = file)) as [->|Hne]; [rewrite fn_lookup_insert; specialize (J2 file); lia|by rewrite fn_lookup_insert_ne].
      * intros g d Hd. destruct (decide (g = file)) as [->|Hne]; [rewrite fn_lookup_insert; congruence|].
        rewrite fn_lookup_insert_ne by done. by apply J3, A7.
      * intros g. destruct (decide (g = file)) as [->|Hne]; [by eexists|]. rewrite fn_lookup_insert_ne by done. by apply Hk.
    + destruct (A6 eq_refl) as [E1 E2]. split; cbn; try done; try congruence; try (by rewrite A4).
      * intros g d Hd. destruct (decide (g = file)) as [->|Hne]; [congruence|]. by apply J3, A7.
      * intros g Hh. destruct (decide (g = file)) as [->|Hne]; [|by apply Hk]. destruct (J4 file Hh). congruence.
  - pose proof (release_spec file c s J1) as Hr. destruct (Release file c s) as [c' s'].
    destruct (J4 file ltac:(lia)) as [e He]. rewrite He in Hr. cbn zeta in Hr. set (e' := Entry _ _ _) in Hr. set (c1 := set_entries _ _) in Hr.
    assert (fds_ok c1 s) as Hok1.
    { intros g d Hd. change (<[file := e']> (fd_entries c) !! g = Some d) in Hd. change (root_path c1) with (root_path c).
      apply lookup_insert_Some in Hd as [[<- <-]|[_ Hd]]; cbn; by apply J1. }
    assert (fd_inv root m (c', s', <[file := held file - 1]> held)) as Hfin; [|done].
    destruct Hr as [V1 V2 V3 V4 V5 V6 V7]. change (max_open_files c1) with (max_open_files c) in *. change (root_path c1) with (root_path c) in *.
    assert (pins e' = held file - 1) as Ep.
    { cbn. rewrite (J3 file e He). destruct (Z.ltb_spec 0 (held file)); [done|lia]. }
    assert (forall g d, <[file := e']> (fd_entries c) !! g = Some d -> pins d = (<[file := held file - 1]> held : Z -> Z) g) as Hp.
    { intros g d Hd. apply lookup_insert_Some in Hd as [[<- <-]|[Hne Hd]]; [by rewrite fn_lookup_insert|].
      rewrite fn_lookup_insert_ne by done. by apply J3. }
    split; cbn; try done; try congruence; try (by rewrite V4).
    + intros g. destruct (decide (g = file)) as [->|Hne]; [rewrite fn_lookup_insert; lia|by rewrite fn_lookup_insert_ne].
    + intros g d Hd. by apply Hp, V5.
    + intros g Hh. assert (is_Some (<[file := e']> (fd_entries c) !! g)) as [d Hd].
      { destruct (decide (g = file)) as [->|Hne]; [rewrite lookup_insert_eq; by eexists|]. rewrite lookup_insert_ne by done. apply J4.
        by rewrite fn_lookup_insert_ne in Hh. }
      exists d. apply V6; [done|]. by rewrite (Hp g d Hd).
  - pose proof (evict_spec 0 c s J1) as Hev. unfold CloseIdle. destruct (EvictIdleLocked 0 c s) as [c' s'].
    eapply fd_inv_evicted; [done|done|]. eapply within_mono; [|apply Hev]. lia.
Qed.

Lemma fd_run_inv root m ops x : fd_inv root m x -> fd_allowed ops x -> fd_inv root m (foldl (fun x op => fd_step op x) x ops).
Proof.
  revert x. induction ops as [|op ops IH]; intros x HI Hall; [done|]. destruct Hall as [Hop Hall]. apply IH; [|done]. by apply fd_step_inv.
Qed.

Definition fd_start (root : string) (max_open : Z) (s : S) : fd_cache * S * (Z -> Z) := (MakeFdCache root max_open, s, fun _ => 0).

Lemma fd_start_inv root max_open (s : S) : 0 <= max_open -> fd_inv root (if max_open =? 0 then 64 else max_open) (fd_start root max_open s).
Proof.
  intros Hm. assert (1 <= max_open_files (MakeFdCache root max_open)) by (cbn; destruct (Z.eqb_spec max_open 0); lia).
  split; try done. left. etrans; [|done]. done.
Qed.

(** C8 — Descriptors in use stay open: after any sequence of calls of the
    descriptor cache in which releases match acquisitions, a file that is acquired
    still has its descriptor, open on that file, whatever was opened or evicted in
    between; and the cache holds no more descriptors than its bound unless all of
    them are in use. *)
Theorem fd_pinned_open root max_open (s : S) ops :
  0 <= max_open -> fd_allowed ops (fd_start root max_open s) ->
  let '(c, s', held) := foldl (fun x op => fd_step op x) (fd_start root max_open s) ops in
  (forall file, held file <> 0 ->
     exists e, fd_entries c !! file = Some e /\ pins e = held file /\ fd_path s' (entry_fd e) = Some (file_path root file)) /\
  (Z.of_nat (base.size (fd_entries c)) <= (if max_open =? 0 then 64 else max_open) \/ forall file e, fd_entries c !! file = Some e -> held file <> 0).
Proof.
  intros Hm Hall. pose proof (fd_run_inv root (if max_open =? 0 then 64 else max_open) ops (fd_start root max_open s)) as HI.
  destruct (foldl _ _ ops) as [[c s'] held]. destruct HI as [J1 J2 J3 J4 J5 J6 J7 J8]; [by apply fd_start_inv|done|].
  cbn in *. split.
  - intros file Hh. destruct (J4 file Hh) as [e He]. exists e. split; [done|]. split; [by apply J3|]. rewrite <- J7. by apply J1.
  - rewrite <- J8. destruct J6 as [?|Hp]; [by left|right]. intros file e He. rewrite <- (J3 file e He). by eapply Hp.
Qed.
End FdSafe.
