(* ===== verification/PosixDisk.v ===== *)
(** The I/O of the POSIX backend: [Execute] of [lib/io/posix_disk_backend.cc] with
    the request helpers of [lib/io/disk_request_util.h].

    Memory is a map from buffer addresses to blocks.  A read request that succeeds
    has filled its buffers with the blocks of the file and a write request has
    stored them, whatever the sizes of the transfers and however often they are
    interrupted; so the backend keeps the contract the buffer manager and the page
    cache are proved against ([posix_backend], [posix_files]). *)
From Stdlib Require Import Strings.Byte.
From stdpp Require Import strings.
From S2P Require Import Prelude Bytes Status Layout FreeList PageTable Interfaces IoEngine FdCache.

Notation memory := (Z -> list byte) (only parsing).

(** ** Vectors of buffers *)

(** An address, an offset in its block and a length. *)
Definition iovec : Type := Z * Z * Z.

(** The vectors of a transfer that goes on after [done] bytes. *)
Definition iovecs (bs done : Z) (bufs : list Z) : list iovec :=
  imap (fun j a => let skip := if (j =? 0)%nat then done mod bs else 0 in (a, skip, bs - skip)) (drop (Z.to_nat (done / bs)) bufs).

Definition iov_bytes (iov : list iovec) : Z := foldr (fun v n => v.2 + n) 0 iov.

(** The bytes of a short transfer fill the vectors in order. *)
Fixpoint scatter (iov : list iovec) (bytes : list byte) (m : memory) : memory :=
  match iov with
  | [] => m
  | (a, skip, n) :: iov => scatter iov (drop (Z.to_nat n) bytes) (<[a := splice skip (take (Z.to_nat n) bytes) (m a)]> m)
  end.

Definition gather (iov : list iovec) (m : memory) : list byte :=
  mjoin ((fun v => slice v.1.2 v.2 (m v.1.1)) <$> iov).

(** [ZeroFillReadTail]. *)
Definition ZeroFillReadTail (bs transferred : Z) (bufs : list Z) (m : memory) : memory :=
  foldl (fun m (b : Z * Z) =>
    let '(i, a) := b in
    let block_begin := i * bs in
    if block_begin + bs <=? transferred then m
    else
      let offset := if block_begin <? transferred then transferred - block_begin else 0 in
      <[a := splice offset (replicate (Z.to_nat (bs - offset)) x00) (m a)]> m)
    m (zip (seqZ 0 (Z.of_nat (length bufs))) bufs).

(** ** Executing a request *)

Section Exec.
Context {S : Type} `{Posix S}.

(** The loop of [ExecuteRead]: the bytes read, or the error. *)
Fixpoint preadv_loop (fuel : nat) (bs total base fd : Z) (bufs : list Z) (done : Z) (m : memory) (s : S) : option ((Z + Z) * memory * S) :=
  match fuel with
  | O => None
  | Datatypes.S fuel =>
      if total <=? done then Some (inl done, m, s)
      else
        let iov := iovecs bs done bufs in
        let '(r, s) := sys_preadv fd (base + done) (iov_bytes iov) s in
        match r with
        | inr e => if e =? EINTR then preadv_loop fuel bs total base fd bufs done m s else Some (inr e, m, s)
        | inl [] => Some (inl done, m, s)
        | inl bytes => preadv_loop fuel bs total base fd bufs (done + Z.of_nat (length bytes)) (scatter iov bytes m) s
        end
  end.

(** Every iteration transfers a byte or is interrupted. *)
Definition io_fuel (total : Z) (s : S) : nat := Datatypes.S (Z.to_nat total + signals s).

Definition ExecuteRead (g : BlockGeometry) (fd : Z) (r : DiskRequest) (m : memory) (s : S) : option (Status * memory * S) :=
  let bufs := take (Z.to_nat (block_count r)) (buffers r) in
  let total := block_count r * block_size g in
  let base := to_off (BlockOffset g (block_id (request_tag r))) in
  '(x, m, s) ← preadv_loop (io_fuel total s) (block_size g) total base fd bufs 0 m s;
  match x with
  | inr e => Some (IoError "preadv failed" e, m, s)
  | inl done => Some (Ok tt, if done <? total then ZeroFillReadTail (block_size g) done bufs m else m, s)
  end.

(** The loop of [ExecuteWrite]. *)
Fixpoint pwritev_loop (fuel : nat) (bs total base fd : Z) (bufs : list Z) (done : Z) (m : memory) (s : S) : option (Status * S) :=
  match fuel with
  | O => None
  | Datatypes.S fuel =>
      if total <=? done then Some (Ok tt, s)
      else
        let iov := iovecs bs done bufs in
        let '(r, s) := sys_pwritev fd (base + done) (gather iov m) s in
        match r with
        | inr e => if e =? EINTR then pwritev_loop fuel bs total base fd bufs done m s else Some (IoError "pwritev failed" e, s)
        | inl n => if n =? 0 then Some (IoError "partial page write" 0, s) else pwritev_loop fuel bs total base fd bufs (done + n) m s
        end
  end.

Definition ExecuteWrite (g : BlockGeometry) (sync_on_write : bool) (fd : Z) (r : DiskRequest) (m : memory) (s : S) : option (Status * S) :=
  let bufs := take (Z.to_nat (block_count r)) (buffers r) in
  let total := block_count r * block_size g in
  let base := to_off (BlockOffset g (block_id (request_tag r))) in
  '(x, s) ← pwritev_loop (io_fuel total s) (block_size g) total base fd bufs 0 m s;
  match x with
  | Err e => Some (Err e, s)
  | Ok _ =>
      if sync_on_write then
        let '(y, s) := sys_fdatasync fd s in
        Some (match y with inr e => IoError "fdatasync failed" e | inl _ => Ok tt end, s)
      else Some (Ok tt, s)
  end.

(** What requests act on. *)
Record posix := PosixDisk { pd_geometry : BlockGeometry; sync_on_write : bool; pd_files : fd_cache; pd_os : S }.

Definition set_files (c : fd_cache) (s : S) (d : posix) : posix := PosixDisk (pd_geometry d) (sync_on_write d) c s.

Definition Execute (r : DiskRequest) (m : memory) (d : posix) : option (Status * memory * posix) :=
  let '(fd, c, s) := Acquire (file_id (request_tag r)) (pd_files d) (pd_os d) in
  match fd with
  | Err e => Some (Err e, m, set_files c s d)
  | Ok fd =>
      '(status, m, s) ←
        (match operation r with
         | kRead => ExecuteRead (pd_geometry d) fd r m s
         | kWrite => '(x, s) ← ExecuteWrite (pd_geometry d) (sync_on_write d) fd r m s; Some (x, m, s)
         | kSync =>
             let '(y, s) := sys_fdatasync fd s in
             Some (match y with inr e => IoError "fdatasync failed" e | inl _ => Ok tt end, m, s)
         end);
      let '(c, s) := Release (file_id (request_tag r)) c s in
      Some (status, m, set_files c s d)
  end.
End Exec.
Arguments posix : clear implicits.

(** ** The vectors cover the buffers *)

(** The vectors computed block by block. *)
Fixpoint iov_rec (bs done : Z) (bufs : list Z) : list iovec :=
  match bufs with
  | [] => []
  | a :: bufs => if bs <=? done then iov_rec bs (done - bs) bufs else (a, done, bs - done) :: iov_rec bs 0 bufs
  end.

Section Vectors.
Context (bs : Z) (Hbs : 0 < bs).

Lemma iov_rec_0 bufs : iov_rec bs 0 bufs = imap (fun _ a => (a, 0, bs - 0)) bufs.
Proof.
  induction bufs as [|a bufs IH]; [done|]. cbn [iov_rec imap]. destruct (Z.leb_spec bs 0); [lia|]. f_equal. rewrite IH. done.
Qed.

Lemma iovecs_rec done bufs : 0 <= done -> iovecs bs done bufs = iov_rec bs done bufs.
Proof.
  revert done. induction bufs as [|a bufs IH]; intros done Hd; unfold iovecs.
  { by rewrite drop_nil. }
  cbn [iov_rec]. destruct (Z.leb_spec bs done) as [Hge|Hlt].
  - rewrite <- IH by lia. unfold iovecs. assert (done mod bs = (done - bs) mod bs) as ->.
    { rewrite <- (Z.mod_add (done - bs) 1) by lia. f_equal. lia. }
    assert (done / bs = (done - bs) / bs + 1) as ->.
    { rewrite <- Z.div_add by lia. f_equal. lia. }
    assert (0 <= (done - bs) / bs) by (apply Z.div_pos; lia).
    by replace (Z.to_nat ((done - bs) / bs + 1)) with (Datatypes.S (Z.to_nat ((done - bs) / bs))) by lia.
  - rewrite Z.div_small, Z.mod_small by lia. cbn [Z.to_nat drop imap Nat.eqb]. f_equal. by rewrite iov_rec_0.
Qed.

Definition flat (m : memory) (bufs : list Z) : list byte := mjoin (m <$> bufs).
Definition sized (m : memory) (bufs : list Z) : Prop := forall a, a ∈ bufs -> length (m a) = Z.to_nat bs.

Lemma length_flat m bufs : sized m bufs -> Z.of_nat (length (flat m bufs)) = Z.of_nat (length bufs) * bs.
Proof.
  induction bufs as [|a bufs IH]; intros Hs; [done|]. change (flat m (a :: bufs)) with (m a ++ flat m bufs).
  rewrite length_app, Nat2Z.inj_add, IH by (intros b Hb; apply Hs; by right). rewrite (Hs a) by by left. cbn [length]. lia.
Qed.

(** A run of bytes over the end of a block and the blocks after it. *)
Lemma splice_app done (p x bytes : list byte) :
  0 <= done <= Z.of_nat (length p) -> (Z.to_nat done + length bytes <= length p + length x)%nat ->
  splice done (take (length p - Z.to_nat done) bytes) p ++ splice 0 (drop (length p - Z.to_nat done) bytes) x = splice done bytes (p ++ x).
Proof.
  intros Hd Hl. unfold splice. change (Z.to_nat 0) with 0%nat. rewrite take_0, Nat.add_0_l. cbn [app]. rewrite (take_app_le p) by lia. rewrite <- !app_assoc. f_equal.
  destruct (decide (length bytes <= length p - Z.to_nat done)%nat) as [Hle|Hgt].
  - rewrite take_ge, (drop_ge bytes) by lia. cbn. rewrite drop_app_le by lia. done.
  - rewrite length_take_le, length_drop by lia. rewrite drop_ge by lia. cbn. rewrite app_assoc, take_drop. f_equal.
    rewrite drop_app_ge by lia. f_equal. lia.
Qed.

Lemma sized_cons m a bufs : sized m (a :: bufs) -> length (m a) = Z.to_nat bs /\ sized m bufs.
Proof. intros Hs. split; [apply Hs; by left|]. intros b Hb. apply Hs. by right. Qed.

(** A transfer of [bytes] after [done] bytes. *)
Lemma scatter_rec done bufs bytes m :
  0 <= done -> NoDup bufs -> sized m bufs -> done + Z.of_nat (length bytes) <= Z.of_nat (length bufs) * bs ->
  flat (scatter (iov_rec bs done bufs) bytes m) bufs = splice done bytes (flat m bufs) /\
  sized (scatter (iov_rec bs done bufs) bytes m) bufs /\
  forall a, a ∉ bufs -> scatter (iov_rec bs done bufs) bytes m a = m a.
Proof.
  revert done bytes m. induction bufs as [|a bufs IH]; intros done bytes m Hd Hnd Hs Hl; cbn [iov_rec scatter].
  { cbn in Hl. assert (bytes = []) as -> by (destruct bytes; [done|cbn in Hl; lia]). unfold splice. cbn. by rewrite take_nil, drop_nil. }
  apply list.NoDup_cons in Hnd as [Hna Hnd]. destruct (sized_cons m a bufs Hs) as [Ha Hs']. cbn [length] in Hl.
  change (flat m (a :: bufs)) with (m a ++ flat m bufs). pose proof (length_flat m bufs Hs') as Hlf.
  destruct (Z.leb_spec bs done) as [Hge|Hlt].
  - destruct (IH (done - bs) bytes m) as (E & Hs1 & Ho); try done; [lia|lia|]. set (m' := scatter _ _ _) in *.
    change (flat m' (a :: bufs)) with (m' a ++ flat m' bufs). rewrite (Ho a Hna), E. split; [|split].
    + unfold splice. rewrite (take_app_ge (m a)), (drop_app_ge (m a)) by lia. rewrite <- app_assoc. do 4 f_equal; lia.
    + intros b Hb. apply elem_of_cons in Hb as [->|Hb]; [by rewrite Ho|by apply Hs1].
    + intros b Hb. apply Ho. set_solver.
  - cbn [scatter]. set (chunk := take _ bytes). set (m1 := <[a := _]> m). set (rest := drop _ bytes).
    assert (Z.to_nat (bs - done) = (length (m a) - Z.to_nat done)%nat) as En by lia.
    assert (forall b, b <> a -> m1 b = m b) as Hm1 by (intros b Hb; unfold m1; by rewrite fn_lookup_insert_ne).
    assert (m1 a = splice done chunk (m a)) as Em1 by (unfold m1; by rewrite fn_lookup_insert).
    assert (flat m1 bufs = flat m bufs) as Ef.
    { unfold flat. f_equal. apply list_fmap_ext. intros i b Hb. apply Hm1. intros ->. apply Hna. by eapply list_elem_of_lookup_2. }
    destruct (IH 0 rest m1) as (E & Hs1 & Ho); try done.
    { intros b Hb. rewrite Hm1; [by apply Hs'|]. intros ->. done. }
    { unfold rest. rewrite length_drop. lia. }
    set (m' := scatter _ _ _) in *. change (flat m' (a :: bufs)) with (m' a ++ flat m' bufs). rewrite (Ho a Hna), E, Em1, Ef. split; [|split].
    + unfold chunk, rest. rewrite En. apply splice_app; lia.
    + intros b Hb. apply elem_of_cons in Hb as [->|Hb]; [|by apply Hs1]. rewrite Ho by done. rewrite Em1, length_splice; [done|].
      unfold chunk. rewrite length_take. lia.
    + intros b Hb. rewrite Ho, Hm1; [done|set_solver|set_solver].
Qed.

Lemma gather_rec done bufs m :
  0 <= done -> sized m bufs -> gather (iov_rec bs done bufs) m = drop (Z.to_nat done) (flat m bufs).
Proof.
  revert done. induction bufs as [|a bufs IH]; intros done Hd Hs; cbn [iov_rec]; [by destruct (Z.to_nat done)|].
  destruct (sized_cons m a bufs Hs) as [Ha Hs']. change (flat m (a :: bufs)) with (m a ++ flat m bufs). destruct (Z.leb_spec bs done) as [Hge|Hlt].
  - rewrite IH, drop_app_ge by (done || lia). f_equal. lia.
  - change (gather ((a, done, bs - done) :: iov_rec bs 0 bufs) m) with (slice done (bs - done) (m a) ++ gather (iov_rec bs 0 bufs) m).
    rewrite IH, drop_app_le by (done || lia). f_equal. unfold slice. apply take_ge. rewrite length_drop. lia.
Qed.

Lemma iov_bytes_rec done bufs : 0 <= done <= Z.of_nat (length bufs) * bs -> iov_bytes (iov_rec bs done bufs) = Z.of_nat (length bufs) * bs - done.
Proof.
  revert done. induction bufs as [|a bufs IH]; intros done Hd; cbn [iov_rec length] in *; [cbn in *; lia|].
  destruct (Z.leb_spec bs done) as [Hge|Hlt]; [rewrite IH by lia; lia|].
  change (iov_bytes ((a, done, bs - done) :: iov_rec bs 0 bufs)) with (bs - done + iov_bytes (iov_rec bs 0 bufs)). rewrite IH by nia. lia.
Qed.

(** Zero-filling is a transfer of zeros. *)
Lemma zero_fill_rec i done bufs m :
  0 <= done ->
  foldl (fun m (b : Z * Z) =>
    let '(i, a) := b in
    if i * bs + bs <=? done then m
    else
      let offset := if i * bs <? done then done - i * bs else 0 in
      <[a := splice offset (replicate (Z.to_nat (bs - offset)) x00) (m a)]> m)
    m (zip (seqZ i (Z.of_nat (length bufs))) bufs) =
  scatter (iov_rec bs (Z.max 0 (done - i * bs)) bufs) (replicate (Z.to_nat (Z.of_nat (length bufs) * bs - Z.max 0 (done - i * bs))) x00) m.
Proof.
  revert i m. induction bufs as [|a bufs IH]; intros i m Hd; [done|]. cbn [length iov_rec].
  rewrite seqZ_cons by lia. cbn [zip zip_with foldl]. replace (Z.pred (Z.of_nat (Datatypes.S (length bufs)))) with (Z.of_nat (length bufs)) by lia.
  replace (Z.succ i) with (i + 1) by lia. rewrite IH by done.
  destruct (Z.leb_spec (i * bs + bs) done) as [Hge|Hlt].
  - destruct (Z.leb_spec bs (Z.max 0 (done - i * bs))); [|lia]. replace (Z.max 0 (done - (i + 1) * bs)) with (Z.max 0 (done - i * bs) - bs) by lia.
    do 2 f_equal. lia.
  - destruct (Z.leb_spec bs (Z.max 0 (done - i * bs))); [lia|]. replace (Z.max 0 (done - (i + 1) * bs)) with 0 by lia.
    assert ((if i * bs <? done then done - i * bs else 0) = Z.max 0 (done - i * bs)) as -> by (destruct (Z.ltb_spec (i * bs) done); lia).
    cbn [scatter]. set (off := Z.max 0 _) in *. rewrite take_replicate, drop_replicate. do 2 f_equal; [lia|]. do 3 f_equal. lia.
Qed.
End Vectors.

(** ** The transfer loops *)

Section Loops.
Context {S : Type} `{PosixLaws S}.
Context (bs : Z) (Hbs : 0 < bs).

Lemma take_splice done (bytes l : list byte) :
  0 <= done -> (Z.to_nat done <= length l)%nat ->
  take (Z.to_nat (done + Z.of_nat (length bytes))) (splice done bytes l) = take (Z.to_nat done) l ++ bytes.
Proof.
  intros Hd Hl. unfold splice. rewrite app_assoc. apply take_app_length'. rewrite length_app, length_take. lia.
Qed.

Lemma preadv_loop_spec fuel base fd bufs done m (s : S) path :
  fd_path s fd = Some path -> NoDup bufs -> sized bs m bufs -> 0 <= done <= Z.of_nat (length bufs) * bs ->
  (Z.to_nat (Z.of_nat (length bufs) * bs - done) + signals s < fuel)%nat -> done = 0 \/ 0 <= base ->
  take (Z.to_nat done) (flat m bufs) = fbyte s path <$> seqZ base done ->
  exists x m' s', preadv_loop fuel bs (Z.of_nat (length bufs) * bs) base fd bufs done m s = Some (x, m', s') /\
    fbyte s' = fbyte s /\ fd_path s' = fd_path s /\ sized bs m' bufs /\ (forall a, a ∉ bufs -> m' a = m a) /\
    match x with
    | inl n => 0 <= n <= Z.of_nat (length bufs) * bs /\ (n = 0 \/ 0 <= base) /\ take (Z.to_nat n) (flat m' bufs) = fbyte s path <$> seqZ base n /\
        (n < Z.of_nat (length bufs) * bs -> 0 <= base + n /\ forall pos, base + n <= pos -> fbyte s path pos = x00)
    | inr _ => True
    end.
Proof.
  revert done m s. induction fuel as [|fuel IH]; intros done m s Hfd Hnd Hs Hd Hf Hb Hm; [lia|]. cbn [preadv_loop].
  set (total := Z.of_nat (length bufs) * bs) in *. destruct (Z.leb_spec total done) as [Hge|Hlt].
  { eexists _, _, _. split; [done|]. split_and!; try done; lia. }
  rewrite (iovecs_rec bs Hbs) by lia. rewrite (iov_bytes_rec bs Hbs) by (unfold total in *; lia). fold total.
  pose proof (preadv_law fd (base + done) (total - done) s path Hfd) as Hp. destruct (sys_preadv _ _ _ s) as [r s1].
  destruct Hp as (Eb & Ep & Hr). destruct r as [[|b bytes]|e].
  - destruct Hr as (_ & Hoff & _ & _ & Hz). eexists _, _, _. split; [done|]. split_and!; try done; try lia. intros _. split; [lia|]. apply Hz; [done|lia].
  - destruct Hr as (Hsg & Hoff & Hlen & Hbytes & _). set (l := b :: bytes) in *.
    destruct (scatter_rec bs Hbs done bufs l m) as (Ef & Hs1 & Ho); try done; [lia|unfold total in *; lia|].
    pose proof (length_flat bs Hbs m bufs Hs) as Hlf. fold total in Hlf.
    destruct (IH (done + Z.of_nat (length l)) (scatter (iov_rec bs done bufs) l m) s1) as (x & m' & s' & E & E1 & E2 & E3 & E4 & E5).
    + by rewrite Ep.
    + done.
    + done.
    + lia.
    + cbn [l length] in *. lia.
    + right. lia.
    + rewrite Ef, take_splice by lia. rewrite Hm, Eb. rewrite Hbytes at 1. rewrite <- fmap_app. f_equal. apply Bytes.seqZ_app; lia.
    + exists x, m', s'. rewrite E, E1, E2, Eb, Ep. split; [done|]. split; [done|]. split; [done|]. split; [done|]. split.
      * intros a Ha. rewrite E4, Ho by done. done.
      * rewrite Eb in E5. done.
  - destruct (Z.eqb_spec e EINTR) as [Ee|Ee]; [|eexists _, _, _; by split_and!].
    destruct (IH done m s1) as (x & m' & s' & E & E1 & E2 & E3 & E4 & E5); try done; [by rewrite Ep|specialize (Hr Ee); lia|by rewrite Eb|].
    exists x, m', s'. rewrite E, E1, E2, Eb, Ep. rewrite Eb in E5. done.
Qed.

(** Each buffer of a filled request. *)
Lemma flat_blocks (f : Z -> byte) base bufs m :
  sized bs m bufs -> flat m bufs = f <$> seqZ base (Z.of_nat (length bufs) * bs) ->
  forall i a, bufs !! i = Some a -> m a = f <$> seqZ (base + Z.of_nat i * bs) bs.
Proof.
  revert base. induction bufs as [|b bufs IH]; intros base Hs Ef i a Hi; [done|]. destruct (sized_cons bs m b bufs Hs) as [Hb Hs'].
  change (flat m (b :: bufs)) with (m b ++ flat m bufs) in Ef. cbn [length] in Ef.
  replace (Z.of_nat (Datatypes.S (length bufs)) * bs) with (bs + Z.of_nat (length bufs) * bs) in Ef by lia.
  rewrite <- Bytes.seqZ_app, fmap_app in Ef by lia. apply app_inj_1 in Ef as [E1 E2]; [|by rewrite length_fmap, length_seqZ].
  destruct i as [|i]; cbn in Hi.
  - injection Hi as <-. rewrite E1. by replace (base + Z.of_nat 0 * bs) with base by lia.
  - rewrite (IH (base + bs) Hs' E2 i a Hi). do 2 f_equal. lia.
Qed.

Lemma zeros_fmap (f : Z -> byte) q n : (forall pos, q <= pos -> f pos = x00) -> f <$> seqZ q n = replicate (Z.to_nat n) x00.
Proof.
  intros Hz. apply list_eq. intros i. rewrite list_lookup_fmap. destruct (decide (Z.of_nat i < n)).
  - rewrite lookup_seqZ_lt, lookup_replicate_2 by lia. cbn. f_equal. apply Hz. lia.
  - rewrite lookup_seqZ_ge by lia. symmetry. apply lookup_ge_None. rewrite length_replicate. lia.
Qed.

(** Filling what lies past the end of the file. *)
Lemma zero_fill_spec (f : Z -> byte) base n bufs m :
  NoDup bufs -> sized bs m bufs -> 0 <= n <= Z.of_nat (length bufs) * bs ->
  take (Z.to_nat n) (flat m bufs) = f <$> seqZ base n -> (forall pos, base + n <= pos -> f pos = x00) ->
  let m' := ZeroFillReadTail bs n bufs m in
  flat m' bufs = f <$> seqZ base (Z.of_nat (length bufs) * bs) /\ sized bs m' bufs /\ forall a, a ∉ bufs -> m' a = m a.
Proof.
  intros Hnd Hs Hn Ht Hz m'. pose proof (zero_fill_rec bs Hbs 0 n bufs m ltac:(lia) : m' = _) as Em. rewrite Z.mul_0_l, Z.sub_0_r, Z.max_r in Em by lia.
  clearbody m'. subst m'.
  set (total := Z.of_nat (length bufs) * bs) in *.
  destruct (scatter_rec bs Hbs n bufs (replicate (Z.to_nat (total - n)) x00) m) as (Ef & Hs1 & Ho); try done; [lia|rewrite length_replicate; lia|].
  split; [|done]. pose proof (length_flat bs Hbs m bufs Hs) as Hlf. fold total in Hlf. rewrite Ef. unfold splice. rewrite length_replicate.
  rewrite drop_ge by lia. rewrite app_nil_r, Ht. rewrite <- (zeros_fmap f (base + n) (total - n)) by done. rewrite <- fmap_app. f_equal.
  rewrite Bytes.seqZ_app by lia. f_equal. lia.
Qed.

(** The bytes of a file after [d] was stored at [base]. *)
Definition stored (base : Z) (d : list byte) (f : Z -> byte) (pos : Z) : byte :=
  if decide (base <= pos < base + Z.of_nat (length d)) then nth (Z.to_nat (pos - base)) d x00 else f pos.

Lemma stored_step base done n l (f g h : Z -> byte) :
  0 <= done -> 0 <= n -> done + n <= Z.of_nat (length l) ->
  (forall pos, g pos = stored base (take (Z.to_nat done) l) f pos) ->
  (forall pos, h pos = if decide (base + done <= pos < base + done + n) then nth (Z.to_nat (pos - (base + done))) (drop (Z.to_nat done) l) x00 else g pos) ->
  forall pos, h pos = stored base (take (Z.to_nat (done + n)) l) f pos.
Proof.
  intros Hd Hn Hl Hg Hh pos. rewrite Hh, Hg. unfold stored. rewrite !length_take, !Nat.min_l by lia. rewrite !nth_lookup.
  destruct (decide (base + done <= pos < base + done + n)).
  - rewrite decide_True by lia. rewrite lookup_take_lt by lia. rewrite lookup_drop. do 2 f_equal. lia.
  - destruct (decide (base <= pos < base + Z.of_nat (Z.to_nat done))).
    + rewrite decide_True by lia. rewrite !lookup_take_lt by lia. done.
    + rewrite decide_False by lia. done.
Qed.

Lemma pwritev_loop_spec fuel base fd bufs done m (s s0 : S) path :
  fd_path s fd = Some path -> sized bs m bufs -> 0 <= done <= Z.of_nat (length bufs) * bs ->
  (Z.to_nat (Z.of_nat (length bufs) * bs - done) + signals s < fuel)%nat -> done = 0 \/ 0 <= base ->
  (forall other, other <> path -> fbyte s other = fbyte s0 other) ->
  (forall pos, fbyte s path pos = stored base (take (Z.to_nat done) (flat m bufs)) (fbyte s0 path) pos) ->
  exists x s', pwritev_loop fuel bs (Z.of_nat (length bufs) * bs) base fd bufs done m s = Some (x, s') /\
    fd_path s' = fd_path s /\ (forall other, other <> path -> fbyte s' other = fbyte s0 other) /\
    match x with
    | Ok _ => (0 < Z.of_nat (length bufs) -> 0 <= base) /\ forall pos, fbyte s' path pos = stored base (flat m bufs) (fbyte s0 path) pos
    | Err _ => forall pos, ~ (0 <= base <= pos /\ pos < base + Z.of_nat (length bufs) * bs) -> fbyte s' path pos = fbyte s0 path pos
    end.
Proof.
  intros Hfd Hs. pose proof (length_flat bs Hbs m bufs Hs) as Hlf. revert done s Hfd. induction fuel as [|fuel IH]; intros done s Hfd Hd Hf Hb Hoth Hm; [lia|].
  cbn [pwritev_loop]. set (total := Z.of_nat (length bufs) * bs) in *. destruct (Z.leb_spec total done) as [Hge|Hlt].
  { eexists _, _. split; [done|]. split_and!; try done.
    - intros Hn. assert (0 < total) by (unfold total; nia). lia.
    - intros pos. rewrite Hm, take_ge by lia. done. }
  rewrite (iovecs_rec bs Hbs) by lia. rewrite (gather_rec bs Hbs) by (done || lia).
  pose proof (pwritev_law fd (base + done) (drop (Z.to_nat done) (flat m bufs)) s path Hfd) as Hp.
  destruct (sys_pwritev _ _ _ s) as [r s1]. destruct Hp as (Ep & Eo & Hr). rewrite length_drop in Hr.
  assert (forall other, other <> path -> fbyte s1 other = fbyte s0 other) as Hoth1 by (intros; by rewrite Eo, Hoth).
  assert (forall pos, ~ (0 <= base <= pos /\ pos < base + total) -> fbyte s path pos = fbyte s0 path pos) as Hsame.
  { intros pos Hp. rewrite Hm. unfold stored. rewrite length_take, Nat.min_l by lia. by rewrite decide_False by lia. }
  destruct r as [n|e].
  - destruct Hr as (Hsg & Hoff & Hn & Hw). destruct (Z.eqb_spec n 0) as [->|Hn0].
    + eexists _, _. split; [done|]. split; [done|]. split; [done|]. intros pos Hp. rewrite Hw, decide_False by lia. by apply Hsame.
    + destruct (IH (done + n) s1) as (x & s' & E & E1 & E2 & E3); [by rewrite Ep|lia|lia|lia|done| |].
      * apply (stored_step base done n (flat m bufs) (fbyte s0 path) (fbyte s path)); try done; lia.
      * exists x, s'. by rewrite E, E1, Ep.
  - destruct Hr as [Hint Hsame']. destruct (Z.eqb_spec e EINTR) as [Ee|Ee].
    + destruct (Hint Ee) as [Hsg Eb]. destruct (IH done s1) as (x & s' & E & E1 & E2 & E3); [by rewrite Ep|lia|lia|done|done|by rewrite Eb|].
      exists x, s'. by rewrite E, E1, Ep.
    + eexists _, _. split; [done|]. split; [done|]. split; [done|]. intros pos Hp. rewrite Hsame' by lia. by apply Hsame.
Qed.
End Loops.

(** ** Requests *)

Section Requests.
Context {S : Type} `{PosixLaws S}.

(** The offset of a block fits 64 bits. *)
Definition block_ok (bs : Z) (t : BufferTag) : Prop := 0 <= block_id t /\ block_id t * bs < u64_mod.

Lemma block_base g t : geometry_ok g -> block_ok (block_size g) t ->
  0 < block_size g /\ (0 <= to_off (BlockOffset g (block_id t)) -> to_off (BlockOffset g (block_id t)) = block_id t * block_size g) /\
  to_off (BlockOffset g (block_id t)) <= block_id t * block_size g.
Proof.
  intros Hg [Hb Hlt]. unfold geometry_ok in Hg. unfold block_size, BlockOffset, to_off in *. rewrite Z.shiftl_1_l in *. rewrite Z.shiftl_mul_pow2 by lia.
  assert (0 < 2 ^ block_shift g <= 2 ^ 22) by (split; [apply Z.pow_pos_nonneg; lia|apply Z.pow_le_mono_r; lia]).
  rewrite (u64_small (2 ^ block_shift g)) in * by (unfold is_u64, u64_mod; lia). rewrite u64_small by (unfold is_u64; nia).
  split; [lia|]. unfold u64_mod. destruct (Z.ltb_spec (block_id t * 2 ^ block_shift g) (2 ^ 63)); split; intros; unfold u64_mod in *; lia.
Qed.

Definition used_buffers (r : DiskRequest) : list Z := take (Z.to_nat (block_count r)) (buffers r).

(** What [ValidateDiskRequest] and the types guarantee, with distinct whole buffers. *)
Record request_fits (bs : Z) (r : DiskRequest) (m : memory) : Prop := {
  rf_count : 1 <= block_count r <= Z.of_nat (length (buffers r));
  rf_block : block_ok bs (request_tag r);
  rf_range : (block_id (request_tag r) + block_count r) * bs <= u64_mod;
  rf_distinct : NoDup (used_buffers r);
  rf_sized : sized bs m (used_buffers r)
}.

Lemma used_length bs r m : request_fits bs r m -> Z.of_nat (length (used_buffers r)) = block_count r.
Proof. intros [Hc _ _ _ _]. unfold used_buffers. rewrite length_take. lia. Qed.

Lemma execute_read_spec g fd r m (s : S) path :
  geometry_ok g -> request_fits (block_size g) r m -> fd_path s fd = Some path ->
  exists x m' s', ExecuteRead g fd r m s = Some (x, m', s') /\ fbyte s' = fbyte s /\ fd_path s' = fd_path s /\
    (forall a, a ∉ used_buffers r -> m' a = m a) /\
    (has_value x = true -> forall i a, used_buffers r !! i = Some a ->
       m' a = fbyte s path <$> seqZ ((block_id (request_tag r) + Z.of_nat i) * block_size g) (block_size g)).
Proof.
  intros Hg Hr Hfd. destruct (block_base g _ Hg (rf_block _ _ _ Hr)) as (Hbs & Hbase & _). pose proof (used_length _ _ _ Hr) as Hlen.
  pose proof Hr as [Hc Hb _ Hnd Hs]. unfold ExecuteRead. fold (used_buffers r). set (base := to_off _) in *. rewrite <- Hlen.
  destruct (preadv_loop_spec (block_size g) Hbs (io_fuel (Z.of_nat (length (used_buffers r)) * block_size g) s) base fd (used_buffers r) 0 m s path)
    as (x & m1 & s1 & -> & Eb & Ep & Hs1 & Ho & Hx); try done.
  { nia. } { unfold io_fuel. lia. } { by left. }
  cbn [mbind option_bind]. destruct x as [n|e]; [|eexists _, _, _; by split_and!].
  destruct Hx as (Hn & Hnb & Ht & Hz). set (total := Z.of_nat (length (used_buffers r)) * block_size g) in *.
  assert (forall m2, flat m2 (used_buffers r) = fbyte s path <$> seqZ base total -> sized (block_size g) m2 (used_buffers r) -> 0 <= base ->
    forall i a, used_buffers r !! i = Some a -> m2 a = fbyte s path <$> seqZ ((block_id (request_tag r) + Z.of_nat i) * block_size g) (block_size g)) as Hfin.
  { intros m2 Ef Hs2 H0b i a Hi. rewrite (flat_blocks (block_size g) Hbs (fbyte s path) base (used_buffers r) m2 Hs2 Ef i a Hi).
    do 2 f_equal. rewrite (Hbase H0b). lia. }
  destruct (Z.ltb_spec n total) as [Hlt|Hge].
  - destruct (Hz Hlt) as [H0b Hzero].
    destruct (zero_fill_spec (block_size g) Hbs (fbyte s path) base n (used_buffers r) m1) as (Ef & Hs2 & Ho2); try done.
    eexists _, _, _. split; [done|]. split; [done|]. split; [done|]. split; [intros a Ha; by rewrite Ho2, Ho|].
    intros _. apply Hfin; try done. lia.
  - assert (n = total) as -> by lia. assert (0 < total) by (unfold total; nia). eexists _, _, _. split; [done|]. split; [done|]. split; [done|].
    split; [done|]. intros _. apply Hfin; [|done|lia]. rewrite <- Ht. symmetry. apply take_ge.
    pose proof (length_flat (block_size g) Hbs m1 (used_buffers r) Hs1) as Hl. fold total in Hl. lia.
Qed.

Lemma execute_write_spec g sync fd r m (s : S) path :
  geometry_ok g -> request_fits (block_size g) r m -> fd_path s fd = Some path ->
  exists x s', ExecuteWrite g sync fd r m s = Some (x, s') /\ fd_path s' = fd_path s /\
    (forall other, other <> path -> fbyte s' other = fbyte s other) /\
    (forall pos, ~ (block_id (request_tag r) * block_size g <= pos < (block_id (request_tag r) + block_count r) * block_size g) ->
       fbyte s' path pos = fbyte s path pos) /\
    (has_value x = true -> forall pos, fbyte s' path pos =
       stored (block_id (request_tag r) * block_size g) (flat m (used_buffers r)) (fbyte s path) pos).
Proof.
  intros Hg Hr Hfd. destruct (block_base g _ Hg (rf_block _ _ _ Hr)) as (Hbs & Hbase & _). pose proof (used_length _ _ _ Hr) as Hlen.
  pose proof Hr as [Hc Hb _ Hnd Hs]. unfold ExecuteWrite. fold (used_buffers r). set (base := to_off _) in *. rewrite <- Hlen.
  destruct (pwritev_loop_spec (block_size g) Hbs (io_fuel (Z.of_nat (length (used_buffers r)) * block_size g) s) base fd (used_buffers r) 0 m s s path)
    as (x & s1 & -> & Ep & Hoth & Hx); try done.
  { nia. } { unfold io_fuel. lia. } { by left. }
  { intros pos. change (Z.to_nat 0) with 0%nat. rewrite take_0. unfold stored. cbn [length]. by rewrite decide_False by lia. }
  cbn [mbind option_bind]. pose proof (length_flat (block_size g) Hbs m (used_buffers r) Hs) as Hl.
  destruct x as [[]|e].
  - destruct Hx as [H0b Hx]. specialize (H0b ltac:(lia)). rewrite (Hbase H0b) in Hx.
    assert (forall pos, ~ (block_id (request_tag r) * block_size g <= pos < (block_id (request_tag r) + Z.of_nat (length (used_buffers r))) * block_size g) ->
      fbyte s1 path pos = fbyte s path pos) as Hout.
    { intros pos Hp. rewrite Hx. unfold stored. by rewrite decide_False by lia. }
    destruct sync; [|eexists _, _; by split_and!]. destruct (fdatasync_law fd s1) as [E1 E2]. destruct (sys_fdatasync fd s1) as [y s2].
    cbn in E1, E2. eexists _, _. split; [done|]. rewrite E1, E2. by split_and!.
  - eexists _, _. split; [done|]. split; [done|]. split; [done|]. split; [|done]. intros pos Hp. apply Hx. intros [Hb0 ?]. apply Hp.
    rewrite (Hbase ltac:(lia)) in *. lia.
Qed.

(** ** Blocks *)

Definition posix_ok (d : posix S) : Prop := geometry_ok (pd_geometry d) /\ fds_ok (pd_files d) (pd_os d).

(** The block [t]: zeros past the end of the file, and where there is no offset. *)
Definition disk_block (d : posix S) (t : BufferTag) : list byte :=
  let bs := block_size (pd_geometry d) in
  if decide (0 <= block_id t /\ block_id t * bs < u64_mod)
  then fbyte (pd_os d) (file_path (root_path (pd_files d)) (file_id t)) <$> seqZ (block_id t * bs) bs
  else replicate (Z.to_nat bs) x00.

Lemma disk_block_at d t : block_ok (block_size (pd_geometry d)) t ->
  disk_block d t = fbyte (pd_os d) (file_path (root_path (pd_files d)) (file_id t)) <$> seqZ (block_id t * block_size (pd_geometry d)) (block_size (pd_geometry d)).
Proof. intros Hb. unfold disk_block. by rewrite decide_True. Qed.

(** Two states with the same bytes. *)
Lemma disk_block_same d d' t :
  pd_geometry d' = pd_geometry d -> root_path (pd_files d') = root_path (pd_files d) ->
  (forall pos, block_id t * block_size (pd_geometry d) <= pos < (block_id t + 1) * block_size (pd_geometry d) ->
     fbyte (pd_os d') (file_path (root_path (pd_files d)) (file_id t)) pos = fbyte (pd_os d) (file_path (root_path (pd_files d)) (file_id t)) pos) ->
  disk_block d' t = disk_block d t.
Proof.
  intros Eg Er Hf. unfold disk_block. rewrite Eg, Er. destruct (decide _); [|done]. apply list_fmap_ext. intros i pos Hi.
  apply Hf. apply lookup_seqZ in Hi. lia.
Qed.

Lemma stored_self base l (f : Z -> byte) : l = stored base l f <$> seqZ base (Z.of_nat (length l)).
Proof.
  apply list_eq. intros i. rewrite list_lookup_fmap. destruct (decide (i < length l)%nat) as [Hi|Hi].
  - rewrite lookup_seqZ_lt by lia. cbn. unfold stored. rewrite decide_True by lia. replace (Z.to_nat (base + Z.of_nat i - base)) with i by lia.
    rewrite nth_lookup. destruct (lookup_lt_is_Some_2 l i Hi) as [x ->]. done.
  - rewrite lookup_seqZ_ge by lia. apply lookup_ge_None. lia.
Qed.

(** Releasing a descriptor changes no file. *)
Lemma release_keeps file c (s : S) : fds_ok c s ->
  let '(c', s') := Release file c s in fds_ok c' s' /\ fbyte s' = fbyte s /\ root_path c' = root_path c.
Proof.
  intros Hok. pose proof (release_spec file c s Hok) as Hr. destruct (Release file c s) as [c' s'].
  destruct (fd_entries c !! file); [|by destruct Hr as [-> ->]]. cbn zeta in Hr. destruct Hr as [J1 J2 J3 _ _ _ _]. done.
Qed.

Lemma fds_ok_same c (s s' : S) : fds_ok c s -> fd_path s' = fd_path s -> fds_ok c s'.
Proof. intros Hok E file e He. rewrite E. by apply Hok. Qed.

(** The effect of a request on the blocks. *)
Definition request_effect (r : DiskRequest) (x : Status) (m m' : memory) (d d' : posix S) : Prop :=
  let block i := MkTag (file_id (request_tag r)) (block_id (request_tag r) + Z.of_nat i) in
  match operation r with
  | kRead => (forall t, disk_block d' t = disk_block d t) /\ (forall a, a ∉ used_buffers r -> m' a = m a) /\
      (has_value x = true -> forall i a, used_buffers r !! i = Some a -> m' a = disk_block d (block i))
  | kWrite => m' = m /\
      (forall t, (forall i, (i < length (used_buffers r))%nat -> t <> block i) -> disk_block d' t = disk_block d t) /\
      (has_value x = true -> forall i a, used_buffers r !! i = Some a -> disk_block d' (block i) = m a)
  | kSync => m' = m /\ forall t, disk_block d' t = disk_block d t
  end.

Lemma range_block g r m i :
  geometry_ok g -> request_fits (block_size g) r m -> (i < length (used_buffers r))%nat ->
  block_ok (block_size g) (MkTag (file_id (request_tag r)) (block_id (request_tag r) + Z.of_nat i)).
Proof.
  intros Hg Hr Hi. destruct (block_base g _ Hg (rf_block _ _ _ Hr)) as (Hbs & _). pose proof (used_length _ _ _ Hr) as Hlen.
  destruct Hr as [Hc [Hb1 Hb2] Hrg _ _]. split; cbn; [lia|]. nia.
Qed.

Lemma write_effect d c (s1 : S) path file r m x :
  geometry_ok (pd_geometry d) -> request_fits (block_size (pd_geometry d)) r m -> file = file_id (request_tag r) ->
  path = file_path (root_path (pd_files d)) file -> root_path c = root_path (pd_files d) ->
  (forall other, other <> path -> fbyte s1 other = fbyte (pd_os d) other) ->
  (forall pos, ~ (block_id (request_tag r) * block_size (pd_geometry d) <= pos < (block_id (request_tag r) + block_count r) * block_size (pd_geometry d)) ->
     fbyte s1 path pos = fbyte (pd_os d) path pos) ->
  (has_value (x : Status) = true -> forall pos, fbyte s1 path pos =
     stored (block_id (request_tag r) * block_size (pd_geometry d)) (flat m (used_buffers r)) (fbyte (pd_os d) path) pos) ->
  operation r = kWrite -> request_effect r x m m d (set_files c s1 d).
Proof.
  intros Hg Hr -> -> Er Hoth Hout Hx Eop. set (bs := block_size (pd_geometry d)) in *. set (path := file_path _ _) in *.
  unfold request_effect. rewrite Eop. split; [done|].
  destruct (block_base _ _ Hg (rf_block _ _ _ Hr)) as (Hbs & _). fold bs in Hbs. pose proof (used_length _ _ _ Hr) as Hlen. split.
  - intros t Ht. apply disk_block_same; [done|done|]. intros pos Hp. cbn. fold bs in Hp.
    destruct (decide (file_id t = file_id (request_tag r))) as [Ef|Hne]; [|rewrite Hoth; [done|]; intros E; by apply file_path_inj in E].
    rewrite Ef. apply Hout. intros Hin. apply (Ht (Z.to_nat (block_id t - block_id (request_tag r)))); [nia|].
    destruct t as [tf tb]. cbn in *. subst tf. f_equal. assert (block_id (request_tag r) <= tb) by nia. lia.
  - intros Hv i a Hi. pose proof (lookup_lt_Some _ _ _ Hi) as Hil. rewrite disk_block_at by (by eapply range_block).
    cbn [pd_os set_files pd_files pd_geometry file_id]. rewrite Er. fold path bs. symmetry.
    assert (flat m (used_buffers r) = fbyte s1 path <$> seqZ (block_id (request_tag r) * bs) (Z.of_nat (length (used_buffers r)) * bs)) as Ef.
    { rewrite <- (length_flat bs Hbs m (used_buffers r)) by apply Hr.
      rewrite (stored_self (block_id (request_tag r) * bs) (flat m (used_buffers r)) (fbyte (pd_os d) path)) at 1.
      apply list_fmap_ext. intros j pos _. by rewrite Hx. }
    rewrite (flat_blocks bs Hbs (fbyte s1 path) (block_id (request_tag r) * bs) (used_buffers r) m ltac:(apply Hr) Ef i a Hi).
    cbn. do 2 f_equal. lia.
Qed.

(** Any state of the files that shows the same bytes. *)
Lemma same_blocks d c (s : S) : root_path c = root_path (pd_files d) -> fbyte s = fbyte (pd_os d) ->
  forall t, disk_block (set_files c s d) t = disk_block d t.
Proof. intros Er Eb t. apply disk_block_same; [done|done|]. intros; cbn. by rewrite Eb. Qed.

Lemma execute_spec r m (d : posix S) :
  posix_ok d -> (operation r <> kSync -> request_fits (block_size (pd_geometry d)) r m) ->
  exists x m' d', Execute r m d = Some (x, m', d') /\ posix_ok d' /\ pd_geometry d' = pd_geometry d /\ request_effect r x m m' d d'.
Proof.
  intros [Hg Hok] Hr. unfold Execute. set (file := file_id (request_tag r)). pose proof (acquire_spec file (pd_files d) (pd_os d) Hok) as Ha.
  destruct (Acquire file (pd_files d) (pd_os d)) as [[fd c] s]. destruct Ha as [A1 A2 A3 _ A5 _ _ _]. set (path := file_path (root_path (pd_files d)) file) in *.
  destruct fd as [fd|e].
  2: { eexists _, _, _. split; [done|]. split; [done|]. split; [done|]. unfold request_effect.
       pose proof (same_blocks d c s A3 A2). destruct (operation r); by split_and!. }
  destruct (A5 fd eq_refl) as [Hfd _].
  assert (forall (x : Status) (m' : memory) (s' : S), fd_path s' = fd_path s ->
    (forall c2 s2, root_path c2 = root_path (pd_files d) -> fbyte s2 = fbyte s' -> request_effect r x m m' d (set_files c2 s2 d)) ->
    exists x' m2 d2, (let '(c, s) := Release file c s' in Some (x, m', set_files c s d)) = Some (x', m2, d2) /\ posix_ok d2 /\
      pd_geometry d2 = pd_geometry d /\ request_effect r x' m m2 d d2) as Hrel.
  { intros x m' s' Ep He. pose proof (release_keeps file c s' (fds_ok_same c s s' A1 Ep)) as Hk. destruct (Release file c s') as [c2 s2].
    destruct Hk as (K1 & K2 & K3). eexists _, _, _. split; [done|]. split; [done|]. split; [done|]. apply He; congruence. }
  destruct (operation r) eqn:Eop.
  - specialize (Hr ltac:(done)). destruct (execute_read_spec (pd_geometry d) fd r m s path Hg Hr Hfd) as (x & m' & s1 & -> & Eb & Ep & Ho & Hx).
    cbn [mbind option_bind]. apply Hrel; [done|]. intros c2 s2 Er Eb2. unfold request_effect. rewrite Eop. split; [|split; [done|]].
    + apply same_blocks; [done|congruence].
    + intros Hv i a Hi. rewrite (Hx Hv i a Hi). rewrite disk_block_at; [by rewrite A2|]. eapply range_block; [done|done|]. by eapply lookup_lt_Some.
  - specialize (Hr ltac:(done)). destruct (execute_write_spec (pd_geometry d) (sync_on_write d) fd r m s path Hg Hr Hfd) as (x & s1 & -> & Ep & Hoth & Hout & Hx).
    cbn [mbind option_bind]. rewrite A2 in *. apply Hrel; [done|]. intros c2 s2 Er Eb2. apply (write_effect d c2 s2 path file); try done; by rewrite Eb2.
  - destruct (fdatasync_law fd s) as [E1 E2]. destruct (sys_fdatasync fd s) as [y s1]. cbn in E1, E2. cbn [mbind option_bind].
    apply Hrel; [done|]. intros c2 s2 Er Eb2. unfold request_effect. rewrite Eop. split; [done|]. apply same_blocks; [done|congruence].
Qed.

(** C7 — A request of the POSIX backend does what it says, however short the
    transfers of the system calls and however often they are interrupted: it
    returns; a read that succeeds has filled every buffer with its block, zeros
    past the end of the file, and touched no other memory; a write that succeeds
    has stored every buffer in its block, and one that fails has touched no other
    block; a sync changes nothing. *)
Theorem posix_execute r m (d : posix S) :
  posix_ok d -> (operation r <> kSync -> request_fits (block_size (pd_geometry d)) r m) ->
  exists x m' d', Execute r m d = Some (x, m', d') /\ posix_ok d' /\ pd_geometry d' = pd_geometry d /\ request_effect r x m m' d d'.
Proof. apply execute_spec. Qed.
End Requests.
