(* ===== verification/PosixQueue.v ===== *)
(** Requests of the POSIX backend: [Submit], [Reap], [Shutdown] and the workers of
    [lib/io/posix_disk_backend.cc].

    Threads submit, reap, shut the backend down and run the worker loop, one
    section under the latch, one request or one notification at a time, in any
    order; sleepers may also wake by themselves.  [q_accepted], [q_delivered] and
    [q_loud] record, for the statements only, the accepted requests, the
    completions that were reaped, and which waiting completions were announced.
    The theorems: every accepted request is completed exactly once, a blocked call
    of [Reap] gives up only when everything was delivered, and nobody sleeps while
    there is work for it.

    [executing_] is an integer: it counts threads. *)
From stdpp Require Import strings.
From S2P Require Import Prelude Status Layout IoEngine FdCache PosixDisk.

Definition ValidateDiskRequest (r : DiskRequest) (max_request_blocks : Z) : Status :=
  match operation r with
  | kSync => Ok tt
  | _ =>
      if (block_count r =? 0) || (max_request_blocks <? block_count r) then InvalidArgument "disk request block count is out of range"
      else if existsb (fun a => a =? 0) (take (Z.to_nat (block_count r)) (buffers r)) then InvalidArgument "disk request buffer must not be null"
      else Ok tt
  end.

Section Queue.
Context {S : Type} `{Posix S}.

Record queue := Queue {
  q_disk : posix S;
  q_memory : Z -> list Byte.byte;
  q_pending : list DiskRequest;
  q_completed : list DiskCompletion;
  q_executing : Z;
  q_shutdown : bool;
  q_accepted : list Z;
  q_delivered : list DiskCompletion;
  q_loud : list bool
}.

Definition NewQueue (d : posix S) (m : Z -> list Byte.byte) : queue := Queue d m [] [] 0 false [] [] [].

(** ** Sections under the latch *)

Definition IsDrainedLocked (q : queue) : bool :=
  q_shutdown q && match q_pending q with [] => true | _ => false end && (q_executing q =? 0).

Definition push_pending (r : DiskRequest) (q : queue) : queue :=
  Queue (q_disk q) (q_memory q) (q_pending q ++ [r]) (q_completed q) (q_executing q) (q_shutdown q)
    (q_accepted q ++ [token r]) (q_delivered q) (q_loud q).

(** [++executing_] for a request that is run by its submitter. *)
Definition start_now (r : DiskRequest) (q : queue) : queue :=
  Queue (q_disk q) (q_memory q) (q_pending q) (q_completed q) (q_executing q + 1) (q_shutdown q)
    (q_accepted q ++ [token r]) (q_delivered q) (q_loud q).

(** A worker takes the first pending request. *)
Definition start_pending (rest : list DiskRequest) (q : queue) : queue :=
  Queue (q_disk q) (q_memory q) rest (q_completed q) (q_executing q + 1) (q_shutdown q) (q_accepted q) (q_delivered q) (q_loud q).

(** The state after [PushCompletion], and whether it notifies. *)
Definition PushCompletion (c : DiskCompletion) (wake_reapers : bool) (q : queue) : queue * bool :=
  let q := Queue (q_disk q) (q_memory q) (q_pending q) (q_completed q ++ [c]) (q_executing q - 1) (q_shutdown q)
             (q_accepted q) (q_delivered q) (q_loud q ++ [wake_reapers]) in
  (q, wake_reapers || IsDrainedLocked q).

Definition take_completed (n : nat) (q : queue) : list DiskCompletion * queue :=
  (take n (q_completed q),
   Queue (q_disk q) (q_memory q) (q_pending q) (drop n (q_completed q)) (q_executing q) (q_shutdown q)
     (q_accepted q) (q_delivered q ++ take n (q_completed q)) (drop n (q_loud q))).

Definition set_shutdown (q : queue) : queue :=
  Queue (q_disk q) (q_memory q) (q_pending q) (q_completed q) (q_executing q) true (q_accepted q) (q_delivered q) (q_loud q).

Definition set_io (m : Z -> list Byte.byte) (d : posix S) (q : queue) : queue :=
  Queue d m (q_pending q) (q_completed q) (q_executing q) (q_shutdown q) (q_accepted q) (q_delivered q) (q_loud q).

Definition CheckRequest (r : DiskRequest) (q : queue) : Status :=
  if String.eqb (root_path (pd_files (q_disk q))) "" then InvalidArgument "disk backend root path must not be empty"
  else ValidateDiskRequest r kMaxDiskRequestBlocks.

(** ** Threads *)

(** Who runs a request: a submitter with the rest of its call, or a worker. *)
Inductive runner := RSubmit (rest : list DiskRequest) (accepted : nat) | RWorker.

Inductive outcome := Submitted (r : Result nat) | Reaped (r : Result (list DiskCompletion)) | ShutDown | Ended.

Inductive qpc :=
  | QSubmit (rest : list DiskRequest) (m : DiskSubmitMode) (accepted : nat)
  | QExecute (r : DiskRequest) (k : runner)
  | QPush (c : DiskCompletion) (k : runner)
  | QNotify (k : runner)
  | QReap (n : nat) (wait : bool)
  | QReapSleep (n : nat)
  | QWork
  | QWorkSleep
  | QCloseIdle
  | QShutdown
  | QShutWorkers
  | QShutReapers
  | QDone (r : outcome).

Inductive wakeup := NoWake | WakeReapers | WakeOneWorker | WakeWorkers.

Definition qresume (k : runner) : qpc :=
  match k with RSubmit rest accepted => QSubmit rest kWait (Datatypes.S accepted) | RWorker => QWork end.

(** What [Submit] returns when a request is not accepted. *)
Definition stop_submit (accepted : nat) (refusal : Result nat) : qpc :=
  QDone (Submitted (if (accepted =? 0)%nat then refusal else Ok accepted)).

(** One step of a thread; [None] when it sleeps or has returned. *)
Definition qstep (t : qpc) (q : queue) : option (qpc * queue * wakeup) :=
  match t with
  | QSubmit [] _ accepted => Some (QDone (Submitted (Ok accepted)), q, NoWake)
  | QSubmit (r :: rest) m accepted =>
      match CheckRequest r q with
      | Err e => Some (stop_submit accepted (Err e), q, NoWake)
      | Ok _ =>
          if q_shutdown q then Some (stop_submit accepted (Unavailable "disk backend is shutting down" 0), q, NoWake)
          else match m with
               | kAsync => Some (QSubmit rest m (Datatypes.S accepted), push_pending r q, WakeOneWorker)
               | kWait => Some (QExecute r (RSubmit rest accepted), start_now r q, NoWake)
               end
      end
  | QExecute r k =>
      '(status, m, d) ← Execute r (q_memory q) (q_disk q);
      Some (QPush (token r, status) k, set_io m d q, NoWake)
  | QPush c k =>
      let '(q, notify) := PushCompletion c (match k with RWorker => true | _ => false end) q in
      Some (if notify then QNotify k else qresume k, q, NoWake)
  | QNotify k => Some (qresume k, q, WakeReapers)
  | QReap n wait =>
      match q_completed q with
      | [] =>
          if wait then
            if IsDrainedLocked q then Some (QDone (Reaped (Unavailable "disk backend is shutting down" 0)), q, NoWake)
            else Some (QReapSleep n, q, NoWake)
          else Some (QDone (Reaped (Ok [])), q, NoWake)
      | _ => let '(cs, q) := take_completed n q in Some (QDone (Reaped (Ok cs)), q, NoWake)
      end
  | QWork =>
      match q_pending q with
      | [] => Some (if q_shutdown q then QCloseIdle else QWorkSleep, q, NoWake)
      | r :: rest => Some (QExecute r RWorker, start_pending rest q, NoWake)
      end
  | QCloseIdle =>
      let '(c, s) := CloseIdle (pd_files (q_disk q)) (pd_os (q_disk q)) in
      Some (QDone Ended, set_io (q_memory q) (set_files c s (q_disk q)) q, NoWake)
  | QShutdown => Some (QShutWorkers, set_shutdown q, NoWake)
  | QShutWorkers => Some (QShutReapers, q, WakeWorkers)
  | QShutReapers => Some (QDone ShutDown, q, WakeReapers)
  | QReapSleep _ | QWorkSleep | QDone _ => None
  end.

Definition wake_reaper (t : qpc) : qpc := match t with QReapSleep n => QReap n true | _ => t end.
Definition wake_worker (t : qpc) : qpc := match t with QWorkSleep => QWork | _ => t end.

Record qsystem := QSystem { q_shared : queue; q_threads : gmap nat qpc }.

(** The threads after a notification. *)
Inductive woken : wakeup -> gmap nat qpc -> gmap nat qpc -> Prop :=
  | woken_none ts : woken NoWake ts ts
  | woken_reapers ts : woken WakeReapers ts (wake_reaper <$> ts)
  | woken_workers ts : woken WakeWorkers ts (wake_worker <$> ts)
  | woken_one ts j : ts !! j = Some QWorkSleep -> woken WakeOneWorker ts (<[j := QWork]> ts)
  | woken_nobody ts : (forall j, ts !! j <> Some QWorkSleep) -> woken WakeOneWorker ts ts.

Inductive queue_step : qsystem -> qsystem -> Prop :=
  | qstep_thread s i t t' q' w ts' :
      q_threads s !! i = Some t -> qstep t (q_shared s) = Some (t', q', w) -> woken w (<[i := t']> (q_threads s)) ts' ->
      queue_step s (QSystem q' ts')
  | qstep_spurious s i t :
      q_threads s !! i = Some t -> queue_step s (QSystem (q_shared s) (<[i := wake_reaper (wake_worker t)]> (q_threads s)))
  | qstep_submit s i reqs m : q_threads s !! i = None -> queue_step s (QSystem (q_shared s) (<[i := QSubmit reqs m 0]> (q_threads s)))
  | qstep_reap s i n wait : q_threads s !! i = None -> queue_step s (QSystem (q_shared s) (<[i := QReap n wait]> (q_threads s)))
  | qstep_shutdown s i : q_threads s !! i = None -> queue_step s (QSystem (q_shared s) (<[i := QShutdown]> (q_threads s))).

(** The constructor starts at least one worker. *)
Definition workers (io_worker_count : Z) : gmap nat qpc :=
  list_to_map ((fun i => (i, QWork)) <$> seq 0 (Z.to_nat (Z.max 1 io_worker_count))).

Definition queue_start (d : posix S) (m : Z -> list Byte.byte) (io_worker_count : Z) : qsystem :=
  QSystem (NewQueue d m) (workers io_worker_count).

Definition queue_reachable (d : posix S) (m : Z -> list Byte.byte) (io_worker_count : Z) (s : qsystem) : Prop :=
  rtc queue_step (queue_start d m io_worker_count) s.

(** ** Counting threads *)

Local Arguments weigh : simpl never.

Definition q_held (wt : Z -> Z) (t : qpc) : Z :=
  match t with QExecute r _ => wt (token r) | QPush c _ => wt c.1 | _ => 0 end.
Definition q_running (t : qpc) : Z := match t with QExecute _ _ | QPush _ _ => 1 | _ => 0 end.
Definition q_awake (t : qpc) : Z := match t with QWork | QExecute _ RWorker | QPush _ RWorker | QNotify RWorker => 1 | _ => 0 end.
Definition q_asleep (t : qpc) : Z := match t with QWorkSleep => 1 | _ => 0 end.
Definition q_reaping (t : qpc) : Z := match t with QReapSleep _ => 1 | _ => 0 end.
(** About to notify the reapers, or the workers. *)
Definition q_notifies (t : qpc) : Z := match t with QNotify _ | QShutWorkers | QShutReapers => 1 | _ => 0 end.
Definition q_calls (t : qpc) : Z := match t with QShutWorkers => 1 | _ => 0 end.

Record qinv (s : qsystem) : Prop := {
  v_flow wt : weigh wt (q_accepted (q_shared s)) = weigh wt (q_delivered (q_shared s)).*1 + weigh wt (q_completed (q_shared s)).*1 +
    weigh wt (token <$> q_pending (q_shared s)) + total (q_held wt) (q_threads s);
  v_exec : q_executing (q_shared s) = total q_running (q_threads s);
  v_loud : length (q_loud (q_shared s)) = length (q_completed (q_shared s));
  v_live : q_shutdown (q_shared s) = false -> 0 < total q_awake (q_threads s) + total q_asleep (q_threads s);
  v_pending : q_pending (q_shared s) <> [] -> 0 < total q_awake (q_threads s);
  v_stop : q_shutdown (q_shared s) = true -> 0 < total q_asleep (q_threads s) -> 0 < total q_calls (q_threads s);
  v_reap : 0 < total q_reaping (q_threads s) -> true ∈ q_loud (q_shared s) \/ IsDrainedLocked (q_shared s) = true ->
    0 < total q_notifies (q_threads s)
}.

Lemma q_signs t : 0 <= q_awake t /\ 0 <= q_asleep t /\ 0 <= q_reaping t /\ 0 <= q_notifies t /\ 0 <= q_calls t /\ 0 <= q_running t.
Proof. destruct t as [| ? [] | ? [] | [] | | | | | | | | |]; cbn; lia. Qed.

(** What a notification does to the counts. *)
Record woken_counts (w : wakeup) (ts ts' : gmap nat qpc) : Prop := {
  w_held wt : total (q_held wt) ts' = total (q_held wt) ts;
  w_running : total q_running ts' = total q_running ts;
  w_notifies : total q_notifies ts' = total q_notifies ts;
  w_calls : total q_calls ts' = total q_calls ts;
  w_workers : total q_awake ts' + total q_asleep ts' = total q_awake ts + total q_asleep ts;
  w_awake : total q_awake ts <= total q_awake ts';
  w_reaping : total q_reaping ts' <= total q_reaping ts;
  w_done : match w with
           | NoWake => True
           | WakeReapers => total q_reaping ts' = 0
           | WakeWorkers => total q_asleep ts' = 0
           | WakeOneWorker => 0 < total q_awake ts + total q_asleep ts -> 0 < total q_awake ts'
           end
}.

Lemma woken_total w ts ts' : woken w ts ts' -> woken_counts w ts ts'.
Proof.
  destruct 1 as [ts|ts|ts|ts j Hj|ts Hno].
  - done.
  - split; try (intros); try (apply total_fmap; by intros []); try (rewrite !total_fmap; [lia|by intros []..]).
    + rewrite (total_zero q_reaping (wake_reaper <$> ts)).
      * apply total_nonneg. intros t. apply q_signs.
      * intros i t. rewrite lookup_fmap. destruct (ts !! i) as [[]|]; intros [= <-]; done.
    + apply total_zero. intros i t. rewrite lookup_fmap. destruct (ts !! i) as [[]|]; intros [= <-]; done.
  - assert (total q_asleep (wake_worker <$> ts) = 0) as E0.
    { apply total_zero. intros i t. rewrite lookup_fmap. destruct (ts !! i) as [[]|]; intros [= <-]; done. }
    assert (total q_awake (wake_worker <$> ts) = total q_awake ts + total q_asleep ts) as E1.
    { clear E0. induction ts as [|i t ts Hi _ IH] using map_first_key_ind; [done|].
      rewrite fmap_insert, !total_insert_new by (rewrite ?lookup_fmap, ?Hi; done). rewrite IH.
      destruct t as [| ? [] | ? [] | [] | | | | | | | | |]; cbn; lia. }
    assert (0 <= total q_asleep ts) by (apply total_nonneg; intros t; apply q_signs).
    split; try (intros); try (apply total_fmap; by intros []); try lia.
    rewrite total_fmap; [done|by intros []].
  - assert (0 <= total q_awake ts) by (apply total_nonneg; intros t; apply q_signs).
    split; try (intros); rewrite ?(total_update _ ts j QWorkSleep) by done; cbn; lia.
  - split; try done. intros Hp. destruct (total_none q_asleep ts ltac:(intros t; apply q_signs)) as [?|(i & t & Hi & Ht)]; [lia|].
    destruct t; cbn in Ht; try lia. by destruct (Hno i).
Qed.

(** ** Every step keeps the invariant *)

(** A thread moves from [t] to [t'] and changes only what the counts say. *)
Lemma qinv_move s i t t' w ts' q' :
  qinv s -> q_threads s !! i = Some t -> woken w (<[i := t']> (q_threads s)) ts' ->
  let q := q_shared s in
  (forall wt, weigh wt (q_accepted q') - weigh wt (q_accepted q) =
     weigh wt (q_delivered q').*1 - weigh wt (q_delivered q).*1 + (weigh wt (q_completed q').*1 - weigh wt (q_completed q).*1) +
     (weigh wt (token <$> q_pending q') - weigh wt (token <$> q_pending q)) + (q_held wt t' - q_held wt t)) ->
  q_executing q' - q_executing q = q_running t' - q_running t ->
  length (q_loud q') = length (q_completed q') ->
  (q_shutdown q' = false -> q_shutdown q = false /\ q_awake t + q_asleep t = q_awake t' + q_asleep t') ->
  (q_pending q' <> [] -> (q_pending q <> [] /\ q_awake t <= q_awake t') \/ w = WakeOneWorker /\ q_shutdown q = false /\ q_awake t + q_asleep t = q_awake t' + q_asleep t') ->
  (q_shutdown q' = true -> w = WakeWorkers \/ 0 < q_calls t' \/ q_shutdown q = true /\ q_asleep t' <= q_asleep t /\ q_calls t <= q_calls t') ->
  (true ∈ q_loud q' \/ IsDrainedLocked q' = true -> w = WakeReapers \/ 0 < q_notifies t' \/
     (true ∈ q_loud q \/ IsDrainedLocked q = true) /\ q_reaping t' <= q_reaping t /\ q_notifies t <= q_notifies t') ->
  qinv (QSystem q' ts').
Proof.
  intros [I1 I2 I3 I4 I5 I6 I7] Hi Hw q C1 C2 C3 C4 C5 C6 C7. fold q in I1, I2, I3, I4, I5, I6, I7. apply woken_total in Hw as [W1 W2 W3 W4 W5 W6 W7 W8].
  assert (forall f, total f (<[i := t']> (q_threads s)) = total f (q_threads s) - f t + f t') as U by (intros f; by apply total_update).
  assert (forall f, (forall t, 0 <= f t) -> 0 <= total f (q_threads s) - f t) as G by (intros f Hf; pose proof (total_ge f (q_threads s) i t Hf Hi); lia).
  pose proof (U q_awake). pose proof (U q_asleep). pose proof (U q_running). pose proof (U q_notifies). pose proof (U q_calls). pose proof (U q_reaping).
  pose proof (G q_awake ltac:(intros; apply q_signs)). pose proof (G q_asleep ltac:(intros; apply q_signs)).
  pose proof (G q_calls ltac:(intros; apply q_signs)). pose proof (G q_notifies ltac:(intros; apply q_signs)).
  pose proof (q_signs t'). pose proof (q_signs t). split; cbn [q_shared q_threads].
  - intros wt. rewrite W1, U. specialize (C1 wt). specialize (I1 wt). lia.
  - lia.
  - done.
  - intros Hsd. destruct (C4 Hsd) as [Hsd' E]. specialize (I4 Hsd'). lia.
  - intros Hp. destruct (C5 Hp) as [[Hp' E]|(-> & Hsd & E)]; [specialize (I5 Hp'); lia|]. specialize (I4 Hsd). lia.
  - intros Hsd Hs. destruct (C6 Hsd) as [->|[?|(Hsd' & E1 & E2)]]; [lia|lia|]. specialize (I6 Hsd'). lia.
  - intros Hr Hd. destruct (C7 Hd) as [->|[?|(Hd' & E1 & E2)]]; [lia|lia|]. specialize (fun E => I7 E Hd'). lia.
Qed.
(** A step that changes none of the lists. *)
Lemma qinv_same s i t t' ts' m d :
  qinv s -> q_threads s !! i = Some t -> woken NoWake (<[i := t']> (q_threads s)) ts' ->
  (forall wt, q_held wt t' = q_held wt t) -> q_running t' = q_running t ->
  (q_shutdown (q_shared s) = false -> q_awake t + q_asleep t = q_awake t' + q_asleep t') ->
  (q_pending (q_shared s) <> [] -> q_awake t <= q_awake t') ->
  (q_shutdown (q_shared s) = true -> q_asleep t' <= q_asleep t) -> q_calls t <= q_calls t' ->
  (true ∈ q_loud (q_shared s) \/ IsDrainedLocked (q_shared s) = true -> q_reaping t' <= q_reaping t) -> q_notifies t <= q_notifies t' ->
  qinv (QSystem (set_io m d (q_shared s)) ts').
Proof.
  intros HI Hi Hw E1 E2 E3 E4 E5 E6 E7 E8. eapply qinv_move; [done|done|done|..]; cbn.
  - intros wt. rewrite E1. lia.
  - lia.
  - apply HI.
  - intros Hsd. split; [done|]. by apply E3.
  - intros Hp. left. split; [done|]. by apply E4.
  - intros Hsd. right. right. split; [done|]. split; [by apply E5|done].
  - intros Hd. right. right. split; [done|]. split; [by apply E7|done].
Qed.

Lemma weigh_snoc wt l t : weigh wt (l ++ [t]) = weigh wt l + wt t.
Proof. rewrite weigh_app. unfold weigh at 2. cbn. lia. Qed.

Lemma drained_shut q : IsDrainedLocked q = true -> q_shutdown q = true /\ q_pending q = [] /\ q_executing q = 0.
Proof.
  unfold IsDrainedLocked. intros [[E1 E2]%andb_true_iff E3%Z.eqb_eq]%andb_true_iff. by destruct (q_pending q).
Qed.

Lemma qinv_push s i c k ts' q' notify :
  qinv s -> q_threads s !! i = Some (QPush c k) ->
  PushCompletion c (match k with RWorker => true | _ => false end) (q_shared s) = (q', notify) ->
  woken NoWake (<[i := if notify then QNotify k else qresume k]> (q_threads s)) ts' -> qinv (QSystem q' ts').
Proof.
  intros HI Hi E Hw. pose proof (v_loud _ HI) as Hl. unfold PushCompletion in E. set (loud := match k with RWorker => true | _ => false end) in *.
  set (q := q_shared s) in *. set (q1 := Queue _ _ _ _ _ _ _ _ _) in E. injection E as <- <-.
  assert (q_pending q1 = q_pending q /\ q_completed q1 = q_completed q ++ [c] /\ q_executing q1 = q_executing q - 1 /\ q_shutdown q1 = q_shutdown q /\
    q_accepted q1 = q_accepted q /\ q_delivered q1 = q_delivered q /\ q_loud q1 = q_loud q ++ [loud]) as (P1 & P2 & P3 & P4 & P5 & P6 & P7) by done. clearbody q1.
  assert (forall b, q_held b (if loud || IsDrainedLocked q1 then QNotify k else qresume k) = 0) as Eh by (intros b; destruct (_ || _), k; done).
  eapply qinv_move; [done|exact Hi|exact Hw|..]; fold q; rewrite ?P1, ?P2, ?P3, ?P4, ?P5, ?P6, ?P7; cbn [q_held q_running q_awake q_asleep q_reaping q_calls q_notifies].
  - intros wt. rewrite Eh, fmap_app. change (fst <$> [c]) with [c.1]. rewrite weigh_snoc. lia.
  - destruct (_ || _), k; cbn; lia.
  - rewrite !length_app. cbn. lia.
  - intros Hsd. split; [done|]. destruct (_ || _), k; cbn; lia.
  - intros Hp. left. split; [done|]. destruct (_ || _), k; cbn; lia.
  - intros Hsd. right. right. split; [done|]. destruct (_ || _), k; cbn; lia.
  - intros Hd. right. destruct loud eqn:El; cbn [orb]; [left; destruct k; cbn; lia|]. destruct (IsDrainedLocked q1) eqn:Ed; [left; destruct k; cbn; lia|].
    right. split; [|destruct k; cbn; lia]. destruct Hd as [Hd|Hd]; [|done]. left. apply elem_of_app in Hd as [?|Hd]; [done|].
    by apply list_elem_of_singleton in Hd.
Qed.
Lemma qinv_step_thread s i t t' q' w ts' :
  qinv s -> q_threads s !! i = Some t -> qstep t (q_shared s) = Some (t', q', w) -> woken w (<[i := t']> (q_threads s)) ts' ->
  qinv (QSystem q' ts').
Proof.
  intros HI Hi Hs Hw. set (q := q_shared s) in *. assert (forall m d, q_disk q = d -> q_memory q = m -> set_io m d q = q) as Eio by (intros ?? <- <-; by destruct q).
  pose proof (v_loud _ HI) as Hl. fold q in Hl. destruct t as [rest m acc|r k|c k|k|n wait|n| | | | | | |r]; cbn [qstep] in Hs.
  - destruct rest as [|r rest].
    { injection Hs as <- <- <-. rewrite <- (Eio _ _ eq_refl eq_refl). eapply qinv_same; try done. }
    destruct (CheckRequest r q) as [[]|e]; [|injection Hs as <- <- <-; rewrite <- (Eio _ _ eq_refl eq_refl); by eapply qinv_same].
    destruct (q_shutdown q) eqn:Esd; [injection Hs as <- <- <-; rewrite <- (Eio _ _ eq_refl eq_refl); by eapply qinv_same|].
    destruct m; injection Hs as <- <- <-; eapply qinv_move; try done; fold q; cbn; rewrite ?Esd; try done; try lia.
    + intros wt. rewrite weigh_snoc. lia.
    + intros Hp. left. done.
    + intros [Hd|[Hd _]%drained_shut]; [|cbn in Hd; congruence]. right. right. split; [by left|lia].
    + intros wt. rewrite fmap_app. change (token <$> [r]) with [token r]. rewrite !weigh_snoc. lia.
    + intros _. right. split; [done|]. done.
    + intros [Hd|[Hd _]%drained_shut]; [|cbn in Hd; congruence]. right. right. split; [by left|lia].
  - destruct (Execute r _ _) as [[[x m] d]|]; [|done]. injection Hs as <- <- <-. eapply qinv_same; try done; destruct k; done.
  - destruct (PushCompletion c _ q) as [q1 notify] eqn:Ep. injection Hs as <- <- <-. by eapply qinv_push.
  - injection Hs as <- <- <-. eapply qinv_move; try done; fold q; destruct k; cbn; try done; try lia; try (intros; left; done); intros; right; right; split; done.
  - destruct (q_completed q) as [|c cs] eqn:Ec.
    + assert (q_loud q = []) as El by (destruct (q_loud q); done).
      destruct wait; [destruct (IsDrainedLocked q) eqn:Ed|]; injection Hs as <- <- <-; rewrite <- (Eio _ _ eq_refl eq_refl); eapply qinv_same; try done.
      fold q. rewrite El, Ed. intros [?%not_elem_of_nil|?]; done.
    + unfold take_completed in Hs. injection Hs as <- <- <-. rewrite <- Ec in *. eapply qinv_move; try done; fold q; cbn; try done; try lia.
      * intros wt. assert (weigh wt (q_completed q).*1 = weigh wt (take n (q_completed q)).*1 + weigh wt (drop n (q_completed q)).*1) as ->
          by (rewrite <- weigh_app, <- fmap_app; by rewrite take_drop).
        rewrite fmap_app, weigh_app. lia.
      * rewrite !length_drop. lia.
      * intros Hp. by left.
      * intros Hsd. right. right. done.
      * intros Hd. right. right. split; [|done]. destruct Hd as [Hd|Hd]; [left|by right]. apply list_elem_of_In. apply list_elem_of_In in Hd.
        rewrite <- (take_drop n (q_loud q)). apply in_or_app. by right.
  - done.
  - destruct (q_pending q) as [|r rest] eqn:Ep.
    + injection Hs as <- <- <-. rewrite <- (Eio _ _ eq_refl eq_refl). eapply qinv_same; try done; fold q; rewrite ?Ep; destruct (q_shutdown q); done.
    + injection Hs as <- <- <-. eapply qinv_move; try done; fold q; cbn; try done; try lia.
      * intros wt. rewrite Ep. cbn. unfold weigh. cbn. lia.
      * intros _. left. by rewrite Ep.
      * intros Hsd. right. right. done.
      * intros Hd. right. right. split; [|done]. destruct Hd as [Hd|Hd]; [by left|]. apply drained_shut in Hd as (_ & _ & Hd). cbn in Hd.
        pose proof (v_exec _ HI) as He. pose proof (total_nonneg q_running (q_threads s) ltac:(intros; apply q_signs)). fold q in He. lia.
  - done.
  - destruct (CloseIdle _ _) as [c st]. injection Hs as <- <- <-. eapply qinv_same; done.
  - injection Hs as <- <- <-. eapply qinv_move; try done; fold q; cbn; try done; try lia.
    intros Hp. by left.
  - injection Hs as <- <- <-. eapply qinv_move; try done; fold q; cbn; try done; try lia; intros; try (by left); right; left; lia.
  - injection Hs as <- <- <-. eapply qinv_move; try done; fold q; cbn; try done; try lia; intros; try (by left). right. right. split; [done|lia].
  - done.
Qed.
Lemma qinv_spawn s i t :
  qinv s -> q_threads s !! i = None -> (forall wt, q_held wt t = 0) ->
  q_running t = 0 -> q_awake t = 0 -> q_asleep t = 0 -> q_reaping t = 0 -> q_notifies t = 0 -> q_calls t = 0 ->
  qinv (QSystem (q_shared s) (<[i := t]> (q_threads s))).
Proof.
  intros [I1 I2 I3 I4 I5 I6 I7] Hi E0 E1 E2 E3 E4 E5 E6.
  assert (forall f, f t = 0 -> total f (<[i := t]> (q_threads s)) = total f (q_threads s)) as U by (intros f Ef; by rewrite total_insert_new, Ef).
  split; cbn [q_shared q_threads]; rewrite ?(U q_running), ?(U q_awake), ?(U q_asleep), ?(U q_reaping), ?(U q_notifies), ?(U q_calls) by done; try done.
  intros wt. by rewrite U.
Qed.

Lemma qinv_step s s' : qinv s -> queue_step s s' -> qinv s'.
Proof.
  intros HI Hs. destruct Hs as [s i t t' q' w ts' Hi Hq Hw|s i t Hi|s i reqs m Hi|s i n wait Hi|s i Hi]; try by apply qinv_spawn.
  - by eapply qinv_step_thread.
  - replace (q_shared s) with (set_io (q_memory (q_shared s)) (q_disk (q_shared s)) (q_shared s)) by by destruct (q_shared s).
    eapply (qinv_same s i t); [done|done|constructor|..]; by destruct t.
Qed.

Lemma workers_work n i t : workers n !! i = Some t -> t = QWork.
Proof. intros Hi%elem_of_list_to_map_2. apply list_elem_of_fmap in Hi as (j & [= _ ->] & _). done. Qed.

Lemma workers_first n : workers n !! 0%nat = Some QWork.
Proof.
  unfold workers. replace (Z.to_nat (Z.max 1 n)) with (Datatypes.S (Z.to_nat (Z.max 1 n) - 1)) by lia.
  cbn [seq fmap list_fmap list_to_map foldr]. apply lookup_insert_eq.
Qed.

Lemma qinv_start d m n : qinv (queue_start d m n).
Proof.
  assert (forall f, f QWork = 0 -> total f (workers n) = 0) as Hz by (intros f E; apply total_zero; intros i t Hi; by rewrite (workers_work n i t Hi)).
  assert (0 < total q_awake (workers n)) as Ha.
  { pose proof (total_ge q_awake (workers n) 0%nat QWork ltac:(intros; apply q_signs) (workers_first n)) as Hge. cbn in Hge. lia. }
  split; cbn [queue_start q_shared q_threads NewQueue q_accepted q_delivered q_completed q_pending q_executing q_shutdown q_loud]; try done.
  - intros wt. rewrite Hz by done. done.
  - by rewrite Hz.
  - intros _. rewrite (Hz q_asleep) by done. lia.
  - rewrite Hz by done. lia.
Qed.

Lemma qinv_reachable d m n s : queue_reachable d m n s -> qinv s.
Proof.
  unfold queue_reachable. pose proof (qinv_start d m n) as HI. revert HI. generalize (queue_start d m n). intros s0 HI Hr.
  induction Hr as [s0|s0 s1 s2 Hs _ IH]; [done|]. apply IH. by eapply qinv_step.
Qed.

(** The requests with token [w] that are pending, running, or complete and not
    yet reaped. *)
Definition outstanding_for (w : Z) (s : qsystem) : Z :=
  occurrences w (q_completed (q_shared s)).*1 + occurrences w (token <$> q_pending (q_shared s)) +
  total (q_held (fun t => b2z (bool_decide (t = w)))) (q_threads s).

Lemma outstanding_nonneg w s : 0 <= outstanding_for w s.
Proof.
  unfold outstanding_for, occurrences. assert (forall l, 0 <= weigh (fun t => b2z (bool_decide (t = w))) l) as Hw by (intros; apply weigh_nonneg; intros; apply b2z_bound).
  assert (0 <= total (q_held (fun t => b2z (bool_decide (t = w)))) (q_threads s)).
  { apply total_nonneg. intros []; cbn; try lia; apply b2z_bound. }
  pose proof (Hw (q_completed (q_shared s)).*1). pose proof (Hw (token <$> q_pending (q_shared s))). lia.
Qed.

(** C9 — The POSIX backend completes every accepted request exactly once: however
    submitters, workers, reapers and shutdowns interleave, the accepted requests
    are at any time those whose completions were reaped plus those pending,
    running or waiting to be reaped; and a blocked [Reap] reports that the backend
    is shutting down only when the completions reaped are all the requests
    accepted. *)
Theorem posix_exactly_once d m n s :
  queue_reachable d m n s ->
  (forall w, occurrences w (q_accepted (q_shared s)) = occurrences w (q_delivered (q_shared s)).*1 + outstanding_for w s /\ 0 <= outstanding_for w s) /\
  (forall i k e q' wk, q_threads s !! i = Some (QReap k true) -> qstep (QReap k true) (q_shared s) = Some (QDone (Reaped (Err e)), q', wk) ->
     q_accepted (q_shared s) ≡ₚ (q_delivered (q_shared s)).*1).
Proof.
  intros HI%qinv_reachable. split.
  - intros w. split; [|apply outstanding_nonneg]. pose proof (v_flow _ HI (fun t => b2z (bool_decide (t = w)))) as Hf.
    unfold outstanding_for, occurrences. lia.
  - intros i k e q' wk _ Hs. cbn [qstep] in Hs. destruct (q_completed (q_shared s)) eqn:Ec; [|by destruct (take_completed _ _)].
    destruct (IsDrainedLocked (q_shared s)) eqn:Ed; [|done]. apply drained_shut in Ed as (_ & Ep & Ee).
    apply occurrences_perm. intros w. pose proof (v_flow _ HI (fun t => b2z (bool_decide (t = w)))) as Hf. rewrite Ec, Ep in Hf. unfold occurrences.
    rewrite (total_zero (q_held _)) in Hf; [unfold weigh in *; cbn in *; lia|].
    intros j t Hj. pose proof (v_exec _ HI) as He. pose proof (total_ge q_running (q_threads s) j t ltac:(intros; apply q_signs) Hj) as Hge.
    destruct t; cbn in *; try done; lia.
Qed.

(** C10 — Nobody sleeps while there is work for it and nobody to wake it: while
    requests are pending a worker is awake; a worker asleep after shutdown is about
    to be woken by the call that shuts the backend down; a reaper asleep while the
    completion of an asynchronous request waits, or when a backend that was shut
    down has nothing left to do, is about to be notified; and while a reaper sleeps
    after shutdown, somebody is about to notify it, or a worker is awake, or a
    request is being executed. *)
Theorem posix_never_stranded d m n s :
  queue_reachable d m n s ->
  (q_pending (q_shared s) <> [] -> exists i t, q_threads s !! i = Some t /\ q_awake t = 1) /\
  (forall i, q_shutdown (q_shared s) = true -> q_threads s !! i = Some QWorkSleep -> exists j, q_threads s !! j = Some QShutWorkers) /\
  (forall i k, q_threads s !! i = Some (QReapSleep k) -> true ∈ q_loud (q_shared s) \/ IsDrainedLocked (q_shared s) = true ->
     exists j t, q_threads s !! j = Some t /\ q_notifies t = 1) /\
  (forall i k, q_threads s !! i = Some (QReapSleep k) -> q_shutdown (q_shared s) = true ->
     exists j t, q_threads s !! j = Some t /\ (q_notifies t = 1 \/ q_awake t = 1 \/ q_running t = 1)).
Proof.
  intros HI%qinv_reachable.
  assert (forall g, (forall t, g t = 0 \/ g t = 1) -> 0 < total g (q_threads s) -> exists i t, q_threads s !! i = Some t /\ g t = 1) as Hex.
  { intros g Hg Ht. destruct (total_none g (q_threads s)) as [?|(i & t & Hi & Hp)]; [intros t; destruct (Hg t); lia|lia|].
    exists i, t. split; [done|]. destruct (Hg t); lia. }
  assert (q_pending (q_shared s) <> [] -> exists i t, q_threads s !! i = Some t /\ q_awake t = 1) as Hpend.
  { intros Hp. apply Hex; [|by apply v_pending]. intros t. destruct t as [| ? [] | ? [] | [] | | | | | | | | |]; cbn; auto. }
  assert (forall i k, q_threads s !! i = Some (QReapSleep k) -> true ∈ q_loud (q_shared s) \/ IsDrainedLocked (q_shared s) = true ->
    exists j t, q_threads s !! j = Some t /\ q_notifies t = 1) as Hreap.
  { intros i k Hi Hd. pose proof (total_ge q_reaping (q_threads s) i _ ltac:(intros; apply q_signs) Hi) as Hge. cbn in Hge.
    apply Hex; [|apply (v_reap _ HI); [lia|done]]. intros t. destruct t; cbn; auto. }
  split; [done|]. split; [|split; [done|]].
  - intros i Hsd Hi. pose proof (total_ge q_asleep (q_threads s) i _ ltac:(intros; apply q_signs) Hi) as Hge. cbn in Hge.
    destruct (Hex q_calls) as (j & t & Hj & Ht); [intros t; destruct t; cbn; auto|apply (v_stop _ HI Hsd); lia|]. exists j. by destruct t.
  - intros i k Hi Hsd. destruct (IsDrainedLocked (q_shared s)) eqn:Ed.
    { destruct (Hreap i k Hi) as (j & t & ? & ?); [by right|]. exists j, t. auto. }
    unfold IsDrainedLocked in Ed. rewrite Hsd in Ed. cbn [andb] in Ed.
    destruct (q_pending (q_shared s)) as [|rq rest] eqn:Ep; [|destruct Hpend as (j & t & ? & ?); [done|]; exists j, t; auto].
    cbn [andb] in Ed. apply Z.eqb_neq in Ed. rewrite (v_exec _ HI) in Ed.
    pose proof (total_nonneg q_running (q_threads s) ltac:(intros; apply q_signs)).
    destruct (Hex q_running) as (j & t & ? & ?); [intros t; destruct t; cbn; auto|lia|]. exists j, t. auto.
Qed.
(** ** The backend of the I/O engine *)

(** A request run to its completion. *)
Definition run_request (r : DiskRequest) (wake_reapers : bool) (q : queue) : queue :=
  let '(status, q) :=
    match Execute r (q_memory q) (q_disk q) with
    | Some (status, m, d) => (status, set_io m d q)
    | None => (IoError "no result" 0, q)
    end in
  (PushCompletion (token r, status) wake_reapers q).1.

Fixpoint submit_loop (requests : list DiskRequest) (m : DiskSubmitMode) (accepted : nat) (q : queue) : Result nat * queue :=
  match requests with
  | [] => (Ok accepted, q)
  | r :: rest =>
      match CheckRequest r q with
      | Err e => (if (accepted =? 0)%nat then Err e else Ok accepted, q)
      | Ok _ =>
          if q_shutdown q then (if (accepted =? 0)%nat then Unavailable "disk backend is shutting down" 0 else Ok accepted, q)
          else match m with
               | kAsync => submit_loop rest m (Datatypes.S accepted) (push_pending r q)
               | kWait => submit_loop rest m (Datatypes.S accepted) (run_request r false (start_now r q))
               end
      end
  end.

(** The calls of the backend as the engine makes them, each on its own; a worker
    runs one request when the backend advances. *)
#[export] Instance posix_requests : DiskBackend queue := {
  bk_submit requests m q := submit_loop requests m 0 q;
  bk_reap n wait q :=
    match qstep (QReap n wait) q with
    | Some (QDone (Reaped r), q', _) => Some (r, q')
    | _ => None
    end;
  bk_shutdown := set_shutdown;
  bk_advance q :=
    match q_pending q with
    | [] => q
    | r :: rest => run_request r true (start_pending rest q)
    end
}.

Definition waiting (q : queue) : list Z := (q_completed q).*1 ++ (token <$> q_pending q).

Lemma run_request_waiting r wake q : waiting (run_request r wake q) ≡ₚ token r :: waiting q.
Proof.
  unfold run_request. destruct (Execute _ _ _) as [[[x m] d]|]; unfold waiting; cbn; rewrite fmap_app, <- app_assoc; cbn;
    by rewrite <- Permutation_middle.
Qed.

Lemma submit_loop_waiting requests m acc q :
  let '(r, q') := submit_loop requests m acc q in
  match r with
  | Ok n => (acc <= n <= acc + length requests)%nat /\ waiting q' ≡ₚ (token <$> take (n - acc) requests) ++ waiting q
  | Err _ => acc = 0%nat /\ waiting q' = waiting q
  end.
Proof.
  assert (forall q, (acc <= acc <= acc + length requests)%nat /\ waiting q ≡ₚ (token <$> take (acc - acc) requests) ++ waiting q) as Hstop.
  { intros q0. split; [lia|]. by rewrite Nat.sub_diag. }
  revert acc q Hstop. induction requests as [|r rest IH]; intros acc q Hstop; cbn [submit_loop]; [apply Hstop|].
  destruct (CheckRequest r q) as [[]|e]; [|destruct (Nat.eqb_spec acc 0); [done|apply Hstop]].
  destruct (q_shutdown q); [destruct (Nat.eqb_spec acc 0); [done|apply Hstop]|].
  assert (forall q1, waiting q1 ≡ₚ token r :: waiting q ->
    let '(x, q') := submit_loop rest m (Datatypes.S acc) q1 in
    match x with
    | Ok n => (acc <= n <= acc + length (r :: rest))%nat /\ waiting q' ≡ₚ (token <$> take (n - acc) (r :: rest)) ++ waiting q
    | Err _ => acc = 0%nat /\ waiting q' = waiting q
    end) as Hnext.
  { intros q1 E. specialize (IH (Datatypes.S acc) q1). destruct (submit_loop rest m (Datatypes.S acc) q1) as [[n|e] q'].
    - destruct IH as [Hn Hp]; [intros q0; split; [lia|by rewrite Nat.sub_diag]|]. cbn [length]. split; [lia|].
      replace (n - acc)%nat with (Datatypes.S (n - Datatypes.S acc)) by lia. cbn [take fmap list_fmap app]. rewrite Hp, E. by rewrite Permutation_middle.
    - destruct IH as [? _]; [intros q0; split; [lia|by rewrite Nat.sub_diag]|done]. }
  destruct m; apply Hnext.
  - apply (run_request_waiting r false (start_now r q)).
  - unfold waiting. cbn. rewrite fmap_app, app_assoc. cbn. by rewrite (Permutation_app_comm _ [token r]).
Qed.

#[export] Program Instance posix_requests_laws : DiskBackendLaws queue := { outstanding := waiting }.
Next Obligation.
  intros requests m q. cbn [bk_submit posix_requests]. pose proof (submit_loop_waiting requests m 0 q) as Hl.
  destruct (submit_loop requests m 0 q) as [[n|e] q']; [|apply Hl]. destruct Hl as [Hn Hp]. rewrite Nat.sub_0_r in Hp. split; [lia|done].
Qed.
Next Obligation.
  intros n wait q. cbn [bk_reap posix_requests qstep]. destruct (q_completed q) as [|c cs] eqn:Ec.
  - destruct wait; [destruct (IsDrainedLocked q); done|]. split; [cbn; lia|done].
  - unfold take_completed. split; [rewrite length_take; lia|]. unfold waiting. cbn [q_completed q_pending].
    by rewrite app_assoc, <- fmap_app, take_drop.
Qed.
Next Obligation. done. Qed.
Next Obligation.
  intros q. cbn [bk_advance posix_requests]. destruct (q_pending q) as [|r rest] eqn:Ep; [done|].
  unfold run_request. destruct (Execute _ _ _) as [[[x m] d]|]; unfold waiting; cbn; rewrite fmap_app, <- app_assoc, Ep; done.
Qed.
(** ** Running a schedule *)

(** The first worker asleep, as [notify_one] may choose. *)
Definition sleeping_worker (ts : gmap nat qpc) : option nat :=
  fst <$> List.find (fun it : nat * qpc => match it.2 with QWorkSleep => true | _ => false end) (map_to_list ts).

Definition notify (w : wakeup) (ts : gmap nat qpc) : gmap nat qpc :=
  match w with
  | NoWake => ts
  | WakeReapers => wake_reaper <$> ts
  | WakeWorkers => wake_worker <$> ts
  | WakeOneWorker => match sleeping_worker ts with Some j => <[j := QWork]> ts | None => ts end
  end.

Lemma notify_woken w ts : woken w ts (notify w ts).
Proof.
  destruct w; cbn; try constructor. unfold sleeping_worker. destruct (List.find _ _) as [[j t]|] eqn:Ef; cbn.
  - apply List.find_some in Ef as [Hin Ht]. apply list_elem_of_In, elem_of_map_to_list in Hin. destruct t; try done. by constructor.
  - constructor. intros j Hj. eapply List.find_none in Ef; [|apply list_elem_of_In, elem_of_map_to_list; exact Hj]. done.
Qed.

Inductive qaction := DoStep (i : nat) | DoSubmit (i : nat) (reqs : list DiskRequest) (m : DiskSubmitMode) | DoReap (i n : nat) (wait : bool) | DoShutdown (i : nat).

Definition qact (s : qsystem) (a : qaction) : qsystem :=
  let spawn i t := match q_threads s !! i with None => QSystem (q_shared s) (<[i := t]> (q_threads s)) | Some _ => s end in
  match a with
  | DoStep i =>
      match t ← q_threads s !! i; qstep t (q_shared s) with
      | Some (t', q', w) => QSystem q' (notify w (<[i := t']> (q_threads s)))
      | None => s
      end
  | DoSubmit i reqs m => spawn i (QSubmit reqs m 0)
  | DoReap i n wait => spawn i (QReap n wait)
  | DoShutdown i => spawn i QShutdown
  end.

Lemma qact_steps s a : rtc queue_step s (qact s a).
Proof.
  destruct a as [i|i reqs m|i n wait|i]; cbn.
  2,3,4: destruct (q_threads s !! i) eqn:Hi; [done|]; apply rtc_once; by constructor.
  destruct (q_threads s !! i) as [t|] eqn:Hi; [|done]. cbn. destruct (qstep t (q_shared s)) as [[[t' q'] w]|] eqn:Hs; [|done].
  apply rtc_once. by eapply qstep_thread; [..|apply notify_woken].
Qed.

Lemma qacts_reachable d m n l : queue_reachable d m n (foldl qact (queue_start d m n) l).
Proof.
  unfold queue_reachable. generalize (queue_start d m n). intros s0. revert s0. induction l as [|a l IH]; intros s0; [done|].
  cbn [foldl]. etrans; [apply qact_steps|apply IH].
Qed.
End Queue.
