(* ===== verification/PosixBackend.v ===== *)
(** The POSIX backend keeps the contract of the buffer manager and the page cache.

    [posix_backend] is a state of the backend whose descriptors are open on their
    files.  A page is read or written with a request of one block that is executed
    at once, sizes are asked and set as [GetFileSize] and [SetFileSize] of
    [lib/io/posix_disk_backend.cc] do. *)
From Stdlib Require Import Strings.Byte FunctionalExtensionality.
From stdpp Require Import strings.
From S2P Require Import Prelude Bytes Status Layout FreeList PageTable Interfaces IoEngine FdCache PosixDisk.

Section Backend.
Context {S : Type} `{PosixLaws S}.

(** ** The descriptors stay in order, whatever the request *)

Lemma preadv_loop_paths fuel bs total base fd bufs k m (s : S) path x m' s' :
  fd_path s fd = Some path -> preadv_loop fuel bs total base fd bufs k m s = Some (x, m', s') -> fd_path s' = fd_path s.
Proof.
  revert k m s. induction fuel as [|fuel IH]; intros k m s Hfd; cbn [preadv_loop]; [done|].
  destruct (total <=? k); [congruence|]. pose proof (preadv_law fd (base + k) (iov_bytes (iovecs bs k bufs)) s path Hfd) as Hl.
  destruct (sys_preadv _ _ _ s) as [[[|b l]|e] s1]; destruct Hl as (_ & Ep & _); [congruence| |].
  - intros E. rewrite <- Ep. eapply IH; [by rewrite Ep|done].
  - destruct (e =? EINTR); [|congruence]. intros E. rewrite <- Ep. eapply IH; [by rewrite Ep|done].
Qed.

Lemma pwritev_loop_paths fuel bs total base fd bufs k m (s : S) path x s' :
  fd_path s fd = Some path -> pwritev_loop fuel bs total base fd bufs k m s = Some (x, s') -> fd_path s' = fd_path s.
Proof.
  revert k s. induction fuel as [|fuel IH]; intros k s Hfd; cbn [pwritev_loop]; [done|].
  destruct (total <=? k); [congruence|]. pose proof (pwritev_law fd (base + k) (gather (iovecs bs k bufs) m) s path Hfd) as Hl.
  destruct (sys_pwritev _ _ _ s) as [[n|e] s1]; destruct Hl as (Ep & _).
  - destruct (n =? 0); [congruence|]. intros E. rewrite <- Ep. eapply IH; [by rewrite Ep|done].
  - destruct (e =? EINTR); [|congruence]. intros E. rewrite <- Ep. eapply IH; [by rewrite Ep|done].
Qed.

Lemma execute_read_paths g fd r m (s : S) path x m' s' :
  fd_path s fd = Some path -> ExecuteRead g fd r m s = Some (x, m', s') -> fd_path s' = fd_path s.
Proof.
  intros Hfd. unfold ExecuteRead. destruct (preadv_loop _ _ _ _ _ _ _ _ _) as [[[y m1] s1]|] eqn:E; [|done]. cbn [mbind option_bind].
  apply (preadv_loop_paths _ _ _ _ _ _ _ _ _ path) in E; [|done]. destruct y; congruence.
Qed.

Lemma execute_write_paths g sync fd r m (s : S) path x s' :
  fd_path s fd = Some path -> ExecuteWrite g sync fd r m s = Some (x, s') -> fd_path s' = fd_path s.
Proof.
  intros Hfd. unfold ExecuteWrite. destruct (pwritev_loop _ _ _ _ _ _ _ _ _) as [[y s1]|] eqn:E; [|done]. cbn [mbind option_bind].
  apply (pwritev_loop_paths _ _ _ _ _ _ _ _ _ path) in E; [|done]. destruct y; [|congruence]. destruct sync; [|congruence].
  destruct (fdatasync_law fd s1) as [_ E2]. destruct (sys_fdatasync fd s1). cbn in E2. congruence.
Qed.

Lemma execute_ok r m (d : posix S) x m' d' :
  posix_ok d -> Execute r m d = Some (x, m', d') -> posix_ok d' /\ pd_geometry d' = pd_geometry d.
Proof.
  intros [Hg Hok]. unfold Execute. set (file := file_id (request_tag r)). pose proof (acquire_spec file (pd_files d) (pd_os d) Hok) as Ha.
  destruct (Acquire file (pd_files d) (pd_os d)) as [[[fd|e] c] s]; [|intros [= <- <- <-]; split; [split; [done|apply Ha]|done]].
  destruct (ac_fd _ _ _ _ _ _ Ha fd eq_refl) as [Hfd _].
  assert (forall y s1, fd_path s1 = fd_path s -> (let '(c, s) := Release file c s1 in Some (y, set_files c s d)) = Some (x, d') ->
    posix_ok d' /\ pd_geometry d' = pd_geometry d) as Hrel.
  { intros y s1 Ep. pose proof (release_keeps file c s1 (fds_ok_same c s s1 (ac_ok _ _ _ _ _ _ Ha) Ep)) as Hk.
    destruct (Release file c s1) as [c2 s2]. destruct Hk as (K1 & _). by intros [= <- <-]. }
  assert (forall y m1 s1, fd_path s1 = fd_path s -> (let '(c, s) := Release file c s1 in Some (y, m1, set_files c s d)) = Some (x, m', d') ->
    posix_ok d' /\ pd_geometry d' = pd_geometry d) as Hrel'.
  { intros y m1 s1 Ep E. apply (Hrel y s1 Ep). destruct (Release file c s1). by injection E as <- _ <-. }
  destruct (operation r).
  - destruct (ExecuteRead _ fd r m s) as [[[y m1] s1]|] eqn:E; [|done]. cbn [mbind option_bind]. apply Hrel'. by eapply execute_read_paths.
  - destruct (ExecuteWrite _ _ fd r m s) as [[y s1]|] eqn:E; [|done]. cbn [mbind option_bind]. apply Hrel'. by eapply execute_write_paths.
  - destruct (fdatasync_law fd s) as [_ E2]. destruct (sys_fdatasync fd s) as [y s1]. cbn [mbind option_bind]. by apply Hrel'.
Qed.

(** ** The backend of the buffer manager *)

Definition posix_backend (g : BlockGeometry) : Type := { d : posix S | posix_ok d /\ pd_geometry d = g }.

Context (g : BlockGeometry).

(** A state after a call that kept the descriptors in order. *)
Definition moved (b : posix_backend g) (d' : posix S) (Hd : posix_ok d' /\ pd_geometry d' = pd_geometry (`b)) : posix_backend g :=
  exist _ d' (conj (proj1 Hd) (eq_trans (proj2 Hd) (proj2 (proj2_sig b)))).

Definition block_request (op : DiskOperation) (t : BufferTag) : DiskRequest := MkRequest 0 op t 1 [1].

(** [Execute] on one page in memory. *)
Definition run_block (op : DiskOperation) (t : BufferTag) (p : list byte) (b : posix_backend g) : Status * list byte * posix_backend g :=
  let m := <[1 := p]> (fun _ => []) in
  match Execute (block_request op t) m (`b) as o return (Execute (block_request op t) m (`b) = o -> _) with
  | Some (x, m', d') => fun E => (x, m' 1, moved b d' (execute_ok _ _ _ _ _ _ (proj1 (proj2_sig b)) E))
  | None => fun _ => (IoError "no result" 0, p, b)
  end eq_refl.

Lemma run_block_spec op t p b :
  (op <> kSync -> block_ok (block_size g) t /\ length p = Z.to_nat (block_size g)) ->
  let '(x, p', b') := run_block op t p b in
  match op with
  | kRead => (forall u, disk_block (`b') u = disk_block (`b) u) /\ (has_value x = true -> p' = disk_block (`b) t)
  | kWrite => (forall u, u <> t -> disk_block (`b') u = disk_block (`b) u) /\ (has_value x = true -> disk_block (`b') t = p)
  | kSync => forall u, disk_block (`b') u = disk_block (`b) u
  end.
Proof.
  destruct b as [d [Hok Hg]]. intros Hop. unfold run_block. cbn [proj1_sig].
  set (m := <[1 := p]> _). destruct (execute_spec (block_request op t) m d Hok) as (x & m' & d' & E & _ & Eg & He).
  { intros Hne. cbn in Hne. destruct (Hop Hne) as [Hb Hl]. rewrite Hg. assert (geometry_ok g) as Hgo by (rewrite <- Hg; apply Hok).
    destruct (block_base g t Hgo Hb) as (Hbs & _). destruct Hb as [Hb1 Hb2]. split; cbn.
    - lia.
    - done.
    - unfold geometry_ok in Hgo. unfold block_size in *. rewrite Z.shiftl_1_l in *.
      assert (0 < 2 ^ block_shift g <= 2 ^ 22) by (split; [apply Z.pow_pos_nonneg; lia|apply Z.pow_le_mono_r; lia]).
      rewrite (u64_small (2 ^ block_shift g)) in * by (unfold is_u64, u64_mod; lia).
      assert (u64_mod = 2 ^ (64 - block_shift g) * 2 ^ block_shift g) as Em by (rewrite <- Z.pow_add_r by lia; unfold u64_mod; f_equal; lia).
      rewrite Em in Hb2 |- *. apply Z.mul_le_mono_nonneg_r; [lia|]. apply Z.mul_lt_mono_pos_r in Hb2; [lia|lia].
    - apply NoDup_singleton.
    - intros a [->|[]%not_elem_of_nil]%elem_of_cons. unfold m. by rewrite fn_lookup_insert. }
  generalize (execute_ok (block_request op t) m d). rewrite E. intros Ho. cbn [proj1_sig moved].
  unfold request_effect in He. cbn in He. destruct t as [tf tb]. rewrite Z.add_0_r in He || idtac.
  destruct op; cbn in *.
  - destruct He as (H1 & H2 & H3). split; [done|]. intros Hx. specialize (H3 Hx 0%nat 1 eq_refl). by rewrite Z.add_0_r in H3.
  - destruct He as (_ & H2 & H3). split.
    + intros u Hu. apply H2. intros [|i] Hi; [by rewrite Z.add_0_r|]. unfold used_buffers in Hi. rewrite length_take in Hi. cbn [length buffers block_request] in Hi. lia.
    + intros Hx. specialize (H3 Hx 0%nat 1 eq_refl). rewrite Z.add_0_r in H3. rewrite H3. unfold m. by rewrite fn_lookup_insert.
  - apply He.
Qed.

(** ** Sizes *)

Lemma fd_file_size_spec file c (s : S) : fds_ok c s ->
  let '(r, c', s') := FdFileSize file c s in
  fds_ok c' s' /\ fbyte s' = fbyte s /\ root_path c' = root_path c /\
  forall n, r = Ok n -> is_u64 n /\ forall pos, n <= pos -> fbyte s (file_path (root_path c) file) pos = x00.
Proof.
  intros Hok. unfold FdFileSize. pose proof (acquire_spec file c s Hok) as Ha.
  destruct (Acquire file c s) as [[[fd|e] c1] s1]; destruct Ha as [A1 A2 A3 _ A5 _ _ _]; [|done].
  destruct (A5 fd eq_refl) as [Hfd _]. pose proof (fstat_law fd s1 _ Hfd) as Hl. destruct (sys_fstat fd s1) as [r s2].
  destruct Hl as (Eb & Ep & Hn). pose proof (release_keeps file c1 s2 (fds_ok_same c1 s1 s2 A1 Ep)) as Hk.
  destruct (Release file c1 s2) as [c2 s3]. destruct Hk as (K1 & K2 & K3). split_and!; try done; try congruence.
  intros n. destruct r as [n'|e]; [|done]. intros [= ->]. rewrite A2 in Hn. by apply Hn.
Qed.

Lemma fd_set_size_spec file n c (s : S) : fds_ok c s ->
  let '(r, c', s') := FdSetFileSize file n c s in
  fds_ok c' s' /\ root_path c' = root_path c /\
  if has_value r then 0 <= to_off n /\ (forall path, path <> file_path (root_path c) file -> fbyte s' path = fbyte s path) /\
    forall pos, 0 <= pos -> fbyte s' (file_path (root_path c) file) pos =
      if decide (pos < to_off n) then fbyte s (file_path (root_path c) file) pos else x00
  else fbyte s' = fbyte s.
Proof.
  intros Hok. unfold FdSetFileSize. pose proof (acquire_spec file c s Hok) as Ha.
  destruct (Acquire file c s) as [[[fd|e] c1] s1]; destruct Ha as [A1 A2 A3 _ A5 _ _ _]; [|done].
  destruct (A5 fd eq_refl) as [Hfd _]. pose proof (ftruncate_law fd (to_off n) s1 _ Hfd) as Hl. destruct (sys_ftruncate fd _ s1) as [r s2].
  destruct Hl as (Ep & Hn). pose proof (release_keeps file c1 s2 (fds_ok_same c1 s1 s2 A1 Ep)) as Hk.
  destruct (Release file c1 s2) as [c2 s3]. destruct Hk as (K1 & K2 & K3). split; [done|]. split; [congruence|].
  rewrite A2 in Hn. rewrite K2. by destruct r.
Qed.

(** The state after a call of the descriptor cache. *)
Definition after_files {A : Type} (x : A * fd_cache * S) (b : posix_backend g) : posix S := set_files x.1.2 x.2 (`b).

Lemma fd_file_size_ok file (b : posix_backend g) (x := FdFileSize file (pd_files (`b)) (pd_os (`b))) :
  posix_ok (after_files x b) /\ pd_geometry (after_files x b) = pd_geometry (`b).
Proof.
  destruct b as [d [[Hg Hok] Eg]]. pose proof (fd_file_size_spec file _ _ Hok) as Hl. cbn [proj1_sig] in *. subst x.
  destruct (FdFileSize _ _ _) as [[r c] s]. split; [|done]. split; [done|apply Hl].
Qed.

Lemma fd_set_size_ok file n (b : posix_backend g) (x := FdSetFileSize file n (pd_files (`b)) (pd_os (`b))) :
  posix_ok (after_files x b) /\ pd_geometry (after_files x b) = pd_geometry (`b).
Proof.
  destruct b as [d [[Hg Hok] Eg]]. pose proof (fd_set_size_spec file n _ _ Hok) as Hl. cbn [proj1_sig] in *. subst x.
  destruct (FdSetFileSize _ _ _ _) as [[r c] s]. split; [|done]. split; [done|apply Hl].
Qed.

(** [GetFileSize] and [SetFileSize] of the backend ask the descriptor cache. *)
Definition get_file_size (file : Z) (b : posix_backend g) : Result Z * posix_backend g :=
  let x := FdFileSize file (pd_files (`b)) (pd_os (`b)) in (x.1.1, moved b (after_files x b) (fd_file_size_ok file b)).

Definition set_file_size (file n : Z) (b : posix_backend g) : Status * posix_backend g :=
  let x := FdSetFileSize file n (pd_files (`b)) (pd_os (`b)) in (x.1.1, moved b (after_files x b) (fd_set_size_ok file n b)).

(** ** Instances *)

Definition empty_block : list byte := replicate (Z.to_nat (block_size g)) x00.
(** A page in a buffer of one block. *)
Definition in_block (p : list byte) : list byte := take (Z.to_nat (block_size g)) (p ++ empty_block).

#[export] Instance posix_disk : Backend (posix_backend g) := {
  disk_read t b :=
    let '(x, p, b') := run_block kRead t empty_block b in
    (match x with Ok _ => Ok p | Err e => Err e end, b');
  disk_write t p b := let '(x, _, b') := run_block kWrite t (in_block p) b in (x, b');
  disk_sync file b := let '(x, _, b') := run_block kSync (MkTag file 0) empty_block b in (x, b')
}.

#[export] Instance posix_files : FileBackend (posix_backend g) := {
  GetFileSize := get_file_size;
  SetFileSize := set_file_size
}.

Lemma length_disk_block (b : posix_backend g) t : length (disk_block (`b) t) = Z.to_nat (block_size g).
Proof.
  destruct b as [d [Hok Eg]]. cbn [proj1_sig]. unfold disk_block. rewrite Eg. destruct (decide _).
  - rewrite length_fmap, length_seqZ. done.
  - apply length_replicate.
Qed.

#[export] Program Instance posix_disk_laws : BackendLaws (posix_backend g) := {
  contents b := disk_block (`b);
  addressable := block_ok (block_size g);
  page_fits p := length p = Z.to_nat (block_size g)
}.
Next Obligation. intros b t. apply length_disk_block. Qed.
Next Obligation.
  intros t b Ht. cbn [disk_read posix_disk]. pose proof (run_block_spec kRead t empty_block b) as Hr.
  destruct (run_block kRead t empty_block b) as [[x p] b']. destruct Hr as [E Hp]; [intros _; split; [done|apply length_replicate]|].
  split; [by apply functional_extensionality|]. destruct x as [[]|e]; [by apply Hp|done].
Qed.
Next Obligation.
  intros t p b Ht. cbn [disk_write posix_disk]. pose proof (run_block_spec kWrite t (in_block p) b) as Hr.
  destruct (run_block kWrite t (in_block p) b) as [[x p'] b']. destruct Hr as [E Hp].
  { intros _. split; [done|]. unfold in_block, empty_block. rewrite length_take, length_app, length_replicate. lia. }
  split; [done|]. destruct x as [[]|e]; [|done]. intros Hl. rewrite Hp by done. unfold in_block. by rewrite take_app_length'.
Qed.
Next Obligation.
  intros file b. cbn [disk_sync posix_disk]. pose proof (run_block_spec kSync (MkTag file 0) empty_block b) as Hr.
  destruct (run_block kSync _ empty_block b) as [[x p] b']. apply functional_extensionality. by apply Hr.
Qed.

Lemma get_file_size_spec file (b : posix_backend g) :
  let '(r, b') := get_file_size file b in
  (forall t, disk_block (`b') t = disk_block (`b) t) /\
  forall n, r = Ok n -> is_u64 n /\ forall pos, n <= pos -> fbyte (pd_os (`b)) (file_path (root_path (pd_files (`b))) file) pos = x00.
Proof.
  unfold get_file_size. destruct b as [d [[Hg Hok] Eg]]. cbn [proj1_sig moved]. pose proof (fd_file_size_spec file _ _ Hok) as Hl.
  unfold after_files. cbn [proj1_sig]. destruct (FdFileSize file (pd_files d) (pd_os d)) as [[r c] s]. destruct Hl as (_ & Eb & Er & Hn).
  split; [|done]. intros t. by apply same_blocks.
Qed.

(** Cutting a file cuts its blocks. *)
Lemma cut_block (d d' : posix S) n t :
  pd_geometry d = g -> pd_geometry d' = g -> 0 < block_size g -> root_path (pd_files d') = root_path (pd_files d) ->
  (forall pos, 0 <= pos -> fbyte (pd_os d') (file_path (root_path (pd_files d)) (file_id t)) pos =
     if decide (pos < n) then fbyte (pd_os d) (file_path (root_path (pd_files d)) (file_id t)) pos else x00) ->
  disk_block d' t = cut (block_size g) (n - block_id t * block_size g) (disk_block d t).
Proof.
  intros Eg Eg' Hbs Er Hp. unfold disk_block. rewrite Eg, Eg', Er. set (bs := block_size g) in *. destruct (decide _) as [[Hb _]|_].
  - set (f := fbyte (pd_os d) _) in *. set (f' := fbyte (pd_os d') _) in *. set (base := block_id t * bs) in *. assert (0 <= base) by (unfold base; nia).
    apply (list_eq_same_length _ _ (Z.to_nat bs)); [rewrite length_cut|..]; rewrite ?length_fmap, ?length_seqZ; try lia.
    intros i x y Hi Hx Hy. apply (nth_lookup_Some _ _ x00) in Hx, Hy. rewrite nth_cut in Hy by (rewrite ?length_fmap, ?length_seqZ; lia).
    rewrite nth_lookup, list_lookup_fmap, lookup_seqZ_lt in Hx, Hy by lia. cbn in Hx, Hy. subst x y. rewrite Hp by lia.
    destruct (decide (base + Z.of_nat i < n)), (decide (Z.of_nat i < n - base)); try done; lia.
  - unfold cut. rewrite take_replicate, <- replicate_add. f_equal. lia.
Qed.

Lemma set_file_size_spec file n (b : posix_backend g) : is_u64 n ->
  let '(r, b') := set_file_size file n b in
  if has_value r then forall t, disk_block (`b') t = cut_file (block_size g) file n t (disk_block (`b) t)
  else forall t, disk_block (`b') t = disk_block (`b) t.
Proof.
  intros Hn. unfold set_file_size. destruct b as [d [[Hg Hok] Eg]]. cbn [proj1_sig]. pose proof (fd_set_size_spec file n _ _ Hok) as Hl.
  unfold after_files. cbn [proj1_sig moved]. destruct (FdSetFileSize file n (pd_files d) (pd_os d)) as [[r c] s]. destruct Hl as (_ & Er & Hn').
  cbn [fst snd]. destruct (has_value r); [|intros t; by apply same_blocks]. destruct Hn' as (Hn0 & Hoth & Hpath).
  assert (to_off n = n) as En. { unfold to_off, is_u64 in *. destruct (n <? 2 ^ 63); lia. } rewrite En in *.
  intros t. unfold cut_file. destruct (Z.eqb_spec (file_id t) file) as [Ht|Ht].
  - apply cut_block; try done; [|by rewrite Ht]. rewrite <- Eg. apply (block_base (pd_geometry d) (MkTag 0 0) Hg). split; [done|]. cbn. by unfold u64_mod.
  - apply disk_block_same; [done|done|]. intros pos _. cbn. rewrite Hoth; [done|]. intros E. by apply file_path_inj in E.
Qed.

#[export] Program Instance posix_files_laws : FileBackendLaws (posix_backend g) (block_size g).
Next Obligation. intros file block _ Hb0 Hb. by split. Qed.
Next Obligation. done. Qed.
Next Obligation.
  intros file b. cbn [GetFileSize posix_files contents posix_disk_laws]. pose proof (get_file_size_spec file b) as Hg.
  destruct (get_file_size file b) as [r b']. destruct Hg as [E Hn]. split; [by apply functional_extensionality|].
  intros n En. destruct (Hn n En) as [Hu Hz]. split; [done|]. intros t Ht. unfold cut_file. rewrite Ht, Z.eqb_refl. symmetry.
  destruct b as [d [[Hg Hok] Eg]]. apply cut_block; try done.
  - apply (block_base g (MkTag 0 0)); [by rewrite <- Eg|]. split; [done|]. by unfold u64_mod.
  - intros pos Hp. cbn [proj1_sig] in *. destruct (decide (pos < n)); [done|]. rewrite Ht. apply Hz. lia.
Qed.
Next Obligation.
  intros file n b Hn. cbn [SetFileSize posix_files contents posix_disk_laws]. pose proof (set_file_size_spec file n b Hn) as Hs.
  destruct (set_file_size file n b) as [r b']. destruct (has_value r); [done|]. by apply functional_extensionality.
Qed.
End Backend.
