(* ===== verification/RamFiles.v ===== *)
(** A file system in memory with the system calls of [FdCache.Posix], and runs of
    the descriptor cache and of the POSIX backend on it.

    A plan says what happens to the next transfers: a signal interrupts one, or it
    stops after some bytes, or it fails. *)
From Stdlib Require Import Strings.Byte.
From stdpp Require Import strings.
From S2P Require Import Prelude Bytes Status Layout FreeList PageTable Interfaces IoEngine FdCache PosixDisk PosixQueue.

Inductive fate := Interrupt | Stop (n : nat) | Fault.

#[export] Instance fate_eq_dec : EqDecision fate.
Proof. solve_decision. Defined.

Record ram_files := RamFiles {
  os_files : gmap string (list byte);
  os_fds : gmap Z string;
  os_next : Z;
  os_plan : list fate
}.

Definition file_bytes (s : ram_files) (path : string) : list byte := default [] (os_files s !! path).
Definition next_fate (s : ram_files) : option fate := List.hd_error (os_plan s).
Definition end_fate (s : ram_files) : ram_files := RamFiles (os_files s) (os_fds s) (os_next s) (List.tl (os_plan s)).
Definition set_bytes (path : string) (l : list byte) (s : ram_files) : ram_files :=
  RamFiles (<[path := l]> (os_files s)) (os_fds s) (os_next s) (os_plan s).
Definition path_of (s : ram_files) (fd : Z) : option string := if fd <? os_next s then os_fds s !! fd else None.

Definition EBADF : Z := 9.
Definition EINVAL : Z := 22.
Definition EOVERFLOW : Z := 75.

(** [n] bytes at [offset], a hole read as zeros. *)
Definition put (offset : nat) (d l : list byte) : list byte :=
  take offset (l ++ replicate offset x00) ++ d ++ drop (offset + length d) l.

(** A transfer of at most [n] bytes: what happens to it, and how many bytes it may move. *)
Definition transfer (n : nat) (s : ram_files) : nat + Z :=
  match next_fate s with
  | None => inl n
  | Some Interrupt => inr EINTR
  | Some (Stop k) => inl (Nat.min n (Datatypes.S k))
  | Some Fault => inr EIO
  end.

#[export] Instance ram_posix : Posix ram_files := {
  sys_open path s := (inl (os_next s), RamFiles (os_files s) (<[os_next s := path]> (os_fds s)) (os_next s + 1) (os_plan s));
  sys_close fd s := RamFiles (os_files s) (delete fd (os_fds s)) (os_next s) (os_plan s);
  sys_preadv fd offset n s :=
    match path_of s fd with
    | None => (inr EBADF, s)
    | Some path =>
        if (offset <? 0) || (n <? 0) then (inr EINVAL, s)
        else match transfer (Z.to_nat n) s with
             | inr e => (inr e, end_fate s)
             | inl k => (inl (take k (drop (Z.to_nat offset) (file_bytes s path))), end_fate s)
             end
    end;
  sys_pwritev fd offset d s :=
    match path_of s fd with
    | None => (inr EBADF, s)
    | Some path =>
        if offset <? 0 then (inr EINVAL, s)
        else match transfer (length d) s with
             | inr e => (inr e, end_fate s)
             | inl k => (inl (Z.of_nat k), end_fate (set_bytes path (put (Z.to_nat offset) (take k d) (file_bytes s path)) s))
             end
    end;
  sys_fdatasync fd s := (inl tt, s);
  sys_fstat fd s :=
    match path_of s fd with
    | None => (inr EBADF, s)
    | Some path =>
        let n := Z.of_nat (length (file_bytes s path)) in
        (if n <? u64_mod then inl n else inr EOVERFLOW, s)
    end;
  sys_ftruncate fd n s :=
    match path_of s fd with
    | None => (inr EBADF, s)
    | Some path =>
        if n <? 0 then (inr EINVAL, s)
        else (inl tt, set_bytes path (take (Z.to_nat n) (file_bytes s path ++ replicate (Z.to_nat n) x00)) s)
    end;
  signals s := length (filter (fun f => f = Interrupt) (os_plan s))
}.

(** ** The laws *)

Definition ram_byte (s : ram_files) (path : string) (pos : Z) : byte := if pos <? 0 then x00 else nth (Z.to_nat pos) (file_bytes s path) x00.

Lemma nth_ge (l : list byte) i : (length l <= i)%nat -> nth i l x00 = x00.
Proof. intros Hl. rewrite nth_lookup, lookup_ge_None_2 by done. done. Qed.

(** A byte after writing. *)
Lemma nth_put offset d l i :
  nth i (put offset d l) x00 = if decide (offset <= i < offset + length d)%nat then nth (i - offset) d x00 else nth i l x00.
Proof.
  unfold put. assert (length (take offset (l ++ replicate offset x00)) = offset) as Hl by (rewrite length_take, length_app, length_replicate; lia).
  rewrite !nth_lookup. destruct (decide _) as [Hi|Hi].
  - rewrite lookup_app_r, Hl by lia. by rewrite lookup_app_l by lia.
  - destruct (decide (i < offset)%nat).
    + rewrite lookup_app_l by lia. rewrite lookup_take_lt by lia. destruct (decide (i < length l)%nat).
      * by rewrite lookup_app_l.
      * rewrite lookup_app_r by lia. rewrite lookup_replicate_2 by lia. by rewrite lookup_ge_None_2 by lia.
    + rewrite lookup_app_r, Hl by lia. rewrite lookup_app_r by lia. rewrite lookup_drop. do 2 f_equal. lia.
Qed.

Lemma end_fate_signals s : (signals (end_fate s) <= signals s)%nat.
Proof. cbn [signals ram_posix end_fate os_plan]. destruct (os_plan s) as [|f l]; [done|]. cbn [List.tl]. rewrite filter_cons. case_decide; cbn [length]; lia. Qed.

Lemma transfer_signals n s : transfer n s = inr EINTR -> (signals (end_fate s) < signals s)%nat.
Proof.
  unfold transfer, next_fate. cbn [signals ram_posix end_fate os_plan]. destruct (os_plan s) as [|[|k|] l]; [done| |done|done].
  cbn [List.tl]. rewrite filter_cons, decide_True by done. cbn [length]. lia.
Qed.

Lemma transfer_bound n s k : transfer n s = inl k -> (k <= n)%nat /\ (0 < n -> 0 < k)%nat.
Proof. unfold transfer. destruct (next_fate s) as [[|j|]|]; intros [= <-]; lia. Qed.

(** The bytes a read returns. *)
Lemma read_bytes s path offset k :
  0 <= offset -> let l := take k (drop (Z.to_nat offset) (file_bytes s path)) in
  l = ram_byte s path <$> seqZ offset (Z.of_nat (length l)).
Proof.
  intros Ho l. apply list_eq. intros i. rewrite list_lookup_fmap. destruct (decide (i < length l)%nat) as [Hi|Hi].
  - rewrite lookup_seqZ_lt by lia. cbn. unfold ram_byte. destruct (Z.ltb_spec (offset + Z.of_nat i) 0); [lia|].
    replace (Z.to_nat (offset + Z.of_nat i)) with (Z.to_nat offset + i)%nat by lia. unfold l in *. rewrite length_take in Hi.
    rewrite lookup_take_lt, lookup_drop by lia. rewrite nth_lookup. destruct (lookup_lt_is_Some_2 (file_bytes s path) (Z.to_nat offset + i)) as [x ->].
    { rewrite length_drop in Hi. lia. }
    done.
  - rewrite lookup_seqZ_ge by lia. apply lookup_ge_None. lia.
Qed.

Lemma set_bytes_other path l s other : other <> path -> ram_byte (set_bytes path l s) other = ram_byte s other.
Proof. intros Hne. unfold ram_byte, file_bytes. cbn. by rewrite lookup_insert_ne. Qed.

Lemma set_bytes_at path l s pos : 0 <= pos -> ram_byte (set_bytes path l s) path pos = nth (Z.to_nat pos) l x00.
Proof. intros Hp. unfold ram_byte, file_bytes. cbn. destruct (Z.ltb_spec pos 0); [lia|]. by rewrite lookup_insert_eq. Qed.

Lemma set_bytes_before path l s pos : pos < 0 -> ram_byte (set_bytes path l s) path pos = ram_byte s path pos.
Proof. intros Hp. unfold ram_byte. by destruct (Z.ltb_spec pos 0); [|lia]. Qed.

#[export] Program Instance ram_posix_laws : PosixLaws ram_files := { fbyte := ram_byte; fd_path := path_of }.
Next Obligation.
  intros path s. cbn. split; [done|]. split.
  - unfold path_of. by rewrite Z.ltb_irrefl.
  - intros g. unfold path_of. cbn. destruct (decide (g = os_next s)) as [->|Hne].
    + rewrite lookup_insert_eq. destruct (Z.ltb_spec (os_next s) (os_next s + 1)); [done|lia].
    + rewrite lookup_insert_ne by done. destruct (Z.ltb_spec g (os_next s)), (Z.ltb_spec g (os_next s + 1)); try done; lia.
Qed.
Next Obligation. intros fd s. cbn. split; [done|]. intros g Hg. unfold path_of. cbn. by rewrite lookup_delete_ne. Qed.
Next Obligation.
  intros fd offset n s path Hfd. cbn. rewrite Hfd. destruct (Z.ltb_spec offset 0), (Z.ltb_spec n 0); try done. cbn [orb].
  destruct (transfer (Z.to_nat n) s) as [k|e] eqn:Et; (split; [done|]; split; [done|]).
  - destruct (transfer_bound _ _ _ Et) as [Hk Hk']. split; [apply end_fate_signals|]. split; [done|]. split; [rewrite length_take; lia|].
    split; [by apply read_bytes|]. intros E Hn pos Hp. unfold ram_byte. destruct (Z.ltb_spec pos 0); [done|]. apply nth_ge.
    apply (f_equal length) in E. rewrite length_take, length_drop in E. cbn in E. lia.
  - intros ->. by eapply transfer_signals.
Qed.
Next Obligation.
  intros fd offset d s path Hfd. cbn. rewrite Hfd. destruct (Z.ltb_spec offset 0); [done|].
  destruct (transfer (length d) s) as [k|e] eqn:Et; (split; [done|]).
  - destruct (transfer_bound _ _ _ Et) as [Hk _]. split; [by intros other Ho; apply set_bytes_other|].
    split; [apply (end_fate_signals s)|]. split; [done|]. split; [lia|]. intros pos.
    set (l := put _ _ _). change (ram_byte (end_fate (set_bytes path l s)) path pos) with (ram_byte (set_bytes path l s) path pos). destruct (Z.ltb_spec pos 0) as [Hp|Hp].
    { rewrite set_bytes_before by done. by rewrite decide_False by lia. }
    unfold l. rewrite set_bytes_at, nth_put, length_take by done. unfold ram_byte at 1. destruct (Z.ltb_spec pos 0); [lia|].
    destruct (decide (_ <= _ < _)%nat), (decide (_ <= pos < _)); try lia; [|done]. rewrite !nth_lookup, lookup_take_lt by lia. do 2 f_equal. lia.
  - split; [done|]. split; [|done]. intros ->. split; [by eapply transfer_signals|done].
Qed.
Next Obligation. done. Qed.
Next Obligation.
  intros fd s path Hfd. cbn. rewrite Hfd. split; [done|]. split; [done|]. intros n. destruct (Z.ltb_spec (Z.of_nat (length (file_bytes s path))) u64_mod); [|done].
  intros [= <-]. split; [unfold is_u64; lia|]. intros pos Hp. unfold ram_byte. destruct (Z.ltb_spec pos 0); [done|]. apply nth_ge. lia.
Qed.
Next Obligation.
  intros fd n s path Hfd. cbn. rewrite Hfd. destruct (Z.ltb_spec n 0); [done|]. split; [done|]. split; [done|].
  split; [by intros other Ho; apply set_bytes_other|]. intros pos Hp. rewrite set_bytes_at by done.
  unfold ram_byte. destruct (Z.ltb_spec pos 0); [lia|]. destruct (decide (pos < n)).
  - rewrite !nth_lookup, lookup_take_lt by lia. destruct (decide (Z.to_nat pos < length (file_bytes s path))%nat).
    + by rewrite lookup_app_l.
    + rewrite lookup_app_r, lookup_replicate_2 by lia. by rewrite lookup_ge_None_2 by lia.
  - apply nth_ge. rewrite length_take. lia.
Qed.

(** ** Runs *)

Definition empty_files (plan : list fate) : ram_files := RamFiles ∅ ∅ 3 plan.

(** Two descriptors: the third file evicts the one that is idle, and the one in
    use stays. *)
Definition fd_calls : list fd_op :=
  [OpAcquire 7; OpAcquire 8; OpRelease 8; OpAcquire 9; OpCloseIdle; OpAcquire 7; OpRelease 9; OpCloseIdle].

Lemma fd_pinned_open_witness :
  let '(c, s', held) := foldl (fun x op => fd_step op x) (fd_start "data" 2 (empty_files [])) fd_calls in
  held 7 = 2 /\ exists e, fd_entries c !! 7 = Some e /\ pins e = 2 /\ fd_path s' (entry_fd e) = Some (file_path "data" 7).
Proof.
  assert (fd_allowed fd_calls (fd_start "data" 2 (empty_files []))) as Hall by (vm_compute; repeat split).
  pose proof (fd_pinned_open "data" 2 (empty_files []) fd_calls ltac:(lia) Hall) as Ho.
  assert ((foldl (fun x op => fd_step op x) (fd_start "data" 2 (empty_files [])) fd_calls).2 7 = 2) as Eh by (vm_compute; reflexivity).
  destruct (foldl (fun x op => fd_step op x) (fd_start "data" 2 (empty_files [])) fd_calls) as [[c s'] held]. cbn [snd] in Eh.
  split; [exact Eh|]. destruct (proj1 Ho 7) as (e & He & Hp & Hf); [lia|]. exists e. rewrite Eh in Hp. split; [exact He|]. split; [exact Hp|exact Hf].
Defined.

(** Two blocks written from two buffers in transfers of 10, 4096 and the remaining
    bytes, the second interrupted. *)
Definition small_geometry : BlockGeometry := MkGeometry 12.
Definition small_posix : posix ram_files :=
  PosixDisk small_geometry true (MakeFdCache "data" 2) (empty_files [Stop 9; Interrupt; Stop 4095]).
Definition two_buffers : Z -> list byte := fun a => replicate (Z.to_nat 4096) (if a =? 1 then x0a else x0b).
Definition two_blocks : DiskRequest := MkRequest 0 kWrite (MkTag 7 1) 2 [1; 2].

Lemma posix_execute_witness :
  exists x m' d', Execute two_blocks two_buffers small_posix = Some (x, m', d') /\ has_value x = true /\
    disk_block d' (MkTag 7 1) = two_buffers 1 /\ disk_block d' (MkTag 7 2) = two_buffers 2 /\
    disk_block d' (MkTag 7 0) = disk_block small_posix (MkTag 7 0).
Proof.
  assert (posix_ok small_posix) as Hok.
  { split; [unfold geometry_ok; cbn; lia|]. intros file e He. vm_compute in He. discriminate. }
  assert (request_fits (block_size (pd_geometry small_posix)) two_blocks two_buffers) as Hfit.
  { split.
    - vm_compute. split; congruence.
    - vm_compute. split; congruence.
    - vm_compute. congruence.
    - apply (bool_decide_unpack _). vm_compute. exact I.
    - intros a _. unfold two_buffers. rewrite length_replicate. reflexivity. }
  destruct (posix_execute two_blocks two_buffers small_posix Hok (fun _ => Hfit)) as (x & m' & d' & E & _ & _ & He).
  assert (match Execute two_blocks two_buffers small_posix with Some (x, _, _) => has_value x | None => false end = true) as Ev by (vm_compute; reflexivity).
  rewrite E in Ev. exists x, m', d'. split; [exact E|]. split; [exact Ev|]. unfold request_effect in He. cbn [operation two_blocks] in He.
  destruct He as (_ & Hother & Hw). specialize (Hw Ev). split; [exact (Hw 0%nat 1 eq_refl)|]. split; [exact (Hw 1%nat 2 eq_refl)|].
  apply Hother. intros [|i] _; cbn; intros [= ?]; lia.
Defined.

(** One worker.  A write is queued while the worker and a reaper sleep, a read is
    run by its submitter, the backend shuts down, and the last reaper is told so. *)
Definition one_block (op : DiskOperation) (t : Z) : DiskRequest := MkRequest t op (MkTag 7 0) 1 [t].
Definition queue_actions : list qaction :=
  [DoStep 0; DoReap 1 8 true; DoStep 1; DoSubmit 2 [one_block kWrite 1] kAsync; DoStep 2; DoStep 0; DoStep 0; DoStep 0].
Definition queue_end : list qaction :=
  queue_actions ++ [DoStep 0; DoStep 1; DoSubmit 3 [one_block kRead 2; one_block kSync 0] kWait] ++ repeat (DoStep 3) 7 ++
  [DoReap 4 8 true; DoStep 4; DoShutdown 5; DoStep 5; DoStep 5; DoStep 5; DoReap 6 8 true].
Definition queue_after (l : list qaction) : qsystem (S := ram_files) := foldl qact (queue_start small_posix two_buffers 1) l.

Lemma posix_exactly_once_witness :
  q_accepted (q_shared (queue_after queue_end)) = [1; 2; 0] /\
  q_accepted (q_shared (queue_after queue_end)) ≡ₚ (q_delivered (q_shared (queue_after queue_end))).*1.
Proof.
  destruct (posix_exactly_once small_posix two_buffers 1 (queue_after queue_end)) as [_ Hr]; [apply qacts_reachable|].
  split; [vm_compute; reflexivity|].
  assert (match qstep (QReap 8 true) (q_shared (queue_after queue_end)) with Some (QDone (Reaped (Err _)), _, _) => true | _ => false end = true) as E
    by (vm_compute; reflexivity).
  destruct (qstep (QReap 8 true) (q_shared (queue_after queue_end))) as [[[t q'] wk]|] eqn:Eq; [|discriminate E].
  destruct t as [| | | | | | | | | | | | [|[|e]| |]]; try discriminate E.
  apply (Hr 6%nat 8%nat e q' wk); [vm_compute; reflexivity|exact Eq].
Defined.

Lemma posix_never_stranded_witness :
  q_threads (queue_after queue_actions) !! 1%nat = Some (QReapSleep 8) /\
  exists j t, q_threads (queue_after queue_actions) !! j = Some t /\ q_notifies t = 1.
Proof.
  destruct (posix_never_stranded small_posix two_buffers 1 (queue_after queue_actions)) as (_ & _ & Hr & _); [apply qacts_reachable|].
  assert (q_threads (queue_after queue_actions) !! 1%nat = Some (QReapSleep 8)) as E by (vm_compute; reflexivity).
  split; [exact E|]. apply (Hr 1%nat 8%nat E). left. apply (bool_decide_unpack _). vm_compute. exact I.
Defined.
