(* ===== verification/Uring.v ===== *)
(** The io_uring backend: [lib/io/io_uring_disk_backend.cc].

    A request has a heap-allocated context whose address travels through the ring
    as the user data of its entries, tagged for the linked [fdatasync]; [u_ctx] is
    the heap of live contexts.  The operating system takes entries from a
    submission queue, works on them in any order and puts a result for each in
    the completion queue: what it answers to [io_uring_submit], which results it
    reports and what it writes to memory are arbitrary.  [ustep] is the code of one
    thread, one section under a latch or one access to shared memory at a time;
    reading a context that was deleted is no step.

    [u_accepted], [u_taken] and [u_delivered] record, for the statements only, the
    tokens of the requests that were prepared, taken back after a failed submit,
    and completed. *)
From stdpp Require Import strings.
From S2P Require Import Prelude Bytes Status Layout FreeList PageTable Interfaces IoEngine FdCache PosixDisk PosixQueue.

Definition kSyncTag : Z := 1.
Definition kMaxRings : Z := 16.
Definition EAGAIN : Z := 11.
Definition EBUSY : Z := 16.

(** The context an entry belongs to, and whether the entry is its [fdatasync]. *)
Definition ctx_of (data : Z) : Z := Z.land data (u64_not kSyncTag).
Definition is_sync (data : Z) : bool := negb (Z.land data kSyncTag =? 0).

(** ** State *)

Inductive sqe_op := OpReadv | OpWritev | OpFsync.
Record sqe := Sqe { s_data : Z; s_op : sqe_op; s_fd : Z; s_iov : list iovec; s_offset : Z; s_link : bool }.

(** A ring: entries not yet submitted, entries the system works on, results. *)
Record ring := Ring {
  r_sq : list sqe;
  r_kernel : list sqe;
  r_cq : list (Z * Z);
  r_broken : bool;
  r_submit_held : bool;
  r_reap_held : bool
}.

Record RequestContext := Context_ {
  c_request : DiskRequest;
  c_ring : nat;
  c_fd : Z;
  c_total : Z;
  c_done : Z;
  c_sync : bool;
  c_pending : Z;
  c_transfer : Z;
  c_sync_result : Z
}.

Definition set_submit (sq kernel : list sqe) (broken held : bool) (r : ring) : ring := Ring sq kernel (r_cq r) broken held (r_reap_held r).
Definition set_held (held : bool) (r : ring) : ring := Ring (r_sq r) (r_kernel r) (r_cq r) (r_broken r) held (r_reap_held r).
Definition set_cq (cq : list (Z * Z)) (held : bool) (r : ring) : ring := Ring (r_sq r) (r_kernel r) cq (r_broken r) (r_submit_held r) held.

Definition set_results (pending transfer sync_result : Z) (c : RequestContext) : RequestContext :=
  Context_ (c_request c) (c_ring c) (c_fd c) (c_total c) (c_done c) (c_sync c) pending transfer sync_result.
Definition set_done (done : Z) (c : RequestContext) : RequestContext :=
  Context_ (c_request c) (c_ring c) (c_fd c) (c_total c) done (c_sync c) (c_pending c) (c_transfer c) (c_sync_result c).

(** How many entries a request takes. *)
Definition entry_count (c : RequestContext) : nat := if c_sync c then 2 else 1.

Section Uring.
Context {S : Type} `{Posix S}.

Record uring := Uring {
  u_geometry : BlockGeometry;
  u_sync_on_write : bool;
  u_entries : nat;
  u_ring_count : nat;
  u_rings : nat -> ring;
  u_ctx : gmap Z RequestContext;
  u_files : fd_cache;
  u_os : S;
  u_memory : Z -> list Byte.byte;
  u_in_flight : Z;
  u_shutdown : bool;
  u_event : bool;
  u_test_submit : option Z;
  u_test_completion : option Z;
  u_accepted : list Z;
  u_taken : list Z;
  u_delivered : list DiskCompletion
}.

Definition set_ring (i : nat) (r : ring) (u : uring) : uring :=
  Uring (u_geometry u) (u_sync_on_write u) (u_entries u) (u_ring_count u) (<[i := r]> (u_rings u)) (u_ctx u) (u_files u) (u_os u) (u_memory u)
    (u_in_flight u) (u_shutdown u) (u_event u) (u_test_submit u) (u_test_completion u) (u_accepted u) (u_taken u) (u_delivered u).
Definition set_ctx (m : gmap Z RequestContext) (u : uring) : uring :=
  Uring (u_geometry u) (u_sync_on_write u) (u_entries u) (u_ring_count u) (u_rings u) m (u_files u) (u_os u) (u_memory u)
    (u_in_flight u) (u_shutdown u) (u_event u) (u_test_submit u) (u_test_completion u) (u_accepted u) (u_taken u) (u_delivered u).
Definition set_fds (f : fd_cache) (s : S) (u : uring) : uring :=
  Uring (u_geometry u) (u_sync_on_write u) (u_entries u) (u_ring_count u) (u_rings u) (u_ctx u) f s (u_memory u)
    (u_in_flight u) (u_shutdown u) (u_event u) (u_test_submit u) (u_test_completion u) (u_accepted u) (u_taken u) (u_delivered u).
Definition set_memory (m : Z -> list Byte.byte) (u : uring) : uring :=
  Uring (u_geometry u) (u_sync_on_write u) (u_entries u) (u_ring_count u) (u_rings u) (u_ctx u) (u_files u) (u_os u) m
    (u_in_flight u) (u_shutdown u) (u_event u) (u_test_submit u) (u_test_completion u) (u_accepted u) (u_taken u) (u_delivered u).
Definition set_in_flight (n : Z) (u : uring) : uring :=
  Uring (u_geometry u) (u_sync_on_write u) (u_entries u) (u_ring_count u) (u_rings u) (u_ctx u) (u_files u) (u_os u) (u_memory u)
    n (u_shutdown u) (u_event u) (u_test_submit u) (u_test_completion u) (u_accepted u) (u_taken u) (u_delivered u).
Definition set_stop (shut event : bool) (u : uring) : uring :=
  Uring (u_geometry u) (u_sync_on_write u) (u_entries u) (u_ring_count u) (u_rings u) (u_ctx u) (u_files u) (u_os u) (u_memory u)
    (u_in_flight u) shut event (u_test_submit u) (u_test_completion u) (u_accepted u) (u_taken u) (u_delivered u).
Definition set_tests (submit completion : option Z) (u : uring) : uring :=
  Uring (u_geometry u) (u_sync_on_write u) (u_entries u) (u_ring_count u) (u_rings u) (u_ctx u) (u_files u) (u_os u) (u_memory u)
    (u_in_flight u) (u_shutdown u) (u_event u) submit completion (u_accepted u) (u_taken u) (u_delivered u).
Definition note (accepted taken : list Z) (delivered : list DiskCompletion) (u : uring) : uring :=
  Uring (u_geometry u) (u_sync_on_write u) (u_entries u) (u_ring_count u) (u_rings u) (u_ctx u) (u_files u) (u_os u) (u_memory u)
    (u_in_flight u) (u_shutdown u) (u_event u) (u_test_submit u) (u_test_completion u)
    (u_accepted u ++ accepted) (u_taken u ++ taken) (u_delivered u ++ delivered).

(** The system rounds the size of a ring up to a power of two. *)
Definition ring_entries (n : Z) : Z := 2 ^ Z.log2_up n.

(** The constructor, with rings that the system set up. *)
Definition MakeUring (root : string) (g : BlockGeometry) (queue_depth max_open_files : Z) (sync : bool) (ring_count hardware : Z)
    (m : Z -> list Byte.byte) (s : S) : uring :=
  let depth := if queue_depth =? 0 then 64 else queue_depth in
  let count := if negb (ring_count =? 0) then Z.min ring_count kMaxRings else Z.max 1 (Z.min hardware kMaxRings) in
  Uring g sync (Z.to_nat (ring_entries (Z.max 2 depth))) (Z.to_nat count) (fun _ => Ring [] [] [] false false false) ∅ (MakeFdCache root max_open_files) s m
    0 false false None None [] [] [].

(** ** Preparing and continuing transfers *)

Definition sq_space_left (u : uring) (r : ring) : nat := u_entries u - length (r_sq r).

(** The entries of a transfer, with its linked [fdatasync]. *)
Definition transfer_entries (address : Z) (iov : list iovec) (offset : Z) (c : RequestContext) : list sqe :=
  Sqe address (match operation (c_request c) with kRead => OpReadv | _ => OpWritev end) (c_fd c) iov offset (c_sync c) ::
  if c_sync c then [Sqe (Z.lor address kSyncTag) OpFsync (c_fd c) [] 0 false] else [].

Definition request_entries (g : BlockGeometry) (address : Z) (c : RequestContext) : list sqe :=
  match operation (c_request c) with
  | kSync => [Sqe address OpFsync (c_fd c) [] 0 false]
  | _ =>
      let iov := (fun a => (a, 0, block_size g)) <$> take (Z.to_nat (block_count (c_request c))) (buffers (c_request c)) in
      transfer_entries address iov (to_off (BlockOffset g (block_id (request_tag (c_request c))))) c
  end.

(** [PrepareLocked]; [address] is what the allocation returns. *)
Definition PrepareLocked (i : nat) (r : DiskRequest) (address : Z) (u : uring) : Result (Z * nat) * uring :=
  match ValidateDiskRequest r kMaxDiskRequestBlocks with
  | Err e => (Err e, u)
  | Ok _ =>
      let sync := match operation r with kWrite => u_sync_on_write u | _ => false end in
      if (sq_space_left u (u_rings u i) <? (if sync then 2 else 1))%nat then (ResourceExhausted "io_uring submission queue is full", u)
      else
        let '(fd, f, s) := Acquire (file_id (request_tag r)) (u_files u) (u_os u) in
        let u := set_fds f s u in
        match fd with
        | Err e => (Err e, u)
        | Ok fd =>
            match u_test_submit u with
            | Some forced =>
                let '(f, s) := Release (file_id (request_tag r)) (u_files u) (u_os u) in
                (if forced =? 0 then IoError "io_uring submit accepted no requests" 0 else IoError "io_uring submit failed" (- forced),
                 set_tests None (u_test_completion u) (set_fds f s u))
            | None =>
                let total := match operation r with kSync => 0 | _ => block_count r * block_size (u_geometry u) end in
                let c := Context_ r i fd total 0 sync (if sync then 2 else 1) 0 0 in
                let rg := u_rings u i in
                (Ok (address, entry_count c),
                 note [token r] [] [] (set_in_flight (u_in_flight u + 1) (set_ctx (<[address := c]> (u_ctx u))
                   (set_ring i (set_submit (r_sq rg ++ request_entries (u_geometry u) address c) (r_kernel rg) (r_broken rg) (r_submit_held rg) rg) u))))
            end
        end
  end.

(** [io_uring_submit] that answers [n] hands the first [n] entries over. *)
Definition submit_entries (n : nat) (r : ring) : ring :=
  set_submit (drop n (r_sq r)) (r_kernel r ++ take n (r_sq r)) (r_broken r) (r_submit_held r) r.

(** How many of the prepared requests have an entry among [consumed]. *)
Fixpoint count_started (counts : list nat) (consumed : nat) : nat :=
  match counts with
  | [] => 0
  | n :: counts => if (consumed =? 0)%nat then 0 else Datatypes.S (count_started counts (consumed - Nat.min consumed n))
  end.

(** [ContinueShortTransfer] of context [c] at [address]; [answer] is what
    [io_uring_submit] returns. *)
Definition ContinueShortTransfer (address : Z) (c : RequestContext) (answer : Z) (u : uring) : uring :=
  let i := c_ring c in
  let rg := u_rings u i in
  let c := set_results 0 (c_transfer c) (c_sync_result c) c in
  if r_broken rg || (sq_space_left u rg <? entry_count c)%nat then set_ctx (<[address := c]> (u_ctx u)) u
  else
    let bs := block_size (u_geometry u) in
    let bufs := take (Z.to_nat (block_count (c_request c))) (buffers (c_request c)) in
    let offset := to_off (u64 (BlockOffset (u_geometry u) (block_id (request_tag (c_request c))) + c_done c)) in
    let rg := set_submit (r_sq rg ++ transfer_entries address (iovecs bs (c_done c) bufs) offset c) (r_kernel rg) false (r_submit_held rg) rg in
    if answer <? 0 then set_ctx (<[address := c]> (u_ctx u)) (set_ring i (set_submit (r_sq rg) (r_kernel rg) true (r_submit_held rg) rg) u)
    else set_ctx (<[address := set_results (Z.of_nat (entry_count c)) (c_transfer c) (c_sync_result c) c]> (u_ctx u))
           (set_ring i (submit_entries (Z.to_nat answer) rg) u).

(** The status and the memory after a request. *)
Definition finish_status (g : BlockGeometry) (c : RequestContext) (m : Z -> list Byte.byte) : Status * (Z -> list Byte.byte) :=
  let r := c_request c in
  let result := c_transfer c in
  match operation r with
  | kSync => (if result <? 0 then IoError "fdatasync failed" (- result) else Ok tt, m)
  | kRead =>
      if result <? 0 then (IoError "io_uring read failed" (- result), m)
      else (Ok tt, ZeroFillReadTail (block_size g) (c_done c + result) (take (Z.to_nat (block_count r)) (buffers r)) m)
  | kWrite =>
      (if result <? 0 then IoError "io_uring write failed" (- result)
       else if negb (c_done c + result =? c_total c) then IoError "partial page write" 0
       else if c_sync c && (c_sync_result c <? 0) then IoError "fdatasync failed" (- c_sync_result c)
       else Ok tt, m)
  end.

(** [FinishContext] up to the decrement of the count. *)
Definition FinishContext (address : Z) (c : RequestContext) (u : uring) : DiskCompletion * uring :=
  let '(status, m) := finish_status (u_geometry u) c (u_memory u) in
  let '(f, s) := Release (file_id (request_tag (c_request c))) (u_files u) (u_os u) in
  let done := (token (c_request c), status) in
  (done, note [] [] [done] (set_in_flight (u_in_flight u - 1) (set_fds f s (set_memory m (set_ctx (delete address (u_ctx u)) u))))).

(** A result taken from the completion queue. *)
Definition take_result (data res : Z) (c : RequestContext) (u : uring) : RequestContext * uring :=
  if is_sync data then (set_results (c_pending c - 1) (c_transfer c) res c, u)
  else (set_results (c_pending c - 1) (default res (u_test_completion u)) (c_sync_result c) c, set_tests (u_test_submit u) None u).

(** ** Threads *)

(** Where [ReapRing] returns to: the caller's own ring first, then a pass over all. *)
Inductive reap_kont := KOwn (n : nat) (wait : bool) | KScan (todo : list nat) (out : list DiskCompletion) (n : nat) (first_pass : bool).

Inductive upc :=
  | USubmit (reqs : list DiskRequest)
  | UCheck (reqs : list DiskRequest)
  | ULock (i : nat) (reqs : list DiskRequest)
  | UPrepare (i : nat) (rest : list DiskRequest) (prepared : list (Z * nat))
  | ULoop (i : nat) (prepared : list (Z * nat)) (consumed : nat) (err : Status)
  | UTakeBack (i : nat) (rest kept : list (Z * nat)) (err : Status)
  | UUnlock (i : nat) (kept : list (Z * nat)) (err : Status)
  | URelease (r : Result nat)
  | UReap (n : nat) (wait : bool)
  | URingLock (i n : nat) (k : reap_kont)
  | UPeek (i n : nat) (finished : list Z) (k : reap_kont)
  | UFinish (finished : list Z) (out : list DiskCompletion) (k : reap_kont)
  | UContinue (a : Z) (rest : list Z) (out : list DiskCompletion) (k : reap_kont)
  | UContinued (a : Z) (rest : list Z) (out : list DiskCompletion) (k : reap_kont)
  | UFinishCtx (a : Z) (rest : list Z) (out : list DiskCompletion) (k : reap_kont)
  | UReapStop (n : nat)
  | UReapDrained (n : nat)
  | UScan (todo : list nat) (out : list DiskCompletion) (n : nat) (first_pass : bool)
  | UWaitSignal (n : nat)
  | ULast (k : upc)
  | USignal (k : upc)
  | UShutdown
  | UShutLoad
  | UDone (r : outcome).

(** What the system answers: the result of [io_uring_submit], and an address. *)
Record oracle := Oracle { o_answer : Z; o_address : Z }.

Definition reaped (cs : list DiskCompletion) (k : reap_kont) : upc :=
  match k with
  | KOwn n wait => if negb (match cs with [] => true | _ => false end) || negb wait then UDone (Reaped (Ok cs)) else UReapStop n
  | KScan todo out n first => UScan todo (out ++ cs) n first
  end.

(** The rings from the caller's on. *)
Definition ring_order (own count : nat) : list nat := (fun i => (own + i) mod count)%nat <$> seq 0 count.

(** [Submit]. *)
Definition submit_step (own : nat) (o : oracle) (t : upc) (u : uring) : option (upc * uring) :=
  match t with
  | USubmit reqs => Some (UCheck reqs, set_in_flight (u_in_flight u + 1) u)
  | UCheck reqs => Some (if u_shutdown u then URelease (Unavailable "io_uring backend is shutting down" 0) else ULock own reqs, u)
  | ULock i reqs =>
      let rg := u_rings u i in
      if r_submit_held rg then None
      else Some (if r_broken rg then UUnlock i [] (IoError "io_uring ring is unusable after a failed submit" 0) else UPrepare i reqs [],
                 set_ring i (set_held true rg) u)
  | UPrepare i [] prepared => Some (ULoop i prepared 0 (Ok tt), u)
  | UPrepare i (r :: rest) prepared =>
      let '(x, u) := PrepareLocked i r (o_address o) u in
      Some (match x with Ok p => UPrepare i rest (prepared ++ [p]) | Err e => ULoop i prepared 0 (Err e) end, u)
  | ULoop i prepared consumed err =>
      let rg := u_rings u i in
      match prepared, r_sq rg with
      | [], _ | _, [] => Some (UUnlock i prepared err, u)
      | _, _ =>
          if 0 <=? o_answer o then Some (ULoop i prepared (consumed + Z.to_nat (o_answer o)) err, set_ring i (submit_entries (Z.to_nat (o_answer o)) rg) u)
          else if (o_answer o =? - EINTR) || (o_answer o =? - EAGAIN) || (o_answer o =? - EBUSY) then Some (ULoop i prepared consumed err, u)
          else
            let started := count_started (prepared.*2) consumed in
            Some (UTakeBack i (drop started prepared) (take started prepared) (IoError "io_uring submit failed" (- o_answer o)),
                  set_ring i (set_submit (r_sq rg) (r_kernel rg) true (r_submit_held rg) rg) u)
      end
  | UTakeBack i [] kept err => Some (UUnlock i kept err, u)
  | UTakeBack i ((a, _) :: rest) kept err =>
      c ← u_ctx u !! a;
      let '(f, s) := Release (file_id (request_tag (c_request c))) (u_files u) (u_os u) in
      Some (UTakeBack i rest kept err,
            note [] [token (c_request c)] [] (set_in_flight (u_in_flight u - 1) (set_fds f s (set_ctx (delete a (u_ctx u)) u))))
  | UUnlock i kept err =>
      Some (URelease (match kept, err with [], Err e => Err e | _, _ => Ok (length kept) end), set_ring i (set_held false (u_rings u i)) u)
  | URelease r =>
      Some (if u_in_flight u =? 1 then ULast (UDone (Submitted r)) else UDone (Submitted r), set_in_flight (u_in_flight u - 1) u)
  | _ => None
  end.

(** [Reap], which waits for a completion between its two passes. *)
Definition reap_step (own : nat) (t : upc) (u : uring) : option (upc * uring) :=
  match t with
  | UReap n wait => Some (if (n =? 0)%nat then UDone (Reaped (Ok [])) else URingLock own n (KOwn n wait), u)
  | UReapStop n => Some (if u_shutdown u then UReapDrained n else UScan (ring_order own (u_ring_count u)) [] n true, u)
  | UReapDrained n =>
      Some (if u_in_flight u =? 0 then UDone (Reaped (Unavailable "io_uring backend is shutting down" 0))
            else UScan (ring_order own (u_ring_count u)) [] n true, u)
  | UScan todo out n first =>
      match todo with
      | [] => Some (if first && match out with [] => true | _ => false end then UWaitSignal n else UDone (Reaped (Ok out)), u)
      | i :: todo => Some (if (length out <? n)%nat then URingLock i (n - length out) (KScan todo out n first) else UScan [] out n first, u)
      end
  | _ => None
  end.

(** [WaitForCompletionSignal]: waiting ends by itself. *)
Definition WaitForCompletionSignal (u : uring) : uring := if u_shutdown u then u else set_stop (u_shutdown u) false u.

(** [ReapRing]. *)
Definition reap_ring_step (o : oracle) (t : upc) (u : uring) : option (upc * uring) :=
  match t with
  | URingLock i n k =>
      let rg := u_rings u i in
      if r_reap_held rg then None else Some (UPeek i n [] k, set_ring i (set_cq (r_cq rg) true rg) u)
  | UPeek i n finished k =>
      let rg := u_rings u i in
      match r_cq rg with
      | (data, res) :: cq =>
          if (length finished <? n)%nat then
            let a := ctx_of data in
            c ← u_ctx u !! a;
            let '(c, u) := take_result data res c (set_ring i (set_cq cq true rg) u) in
            Some (UPeek i n (if c_pending c =? 0 then finished ++ [a] else finished) k, set_ctx (<[a := c]> (u_ctx u)) u)
          else Some (UFinish finished [] k, set_ring i (set_cq (r_cq rg) false rg) u)
      | [] => Some (UFinish finished [] k, set_ring i (set_cq (r_cq rg) false rg) u)
      end
  | UFinish [] out k => Some (reaped out k, u)
  | UFinish (a :: rest) out k =>
      c ← u_ctx u !! a;
      let result := c_transfer c in
      if (0 <? result) && (result <? c_total c - c_done c)
      then Some (UContinue a rest out k, set_ctx (<[a := set_done (c_done c + result) c]> (u_ctx u)) u)
      else Some (UFinishCtx a rest out k, u)
  | UContinue a rest out k =>
      c ← u_ctx u !! a;
      if r_submit_held (u_rings u (c_ring c)) then None else Some (UContinued a rest out k, ContinueShortTransfer a c (o_answer o) u)
  | UContinued a rest out k =>
      c ← u_ctx u !! a;
      if 0 <? c_pending c then Some (UFinish rest out k, u)
      else Some (UFinishCtx a rest out k, set_ctx (<[a := set_results (c_pending c) (- EIO) (c_sync_result c) c]> (u_ctx u)) u)
  | UFinishCtx a rest out k =>
      c ← u_ctx u !! a;
      let last := u_in_flight u =? 1 in
      let '(d, u) := FinishContext a c u in
      let next := UFinish rest (out ++ [d]) k in
      Some (if last then ULast next else next, u)
  | _ => None
  end.

Definition SignalShutdown (u : uring) : uring :=
  let '(f, s) := CloseIdle (u_files u) (u_os u) in set_stop (u_shutdown u) true (set_fds f s u).

(** [Shutdown], and what the last request does after it. *)
Definition stop_step (t : upc) (u : uring) : option (upc * uring) :=
  match t with
  | ULast k => Some (if u_shutdown u then USignal k else k, u)
  | USignal k => Some (k, SignalShutdown u)
  | UShutdown => Some (if u_shutdown u then UDone ShutDown else UShutLoad, set_stop true (u_event u) u)
  | UShutLoad => Some (if u_in_flight u =? 0 then USignal (UDone ShutDown) else UDone ShutDown, u)
  | _ => None
  end.

(** One step of a thread whose own ring is [own]. *)
Definition ustep (own : nat) (o : oracle) (t : upc) (u : uring) : option (upc * uring) :=
  match t with
  | USubmit _ | UCheck _ | ULock _ _ | UPrepare _ _ _ | ULoop _ _ _ _ | UTakeBack _ _ _ _ | UUnlock _ _ _ | URelease _ => submit_step own o t u
  | UReap _ _ | UReapStop _ | UReapDrained _ | UScan _ _ _ _ => reap_step own t u
  | UWaitSignal n => Some (UScan (ring_order own (u_ring_count u)) [] n false, WaitForCompletionSignal u)
  | URingLock _ _ _ | UPeek _ _ _ _ | UFinish _ _ _ | UContinue _ _ _ _ | UContinued _ _ _ _ | UFinishCtx _ _ _ _ => reap_ring_step o t u
  | ULast _ | USignal _ | UShutdown | UShutLoad => stop_step t u
  | UDone _ => None
  end.
End Uring.

(** ** All threads *)

Section System.
Context {S : Type} `{Posix S}.

Record usystem := USystem { u_shared : uring (S := S); u_threads : gmap nat upc }.

(** The address of a new context: aligned, and of no live context. *)
Definition fresh_address (a : Z) (u : uring (S := S)) : Prop := ctx_of a = a /\ u_ctx u !! a = None.

Definition hand_over (i : nat) (k1 k2 : list sqe) (c : Z * Z) (u : uring (S := S)) : uring :=
  let rg := u_rings u i in
  set_ring i (Ring (r_sq rg) (k1 ++ k2) (r_cq rg ++ [c]) (r_broken rg) (r_submit_held rg) (r_reap_held rg)) u.

Inductive uring_step : usystem -> usystem -> Prop :=
  | uring_thread s j o t t' u' :
      u_threads s !! j = Some t -> fresh_address (o_address o) (u_shared s) ->
      ustep (j mod u_ring_count (u_shared s)) o t (u_shared s) = Some (t', u') ->
      uring_step s (USystem u' (<[j := t']> (u_threads s)))
  (* The system finishes an entry of ring [i] with the result [res]. *)
  | uring_result s i k1 e k2 res m :
      r_kernel (u_rings (u_shared s) i) = k1 ++ e :: k2 ->
      uring_step s (USystem (set_memory m (hand_over i k1 k2 (s_data e, res) (u_shared s))) (u_threads s))
  (* A call without requests would read the error of a [Status] that has none. *)
  | uring_submit s j reqs : u_threads s !! j = None -> reqs <> [] -> uring_step s (USystem (u_shared s) (<[j := USubmit reqs]> (u_threads s)))
  | uring_reap s j n wait : u_threads s !! j = None -> uring_step s (USystem (u_shared s) (<[j := UReap n wait]> (u_threads s)))
  | uring_shutdown s j : u_threads s !! j = None -> uring_step s (USystem (u_shared s) (<[j := UShutdown]> (u_threads s)))
  | uring_tests s submit completion : uring_step s (USystem (set_tests submit completion (u_shared s)) (u_threads s)).

(** A call of [Reap] in progress. *)
Fixpoint u_reaps (t : upc) : Z :=
  match t with
  | UReap _ _ | URingLock _ _ _ | UPeek _ _ _ _ | UFinish _ _ _ | UContinue _ _ _ _ | UContinued _ _ _ _ | UFinishCtx _ _ _ _
  | UReapStop _ | UReapDrained _ | UScan _ _ _ _ | UWaitSignal _ => 1
  | ULast k | USignal k => u_reaps k
  | _ => 0
  end.

(** Executions in which calls of [Reap] do not overlap. *)
Definition solo_step (s s' : usystem) : Prop := uring_step s s' /\ total u_reaps (u_threads s') <= 1.

Definition uring_start (root : string) (g : BlockGeometry) (queue_depth max_open_files : Z) (sync : bool) (ring_count hardware : Z)
    (m : Z -> list Byte.byte) (s : S) : usystem :=
  USystem (MakeUring root g queue_depth max_open_files sync ring_count hardware m s) ∅.
End System.
