(* ===== verification/UringSafety.v ===== *)
(** Contexts and descriptors of the io_uring backend are safe when calls of [Reap]
    do not overlap; when they do, a context can be used after it was deleted. *)
From stdpp Require Import strings.
From S2P Require Import Prelude Bytes Status Layout FreeList PageTable Interfaces IoEngine FdCache PosixDisk PosixQueue Uring.

Local Arguments weigh : simpl never.

(** ** Counting addresses *)

Notation occ := occurrences (only parsing).

Lemma occ_app a l1 l2 : occ a (l1 ++ l2) = occ a l1 + occ a l2.
Proof. apply weigh_app. Qed.
Lemma occ_nil a : occ a [] = 0.
Proof. done. Qed.
Lemma occ_cons a b l : occ a (b :: l) = b2z (bool_decide (b = a)) + occ a l.
Proof. done. Qed.
Lemma occ_nonneg a l : 0 <= occ a l.
Proof. apply weigh_nonneg. intros. apply b2z_bound. Qed.
Lemma occ_notin a l : a ∉ l -> occ a l = 0.
Proof.
  induction l as [|b l IH]; intros Hl; [done|]. apply not_elem_of_cons in Hl as [Hne Hl]. rewrite occ_cons, IH by done.
  by rewrite bool_decide_false by done.
Qed.
Lemma occ_elem a l : a ∈ l -> 1 <= occ a l.
Proof.
  intros Hl. apply list_elem_of_split in Hl as (l1 & l2 & ->). rewrite occ_app, occ_cons, bool_decide_true by done.
  pose proof (occ_nonneg a l1). pose proof (occ_nonneg a l2). cbn. lia.
Qed.
Lemma occ_replicate a n : occ a (replicate n a) = Z.of_nat n.
Proof. induction n as [|n IH]; [done|]. cbn [replicate]. rewrite occ_cons, IH, bool_decide_true by done. cbn [b2z]. lia. Qed.

(** ** Addresses in a ring *)

Definition entry_addresses (l : list sqe) : list Z := (fun e => ctx_of (s_data e)) <$> l.
Definition result_addresses (l : list (Z * Z)) : list Z := (fun c => ctx_of c.1) <$> l.

(** What the system has, and with it what it may still get. *)
Definition taken_refs (r : ring) : list Z := entry_addresses (r_kernel r) ++ result_addresses (r_cq r).
Definition live_entries (r : ring) : list sqe := (if r_broken r then [] else r_sq r) ++ r_kernel r.
Definition refs (r : ring) : list Z := entry_addresses (live_entries r) ++ result_addresses (r_cq r).

Lemma refs_split a r : occ a (refs r) = (if r_broken r then 0 else occ a (entry_addresses (r_sq r))) + occ a (taken_refs r).
Proof.
  unfold refs, taken_refs, live_entries, entry_addresses. rewrite fmap_app, !occ_app. destruct (r_broken r); cbn; rewrite ?occ_nil; lia.
Qed.

(** A ring that breaks never submits what it has queued. *)
Lemma refs_broken r r' a : r_broken r' = true -> taken_refs r' = taken_refs r -> occ a (refs r') <= occ a (refs r).
Proof.
  intros Eb Et. rewrite !refs_split, Eb, Et. pose proof (occ_nonneg a (entry_addresses (r_sq r))). destruct (r_broken r); lia.
Qed.

Lemma ctx_of_sync a : ctx_of (Z.lor a kSyncTag) = ctx_of a.
Proof. apply object_tagged. Qed.

(** The addresses of the entries of prepared requests. *)
Definition flat_prepared (p : list (Z * nat)) : list Z := mjoin ((fun x => replicate x.2 x.1) <$> p).

Lemma flat_app p q : flat_prepared (p ++ q) = flat_prepared p ++ flat_prepared q.
Proof. unfold flat_prepared. by rewrite fmap_app, join_app. Qed.

Lemma flat_occ p a n : (a, n) ∈ p -> Z.of_nat n <= occ a (flat_prepared p).
Proof.
  intros Hp. apply list_elem_of_split in Hp as (p1 & p2 & ->). rewrite flat_app. change (flat_prepared ((a, n) :: p2)) with (replicate n a ++ flat_prepared p2).
  rewrite !occ_app, occ_replicate. pose proof (occ_nonneg a (flat_prepared p1)). pose proof (occ_nonneg a (flat_prepared p2)). lia.
Qed.

Lemma flat_in p a : a ∈ flat_prepared p -> a ∈ p.*1.
Proof.
  induction p as [|[b n] p IH]; [done|]. change (flat_prepared ((b, n) :: p)) with (replicate n b ++ flat_prepared p). cbn.
  intros [Hr|Hr]%elem_of_app; [apply elem_of_replicate in Hr as [-> _]; by left|right; by apply IH].
Qed.

(** The requests that do not count as started have no entry among the first [consumed]. *)
Lemma count_started_flat p consumed :
  (consumed <= length (flat_prepared (take (count_started p.*2 consumed) p)) \/ count_started p.*2 consumed = length p)%nat /\
  (count_started p.*2 consumed <= length p)%nat.
Proof.
  revert consumed. induction p as [|[a n] p IH]; intros consumed; cbn [fmap list_fmap count_started snd]; [split; [by right|done]|].
  destruct (Nat.eqb_spec consumed 0) as [->|Hc]; [split; [left; cbn; lia|cbn; lia]|]. cbn [take length].
  change (flat_prepared ((a, n) :: ?q)) with (replicate n a ++ flat_prepared q). rewrite length_app, length_replicate.
  destruct (IH (consumed - Nat.min consumed n)%nat) as [[Hl|Hl] Hle]; (split; [|lia]); [left|right]; lia.
Qed.

(** The addresses of the first [consumed] entries are of requests that count as started. *)
Lemma unstarted_untaken p consumed A B a :
  NoDup p.*1 -> flat_prepared p = A ++ B -> (length A <= consumed)%nat -> a ∈ (drop (count_started p.*2 consumed) p).*1 -> a ∉ A.
Proof.
  intros Hnd Ef Hl Ha Hin. destruct (count_started_flat p consumed) as [[Hc|Hc] _]; [|rewrite Hc, drop_all in Ha; by apply not_elem_of_nil in Ha].
  set (n := count_started p.*2 consumed) in *. rewrite <- (take_drop n p) in Ef at 1. rewrite flat_app in Ef.
  assert (a ∈ flat_prepared (take n p)) as Ht.
  { apply (f_equal (take (length A))) in Ef. rewrite take_app_length, take_app_le in Ef by lia. rewrite <- Ef in Hin. by eapply subseteq_take. }
  apply flat_in in Ht. rewrite <- (take_drop n p), fmap_app in Hnd. apply list.NoDup_app in Hnd as (_ & Hd & _). by eapply Hd.
Qed.

(** ** Descriptors of live contexts *)

Definition cfile (c : RequestContext) : Z := file_id (request_tag (c_request c)).

(** How many live contexts a file has. *)
Definition ctx_held (ctx : gmap Z RequestContext) (f : Z) : Z := total (fun c => b2z (bool_decide (cfile c = f))) ctx.

Section Safety.
Context {S : Type} `{PosixLaws S} (root : string) (bound : Z).

Record fds_live (files : fd_cache) (os : S) (ctx : gmap Z RequestContext) : Prop := {
  fl_inv : fd_inv root bound (files, os, ctx_held ctx);
  fl_ctx a c : ctx !! a = Some c -> exists e, fd_entries files !! cfile c = Some e /\ entry_fd e = c_fd c
}.

Lemma fd_inv_ext f s h h' : (forall g, h g = h' g) -> fd_inv root bound (f, s, h) -> fd_inv root bound (f, s, h').
Proof.
  intros E [J1 J2 J3 J4 J5 J6 J7 J8]. split; cbn in *; try done.
  - intros g. by rewrite <- E.
  - intros g e He. rewrite <- E. by apply J3.
  - intros g. rewrite <- E. apply J4.
Qed.

Lemma ctx_held_delete ctx a c g : ctx !! a = Some c -> ctx_held ctx g = b2z (bool_decide (cfile c = g)) + ctx_held (delete a ctx) g.
Proof. intros Ha. exact (total_delete (fun d => b2z (bool_decide (cfile d = g))) ctx a c Ha). Qed.

Lemma ctx_held_live ctx a c : ctx !! a = Some c -> 1 <= ctx_held ctx (cfile c).
Proof.
  intros Ha. pose proof (total_ge (fun d => b2z (bool_decide (cfile d = cfile c))) ctx a c ltac:(intros; apply b2z_bound) Ha) as Hg.
  cbn beta in Hg. by rewrite bool_decide_true in Hg.
Qed.

(** A live context's descriptor is open on its file. *)
Lemma fds_live_open files os ctx a c : fds_live files os ctx -> ctx !! a = Some c -> fd_path os (c_fd c) = Some (file_path root (cfile c)).
Proof.
  intros [HI Hc] Ha. destruct (Hc a c Ha) as (e & He & <-). destruct HI as [J1 _ _ _ _ _ J7 _]. cbn in *. rewrite <- J7. by apply J1.
Qed.

(** What is still cached has its descriptor, and live contexts keep theirs. *)
Lemma fds_live_kept files os ctx files' os' ctx' :
  fds_live files os ctx -> fd_inv root bound (files', os', ctx_held ctx') ->
  (forall g d e, fd_entries files' !! g = Some d -> fd_entries files !! g = Some e -> entry_fd d = entry_fd e) ->
  (forall a c, ctx' !! a = Some c -> exists b d, ctx !! b = Some d /\ cfile c = cfile d /\ c_fd c = c_fd d) ->
  fds_live files' os' ctx'.
Proof.
  intros [_ Hc] HI Hsame Hsub. split; [done|]. intros a c Ha. destruct (Hsub a c Ha) as (b & d & Hb & Ef & Ed).
  destruct (Hc b d Hb) as (e & He & Efd). pose proof (ctx_held_live ctx' a c Ha) as Hh.
  destruct (fi_kept _ _ _ HI (cfile c)) as [e' He']; [cbn; lia|]. cbn in He'. exists e'. split; [done|].
  rewrite (Hsame _ _ e He'); [congruence|]. by rewrite Ef.
Qed.

Lemma fds_live_update files os ctx a c c' :
  fds_live files os ctx -> ctx !! a = Some c -> c_request c' = c_request c -> c_fd c' = c_fd c -> fds_live files os (<[a := c']> ctx).
Proof.
  intros HL Ha Er Ef. assert (cfile c' = cfile c) as Ec by (unfold cfile; by rewrite Er). apply (fds_live_kept files os ctx); [done|..].
  - eapply fd_inv_ext; [|apply HL]. intros g. unfold ctx_held. rewrite (total_update _ ctx a c) by done. rewrite Ec. lia.
  - intros. congruence.
  - intros b d [[<- <-]|[_ Hb]]%lookup_insert_Some; [by exists a, c|by exists b, d].
Qed.

Lemma acquire_cached f files (os : S) e : fd_entries files !! f = Some e -> (Acquire f files os).1.1 = Ok (entry_fd e).
Proof. intros He. unfold Acquire. by rewrite He. Qed.

Lemma fds_live_acquire files os ctx f a c :
  fds_live files os ctx -> ctx !! a = None -> cfile c = f ->
  let '(r, files', os') := Acquire f files os in
  match r with Ok fd => c_fd c = fd -> fds_live files' os' (<[a := c]> ctx) | Err _ => fds_live files' os' ctx end.
Proof.
  intros HL Ha <-. pose proof HL as [HI Hc]. pose proof (fd_step_inv root bound (OpAcquire (cfile c)) _ HI I) as HI'.
  pose proof (acquire_spec (cfile c) files os (fi_ok _ _ _ HI)) as HA. pose proof (acquire_cached (cfile c) files os) as Hcached. cbn [fd_step] in HI'. destruct (Acquire _ files os) as [[r files'] os'].
  destruct HA as [_ _ _ _ A5 A6 A7 _]. destruct r as [fd|e]; cbn [has_value] in HI'.
  - intros <-. destruct (A5 _ eq_refl) as (_ & e & He & Efd & _).
    assert (fd_inv root bound (files', os', ctx_held (<[a := c]> ctx))) as HI2.
    { eapply fd_inv_ext; [|exact HI']. intros g. unfold ctx_held. rewrite total_insert_new by done.
      destruct (decide (g = cfile c)) as [->|Hne]; [rewrite fn_lookup_insert, bool_decide_true by done; cbn; lia|].
      rewrite fn_lookup_insert_ne, bool_decide_false by done. cbn. lia. }
    split; [done|]. intros b d Hb. pose proof (ctx_held_live _ b d Hb) as Hh. apply lookup_insert_Some in Hb as [[<- <-]|[Hne Hb]]; [by exists e|].
    destruct (fi_kept _ _ _ HI2 (cfile d)) as [e' He']; [cbn; lia|]. cbn in He'. exists e'. split; [done|]. destruct (Hc b d Hb) as (e0 & He0 & <-).
    destruct (decide (cfile d = cfile c)) as [E|E]; [|apply A7 in He'; [congruence|done]].
    rewrite E in *. specialize (Hcached _ He0). cbn in Hcached. congruence.
  - apply (fds_live_kept files os ctx); [done|done| |by intros b d Hb; exists b, d].
    intros g d e0 Hd He0. destruct (decide (g = cfile c)) as [->|Hne]; [destruct (A6 eq_refl); congruence|]. apply A7 in Hd; [congruence|done].
Qed.

Lemma fds_live_release files os ctx a c :
  fds_live files os ctx -> ctx !! a = Some c ->
  let '(files', os') := Release (cfile c) files os in fds_live files' os' (delete a ctx).
Proof.
  intros HL Ha. pose proof HL as [HI Hc]. pose proof (ctx_held_live ctx a c Ha) as Hh.
  pose proof (fd_step_inv root bound (OpRelease (cfile c)) _ HI ltac:(cbn; lia)) as HI'.
  pose proof (release_spec (cfile c) files os (fi_ok _ _ _ HI)) as HR. cbn [fd_step] in HI'. destruct (Release _ files os) as [files' os'].
  destruct (Hc a c Ha) as (e & He & Efd). rewrite He in HR. cbn zeta in HR. destruct HR as [_ _ _ _ R5 _ _].
  apply (fds_live_kept files os ctx); [done|..].
  - eapply fd_inv_ext; [|exact HI']. intros g. pose proof (ctx_held_delete ctx a c g Ha) as Eg.
    destruct (decide (g = cfile c)) as [->|Hne]; [rewrite fn_lookup_insert; rewrite bool_decide_true in Eg by done; cbn in Eg; lia|].
    rewrite fn_lookup_insert_ne by done. rewrite bool_decide_false in Eg by done. cbn in Eg. lia.
  - intros g d e0 Hd He0. apply R5 in Hd.
    match type of Hd with fd_entries (set_entries ?m _) !! _ = _ => change (m !! g = Some d) in Hd end.
    apply lookup_insert_Some in Hd as [[<- <-]|[_ Hd]]; cbn; congruence.
  - intros b d [_ Hb]%lookup_delete_Some. by exists b, d.
Qed.

Lemma fds_live_close files os ctx :
  fds_live files os ctx -> let '(files', os') := CloseIdle files os in fds_live files' os' ctx.
Proof.
  intros HL. pose proof HL as [HI Hc]. pose proof (fd_step_inv root bound OpCloseIdle _ HI I) as HI'.
  pose proof (evict_spec 0 files os (fi_ok _ _ _ HI)) as HE. cbn [fd_step] in HI'. unfold CloseIdle in *. destruct (EvictIdleLocked 0 files os) as [files' os'].
  destruct HE as [_ _ _ _ E5 _ _]. apply (fds_live_kept files os ctx); [done|done| |by intros b d Hb; exists b, d].
  intros g d e0 Hd He0. apply E5 in Hd. congruence.
Qed.
(** ** Entries and contexts *)

Implicit Types (rings : nat -> ring) (ctx : gmap Z RequestContext).

(** How many results of ring [i] context [a] still waits for. *)
Definition credit ctx (a : Z) (i : nat) : Z :=
  match ctx !! a with Some c => if decide (c_ring c = i) then c_pending c else 0 | None => 0 end.

Record heap_ok rings ctx : Prop := {
  hp_refs a i : occ a (refs (rings i)) <= credit ctx a i;
  hp_ctx a c : ctx !! a = Some c -> ctx_of a = a /\ 0 <= c_done c;
  hp_entry i e c : e ∈ live_entries (rings i) -> ctx !! ctx_of (s_data e) = Some c -> s_fd e = c_fd c
}.

Lemma heap_live rings ctx a i :
  heap_ok rings ctx -> 0 < occ a (refs (rings i)) -> exists c, ctx !! a = Some c /\ c_ring c = i /\ occ a (refs (rings i)) <= c_pending c.
Proof.
  intros HO Ha. pose proof (hp_refs _ _ HO a i) as Hr. unfold credit in Hr. destruct (ctx !! a) as [c|]; [|lia].
  exists c. destruct (decide (c_ring c = i)); [done|lia].
Qed.

Lemma heap_none rings ctx a i : heap_ok rings ctx -> ctx !! a = None -> occ a (refs (rings i)) = 0.
Proof. intros HO Ha. pose proof (hp_refs _ _ HO a i) as Hr. unfold credit in Hr. rewrite Ha in Hr. pose proof (occ_nonneg a (refs (rings i))). lia. Qed.

Lemma entry_occ e r : e ∈ live_entries r -> 1 <= occ (ctx_of (s_data e)) (refs r).
Proof. intros He. apply occ_elem. apply elem_of_app. left. apply list_elem_of_fmap. by exists e. Qed.

Lemma heap_rings rings rings' ctx :
  heap_ok rings ctx -> (forall i a, occ a (refs (rings' i)) <= occ a (refs (rings i))) ->
  (forall i e, e ∈ live_entries (rings' i) -> e ∈ live_entries (rings i)) -> heap_ok rings' ctx.
Proof.
  intros [J1 J2 J3] Hr He. split; [|done|].
  - intros a i. specialize (Hr i a). specialize (J1 a i). lia.
  - intros i e c Hin. apply (J3 i). by apply He.
Qed.

(** A context is new or changes, with its ring. *)
Lemma heap_put rings rings' ctx a c :
  heap_ok rings ctx -> ctx_of a = a -> 0 <= c_done c -> (forall c0, ctx !! a = Some c0 -> c_ring c0 = c_ring c /\ c_fd c0 = c_fd c) ->
  (forall j, j <> c_ring c -> rings' j = rings j) ->
  (forall b, b <> a -> occ b (refs (rings' (c_ring c))) <= occ b (refs (rings (c_ring c)))) -> occ a (refs (rings' (c_ring c))) <= c_pending c ->
  (forall e, e ∈ live_entries (rings' (c_ring c)) -> e ∈ live_entries (rings (c_ring c)) \/ s_fd e = c_fd c /\ ctx_of (s_data e) = a) ->
  heap_ok rings' (<[a := c]> ctx).
Proof.
  intros HO Ea Hd Hold Hj Hb Ha He. pose proof HO as [J1 J2 J3].
  assert (forall i e, e ∈ live_entries (rings' i) -> e ∈ live_entries (rings i) \/ s_fd e = c_fd c /\ ctx_of (s_data e) = a) as He'.
  { intros i e. destruct (decide (i = c_ring c)) as [->|Hne]; [apply He|]. rewrite Hj by done. by left. }
  split.
  - intros b i. destruct (decide (b = a)) as [->|Hne].
    + unfold credit. rewrite lookup_insert_eq. destruct (decide (c_ring c = i)) as [<-|Hi]; [done|]. rewrite Hj by done.
      etrans; [apply J1|]. unfold credit. destruct (ctx !! a) as [c0|]; [|done]. destruct (Hold c0 eq_refl) as [-> _]. by rewrite decide_False.
    + unfold credit. rewrite lookup_insert_ne by done. fold (credit ctx b i). destruct (decide (i = c_ring c)) as [->|Hi]; [|by rewrite Hj].
      etrans; [by apply Hb|apply J1].
  - intros b d [[<- <-]|[_ Hl]]%lookup_insert_Some; [done|by apply J2].
  - intros i e d Hin%He' [[Ek <-]|[Hne Hl]]%lookup_insert_Some.
    + destruct Hin as [Hin|[? _]]; [|done]. pose proof (entry_occ e _ Hin) as Ho. destruct (heap_live rings ctx (ctx_of (s_data e)) i HO ltac:(lia)) as (c0 & Hc0 & _ & _).
      rewrite <- Ek in Hc0. destruct (Hold c0 Hc0) as [_ <-]. rewrite Ek in Hc0. by eapply J3.
    + destruct Hin as [Hin|[_ ?]]; [by eapply J3|congruence].
Qed.

Lemma heap_delete rings ctx a c :
  heap_ok rings ctx -> ctx !! a = Some c -> occ a (refs (rings (c_ring c))) = 0 -> heap_ok rings (delete a ctx).
Proof.
  intros [J1 J2 J3] Ha Hz. split.
  - intros b i. specialize (J1 b i). unfold credit in *. destruct (decide (b = a)) as [->|Hne]; [|by rewrite lookup_delete_ne].
    rewrite lookup_delete_eq. rewrite Ha in J1. destruct (decide (c_ring c = i)) as [<-|]; [|done]. by rewrite Hz.
  - intros b d [_ Hb]%lookup_delete_Some. by apply J2.
  - intros i e d Hin [_ Hb]%lookup_delete_Some. by eapply J3.
Qed.

(** ** What a thread relies on *)

(** Prepared, and none of its entries was submitted. *)
Definition spare rings ctx (i : nat) (a : Z) : Prop :=
  exists c, ctx !! a = Some c /\ c_ring c = i /\ 0 < c_pending c /\ c_done c = 0 /\ occ a (taken_refs (rings i)) = 0.

(** [L] are entries of earlier calls, [A] the addresses of the entries submitted,
    [B] those of the entries still queued. *)
Definition loop_ok rings ctx (i : nat) (prepared : list (Z * nat)) (consumed : nat) : Prop :=
  exists L A B, r_broken (rings i) = false /\ NoDup prepared.*1 /\ flat_prepared prepared = A ++ B /\ entry_addresses (r_sq (rings i)) = L ++ B /\
    (length A <= consumed)%nat /\ (forall a, a ∈ L -> a ∉ prepared.*1) /\ (forall a, a ∈ prepared.*1 -> a ∉ A -> spare rings ctx i a).

Definition back_ok rings ctx (i : nat) (rest : list (Z * nat)) : Prop :=
  r_broken (rings i) = true /\ NoDup rest.*1 /\ forall a, a ∈ rest.*1 -> spare rings ctx i a.

(** A reaper's contexts, which wait for nothing. *)
Definition own_ok ctx (l : list Z) : Prop := NoDup l /\ forall a, a ∈ l -> exists c, ctx !! a = Some c /\ c_pending c = 0.

Definition resumed ctx (a : Z) : Prop := exists c, ctx !! a = Some c /\ 0 < c_done c.

Fixpoint thread_ok rings ctx (t : upc) : Prop :=
  match t with
  | UPrepare i _ prepared => loop_ok rings ctx i prepared 0
  | ULoop i prepared consumed _ => loop_ok rings ctx i prepared consumed
  | UTakeBack i rest _ _ => back_ok rings ctx i rest
  | UPeek _ _ finished _ | UFinish finished _ _ => own_ok ctx finished
  | UContinue a rest _ _ => own_ok ctx (a :: rest) /\ resumed ctx a
  | UContinued a rest _ _ => own_ok ctx rest /\ a ∉ rest /\ resumed ctx a
  | UFinishCtx a rest _ _ => own_ok ctx (a :: rest)
  | ULast k | USignal k => thread_ok rings ctx k
  | _ => True
  end.

(** The thread holds the submission latch of ring [i]. *)
Fixpoint u_locks (i : nat) (t : upc) : Z :=
  match t with
  | UPrepare j _ _ | ULoop j _ _ _ | UTakeBack j _ _ _ | UUnlock j _ _ => b2z (bool_decide (j = i))
  | ULast k | USignal k => u_locks i k
  | _ => 0
  end.

(** What it relies on stays true when others do not touch its ring and contexts. *)
Lemma thread_stable rings ctx rings' ctx' t :
  thread_ok rings ctx t ->
  (forall i, u_locks i t = 1 -> r_sq (rings' i) = r_sq (rings i) /\ r_broken (rings' i) = r_broken (rings i) /\
     forall a, spare rings ctx i a -> spare rings' ctx' i a) ->
  (u_reaps t = 1 -> forall a c, ctx !! a = Some c -> c_pending c = 0 \/ 0 < c_done c -> ctx' !! a = Some c) ->
  thread_ok rings' ctx' t.
Proof.
  intros Ht Hl Hr.
  assert (forall i p n, (forall j, u_locks j t = b2z (bool_decide (i = j))) -> loop_ok rings ctx i p n -> loop_ok rings' ctx' i p n) as Hloop.
  { intros i p n Hi (L & A & B & E1 & E2 & E3 & E4 & E5 & E6 & E7). destruct (Hl i) as (Es & Eb & Hs); [by rewrite Hi, bool_decide_true|].
    exists L, A, B. rewrite Es, Eb. split_and!; try done. intros a Ha Hna. by apply Hs, E7. }
  assert (forall l, u_reaps t = 1 -> own_ok ctx l -> own_ok ctx' l) as Hown.
  { intros l Ht1 [Hnd Ho]. split; [done|]. intros a Ha. destruct (Ho a Ha) as (c & Hc & Hp). exists c. split; [|done]. apply (Hr Ht1 a c Hc). by left. }
  assert (forall a, u_reaps t = 1 -> resumed ctx a -> resumed ctx' a) as Hres.
  { intros a Ht1 (c & Hc & Hp). exists c. split; [|done]. apply (Hr Ht1 a c Hc). by right. }
  clear Hr. induction t; cbn in *; try done; try (by apply Hloop); try (by apply Hown); auto.
  - destruct Ht as (E1 & E2 & E3). destruct (Hl i) as (Es & Eb & Hs); [by rewrite bool_decide_true|]. split; [congruence|]. split; [done|].
    intros a Ha. by apply Hs, E3.
  - destruct Ht. split; [by apply Hown|by apply Hres].
  - destruct Ht as (? & ? & ?). split; [by apply Hown|]. split; [done|by apply Hres].
Qed.

(** ** The invariant *)

(** The call of [Submit] is counted as in flight. *)
Fixpoint u_guard (t : upc) : Z :=
  match t with
  | UCheck _ | ULock _ _ | UPrepare _ _ _ | ULoop _ _ _ _ | UTakeBack _ _ _ _ | UUnlock _ _ _ | URelease _ => 1
  | ULast k | USignal k => u_guard k
  | _ => 0
  end.

Definition live_weight (wt : Z -> Z) ctx : Z := total (fun c => wt (token (c_request c))) ctx.

Record uinv (s : usystem (S := S)) : Prop := {
  ui_heap : heap_ok (u_rings (u_shared s)) (u_ctx (u_shared s));
  ui_fds : fds_live (u_files (u_shared s)) (u_os (u_shared s)) (u_ctx (u_shared s));
  ui_latch i : total (u_locks i) (u_threads s) = b2z (r_submit_held (u_rings (u_shared s) i));
  ui_flight : u_in_flight (u_shared s) = live_weight (fun _ => 1) (u_ctx (u_shared s)) + total u_guard (u_threads s);
  ui_flow wt : weigh wt (u_accepted (u_shared s)) = weigh wt (u_taken (u_shared s)) + weigh wt (u_delivered (u_shared s)).*1 +
    live_weight wt (u_ctx (u_shared s));
  ui_thread j t : u_threads s !! j = Some t -> thread_ok (u_rings (u_shared s)) (u_ctx (u_shared s)) t;
  ui_solo : total u_reaps (u_threads s) <= 1
}.

Lemma u_locks_sign i t : 0 <= u_locks i t.
Proof. induction t; cbn; try lia; try apply b2z_bound; done. Qed.
Lemma u_reaps_sign t : 0 <= u_reaps t.
Proof. induction t; cbn; lia. Qed.
Lemma u_guard_sign t : 0 <= u_guard t.
Proof. induction t; cbn; lia. Qed.

(** What a step of one thread has to keep for the others: rings somebody else has
    latched, with the spare contexts on them, and the contexts of a reaper. *)
Record others_keep (t : upc) rings ctx rings' ctx' : Prop := {
  ok_ring i : r_submit_held (rings i) = true -> u_locks i t = 0 ->
    r_sq (rings' i) = r_sq (rings i) /\ r_broken (rings' i) = r_broken (rings i) /\
    forall a, spare rings ctx i a -> spare rings' ctx' i a;
  ok_own a c : u_reaps t = 0 -> ctx !! a = Some c -> c_pending c = 0 \/ 0 < c_done c -> ctx' !! a = Some c
}.

Lemma uinv_move s j t t' u' :
  uinv s -> u_threads s !! j = Some t -> let u := u_shared s in
  heap_ok (u_rings u') (u_ctx u') -> fds_live (u_files u') (u_os u') (u_ctx u') ->
  (forall i, b2z (r_submit_held (u_rings u' i)) - b2z (r_submit_held (u_rings u i)) = u_locks i t' - u_locks i t) ->
  u_in_flight u' - u_in_flight u = live_weight (fun _ => 1) (u_ctx u') - live_weight (fun _ => 1) (u_ctx u) + (u_guard t' - u_guard t) ->
  (forall wt, weigh wt (u_accepted u') - weigh wt (u_accepted u) = weigh wt (u_taken u') - weigh wt (u_taken u) +
     (weigh wt (u_delivered u').*1 - weigh wt (u_delivered u).*1) + (live_weight wt (u_ctx u') - live_weight wt (u_ctx u))) ->
  others_keep t (u_rings u) (u_ctx u) (u_rings u') (u_ctx u') -> thread_ok (u_rings u') (u_ctx u') t' -> u_reaps t' <= u_reaps t ->
  uinv (USystem u' (<[j := t']> (u_threads s))).
Proof.
  intros [I1 I2 I3 I4 I5 I6 I7] Hj u C1 C2 C3 C4 C5 C6 C7 C8. fold u in I1, I2, I3, I4, I5, I6.
  split; cbn [u_shared u_threads]; try done.
  - intros i. rewrite (total_update _ _ _ t) by done. rewrite I3. specialize (C3 i). lia.
  - rewrite (total_update _ _ _ t) by done. lia.
  - intros wt. specialize (C5 wt). specialize (I5 wt). lia.
  - intros k t2 [[<- <-]|[Hne Hk]]%lookup_insert_Some; [done|]. eapply thread_stable; [by eapply I6|..].
    + intros i Hl. pose proof (total_ge2 (u_locks i) (u_threads s) j k t t2 (u_locks_sign i) Hne Hj Hk) as Hge. rewrite I3 in Hge.
      pose proof (u_locks_sign i t). pose proof (b2z_bound (r_submit_held (u_rings u i))). apply C6; [|lia].
      destruct (r_submit_held (u_rings u i)); [done|cbn in Hge; lia].
    + intros Hr a c. pose proof (total_ge2 u_reaps (u_threads s) j k t t2 u_reaps_sign Hne Hj Hk). pose proof (u_reaps_sign t). apply C6. lia.
  - rewrite (total_update _ _ _ t) by done. lia.
Qed.

Lemma spare_mono rings ctx rings' ctx' i a :
  spare rings ctx i a -> ctx' !! a = ctx !! a -> occ a (taken_refs (rings' i)) <= occ a (taken_refs (rings i)) -> spare rings' ctx' i a.
Proof.
  intros (c & Hc & E1 & E2 & E3 & E4) Ec Ho. exists c. rewrite Ec. split_and!; try done. pose proof (occ_nonneg a (taken_refs (rings' i))). lia.
Qed.

(** A step that leaves rings and contexts alone. *)
Lemma uinv_quiet s j t t' u' :
  uinv s -> u_threads s !! j = Some t -> let u := u_shared s in
  u_rings u' = u_rings u -> u_ctx u' = u_ctx u -> u_accepted u' = u_accepted u -> u_taken u' = u_taken u -> u_delivered u' = u_delivered u ->
  u_in_flight u' - u_in_flight u = u_guard t' - u_guard t -> fds_live (u_files u') (u_os u') (u_ctx u) ->
  (forall i, u_locks i t' = u_locks i t) ->
  (thread_ok (u_rings u) (u_ctx u) t -> thread_ok (u_rings u) (u_ctx u) t') -> u_reaps t' <= u_reaps t ->
  uinv (USystem u' (<[j := t']> (u_threads s))).
Proof.
  intros HI Hj u E1 E2 E5 E6 E7 E8 Hf E9 Ht Hr. eapply uinv_move; try done; fold u; rewrite ?E1, ?E2, ?E5, ?E6, ?E7; try apply HI; try done; try lia.
  - intros i. rewrite E9. lia.
  - apply Ht. by eapply ui_thread.
Qed.

Lemma uinv_local s j t t' u' :
  uinv s -> u_threads s !! j = Some t -> let u := u_shared s in
  u_rings u' = u_rings u -> u_ctx u' = u_ctx u -> u_files u' = u_files u -> u_os u' = u_os u ->
  u_accepted u' = u_accepted u -> u_taken u' = u_taken u -> u_delivered u' = u_delivered u ->
  u_in_flight u' - u_in_flight u = u_guard t' - u_guard t -> (forall i, u_locks i t' = u_locks i t) ->
  (thread_ok (u_rings u) (u_ctx u) t -> thread_ok (u_rings u) (u_ctx u) t') -> u_reaps t' <= u_reaps t ->
  uinv (USystem u' (<[j := t']> (u_threads s))).
Proof. intros HI Hj u E1 E2 E3 E4. intros. eapply uinv_quiet; try done. fold u. rewrite E3, E4. apply HI. Qed.

Local Ltac quiet_step := first [eapply uinv_local; [done|done|..] | eapply uinv_quiet; [done|done|..]]; repeat match goal with x := u_shared _ |- _ => subst x end; try done; cbn; try done; try lia.

(** Ring [i], which nobody else has latched, changes. *)
Lemma uinv_ring s j t t' u' i r :
  uinv s -> u_threads s !! j = Some t -> let u := u_shared s in u' = set_ring i r u ->
  (r_submit_held (u_rings u i) = false \/ u_locks i t = 1 \/
   r_sq r = r_sq (u_rings u i) /\ r_broken r = r_broken (u_rings u i) /\ forall a, occ a (taken_refs r) <= occ a (taken_refs (u_rings u i))) ->
  (forall a, occ a (refs r) <= occ a (refs (u_rings u i))) -> (forall e, e ∈ live_entries r -> e ∈ live_entries (u_rings u i)) ->
  b2z (r_submit_held r) - b2z (r_submit_held (u_rings u i)) = u_locks i t' - u_locks i t -> (forall k, k <> i -> u_locks k t' = u_locks k t) ->
  u_guard t' = u_guard t -> u_reaps t' <= u_reaps t -> thread_ok (u_rings u') (u_ctx u') t' ->
  uinv (USystem u' (<[j := t']> (u_threads s))).
Proof.
  intros HI Hj u -> Hfree Hr He Hh Hk Hg Hrp Ht. assert (forall k, (<[i := r]> (u_rings u)) k = if decide (k = i) then r else u_rings u k) as Hlk.
  { intros k. destruct (decide (k = i)) as [->|Hne]; [by rewrite fn_lookup_insert|by rewrite fn_lookup_insert_ne]. }
  eapply uinv_move; try done; fold u; cbn [set_ring u_rings u_ctx u_files u_os u_in_flight u_accepted u_taken u_delivered] in *; try apply HI; try lia.
  - eapply heap_rings; [apply HI|..]; fold u; intros k; rewrite Hlk; by destruct (decide (k = i)) as [->|Hne].
  - intros k. rewrite Hlk. destruct (decide (k = i)) as [->|Hne]; [done|]. rewrite Hk by done. lia.
  - split; [|done]. intros k Hheld Hl. rewrite Hlk. destruct (decide (k = i)) as [->|Hne].
    + destruct Hfree as [?|[?|(E1 & E2 & E3)]]; [congruence|lia|]. split_and!; try done. intros a Ha. eapply spare_mono; [done|done|].
      rewrite Hlk, decide_True by done. apply E3.
    + split_and!; try done. intros a Ha. eapply spare_mono; [done|done|]. by rewrite Hlk, decide_False.
Qed.

(** ** Submitting *)

Lemma step_lock s j own i reqs t' u' o :
  uinv s -> u_threads s !! j = Some (ULock i reqs) -> ustep own o (ULock i reqs) (u_shared s) = Some (t', u') ->
  uinv (USystem u' (<[j := t']> (u_threads s))).
Proof.
  intros HI Hj Hs. cbn [ustep submit_step reap_step reap_ring_step stop_step] in Hs. destruct (r_submit_held _) eqn:Eh; [done|]. injection Hs as Et <-.
  eapply (uinv_ring s j _ _ _ i); try done; rewrite <- ?Et; destruct (r_broken (u_rings (u_shared s) i)) eqn:Eb; cbn; rewrite ?Eh, ?bool_decide_true; auto; try lia.
  - intros k Hk. by rewrite bool_decide_false by done.
  - intros k Hk. by rewrite bool_decide_false by done.
  - exists (entry_addresses (r_sq (u_rings (u_shared s) i))), [], []. cbn. rewrite fn_lookup_insert. cbn. rewrite app_nil_r.
    split_and!; try done; try apply NoDup_nil_2; intros a; set_solver.
Qed.

Lemma transfer_addresses a iov offset c :
  ctx_of a = a -> entry_addresses (transfer_entries a iov offset c) = replicate (entry_count c) a /\
  forall e, e ∈ transfer_entries a iov offset c -> s_fd e = c_fd c /\ ctx_of (s_data e) = a.
Proof.
  intros Ea. unfold transfer_entries, entry_count. destruct (c_sync c); cbn; rewrite ?ctx_of_sync, Ea; (split; [done|]).
  - intros e [->|[->|?%not_elem_of_nil]%elem_of_cons]%elem_of_cons; cbn; by rewrite ?ctx_of_sync.
  - intros e [->|?%not_elem_of_nil]%elem_of_cons; done.
Qed.

Lemma request_addresses g a c :
  ctx_of a = a -> (operation (c_request c) = kSync -> c_sync c = false) ->
  entry_addresses (request_entries g a c) = replicate (entry_count c) a /\
  forall e, e ∈ request_entries g a c -> s_fd e = c_fd c /\ ctx_of (s_data e) = a.
Proof.
  intros Ea Hs. unfold request_entries. destruct (operation (c_request c)); try by apply transfer_addresses.
  unfold entry_count. rewrite Hs by done. cbn. rewrite Ea. split; [done|]. intros e [->|?%not_elem_of_nil]%elem_of_cons; done.
Qed.

(** Entries are added to the queue of a ring that works. *)
Lemma refs_push r es a : r_broken r = false ->
  occ a (refs (set_submit (r_sq r ++ es) (r_kernel r) false (r_submit_held r) r)) = occ a (refs r) + occ a (entry_addresses es).
Proof.
  intros Eb. rewrite !refs_split, Eb. cbn [r_broken set_submit r_sq]. unfold entry_addresses at 1. rewrite fmap_app, occ_app.
  change (taken_refs (set_submit _ _ _ _ r)) with (taken_refs r). unfold entry_addresses. lia.
Qed.

Lemma occ_replicate_ne a b n : b <> a -> occ b (replicate n a) = 0.
Proof. intros Hne. apply occ_notin. intros [? _]%elem_of_replicate. done. Qed.

(** A context is added with its entries. *)
Lemma step_prepared s j i rest prepared a c f os r :
  uinv s -> u_threads s !! j = Some (UPrepare i (r :: rest) prepared) -> fresh_address a (u_shared s) ->
  let u := u_shared s in let rg := u_rings u i in
  c_request c = r -> c_ring c = i -> c_done c = 0 -> c_pending c = Z.of_nat (entry_count c) -> (operation r = kSync -> c_sync c = false) ->
  fds_live f os (<[a := c]> (u_ctx u)) ->
  uinv (USystem (note [token r] [] [] (set_in_flight (u_in_flight u + 1) (set_ctx (<[a := c]> (u_ctx u))
    (set_ring i (set_submit (r_sq rg ++ request_entries (u_geometry u) a c) (r_kernel rg) (r_broken rg) (r_submit_held rg) rg) (set_fds f os u)))))
    (<[j := UPrepare i rest (prepared ++ [(a, entry_count c)])]> (u_threads s))).
Proof.
  intros HI Hj [Ea Hnew] u rg Er Ei Ed Ep Hsync Hf. fold u in Hnew. pose proof (ui_thread _ HI j _ Hj) as Ht. cbn [thread_ok] in Ht. fold u in Ht.
  destruct Ht as (L & A & B & E1 & E2 & E3 & E4 & E5 & E6 & E7). destruct A; [|cbn in E5; lia]. cbn in E3. subst B.
  destruct (request_addresses (u_geometry u) a c Ea) as [Ha Hfd]; [by rewrite Er|]. set (es := request_entries _ _ _) in *.
  pose proof (ui_heap _ HI) as HO. fold u in HO. assert (forall k, occ a (refs (u_rings u k)) = 0) as Hz by (intros k; by eapply heap_none).
  assert (0 < Z.of_nat (entry_count c)) as Hcount by (unfold entry_count; destruct (c_sync c); lia).
  assert (r_broken rg = false) as Eb by done. rewrite Eb. set (r' := set_submit _ _ _ _ rg).
  assert (forall wt, live_weight wt (<[a := c]> (u_ctx u)) = wt (token r) + live_weight wt (u_ctx u)) as Hw.
  { intros wt. unfold live_weight. by rewrite total_insert_new, Er. }
  assert (forall k x, x <> a -> spare (u_rings u) (u_ctx u) k x -> spare (<[i := r']> (u_rings u)) (<[a := c]> (u_ctx u)) k x) as Hsp.
  { intros k x Hx Hspare. eapply spare_mono; [done|by rewrite lookup_insert_ne|]. destruct (decide (k = i)) as [->|Hne]; [by rewrite fn_lookup_insert|by rewrite fn_lookup_insert_ne]. }
  eapply uinv_move; try done; fold u; cbn; try done; try lia.
  - apply (heap_put (u_rings u)); try done; try lia; rewrite ?Ei, ?fn_lookup_insert; fold rg.
    + intros c0 Hc0. congruence.
    + intros k Hk. by rewrite fn_lookup_insert_ne.
    + intros b Hb. unfold r'. rewrite refs_push, Ha, occ_replicate_ne by done. lia.
    + unfold r'. rewrite refs_push, Ha, occ_replicate by done. unfold rg. rewrite Hz. lia.
    + intros e. unfold r', live_entries. cbn. rewrite Eb, !elem_of_app. intros [[He|He]|He]; auto.
  - intros k. destruct (decide (k = i)) as [->|Hne]; [rewrite fn_lookup_insert; cbn; unfold rg; lia|]. rewrite fn_lookup_insert_ne by done. lia.
  - rewrite Hw. lia.
  - intros wt. rewrite Hw, !app_nil_r, weigh_app. unfold weigh at 2. cbn. lia.
  - split.
    + intros k Hheld Hl. cbn in Hl. assert (k <> i) as Hne by (intros ->; by rewrite bool_decide_true in Hl).
      rewrite fn_lookup_insert_ne by done. split_and!; try done. intros x Hx. apply Hsp; [|done]. destruct Hx as (cx & Hcx & _). congruence.
    + intros b d _ Hb _. rewrite lookup_insert_ne; [done|congruence].
  - exists L, [], (flat_prepared (prepared ++ [(a, entry_count c)])). rewrite fn_lookup_insert. cbn [r_broken r' set_submit r_sq].
    assert (a ∉ prepared.*1) as Hnp.
    { intros Hin. destruct (E7 a Hin) as (cx & Hcx & _); [apply not_elem_of_nil|congruence]. }
    split_and!; try done; try lia.
    + rewrite fmap_app. apply list.NoDup_app. split_and!; [done|..|apply NoDup_singleton]. cbn. intros x Hx ->%list_elem_of_singleton. done.
    + unfold entry_addresses in *. rewrite fmap_app. unfold rg. rewrite E4, Ha, flat_app. cbn. by rewrite app_nil_r, app_assoc.
    + intros x Hx Hin. rewrite fmap_app in Hin. apply elem_of_app in Hin as [Hin|Hin]; [by eapply E6|]. cbn in Hin. apply list_elem_of_singleton in Hin as ->.
      assert (1 <= occ a (refs (u_rings u i))); [|rewrite Hz in *; lia]. rewrite refs_split, E1, E4, occ_app. pose proof (occ_elem a L Hx).
      pose proof (occ_nonneg a (flat_prepared prepared)). pose proof (occ_nonneg a (taken_refs (u_rings u i))). lia.
    + intros x Hx _. rewrite fmap_app in Hx. apply elem_of_app in Hx as [Hx|Hx].
      * apply Hsp; [congruence|]. apply E7; [done|apply not_elem_of_nil].
      * cbn in Hx. apply list_elem_of_singleton in Hx as ->. exists c. rewrite lookup_insert_eq, fn_lookup_insert. split_and!; try done; try lia.
        pose proof (Hz i) as Hi. rewrite refs_split, E1 in Hi. pose proof (occ_nonneg a (entry_addresses (r_sq (u_rings u i)))).
        pose proof (occ_nonneg a (taken_refs (u_rings u i))). change (taken_refs r') with (taken_refs (u_rings u i)). lia.
Qed.

Lemma step_prepare s j own i r rest prepared t' u' o :
  uinv s -> u_threads s !! j = Some (UPrepare i (r :: rest) prepared) -> fresh_address (o_address o) (u_shared s) ->
  ustep own o (UPrepare i (r :: rest) prepared) (u_shared s) = Some (t', u') -> uinv (USystem u' (<[j := t']> (u_threads s))).
Proof.
  intros HI Hj Hnew Hs. cbn [ustep submit_step reap_step reap_ring_step stop_step] in Hs. unfold PrepareLocked in Hs. destruct (ValidateDiskRequest r _) as [v|e].
  2: { injection Hs as <- <-. quiet_step. }
  cbn zeta in Hs. set (u := u_shared s) in *. set (sync := match operation r with kWrite => u_sync_on_write u | _ => false end) in Hs.
  destruct (_ <? _)%nat; [injection Hs as <- <-; quiet_step|]. set (a := o_address o) in *. set (f := file_id (request_tag r)) in *.
  pose proof (fun c Hc => fds_live_acquire _ _ _ f a c (ui_fds _ HI) (proj2 Hnew) Hc) as Hacq. fold u in Hacq.
  destruct (Acquire f (u_files u) (u_os u)) as [[[fd|e] fs] os] eqn:Eacq.
  2: { injection Hs as <- <-. eapply uinv_quiet; try done; try (unfold u; cbn; lia). apply (Hacq (Context_ r i 0 0 0 false 0 0 0) eq_refl). }
  cbn [set_fds u_files u_os u_test_submit u_test_completion u_geometry u_rings u_ctx u_in_flight] in Hs. destruct (u_test_submit u) as [forced|].
  - set (c := Context_ r i fd 0 0 false 0 0 0). pose proof (Hacq c eq_refl eq_refl) as HL.
    pose proof (fds_live_release fs os (<[a := c]> (u_ctx u)) a c HL ltac:(apply lookup_insert_eq)) as HR. change (cfile c) with f in HR.
    rewrite delete_insert_id in HR by apply Hnew. destruct (Release f fs os) as [fs' os']. injection Hs as Et <-.
    assert (exists e, t' = ULoop i prepared 0 (Err e)) as [e ->] by (rewrite <- Et; destruct (forced =? 0); by eexists).
    eapply uinv_quiet; try done. unfold u. cbn. lia.
  - injection Hs as <- <-. apply (step_prepared s); try done.
    + unfold entry_count. cbn [c_sync c_pending]. by destruct sync.
    + cbn. unfold sync. by intros ->.
    + by apply Hacq.
Qed.

(** Submitting moves entries from the queue to the system. *)
Lemma refs_submit n r a : r_broken r = false -> occ a (refs (submit_entries n r)) = occ a (refs r).
Proof.
  intros Eb. rewrite !refs_split. unfold submit_entries, taken_refs. cbn [set_submit r_broken r_sq r_kernel r_cq]. rewrite Eb.
  rewrite <- (take_drop n (r_sq r)) at 3. unfold entry_addresses. rewrite !fmap_app, !occ_app. lia.
Qed.

Lemma entries_submit n r e : r_broken r = false -> e ∈ live_entries (submit_entries n r) -> e ∈ live_entries r.
Proof.
  intros Eb. unfold live_entries, submit_entries. cbn [set_submit r_broken r_sq r_kernel]. rewrite Eb, !elem_of_app.
  intros [He|[He|He]]; [left; by eapply subseteq_drop|by right|left; by eapply subseteq_take].
Qed.

Lemma loop_submit rings ctx i prepared consumed n :
  loop_ok rings ctx i prepared consumed -> loop_ok (<[i := submit_entries n (rings i)]> rings) ctx i prepared (consumed + n).
Proof.
  intros (L & A & B & E1 & E2 & E3 & E4 & E5 & E6 & E7). exists (drop n L), (A ++ take (n - length L) B), (drop (n - length L) B).
  rewrite fn_lookup_insert. cbn [submit_entries set_submit r_broken r_sq]. split_and!; try done.
  - by rewrite <- app_assoc, take_drop.
  - unfold entry_addresses in *. by rewrite fmap_drop, E4, drop_app.
  - rewrite length_app, length_take. lia.
  - intros a Ha. apply E6. by eapply subseteq_drop.
  - intros a Ha [Hn1 Hn2]%not_elem_of_app. destruct (E7 a Ha Hn1) as (c & Hc & J1 & J2 & J3 & J4). exists c. split_and!; try done.
    rewrite fn_lookup_insert. unfold taken_refs, submit_entries in *. cbn [set_submit r_kernel r_cq]. unfold entry_addresses in *.
    rewrite occ_app in J4. rewrite fmap_app, !occ_app, fmap_take, E4, take_app, occ_app.
    rewrite (occ_notin a (take n L)), (occ_notin a (take _ B)); [lia|done|].
    intros Hin. eapply E6; [by eapply subseteq_take|done].
Qed.

Lemma loop_broken rings ctx i prepared consumed r :
  loop_ok rings ctx i prepared consumed -> r_broken r = true -> taken_refs r = taken_refs (rings i) ->
  back_ok (<[i := r]> rings) ctx i (drop (count_started prepared.*2 consumed) prepared).
Proof.
  intros (L & A & B & E1 & E2 & E3 & E4 & E5 & E6 & E7) Eb Er. split; [by rewrite fn_lookup_insert|]. split.
  - rewrite fmap_drop. rewrite <- (take_drop (count_started prepared.*2 consumed) prepared.*1) in E2. by apply list.NoDup_app in E2 as (_ & _ & ?).
  - intros a Ha. assert (a ∈ prepared.*1) as Hin by (rewrite fmap_drop in Ha; by eapply subseteq_drop).
    eapply spare_mono; [apply E7; [done|by eapply unstarted_untaken]|done|]. by rewrite fn_lookup_insert, Er.
Qed.

Lemma step_loop s j own i prepared consumed err t' u' o :
  uinv s -> u_threads s !! j = Some (ULoop i prepared consumed err) ->
  ustep own o (ULoop i prepared consumed err) (u_shared s) = Some (t', u') -> uinv (USystem u' (<[j := t']> (u_threads s))).
Proof.
  intros HI Hj Hs. cbn [ustep submit_step reap_step reap_ring_step stop_step] in Hs. set (u := u_shared s) in *. pose proof (ui_thread _ HI j _ Hj) as Ht. cbn [thread_ok] in Ht. fold u in Ht.
  assert (uinv (USystem u (<[j := UUnlock i prepared err]> (u_threads s)))) as Hstop by quiet_step.
  pose proof Ht as (_ & _ & _ & Eb & _). assert (u_locks i (ULoop i prepared consumed err) = 1) as Hl by (cbn; by rewrite bool_decide_true).
  destruct prepared as [|p prepared]; [by injection Hs as <- <-|]. destruct (r_sq (u_rings u i)) as [|e sq] eqn:Esq; [by injection Hs as <- <-|].
  set (all := p :: prepared) in *. destruct (Z.leb_spec 0 (o_answer o)).
  - injection Hs as <- <-. eapply (uinv_ring s j _ _ _ i); try done; fold u; auto; try (cbn; lia).
    + intros a. by rewrite refs_submit.
    + intros x. by apply entries_submit.
    + by apply loop_submit.
  - destruct (_ || _ || _); [injection Hs as <- <-; quiet_step|]. injection Hs as <- <-.
    eapply (uinv_ring s j _ _ _ i); try done; fold u; auto; try (cbn; lia).
    + intros a. by apply refs_broken.
    + intros x. unfold live_entries. cbn. rewrite Eb. intros Hx. apply elem_of_app. by right.
    + cbn [thread_ok set_ring u_rings u_ctx]. by apply (loop_broken _ _ _ all consumed).
Qed.

Lemma step_unlock s j own i kept err t' u' o :
  uinv s -> u_threads s !! j = Some (UUnlock i kept err) -> ustep own o (UUnlock i kept err) (u_shared s) = Some (t', u') ->
  uinv (USystem u' (<[j := t']> (u_threads s))).
Proof.
  intros HI Hj Hs. cbn [ustep submit_step reap_step reap_ring_step stop_step] in Hs. injection Hs as <- <-. assert (r_submit_held (u_rings (u_shared s) i) = true) as Eh.
  { pose proof (total_ge (u_locks i) _ j _ (u_locks_sign i) Hj) as Hg. rewrite (ui_latch _ HI i) in Hg. cbn in Hg. rewrite bool_decide_true in Hg by done.
    destruct (r_submit_held _); [done|]. cbn in Hg. lia. }
  eapply (uinv_ring s j _ _ _ i); try done; cbn; rewrite ?bool_decide_true by done; auto; [by rewrite Eh|].
  intros k Hk. by rewrite bool_decide_false.
Qed.

(** A context without references is deleted. *)
Lemma uinv_forget s j t t' u' a c :
  uinv s -> u_threads s !! j = Some t -> let u := u_shared s in
  u_ctx u !! a = Some c -> occ a (refs (u_rings u (c_ring c))) = 0 ->
  u_rings u' = u_rings u -> u_ctx u' = delete a (u_ctx u) -> (u_files u', u_os u') = Release (cfile c) (u_files u) (u_os u) ->
  u_in_flight u' = u_in_flight u - 1 -> u_accepted u' = u_accepted u ->
  (forall wt, weigh wt (u_taken u') + weigh wt (u_delivered u').*1 = weigh wt (u_taken u) + weigh wt (u_delivered u).*1 + wt (token (c_request c))) ->
  (forall k, u_locks k t' = u_locks k t) -> u_guard t' = u_guard t -> u_reaps t' <= u_reaps t ->
  (forall k, u_locks k t = 0 -> ~ spare (u_rings u) (u_ctx u) k a) -> (u_reaps t = 0 -> 0 < c_pending c /\ c_done c = 0) ->
  thread_ok (u_rings u) (delete a (u_ctx u)) t' ->
  uinv (USystem u' (<[j := t']> (u_threads s))).
Proof.
  intros HI Hj u Hc Hz Er Ec Ef Eif Ea Ew El Eg Hr Hsp Hown Ht.
  assert (forall wt, live_weight wt (u_ctx u) = wt (token (c_request c)) + live_weight wt (delete a (u_ctx u))) as Hw.
  { intros wt. exact (total_delete (fun d => wt (token (c_request d))) (u_ctx u) a c Hc). }
  eapply uinv_move; try done; fold u; rewrite ?Er, ?Ec, ?Ea; try done.
  - by eapply heap_delete; [apply HI|..].
  - pose proof (fds_live_release _ _ _ a c (ui_fds _ HI) Hc) as HL. fold u in HL. rewrite <- Ef in HL. done.
  - intros k. rewrite El. lia.
  - rewrite Eif, Eg, (Hw (fun _ => 1)). lia.
  - intros wt. specialize (Ew wt). specialize (Hw wt). lia.
  - split.
    + intros k _ Hl. split_and!; try done. intros x Hx. eapply spare_mono; [done| |done]. apply lookup_delete_ne. intros <-. by eapply Hsp.
    + intros b d Hr0 Hb Hd. rewrite lookup_delete_ne; [done|]. intros <-. destruct (Hown Hr0). replace d with c in Hd by congruence. lia.
Qed.

Lemma step_back s j own i a n rest kept err t' u' o :
  uinv s -> u_threads s !! j = Some (UTakeBack i ((a, n) :: rest) kept err) ->
  ustep own o (UTakeBack i ((a, n) :: rest) kept err) (u_shared s) = Some (t', u') -> uinv (USystem u' (<[j := t']> (u_threads s))).
Proof.
  intros HI Hj Hs. cbn [ustep submit_step reap_step reap_ring_step stop_step] in Hs. set (u := u_shared s) in *. pose proof (ui_thread _ HI j _ Hj) as (E1 & E2 & E3). fold u in E1, E3.
  apply list.NoDup_cons in E2 as [E2a E2b]. destruct (E3 a) as (c & Hc & Ei & Hp & Hd & Ho); [by left|]. rewrite Hc in Hs. cbn in Hs.
  destruct (Release _ (u_files u) (u_os u)) as [f os] eqn:Er. injection Hs as <- <-. eapply (uinv_forget s j _ _ _ a c); try done; fold u; cbn; try lia.
  - rewrite Ei, refs_split, E1, Ho. lia.
  - apply app_nil_r.
  - intros wt. rewrite app_nil_r, weigh_app. unfold weigh at 2. cbn. lia.
  - intros k Hl (c' & Hc' & Ek & _). rewrite Hc in Hc'. injection Hc' as <-. rewrite bool_decide_true in Hl by congruence. done.
  - split; [done|]. split; [done|]. intros x Hx. eapply spare_mono; [apply E3; by right| |done]. apply lookup_delete_ne. intros <-. by apply E2a.
Qed.

Lemma step_finish_ctx s j own a rest out k t' u' o :
  uinv s -> u_threads s !! j = Some (UFinishCtx a rest out k) -> ustep own o (UFinishCtx a rest out k) (u_shared s) = Some (t', u') ->
  uinv (USystem u' (<[j := t']> (u_threads s))).
Proof.
  intros HI Hj Hs. cbn [ustep submit_step reap_step reap_ring_step stop_step] in Hs. set (u := u_shared s) in *. pose proof (ui_thread _ HI j _ Hj) as [Hnd Hall]. fold u in Hall.
  apply list.NoDup_cons in Hnd as [Hna Hnd]. destruct (Hall a) as (c & Hc & Hp); [by left|]. rewrite Hc in Hs. cbn in Hs. unfold FinishContext in Hs.
  destruct (finish_status _ c _) as [st m]. destruct (Release _ (u_files u) (u_os u)) as [f os] eqn:Er.
  assert (thread_ok (u_rings u) (delete a (u_ctx u)) (UFinish rest (out ++ [(token (c_request c), st)]) k)) as Hnext.
  { split; [done|]. intros x Hx. destruct (Hall x) as (d & Hd & Hpd); [by right|]. exists d. split; [|done]. rewrite lookup_delete_ne; [done|congruence]. }
  injection Hs as Et <-. eapply (uinv_forget s j _ _ _ a c); try done; fold u; cbn; try done; rewrite <- ?Et; try (by destruct (u_in_flight u =? 1)).
  - pose proof (hp_refs _ _ (ui_heap _ HI) a (c_ring c)) as Hr. fold u in Hr. unfold credit in Hr. rewrite Hc, decide_True, Hp in Hr by done.
    pose proof (occ_nonneg a (refs (u_rings u (c_ring c)))). lia.
  - by rewrite !app_nil_r.
  - intros wt. rewrite app_nil_r, fmap_app, weigh_app. unfold weigh at 3. cbn. lia.
  - intros i _ (c' & Hc' & _ & Hp' & _). rewrite Hc in Hc'. injection Hc' as <-. lia.
Qed.

(** ** Reaping *)

Lemma live_weight_update wt ctx a c c' :
  ctx !! a = Some c -> c_request c' = c_request c -> live_weight wt (<[a := c']> ctx) = live_weight wt ctx.
Proof. intros Ha Er. unfold live_weight. rewrite (total_update _ ctx a c) by done. rewrite Er. lia. Qed.

Record same_rest (u u' : uring (S := S)) : Prop := {
  sr_files : u_files u' = u_files u;
  sr_os : u_os u' = u_os u;
  sr_flight : u_in_flight u' = u_in_flight u;
  sr_accepted : u_accepted u' = u_accepted u;
  sr_taken : u_taken u' = u_taken u;
  sr_delivered : u_delivered u' = u_delivered u
}.

(** The results of a context change, with its ring. *)
Record same_context (c c' : RequestContext) : Prop := {
  sc_request : c_request c' = c_request c;
  sc_ring : c_ring c' = c_ring c;
  sc_fd : c_fd c' = c_fd c
}.

(** A reaper changes a context that is nobody's spare, and its ring. *)
Lemma uinv_update s j t t' u' a c c' :
  uinv s -> u_threads s !! j = Some t -> let u := u_shared s in let i := c_ring c in
  u_ctx u !! a = Some c -> same_context c c' -> 0 <= c_done c' -> u_ctx u' = <[a := c']> (u_ctx u) -> same_rest u u' ->
  c_pending c = 0 \/ 0 < c_done c \/ 0 < occ a (taken_refs (u_rings u i)) ->
  (forall k, k <> i -> u_rings u' k = u_rings u k) -> r_submit_held (u_rings u' i) = r_submit_held (u_rings u i) ->
  (r_submit_held (u_rings u i) = true -> r_sq (u_rings u' i) = r_sq (u_rings u i) /\ r_broken (u_rings u' i) = r_broken (u_rings u i) /\
     forall b, occ b (taken_refs (u_rings u' i)) <= occ b (taken_refs (u_rings u i))) ->
  (forall b, b <> a -> occ b (refs (u_rings u' i)) <= occ b (refs (u_rings u i))) -> occ a (refs (u_rings u' i)) <= c_pending c' ->
  (forall e, e ∈ live_entries (u_rings u' i) -> e ∈ live_entries (u_rings u i) \/ s_fd e = c_fd c /\ ctx_of (s_data e) = a) ->
  u_reaps t = 1 -> u_reaps t' <= 1 -> u_guard t' = u_guard t -> (forall k, u_locks k t' = u_locks k t) ->
  thread_ok (u_rings u') (u_ctx u') t' ->
  uinv (USystem u' (<[j := t']> (u_threads s))).
Proof.
  intros HI Hj u i Hc [X1 X2 X3] Hd Ec [Y1 Y2 Y3 Y4 Y5 Y6] Hns Hk Hheld Hlat Hb Ha He Hr1 Hr2 Hg Hl Ht. pose proof (ui_heap _ HI) as HO. fold u in HO.
  assert (forall k x, spare (u_rings u) (u_ctx u) k x -> x <> a) as Hne.
  { intros k x (d & Hdx & Ek & Hp & Hd0 & Ho) ->. rewrite Hc in Hdx. injection Hdx as <-. subst k. fold i in Ho. lia. }
  eapply uinv_move; try done; fold u; rewrite ?Y1, ?Y2, ?Y3, ?Y4, ?Y5, ?Y6, ?Hg; try rewrite Ec.
  - apply (heap_put (u_rings u)); rewrite ?X2, ?X3; try done; [by apply (hp_ctx _ _ HO a c)|].
    intros c0 Hc0. rewrite Hc in Hc0. by injection Hc0 as <-.
  - eapply fds_live_update; [apply HI|done..].
  - intros k. rewrite Hl. destruct (decide (k = i)) as [->|Hki]; [rewrite Hheld|rewrite Hk by done]; lia.
  - rewrite (live_weight_update _ _ a c c') by done. lia.
  - intros wt. rewrite (live_weight_update _ _ a c c') by done. lia.
  - split; [|by rewrite Hr1]. intros k Hh _. destruct (decide (k = i)) as [->|Hki].
    + destruct (Hlat Hh) as (L1 & L2 & L3). split_and!; try done. intros x Hx. eapply spare_mono; [done| |done]. rewrite lookup_insert_ne; [done|]. symmetry. by eapply Hne.
    + rewrite Hk by done. split_and!; try done. intros x Hx. eapply spare_mono; [done| |by rewrite Hk]. rewrite lookup_insert_ne; [done|]. symmetry. by eapply Hne.
  - lia.
Qed.

Lemma step_ring_lock s j own i n k t' u' o :
  uinv s -> u_threads s !! j = Some (URingLock i n k) -> ustep own o (URingLock i n k) (u_shared s) = Some (t', u') ->
  uinv (USystem u' (<[j := t']> (u_threads s))).
Proof.
  intros HI Hj Hs. cbn [ustep submit_step reap_step reap_ring_step stop_step] in Hs. destruct (r_reap_held _); [done|]. injection Hs as <- <-.
  eapply (uinv_ring s j _ _ _ i); try done; auto; cbn; try done; try lia; [by right; right|]. split; [apply NoDup_nil_2|]. intros a Ha. by apply not_elem_of_nil in Ha.
Qed.

Lemma refs_pop r data res cq held a : r_cq r = (data, res) :: cq ->
  occ a (refs r) = b2z (bool_decide (ctx_of data = a)) + occ a (refs (set_cq cq held r)) /\
  occ a (taken_refs r) = b2z (bool_decide (ctx_of data = a)) + occ a (taken_refs (set_cq cq held r)).
Proof.
  intros E. rewrite !refs_split. change (r_broken (set_cq cq held r)) with (r_broken r). change (r_sq (set_cq cq held r)) with (r_sq r).
  unfold taken_refs. cbn [set_cq r_kernel r_cq]. rewrite E. cbn [result_addresses fmap list_fmap fst]. rewrite !occ_app, occ_cons. unfold result_addresses.
  set (x := b2z _). split; lia.
Qed.

Lemma step_peek s j own i n finished k t' u' o :
  uinv s -> u_threads s !! j = Some (UPeek i n finished k) -> ustep own o (UPeek i n finished k) (u_shared s) = Some (t', u') ->
  uinv (USystem u' (<[j := t']> (u_threads s))).
Proof.
  intros HI Hj Hs. cbn [ustep submit_step reap_step reap_ring_step stop_step] in Hs. set (u := u_shared s) in *. pose proof (ui_thread _ HI j _ Hj) as Ht. cbn [thread_ok] in Ht. fold u in Ht.
  pose proof (ui_heap _ HI) as HO. fold u in HO.
  assert (forall cq, uinv (USystem (set_ring i (set_cq (r_cq (u_rings u i)) cq (u_rings u i)) u) (<[j := UFinish finished [] k]> (u_threads s)))) as Hstop.
  { intros cq. eapply (uinv_ring s j _ _ _ i); try done; fold u; auto; cbn; try done; try lia. by right; right. }
  destruct (r_cq (u_rings u i)) as [|[data res] cq] eqn:Ecq; [injection Hs as <- <-; apply (Hstop false)|].
  destruct (length finished <? n)%nat; [|injection Hs as <- <-; apply (Hstop false)].
  set (a := ctx_of data) in *. destruct (refs_pop (u_rings u i) data res cq true a Ecq) as [P1 P2]. fold a in P1, P2.
  rewrite bool_decide_true in P1, P2 by done. cbn [b2z] in P1, P2. set (rg' := set_cq cq true (u_rings u i)) in *.
  pose proof (occ_nonneg a (refs rg')). pose proof (occ_nonneg a (taken_refs rg')).
  destruct (heap_live _ _ a i HO ltac:(lia)) as (c & Hc & Ei & Hp). rewrite Hc in Hs. cbn [mbind option_bind] in Hs.
  assert (exists c' u1, take_result data res c (set_ring i rg' u) = (c', u1) /\ same_context c c' /\ c_done c' = c_done c /\ c_pending c' = c_pending c - 1 /\
    u_ctx u1 = u_ctx u /\ u_rings u1 = <[i := rg']> (u_rings u) /\ same_rest u u1) as (c' & u1 & Etr & Hsc & Hdone & Hpend & Ec1 & Er1 & Hsr).
  { unfold take_result. destruct (is_sync data); eexists _, _; by split_and!. }
  rewrite Etr in Hs. injection Hs as <- <-.
  assert (forall b, occ b (refs rg') <= occ b (refs (u_rings u i)) /\ occ b (taken_refs rg') <= occ b (taken_refs (u_rings u i))) as Hle.
  { intros b. destruct (refs_pop (u_rings u i) data res cq true b Ecq) as [Q1 Q2]. fold rg' in Q1, Q2. pose proof (b2z_bound (bool_decide (ctx_of data = b))). lia. }
  subst i.
  eapply (uinv_update s j _ _ _ a c c'); try done; fold u; cbn [set_ctx u_ctx u_rings]; rewrite ?Ec1, ?Er1, ?fn_lookup_insert; try done.
  - rewrite Hdone. by apply (hp_ctx _ _ HO a c).
  - by destruct Hsr.
  - right. right. lia.
  - intros x Hx. by rewrite fn_lookup_insert_ne.
  - intros _. split_and!; try done. intros b. apply Hle.
  - intros b _. apply Hle.
  - lia.
  - auto.
  - destruct Ht as [Hnd Hall]. assert (a ∉ finished) as Hna by (intros Hin; destruct (Hall a Hin) as (d & Hd & ?); assert (d = c) as -> by congruence; lia).
    assert (forall x, x ∈ finished -> exists d, <[a := c']> (u_ctx u) !! x = Some d /\ c_pending d = 0) as Hold.
    { intros x Hx. destruct (Hall x Hx) as (d & Hd & ?). exists d. rewrite lookup_insert_ne; [done|congruence]. }
    destruct (Z.eqb_spec (c_pending c') 0) as [E0|E0]; (split; [|]); try done.
    + apply list.NoDup_app. split_and!; [done|by intros x Hx ->%list_elem_of_singleton|apply NoDup_singleton].
    + intros x [Hx|Hx]%elem_of_app; [by apply Hold|]. apply list_elem_of_singleton in Hx as ->. exists c'. by rewrite lookup_insert_eq.
Qed.

(** A reaper's own contexts stay its own when another context changes. *)
Lemma own_put ctx a c l : own_ok ctx l -> a ∉ l -> own_ok (<[a := c]> ctx) l.
Proof.
  intros [Hnd Hall] Hna. split; [done|]. intros x Hx. destruct (Hall x Hx) as (d & Hd & Hp). exists d. split; [|done].
  rewrite lookup_insert_ne; [done|congruence].
Qed.

Lemma own_cons ctx a l : own_ok ctx (a :: l) <-> (exists c, ctx !! a = Some c /\ c_pending c = 0) /\ a ∉ l /\ own_ok ctx l.
Proof.
  unfold own_ok. rewrite list.NoDup_cons. split.
  - intros [[Hna Hnd] Hall]. split; [apply Hall; by left|]. split_and!; try done. intros x Hx. apply Hall. by right.
  - intros (Ha & Hna & Hnd & Hall). split; [done|]. intros x [->|Hx]%elem_of_cons; [done|by apply Hall].
Qed.

(** The results of a context change, and nothing else. *)
Lemma uinv_results s j t t' u' a c c' :
  uinv s -> u_threads s !! j = Some t -> let u := u_shared s in
  u_ctx u !! a = Some c -> same_context c c' -> 0 <= c_done c' -> u' = set_ctx (<[a := c']> (u_ctx u)) u ->
  c_pending c' = c_pending c -> c_pending c = 0 \/ 0 < c_done c ->
  u_reaps t = 1 -> u_reaps t' <= 1 -> u_guard t' = u_guard t -> (forall k, u_locks k t' = u_locks k t) ->
  thread_ok (u_rings u') (u_ctx u') t' -> uinv (USystem u' (<[j := t']> (u_threads s))).
Proof.
  intros HI Hj u Hc Hsc Hd -> Hp Hns Hr1 Hr2 Hg Hl Ht. eapply (uinv_update s j _ _ _ a c c'); try done; fold u; cbn; try done; [naive_solver| |by left].
  rewrite Hp. pose proof (hp_refs _ _ (ui_heap _ HI) a (c_ring c)) as Hr. fold u in Hr. unfold credit in Hr. by rewrite Hc, decide_True in Hr by done.
Qed.

Lemma step_finish s j own a rest out k t' u' o :
  uinv s -> u_threads s !! j = Some (UFinish (a :: rest) out k) -> ustep own o (UFinish (a :: rest) out k) (u_shared s) = Some (t', u') ->
  uinv (USystem u' (<[j := t']> (u_threads s))).
Proof.
  intros HI Hj Hs. cbn [ustep submit_step reap_step reap_ring_step stop_step] in Hs. pose proof (ui_thread _ HI j _ Hj) as Ht. cbn [thread_ok] in Ht. pose proof Ht as ((c & Hc & Hp) & Hna & Hown)%own_cons.
  rewrite Hc in Hs. cbn [mbind option_bind] in Hs. destruct (hp_ctx _ _ (ui_heap _ HI) a c Hc) as [_ Hd].
  destruct (Z.ltb_spec 0 (c_transfer c)); cbn [andb] in Hs; [destruct (_ <? _)|]; injection Hs as <- <-; [|quiet_step|quiet_step].
  eapply (uinv_results s j _ _ _ a c (set_done (c_done c + c_transfer c) c)); try done; cbn; auto; try lia.
  rewrite own_cons, lookup_insert_eq. split_and!; try done; [by eexists|by apply own_put|]. eexists. rewrite lookup_insert_eq. split; [done|]. cbn. lia.
Qed.

Lemma step_continued s j own a rest out k t' u' o :
  uinv s -> u_threads s !! j = Some (UContinued a rest out k) -> ustep own o (UContinued a rest out k) (u_shared s) = Some (t', u') ->
  uinv (USystem u' (<[j := t']> (u_threads s))).
Proof.
  intros HI Hj Hs. cbn [ustep submit_step reap_step reap_ring_step stop_step] in Hs. pose proof (ui_thread _ HI j _ Hj) as (Hown & Hna & c & Hc & Hd).
  rewrite Hc in Hs. cbn [mbind option_bind] in Hs. destruct (Z.ltb_spec 0 (c_pending c)); injection Hs as <- <-; [quiet_step|].
  assert (c_pending c = 0) as Hp.
  { pose proof (hp_refs _ _ (ui_heap _ HI) a (c_ring c)) as Hr. unfold credit in Hr. rewrite Hc, decide_True in Hr by done.
    pose proof (occ_nonneg a (refs (u_rings (u_shared s) (c_ring c)))). lia. }
  eapply (uinv_results s j _ _ _ a c (set_results (c_pending c) (- EIO) (c_sync_result c) c)); try done; cbn; auto; try lia.
  rewrite own_cons, lookup_insert_eq. split_and!; try done; [by eexists|by apply own_put].
Qed.

Lemma step_continue s j own a rest out k t' u' o :
  uinv s -> u_threads s !! j = Some (UContinue a rest out k) -> ustep own o (UContinue a rest out k) (u_shared s) = Some (t', u') ->
  uinv (USystem u' (<[j := t']> (u_threads s))).
Proof.
  intros HI Hj Hs. cbn [ustep submit_step reap_step reap_ring_step stop_step] in Hs. set (u := u_shared s) in *. pose proof (ui_thread _ HI j _ Hj) as [Hown (c & Hc & Hd)]. fold u in Hown, Hc.
  apply own_cons in Hown as ((c0 & Hc0 & Hp) & Hna & Hown). rewrite Hc in Hc0. injection Hc0 as <-. rewrite Hc in Hs. cbn [mbind option_bind] in Hs.
  destruct (r_submit_held (u_rings u (c_ring c))) eqn:Eh; [done|]. injection Hs as <- <-. pose proof (ui_heap _ HI) as HO. fold u in HO.
  destruct (hp_ctx _ _ HO a c Hc) as [Ea _]. assert (occ a (refs (u_rings u (c_ring c))) = 0) as Hz.
  { pose proof (hp_refs _ _ HO a (c_ring c)) as Hr. unfold credit in Hr. rewrite Hc, decide_True in Hr by done.
    pose proof (occ_nonneg a (refs (u_rings u (c_ring c)))). lia. }
  assert (forall c' rings', c_done c' = c_done c -> thread_ok rings' (<[a := c']> (u_ctx u)) (UContinued a rest out k)) as Hnext.
  { intros c' rings' Ed. split; [by apply own_put|]. split; [done|]. exists c'. rewrite lookup_insert_eq, Ed. done. }
  unfold ContinueShortTransfer. set (i := c_ring c) in *. set (c1 := set_results 0 _ _ c).
  assert (forall c', same_context c c' -> c_done c' = c_done c -> forall r, r_submit_held r = false ->
    (forall b, b <> a -> occ b (refs r) <= occ b (refs (u_rings u i))) -> occ a (refs r) <= c_pending c' ->
    (forall e, e ∈ live_entries r -> e ∈ live_entries (u_rings u i) \/ s_fd e = c_fd c /\ ctx_of (s_data e) = a) ->
    uinv (USystem (set_ctx (<[a := c']> (u_ctx u)) (set_ring i r u)) (<[j := UContinued a rest out k]> (u_threads s)))) as Hput.
  { intros c' Hsc Hdone r Hr Hb Ha He.
    eapply (uinv_update s j _ _ _ a c c'); try done; fold u i; cbn; rewrite ?fn_lookup_insert; try done; auto; try lia; try congruence; [|by apply Hnext].
    intros x Hx. by rewrite fn_lookup_insert_ne. }
  destruct (r_broken (u_rings u i)) eqn:Eb; cbn [orb].
  { eapply (uinv_results s j _ _ _ a c c1); try done; cbn; auto; try lia. by apply (Hnext c1 (u_rings u)). }
  destruct (_ <? _)%nat; [eapply (uinv_results s j _ _ _ a c c1); try done; cbn; auto; try lia; by apply (Hnext c1 (u_rings u))|].
  cbn zeta. match goal with |- context [transfer_entries ?x ?y ?z ?w] => set (es := transfer_entries x y z w) end.
  destruct (transfer_addresses a _ _ c1 Ea : entry_addresses es = _ /\ forall e, e ∈ es -> _) as [Haddr Hfd].
  set (r1 := set_submit (_ ++ es) _ false _ _).
  assert (forall b, occ b (refs r1) = occ b (refs (u_rings u i)) + occ b (replicate (entry_count c1) a)) as Hr1 by (intros b; unfold r1; by rewrite refs_push, Haddr).
  assert (forall e, e ∈ live_entries r1 -> e ∈ live_entries (u_rings u i) \/ s_fd e = c_fd c /\ ctx_of (s_data e) = a) as He1.
  { intros e. unfold r1, live_entries. cbn. rewrite Eb, !elem_of_app. intros [[He|He]|He]; auto. }
  destruct (_ <? 0).
  - apply Hput; try done.
    + intros b _. by apply refs_broken.
    + etrans; [by apply (refs_broken (u_rings u i))|]. by rewrite Hz.
    + intros e. unfold live_entries. cbn. rewrite Eb. intros He. left. apply elem_of_app. by right.
  - apply Hput; try done.
    + intros b Hb. rewrite refs_submit by done. rewrite Hr1, occ_replicate_ne by done. lia.
    + rewrite refs_submit by done. rewrite Hr1, occ_replicate, Hz. cbn. lia.
    + intros e He. apply He1. by eapply entries_submit.
Qed.

(** ** All steps *)

Lemma step_signal s j own k t' u' o :
  uinv s -> u_threads s !! j = Some (USignal k) -> ustep own o (USignal k) (u_shared s) = Some (t', u') ->
  uinv (USystem u' (<[j := t']> (u_threads s))).
Proof.
  intros HI Hj Hs. cbn [ustep submit_step reap_step reap_ring_step stop_step] in Hs. pose proof (fds_live_close _ _ _ (ui_fds _ HI)) as HL. injection Hs as <- <-. unfold SignalShutdown.
  destruct (CloseIdle _ _) as [f os]. eapply uinv_quiet; try done. cbn. lia.
Qed.

Lemma reaped_counts cs k : u_guard (reaped cs k) = 0 /\ u_reaps (reaped cs k) <= 1 /\ (forall i, u_locks i (reaped cs k) = 0) /\
  forall rings ctx, thread_ok rings ctx (reaped cs k).
Proof. destruct k as [n wait|todo out n first]; cbn; [destruct (_ || _)|]; by split_and!. Qed.

Lemma uinv_thread s j o t t' u' :
  uinv s -> u_threads s !! j = Some t -> fresh_address (o_address o) (u_shared s) ->
  ustep (j mod u_ring_count (u_shared s)) o t (u_shared s) = Some (t', u') -> uinv (USystem u' (<[j := t']> (u_threads s))).
Proof.
  intros HI Hj Hnew Hs. destruct t as [reqs|reqs|i reqs|i [|r rest] prepared|i prepared consumed err|i [|[a n] rest] kept err|i kept err|r|n wait|i n k|i n fin k|
    [|a rest] out k|a rest out k|a rest out k|a rest out k|n|n|todo out n first|n|k|k| | |r];
    first [discriminate Hs|by eapply step_lock|by eapply step_prepare|by eapply step_loop|by eapply step_back|by eapply step_unlock|by eapply step_ring_lock|by eapply step_peek|
           by eapply step_finish|by eapply step_continue|by eapply step_continued|by eapply step_finish_ctx|by eapply step_signal|idtac].
  all: cbn [ustep submit_step reap_step reap_ring_step stop_step] in Hs.
  - injection Hs as <- <-. quiet_step.
  - injection Hs as <- <-. destruct (u_shutdown _); quiet_step.
  - injection Hs as <- <-. quiet_step.
  - injection Hs as <- <-. quiet_step.
  - injection Hs as <- <-. destruct (u_in_flight _ =? 1); quiet_step.
  - injection Hs as <- <-. destruct (n =? 0)%nat; quiet_step.
  - injection Hs as <- <-. destruct (reaped_counts out k) as (E1 & E2 & E3 & E4).
    eapply uinv_local; try done; try (cbn; lia).
  - injection Hs as <- <-. destruct (u_shutdown _); quiet_step.
  - injection Hs as <- <-. destruct (u_in_flight _ =? 0); quiet_step.
  - destruct todo as [|i todo]; injection Hs as <- <-; [destruct (_ && _)|destruct (_ <? _)%nat]; quiet_step.
  - injection Hs as <- <-. unfold WaitForCompletionSignal. destruct (u_shutdown (u_shared s)); quiet_step.
  - injection Hs as <- <-. destruct (u_shutdown _); quiet_step.
  - injection Hs as <- <-. destruct (u_shutdown _); quiet_step.
  - injection Hs as <- <-. destruct (u_in_flight _ =? 0); quiet_step.
Qed.

(** A call starts. *)
Lemma uinv_spawn s j t :
  uinv s -> u_threads s !! j = None -> (forall i, u_locks i t = 0) -> u_guard t = 0 ->
  (forall rings ctx, thread_ok rings ctx t) -> total u_reaps (<[j := t]> (u_threads s)) <= 1 ->
  uinv (USystem (u_shared s) (<[j := t]> (u_threads s))).
Proof.
  intros [I1 I2 I3 I4 I5 I6 I7] Hj El Eg Ht Hr. split; cbn [u_shared u_threads]; try done.
  - intros i. rewrite total_insert_new, El, I3 by done. lia.
  - rewrite total_insert_new, Eg, I4 by done. lia.
  - intros k t2 [[<- <-]|[_ Hk]]%lookup_insert_Some; [done|by eapply I6].
Qed.

Lemma refs_hand_over r k1 k2 e res a : r_kernel r = k1 ++ e :: k2 ->
  let r' := Ring (r_sq r) (k1 ++ k2) (r_cq r ++ [(s_data e, res)]) (r_broken r) (r_submit_held r) (r_reap_held r) in
  occ a (taken_refs r') = occ a (taken_refs r).
Proof.
  intros Ek r'. unfold taken_refs, entry_addresses, result_addresses. cbn [r' r_kernel r_cq]. rewrite Ek, !fmap_app, !occ_app, fmap_cons, occ_cons.
  cbn [fmap list_fmap fst]. rewrite occ_cons, occ_nil. lia.
Qed.

Lemma uinv_result s i k1 e k2 res m :
  uinv s -> r_kernel (u_rings (u_shared s) i) = k1 ++ e :: k2 ->
  uinv (USystem (set_memory m (hand_over i k1 k2 (s_data e, res) (u_shared s))) (u_threads s)).
Proof.
  intros [I1 I2 I3 I4 I5 I6 I7] Ek. set (u := u_shared s) in *. set (rg := u_rings u i) in *.
  pose proof (fun a => refs_hand_over rg k1 k2 e res a Ek) as Ht. set (r' := Ring _ _ _ _ _ _) in Ht.
  assert (forall k, (<[i := r']> (u_rings u)) k = if decide (k = i) then r' else u_rings u k) as Hlk.
  { intros k. destruct (decide (k = i)) as [->|Hne]; [by rewrite fn_lookup_insert|by rewrite fn_lookup_insert_ne]. }
  assert (forall k a, occ a (taken_refs ((<[i := r']> (u_rings u)) k)) = occ a (taken_refs (u_rings u k))) as Htk.
  { intros k a. rewrite Hlk. destruct (decide (k = i)) as [->|Hne]; [apply Ht|done]. }
  change (set_memory _ _) with (set_memory m (set_ring i r' u)). split; cbn [u_shared u_threads set_memory set_ring u_rings u_ctx u_files u_os u_in_flight u_accepted u_taken u_delivered]; try done.
  - eapply heap_rings; [done|..].
    + intros k a. rewrite Hlk. destruct (decide (k = i)) as [->|Hne]; [|done]. rewrite !refs_split, Ht. done.
    + intros k x. rewrite Hlk. destruct (decide (k = i)) as [->|Hne]; [|done]. unfold live_entries. fold rg. rewrite Ek. cbn. rewrite !elem_of_app, elem_of_cons. tauto.
  - intros k. rewrite I3, Hlk. by destruct (decide (k = i)) as [->|Hne].
  - intros j t Hj. eapply thread_stable; [by eapply I6| |done]. intros k _. rewrite Hlk. split_and!; try by destruct (decide (k = i)) as [->|Hne].
    intros a Ha. eapply spare_mono; [done|done|]. by rewrite Htk.
Qed.

Lemma uinv_step s s' : uinv s -> solo_step s s' -> uinv s'.
Proof.
  intros HI [Hs Hsolo]. destruct Hs as [s j o t t' u' Hj Hnew Ht|s i k1 e k2 res m Ek|s j reqs Hj _|s j n wait Hj|s j Hj|s submit completion].
  - by eapply uinv_thread.
  - by apply uinv_result.
  - by apply uinv_spawn.
  - by apply uinv_spawn.
  - by apply uinv_spawn.
  - by destruct HI; split.
Qed.

(** ** The theorem *)

(** The contexts the next step of a thread reads or writes. *)
Definition accesses (t : upc) (u : uring (S := S)) : list Z :=
  match t with
  | UTakeBack _ ((a, _) :: _) _ _ | UFinish (a :: _) _ _ | UContinue a _ _ _ | UContinued a _ _ _ | UFinishCtx a _ _ _ => [a]
  | UPeek i n finished _ =>
      match r_cq (u_rings u i) with
      | (data, _) :: _ => if (length finished <? n)%nat then [ctx_of data] else []
      | [] => []
      end
  | _ => []
  end.

Lemma accesses_live s j t a :
  uinv s -> u_threads s !! j = Some t -> a ∈ accesses t (u_shared s) -> is_Some (u_ctx (u_shared s) !! a).
Proof.
  intros HI Hj Ha. pose proof (ui_thread _ HI j t Hj) as Ht.
  assert (forall l, own_ok (u_ctx (u_shared s)) l -> a ∈ l -> is_Some (u_ctx (u_shared s) !! a)) as Hown.
  { intros l [_ Hall] Hin. destruct (Hall a Hin) as (c & Hc & _). by exists c. }
  destruct t as [| | | | |i [|[b n] rest] kept err| | | | |i n fin k|[|b rest] out k|b rest out k|b rest out k|b rest out k| | | | | | | | |]; cbn [accesses] in Ha; try by apply not_elem_of_nil in Ha.
  - apply list_elem_of_singleton in Ha as ->. destruct Ht as (_ & _ & Hall). destruct (Hall b) as (c & Hc & _); [by left|by exists c].
  - destruct (r_cq _) as [|[data res] cq] eqn:Ecq; [by apply not_elem_of_nil in Ha|]. destruct (_ <? _)%nat; [|by apply not_elem_of_nil in Ha].
    apply list_elem_of_singleton in Ha as ->. destruct (refs_pop _ data res cq true (ctx_of data) Ecq) as [E _]. rewrite bool_decide_true in E by done.
    pose proof (occ_nonneg (ctx_of data) (refs (set_cq cq true (u_rings (u_shared s) i)))).
    destruct (heap_live _ _ (ctx_of data) i (ui_heap _ HI)) as (c & Hc & _); [cbn [b2z] in E; lia|by exists c].
  - apply list_elem_of_singleton in Ha as ->. apply (Hown _ Ht). by left.
  - apply list_elem_of_singleton in Ha as ->. apply (Hown _ (proj1 Ht)). by left.
  - apply list_elem_of_singleton in Ha as ->. destruct Ht as (_ & _ & c & Hc & _). by exists c.
  - apply list_elem_of_singleton in Ha as ->. apply (Hown _ Ht). by left.
Qed.
End Safety.

Section Reachable.
Context {S : Type} `{PosixLaws S}.

Lemma uinv_start root g depth max_open sync count hardware m (os : S) :
  0 <= max_open -> uinv root (if max_open =? 0 then 64 else max_open) (uring_start root g depth max_open sync count hardware m os).
Proof.
  intros Hm. split; cbn; try done.
  split; [|done]. eapply fd_inv_ext; [|by apply fd_start_inv]. done.
Qed.

Lemma uinv_reachable root g depth max_open sync count hardware m (os : S) s :
  0 <= max_open -> rtc solo_step (uring_start root g depth max_open sync count hardware m os) s ->
  uinv root (if max_open =? 0 then 64 else max_open) s.
Proof.
  intros Hm. generalize (uinv_start root g depth max_open sync count hardware m os Hm). generalize (uring_start root g depth max_open sync count hardware m os).
  intros s0 HI Hr. induction Hr as [s0|s0 s1 s2 Hs _ IH]; [done|]. apply IH. by eapply uinv_step.
Qed.

(** C12 — Contexts and descriptors of the io_uring backend are used only while they
    live, whatever the system answers, as long as calls of [Reap] do not overlap:
    no thread reads or writes a context that was deleted; an entry the system
    works on belongs to a live context and its descriptor is open on that
    context's file; every accepted request is taken back, delivered once or has
    a live context, so that a blocked [Reap] that reports a shutdown leaves no
    request behind. *)
Theorem uring_safe root g depth max_open sync count hardware m (os : S) s :
  0 <= max_open -> rtc solo_step (uring_start root g depth max_open sync count hardware m os) s ->
  let u := u_shared s in
  (forall j t a, u_threads s !! j = Some t -> a ∈ accesses t u -> is_Some (u_ctx u !! a)) /\
  (forall i e, e ∈ r_kernel (u_rings u i) -> exists c, u_ctx u !! ctx_of (s_data e) = Some c /\ s_fd e = c_fd c /\
     fd_path (u_os u) (s_fd e) = Some (file_path root (cfile c))) /\
  (forall w, occurrences w (u_accepted u) = occurrences w (u_taken u) + occurrences w (u_delivered u).*1 +
     live_weight (fun t => b2z (bool_decide (t = w))) (u_ctx u)) /\
  (forall j n, u_threads s !! j = Some (UReapDrained n) -> u_in_flight u = 0 -> u_accepted u ≡ₚ u_taken u ++ (u_delivered u).*1).
Proof.
  intros Hm HI%uinv_reachable u; [|done]. split_and!.
  - intros j t a Hj. by eapply accesses_live.
  - intros i e He. assert (e ∈ live_entries (u_rings u i)) as Hle by (apply elem_of_app; by right). pose proof (entry_occ e _ Hle) as Ho.
    destruct (heap_live _ _ (ctx_of (s_data e)) i (ui_heap _ _ _ HI)) as (c & Hc & _ & _); [fold u; lia|]. fold u in Hc. exists c.
    pose proof (hp_entry _ _ (ui_heap _ _ _ HI) i e c Hle Hc) as Ef. split_and!; try done. rewrite Ef. by apply (fds_live_open _ _ _ _ _ _ _ (ui_fds _ _ _ HI) Hc).
  - intros w. apply (ui_flow _ _ _ HI).
  - intros j n _ Hf. apply occurrences_perm. intros w. rewrite occ_app. pose proof (ui_flow _ _ _ HI (fun t => b2z (bool_decide (t = w)))) as Hfl.
    pose proof (ui_flight _ _ _ HI) as Hfi. fold u in Hfi, Hfl. rewrite Hf in Hfi.
    pose proof (total_nonneg u_guard (u_threads s) u_guard_sign). unfold occurrences.
    assert (live_weight (fun t => b2z (bool_decide (t = w))) (u_ctx u) = 0); [|lia]. apply total_zero. intros a c Ha.
    pose proof (total_ge (fun _ : RequestContext => 1) (u_ctx u) a c ltac:(done) Ha) as Hg. cbn beta in Hg. change (live_weight (fun _ => 1) (u_ctx u)) with (total (fun _ : RequestContext => 1) (u_ctx u)) in Hfi. lia.
Qed.
End Reachable.
