(* ===== verification/UringRun.v ===== *)
(** Runs of the io_uring backend: one in which calls of [Reap] follow each other, and
    one in which two overlap and a deleted context is used. *)
From stdpp Require Import strings.
From S2P Require Import Prelude Bytes Status Layout FreeList PageTable Interfaces IoEngine FdCache PosixDisk PosixQueue.
From S2P Require Import RamFiles Uring UringSafety.

(** ** Schedules *)

Inductive uaction :=
  | ActStep (j : nat) (answer address : Z)
  | ActResult (i n : nat) (res : Z)
  | ActSubmit (j : nat) (reqs : list DiskRequest)
  | ActReap (j n : nat) (wait : bool)
  | ActShutdown (j : nat).

Section Schedules.
Context {S : Type} `{Posix S}.

Definition free_address (a : Z) (u : uring (S := S)) : bool :=
  (ctx_of a =? a) && match u_ctx u !! a with None => true | Some _ => false end.

Definition uact (s : usystem (S := S)) (a : uaction) : usystem :=
  let spawn j t := match u_threads s !! j with None => USystem (u_shared s) (<[j := t]> (u_threads s)) | Some _ => s end in
  match a with
  | ActStep j answer address =>
      if free_address address (u_shared s) then
        match t ← u_threads s !! j; ustep (j mod u_ring_count (u_shared s)) (Oracle answer address) t (u_shared s) with
        | Some (t', u') => USystem u' (<[j := t']> (u_threads s))
        | None => s
        end
      else s
  | ActResult i n res =>
      match drop n (r_kernel (u_rings (u_shared s) i)) with
      | e :: k2 =>
          USystem (set_memory (u_memory (u_shared s)) (hand_over i (take n (r_kernel (u_rings (u_shared s) i))) k2 (s_data e, res) (u_shared s))) (u_threads s)
      | [] => s
      end
  | ActSubmit j reqs => match reqs with [] => s | _ => spawn j (USubmit reqs) end
  | ActReap j n wait => spawn j (UReap n wait)
  | ActShutdown j => spawn j UShutdown
  end.

Lemma uact_step s a : uact s a = s \/ uring_step s (uact s a).
Proof.
  destruct a as [j answer address|i n res|j reqs|j n wait|j]; cbn [uact].
  - destruct (free_address address (u_shared s)) eqn:Ef; [|by left]. apply andb_prop in Ef as [Ea%Z.eqb_eq En].
    destruct (u_threads s !! j) as [t|] eqn:Hj; [|by left]. cbn [mbind option_bind]. destruct (ustep _ _ _ _) as [[t' u']|] eqn:Hs; [|by left].
    right. eapply uring_thread; [done| |done]. split; [done|]. by destruct (u_ctx _ !! _).
  - destruct (drop n _) as [|e k2] eqn:Ed; [by left|]. right. apply uring_result. by rewrite <- Ed, take_drop.
  - destruct reqs as [|r reqs]; [by left|]. destruct (u_threads s !! j) eqn:Hj; [by left|]. right. by apply uring_submit.
  - destruct (u_threads s !! j) eqn:Hj; [by left|]. right. by apply uring_reap.
  - destruct (u_threads s !! j) eqn:Hj; [by left|]. right. by apply uring_shutdown.
Qed.

Lemma uacts_steps s l : rtc uring_step s (foldl uact s l).
Proof.
  revert s. induction l as [|a l IH]; intros s; [done|]. cbn [foldl]. etrans; [|apply IH].
  destruct (uact_step s a) as [->|Hs]; [done|by apply rtc_once].
Qed.

(** At most one call of [Reap] at any time. *)
Fixpoint solo_run (s : usystem (S := S)) (l : list uaction) : bool :=
  match l with
  | [] => true
  | a :: l => (total u_reaps (u_threads (uact s a)) <=? 1) && solo_run (uact s a) l
  end.

Lemma uacts_solo s l : solo_run s l = true -> rtc solo_step s (foldl uact s l).
Proof.
  revert s. induction l as [|a l IH]; intros s Hl; [done|]. cbn [foldl solo_run] in *. apply andb_prop in Hl as [Ha%Z.leb_le Hl].
  etrans; [|by apply IH]. destruct (uact_step s a) as [E|Hs]; [by rewrite E|]. apply rtc_once. by split.
Qed.
End Schedules.

(** ** A write that the system finishes in two transfers *)

Definition small_uring (sync : bool) : usystem (S := ram_files) :=
  uring_start "data" small_geometry 0 2 sync 1 4 two_buffers (empty_files []).

(** [n] steps of thread [j]; the system accepts what is submitted. *)
Definition run (j n : nat) : list uaction := repeat (ActStep j 2 32) n.
Definition submit_write (j : nat) : list uaction := [ActSubmit j [one_block kWrite 1]; ActStep j 0 16; ActStep j 0 16; ActStep j 0 16; ActStep j 0 16] ++ run j 5.

(** Submitted with its [fdatasync], short at first, then continued. *)
Definition uring_short : list uaction := submit_write 0 ++ [ActResult 0 0 10; ActResult 0 0 (-125); ActReap 1 8 true] ++ run 1 7.
(** The rest arrives, and the backend is shut down while a reaper waits. *)
Definition uring_drain : list uaction :=
  uring_short ++ run 1 2 ++ [ActResult 0 1 0; ActResult 0 0 4086] ++ run 1 12 ++ [ActShutdown 2; ActReap 3 8 true] ++ run 2 5 ++ run 3 5.

Definition uring_after (l : list uaction) : usystem := foldl uact (small_uring true) l.

Lemma uring_safe_witness :
  let short := u_shared (uring_after uring_short) in let last := u_shared (uring_after uring_drain) in
  (exists e, e ∈ r_kernel (u_rings short 0) /\ s_data e = 17 /\ fd_path (u_os short) (s_fd e) = Some (file_path "data" 7)) /\
  is_Some (u_ctx short !! 16) /\ u_accepted last = [1] /\ u_accepted last ≡ₚ u_taken last ++ (u_delivered last).*1.
Proof.
  assert (rtc solo_step (small_uring true) (uring_after uring_short)) as H1 by (apply uacts_solo; vm_compute; reflexivity).
  assert (rtc solo_step (small_uring true) (uring_after uring_drain)) as H2 by (apply uacts_solo; vm_compute; reflexivity).
  destruct (uring_safe "data" small_geometry 0 2 true 1 4 two_buffers (empty_files []) (uring_after uring_short) ltac:(lia) H1) as (A1 & A2 & _ & _).
  destruct (uring_safe "data" small_geometry 0 2 true 1 4 two_buffers (empty_files []) (uring_after uring_drain) ltac:(lia) H2) as (_ & _ & _ & A4).
  cbn zeta. split; [|split; [|split]].
  - set (short := uring_after uring_short) in *. assert (map s_data (r_kernel (u_rings (u_shared short) 0)) = [16; 17]) as Ek by (vm_compute; reflexivity).
    assert (cfile <$> u_ctx (u_shared short) !! 16 = Some 7) as Ec by (vm_compute; reflexivity).
    destruct (r_kernel (u_rings (u_shared short) 0)) as [|e0 [|e [|]]] eqn:Er; try discriminate Ek. injection Ek as E0 E1. exists e.
    assert (e ∈ r_kernel (u_rings (u_shared short) 0)) as He by (rewrite Er; right; left).
    split; [right; left|]. split; [exact E1|]. destruct (A2 0%nat e He) as (c & Hc & _ & Hf). rewrite Hf, E1 in *.
    change (ctx_of 17) with 16 in Hc. rewrite Hc in Ec. injection Ec as ->. reflexivity.
  - apply (A1 1%nat (UContinued 16 [] [] (KOwn 8 true)) 16); [vm_compute; reflexivity|left].
  - vm_compute. reflexivity.
  - apply (A4 3%nat 8%nat); vm_compute; reflexivity.
Defined.

(** ** Two calls of [Reap] at the same time *)

(** Thread 1 continues a short write and has not looked at the context again when
    the rest arrives and thread 2 completes the request. *)
Definition uring_overlap : list uaction :=
  submit_write 0 ++ [ActResult 0 0 10; ActReap 1 8 true] ++ run 1 6 ++ [ActResult 0 0 4086; ActReap 2 8 true] ++ run 2 7.

(** C13 — Calls of [Reap] must not overlap: a thread that continued a short transfer
    reads its context again without a latch, and when another thread has reaped
    the continuation meanwhile, that context is already deleted. *)
Theorem uring_overlap_unsafe :
  exists s j t a, rtc uring_step (small_uring false) s /\ u_threads s !! j = Some t /\ a ∈ accesses t (u_shared s) /\ u_ctx (u_shared s) !! a = None.
Proof.
  exists (foldl uact (small_uring false) uring_overlap), 1%nat, (UContinued 16 [] [] (KOwn 8 true)), 16. split; [apply uacts_steps|].
  split; [vm_compute; reflexivity|]. split; [left|vm_compute; reflexivity].
Qed.

(** ** Entries of an earlier call *)

(** The continuation of a short write stays queued; the next call of [Submit] hands
    that entry over, and then the system refuses the ring. *)
Definition uring_leftover : list uaction :=
  submit_write 0 ++ [ActResult 0 0 10; ActReap 1 8 true] ++ run 1 5 ++ [ActStep 1 0 32; ActSubmit 2 [one_block kWrite 2]] ++ run 2 4 ++
  [ActStep 2 0 48; ActStep 2 1 48; ActStep 2 (-5) 48] ++ repeat (ActStep 2 0 48) 3.

(** [Submit] counts the entries of earlier calls as its own: it reports a request as
    accepted of which the system has no entry, on a ring that will not submit any. *)
Lemma uring_accepts_unstarted :
  let s := foldl uact (small_uring false) uring_leftover in
  rtc solo_step (small_uring false) s /\ u_threads s !! 2%nat = Some (UDone (Submitted (Ok 1%nat))) /\ r_broken (u_rings (u_shared s) 0) = true /\
  (token ∘ c_request) <$> u_ctx (u_shared s) !! 32 = Some 2 /\ 32 ∉ taken_refs (u_rings (u_shared s) 0).
Proof.
  split; [apply uacts_solo; vm_compute; reflexivity|]. split; [vm_compute; reflexivity|]. split; [vm_compute; reflexivity|].
  split; [vm_compute; reflexivity|]. apply (bool_decide_unpack _). vm_compute. exact I.
Qed.
