(* ===== verification/Telemetry.v ===== *)
(** Counters: [include/telepath/telemetry/telemetry_sink.h], the sinks of
    [lib/telemetry] and [lib/buffer/buffer_manager_observer.cc].

    A struct of thirteen counters is a function from the names of its fields.  Each
    thread increments the shard of its number; a snapshot adds the shards up, one
    load at a time, while others go on counting. *)
From S2P Require Import Prelude IoEngine.

(** ** Counters and sinks *)

Inductive counter :=
  | buffer_hits | buffer_misses | disk_reads | disk_writes | evictions | dirty_flushes
  | flush_tasks_scheduled | flush_tasks_completed | flush_failures
  | cleaner_flushes_scheduled | cleaner_flushes_finished | cleaner_flushes_skipped | eviction_failures.

#[export] Instance counter_eq_dec : EqDecision counter.
Proof. solve_decision. Defined.

(** The fields in the order of the declarations. *)
Definition all_counters : list counter :=
  [buffer_hits; buffer_misses; disk_reads; disk_writes; evictions; dirty_flushes;
   flush_tasks_scheduled; flush_tasks_completed; flush_failures;
   cleaner_flushes_scheduled; cleaner_flushes_finished; cleaner_flushes_skipped; eviction_failures].

Definition TelemetrySnapshot : Type := counter -> Z.

Definition kShardCount : nat := 64.
Definition TelemetryCounters : Type := nat -> counter -> Z.

(** A sink with its fast-path counters; without them it drops every event. *)
Record TelemetrySink := Sink { fast_path_counters : option TelemetryCounters }.
Definition MakeCounterTelemetrySink : TelemetrySink := Sink (Some (fun _ _ => 0)).
Definition MakeNoOpTelemetrySink : TelemetrySink := Sink None.

(** The shard of thread [j], the [j]-th to record anything. *)
Definition CurrentShard (j : nat) : nat := (j mod kShardCount)%nat.

(** [fetch_add] on one counter of one shard. *)
Definition count_on (s : nat) (c : counter) (t : TelemetryCounters) : TelemetryCounters :=
  fun s' c' => if decide (s' = s /\ c' = c) then u64 (t s c + 1) else t s' c'.

Definition RecordFastPath (j : nat) (c : counter) (k : TelemetrySink) : bool * TelemetrySink :=
  match fast_path_counters k with
  | None => (false, k)
  | Some t => (true, Sink (Some (count_on (CurrentShard j) c t)))
  end.

(** [DoRecordHit] and the like: both sinks override them with empty bodies. *)
Definition DoRecord (c : counter) (k : TelemetrySink) : TelemetrySink := k.

(** [RecordHit], [RecordMiss] and the like, each with its counter. *)
Definition record_counter (j : nat) (c : counter) (k : TelemetrySink) : TelemetrySink :=
  let '(done, k) := RecordFastPath j c k in if done then k else DoRecord c k.

(** [+=] on a field of the snapshot. *)
Definition add_to (c : counter) (v : Z) (acc : TelemetrySnapshot) : TelemetrySnapshot :=
  fun c' => if decide (c' = c) then u64 (acc c + v) else acc c'.

(** The loads of [ReadCountersSnapshot], in order. *)
Definition snapshot_loads : list (nat * counter) := mjoin ((fun s => (fun c => (s, c)) <$> all_counters) <$> seq 0 kShardCount).

Definition ReadCountersSnapshot (t : TelemetryCounters) : TelemetrySnapshot :=
  foldl (fun acc (l : nat * counter) => add_to l.2 (t l.1 l.2) acc) (fun _ => 0) snapshot_loads.

Definition Snapshot (k : TelemetrySink) : TelemetrySnapshot :=
  match fast_path_counters k with Some t => ReadCountersSnapshot t | None => fun _ => 0 end.

(** ** The observer *)

(** The events of the buffer manager and the counters they count on. *)
Inductive observed :=
  | RecordResidentHit | RecordJoinedMissHit | RecordReadMiss
  | RecordLoadCompletion (evicted : bool) | RecordSuccessfulFlush
  | RecordFlushTaskScheduled | RecordFlushTaskCompletion (ok : bool)
  | RecordCleanerFlushScheduled | RecordCleanerFlushFinished | RecordCleanerFlushSkipped
  | RecordZeroFill (evicted : bool) | RecordEvictionFailure.

(** The sink of an observer: the one it was given, or one that drops everything. *)
Definition BufferManagerObserver (sink : option TelemetrySink) : TelemetrySink := default MakeNoOpTelemetrySink sink.

Definition observer_counts (e : observed) : list counter :=
  match e with
  | RecordResidentHit | RecordJoinedMissHit => [buffer_hits]
  | RecordReadMiss => [buffer_misses]
  | RecordLoadCompletion evicted => disk_reads :: (if evicted then [evictions] else [])
  | RecordSuccessfulFlush => [disk_writes; dirty_flushes]
  | RecordFlushTaskScheduled => [flush_tasks_scheduled]
  | RecordFlushTaskCompletion ok => flush_tasks_completed :: (if ok then [] else [flush_failures])
  | RecordCleanerFlushScheduled => [cleaner_flushes_scheduled]
  | RecordCleanerFlushFinished => [cleaner_flushes_finished]
  | RecordCleanerFlushSkipped => [cleaner_flushes_skipped]
  | RecordZeroFill evicted => if evicted then [evictions] else []
  | RecordEvictionFailure => [eviction_failures]
  end.

(** ** Threads *)

(** [t_log] lists, for the statements only, the increments so far with their shard;
    a reader carries the log as it was when it started. *)
Inductive tpc :=
  | TIdle
  | TRecord (todo : list counter)
  | TRead (todo : list (nat * counter)) (acc : TelemetrySnapshot) (began : list (nat * counter))
  | TSnapshot (s : TelemetrySnapshot) (began ended : list (nat * counter)).

Record tsystem := TSystem { t_counters : TelemetryCounters; t_log : list (nat * counter); t_threads : gmap nat tpc }.

Definition telemetry_go (j : nat) (p : tpc) (s : tsystem) : option (tpc * TelemetryCounters * list (nat * counter)) :=
  match p with
  | TRecord [] => Some (TIdle, t_counters s, t_log s)
  | TRecord (c :: todo) => Some (TRecord todo, default (t_counters s) (fast_path_counters (record_counter j c (Sink (Some (t_counters s))))), t_log s ++ [(CurrentShard j, c)])
  | TRead [] acc began => Some (TSnapshot acc began (t_log s), t_counters s, t_log s)
  | TRead ((i, c) :: todo) acc began => Some (TRead todo (add_to c (t_counters s i c) acc) began, t_counters s, t_log s)
  | TIdle | TSnapshot _ _ _ => None
  end.

Inductive telemetry_step : tsystem -> tsystem -> Prop :=
  | telemetry_thread s j p p' t l :
      t_threads s !! j = Some p -> telemetry_go j p s = Some (p', t, l) ->
      telemetry_step s (TSystem t l (<[j := p']> (t_threads s)))
  | telemetry_event s j e :
      t_threads s !! j = None \/ t_threads s !! j = Some TIdle ->
      telemetry_step s (TSystem (t_counters s) (t_log s) (<[j := TRecord (observer_counts e)]> (t_threads s)))
  | telemetry_read s j :
      t_threads s !! j = None \/ t_threads s !! j = Some TIdle ->
      telemetry_step s (TSystem (t_counters s) (t_log s) (<[j := TRead snapshot_loads (fun _ => 0) (t_log s)]> (t_threads s))).

Definition telemetry_start : tsystem := TSystem (fun _ _ => 0) [] ∅.

(** How often a counter was incremented. *)
Definition counted (c : counter) (log : list (nat * counter)) : Z := Z.of_nat (length (filter (fun x => x.2 = c) log)).

(** ** What a snapshot holds *)

Local Arguments CurrentShard : simpl never.

(** How often counter [x.2] of shard [x.1] was incremented. *)
Definition counted_in (x : nat * counter) (log : list (nat * counter)) : Z := Z.of_nat (length (filter (fun y => y = x) log)).

(** The increments of [c] in the shards among the loads [l]. *)
Fixpoint counted_over (c : counter) (l : list (nat * counter)) (log : list (nat * counter)) : Z :=
  match l with
  | [] => 0
  | x :: l => (if decide (x.2 = c) then counted_in x log else 0) + counted_over c l log
  end.

Lemma counted_app c l1 l2 : counted c (l1 ++ l2) = counted c l1 + counted c l2.
Proof. unfold counted. rewrite list.filter_app, length_app. lia. Qed.
Lemma counted_in_app x l1 l2 : counted_in x (l1 ++ l2) = counted_in x l1 + counted_in x l2.
Proof. unfold counted_in. rewrite list.filter_app, length_app. lia. Qed.
Lemma counted_in_single x y : counted_in x [y] = if decide (y = x) then 1 else 0.
Proof. unfold counted_in. rewrite filter_cons. by destruct (decide (y = x)). Qed.
Lemma counted_over_loads c l1 l2 log : counted_over c (l1 ++ l2) log = counted_over c l1 log + counted_over c l2 log.
Proof. induction l1 as [|x l1 IH]; cbn; [lia|]. rewrite IH. lia. Qed.
Lemma counted_over_app c l log1 log2 : counted_over c l (log1 ++ log2) = counted_over c l log1 + counted_over c l log2.
Proof. induction l as [|x l IH]; cbn; [lia|]. rewrite IH. destruct (decide _); rewrite ?counted_in_app; lia. Qed.
Lemma counted_over_nonneg c l log : 0 <= counted_over c l log.
Proof. induction l as [|x l IH]; cbn; [lia|]. unfold counted_in. destruct (decide _); lia. Qed.
Lemma counted_le c log : counted c log <= Z.of_nat (length log).
Proof. unfold counted. pose proof (length_filter (fun x : nat * counter => x.2 = c) log). lia. Qed.

(** Each shard is loaded once. *)
Lemma counted_over_single c x : (x.1 < kShardCount)%nat -> counted_over c snapshot_loads [x] = if decide (x.2 = c) then 1 else 0.
Proof.
  destruct x as [i c']. cbn [fst snd]. intros Hi. assert (i ∈ seq 0 kShardCount) as Hin by (apply elem_of_seq; lia).
  assert (Forall (fun i => counted_over c snapshot_loads [(i, c')] = if decide (c' = c) then 1 else 0) (seq 0 kShardCount)) as Hall.
  { apply (bool_decide_unpack _). destruct c, c'; vm_compute; exact I. }
  exact (proj1 (list.Forall_forall _ _) Hall i Hin).
Qed.

Lemma counted_over_all c log : Forall (fun x => (x.1 < kShardCount)%nat) log -> counted_over c snapshot_loads log = counted c log.
Proof.
  induction log as [|x log IH]; intros Hall.
  { clear. induction snapshot_loads as [|y l IH]; [done|]. cbn. rewrite IH. by destruct (decide _). }
  apply list.Forall_cons in Hall as [Hx Hall]. change (x :: log) with ([x] ++ log). rewrite counted_over_app, counted_app, IH by done.
  rewrite counted_over_single by done. unfold counted. rewrite filter_cons. destruct (decide (x.2 = c)); cbn; lia.
Qed.

Definition treader_ok (log : list (nat * counter)) (p : tpc) : Prop :=
  match p with
  | TRead todo acc began => exists before, snapshot_loads = before ++ todo /\ began `prefix_of` log /\
      (Z.of_nat (length log) < u64_mod -> forall c, counted_over c before began <= acc c <= counted_over c before log)
  | TSnapshot acc began ended =>
      began `prefix_of` ended /\ (Z.of_nat (length ended) < u64_mod -> forall c, counted c began <= acc c <= counted c ended)
  | _ => True
  end.

Record tinv (s : tsystem) : Prop := {
  ti_counters i c : t_counters s i c = u64 (counted_in (i, c) (t_log s));
  ti_shards : Forall (fun x => (x.1 < kShardCount)%nat) (t_log s);
  ti_threads j p : t_threads s !! j = Some p -> treader_ok (t_log s) p
}.

(** Others go on counting. *)
Lemma treader_grow log x p : treader_ok log p -> treader_ok (log ++ [x]) p.
Proof.
  destruct p as [| |todo acc began|acc began ended]; try done. intros (before & E & Hp & Hb). exists before. split; [done|]. split; [by apply prefix_app_r|].
  rewrite length_app. cbn [length]. intros Hl c. destruct (Hb ltac:(lia) c). rewrite counted_over_app. pose proof (counted_over_nonneg c before [x]). lia.
Qed.

Lemma treader_load log t todo acc began i c :
  Forall (fun x => (x.1 < kShardCount)%nat) log -> t i c = u64 (counted_in (i, c) log) ->
  treader_ok log (TRead ((i, c) :: todo) acc began) -> treader_ok log (TRead todo (add_to c (t i c) acc) began).
Proof.
  intros Hsh Et (before & E & Hp & Hb). exists (before ++ [(i, c)]). rewrite <- app_assoc. split; [done|]. split; [done|].
  intros Hl c'. specialize (Hb Hl c'). rewrite !counted_over_loads. cbn [counted_over snd]. unfold add_to.
  destruct (decide (c = c')) as [->|Hne]; [|rewrite decide_False by congruence; lia]. rewrite decide_True by done.
  assert (counted_over c' before log + counted_in (i, c') log <= Z.of_nat (length log)) as Hle.
  { etrans; [|apply (counted_le c')]. rewrite <- (counted_over_all c' log Hsh), E, counted_over_loads. cbn [counted_over snd]. rewrite decide_True by done.
    pose proof (counted_over_nonneg c' todo log). lia. }
  assert (0 <= counted_in (i, c') began <= counted_in (i, c') log) as Hin.
  { destruct Hp as [more ->]. rewrite counted_in_app. unfold counted_in. lia. }
  pose proof (counted_over_nonneg c' before began). rewrite Et, (u64_small (counted_in _ _)) by (unfold is_u64; lia). rewrite u64_small by (unfold is_u64; lia). lia.
Qed.

Lemma tinv_step s s' : tinv s -> telemetry_step s s' -> tinv s'.
Proof.
  intros [I1 I2 I3] Hs. destruct Hs as [s j p p' t l Hj Hs|s j e Hj|s j Hj].
  - destruct p as [|[|c todo]|[|[i c] todo] acc began|acc began ended]; cbn in Hs; try done; injection Hs as <- <- <-.
    + split; cbn; try done. intros k q [[_ <-]|[_ Hk]]%lookup_insert_Some; [done|by eapply I3].
    + split; cbn.
      * intros i c'. unfold count_on. rewrite counted_in_app, counted_in_single. destruct (decide (i = CurrentShard j /\ c' = c)) as [[-> ->]|Hne].
        -- rewrite I1, decide_True by done. unfold u64. by rewrite Zplus_mod_idemp_l.
        -- rewrite I1, decide_False by naive_solver. f_equal. lia.
      * apply list.Forall_app. split; [done|]. constructor; [|constructor]. cbn. apply Nat.mod_upper_bound. done.
      * intros k q [[_ <-]|[_ Hk]]%lookup_insert_Some; [done|]. by apply treader_grow, (I3 k).
    + split; cbn; try done. intros k q [[_ <-]|[_ Hk]]%lookup_insert_Some; [|by eapply I3].
      destruct (I3 j _ Hj) as (before & E & Hp & Hb). rewrite app_nil_r in E. subst before. split; [done|]. intros Hl c.
      rewrite <- !counted_over_all; [by apply Hb|done|]. destruct Hp as [more E]. rewrite E in I2. by apply list.Forall_app in I2 as [? _].
    + split; cbn; try done. intros k q [[_ <-]|[_ Hk]]%lookup_insert_Some; [|by eapply I3]. by apply treader_load, (I3 j).
  - split; cbn; try done. intros k q [[_ <-]|[_ Hk]]%lookup_insert_Some; [done|by eapply I3].
  - split; cbn; try done. intros k q [[_ <-]|[_ Hk]]%lookup_insert_Some; [|by eapply I3]. exists []. split; [done|]. split; [done|]. intros _ c. done.
Qed.

(** A snapshot of the counters counts every event: however threads record
    events while the shards are added up, the snapshot of a counter is at least
    what was recorded before it began and at most what was recorded when it
    ended, as long as fewer than 2^64 events were recorded. *)
Lemma telemetry_snapshot_counts s j acc began ended c :
  rtc telemetry_step telemetry_start s -> t_threads s !! j = Some (TSnapshot acc began ended) -> Z.of_nat (length ended) < u64_mod ->
  began `prefix_of` ended /\ counted c began <= acc c <= counted c ended.
Proof.
  intros Hr Hj Hl. assert (tinv s) as [_ _ I3].
  { assert (tinv telemetry_start) as HI by by split.
    revert HI Hr. generalize telemetry_start. intros s0 HI Hr. clear Hj. induction Hr as [s0|s0 s1 s2 Hs _ IH]; [done|]. apply IH. by eapply tinv_step. }
  destruct (I3 j _ Hj) as [Hp Hb]. split; [done|by apply Hb].
Qed.

(** ** A run *)

Inductive taction := TGo (j : nat) | TEvent (j : nat) (e : observed) | TStart (j : nat).

Definition tact (s : tsystem) (a : taction) : tsystem :=
  let free j := match t_threads s !! j with None | Some TIdle => true | _ => false end in
  match a with
  | TGo j =>
      match p ← t_threads s !! j; telemetry_go j p s with
      | Some (p', t, l) => TSystem t l (<[j := p']> (t_threads s))
      | None => s
      end
  | TEvent j e => if free j then TSystem (t_counters s) (t_log s) (<[j := TRecord (observer_counts e)]> (t_threads s)) else s
  | TStart j => if free j then TSystem (t_counters s) (t_log s) (<[j := TRead snapshot_loads (fun _ => 0) (t_log s)]> (t_threads s)) else s
  end.

Lemma tacts_steps s l : rtc telemetry_step s (foldl tact s l).
Proof.
  revert s. induction l as [|a l IH]; intros s; [done|]. cbn [foldl]. etrans; [|apply IH]. clear IH.
  assert (forall j, match t_threads s !! j with None | Some TIdle => true | _ => false end = true -> t_threads s !! j = None \/ t_threads s !! j = Some TIdle) as Hfree.
  { intros j. destruct (t_threads s !! j) as [[]|]; auto; done. }
  destruct a as [j|j e|j]; cbn [tact].
  - destruct (t_threads s !! j) as [p|] eqn:Hj; [|done]. cbn [mbind option_bind]. destruct (telemetry_go j p s) as [[[p' t] l']|] eqn:Hs; [|done].
    apply rtc_once. by eapply telemetry_thread.
  - destruct (match _ with None => _ | _ => _ end) eqn:Hf; [|done]. apply rtc_once. by apply telemetry_event, Hfree.
  - destruct (match _ with None => _ | _ => _ end) eqn:Hf; [|done]. apply rtc_once. by apply telemetry_read, Hfree.
Qed.

(** Thread 0 records a flush before, during and after the loads of its shard. *)
Definition telemetry_run : list taction :=
  [TEvent 0 RecordSuccessfulFlush; TGo 0; TGo 0; TGo 0; TStart 1] ++ repeat (TGo 1) 4 ++
  [TEvent 0 RecordSuccessfulFlush; TGo 0; TGo 0] ++ repeat (TGo 1) 829.

Lemma telemetry_snapshot_counts_witness :
  match t_threads (foldl tact telemetry_start telemetry_run) !! 1%nat with
  | Some (TSnapshot acc began ended) =>
      (acc disk_writes, acc dirty_flushes) = (1, 2) /\ counted dirty_flushes began = 1 /\ counted dirty_flushes ended = 2 /\
      counted dirty_flushes began <= acc dirty_flushes <= counted dirty_flushes ended
  | _ => False
  end.
Proof.
  set (s := foldl tact telemetry_start telemetry_run).
  assert (match t_threads s !! 1%nat with
          | Some (TSnapshot acc began ended) =>
              bool_decide ((acc disk_writes, acc dirty_flushes) = (1, 2) /\ counted dirty_flushes began = 1 /\ counted dirty_flushes ended = 2 /\
                Z.of_nat (length ended) < u64_mod)
          | _ => false end = true) as E by (vm_compute; reflexivity).
  destruct (t_threads s !! 1%nat) as [[| | |acc began ended]|] eqn:Hj; try discriminate E.
  apply bool_decide_eq_true in E as (E1 & E2 & E3 & E4). split; [exact E1|]. split; [exact E2|]. split; [exact E3|].
  exact (proj2 (telemetry_snapshot_counts s 1 acc began ended dirty_flushes (tacts_steps _ _) Hj E4)).
Defined.
