(* ===== verification/TelemetryExport.v ===== *)
(** Exported snapshots: [lib/telemetry/telemetry_export.cc] (JSON) and
    [lib/telemetry/shared_memory_telemetry.cc] (a shared-memory object).

    Text is a list of characters.  Shared-memory objects are byte strings by name;
    which system call fails, if any, is an argument. *)
From Stdlib Require Import Strings.Byte Strings.Ascii FunctionalExtensionality.
From stdpp Require Import strings pretty.
From S2P Require Import Prelude Status FdCache Telemetry.

(** ** Snapshots as JSON *)

Definition text : Type := list ascii.
Definition lit (s : string) : text := String.list_ascii_of_string s.

Record TelemetryExportFrame := ExportFrame {
  ef_frame_id : Z;
  ef_file_id : Z;
  ef_block_id : Z;
  ef_pin_count : Z;
  ef_dirty_generation : Z;
  ef_is_valid : bool;
  ef_is_dirty : bool;
  ef_io_in_flight : bool;
  ef_flush_queued : bool;
  ef_flush_in_flight : bool;
  ef_state : text
}.

Record TelemetryExportSnapshot := ExportSnapshot_ {
  ex_timestamp_ms : Z;
  ex_source : text;
  ex_pool_size : Z;
  ex_page_size : Z;
  ex_dirty_page_count : Z;
  ex_flush_queued_count : Z;
  ex_flush_in_flight_count : Z;
  ex_counters : TelemetrySnapshot;
  ex_frames : list TelemetryExportFrame
}.

Definition quote : ascii := ascii_of_nat 34.
Definition backslash : ascii := ascii_of_nat 92.
Definition newline : ascii := ascii_of_nat 10.
Definition carriage_return : ascii := ascii_of_nat 13.
Definition tab : ascii := ascii_of_nat 9.

Definition escape_char (ch : ascii) : text :=
  if Ascii.eqb ch backslash then [backslash; backslash]
  else if Ascii.eqb ch quote then [backslash; quote]
  else if Ascii.eqb ch newline then backslash :: lit "n"
  else if Ascii.eqb ch carriage_return then backslash :: lit "r"
  else if Ascii.eqb ch tab then backslash :: lit "t"
  else [ch].
Definition JsonEscape (input : text) : text := mjoin (escape_char <$> input).

(** A key with its colon; numbers, strings and truth values. *)
Definition key (k : string) : text := quote :: lit k ++ [quote] ++ lit ":".
Definition number (z : Z) : text := lit (pretty z).
Definition quoted (s : text) : text := quote :: JsonEscape s ++ [quote].
Definition truth (b : bool) : text := lit (if b then "true" else "false").
Definition comma : text := lit ",".

Definition counter_name (c : counter) : string :=
  match c with
  | buffer_hits => "buffer_hits" | buffer_misses => "buffer_misses" | disk_reads => "disk_reads" | disk_writes => "disk_writes"
  | evictions => "evictions" | dirty_flushes => "dirty_flushes" | flush_tasks_scheduled => "flush_tasks_scheduled"
  | flush_tasks_completed => "flush_tasks_completed" | flush_failures => "flush_failures"
  | cleaner_flushes_scheduled => "cleaner_flushes_scheduled" | cleaner_flushes_finished => "cleaner_flushes_finished"
  | cleaner_flushes_skipped => "cleaner_flushes_skipped" | eviction_failures => "eviction_failures"
  end.

(** Fields separated by commas. *)
Fixpoint AppendFields (t : TelemetrySnapshot) (l : list counter) : text :=
  match l with
  | [] => []
  | [c] => key (counter_name c) ++ number (t c)
  | c :: l => key (counter_name c) ++ number (t c) ++ comma ++ AppendFields t l
  end.
Definition AppendCountersJson (t : TelemetrySnapshot) : text := key "counters" ++ lit "{" ++ AppendFields t all_counters ++ lit "}".

Definition AppendFrameJson (f : TelemetryExportFrame) : text :=
  lit "{" ++ key "frame_id" ++ number (ef_frame_id f) ++ comma ++ key "state" ++ quoted (ef_state f) ++ comma ++
  key "file_id" ++ number (ef_file_id f) ++ comma ++ key "block_id" ++ number (ef_block_id f) ++ comma ++
  key "pin_count" ++ number (ef_pin_count f) ++ comma ++ key "dirty_generation" ++ number (ef_dirty_generation f) ++ comma ++
  key "is_valid" ++ truth (ef_is_valid f) ++ comma ++ key "is_dirty" ++ truth (ef_is_dirty f) ++ comma ++
  key "io_in_flight" ++ truth (ef_io_in_flight f) ++ comma ++ key "flush_queued" ++ truth (ef_flush_queued f) ++ comma ++
  key "flush_in_flight" ++ truth (ef_flush_in_flight f) ++ lit "}".

Fixpoint AppendFrames (l : list TelemetryExportFrame) : text :=
  match l with
  | [] => []
  | [f] => AppendFrameJson f
  | f :: l => AppendFrameJson f ++ comma ++ AppendFrames l
  end.

Definition SerializeTelemetryExportJson (s : TelemetryExportSnapshot) : text :=
  lit "{" ++ key "timestamp_ms" ++ number (ex_timestamp_ms s) ++ comma ++ key "source" ++ quoted (ex_source s) ++ comma ++
  key "pool_size" ++ number (ex_pool_size s) ++ comma ++ key "page_size" ++ number (ex_page_size s) ++ comma ++
  key "dirty_page_count" ++ number (ex_dirty_page_count s) ++ comma ++ key "flush_queued_count" ++ number (ex_flush_queued_count s) ++ comma ++
  key "flush_in_flight_count" ++ number (ex_flush_in_flight_count s) ++ comma ++ AppendCountersJson (ex_counters s) ++ comma ++
  key "frames" ++ lit "[" ++ AppendFrames (ex_frames s) ++ lit "]}".

(** ** The shared-memory object *)

Definition kTelemetrySharedMemoryMagic : Z := 0x54505448.
Definition kTelemetrySharedMemoryVersion : Z := 1.
Definition kTelemetrySharedMemoryReady : Z := 1.

Record TelemetrySharedMemoryHeader := ShmHeader {
  sh_magic : Z;
  sh_version : Z;
  sh_flags : Z;
  sh_sequence : Z;
  sh_payload_size : Z;
  sh_payload_capacity : Z
}.
Definition kHeaderBytes : Z := 32.

Definition byte_of_Z (z : Z) : byte := default x00 (Byte.of_N (Z.to_N (z mod 256))).
Definition Z_of_byte (b : byte) : Z := Z.of_N (Byte.to_N b).

(** [n] bytes, the lowest first. *)
Fixpoint le_split (n : nat) (z : Z) : list byte :=
  match n with O => [] | S n => byte_of_Z z :: le_split n (Z.shiftr z 8) end.
Fixpoint le_combine (l : list byte) : Z :=
  match l with [] => 0 | b :: l => Z_of_byte b + Z.shiftl (le_combine l) 8 end.

Definition header_bytes (h : TelemetrySharedMemoryHeader) : list byte :=
  le_split 4 (sh_magic h) ++ le_split 2 (sh_version h) ++ le_split 2 (sh_flags h) ++ le_split 8 (sh_sequence h) ++
  le_split 8 (sh_payload_size h) ++ le_split 8 (sh_payload_capacity h).
Definition read_header (l : list byte) : TelemetrySharedMemoryHeader :=
  ShmHeader (le_combine (take 4 l)) (le_combine (take 2 (drop 4 l))) (le_combine (take 2 (drop 6 l))) (le_combine (take 8 (drop 8 l)))
    (le_combine (take 8 (drop 16 l))) (le_combine (take 8 (drop 24 l))).

Definition slash : ascii := ascii_of_nat 47.
Definition ValidateSharedMemoryName (name : text) : Status :=
  match name with
  | [] => InvalidArgument "telemetry shared-memory name must not be empty"
  | c :: rest =>
      if (match rest with [] => true | _ => false end) || negb (Ascii.eqb c slash)
      then InvalidArgument "telemetry shared-memory name must start with '/' and include a name"
      else if existsb (fun d => Ascii.eqb d slash) rest then InvalidArgument "telemetry shared-memory name must not contain nested '/' characters"
      else Ok tt
  end.

Definition BuildHeader (sequence size capacity flags : Z) : TelemetrySharedMemoryHeader :=
  ShmHeader kTelemetrySharedMemoryMagic kTelemetrySharedMemoryVersion flags sequence size capacity.
Definition IsHeaderCompatible (h : TelemetrySharedMemoryHeader) : bool :=
  (sh_magic h =? kTelemetrySharedMemoryMagic) && (sh_version h =? kTelemetrySharedMemoryVersion).

(** The [errno] of a call that fails; whether [pread] of the old header fails. *)
Record shm_faults := ShmFaults { fault_open : option Z; fault_truncate : option Z; fault_map : option Z; fault_stat : option Z; fault_pread : bool }.
Definition no_faults : shm_faults := ShmFaults None None None None false.
Definition ReadPreviousSequence (f : shm_faults) (l : list byte) : Z :=
  if fault_pread f || (Z.of_nat (length l) <? kHeaderBytes) then 0
  else if IsHeaderCompatible (read_header l) then sh_sequence (read_header l) else 0.
Definition NextSequence (previous : Z) : Z := if previous =? u64_mod - 1 then 1 else previous + 1.
Definition ENOENT : Z := 2.
Definition EINVAL : Z := 22.

(** [ftruncate]: longer objects are cut, shorter ones filled with zeros. *)
Definition resize (n : Z) (l : list byte) : list byte := take (Z.to_nat n) (l ++ replicate (Z.to_nat n - length l) x00).
(** [memcpy] to an offset of the mapping. *)
Definition copy_to (offset : nat) (d l : list byte) : list byte := take offset l ++ d ++ drop (offset + length d) l.

(** Opening a name, which may be [missing], and mapping an object. *)
Definition OpenSharedMemory (missing : bool) (f : shm_faults) : Status :=
  match (if missing then Some ENOENT else fault_open f) with
  | Some e => if e =? ENOENT then NotFound "telemetry shared memory not found" e else IoError "failed to open telemetry shared memory" e
  | None => Ok tt
  end.
Definition MapSharedMemory (f : shm_faults) : Status :=
  match fault_map f with Some e => IoError "failed to map telemetry shared memory" e | None => Ok tt end.

Definition WriteTelemetryExportSharedMemory (name : text) (capacity : Z) (s : TelemetryExportSnapshot) (f : shm_faults) (m : gmap text (list byte)) : Status * gmap text (list byte) :=
  match ValidateSharedMemoryName name with
  | Err e => (Err e, m)
  | Ok _ =>
      if capacity =? 0 then (InvalidArgument "telemetry shared-memory payload capacity must be greater than zero", m)
      else if u64_mod - 1 - kHeaderBytes <? capacity then (ResourceExhausted "telemetry shared-memory payload capacity is too large", m)
      else
        let payload := byte_of_ascii <$> SerializeTelemetryExportJson s in
        let size := Z.of_nat (length payload) in
        if capacity <? size then (ResourceExhausted "telemetry shared-memory payload capacity is too small", m)
        else match OpenSharedMemory false f with
             | Err e => (Err e, m)
             | Ok _ =>
                 let l := default [] (m !! name) in
                 let sequence := NextSequence (ReadPreviousSequence f l) in
                 let total := kHeaderBytes + capacity in
                 let m := <[name := l]> m in
                 match (if to_off total <? 0 then Some EINVAL else fault_truncate f) with
                 | Some e => (IoError "failed to size telemetry shared memory" e, m)
                 | None =>
                     let l := resize total l in
                     let m := <[name := l]> m in
                     match MapSharedMemory f with
                     | Err e => (Err e, m)
                     | Ok _ =>
                         let l := copy_to 0 (header_bytes (BuildHeader sequence size capacity 0)) l in
                         let l := copy_to (Z.to_nat kHeaderBytes) payload l in
                         let l := if size <? capacity then copy_to (Z.to_nat (kHeaderBytes + size)) (replicate (Z.to_nat (capacity - size)) x00) l else l in
                         let l := copy_to 0 (header_bytes (BuildHeader sequence size capacity kTelemetrySharedMemoryReady)) l in
                         (Ok tt, <[name := l]> m)
                     end
                 end
             end
  end.

Definition ReadTelemetryExportSharedMemory (name : text) (f : shm_faults) (m : gmap text (list byte)) : Result (list byte) :=
  match ValidateSharedMemoryName name with
  | Err e => Err e
  | Ok _ =>
      let l := default [] (m !! name) in
      match OpenSharedMemory (match m !! name with None => true | Some _ => false end) f with
      | Err e => Err e
      | Ok _ =>
          match fault_stat f with
          | Some e => IoError "failed to stat telemetry shared memory" e
          | None =>
              if Z.of_nat (length l) <? kHeaderBytes then NotFound "telemetry shared memory is smaller than the header" 0
              else match MapSharedMemory f with
                   | Err e => Err e
                   | Ok _ =>
                       let h := read_header l in
                       if negb (IsHeaderCompatible h) then InvalidArgument "telemetry shared memory header is not compatible"
                       else if Z.land (sh_flags h) kTelemetrySharedMemoryReady =? 0 then Unavailable "telemetry shared memory snapshot is not ready" 0
                       else if (Z.of_nat (length l) - kHeaderBytes <? sh_payload_capacity h) || (sh_payload_capacity h <? sh_payload_size h)
                       then Internal "telemetry shared memory header has invalid payload bounds"
                       else Ok (take (Z.to_nat (sh_payload_size h)) (drop (Z.to_nat kHeaderBytes) l))
                   end
          end
      end
  end.

Definition UnlinkTelemetryExportSharedMemory (name : text) (f : shm_faults) (m : gmap text (list byte)) : Status * gmap text (list byte) :=
  match ValidateSharedMemoryName name with
  | Err e => (Err e, m)
  | Ok _ =>
      match (match m !! name with None => Some ENOENT | Some _ => fault_open f end) with
      | Some e => (if e =? ENOENT then Ok tt else IoError "failed to unlink telemetry shared memory" e, m)
      | None => (Ok tt, delete name m)
      end
  end.

(** ** Appending to a file *)

(** [short] is how many characters are written before a write fails. *)
Record file_faults := FileFaults { fault_directory : option Z; opens : bool; short : option nat }.

(** [fs] are the files; directories are created as needed. *)
Definition AppendTelemetryExportJsonLine (path : text) (s : TelemetryExportSnapshot) (f : file_faults) (fs : gmap text text) : Status * gmap text text :=
  match path with
  | [] => (InvalidArgument "telemetry export path must not be empty", fs)
  | _ =>
      match (if existsb (fun d => Ascii.eqb d slash) path then fault_directory f else None) with
      | Some e => (IoError "failed to create telemetry export directory" e, fs)
      | None =>
          if negb (opens f) then (IoError "failed to open telemetry export file" 0, fs)
          else
            let line := SerializeTelemetryExportJson s ++ [newline] in
            let append l := <[path := default [] (fs !! path) ++ l]> fs in
            match short f with
            | Some n => (IoError "failed to write telemetry export file" 0, append (take n line))
            | None => (Ok tt, append line)
            end
      end
  end.

(** ** Bytes of numbers *)

Lemma Z_of_byte_of_Z z : Z_of_byte (byte_of_Z z) = z mod 256.
Proof.
  unfold Z_of_byte, byte_of_Z. pose proof (Z.mod_pos_bound z 256 ltac:(lia)) as Hm. destruct (Byte.of_N (Z.to_N (z mod 256))) as [b|] eqn:Eb; cbn.
  - apply Byte.to_of_N in Eb. rewrite Eb. lia.
  - apply Byte.of_N_None_iff in Eb. lia.
Qed.

Lemma length_le_split n z : length (le_split n z) = n.
Proof. revert z. induction n as [|n IH]; intros z; cbn; [done|]. by rewrite IH. Qed.

Lemma le_combine_split n z : 0 <= z < 2 ^ (8 * Z.of_nat n) -> le_combine (le_split n z) = z.
Proof.
  revert z. induction n as [|n IH]; intros z Hz; [cbn in *; lia|]. cbn [le_split le_combine].
  assert (0 <= z / 2 ^ 8 < 2 ^ (8 * Z.of_nat n)) as Hd.
  { split; [apply Z.div_pos; lia|]. apply Z.div_lt_upper_bound; [lia|]. rewrite <- Z.pow_add_r by lia.
    replace (8 + 8 * Z.of_nat n) with (8 * Z.of_nat (S n)) by lia. lia. }
  rewrite Z_of_byte_of_Z, Z.shiftr_div_pow2, IH, Z.shiftl_mul_pow2 by lia. change (2 ^ 8) with 256. pose proof (Z.div_mod z 256). lia.
Qed.

Definition header_ok (h : TelemetrySharedMemoryHeader) : Prop :=
  0 <= sh_magic h < 2 ^ 32 /\ 0 <= sh_version h < 2 ^ 16 /\ 0 <= sh_flags h < 2 ^ 16 /\
  is_u64 (sh_sequence h) /\ is_u64 (sh_payload_size h) /\ is_u64 (sh_payload_capacity h).

Lemma length_header_bytes h : length (header_bytes h) = 32%nat.
Proof. unfold header_bytes. by rewrite !length_app, !length_le_split. Qed.

Lemma read_header_bytes h rest : header_ok h -> read_header (header_bytes h ++ rest) = h.
Proof.
  intros (H1 & H2 & H3 & H4 & H5 & H6). destruct h as [a b c d e g]. cbn in H1, H2, H3, H4, H5, H6. unfold read_header. f_equal.
  - exact (le_combine_split 4 a H1).
  - exact (le_combine_split 2 b H2).
  - exact (le_combine_split 2 c H3).
  - exact (le_combine_split 8 d H4).
  - exact (le_combine_split 8 e H5).
  - exact (le_combine_split 8 g H6).
Qed.

(** ** The object after a write *)

Lemma length_resize n l : 0 <= n -> length (resize n l) = Z.to_nat n.
Proof. intros Hn. unfold resize. rewrite length_take, length_app, length_replicate. lia. Qed.

(** Copying over part of a list: what is before, what is copied, what is after. *)
Lemma copy_to_middle a b c d : length b = length d -> copy_to (length a) d (a ++ b ++ c) = a ++ d ++ c.
Proof. intros El. unfold copy_to. rewrite take_app_length. do 2 f_equal. rewrite <- El, <- length_app, app_assoc. apply drop_app_length. Qed.

Lemma NextSequence_range f l : is_u64 (NextSequence (ReadPreviousSequence f l)).
Proof.
  assert (forall k, 0 <= le_combine k < 2 ^ (8 * Z.of_nat (length k))) as Hb.
  { induction k as [|b k IH]; [done|]. cbn [le_combine length]. rewrite Z.shiftl_mul_pow2 by lia. change (2 ^ 8) with 256.
    replace (8 * Z.of_nat (S (length k))) with (8 * Z.of_nat (length k) + 8) by lia. rewrite Z.pow_add_r by lia. change (2 ^ 8) with 256.
    assert (0 <= Z_of_byte b < 256) by (unfold Z_of_byte; pose proof (Byte.to_N_bounded b); lia). lia. }
  assert (is_u64 (ReadPreviousSequence f l)) as Hp.
  { unfold ReadPreviousSequence. destruct (_ || _); [unfold is_u64, u64_mod; lia|]. destruct (IsHeaderCompatible _); [|unfold is_u64, u64_mod; lia]. cbn.
    destruct (Hb (take 8 (drop 8 l))) as [? Hlt]. split; [done|]. eapply Z.lt_le_trans; [done|]. apply Z.pow_le_mono_r; [lia|].
    rewrite length_take. lia. }
  unfold NextSequence. destruct (Z.eqb_spec (ReadPreviousSequence f l) (u64_mod - 1)); unfold is_u64 in *; unfold u64_mod in *; lia.
Qed.

(** The whole object: header, payload, zeros. *)
Definition object_bytes (sequence capacity : Z) (payload : list byte) : list byte :=
  header_bytes (BuildHeader sequence (Z.of_nat (length payload)) capacity kTelemetrySharedMemoryReady) ++ payload ++
  replicate (Z.to_nat (capacity - Z.of_nat (length payload))) x00.

Lemma written_bytes l sequence capacity payload :
  Z.of_nat (length payload) <= capacity -> length l = Z.to_nat (kHeaderBytes + capacity) ->
  let size := Z.of_nat (length payload) in
  let l := copy_to 0 (header_bytes (BuildHeader sequence size capacity 0)) l in
  let l := copy_to (Z.to_nat kHeaderBytes) payload l in
  let l := if size <? capacity then copy_to (Z.to_nat (kHeaderBytes + size)) (replicate (Z.to_nat (capacity - size)) x00) l else l in
  copy_to 0 (header_bytes (BuildHeader sequence size capacity kTelemetrySharedMemoryReady)) l = object_bytes sequence capacity payload.
Proof.
  intros Hs Hl size. set (h0 := header_bytes (BuildHeader sequence size capacity 0)). set (h1 := header_bytes (BuildHeader sequence size capacity _)).
  assert (length h0 = 32%nat /\ length h1 = 32%nat) as [E0 E1] by (split; apply length_header_bytes). cbn zeta. unfold kHeaderBytes in *.
  set (n := length payload) in *. assert (exists a b c, l = a ++ b ++ c /\ length a = 32%nat /\ length b = n /\ length c = Z.to_nat (capacity - size)) as (a & b & c & -> & Ea & Eb & Ec).
  { exists (take 32 l), (take n (drop 32 l)), (drop n (drop 32 l)). rewrite !take_drop. split; [done|]. rewrite !length_take, !length_drop. unfold size. lia. }
  assert (copy_to 0 h0 (a ++ b ++ c) = h0 ++ b ++ c) as -> by (apply (copy_to_middle [] a (b ++ c) h0); lia).
  assert (copy_to (Z.to_nat 32) payload (h0 ++ b ++ c) = h0 ++ payload ++ c) as ->.
  { change (Z.to_nat 32) with 32%nat. rewrite <- E0. by apply copy_to_middle. }
  assert ((if size <? capacity then copy_to (Z.to_nat (32 + size)) (replicate (Z.to_nat (capacity - size)) x00) (h0 ++ payload ++ c) else h0 ++ payload ++ c) =
    h0 ++ payload ++ replicate (Z.to_nat (capacity - size)) x00) as ->.
  { destruct (Z.ltb_spec size capacity).
    - replace (Z.to_nat (32 + size)) with (length (h0 ++ payload)) by (rewrite length_app, E0; unfold size, n; lia).
      rewrite app_assoc. rewrite <- (app_nil_r c) at 1. rewrite (copy_to_middle (h0 ++ payload) c []) by (by rewrite length_replicate). by rewrite app_nil_r, <- app_assoc.
    - replace (Z.to_nat (capacity - size)) with 0%nat in * by lia. by destruct c. }
  apply (copy_to_middle [] h0 _ h1). lia.
Qed.

Lemma built_header_ok sequence size capacity :
  is_u64 sequence -> 0 <= size <= capacity -> is_u64 capacity -> header_ok (BuildHeader sequence size capacity kTelemetrySharedMemoryReady).
Proof.
  intros Hq Hs Hc. unfold header_ok, is_u64, kTelemetrySharedMemoryReady in *. cbn. unfold kTelemetrySharedMemoryMagic, kTelemetrySharedMemoryVersion. lia.
Qed.

Definition payload_of (s : TelemetryExportSnapshot) : list byte := byte_of_ascii <$> SerializeTelemetryExportJson s.

Lemma read_object name sequence capacity payload m :
  ValidateSharedMemoryName name = Ok tt -> is_u64 sequence -> Z.of_nat (length payload) <= capacity -> is_u64 capacity ->
  m !! name = Some (object_bytes sequence capacity payload) -> ReadTelemetryExportSharedMemory name no_faults m = Ok payload.
Proof.
  intros Hn Hq Hs Hc Hm. set (h := BuildHeader sequence (Z.of_nat (length payload)) capacity kTelemetrySharedMemoryReady).
  set (rest := payload ++ replicate (Z.to_nat (capacity - Z.of_nat (length payload))) x00). change (object_bytes sequence capacity payload) with (header_bytes h ++ rest) in Hm.
  assert (header_ok h) as Hh by (apply built_header_ok; [done|lia|done]).
  assert (length rest = Z.to_nat capacity) as Hr by (unfold rest; rewrite length_app, length_replicate; lia).
  unfold ReadTelemetryExportSharedMemory. rewrite Hn, Hm. cbn [default from_option id OpenSharedMemory MapSharedMemory fault_open fault_stat fault_map no_faults]. rewrite length_app, length_header_bytes, Hr.
  rewrite (read_header_bytes h rest Hh). unfold kHeaderBytes. destruct (Z.ltb_spec (Z.of_nat (32 + Z.to_nat capacity)) 32); [lia|].
  change (IsHeaderCompatible h) with true. change (Z.land (sh_flags h) kTelemetrySharedMemoryReady =? 0) with false. cbn [negb].
  change (sh_payload_size h) with (Z.of_nat (length payload)). change (sh_payload_capacity h) with capacity. unfold is_u64 in Hc.
  destruct (Z.ltb_spec (Z.of_nat (32 + Z.to_nat capacity) - 32) capacity); [lia|]. destruct (Z.ltb_spec capacity (Z.of_nat (length payload))); [lia|]. cbn [orb].
  f_equal. rewrite Nat2Z.id. change (Z.to_nat 32) with 32%nat. rewrite <- (length_header_bytes h), drop_app_length. apply take_app_length.
Qed.

(** C19 — The shared-memory snapshot round-trips: writing succeeds whenever the name
    is valid, the payload fits a capacity the system can provide and no call
    fails; and after any successful write reading returns the serialized
    snapshot, whatever the object held before, with the sequence moved on (from 0
    when the old header could not be read) and every other object as it was. *)
Theorem telemetry_shm_roundtrip name capacity s m :
  is_u64 capacity -> ValidateSharedMemoryName name = Ok tt -> Z.of_nat (length (payload_of s)) <= capacity ->
  (0 < capacity < 2 ^ 63 - kHeaderBytes -> exists m', WriteTelemetryExportSharedMemory name capacity s no_faults m = (Ok tt, m')) /\
  (forall f m', WriteTelemetryExportSharedMemory name capacity s f m = (Ok tt, m') ->
     ReadTelemetryExportSharedMemory name no_faults m' = Ok (payload_of s) /\
     (exists l, m' !! name = Some l /\ sh_sequence (read_header l) = NextSequence (ReadPreviousSequence f (default [] (m !! name)))) /\
     forall other, other <> name -> m' !! other = m !! other).
Proof.
  intros Hc Hn Hs. unfold WriteTelemetryExportSharedMemory. rewrite Hn. fold (payload_of s). cbn zeta. unfold is_u64 in Hc.
  split.
  - intros Hcap. unfold kHeaderBytes in *. destruct (Z.eqb_spec capacity 0); [lia|]. destruct (Z.ltb_spec (u64_mod - 1 - 32) capacity); [unfold u64_mod in *; lia|].
    destruct (Z.ltb_spec capacity (Z.of_nat (length (payload_of s)))); [lia|]. cbn [OpenSharedMemory MapSharedMemory no_faults fault_open fault_truncate fault_map].
    unfold to_off. destruct (Z.ltb_spec (32 + capacity) (2 ^ 63)); [|lia]. destruct (Z.ltb_spec (32 + capacity) 0); [lia|]. by eexists.
  - intros f m'. destruct (capacity =? 0); [done|]. destruct (_ <? capacity); [done|]. destruct (capacity <? _); [done|].
    destruct (OpenSharedMemory false f); [|done]. set (l := default [] (m !! name)). destruct (if to_off _ <? 0 then _ else _); [done|].
    destruct (MapSharedMemory f); [|done]. intros Em. rewrite written_bytes in Em by (try done; apply length_resize; unfold kHeaderBytes; lia).
    apply (f_equal snd) in Em. cbn [snd] in Em. subst m'. pose proof (NextSequence_range f l) as Hq. set (q := NextSequence (ReadPreviousSequence f l)) in *. split; [|split].
    + eapply read_object; [done..|]. apply lookup_insert_eq.
    + eexists. rewrite lookup_insert_eq. split; [done|]. unfold object_bytes. rewrite read_header_bytes; [done|]. apply built_header_ok; [done|lia|done].
    + intros other Ho. by rewrite !lookup_insert_ne by done.
Qed.
