(* ===== verification/TelemetryJson.v ===== *)
(** The JSON document of [TelemetryExport] determines the snapshot it was written
    from: no two snapshots have the same text.  Each piece of the document can be
    told from what follows it: numbers end at the first character that is no
    digit, escaped strings at the first quote that is not escaped. *)
From Stdlib Require Import Strings.Byte Strings.Ascii FunctionalExtensionality.
From stdpp Require Import strings pretty.
From S2P Require Import Prelude Status FdCache Telemetry TelemetryExport.

(** ** Numbers *)

Definition is_digit (c : ascii) : bool := (48 <=? Z.of_N (N_of_ascii c)) && (Z.of_N (N_of_ascii c) <=? 57).
(** What follows does not continue a number. *)
Definition number_ends (r : text) : bool := match r with c :: _ => negb (is_digit c) | [] => true end.

Lemma digit_char n : is_digit (pretty_N_char n) = true.
Proof. unfold pretty_N_char. destruct n as [|[[[[]|[]|]|[[]|[]|]|]|[[[]|[]|]|[[]|[]|]|]|]]; reflexivity. Qed.

Lemma digits_go n s : Forall (fun c => is_digit c = true) (lit s) -> Forall (fun c => is_digit c = true) (lit (pretty_N_go n s)).
Proof.
  revert s. induction n as [n IH] using (well_founded_induction N.lt_wf_0). intros s Hs. destruct (decide (n = 0%N)) as [->|Hn]; [by rewrite pretty_N_go_0|].
  rewrite pretty_N_go_step by lia. apply IH; [apply N.div_lt; lia|]. constructor; [apply digit_char|done].
Qed.

Lemma number_digits z : 0 <= z -> Forall (fun c => is_digit c = true) (number z).
Proof.
  intros Hz. unfold number. destruct z as [|p|p]; [by repeat constructor| |lia]. change (pretty (Z.pos p)) with (pretty (N.pos p)).
  unfold pretty, pretty_N. rewrite decide_False by done. apply digits_go. constructor.
Qed.

Lemma lit_inj s1 s2 : lit s1 = lit s2 -> s1 = s2.
Proof. intros E. rewrite <- (String.string_of_list_ascii_of_string s1), <- (String.string_of_list_ascii_of_string s2). unfold lit in E. by rewrite E. Qed.

Lemma span_app (l1 l2 r1 r2 : text) :
  Forall (fun c => is_digit c = true) l1 -> Forall (fun c => is_digit c = true) l2 -> number_ends r1 = true -> number_ends r2 = true ->
  l1 ++ r1 = l2 ++ r2 -> l1 = l2 /\ r1 = r2.
Proof.
  intros H1. revert l2. induction H1 as [|c l1 Hc _ IH]; intros l2 H2 N1 N2 E.
  - destruct H2 as [|d l2 Hd _]; [done|]. cbn in E. subst r1. cbn in N1. by rewrite Hd in N1.
  - destruct H2 as [|d l2 Hd H2]; [cbn in E; subst r2; cbn in N2; by rewrite Hc in N2|]. injection E as -> E.
    destruct (IH l2 H2 N1 N2 E) as [-> ->]. done.
Qed.

Lemma number_app x y r1 r2 :
  0 <= x -> 0 <= y -> number_ends r1 = true -> number_ends r2 = true -> number x ++ r1 = number y ++ r2 -> x = y /\ r1 = r2.
Proof.
  intros Hx Hy N1 N2 E. apply span_app in E as [E ->]; [|by apply number_digits..|done|done]. split; [|done]. apply lit_inj in E. by apply (inj pretty) in E.
Qed.

(** ** Strings and truth values *)

(** The first character of an escaped text. *)
Definition unescape (t : text) : option (ascii * text) :=
  match t with
  | [] => None
  | c :: t =>
      if Ascii.eqb c backslash then
        match t with
        | [] => None
        | d :: t => Some (if Ascii.eqb d "n" then newline else if Ascii.eqb d "r" then carriage_return else if Ascii.eqb d "t" then tab else d, t)
        end
      else Some (c, t)
  end.

Lemma unescape_char c t : unescape (escape_char c ++ t) = Some (c, t).
Proof. destruct c as [[] [] [] [] [] [] [] []]; reflexivity. Qed.

Lemma escape_not_quote c t r : escape_char c ++ t <> quote :: r.
Proof. destruct c as [[] [] [] [] [] [] [] []]; discriminate. Qed.

Lemma quoted_app s1 s2 r1 r2 : quoted s1 ++ r1 = quoted s2 ++ r2 -> s1 = s2 /\ r1 = r2.
Proof.
  unfold quoted. cbn [app]. intros [= E]. rewrite <- !app_assoc in E. cbn [app] in E. revert s2 E.
  induction s1 as [|c s1 IH]; intros [|d s2] E.
  - by injection E as ->.
  - exfalso. unfold JsonEscape in E. cbn in E. rewrite <- app_assoc in E. by eapply escape_not_quote.
  - exfalso. unfold JsonEscape in E. cbn in E. rewrite <- app_assoc in E. by eapply escape_not_quote.
  - unfold JsonEscape in E. cbn [fmap list_fmap mjoin list_join] in E. rewrite <- !app_assoc in E. apply (f_equal unescape) in E.
    rewrite !unescape_char in E. injection E as -> E. destruct (IH s2 E) as [-> ->]. done.
Qed.

Lemma truth_app a b r1 r2 : truth a ++ r1 = truth b ++ r2 -> a = b /\ r1 = r2.
Proof. destruct a, b; cbn; intros [= E]; done. Qed.

(** ** Documents *)

(** Every number of a snapshot is unsigned. *)
Definition frame_numbers (f : TelemetryExportFrame) : Prop :=
  0 <= ef_frame_id f /\ 0 <= ef_file_id f /\ 0 <= ef_block_id f /\ 0 <= ef_pin_count f /\ 0 <= ef_dirty_generation f.
Definition snapshot_numbers (s : TelemetryExportSnapshot) : Prop :=
  0 <= ex_timestamp_ms s /\ 0 <= ex_pool_size s /\ 0 <= ex_page_size s /\ 0 <= ex_dirty_page_count s /\ 0 <= ex_flush_queued_count s /\
  0 <= ex_flush_in_flight_count s /\ (forall c, 0 <= ex_counters s c) /\ Forall frame_numbers (ex_frames s).

(** Take the pieces both documents start with off an equation between them. *)
Local Ltac strip E :=
  rewrite <- ?app_assoc in E;
  repeat first
    [ apply app_inv_head in E
    | apply number_app in E as [? E]; [|done|done|reflexivity|reflexivity]
    | apply quoted_app in E as [? E]
    | apply truth_app in E as [? E] ].

Lemma frame_app f1 f2 r1 r2 :
  frame_numbers f1 -> frame_numbers f2 -> AppendFrameJson f1 ++ r1 = AppendFrameJson f2 ++ r2 -> f1 = f2 /\ r1 = r2.
Proof.
  intros (A1 & A2 & A3 & A4 & A5) (B1 & B2 & B3 & B4 & B5) E. destruct f1 as [a1 a2 a3 a4 a5 a6 a7 a8 a9 a10 a11], f2 as [b1 b2 b3 b4 b5 b6 b7 b8 b9 b10 b11].
  cbn in A1, A2, A3, A4, A5, B1, B2, B3, B4, B5. unfold AppendFrameJson in E. cbn [ef_frame_id ef_file_id ef_block_id
    ef_pin_count ef_dirty_generation ef_is_valid ef_is_dirty ef_io_in_flight ef_flush_queued ef_flush_in_flight ef_state] in E. strip E. by subst.
Qed.

Lemma frames_app l1 l2 r1 r2 :
  Forall frame_numbers l1 -> Forall frame_numbers l2 -> AppendFrames l1 ++ lit "]" ++ r1 = AppendFrames l2 ++ lit "]" ++ r2 -> l1 = l2 /\ r1 = r2.
Proof.
  intros H1. revert l2. induction H1 as [|f l1 Hf H1 IH]; intros l2 H2 E; destruct H2 as [|g l2 Hg H2].
  - by apply (app_inv_head (lit "]")) in E as ->.
  - exfalso. destruct l2; [|cbn [AppendFrames] in E; rewrite <- !app_assoc in E]; discriminate E.
  - exfalso. destruct l1; [|cbn [AppendFrames] in E; rewrite <- !app_assoc in E]; discriminate E.
  - destruct l1 as [|f' l1], l2 as [|g' l2]; cbn [AppendFrames] in E; rewrite <- ?app_assoc in E; apply frame_app in E as [-> E]; try done; try discriminate E.
    + by apply app_inv_head in E.
    + apply app_inv_head in E. destruct (IH (g' :: l2) H2 E) as [-> ->]. done.
Qed.

Lemma fields_app t1 t2 c l r1 r2 :
  (forall c, 0 <= t1 c) -> (forall c, 0 <= t2 c) -> number_ends r1 = true -> number_ends r2 = true ->
  AppendFields t1 (c :: l) ++ r1 = AppendFields t2 (c :: l) ++ r2 -> (forall d, d ∈ c :: l -> t1 d = t2 d) /\ r1 = r2.
Proof.
  intros H1 H2 N1 N2. revert c. induction l as [|d l IH]; intros c E.
  - cbn [AppendFields] in E. rewrite <- !app_assoc in E. apply app_inv_head, number_app in E as [E ->]; try done. split; [|done].
    intros e ->%list_elem_of_singleton. done.
  - change (AppendFields ?t (c :: d :: l)) with (key (counter_name c) ++ number (t c) ++ comma ++ AppendFields t (d :: l)) in E. strip E.
    destruct (IH d E) as [Hd ->]. split; [|done]. intros e [->|He]%elem_of_cons; [done|by apply Hd].
Qed.

Lemma all_counters_all c : c ∈ all_counters.
Proof. apply (bool_decide_unpack _). by destruct c. Qed.

(** The exported document determines the snapshot: two snapshots with the same
    JSON text are equal, whatever characters their strings hold and however many
    frames they have. *)
Lemma json_determines_snapshot s1 s2 :
  snapshot_numbers s1 -> snapshot_numbers s2 -> SerializeTelemetryExportJson s1 = SerializeTelemetryExportJson s2 -> s1 = s2.
Proof.
  intros (A1 & A2 & A3 & A4 & A5 & A6 & A7 & A8) (B1 & B2 & B3 & B4 & B5 & B6 & B7 & B8) E. destruct s1 as [a1 a2 a3 a4 a5 a6 a7 t1 l1], s2 as [b1 b2 b3 b4 b5 b6 b7 t2 l2].
  cbn in A1, A2, A3, A4, A5, A6, A7, A8, B1, B2, B3, B4, B5, B6, B7, B8. unfold SerializeTelemetryExportJson, AppendCountersJson in E.
  cbn [ex_timestamp_ms ex_source ex_pool_size ex_page_size ex_dirty_page_count ex_flush_queued_count ex_flush_in_flight_count ex_counters ex_frames] in E. strip E.
  apply fields_app in E as [Et E]; [|done|done|reflexivity|reflexivity]. strip E. change (lit "]}") with (lit "]" ++ lit "}") in E. apply frames_app in E as [-> _]; try done.
  assert (t1 = t2) as -> by (apply functional_extensionality; intros c; apply Et, all_counters_all). by subst.
Qed.

(** ** A snapshot *)

Definition sample_frame (state : text) : TelemetryExportFrame := ExportFrame 3 7 12 1 40 true true false false false state.
Definition sample_snapshot (t : TelemetrySnapshot) : TelemetryExportSnapshot :=
  ExportSnapshot_ 1700000000000 [backslash; quote; newline] 2 4096 1 0 0 t [sample_frame (lit "resident"); sample_frame [quote]].
Definition sample_counters : TelemetrySnapshot := fun c => if decide (c = evictions) then 5 else 0.

Lemma json_determines_snapshot_witness :
  sample_snapshot sample_counters = sample_snapshot (fun c => match c with evictions => 5 | _ => 0 end).
Proof.
  apply json_determines_snapshot.
  - repeat split; cbn; try lia; [intros c; unfold sample_counters; destruct (decide _); lia|repeat constructor; cbn; lia].
  - repeat split; cbn; try lia; [intros []; lia|repeat constructor; cbn; lia].
  - vm_compute. reflexivity.
Defined.

(** Written over an older, larger object. *)
Definition old_objects : gmap text (list byte) :=
  {[lit "/telepath" := header_bytes (BuildHeader 41 0 8 kTelemetrySharedMemoryReady) ++ replicate 5000 x01]}.

Lemma telemetry_shm_roundtrip_witness :
  exists m', WriteTelemetryExportSharedMemory (lit "/telepath") 2048 (sample_snapshot sample_counters) no_faults old_objects = (Ok tt, m') /\
    ReadTelemetryExportSharedMemory (lit "/telepath") no_faults m' = Ok (payload_of (sample_snapshot sample_counters)) /\
    exists l, m' !! lit "/telepath" = Some l /\ sh_sequence (read_header l) = 42.
Proof.
  destruct (telemetry_shm_roundtrip (lit "/telepath") 2048 (sample_snapshot sample_counters) old_objects) as [Hw Hr].
  - unfold is_u64, u64_mod. lia.
  - reflexivity.
  - apply (bool_decide_unpack _). vm_compute. exact I.
  - destruct Hw as [m' Hm]; [unfold kHeaderBytes; lia|]. exists m'. split; [exact Hm|]. destruct (Hr _ _ Hm) as (Hread & (l & Hl & Hq) & _).
    split; [exact Hread|]. exists l. split; [exact Hl|]. rewrite Hq. vm_compute. reflexivity.
Defined.
