(* ===== verification/Observation.v ===== *)
(** The observation area: [lib/buffer/observation_publisher.{h,cc}], its format in
    [include/telepath/observation/observation_format.h] and the callback that fills
    it, in [BufferManager::StartObservation].

    The area is one shared-memory object: a header with the frame records, and 64
    process records.  Header and records are each guarded by a sequence number;
    words are stored one at a time, and [sq_past] lists, for the statements only,
    the contents at every moment the sequence became even.  Publishers in any
    number of processes open, publish, leave and crash; readers follow the
    protocol the format documents.  Locks on bytes of the object belong to an open
    descriptor and are released when it is closed or its process dies. *)
From stdpp Require Import strings.
From S2P Require Import Prelude Status FrameControl Layout Telemetry.

(** ** The format *)

Definition kObservationProcessCapacity : nat := 64.
Definition kFrameDirty : Z := 1.
Definition kFrameWritebackQueued : Z := 2.
Definition kFrameWritebackActive : Z := 4.

(** Positions of the guarded words: [published_unix_ms], [publisher_pid], the eight
    numbers of the summary, [min_rec_lsn], and eight words for each frame. *)
Definition kSummary : nat := 2.
Definition kDirtyPageCount : nat := 9.
Definition kMinRecLsn : nat := 10.
Definition kFrames : nat := 11.
Definition kFrameWords : nat := 8.
Definition header_words (pool : nat) : nat := kFrames + kFrameWords * pool.

(** A frame as the callback sees it. *)
Record frame_view := FrameView { fv_word : Z; fv_tag : BufferTag; fv_version : Z }.

(** What one call of [Publish] collects. *)
Record job := Job {
  j_now : Z;
  j_counters : TelemetrySnapshot;
  j_views : list frame_view;
  j_dirty_page_count : Z;
  j_min_rec_lsn : Z
}.

(** ** Stores *)

Definition frame_flags (word : Z) : list Z :=
  let dirty := if IsDirty word then kFrameDirty else 0 in
  let queued := if any_bit word kWritebackQueued then Z.lor dirty kFrameWritebackQueued else dirty in
  0 :: (if IsDirty word then [dirty] else []) ++ (if any_bit word kWritebackQueued then [queued] else []) ++
  (if any_bit word kWritebackActive then [Z.lor queued kFrameWritebackActive] else []).

Definition frame_stores (i : nat) (v : frame_view) : list (nat * Z) :=
  let base := (kFrames + kFrameWords * i)%nat in
  [(base, Z.of_nat i); ((base + 1)%nat, State (fv_word v))] ++ ((fun f => ((base + 2)%nat, f)) <$> frame_flags (fv_word v)) ++
  [((base + 3)%nat, Pins (fv_word v)); ((base + 4)%nat, file_id (fv_tag v)); ((base + 5)%nat, 0);
   ((base + 6)%nat, block_id (fv_tag v)); ((base + 7)%nat, fv_version v)].

(** The numbers of the summary that a frame counts in. *)
Definition frame_marks (word : Z) : list nat :=
  (if StateIs word kFree then [0%nat] else if StateIs word kLoading then [1%nat] else if StateIs word kResident then [2%nat] else []) ++
  (if IsDirty word then [3%nat] else []) ++ (if negb (Pins word =? 0) then [4%nat] else []) ++
  (if any_bit word kWritebackQueued then [5%nat] else []) ++ (if any_bit word kWritebackActive then [6%nat] else []).

(** [++summary->...] for each mark: the stores and the numbers after them. *)
Fixpoint mark_stores (marks : list nat) (sum : list Z) : list (nat * Z) * list Z :=
  match marks with
  | [] => ([], sum)
  | k :: marks =>
      let n := u64 (default 0 (sum !! k) + 1) in
      let '(l, sum) := mark_stores marks (<[k := n]> sum) in
      (((kSummary + k)%nat, n) :: l, sum)
  end.

Fixpoint view_stores (i : nat) (views : list frame_view) (sum : list Z) : list (nat * Z) :=
  match views with
  | [] => []
  | v :: views => let '(l, sum) := mark_stores (frame_marks (fv_word v)) sum in frame_stores i v ++ l ++ view_stores (S i) views sum
  end.

Definition header_stores (pid : Z) (j : job) : list (nat * Z) :=
  [(0%nat, j_now j); (1%nat, pid)] ++ ((fun k => ((kSummary + k)%nat, 0)) <$> seq 0 8) ++
  view_stores 0 (j_views j) (replicate 7 0) ++ [(kDirtyPageCount, j_dirty_page_count j); (kMinRecLsn, j_min_rec_lsn j)].

Definition record_stores (j : job) : list (nat * Z) := imap (fun i x => (i, x)) (j_now j :: (j_counters j <$> all_counters)).

(** ** Sequences *)

Record seqlock := Seqlock { sq_sequence : Z; sq_words : list Z; sq_past : list (list Z) }.

Definition new_seqlock (n : nat) : seqlock := Seqlock 0 (replicate n 0) [replicate n 0].
Definition BeginWrite (q : seqlock) : seqlock := Seqlock (u64 (sq_sequence q + 1)) (sq_words q) (sq_past q).
Definition store_word (i : nat) (x : Z) (q : seqlock) : seqlock := Seqlock (sq_sequence q) (<[i := x]> (sq_words q)) (sq_past q).
Definition EndWrite (q : seqlock) : seqlock := Seqlock (u64 (sq_sequence q + 1)) (sq_words q) (sq_words q :: sq_past q).

(** ** Publishers *)

Inductive opc :=
  | OOpen
  | OClaim (reclaim : bool) (index : nat)
  | OCas (reclaim : bool) (index : nat) (expected : Z)
  | OUsers (index : nat)
  | OIdle (index : nat)
  | OBegin (index : nat) (j : job)
  | ORecord (index : nat) (j : job) (todo : list (nat * Z))
  | OTry (index : nat) (j : job)
  | OHeaderBegin (index : nat) (j : job)
  | OHeader (index : nat) (j : job) (todo : list (nat * Z))
  | OUnclaim (index : nat)
  | ODestroy (holds_setup : bool) (r : Status)
  | OGone (r : Status).

(** One [ObservationPublisher]: its process, what it was opened for, whether it is
    the publisher. *)
Record instance := Instance_ { i_pid : Z; i_pool : nat; i_page : Z; i_cross : bool; i_publisher : bool; i_pc : opc }.
Definition set_pc (t : opc) (x : instance) : instance := Instance_ (i_pid x) (i_pool x) (i_page x) (i_cross x) (i_publisher x) t.
Definition set_publisher (x : instance) : instance := Instance_ (i_pid x) (i_pool x) (i_page x) (i_cross x) true (i_pc x).

(** Readers of area [a]: 0 is the header, [S r] process record [r]. *)
Inductive rpc :=
  | RBegin (a : nat)
  | RCopy (a : nat) (seq : Z) (todo : list nat) (copied : list Z)
  | RDone (a : nat) (copied : list Z).

(** The object: [o_pool] is the pool it is sized for, [o_meta] what its header says
    once [magic] is set. *)
Record osystem := OSystem {
  o_pool : nat;
  o_meta : option (Z * bool);
  o_areas : nat -> seqlock;
  o_pids : list Z;
  o_setup : option nat;
  o_users : gset nat;
  o_publisher : option nat;
  o_unlinked : bool;
  o_instances : gmap nat instance;
  o_readers : gmap nat rpc
}.

Definition set_instances (m : gmap nat instance) (s : osystem) : osystem :=
  OSystem (o_pool s) (o_meta s) (o_areas s) (o_pids s) (o_setup s) (o_users s) (o_publisher s) (o_unlinked s) m (o_readers s).
Definition set_readers (m : gmap nat rpc) (s : osystem) : osystem :=
  OSystem (o_pool s) (o_meta s) (o_areas s) (o_pids s) (o_setup s) (o_users s) (o_publisher s) (o_unlinked s) (o_instances s) m.
Definition set_area (a : nat) (q : seqlock) (s : osystem) : osystem :=
  OSystem (o_pool s) (o_meta s) (<[a := q]> (o_areas s)) (o_pids s) (o_setup s) (o_users s) (o_publisher s) (o_unlinked s) (o_instances s) (o_readers s).
Definition set_pids (l : list Z) (s : osystem) : osystem :=
  OSystem (o_pool s) (o_meta s) (o_areas s) l (o_setup s) (o_users s) (o_publisher s) (o_unlinked s) (o_instances s) (o_readers s).
Definition set_meta (m : option (Z * bool)) (s : osystem) : osystem :=
  OSystem (o_pool s) m (o_areas s) (o_pids s) (o_setup s) (o_users s) (o_publisher s) (o_unlinked s) (o_instances s) (o_readers s).
Definition set_locks (setup : option nat) (users : gset nat) (publisher : option nat) (s : osystem) : osystem :=
  OSystem (o_pool s) (o_meta s) (o_areas s) (o_pids s) setup users publisher (o_unlinked s) (o_instances s) (o_readers s).
Definition unlink (s : osystem) : osystem :=
  OSystem (o_pool s) (o_meta s) (o_areas s) (o_pids s) (o_setup s) (o_users s) (o_publisher s) true (o_instances s) (o_readers s).

(** Closing the descriptor of [j] releases its locks. *)
Definition release (j : nat) (o : option nat) : option nat := if decide (o = Some j) then None else o.
Definition close_locks (j : nat) (s : osystem) : osystem :=
  set_locks (release j (o_setup s)) (o_users s ∖ {[j]}) (release j (o_publisher s)) s.

(** [Open] once the name is open: under the setup lock it checks the name still
    exists, and that the object is for the same cache. *)
Definition open_object (j : nat) (x : instance) (s : osystem) : opc * osystem :=
  if o_unlinked s then (OGone (Unavailable "retry" 0), s)
  else if negb (bool_decide (i_pool x = o_pool s)) then (OGone (InvalidArgument "observation shared memory belongs to a cache with a different pool size"), s)
  else
    let s := set_locks (Some j) (o_users s) (o_publisher s) s in
    match o_meta s with
    | None => (OClaim false 0, set_meta (Some (i_page x, i_cross x)) s)
    | Some m =>
        if bool_decide (m = (i_page x, i_cross x)) then (OClaim false 0, s)
        else (ODestroy true (InvalidArgument "observation shared memory belongs to a different cache"), s)
    end.

(** [ClaimProcessRecord]: the load of one owner; [dead] is what [kill] says. *)
Definition claim_record (reclaim : bool) (index : nat) (dead : Z -> bool) (s : osystem) : opc :=
  match o_pids s !! index with
  | None => if reclaim then ODestroy true (ResourceExhausted "observation shared memory has no free process record") else OClaim true 0
  | Some expected =>
      if negb (expected =? 0) && negb (reclaim && dead expected) then OClaim reclaim (S index) else OCas reclaim index expected
  end.

(** The end of [TryBecomePublisher] and of the rest of [Publish] it guards. *)
Definition TryBecomePublisher (j index : nat) (b : job) (x : instance) (s : osystem) : option (instance * osystem) :=
  if i_publisher x then Some (set_pc (OHeaderBegin index b) x, s)
  else match o_publisher s with
       | None => Some (set_publisher (set_pc (OHeaderBegin index b) x), set_locks (o_setup s) (o_users s) (Some j) s)
       | Some _ => Some (set_pc (OIdle index) x, s)
       end.

(** The destructor: the record is given up, and whoever can lock the byte of the
    users removes the name. *)
Definition destroy_publisher (j : nat) (x : instance) (s : osystem) : option (instance * osystem) :=
  match i_pc x with
  | OUnclaim index => Some (set_pc (ODestroy false (Ok tt)) x, set_pids (<[index := 0]> (o_pids s)) s)
  | ODestroy holds_setup r =>
      match (if holds_setup then None else o_setup s) with
      | Some _ => None
      | None => Some (set_pc (OGone r) x, close_locks j (if decide (o_users s ⊆ {[j]}) then unlink s else s))
      end
  | _ => None
  end.

(** One step of publisher [j]; waiting for the setup lock is no step. *)
Definition ostep (j : nat) (dead : Z -> bool) (x : instance) (s : osystem) : option (instance * osystem) :=
  match i_pc x with
  | OOpen =>
      match o_setup s with
      | Some _ => None
      | None => let '(t, s) := open_object j x s in Some (set_pc t x, s)
      end
  | OClaim reclaim index => Some (set_pc (claim_record reclaim index dead s) x, s)
  | OCas reclaim index expected =>
      if bool_decide (o_pids s !! index = Some expected) then Some (set_pc (OUsers index) x, set_pids (<[index := i_pid x]> (o_pids s)) s)
      else Some (set_pc (OClaim reclaim (S index)) x, s)
  | OUsers index => Some (set_pc (OIdle index) x, set_locks (release j (o_setup s)) (o_users s ∪ {[j]}) (o_publisher s) s)
  (* Publish *)
  | OBegin index b => Some (set_pc (ORecord index b (record_stores b)) x, set_area (S index) (BeginWrite (o_areas s (S index))) s)
  | ORecord index b [] => Some (set_pc (OTry index b) x, set_area (S index) (EndWrite (o_areas s (S index))) s)
  | ORecord index b ((i, v) :: todo) => Some (set_pc (ORecord index b todo) x, set_area (S index) (store_word i v (o_areas s (S index))) s)
  | OTry index b => TryBecomePublisher j index b x s
  | OHeaderBegin index b => Some (set_pc (OHeader index b (header_stores (i_pid x) b)) x, set_area 0 (BeginWrite (o_areas s 0%nat)) s)
  | OHeader index b [] => Some (set_pc (OIdle index) x, set_area 0 (EndWrite (o_areas s 0%nat)) s)
  | OHeader index b ((i, v) :: todo) => Some (set_pc (OHeader index b todo) x, set_area 0 (store_word i v (o_areas s 0%nat)) s)
  | OUnclaim _ | ODestroy _ _ => destroy_publisher j x s
  | OIdle _ | OGone _ => None
  end.

(** The documented reader. *)
Definition rstep (t : rpc) (s : osystem) : option rpc :=
  match t with
  | RBegin a =>
      let q := sq_sequence (o_areas s a) in
      Some (if Z.odd q then RBegin a else RCopy a q (seq 0 (length (sq_words (o_areas s a)))) [])
  | RCopy a q (i :: todo) copied => Some (RCopy a q todo (copied ++ [default 0 (sq_words (o_areas s a) !! i)]))
  | RCopy a q [] copied => Some (if q =? sq_sequence (o_areas s a) then RDone a copied else RBegin a)
  | RDone _ _ => None
  end.

(** In the middle of a write. *)
Definition writing (t : opc) : option nat :=
  match t with ORecord index _ _ => Some (S index) | OHeader _ _ _ => Some 0%nat | _ => None end.

Definition gone (t : opc) : bool := match t with OGone _ => true | _ => false end.

(** [crashes t] says whether a process may die while its publisher is at [t]. *)
Inductive obs_step (crashes : opc -> bool) : osystem -> osystem -> Prop :=
  | obs_thread s j dead x x' s' :
      o_instances s !! j = Some x -> (forall p k y, dead p = true -> o_instances s !! k = Some y -> gone (i_pc y) = false -> i_pid y <> p) ->
      ostep j dead x s = Some (x', s') -> obs_step crashes s (set_instances (<[j := x']> (o_instances s)) s')
  | obs_open s j pid pool page cross :
      o_instances s !! j = None -> pid <> 0 ->
      obs_step crashes s (set_instances (<[j := Instance_ pid pool page cross false OOpen]> (o_instances s)) s)
  | obs_publish s j x index b :
      o_instances s !! j = Some x -> i_pc x = OIdle index -> length (j_views b) = o_pool s ->
      obs_step crashes s (set_instances (<[j := set_pc (OBegin index b) x]> (o_instances s)) s)
  | obs_destroy s j x index :
      o_instances s !! j = Some x -> i_pc x = OIdle index ->
      obs_step crashes s (set_instances (<[j := set_pc (OUnclaim index) x]> (o_instances s)) s)
  | obs_crash s j x :
      o_instances s !! j = Some x -> crashes (i_pc x) = true ->
      obs_step crashes s (close_locks j (set_instances (delete j (o_instances s)) s))
  | obs_read s k a : o_readers s !! k = None -> obs_step crashes s (set_readers (<[k := RBegin a]> (o_readers s)) s)
  | obs_reader s k t t' :
      o_readers s !! k = Some t -> rstep t s = Some t' -> obs_step crashes s (set_readers (<[k := t']> (o_readers s)) s).

Definition obs_start (pool : nat) : osystem :=
  OSystem pool None (fun a => new_seqlock (match a with O => header_words pool | S _ => S (length all_counters) end))
    (replicate kObservationProcessCapacity 0) None ∅ None false ∅ ∅.
