(* ===== verification/ObservationWords.v ===== *)
(** What one publication of the observation area leaves in its words, whatever they
    held before: the counts of the summary are those of the frame records. *)
From S2P Require Import Prelude Status FrameControl Layout Telemetry Observation.

Definition apply_stores (ws : list Z) (l : list (nat * Z)) : list Z := foldl (fun ws p => <[p.1 := p.2]> ws) ws l.

Lemma apply_app ws l1 l2 : apply_stores ws (l1 ++ l2) = apply_stores (apply_stores ws l1) l2.
Proof. apply foldl_app. Qed.

Lemma length_apply ws l : length (apply_stores ws l) = length ws.
Proof. revert ws. induction l as [|p l IH]; intros ws; [done|]. cbn. unfold apply_stores in IH. rewrite IH. apply length_insert. Qed.

(** ** The published words *)

Definition flag_word (word : Z) : Z :=
  (if IsDirty word then kFrameDirty else 0) + (if any_bit word kWritebackQueued then kFrameWritebackQueued else 0) +
  (if any_bit word kWritebackActive then kFrameWritebackActive else 0).

Definition frame_record (i : nat) (v : frame_view) : list Z :=
  [Z.of_nat i; State (fv_word v); flag_word (fv_word v); Pins (fv_word v); file_id (fv_tag v); 0; block_id (fv_tag v); fv_version v].

(** How many frames count in number [k] of the summary. *)
Definition marked (k : nat) (views : list frame_view) : Z := Z.of_nat (length (filter (fun v => k ∈ frame_marks (fv_word v)) views)).
Definition summary_of (views : list frame_view) : list Z := (fun k => u64 (marked k views)) <$> seq 0 7.

Definition snapshot_words (pid : Z) (j : job) : list Z :=
  [j_now j; pid] ++ summary_of (j_views j) ++ [j_dirty_page_count j; j_min_rec_lsn j] ++ mjoin (imap frame_record (j_views j)).

Definition record_words (j : job) : list Z := j_now j :: (j_counters j <$> all_counters).

(** ** Stores *)

Lemma insert_after (P Q : list Z) n k x : length P = n -> <[(n + k)%nat := x]> (P ++ Q) = P ++ <[k := x]> Q.
Proof. intros <-. apply insert_app_r. Qed.

Lemma frame_stores_apply i v P F Q :
  length P = (kFrames + kFrameWords * i)%nat -> length F = 8%nat -> apply_stores (P ++ F ++ Q) (frame_stores i v) = P ++ frame_record i v ++ Q.
Proof.
  intros Hp Hf. do 8 (destruct F as [|? F]; [done|]). destruct F; [|done]. unfold frame_stores. set (base := (kFrames + kFrameWords * i)%nat) in *. clearbody base.
  replace (base, Z.of_nat i) with ((base + 0)%nat, Z.of_nat i) by by rewrite Nat.add_0_r.
  assert (forall l R, apply_stores (P ++ R) ((fun p => ((base + p.1)%nat, p.2)) <$> l) = P ++ apply_stores R l) as Hbase.
  { induction l as [|[k x] l IH]; intros R; [done|]. cbn. rewrite insert_after by done. apply IH. }
  unfold frame_record, flag_word, frame_flags.
  destruct (IsDirty (fv_word v)), (any_bit (fv_word v) kWritebackQueued), (any_bit (fv_word v) kWritebackActive); cbn [app fmap list_fmap];
    match goal with |- apply_stores (P ++ ?R) ?l = _ =>
      let l' := constr:((fun p : nat * Z => ((p.1 - base)%nat, p.2)) <$> l) in
      transitivity (P ++ apply_stores R l'); [rewrite <- Hbase; f_equal; cbn; repeat f_equal; lia|]
    end; cbn [fmap list_fmap fst snd]; rewrite ?Nat.add_sub_swap, ?Nat.sub_diag by lia; reflexivity.
Qed.

Lemma mark_stores_apply marks sum A Q :
  length A = kSummary -> (forall k, k ∈ marks -> (k < length sum)%nat) ->
  let '(l, sum') := mark_stores marks sum in apply_stores (A ++ sum ++ Q) l = A ++ sum' ++ Q /\ length sum' = length sum.
Proof.
  intros Ha. revert sum. induction marks as [|k marks IH]; intros sum Hk; [done|]. cbn [mark_stores].
  specialize (IH (<[k := u64 (default 0 (sum !! k) + 1)]> sum)). rewrite length_insert in IH. specialize (IH ltac:(intros; apply Hk; by right)).
  destruct (mark_stores marks _) as [l sum']. destruct IH as [IH Hl]. split; [|done]. cbn [apply_stores foldl fst snd].
  rewrite insert_after, insert_app_l by (try done; apply Hk; by left). exact IH.
Qed.

(** The numbers after a list of frames. *)
Definition marks_sum (sum : list Z) (views : list frame_view) : list Z := foldl (fun sum v => (mark_stores (frame_marks (fv_word v)) sum).2) sum views.

Lemma frame_marks_range w k : k ∈ frame_marks w -> (k < 7)%nat.
Proof.
  unfold frame_marks. intros Hk. repeat match type of Hk with context [if ?b then _ else _] => destruct b end;
    cbn in Hk; repeat (apply elem_of_cons in Hk as [->|Hk]; [lia|]); by apply not_elem_of_nil in Hk.
Qed.
Lemma frame_marks_nodup w : NoDup (frame_marks w).
Proof. unfold frame_marks. repeat match goal with |- context [if ?b then _ else _] => destruct b end; apply (bool_decide_unpack _); reflexivity. Qed.

Lemma view_stores_apply i views sum A B P F :
  length A = 2%nat -> length sum = 7%nat -> length B = 2%nat -> length P = (8 * i)%nat -> length F = (8 * length views)%nat ->
  apply_stores (A ++ sum ++ B ++ P ++ F) (view_stores i views sum) =
  A ++ marks_sum sum views ++ B ++ P ++ mjoin (imap (fun k => frame_record (i + k)) views).
Proof.
  intros Ha. revert i sum P F. induction views as [|v views IH]; intros i sum P F Hs Hb Hp Hf.
  { cbn in *. by destruct F. }
  cbn [view_stores]. pose proof (mark_stores_apply (frame_marks (fv_word v)) sum A (B ++ P ++ frame_record i v ++ drop 8 F) Ha) as Hm.
  specialize (Hm ltac:(intros k Hk; rewrite Hs; by eapply frame_marks_range)). cbn [marks_sum foldl]. destruct (mark_stores _ sum) as [l sum'] eqn:Em. destruct Hm as [Hm Hl].
  rewrite !apply_app. cbn [length] in Hf. assert (apply_stores (A ++ sum ++ B ++ P ++ F) (frame_stores i v) = A ++ sum ++ B ++ P ++ frame_record i v ++ drop 8 F) as ->.
  { rewrite <- (take_drop 8 F) at 1. pose proof (frame_stores_apply i v (A ++ sum ++ B ++ P) (take 8 F) (drop 8 F)) as E. rewrite <- !app_assoc in E. apply E.
    - rewrite !length_app, Ha, Hs, Hb, Hp. unfold kFrames, kFrameWords. lia.
    - rewrite length_take. lia. }
  rewrite Hm. specialize (IH (S i) sum' (P ++ frame_record i v) (drop 8 F)). rewrite <- !app_assoc in IH. rewrite IH; [|lia|done|..].
  - cbn [imap mjoin list_join]. rewrite Nat.add_0_r. do 5 f_equal. f_equal. apply imap_ext. intros k x _. cbn. by rewrite Nat.add_succ_r.
  - rewrite length_app, Hp. cbn. lia.
  - rewrite length_drop. lia.
Qed.

(** ** The summary counts the frames *)

Lemma mark_stores_sum marks sum k :
  NoDup marks -> (k < length sum)%nat ->
  default 0 ((mark_stores marks sum).2 !! k) = if decide (k ∈ marks) then u64 (default 0 (sum !! k) + 1) else default 0 (sum !! k).
Proof.
  revert sum. induction marks as [|m marks IH]; intros sum Hnd Hk; [by rewrite decide_False by apply not_elem_of_nil|].
  apply list.NoDup_cons in Hnd as [Hm Hnd]. cbn [mark_stores]. specialize (IH (<[m := u64 (default 0 (sum !! m) + 1)]> sum) Hnd).
  rewrite length_insert in IH. specialize (IH Hk). destruct (mark_stores marks _) as [l sum']. cbn [snd] in *. rewrite IH.
  destruct (decide (k = m)) as [->|Hne].
  - rewrite decide_False by done. rewrite list_lookup_insert_eq by done. cbn [default]. rewrite decide_True; [done|by left].
  - rewrite list_lookup_insert_ne by done. destruct (decide (k ∈ marks)); [by rewrite decide_True by (by right)|].
    rewrite decide_False; [done|]. by intros [?|?]%elem_of_cons.
Qed.

Lemma length_mark_sum marks sum : length (mark_stores marks sum).2 = length sum.
Proof.
  revert sum. induction marks as [|m marks IH]; intros sum; [done|]. cbn [mark_stores]. specialize (IH (<[m := u64 (default 0 (sum !! m) + 1)]> sum)).
  destruct (mark_stores marks _). cbn in *. by rewrite IH, length_insert.
Qed.

Lemma marks_sum_lookup views sum k :
  (k < length sum)%nat -> is_u64 (default 0 (sum !! k)) -> default 0 (marks_sum sum views !! k) = u64 (default 0 (sum !! k) + marked k views).
Proof.
  revert sum. induction views as [|v views IH]; intros sum Hk Hu.
  { unfold marked. cbn [marks_sum foldl filter list_filter length Z.of_nat]. by rewrite Z.add_0_r, u64_small. }
  cbn [marks_sum foldl]. fold (marks_sum (mark_stores (frame_marks (fv_word v)) sum).2 views).
  rewrite IH; rewrite ?length_mark_sum, ?mark_stores_sum by (try done; apply frame_marks_nodup); [|done|destruct (decide _); [apply u64_range|done]].
  unfold marked. rewrite filter_cons. destruct (decide (k ∈ frame_marks (fv_word v))); [|done]. cbn [length]. unfold u64. rewrite Zplus_mod_idemp_l. f_equal. lia.
Qed.

Lemma length_marks_sum views sum : length (marks_sum sum views) = length sum.
Proof. revert sum. induction views as [|v views IH]; intros sum; [done|]. cbn [marks_sum foldl]. rewrite IH. apply length_mark_sum. Qed.

Lemma marks_sum_summary views : marks_sum (replicate 7 0) views = summary_of views.
Proof.
  assert (length (marks_sum (replicate 7 0) views) = 7%nat) as Hl by (rewrite length_marks_sum; done).
  eapply list_eq_same_length; [reflexivity|exact Hl|]. intros k x y Hk Hx Hy. change (k < 7)%nat in Hk.
  pose proof (marks_sum_lookup views (replicate 7 0) k Hk) as E. rewrite Hx, lookup_replicate_2 in E by done. cbn [default] in E.
  unfold summary_of in Hy. rewrite list_lookup_fmap, lookup_seq_lt in Hy by done. cbn [fmap option_fmap option_map] in Hy. injection Hy as <-.
  unfold default, from_option, id in E. rewrite E; [reflexivity|]. unfold is_u64, u64_mod. lia.
Qed.

(** A complete publication. *)
Lemma header_stores_apply pid j ws :
  length ws = header_words (length (j_views j)) -> apply_stores ws (header_stores pid j) = snapshot_words pid j.
Proof.
  unfold header_words, kFrames, kFrameWords. intros Hl. do 11 (destruct ws as [|? ws]; [cbn in Hl; lia|]).
  assert (length ws = (8 * length (j_views j))%nat) as Hw by (cbn [length] in Hl; lia).
  unfold header_stores. rewrite app_assoc, !apply_app.
  match goal with |- context [apply_stores (?a :: ?b :: ?c :: ?d :: ?e :: ?f :: ?g :: ?h :: ?i :: ?k :: ?l :: ws)] =>
    assert (apply_stores (a :: b :: c :: d :: e :: f :: g :: h :: i :: k :: l :: ws) ([(0%nat, j_now j); (1%nat, pid)] ++ ((fun k => ((kSummary + k)%nat, 0)) <$> seq 0 8))
      = [j_now j; pid] ++ replicate 7 0 ++ [0; l] ++ [] ++ ws) as E by reflexivity; rewrite apply_app in E; rewrite E; clear E
  end.
  rewrite view_stores_apply by done. rewrite marks_sum_summary. unfold snapshot_words, summary_of. reflexivity.
Qed.

Lemma record_stores_apply j ws : length ws = S (length all_counters) -> apply_stores ws (record_stores j) = record_words j.
Proof. intros Hl. do 14 (destruct ws as [|? ws]; [cbn in Hl; lia|]). destruct ws; [reflexivity|cbn in Hl; lia]. Qed.
