(* ===== verification/ObservationSafety.v ===== *)
(** Publishers of the observation area keep out of each other's way, wherever their
    processes die; and when none dies in the middle of a write, readers accept
    only complete snapshots. *)
From stdpp Require Import strings.
From S2P Require Import Prelude Status FrameControl Layout Telemetry Observation.

(** ** Locks and records *)

(** The process record a publisher owns. *)
Definition owns (t : opc) : option nat :=
  match t with
  | OUsers r | OIdle r | OBegin r _ | ORecord r _ _ | OTry r _ | OHeaderBegin r _ | OHeader r _ _ | OUnclaim r => Some r
  | _ => None
  end.
Definition in_setup (t : opc) : bool := match t with OClaim _ _ | OCas _ _ _ | OUsers _ | ODestroy true _ => true | _ => false end.
(** It holds a read lock on the byte of the users. *)
Definition is_user (t : opc) : bool :=
  match t with
  | OIdle _ | OBegin _ _ | ORecord _ _ _ | OTry _ _ | OHeaderBegin _ _ | OHeader _ _ _ | OUnclaim _ | ODestroy false _ => true
  | _ => false
  end.
(** It is, or is about to become, a user of this object. *)
Definition attached (t : opc) : bool := is_user t || match t with OClaim _ _ | OCas _ _ _ | OUsers _ => true | _ => false end.
(** It writes the header. *)
Definition publishing (t : opc) : bool := match t with OHeaderBegin _ _ | OHeader _ _ _ => true | _ => false end.

Record oinv (s : osystem) : Prop := {
  v_setup j x : o_instances s !! j = Some x -> in_setup (i_pc x) = true -> o_setup s = Some j;
  v_pid j x : o_instances s !! j = Some x -> i_pid x <> 0;
  v_owns j x r : o_instances s !! j = Some x -> owns (i_pc x) = Some r -> o_pids s !! r = Some (i_pid x);
  v_unique j k x y r : o_instances s !! j = Some x -> o_instances s !! k = Some y -> owns (i_pc x) = Some r -> owns (i_pc y) = Some r -> j = k;
  v_cas j k x y b r p : o_instances s !! j = Some x -> i_pc x = OCas b r p -> o_instances s !! k = Some y -> owns (i_pc y) = Some r -> i_pid y <> p;
  v_users j x : o_instances s !! j = Some x -> is_user (i_pc x) = true -> j ∈ o_users s;
  v_unlinked j x : o_unlinked s = true -> o_instances s !! j = Some x -> attached (i_pc x) = false;
  v_publisher j x : o_instances s !! j = Some x -> i_publisher x = true -> gone (i_pc x) = false -> o_publisher s = Some j;
  v_header j x : o_instances s !! j = Some x -> publishing (i_pc x) = true -> i_publisher x = true;
  v_meta j x : o_instances s !! j = Some x -> attached (i_pc x) = true -> o_meta s = Some (i_page x, i_cross x) /\ i_pool x = o_pool s
}.

Lemma release_other j k o : j <> k -> o = Some k -> release j o = Some k.
Proof. intros Hne ->. unfold release. rewrite decide_False; [done|congruence]. Qed.

(** A step of publisher [j] from [x] to [x'] that leaves the parts of the object as
    the conditions say. *)
Lemma oinv_move s j x x' s' :
  oinv s -> o_instances s !! j = Some x -> o_instances s' = o_instances s -> i_pid x' = i_pid x ->
  (in_setup (i_pc x') = true -> o_setup s' = Some j) ->
  (forall k, k <> j -> o_setup s = Some k -> o_setup s' = Some k) ->
  (forall r, owns (i_pc x') = Some r -> o_pids s' !! r = Some (i_pid x)) ->
  (forall r, owns (i_pc x') = Some r -> owns (i_pc x) = Some r \/ forall k y, k <> j -> o_instances s !! k = Some y -> owns (i_pc y) <> Some r) ->
  (forall r, o_pids s' !! r = o_pids s !! r \/ owns (i_pc x) = Some r \/ forall k y, k <> j -> o_instances s !! k = Some y -> owns (i_pc y) <> Some r) ->
  (forall b r p k y, i_pc x' = OCas b r p -> k <> j -> o_instances s !! k = Some y -> owns (i_pc y) = Some r -> i_pid y <> p) ->
  (forall r, owns (i_pc x') = Some r -> owns (i_pc x) = Some r \/ o_setup s = Some j) ->
  (is_user (i_pc x') = true -> j ∈ o_users s') -> (forall k, k <> j -> k ∈ o_users s -> k ∈ o_users s') ->
  (o_unlinked s' = true -> attached (i_pc x') = false /\ (o_unlinked s = true \/ forall k y, k <> j -> o_instances s !! k = Some y -> attached (i_pc y) = false)) ->
  (i_publisher x' = true -> gone (i_pc x') = false -> o_publisher s' = Some j) ->
  (forall k, k <> j -> o_publisher s = Some k -> o_publisher s' = Some k) ->
  (publishing (i_pc x') = true -> i_publisher x' = true) ->
  (attached (i_pc x') = true -> o_meta s' = Some (i_page x', i_cross x') /\ i_pool x' = o_pool s') ->
  (o_meta s' = o_meta s \/ o_meta s = None) -> o_pool s' = o_pool s ->
  oinv (set_instances (<[j := x']> (o_instances s')) s').
Proof.
  intros [I1 I2 I3 I4 I5 I6 I7 I8 I9 I10] Hj Ei Ep C1 C2 C3 C4 C5 C6 C7 C8 C9 C10 C11 C12 C13 C14 C15 C16. rewrite Ei.
  assert (forall k y, <[j := x']> (o_instances s) !! k = Some y -> k = j /\ y = x' \/ k <> j /\ o_instances s !! k = Some y) as Hcase.
  { intros k y [[<- <-]|[Hne Hk]]%lookup_insert_Some; [by left|by right]. }
  split; cbn [set_instances o_instances o_setup o_pids o_users o_unlinked o_publisher o_meta o_pool].
  - intros k y [[-> ->]|[Hne Hk]]%Hcase; [done|]. intros Hin. apply C2; [done|]. by eapply I1.
  - intros k y [[-> ->]|[Hne Hk]]%Hcase; [rewrite Ep; by eapply I2|by eapply I2].
  - intros k y r [[-> ->]|[Hne Hk]]%Hcase Ho; [rewrite Ep; by apply C3|]. destruct (C5 r) as [E|[E|E]].
    + rewrite E. by eapply I3.
    + exfalso. apply Hne. by eapply I4.
    + by destruct (E k y Hne Hk).
  - intros k1 k2 y1 y2 r [[-> ->]|[Hn1 H1]]%Hcase [[-> ->]|[Hn2 H2]]%Hcase O1 O2; [done|..|by eapply I4].
    + destruct (C4 r O1) as [E|E]; [by eapply I4|by destruct (E k2 y2 Hn2 H2)].
    + destruct (C4 r O2) as [E|E]; [by eapply I4|by destruct (E k1 y1 Hn1 H1)].
  - intros k1 k2 y1 y2 b r p [[-> ->]|[Hn1 H1]]%Hcase Epc [[-> ->]|[Hn2 H2]]%Hcase O2.
    + by rewrite Epc in O2.
    + exact (C6 b r p k2 y2 Epc Hn2 H2 O2).
    + destruct (C7 r O2) as [E|E]; [rewrite Ep; exact (I5 k1 j y1 x b r p H1 Epc Hj E)|]. pose proof (I1 k1 y1 H1 ltac:(by rewrite Epc)). congruence.
    + exact (I5 k1 k2 y1 y2 b r p H1 Epc H2 O2).
  - intros k y [[-> ->]|[Hne Hk]]%Hcase Hu; [by apply C8|]. apply C9; [done|]. by eapply I6.
  - intros k y Hu [[-> ->]|[Hne Hk]]%Hcase; [by apply C10|]. destruct (C10 Hu) as [_ [E|E]]; [by eapply I7|by eapply E].
  - intros k y [[-> ->]|[Hne Hk]]%Hcase; [done|]. intros Hp Hg. apply C12; [done|]. by eapply I8.
  - intros k y [[-> ->]|[Hne Hk]]%Hcase; [done|by eapply I9].
  - intros k y [[-> ->]|[Hne Hk]]%Hcase; [done|]. intros Ha. destruct (I10 k y Hk Ha) as [E1 E2]. rewrite C16. split; [|done].
    destruct C15 as [->|E]; [done|congruence].
Qed.

(** A step of a user that changes at most the areas. *)
Lemma oinv_quiet s j x t s' :
  oinv s -> o_instances s !! j = Some x ->
  o_instances s' = o_instances s -> o_setup s' = o_setup s -> o_pids s' = o_pids s -> o_users s' = o_users s -> o_unlinked s' = o_unlinked s ->
  o_publisher s' = o_publisher s -> o_meta s' = o_meta s -> o_pool s' = o_pool s ->
  (in_setup t = true -> in_setup (i_pc x) = true) -> (forall r, owns t = Some r -> owns (i_pc x) = Some r) ->
  (forall b r p k y, t = OCas b r p -> k <> j -> o_instances s !! k = Some y -> owns (i_pc y) = Some r -> i_pid y <> p) ->
  (is_user t = true -> is_user (i_pc x) = true) -> (attached t = true -> attached (i_pc x) = true) ->
  (gone t = false -> gone (i_pc x) = false) -> (publishing t = true -> i_publisher x = true) ->
  oinv (set_instances (<[j := set_pc t x]> (o_instances s')) s').
Proof.
  intros HI Hj E1 E2 E3 E4 E5 E6 E7 E8 C1 C2 C3 C4 C5 C6 C7. pose proof HI as [I1 I2 I3 I4 I5 I6 I7 I8 I9 I10].
  eapply oinv_move; try done; cbn [set_pc i_pc i_pid i_publisher i_page i_cross i_pool]; rewrite ?E2, ?E3, ?E4, ?E5, ?E6, ?E7, ?E8; auto.
  - intros Hs. eapply I1; [done|by apply C1].
  - intros r Hr. eapply I3; [done|by apply C2].
  - intros Hu. eapply I6; [done|by apply C4].
  - intros Hu. split; [|by left]. destruct (attached t) eqn:Ea; [|done]. pose proof (I7 j x Hu Hj) as Hf. by rewrite C5 in Hf.
  - intros Hp Hg. by apply (I8 j x Hj Hp), C6.
  - intros Ha. apply (I10 j x Hj). by apply C5.
Qed.

Lemma oinv_open s j x t s' :
  oinv s -> o_instances s !! j = Some x -> i_pc x = OOpen -> o_setup s = None -> open_object j x s = (t, s') ->
  oinv (set_instances (<[j := set_pc t x]> (o_instances s')) s').
Proof.
  intros HI Hj Ep Es Ho. unfold open_object in Ho. pose proof HI as [I1 I2 I3 I4 I5 I6 I7 I8 I9 I10].
  destruct (o_unlinked s) eqn:Eu; [injection Ho as <- <-; eapply oinv_quiet; try done; rewrite Ep; done|].
  destruct (bool_decide_reflect (i_pool x = o_pool s)) as [Epool|]; cbn [negb] in Ho; [|injection Ho as <- <-; eapply oinv_quiet; try done; rewrite Ep; done].
  assert (forall m, (o_meta s = None \/ o_meta s = Some m) -> m = (i_page x, i_cross x) ->
    let s1 := set_meta (Some m) (set_locks (Some j) (o_users s) (o_publisher s) s) in oinv (set_instances (<[j := set_pc (OClaim false 0) x]> (o_instances s1)) s1)) as Hok.
  { intros m Hm -> s1. eapply oinv_move; try done; cbn; auto; try congruence.
    - intros Hp _. apply (I8 j x Hj Hp). by rewrite Ep.
    - destruct Hm as [Hm|Hm]; [by right|by left]. }
  cbn [set_locks o_meta] in Ho. destruct (o_meta s) as [m|] eqn:Em.
  - destruct (bool_decide_reflect (m = (i_page x, i_cross x))) as [Eq|Hne]; injection Ho as <- <-.
    + assert (set_locks (Some j) (o_users s) (o_publisher s) s = set_meta (Some m) (set_locks (Some j) (o_users s) (o_publisher s) s)) as -> by (unfold set_meta, set_locks; cbn; by rewrite Em).
      apply Hok; [by right|done].
    + eapply oinv_move; try done; cbn; auto; try congruence. intros Hp _. apply (I8 j x Hj Hp). by rewrite Ep.
  - injection Ho as <- <-. apply Hok; [by left|done].
Qed.

Lemma oinv_thread s j dead x x' s' :
  oinv s -> o_instances s !! j = Some x -> (forall p k y, dead p = true -> o_instances s !! k = Some y -> gone (i_pc y) = false -> i_pid y <> p) ->
  ostep j dead x s = Some (x', s') -> oinv (set_instances (<[j := x']> (o_instances s')) s').
Proof.
  intros HI Hj Hdead Hs. pose proof HI as [I1 I2 I3 I4 I5 I6 I7 I8 I9 I10]. unfold ostep, TryBecomePublisher, destroy_publisher in Hs.
  destruct (i_pc x) as [|rec r|rec r p|r|r|r b|r b [|[i v] todo]|r b|r b|r b [|[i v] todo]|r|held res|res] eqn:Ep; try done.
  - destruct (o_setup s) eqn:Es; [done|]. destruct (open_object j x s) as [t s1] eqn:Eo. injection Hs as <- <-. by eapply oinv_open.
  - injection Hs as <- <-. unfold claim_record. destruct (o_pids s !! r) as [expected|] eqn:Er.
    + destruct (negb (expected =? 0) && _) eqn:Eb; eapply oinv_quiet; try done; rewrite ?Ep; try done.
      intros b q p k y [= <- <- <-] Hne Hk Ho Heq. pose proof (I3 k y _ Hk Ho) as Epid. rewrite Er in Epid. injection Epid as Epid.
      pose proof (I2 k y Hk) as Hz. apply andb_false_iff in Eb as [Eb|Eb].
      * apply negb_false_iff, Z.eqb_eq in Eb. congruence.
      * apply negb_false_iff, andb_prop in Eb as [_ Ed]. apply (Hdead _ k y Ed Hk); [by destruct (i_pc y)|done].
    + destruct rec; eapply oinv_quiet; try done; rewrite ?Ep; done.
  - destruct (bool_decide_reflect (o_pids s !! r = Some p)) as [Er|Hne]; injection Hs as <- <-; [|eapply oinv_quiet; try done; rewrite ?Ep; done].
    assert (forall k y, k <> j -> o_instances s !! k = Some y -> owns (i_pc y) <> Some r) as Hfree.
    { intros k y Hne Hk Ho. pose proof (I3 k y r Hk Ho) as E. rewrite Er in E. injection E as E. by apply (I5 j k x y rec r p Hj Ep Hk Ho). }
    eapply oinv_move; try done; cbn; try done.
    + intros _. apply (I1 j x Hj). by rewrite Ep.
    + intros q [= <-]. by rewrite list_lookup_insert_eq by (by eapply lookup_lt_Some).
    + intros q [= <-]. by right.
    + intros q. destruct (decide (q = r)) as [->|Hq]; [by right; right|]. left. by rewrite list_lookup_insert_ne.
    + intros q _. right. apply (I1 j x Hj). by rewrite Ep.
    + intros Hu. split; [|by left]. pose proof (I7 j x Hu Hj) as Ha. by rewrite Ep in Ha.
    + intros Hp _. apply (I8 j x Hj Hp). by rewrite Ep.
    + intros _. apply (I10 j x Hj). by rewrite Ep.
    + by left.
  - injection Hs as <- <-. eapply oinv_move; try done; cbn; try done.
    + intros k Hne Ek. by apply release_other.
    + intros q [= <-]. apply (I3 j x _ Hj). by rewrite Ep.
    + intros q [= <-]. rewrite Ep. by left.
    + intros q. by left.
    + intros q [= <-]. rewrite Ep. by left.
    + intros _. set_solver.
    + set_solver.
    + intros Hu. pose proof (I7 j x Hu Hj) as Ha. by rewrite Ep in Ha.
    + intros Hp _. apply (I8 j x Hj Hp). by rewrite Ep.
    + intros _. apply (I10 j x Hj). by rewrite Ep.
    + by left.
  - injection Hs as <- <-. eapply oinv_quiet; try done; rewrite ?Ep; done.
  - injection Hs as <- <-. eapply oinv_quiet; try done; rewrite ?Ep; done.
  - injection Hs as <- <-. eapply oinv_quiet; try done; rewrite ?Ep; done.
  - destruct (i_publisher x) eqn:Epub; [injection Hs as <- <-; eapply oinv_quiet; try done; rewrite ?Ep; done|].
    destruct (o_publisher s) as [k|] eqn:Eo; injection Hs as <- <-; [eapply oinv_quiet; try done; rewrite ?Ep; done|].
    eapply oinv_move; try done; cbn; try done; rewrite ?Ep; try done.
    + intros q [= <-]. apply (I3 j x _ Hj). by rewrite Ep.
    + intros q [= <-]. by left.
    + intros q. by left.
    + intros q [= <-]. by left.
    + intros _. apply (I6 j x Hj). by rewrite Ep.
    + intros Hu. pose proof (I7 j x Hu Hj) as Ha. by rewrite Ep in Ha.
    + intros k Hne Ek. congruence.
    + intros _. apply (I10 j x Hj). by rewrite Ep.
    + by left.
  - injection Hs as <- <-. eapply oinv_quiet; try done; rewrite ?Ep; try done. intros _. apply (I9 j x Hj). by rewrite Ep.
  - injection Hs as <- <-. eapply oinv_quiet; try done; rewrite ?Ep; try done.
  - injection Hs as <- <-. eapply oinv_quiet; try done; rewrite ?Ep; try done. intros _. apply (I9 j x Hj). by rewrite Ep.
  - injection Hs as <- <-. eapply oinv_move; try done; cbn; try done; rewrite ?Ep; try done.
    + intros q. destruct (decide (q = r)) as [->|Hq]; [by right; left|]. left. by rewrite list_lookup_insert_ne.
    + intros _. apply (I6 j x Hj). by rewrite Ep.
    + intros Hu. pose proof (I7 j x Hu Hj) as Ha. by rewrite Ep in Ha.
    + intros Hp _. apply (I8 j x Hj Hp). by rewrite Ep.
    + intros _. apply (I10 j x Hj). by rewrite Ep.
    + by left.
  - destruct (if held then None else o_setup s) eqn:Eh; [done|]. injection Hs as <- <-.
    assert (forall k y, k <> j -> o_instances s !! k = Some y -> in_setup (i_pc y) = false) as Hsetup.
    { intros k y Hne Hk. destruct (in_setup (i_pc y)) eqn:Ey; [|done]. pose proof (I1 k y Hk Ey). destruct held; [|congruence].
      pose proof (I1 j x Hj ltac:(by rewrite Ep)). congruence. }
    set (s1 := if decide (o_users s ⊆ {[j]}) then unlink s else s).
    assert (o_instances s1 = o_instances s /\ o_setup s1 = o_setup s /\ o_pids s1 = o_pids s /\ o_users s1 = o_users s /\ o_publisher s1 = o_publisher s /\
      o_meta s1 = o_meta s /\ o_pool s1 = o_pool s) as (F1 & F2 & F3 & F4 & F5 & F6 & F7) by (unfold s1; by destruct (decide _)).
    eapply oinv_move; try done; cbn; rewrite ?F1, ?F2, ?F3, ?F4, ?F5, ?F6, ?F7; try done.
    + intros k Hne Ek. by apply release_other.
    + intros r. by left.
    + set_solver.
    + unfold s1. destruct (decide (o_users s ⊆ {[j]})) as [Hsub|]; cbn; [|by split; [|left]]. intros _. split; [done|]. right.
      intros k y Hne Hk. pose proof (Hsetup k y Hne Hk) as Hst. destruct (is_user (i_pc y)) eqn:Ey.
      * pose proof (I6 k y Hk Ey). set_solver.
      * unfold attached. rewrite Ey. by destruct (i_pc y).
    + intros k Hne Ek. by apply release_other.
    + by left.
Qed.

Lemma oinv_spawn s j x :
  oinv s -> o_instances s !! j = None -> i_pid x <> 0 -> i_pc x = OOpen -> i_publisher x = false -> oinv (set_instances (<[j := x]> (o_instances s)) s).
Proof.
  intros [I1 I2 I3 I4 I5 I6 I7 I8 I9 I10] Hj Hp Ep Epub.
  assert (forall k y, <[j := x]> (o_instances s) !! k = Some y -> y = x \/ o_instances s !! k = Some y) as Hcase.
  { intros k y [[<- <-]|[Hne Hk]]%lookup_insert_Some; [by left|by right]. }
  split; cbn [set_instances o_instances o_setup o_pids o_users o_unlinked o_publisher o_meta o_pool].
  - intros k y [->|Hk]%Hcase; [by rewrite Ep|by eapply I1].
  - intros k y [->|Hk]%Hcase; [done|by eapply I2].
  - intros k y r [->|Hk]%Hcase; [by rewrite Ep|by eapply I3].
  - intros k1 k2 y1 y2 r [->|H1]%Hcase [->|H2]%Hcase; try by rewrite Ep. by eapply I4.
  - intros k1 k2 y1 y2 b r p [->|H1]%Hcase; [by rewrite Ep|]. intros E [->|H2]%Hcase; [by rewrite Ep|exact (I5 k1 k2 y1 y2 b r p H1 E H2)].
  - intros k y [->|Hk]%Hcase; [by rewrite Ep|by eapply I6].
  - intros k y Hu [->|Hk]%Hcase; [by rewrite Ep|by eapply I7].
  - intros k y [->|Hk]%Hcase; [by rewrite Epub|by eapply I8].
  - intros k y [->|Hk]%Hcase; [by rewrite Ep|by eapply I9].
  - intros k y [->|Hk]%Hcase; [by rewrite Ep|by eapply I10].
Qed.

Lemma oinv_crash s j : oinv s -> oinv (close_locks j (set_instances (delete j (o_instances s)) s)).
Proof.
  intros [I1 I2 I3 I4 I5 I6 I7 I8 I9 I10].
  assert (forall k y, delete j (o_instances s) !! k = Some y -> j <> k /\ o_instances s !! k = Some y) as Hcase.
  { intros k y [Hne Hk]%lookup_delete_Some. done. }
  split; cbn [close_locks set_locks set_instances o_instances o_setup o_pids o_users o_unlinked o_publisher o_meta o_pool].
  - intros k y [Hne Hk]%Hcase Hs. apply release_other; [done|by eapply I1].
  - intros k y [Hne Hk]%Hcase. by eapply I2.
  - intros k y r [Hne Hk]%Hcase. by eapply I3.
  - intros k1 k2 y1 y2 r [Hn1 H1]%Hcase [Hn2 H2]%Hcase. by eapply I4.
  - intros k1 k2 y1 y2 b r p [Hn1 H1]%Hcase E [Hn2 H2]%Hcase. exact (I5 k1 k2 y1 y2 b r p H1 E H2).
  - intros k y [Hne Hk]%Hcase Hu. pose proof (I6 k y Hk Hu). set_solver.
  - intros k y Hu [Hne Hk]%Hcase. by eapply I7.
  - intros k y [Hne Hk]%Hcase Hp Hg. apply release_other; [done|by eapply I8].
  - intros k y [Hne Hk]%Hcase. by eapply I9.
  - intros k y [Hne Hk]%Hcase. by eapply I10.
Qed.

Lemma open_instances j x s : o_instances (open_object j x s).2 = o_instances s.
Proof. unfold open_object. destruct (o_unlinked s); [done|]. destruct (negb _); [done|]. cbn. destruct (o_meta s); [by destruct (bool_decide _)|done]. Qed.

Lemma ostep_instances j dead x s x' s' : ostep j dead x s = Some (x', s') -> o_instances s' = o_instances s.
Proof.
  intros Hs. unfold ostep, TryBecomePublisher, destroy_publisher in Hs. pose proof (open_instances j x s) as Ho. destruct (open_object j x s) as [t s1].
  repeat match type of Hs with context [match ?e with _ => _ end] => destruct e end; by simplify_eq.
Qed.

Lemma oinv_step crashes s s' : oinv s -> obs_step crashes s s' -> oinv s'.
Proof.
  intros HI Hs. destruct Hs as [s j dead x x' s' Hj Hd Hs|s j pid pool page cross Hj Hp|s j x r b Hj Ep Hl|s j x r Hj Ep|s j x Hj Hc|s k a Hk|s k t t' Hk Ht].
  - rewrite <- (ostep_instances _ _ _ _ _ _ Hs). by eapply oinv_thread.
  - by apply oinv_spawn.
  - eapply oinv_quiet; try done; rewrite Ep; done.
  - eapply oinv_quiet; try done; rewrite Ep; done.
  - by apply oinv_crash.
  - destruct HI. by split.
  - destruct HI. by split.
Qed.

Lemma oinv_reachable crashes pool s : rtc (obs_step crashes) (obs_start pool) s -> oinv s.
Proof.
  assert (oinv (obs_start pool)) as HI.
  { split; cbn; intros; match goal with E : ∅ !! _ = Some _ |- _ => by rewrite lookup_empty in E end. }
  revert HI. generalize (obs_start pool). intros s0 HI Hr. induction Hr as [s0|s0 s1 s2 Hs _ IH]; [done|]. apply IH. by eapply oinv_step.
Qed.

(** Who may write area [a]. *)
Definition may_write (a : nat) (t : opc) : bool :=
  match t, a with
  | OBegin r _, S a | ORecord r _ _, S a => bool_decide (r = a)
  | OHeaderBegin _ _, O | OHeader _ _ _, O => true
  | _, _ => false
  end.

Lemma may_write_unique s j k x y a :
  oinv s -> o_instances s !! j = Some x -> o_instances s !! k = Some y -> may_write a (i_pc x) = true -> may_write a (i_pc y) = true -> j = k.
Proof.
  intros HI Hj Hk Hx Hy. destruct a as [|r].
  - assert (forall t, may_write 0 t = true -> publishing t = true /\ gone t = false) as Hp by (intros []; done).
    destruct (Hp _ Hx) as [Px Gx], (Hp _ Hy) as [Py Gy].
    pose proof (v_publisher _ HI j x Hj (v_header _ HI j x Hj Px) Gx) as E1. pose proof (v_publisher _ HI k y Hk (v_header _ HI k y Hk Py) Gy) as E2. congruence.
  - assert (forall t, may_write (S r) t = true -> owns t = Some r) as Ho by (intros [] Ht; try done; cbn in Ht; apply bool_decide_eq_true in Ht as ->; done).
    eapply (v_unique _ HI); [exact Hj|exact Hk|by apply Ho|by apply Ho].
Qed.

(** C15 — Publishers of the observation area keep out of each other's way under every
    interleaving, wherever their processes die: no two own the same process
    record, at most one writes the header, the name is removed only when nobody
    uses the object or is about to, and all users agree with the header on the
    cache it describes. *)
Theorem observation_exclusive crashes pool s :
  rtc (obs_step crashes) (obs_start pool) s ->
  (forall j k x y r, o_instances s !! j = Some x -> o_instances s !! k = Some y -> owns (i_pc x) = Some r -> owns (i_pc y) = Some r -> j = k) /\
  (forall j k x y, o_instances s !! j = Some x -> o_instances s !! k = Some y -> publishing (i_pc x) = true -> publishing (i_pc y) = true -> j = k) /\
  (o_unlinked s = true -> forall j x, o_instances s !! j = Some x -> attached (i_pc x) = false) /\
  (forall j x, o_instances s !! j = Some x -> attached (i_pc x) = true -> o_meta s = Some (i_page x, i_cross x) /\ i_pool x = o_pool s).
Proof.
  intros HI%oinv_reachable. split_and!.
  - intros j k x y r. apply HI.
  - intros j k x y Hj Hk Px Py. apply (may_write_unique s j k x y 0 HI Hj Hk); [by destruct (i_pc x)|by destruct (i_pc y)].
  - intros Hu j x. by apply v_unlinked.
  - intros j x. by apply v_meta.
Qed.
