(* ===== verification/ObservationReaders.v ===== *)
(** Readers of the observation area accept complete publications only, as long as no
    process dies in the middle of writing one. *)
From S2P Require Import Prelude Status FrameControl Layout Telemetry Observation.
From S2P Require Import ObservationWords ObservationSafety.

Lemma odd_u64 z : Z.odd (u64 z) = Z.odd z.
Proof. unfold u64, u64_mod. rewrite <- !Z.bit0_odd. apply Z.mod_pow2_bits_low. lia. Qed.

(** ** One guarded area *)

Definition area_length (pool a : nat) : nat := match a with O => header_words pool | S _ => S (length all_counters) end.

(** What a complete publication leaves in area [a]. *)
Definition published (pool a : nat) (ws : list Z) : Prop :=
  ws = replicate (area_length pool a) 0 \/
  match a with
  | O => exists pid b, length (j_views b) = pool /\ ws = snapshot_words pid b
  | S _ => exists b, ws = record_words b
  end.

Definition writes_of (q : seqlock) : Z := Z.of_nat (length (sq_past q)) - 1.

Record sq_ok (pool a : nat) (q : seqlock) : Prop := {
  sq_len : length (sq_words q) = area_length pool a;
  sq_count : 0 <= writes_of q;
  sq_parity : sq_sequence q = u64 (2 * writes_of q + Z.b2z (Z.odd (sq_sequence q)));
  sq_even : Z.odd (sq_sequence q) = false -> head (sq_past q) = Some (sq_words q);
  sq_good ws : ws ∈ sq_past q -> published pool a ws
}.

(** Moves of a writer. *)
Inductive sq_move (pool a : nat) : seqlock -> seqlock -> Prop :=
  | move_begin q : Z.odd (sq_sequence q) = false -> sq_move pool a q (BeginWrite q)
  | move_store q i x : Z.odd (sq_sequence q) = true -> sq_move pool a q (store_word i x q)
  | move_end q : Z.odd (sq_sequence q) = true -> published pool a (sq_words q) -> sq_move pool a q (EndWrite q).

Lemma begin_odd q : Z.odd (sq_sequence (BeginWrite q)) = negb (Z.odd (sq_sequence q)).
Proof. cbn. by rewrite odd_u64, Z.odd_add, xorb_true_r. Qed.
Lemma end_odd q : Z.odd (sq_sequence (EndWrite q)) = negb (Z.odd (sq_sequence q)).
Proof. exact (begin_odd q). Qed.

Lemma sequence_next pool a q : sq_ok pool a q -> u64 (sq_sequence q + 1) = u64 (2 * writes_of q + Z.b2z (Z.odd (sq_sequence q)) + 1).
Proof. intros [_ _ Hp _ _]. rewrite Hp at 1. unfold u64. by rewrite Zplus_mod_idemp_l. Qed.

Lemma sq_move_ok pool a q q' : sq_ok pool a q -> sq_move pool a q q' -> sq_ok pool a q'.
Proof.
  intros Hok Hm. pose proof (sequence_next _ _ _ Hok) as Hn. destruct Hok as [Hl Hc Hp He Hg]. destruct Hm as [q Ho|q i x Ho|q Ho Hw].
  - split; [done|done|rewrite begin_odd, Ho; cbn [BeginWrite sq_sequence]; rewrite Hn, Ho; f_equal; unfold writes_of; cbn [BeginWrite sq_past negb Z.b2z]; lia|by rewrite begin_odd, Ho|done].
  - split; cbn; [by rewrite length_insert|done|done|by rewrite Ho|done].
  - split; [done|unfold writes_of in *; cbn [EndWrite sq_past length]; lia| |done|].
    + rewrite end_odd, Ho. cbn [EndWrite sq_sequence]. rewrite Hn, Ho. f_equal. unfold writes_of. cbn [EndWrite sq_past length negb Z.b2z]. lia.
    + intros ws [->|Hin]%elem_of_cons; [done|by apply Hg].
Qed.

(** ** Readers *)

(** What a reader knows: [2 * g] was the sequence, and what it copied so far is
    current if nothing was written since. *)
Definition reader_ok (areas : nat -> seqlock) (t : rpc) : Prop :=
  match t with
  | RBegin _ => True
  | RCopy a q0 todo copied =>
      let q := areas a in
      exists g, q0 = u64 (2 * g) /\ 0 <= g <= writes_of q /\
        (g = writes_of q -> Z.odd (sq_sequence q) = false ->
         exists k, copied = take k (sq_words q) /\ todo = drop k (seq 0 (length (sq_words q))))
  | RDone a copied => 2 * writes_of (areas a) < u64_mod - 1 -> copied ∈ sq_past (areas a)
  end.

Lemma reader_ok_move pool a areas q' t :
  sq_move pool a (areas a) q' -> reader_ok areas t -> reader_ok (<[a := q']> areas) t.
Proof.
  intros Hm. destruct t as [a'|a' q0 todo copied|a' copied]; [done|..]; unfold reader_ok;
    (destruct (decide (a = a')) as [<-|Hne]; [rewrite fn_lookup_insert|by rewrite fn_lookup_insert_ne]).
  - intros (g & Eq & Hg & Hk). exists g. inversion Hm as [q Ho|q i x Ho|q Ho Hw]; subst; (split; [done|]).
    + split; [exact Hg|]. by rewrite begin_odd, Ho.
    + split; [exact Hg|]. cbn [store_word sq_sequence]. by rewrite Ho.
    + unfold writes_of in *. cbn [EndWrite sq_past length]. split; [lia|]. intros E. lia.
  - inversion Hm as [q Ho|q i x Ho|q Ho Hw]; subst; [done|done|]. unfold writes_of. cbn [EndWrite sq_past length]. intros Hin Hb. right. apply Hin. lia.
Qed.

Lemma take_S_lookup (ws : list Z) k : (k < length ws)%nat -> take (S k) ws = take k ws ++ [default 0 (ws !! k)].
Proof. intros Hk. destruct (lookup_lt_is_Some_2 ws k Hk) as [x E]. by rewrite (take_S_r _ _ _ E), E. Qed.

Lemma reader_ok_step pool s t t' :
  (forall a, sq_ok pool a (o_areas s a)) -> reader_ok (o_areas s) t -> rstep t s = Some t' -> reader_ok (o_areas s) t'.
Proof.
  intros Hok Ht Hs. destruct t as [a|a q0 [|i todo] copied|a copied]; cbn [rstep] in Hs; [..|done]; injection Hs as <-; specialize (Hok a) as [Hl Hc Hp He Hg].
  - destruct (Z.odd (sq_sequence (o_areas s a))) eqn:Eo; [done|]. cbn [reader_ok]. exists (writes_of (o_areas s a)). split; [rewrite Hp; cbn [Z.b2z]; by rewrite Z.add_0_r|]. split; [lia|]. intros _ _. by exists 0%nat.
  - destruct (Z.eqb_spec q0 (sq_sequence (o_areas s a))) as [E|]; [|done]. cbn [reader_ok]. intros Hb. destruct Ht as (g & Eg & Hg2 & Hk).
    destruct (Z.odd (sq_sequence (o_areas s a))) eqn:Eo; cbn [Z.b2z] in Hp.
    + exfalso. rewrite E, Hp in Eg. apply (f_equal Z.odd) in Eg. by rewrite !odd_u64, !Z.odd_add, !Z.odd_mul in Eg.
    + rewrite E, Hp in Eg. rewrite !u64_small in Eg by (unfold is_u64; lia). destruct (Hk ltac:(lia) eq_refl) as (k & -> & Hd).
      apply (f_equal length) in Hd. rewrite length_drop, length_seq in Hd. cbn in Hd. rewrite take_ge by lia.
      specialize (He eq_refl). destruct (sq_past (o_areas s a)); [done|]. injection He as ->. by left.
  - destruct Ht as (g & Eg & Hg2 & Hk). exists g. split; [done|]. split; [done|]. intros E Eo. destruct (Hk E Eo) as (k & -> & Hd).
    assert (seq 0 (length (sq_words (o_areas s a))) !! k = Some i) as Hi by (rewrite <- (Nat.add_0_r k), <- lookup_drop, <- Hd; done).
    apply lookup_seq in Hi as [-> Hk2]. exists (S k). cbn [Nat.add]. rewrite take_S_lookup by done. split; [done|].
    rewrite <- Nat.add_1_r, <- drop_drop, <- Hd. done.
Qed.

(** ** The system *)

Definition todo_ok (pool : nat) (areas : nat -> seqlock) (x : instance) : Prop :=
  match i_pc x with
  | OBegin _ b | OTry _ b | OHeaderBegin _ b => length (j_views b) = pool
  | ORecord r b todo => length (j_views b) = pool /\ apply_stores (sq_words (areas (S r))) todo = record_words b
  | OHeader _ b todo => length (j_views b) = pool /\ apply_stores (sq_words (areas 0%nat)) todo = snapshot_words (i_pid x) b
  | _ => True
  end.

Record rinv (s : osystem) : Prop := {
  ri_area a : sq_ok (o_pool s) a (o_areas s a);
  ri_busy a : Z.odd (sq_sequence (o_areas s a)) = true <-> exists j x, o_instances s !! j = Some x /\ writing (i_pc x) = Some a;
  ri_todo j x : o_instances s !! j = Some x -> todo_ok (o_pool s) (o_areas s) x;
  ri_reader k t : o_readers s !! k = Some t -> reader_ok (o_areas s) t
}.

Lemma writing_may a t : writing t = Some a -> may_write a t = true.
Proof. destruct t; cbn; intros [= <-]; [by apply bool_decide_eq_true|done]. Qed.

Lemma busy_self s j x a :
  oinv s -> rinv s -> o_instances s !! j = Some x -> may_write a (i_pc x) = true -> Z.odd (sq_sequence (o_areas s a)) = bool_decide (writing (i_pc x) = Some a).
Proof.
  intros HI HR Hj Hm. apply eq_bool_prop_intro. rewrite bool_decide_spec, Is_true_true, (ri_busy _ HR). split; [|by eauto].
  intros (k & y & Hk & Hw). rewrite (may_write_unique s j k x y a) in Hj by (try done; by apply writing_may). congruence.
Qed.

(** A store of publisher [j] into area [a]. *)
Lemma rinv_write s j x x' a q' :
  oinv s -> rinv s -> o_instances s !! j = Some x -> may_write a (i_pc x) = true -> sq_move (o_pool s) a (o_areas s a) q' ->
  (forall c, c <> a -> writing (i_pc x) <> Some c) -> writing (i_pc x') = (if Z.odd (sq_sequence q') then Some a else None) ->
  todo_ok (o_pool s) (<[a := q']> (o_areas s)) x' ->
  rinv (set_instances (<[j := x']> (o_instances s)) (set_area a q' s)).
Proof.
  intros HI HR Hj Hm Hq Hw Hw' Ht. assert (forall k y, k <> j -> o_instances s !! k = Some y -> may_write a (i_pc y) = false) as Hother.
  { intros k y Hne Hk. apply not_true_is_false. intros Hy. apply Hne. by eapply (may_write_unique s k j y x a). }
  split; cbn [set_instances set_area o_areas o_pool o_instances o_readers].
  - intros c. destruct (decide (a = c)) as [<-|Hne]; [rewrite fn_lookup_insert; eapply sq_move_ok; [apply HR|done]|rewrite fn_lookup_insert_ne by done; apply HR].
  - intros c. destruct (decide (a = c)) as [<-|Hne].
    + rewrite fn_lookup_insert. split.
      * intros Ho. exists j, x'. split; [apply lookup_insert_eq|by rewrite Hw', Ho].
      * intros (k & y & [[<- <-]|[Hne Hk]]%lookup_insert_Some & Hy); [by destruct (Z.odd (sq_sequence q')); [|congruence]|].
        apply writing_may in Hy. by rewrite (Hother k y) in Hy.
    + rewrite fn_lookup_insert_ne by done. rewrite (ri_busy _ HR c). split.
      * intros (k & y & Hk & Hy). exists k, y. split; [|done]. rewrite lookup_insert_ne; [done|]. intros <-. simplify_eq. by destruct (Hw c).
      * intros (k & y & [[<- <-]|[Hk1 Hk]]%lookup_insert_Some & Hy); [|by eauto]. destruct (Z.odd (sq_sequence q')); congruence.
  - intros k y [[<- <-]|[Hne Hk]]%lookup_insert_Some; [done|]. pose proof (ri_todo _ HR k y Hk) as Ho. pose proof (Hother k y (not_eq_sym Hne) Hk) as Hn.
    unfold todo_ok in *. destruct (i_pc y) as [| | | | | |r b todo| | |r b todo| | |]; try done.
    + rewrite fn_lookup_insert_ne; [done|]. intros ->. cbn in Hn. by apply bool_decide_eq_false in Hn.
    + rewrite fn_lookup_insert_ne; [done|]. intros ->. done.
  - intros k t Hk. eapply reader_ok_move; [exact Hq|]. by eapply (ri_reader _ HR).
Qed.

(** A step that stores nothing into the guarded areas. *)
Lemma rinv_quiet s s' j x x' :
  rinv s -> o_instances s !! j = Some x -> o_instances s' = o_instances s -> o_areas s' = o_areas s -> o_pool s' = o_pool s -> o_readers s' = o_readers s ->
  writing (i_pc x) = None -> writing (i_pc x') = None -> todo_ok (o_pool s) (o_areas s) x' ->
  rinv (set_instances (<[j := x']> (o_instances s')) s').
Proof.
  intros HR Hj Ei Ea Ep Er Hw Hw' Ht. split; cbn [set_instances o_areas o_pool o_instances o_readers]; rewrite ?Ei, ?Ea, ?Ep, ?Er.
  - apply HR.
  - intros c. rewrite (ri_busy _ HR c). split; intros (k & y & Hk & Hy).
    + exists k, y. split; [|done]. rewrite lookup_insert_ne; [done|]. intros <-. congruence.
    + apply lookup_insert_Some in Hk as [[<- <-]|[_ Hk]]; [congruence|by eauto].
  - intros k y [[<- <-]|[Hne Hk]]%lookup_insert_Some; [done|by apply (ri_todo _ HR k)].
  - apply HR.
Qed.

Lemma open_quiet j x s :
  let '(t, s') := open_object j x s in
  o_areas s' = o_areas s /\ o_pool s' = o_pool s /\ o_readers s' = o_readers s /\ writing t = None /\ todo_ok (o_pool s) (o_areas s) (set_pc t x).
Proof. unfold open_object. destruct (o_unlinked s); [done|]. destruct (negb _); [done|]. cbn. destruct (o_meta s); [by destruct (bool_decide _)|done]. Qed.

Lemma claim_quiet b i dead x s :
  writing (claim_record b i dead s) = None /\ todo_ok (o_pool s) (o_areas s) (set_pc (claim_record b i dead s) x).
Proof. unfold claim_record. destruct (o_pids s !! i); [by destruct (_ && _)|by destruct b]. Qed.

Lemma rinv_thread s j dead x x' s' :
  oinv s -> rinv s -> o_instances s !! j = Some x -> ostep j dead x s = Some (x', s') -> rinv (set_instances (<[j := x']> (o_instances s)) s').
Proof.
  intros HI HR Hj Hs. pose proof (ri_todo _ HR j x Hj) as Ht. pose proof (fun a => busy_self s j x a HI HR Hj) as Hb.
  pose proof (ostep_instances _ _ _ _ _ _ Hs) as Ei. rewrite <- Ei. unfold ostep, TryBecomePublisher, destroy_publisher in Hs. pose proof (rinv_quiet s s' j x x' HR Hj Ei) as Hquiet.
  pose proof (fun a q' => rinv_write s j x x' a q' HI HR Hj) as Hwrite. pose proof (open_quiet j x s) as Hopen. destruct (open_object j x s) as [t s1].
  unfold todo_ok in Ht. destruct (i_pc x) as [|rec i|rec i e|r|r|r b|r b [|[i v] todo]|r b|r b|r b [|[i v] todo]|r|h st|st] eqn:Epc; try done.
  - destruct (o_setup s); [done|]. simplify_eq. destruct Hopen as (? & ? & ? & ? & ?). by apply Hquiet.
  - simplify_eq. destruct (claim_quiet rec i dead x s'). by apply Hquiet.
  - case_bool_decide; simplify_eq; by apply Hquiet.
  - simplify_eq. by apply Hquiet.
  - simplify_eq. specialize (Hb (S r) (bool_decide_eq_true_2 _ eq_refl)). cbn in Hb. apply Hwrite; try done; [by apply bool_decide_eq_true|by constructor|rewrite begin_odd, Hb; done|].
    unfold todo_ok. cbn [set_pc i_pc]. rewrite fn_lookup_insert. split; [done|]. apply record_stores_apply. apply (sq_len _ _ _ (ri_area _ HR (S r))).
  - simplify_eq. specialize (Hb (S r) (bool_decide_eq_true_2 _ eq_refl)). cbn in Hb. rewrite bool_decide_eq_true_2 in Hb by done. destruct Ht as [Hl Ht].
    apply Hwrite; [by apply bool_decide_eq_true|constructor; [done|right; by exists b]|intros c Hc; cbn; congruence|by rewrite end_odd, Hb|]. done.
  - simplify_eq. specialize (Hb (S r) (bool_decide_eq_true_2 _ eq_refl)). cbn in Hb. rewrite bool_decide_eq_true_2 in Hb by done.
    apply Hwrite; [by apply bool_decide_eq_true|by constructor|intros c Hc; cbn; congruence|cbn [store_word sq_sequence]; by rewrite Hb|].
    unfold todo_ok. cbn [set_pc i_pc]. rewrite fn_lookup_insert. done.
  - destruct (i_publisher x); [|destruct (o_publisher s)]; simplify_eq; by apply Hquiet.
  - simplify_eq. specialize (Hb 0%nat eq_refl). cbn in Hb. apply Hwrite; try done; [by constructor|rewrite begin_odd, Hb; done|].
    unfold todo_ok. cbn [set_pc i_pc i_pid]. rewrite fn_lookup_insert. split; [done|]. apply header_stores_apply. rewrite Ht. apply (sq_len _ _ _ (ri_area _ HR 0%nat)).
  - simplify_eq. specialize (Hb 0%nat eq_refl). cbn in Hb. rewrite bool_decide_eq_true_2 in Hb by done. destruct Ht as [Hl Ht].
    apply Hwrite; [done|constructor; [done|right; by exists (i_pid x), b]|intros c Hc; cbn; congruence|by rewrite end_odd, Hb|]. done.
  - simplify_eq. specialize (Hb 0%nat eq_refl). cbn in Hb. rewrite bool_decide_eq_true_2 in Hb by done.
    apply Hwrite; [done|by constructor|intros c Hc; cbn; congruence|cbn [store_word sq_sequence]; by rewrite Hb|].
    unfold todo_ok. cbn [set_pc i_pc i_pid]. rewrite fn_lookup_insert. done.
  - simplify_eq. by apply Hquiet.
  - destruct (if h then None else o_setup s); [done|]. simplify_eq. by apply Hquiet; destruct (decide (o_users s ⊆ {[j]})).
Qed.

(** No process dies in the middle of a write. *)
Definition between_writes (t : opc) : bool := match writing t with None => true | Some _ => false end.

Lemma rinv_step s s' : oinv s -> rinv s -> obs_step between_writes s s' -> rinv s'.
Proof.
  intros HI HR Hs. destruct Hs as [s j dead x x' s' Hj Hd Hs|s j pid pool page cross Hj Hp|s j x r b Hj Ep Hl|s j x r Hj Ep|s j x Hj Hc|s k a Hk|s k t t' Hk Ht].
  - by eapply rinv_thread.
  - split; [apply HR| | |apply HR]; cbn [set_instances o_areas o_pool o_instances].
    + intros c. rewrite (ri_busy _ HR c). split; intros (k & y & Hk & Hy).
      * exists k, y. split; [|done]. rewrite lookup_insert_ne; [done|]. intros <-. congruence.
      * apply lookup_insert_Some in Hk as [[<- <-]|[_ Hk]]; [done|by eauto].
    + intros k y [[<- <-]|[Hne Hk]]%lookup_insert_Some; [done|by apply (ri_todo _ HR k)].
  - eapply (rinv_quiet s s); try done. by rewrite Ep.
  - eapply (rinv_quiet s s); try done. by rewrite Ep.
  - unfold between_writes in Hc. split; [apply HR| | |apply HR]; cbn [close_locks set_locks set_instances o_areas o_pool o_instances].
    + intros c. rewrite (ri_busy _ HR c). split; intros (k & y & Hk & Hy).
      * exists k, y. split; [|done]. rewrite lookup_delete_ne; [done|]. intros <-. simplify_eq. by rewrite Hy in Hc.
      * apply lookup_delete_Some in Hk as [_ Hk]. by eauto.
    + intros k y [Hne Hk]%lookup_delete_Some. by apply (ri_todo _ HR k).
  - split; [apply HR..|]. cbn [set_readers o_areas o_readers]. intros k' t [[<- <-]|[_ Hk']]%lookup_insert_Some; [done|by eapply (ri_reader _ HR)].
  - split; [apply HR..|]. cbn [set_readers o_areas o_readers]. intros k' t1 [[<- <-]|[_ Hk']]%lookup_insert_Some; [|by eapply (ri_reader _ HR)].
    eapply reader_ok_step; [apply HR| |exact Ht]. by eapply (ri_reader _ HR).
Qed.

Lemma rinv_start pool : rinv (obs_start pool).
Proof.
  split.
  - intros a. split; cbn; [by destruct a; rewrite length_replicate|done|done|done|]. intros ws ->%list_elem_of_singleton. left. by destruct a.
  - intros a. split; [done|]. by intros (j & x & Hj & _).
  - done.
  - done.
Qed.

Lemma obs_step_pool crashes s s' : obs_step crashes s s' -> o_pool s' = o_pool s.
Proof.
  intros [s0 j dead x x' s1 Hj Hd Hs| | | | | |]; try done. cbn. unfold ostep, TryBecomePublisher, destroy_publisher in Hs. pose proof (open_quiet j x s0) as Ho. destruct (open_object j x s0) as [t s2].
  repeat match type of Hs with context [match ?e with _ => _ end] => destruct e end; simplify_eq; try done. apply Ho.
Qed.

Lemma rinv_reachable pool s : rtc (obs_step between_writes) (obs_start pool) s -> oinv s /\ rinv s /\ o_pool s = pool.
Proof.
  assert (oinv (obs_start pool)) as HI by (eapply (oinv_reachable between_writes); apply rtc_refl). pose proof (rinv_start pool) as HR.
  intros Hr. apply (rtc_ind_r (fun s => oinv s /\ rinv s /\ o_pool s = pool) (obs_start pool)) in Hr; [done|done|].
  intros y z _ Hs (HI' & HR' & Ep). split; [by eapply oinv_step|]. split; [by eapply rinv_step|]. rewrite <- Ep. by eapply obs_step_pool.
Qed.

(** C16 — When no process dies in the middle of a write, every copy a reader of the
    observation area accepts is one complete publication: for the header, the
    words some publisher wrote for one list of frames, its counts those of the
    frame records beside them; for a process record, the counters of one
    snapshot; or the zeros of the new object.  The bound is the sequence number's
    width. *)
Theorem observation_reader_consistent pool s k a copied :
  rtc (obs_step between_writes) (obs_start pool) s -> o_readers s !! k = Some (RDone a copied) ->
  2 * writes_of (o_areas s a) < u64_mod - 1 -> copied ∈ sq_past (o_areas s a) /\ published pool a copied.
Proof.
  intros (_ & HR & <-)%rinv_reachable Hk Hb. pose proof (ri_reader _ HR k _ Hk Hb) as Hin. split; [exact Hin|]. by apply (sq_good _ _ _ (ri_area _ HR a)).
Qed.
