(* ===== verification/ObservationRun.v ===== *)
(** Runs of the observation area: two publishers and a reader, and a publisher that
    dies in the middle of a write. *)
From S2P Require Import Prelude Status FrameControl Layout Telemetry Observation.
From S2P Require Import ObservationWords ObservationSafety ObservationReaders.

(** ** Schedules *)

Inductive oaction :=
  | ActThread (j : nat)
  | ActOpen (j : nat) (pid : Z) (pool : nat) (page : Z) (cross : bool)
  | ActPublish (j : nat) (b : job)
  | ActDestroy (j : nat)
  | ActCrash (j : nat)
  | ActRead (k a : nat)
  | ActReader (k : nat).

Section Schedules.
Context (crashes : opc -> bool).

Definition oact (s : osystem) (a : oaction) : osystem :=
  let at_idle j (f : nat -> opc) :=
    match o_instances s !! j with
    | Some x => match i_pc x with OIdle index => set_instances (<[j := set_pc (f index) x]> (o_instances s)) s | _ => s end
    | None => s
    end in
  match a with
  | ActThread j =>
      match x ← o_instances s !! j; ostep j (fun _ => false) x s with
      | Some (x', s') => set_instances (<[j := x']> (o_instances s)) s'
      | None => s
      end
  | ActOpen j pid pool page cross =>
      match o_instances s !! j with
      | None => if pid =? 0 then s else set_instances (<[j := Instance_ pid pool page cross false OOpen]> (o_instances s)) s
      | Some _ => s
      end
  | ActPublish j b => if bool_decide (length (j_views b) = o_pool s) then at_idle j (fun index => OBegin index b) else s
  | ActDestroy j => at_idle j OUnclaim
  | ActCrash j =>
      match o_instances s !! j with
      | Some x => if crashes (i_pc x) then close_locks j (set_instances (delete j (o_instances s)) s) else s
      | None => s
      end
  | ActRead k a => match o_readers s !! k with None => set_readers (<[k := RBegin a]> (o_readers s)) s | Some _ => s end
  | ActReader k =>
      match t ← o_readers s !! k; rstep t s with
      | Some t' => set_readers (<[k := t']> (o_readers s)) s
      | None => s
      end
  end.

Lemma oact_step s a : oact s a = s \/ obs_step crashes s (oact s a).
Proof.
  destruct a as [j|j pid pool page cross|j b|j|j|k a|k]; cbn [oact].
  - destruct (o_instances s !! j) as [x|] eqn:Hj; [|by left]. cbn [mbind option_bind]. destruct (ostep _ _ _ _) as [[x' s']|] eqn:Hs; [|by left].
    right. by apply (obs_thread _ s j (fun _ => false) x).
  - destruct (o_instances s !! j) eqn:Hj; [by left|]. destruct (Z.eqb_spec pid 0); [by left|]. right. by apply obs_open.
  - case_bool_decide; [|by left]. destruct (o_instances s !! j) as [x|] eqn:Hj; [|by left]. destruct (i_pc x) eqn:Ep; try by left. right. by eapply obs_publish.
  - destruct (o_instances s !! j) as [x|] eqn:Hj; [|by left]. destruct (i_pc x) eqn:Ep; try by left. right. by eapply obs_destroy.
  - destruct (o_instances s !! j) as [x|] eqn:Hj; [|by left]. destruct (crashes (i_pc x)) eqn:Ec; [|by left]. right. by eapply obs_crash.
  - destruct (o_readers s !! k) eqn:Hk; [by left|]. right. by apply obs_read.
  - destruct (o_readers s !! k) as [t|] eqn:Hk; [|by left]. cbn [mbind option_bind]. destruct (rstep t s) as [t'|] eqn:Ht; [|by left]. right. by eapply obs_reader.
Qed.

Lemma oacts_steps s l : rtc (obs_step crashes) s (foldl oact s l).
Proof.
  revert s. induction l as [|a l IH]; intros s; [done|]. cbn [foldl]. etrans; [|apply IH]. destruct (oact_step s a) as [->|Hs]; [done|by apply rtc_once].
Qed.
End Schedules.

(** ** A cache of one frame *)

(** Resident and dirty. *)
Definition one_frame (now : Z) : job := Job now (fun _ => 0) [FrameView 6 (MkTag 7 9) 3] 1 0.

Definition threads (j n : nat) : list oaction := repeat (ActThread j) n.
(** Open, with [i] records taken before. *)
Definition opens (j : nat) (pid : Z) (i : nat) : list oaction := ActOpen j pid 1 4096 false :: threads j (4 + i).

(** Publisher 0 publishes while 1 opens and publishes its record only; a reader of
    the header and one of a record. *)
Definition two_publishers : list oaction :=
  opens 0 100 0 ++ [ActPublish 0 (one_frame 5)] ++ threads 0 18 ++ opens 1 200 1 ++ [ActPublish 1 (one_frame 6)] ++ threads 1 18 ++
  [ActRead 0 0; ActRead 1 2] ++ threads 0 40 ++ repeat (ActReader 0) 21 ++ repeat (ActReader 1) 16.

Lemma observation_exclusive_witness :
  let s := foldl (oact (fun _ => true)) (obs_start 1) two_publishers in
  let s' := foldl (oact (fun _ => true)) (obs_start 1) (two_publishers ++ [ActCrash 0; ActDestroy 1] ++ threads 1 2) in
  o_meta s = Some (4096, false) /\ i_pid <$> o_instances s !! 1%nat = Some 200 /\ o_unlinked s' = true /\
  forall j x, o_instances s' !! j = Some x -> attached (i_pc x) = false.
Proof.
  cbn zeta. destruct (observation_exclusive (fun _ => true) 1 _ (oacts_steps (fun _ => true) (obs_start 1) two_publishers)) as (_ & _ & _ & Hm).
  destruct (observation_exclusive (fun _ => true) 1 _ (oacts_steps (fun _ => true) (obs_start 1) (two_publishers ++ [ActCrash 0; ActDestroy 1] ++ threads 1 2)))
    as (_ & _ & Hu & _).
  split; [|split; [vm_compute; reflexivity|split; [vm_compute; reflexivity|apply Hu; vm_compute; reflexivity]]].
  destruct (Hm 1%nat (Instance_ 200 1 4096 false false (OIdle 1))) as [E _]; [vm_compute; reflexivity|reflexivity|exact E].
Defined.

Lemma observation_reader_consistent_witness :
  let s := foldl (oact between_writes) (obs_start 1) two_publishers in
  published 1 0 [5; 100; 0; 0; 1; 1; 0; 0; 0; 1; 0; 0; 2; 1; 0; 7; 0; 9; 3] /\ writes_of (o_areas s 0%nat) = 1.
Proof.
  cbn zeta. split; [|vm_compute; reflexivity].
  apply (observation_reader_consistent 1 _ 0%nat 0%nat _ (oacts_steps between_writes (obs_start 1) two_publishers)); vm_compute; reflexivity.
Defined.

(** ** A publisher that dies *)

(** Publisher 0 dies with the header's sequence odd; publisher 1 takes over and
    makes it even to begin its write, and a reader arrives before it ends. *)
Definition died_publishing : list oaction :=
  opens 0 100 0 ++ [ActPublish 0 (one_frame 5)] ++ threads 0 20 ++ [ActCrash 0] ++ opens 1 200 1 ++ [ActPublish 1 (one_frame 6)] ++ threads 1 37 ++
  ActRead 0 0 :: repeat (ActReader 0) 21.

(** C17 — A publisher that dies in the middle of a write leaves its sequence odd, the next
    one makes it even to begin and odd to end: readers then accept copies taken in
    the middle of a write, that no publisher ever published. *)
Theorem observation_torn_read :
  exists s copied, rtc (obs_step (fun _ => true)) (obs_start 1) s /\ o_readers s !! 0%nat = Some (RDone 0 copied) /\
    copied ∉ sq_past (o_areas s 0%nat) /\ ~ published 1 0 copied.
Proof.
  exists (foldl (oact (fun _ => true)) (obs_start 1) died_publishing), [6; 200; 0; 0; 0; 0; 0; 0; 0; 0; 0; 0; 2; 1; 0; 7; 0; 9; 3].
  split; [apply oacts_steps|]. split; [vm_compute; reflexivity|]. split; [apply (bool_decide_unpack _); vm_compute; exact I|].
  intros [E|(pid & b & Hl & E)]; [discriminate E|]. destruct (j_views b) as [|v [|]] eqn:Ev; try discriminate Hl.
  unfold snapshot_words, summary_of, marked in E. rewrite Ev in E. cbn [seq fmap list_fmap app imap mjoin list_join frame_record] in E.
  pose proof (f_equal (fun l => default 0 (l !! 5%nat)) E) as E3. pose proof (f_equal (fun l => default 0 (l !! 13%nat)) E) as Ef. clear E.
  cbn [lookup list_lookup default from_option id] in E3, Ef. unfold flag_word in Ef. rewrite filter_cons in E3. destruct (IsDirty (fv_word v)) eqn:Ed.
  - rewrite decide_True in E3; [vm_compute in E3; discriminate E3|]. unfold frame_marks. rewrite Ed, !elem_of_app. right. left. by apply list_elem_of_singleton.
  - by destruct (any_bit (fv_word v) kWritebackQueued), (any_bit (fv_word v) kWritebackActive).
Qed.
