(* ===== verification/Segment.v ===== *)
(** The cross-process segment: [lib/buffer/shared_segment.{h,cc}].

    A named shared-memory object that every process of a cache maps.  The first
    one creates it and initializes it, the others wait until it is ready and check
    that it was made for the same configuration; each is counted, and the last one
    to leave may remove the name.  Objects are numbered in the order they are
    created; the name refers to one of them or to none.  A process may stop at any
    point; it then stays counted. *)
From stdpp Require Import strings.
From S2P Require Import Prelude Status.

(** ** The header *)

Definition kMagic : Z := 0x3147455354504c54.
Definition kLayoutVersion : Z := 1.
Definition kInitializing : Z := 0.
Definition kReady : Z := 1.
Definition kRemoving : Z := 2 ^ 32 - 1.
Definition kMaxProcesses : nat := 64.
Definition kReplacerKindBytes : nat := 96.
Definition kPageSize : Z := 4096.
(** [sizeof(Header)] *)
Definition header_bytes : Z := 9408.

Definition AlignUp (value alignment : Z) : Z := Z.land (u64 (value + alignment - 1)) (u64_not (alignment - 1)).

Record Shape := MkShape {
  block_size : Z; pool_size : Z; stripe_count : Z; replacer_state_bytes : Z; replacer_kind : string; kernel_bytes : Z
}.

Definition replacer_offset : Z := AlignUp header_bytes 64.
Definition kernel_offset (shape : Shape) : Z := AlignUp (u64 (replacer_offset + replacer_state_bytes shape)) kPageSize.
Definition total_bytes (shape : Shape) : Z := u64 (kernel_offset shape + kernel_bytes shape).

(** [strncpy] into the zeroed array of the kind. *)
Fixpoint before_nul (s : string) : list Ascii.ascii :=
  match s with
  | EmptyString => []
  | String c s => if bool_decide (c = Ascii.zero) then [] else c :: before_nul s
  end.
Definition kind_array (kind : string) : list Ascii.ascii :=
  let l := take (kReplacerKindBytes - 1) (before_nul kind) in l ++ replicate (kReplacerKindBytes - length l) Ascii.zero.

(** The fields the creator writes before the segment is ready. *)
Record config := Config {
  h_magic : Z; h_layout_version : Z; h_segment_bytes : Z; h_block_size : Z; h_pool_size : Z; h_stripe_count : Z;
  h_replacer_state_bytes : Z; h_kernel_bytes : Z; h_replacer_kind : list Ascii.ascii; h_replacer_offset : Z; h_kernel_offset : Z
}.
#[export] Instance config_eq_dec : EqDecision config.
Proof. solve_decision. Defined.

Definition config_of (shape : Shape) : config :=
  Config kMagic kLayoutVersion (total_bytes shape) (block_size shape) (pool_size shape) (stripe_count shape)
    (replacer_state_bytes shape) (kernel_bytes shape) (kind_array (replacer_kind shape)) replacer_offset (kernel_offset shape).
Definition zero_config : config := Config 0 0 0 0 0 0 0 0 (replicate kReplacerKindBytes Ascii.zero) 0 0.

Record object := Object {
  ob_size : Z;
  ob_config : config;
  ob_state : Z;
  ob_attached : Z;
  ob_slots : list (Z * Z)
}.
Definition new_object : object := Object 0 zero_config 0 0 (replicate kMaxProcesses (0, 0)).
Definition set_size (n : Z) (o : object) : object := Object n (ob_config o) (ob_state o) (ob_attached o) (ob_slots o).
Definition set_state (st : Z) (o : object) : object := Object (ob_size o) (ob_config o) st (ob_attached o) (ob_slots o).
Definition set_attached (n : Z) (o : object) : object := Object (ob_size o) (ob_config o) (ob_state o) n (ob_slots o).
Definition set_slots (l : list (Z * Z)) (o : object) : object := Object (ob_size o) (ob_config o) (ob_state o) (ob_attached o) l.

(** [construct_at] and the fields of the shape. *)
Definition construct (shape : Shape) (o : object) : object :=
  Object (ob_size o) (config_of shape) kInitializing 0 (replicate kMaxProcesses (0, 0)).

(** The checks of an attaching process. *)
Definition known_layout (c : config) : bool := (h_magic c =? kMagic) && (h_layout_version c =? kLayoutVersion).
Definition same_shape (shape : Shape) (mapped_bytes : Z) (c : config) : bool :=
  (h_segment_bytes c =? total_bytes shape) && (h_segment_bytes c =? mapped_bytes) &&
  (h_block_size c =? block_size shape) && (h_pool_size c =? pool_size shape) &&
  (h_stripe_count c =? stripe_count shape) && (h_replacer_state_bytes c =? replacer_state_bytes shape) &&
  (h_kernel_bytes c =? kernel_bytes shape) && bool_decide (h_replacer_kind c = kind_array (replacer_kind shape)).

(** ** Processes *)

Inductive SharedMemoryMode := kCreateOrAttach | kCreate | kAttach.

Inductive spc :=
  | SOpen
  | SOpenExisting
  | SSize
  | SWaitSize
  | SMap
  | SInit
  | SWaitReady
  | SCheck
  | SLoad
  | SCas (attached : Z)
  | SClaim (index : nat)
  | SUse
  (* [~SharedSegment]; [None] is the null segment of [OpenOnce] *)
  | SDestroy (r : option Status)
  | SState (r : option Status)
  | SSub (r : option Status) (never_ready : bool)
  | SRemove (r : option Status)
  | SUnlink (r : option Status)
  | SRetry
  | SDone (r : Status)
  | SDead.

(** One [SharedSegment], and what [Open] was called with.  The destructor clears the
    fields it has used up. *)
Record member := Member {
  m_mode : SharedMemoryMode; m_shape : Shape; m_remove_when_unused : bool; m_pid : Z;
  m_object : nat; m_bytes : Z; m_created : bool; m_counted : bool; m_slot : option nat; m_pc : spc
}.
Definition goto (t : spc) (x : member) : member :=
  Member (m_mode x) (m_shape x) (m_remove_when_unused x) (m_pid x) (m_object x) (m_bytes x) (m_created x) (m_counted x) (m_slot x) t.
Definition opened (g : nat) (created : bool) (t : spc) (x : member) : member :=
  Member (m_mode x) (m_shape x) (m_remove_when_unused x) (m_pid x) g (total_bytes (m_shape x)) created false None t.
Definition set_bytes (n : Z) (x : member) : member :=
  Member (m_mode x) (m_shape x) (m_remove_when_unused x) (m_pid x) (m_object x) n (m_created x) (m_counted x) (m_slot x) (m_pc x).
Definition set_counted (b : bool) (x : member) : member :=
  Member (m_mode x) (m_shape x) (m_remove_when_unused x) (m_pid x) (m_object x) (m_bytes x) (m_created x) b (m_slot x) (m_pc x).
Definition set_slot (i : option nat) (x : member) : member :=
  Member (m_mode x) (m_shape x) (m_remove_when_unused x) (m_pid x) (m_object x) (m_bytes x) (m_created x) (m_counted x) i (m_pc x).

Record ssystem := SSystem { s_name : option nat; s_next : nat; s_objects : nat -> object; s_members : gmap nat member }.
Definition set_name (n : option nat) (s : ssystem) : ssystem := SSystem n (s_next s) (s_objects s) (s_members s).
Definition set_object (g : nat) (o : object) (s : ssystem) : ssystem := SSystem (s_name s) (s_next s) (<[g := o]> (s_objects s)) (s_members s).
Definition set_members (m : gmap nat member) (s : ssystem) : ssystem := SSystem (s_name s) (s_next s) (s_objects s) m.

(** What the system answers: an error number or 0, whether a deadline has passed, and
    the start time of the process. *)
Record answer := Answer { a_errno : Z; a_late : bool; a_start_time : Z }.

Definition finish (r : option Status) : spc := match r with Some st => SDone st | None => SRetry end.

(** [shm_open]. *)
Definition create_object (x : member) (s : ssystem) : member * ssystem :=
  (opened (s_next s) true SSize x, SSystem (Some (s_next s)) (S (s_next s)) (<[s_next s := new_object]> (s_objects s)) (s_members s)).

(** [ClaimProcessSlot]: one turn of its loop. *)
Definition ClaimProcessSlot (a : answer) (index : nat) (x : member) (s : ssystem) : option (member * ssystem) :=
  let g := m_object x in
  let o := s_objects s g in
  match ob_slots o !! index with
  | None => Some (goto (SDestroy (Some (ResourceExhausted "shared memory segment has no free process slot"))) x, s)
  | Some (pid, _) =>
      if pid =? 0 then Some (goto SUse (set_slot (Some index) x), set_object g (set_slots (<[index := (m_pid x, a_start_time a)]> (ob_slots o)) o) s)
      else Some (goto (SClaim (S index)) x, s)
  end.

(** The destructor, access by access. *)
Definition destroy_segment (x : member) (s : ssystem) : option (member * ssystem) :=
  let g := m_object x in
  let o := s_objects s g in
  match m_pc x with
  | SDestroy r =>
      match m_slot x with
      | Some i => Some (goto (SState r) (set_slot None x), set_object g (set_slots (alter (fun p => (0, p.2)) i (ob_slots o)) o) s)
      | None => Some (goto (SState r) x, s)
      end
  | SState r => Some (goto (SSub r (m_created x && negb (ob_state o =? kReady))) x, s)
  | SSub r never_ready =>
      let rest := if never_ready then SUnlink r else finish r in
      if m_counted x then
        Some (goto (if (ob_attached o =? 1) && m_remove_when_unused x then SRemove r else rest) (set_counted false x),
              set_object g (set_attached (u32 (ob_attached o - 1)) o) s)
      else Some (goto rest x, s)
  | SRemove r =>
      if ob_attached o =? 0 then Some (goto (SUnlink r) x, set_object g (set_attached kRemoving o) s) else Some (goto (finish r) x, s)
  | SUnlink r => Some (goto (finish r) x, set_name None s)
  | _ => None
  end.

Definition sstep (a : answer) (x : member) (s : ssystem) : option (member * ssystem) :=
  let g := m_object x in
  let o := s_objects s g in
  match m_pc x with
  (* OpenOnce *)
  | SOpen =>
      match m_mode x with
      | kAttach => Some (goto SOpenExisting x, s)
      | mode =>
          if negb (a_errno a =? 0) then Some (goto (SDone (IoError "shm_open failed" (a_errno a))) x, s)
          else match s_name s with
               | None => Some (create_object x s)
               | Some _ => Some (goto (match mode with kCreate => SDone (InvalidArgument "shared memory segment already exists") | _ => SOpenExisting end) x, s)
               end
      end
  | SOpenExisting =>
      if negb (a_errno a =? 0) then Some (goto (SDone (IoError "shm_open failed" (a_errno a))) x, s)
      else match s_name s with
           | None => Some (goto (SDone (NotFound "shared memory segment does not exist" 0)) x, s)
           | Some g => Some (opened g false SWaitSize x, s)
           end
  | SSize =>
      if negb (a_errno a =? 0) then Some (goto (SUnlink (Some (IoError "failed to size shared memory segment" (a_errno a)))) x, s)
      else Some (goto SMap x, set_object g (set_size (total_bytes (m_shape x)) o) s)
  | SWaitSize =>
      if negb (a_errno a =? 0) then Some (goto (SDone (Unavailable "shared memory segment was never initialized" 0)) x, s)
      else if ob_size o <? header_bytes then
        if a_late a then Some (goto (SDone (Unavailable "shared memory segment was never initialized" 0)) x, s) else Some (x, s)
      else Some (goto SMap (set_bytes (ob_size o) x), s)
  | SMap =>
      if negb (a_errno a =? 0) then
        let r : Status := IoError "failed to map shared memory segment" (a_errno a) in
        Some (goto (if m_created x then SUnlink (Some r) else SDone r) x, s)
      else Some (goto (if m_created x then SInit else SWaitReady) x, s)
  | SInit => Some (goto SLoad x, set_object g (construct (m_shape x) o) s)
  | SWaitReady =>
      if ob_state o =? kReady then Some (goto SCheck x, s)
      else if a_late a then Some (goto (SDestroy (Some (Unavailable "shared memory segment was never initialized" 0))) x, s) else Some (x, s)
  | SCheck =>
      if negb (known_layout (ob_config o)) then Some (goto (SDestroy (Some (InvalidArgument "shared memory segment has an unknown layout"))) x, s)
      else if negb (same_shape (m_shape x) (m_bytes x) (ob_config o)) then
        Some (goto (SDestroy (Some (InvalidArgument "shared memory segment was created with a different configuration"))) x, s)
      else Some (goto SLoad x, s)
  | SLoad => Some (goto (if ob_attached o =? kRemoving then SDestroy None else SCas (ob_attached o)) x, s)
  | SCas attached =>
      if ob_attached o =? attached then Some (goto (SClaim 0) (set_counted true x), set_object g (set_attached (u32 (attached + 1)) o) s)
      else Some (goto SLoad x, s)
  | SClaim index => ClaimProcessSlot a index x s
  | SDestroy _ | SState _ | SSub _ _ | SRemove _ | SUnlink _ => destroy_segment x s
  (* Open *)
  | SRetry => Some (if a_late a then goto (SDone (Unavailable "shared memory segment is stuck being removed" 0)) x else opened 0 false SOpen x, s)
  | SUse | SDone _ | SDead => None
  end.

(** [MarkReady]. *)
Definition MarkReady (x : member) (s : ssystem) : ssystem := set_object (m_object x) (set_state kReady (s_objects s (m_object x))) s.

(** [Remove]. *)
Definition Remove (errno : Z) (s : ssystem) : Status * ssystem :=
  match s_name s with
  | None => (NotFound "shared memory segment does not exist" 0, s)
  | Some _ => if errno =? 0 then (Ok tt, set_name None s) else (IoError "shm_unlink failed" errno, s)
  end.

(** [removes] says whether [Remove] may be called. *)
Inductive seg_step (removes : bool) : ssystem -> ssystem -> Prop :=
  | seg_start s j mode shape remove pid :
      s_members s !! j = None -> pid <> 0 ->
      seg_step removes s (set_members (<[j := Member mode shape remove pid 0 0 false false None SOpen]> (s_members s)) s)
  | seg_thread s j a x x' s' :
      s_members s !! j = Some x -> sstep a x s = Some (x', s') -> seg_step removes s (set_members (<[j := x']> (s_members s)) s')
  | seg_ready s j x :
      s_members s !! j = Some x -> m_pc x = SUse -> m_created x = true -> seg_step removes s (MarkReady x s)
  | seg_leave s j x :
      s_members s !! j = Some x -> m_pc x = SUse ->
      seg_step removes s (set_members (<[j := goto (SDestroy (Some (Ok tt))) x]> (s_members s)) s)
  | seg_die s j x : s_members s !! j = Some x -> seg_step removes s (set_members (<[j := goto SDead x]> (s_members s)) s)
  | seg_remove s errno : removes = true -> seg_step removes s (Remove errno s).2.

Definition seg_empty : ssystem := SSystem None 0 (fun _ => new_object) ∅.
