(* ===== verification/SegmentSafety.v ===== *)
(** Processes that use a cache under the same name use the same segment: its name is
    removed only when nobody is attached and nobody can attach any more. *)
From stdpp Require Import strings.
From S2P Require Import Prelude Status Segment.

(** ** Counting *)

Definition counts (g : nat) (x : member) : Z := Z.b2z (m_counted x && bool_decide (m_object x = g)).
Definition users (g : nat) (s : ssystem) : Z := total (counts g) (s_members s).

Lemma counts_nonneg g x : 0 <= counts g x.
Proof. unfold counts. destruct (_ && _); cbn; lia. Qed.
Lemma counts_uncounted g x : m_counted x = false -> counts g x = 0.
Proof. unfold counts. by intros ->. Qed.
Lemma counts_self x : m_counted x = true -> counts (m_object x) x = 1.
Proof. unfold counts. intros ->. by rewrite bool_decide_eq_true_2. Qed.
Lemma counts_other g x : m_object x <> g -> counts g x = 0.
Proof. unfold counts. intros Hne. rewrite bool_decide_eq_false_2 by done. by rewrite andb_false_r. Qed.

Lemma total_le_size (m : gmap nat member) g : total (counts g) m <= Z.of_nat (size m).
Proof.
  induction m as [|k a m Hk _ IH] using map_first_key_ind; [done|]. rewrite total_insert_new, map_size_insert_None by done.
  assert (counts g a <= 1) by (unfold counts; destruct (_ && _); cbn; lia). lia.
Qed.

Lemma users_pos s j x : s_members s !! j = Some x -> m_counted x = true -> 0 < users (m_object x) s.
Proof.
  intros Hj Hc. pose proof (total_ge (counts (m_object x)) _ _ _ (counts_nonneg _) Hj) as Ht. rewrite counts_self in Ht by done. unfold users. lia.
Qed.
Lemma users_none g s : (forall j x, s_members s !! j = Some x -> m_counted x = true -> m_object x <> g) -> users g s = 0.
Proof.
  intros Hn. apply total_zero. intros j x Hj. destruct (m_counted x) eqn:Ec; [apply counts_other; by eapply Hn|by apply counts_uncounted].
Qed.

(** ** Where a process is *)

Definition bound (t : spc) : bool := match t with SOpen | SOpenExisting | SDone _ | SRetry | SDead => false | _ => true end.
(** The creator before it has written the header. *)
Definition early (t : spc) : bool := match t with SSize | SMap | SInit => true | _ => false end.
(** Only reached once the segment is ready, or by its creator. *)
Definition needs_ready (t : spc) : bool := match t with SCheck | SLoad | SCas _ | SClaim _ | SUse | SRemove _ => true | _ => false end.
Definition checked (t : spc) : bool := match t with SLoad | SCas _ | SClaim _ | SUse => true | _ => false end.
Definition finished (t : spc) : bool := match t with SDone _ | SRetry | SDead => true | _ => false end.
Definition unlinking (t : spc) : bool := match t with SUnlink _ => true | _ => false end.
Definition over (t : spc) : bool := finished t || unlinking t.
Definition loose (t : spc) : bool :=
  match t with SClaim _ | SUse | SDestroy _ | SState _ | SSub _ _ | SDead => false | _ => true end.
Definition slotless (t : spc) : bool := loose t || match t with SState _ | SSub _ _ => true | _ => false end.
Definition must_count (t : spc) : bool := match t with SClaim _ | SUse => true | _ => false end.

(** What is true of a process by itself, given the object it is bound to. *)
Record member_ok (name : option nat) (next : nat) (o : object) (x : member) : Prop := {
  k_next : bound (m_pc x) || m_created x || m_counted x = true -> (m_object x < next)%nat;
  k_early : m_created x = true -> early (m_pc x) = true -> ob_state o = kInitializing;
  k_creator : m_pc x = SSize \/ m_pc x = SInit -> m_created x = true;
  k_attacher : m_pc x = SWaitReady \/ m_pc x = SWaitSize \/ m_pc x = SCheck -> m_created x = false;
  k_ready : m_created x = false -> needs_ready (m_pc x) || m_counted x = true -> ob_state o = kReady;
  k_counted : m_counted x = true -> name = Some (m_object x);
  k_unlink : unlinking (m_pc x) = true -> name = Some (m_object x) /\ (ob_attached o = kRemoving \/ ob_state o <> kReady /\ m_created x = true);
  k_never r : m_pc x = SSub r true -> m_created x = true /\ ob_state o <> kReady;
  k_config : checked (m_pc x) || m_counted x = true -> ob_config o = config_of (m_shape x);
  k_slot i : m_slot x = Some i -> m_counted x = true /\ exists st, ob_slots o !! i = Some (m_pid x, st);
  k_loose : loose (m_pc x) = true -> m_counted x = false;
  k_slotless : slotless (m_pc x) = true -> m_slot x = None;
  k_must : must_count (m_pc x) = true -> m_counted x = true;
  k_use : m_pc x = SUse -> is_Some (m_slot x);
  k_cas a : m_pc x = SCas a -> a <> kRemoving;
  k_pid : m_pid x <> 0
}.

Record ginv (s : ssystem) : Prop := {
  n_member j x : s_members s !! j = Some x -> member_ok (s_name s) (s_next s) (s_objects s (m_object x)) x;
  n_name g : s_name s = Some g -> (g < s_next s)%nat;
  n_creator j k x y : s_members s !! j = Some x -> s_members s !! k = Some y -> m_created x = true -> m_created y = true -> m_object x = m_object y -> j = k;
  n_count g : ob_attached (s_objects s g) = kRemoving /\ users g s = 0 \/ ob_attached (s_objects s g) = users g s;
  n_alive g : (g < s_next s)%nat -> s_name s = Some g \/ ob_attached (s_objects s g) = kRemoving \/
    ob_state (s_objects s g) <> kReady /\ forall j x, s_members s !! j = Some x -> m_created x = true -> m_object x = g -> finished (m_pc x) = true;
  n_removing g j x : ob_attached (s_objects s g) = kRemoving -> ob_state (s_objects s g) <> kReady ->
    s_members s !! j = Some x -> m_created x = true -> m_object x = g -> over (m_pc x) = true;
  n_unlink j k x y : s_members s !! j = Some x -> s_members s !! k = Some y ->
    unlinking (m_pc x) = true -> unlinking (m_pc y) = true -> m_object x = m_object y -> j = k;
  n_config g : ob_state (s_objects s g) = kReady -> exists shape, ob_config (s_objects s g) = config_of shape;
  n_slot j k x y i : s_members s !! j = Some x -> s_members s !! k = Some y -> m_object x = m_object y -> m_slot x = Some i -> m_slot y = Some i -> j = k
}.

Lemma same_shape_config shape bytes c' :
  known_layout (config_of c') = true -> same_shape shape bytes (config_of c') = true -> config_of c' = config_of shape.
Proof.
  intros _ Hs. unfold same_shape in Hs. rewrite !andb_true_iff, !Z.eqb_eq, bool_decide_eq_true in Hs.
  cbn [config_of h_segment_bytes h_block_size h_pool_size h_stripe_count h_replacer_state_bytes h_kernel_bytes h_replacer_kind] in Hs.
  destruct Hs as [[[[[[[E1 E2] E3] E4] E5] E6] E7] E8]. unfold config_of, kernel_offset. by rewrite E1, E3, E4, E5, E6, E7, E8.
Qed.

(** ** Steps inside one object *)

(** Member [j] goes from [x] to [x'] and its object from [o] to [o'], neither the name
    nor what the creator wrote changes. *)
Section Move.
Context (s : ssystem) (j : nat) (x x' : member) (o' : object).
Context (HI : ginv s) (Hj : s_members s !! j = Some x).
Local Abbreviation g := (m_object x).
Local Abbreviation o := (s_objects s g).
Context (Eg : m_object x' = g) (Ec : m_created x' = m_created x).
Context (Es : ob_state o' = ob_state o) (Ef : ob_config o' = ob_config o).
Context (Hself : member_ok (s_name s) (s_next s) o' x').
Context (Hcount : ob_attached o' = kRemoving /\ users g s - counts g x + counts g x' = 0 \/ ob_attached o' = users g s - counts g x + counts g x').
Context (Hkeep : ob_attached o = kRemoving -> ob_attached o' = kRemoving).
Context (Hfin : finished (m_pc x) = true -> finished (m_pc x') = true) (Hover : over (m_pc x) = true -> over (m_pc x') = true).
Context (Hrem : ob_attached o' = kRemoving -> ob_attached o = kRemoving \/ ob_state o = kReady \/ m_created x = true /\ over (m_pc x') = true).
Context (Hunl : unlinking (m_pc x') = true -> forall k y, k <> j -> s_members s !! k = Some y -> unlinking (m_pc y) = true -> m_object y <> g).
Context (Hslots : forall i p, ob_slots o !! i = Some p -> p.1 <> 0 -> m_slot x <> Some i -> ob_slots o' !! i = Some p).
Context (Hnew : forall i, m_slot x' = Some i -> m_slot x = Some i \/ exists st, ob_slots o !! i = Some (0, st)).

Lemma move_cases k y : <[j := x']> (s_members s) !! k = Some y -> k = j /\ y = x' \/ k <> j /\ s_members s !! k = Some y.
Proof. intros [[<- <-]|[Hne Hk]]%lookup_insert_Some; [by left|by right]. Qed.

Lemma move_other k y : k <> j -> s_members s !! k = Some y -> member_ok (s_name s) (s_next s) (<[g := o']> (s_objects s) (m_object y)) y.
Proof.
  intros Hne Hk. pose proof (n_member _ HI k y Hk) as Hy. destruct (decide (g = m_object y)) as [E|Hd]; [|by rewrite fn_lookup_insert_ne].
  rewrite E, fn_lookup_insert. rewrite <- E in Hy. destruct Hy. rewrite ?Es, ?Ef in *. split; rewrite ?Es, ?Ef; try done.
  - intros Hu. destruct (k_unlink0 Hu) as [? [?|?]]; [split; [done|left; by apply Hkeep]|split; [done|by right]].
  - intros i Hi. destruct (k_slot0 i Hi) as (Hc & st & Hst). split; [done|]. exists st. apply Hslots; [done|done|]. intros Hx. apply Hne. by eapply (n_slot _ HI).
Qed.

Lemma move_users c : users c (set_members (<[j := x']> (s_members s)) (set_object g o' s)) = users c s - counts c x + counts c x'.
Proof. apply (total_update _ _ _ x _ Hj). Qed.

Lemma ginv_move : ginv (set_members (<[j := x']> (s_members s)) (set_object g o' s)).
Proof.
  split; cbn [set_members set_object s_name s_next s_objects s_members].
  - intros k y [[-> ->]|[Hne Hk]]%move_cases; [by rewrite Eg, fn_lookup_insert|by apply (move_other k)].
  - apply HI.
  - intros k1 k2 y1 y2 [[-> ->]|[Hn1 H1]]%move_cases [[-> ->]|[Hn2 H2]]%move_cases; rewrite ?Ec, ?Eg; intros; [done|..]; by eapply (n_creator _ HI).
  - intros c. rewrite move_users. destruct (decide (g = c)) as [<-|Hne]; [by rewrite fn_lookup_insert|]. rewrite fn_lookup_insert_ne by done.
    rewrite !counts_other by congruence. pose proof (n_count _ HI c) as Hc. rewrite Z.sub_0_r, Z.add_0_r. exact Hc.
  - intros c Hc. destruct (n_alive _ HI c Hc) as [E|[E|[E1 E2]]]; [by left|right; left|right; right].
    + destruct (decide (g = c)) as [<-|Hne]; [rewrite fn_lookup_insert; by apply Hkeep|by rewrite fn_lookup_insert_ne].
    + split; [destruct (decide (g = c)) as [<-|Hne]; [rewrite fn_lookup_insert; by rewrite Es|by rewrite fn_lookup_insert_ne]|].
      intros k y [[-> ->]|[Hne Hk]]%move_cases; [rewrite Ec, Eg; intros; apply Hfin; by eapply E2|by apply (E2 k)].
  - intros c k y. destruct (decide (g = c)) as [<-|Hne].
    + rewrite fn_lookup_insert, Es. intros Ha Hr [[-> ->]|[Hne Hk]]%move_cases; rewrite ?Ec, ?Eg; intros Hc Ho.
      * destruct (Hrem Ha) as [E|[E|[_ E]]]; [|done|done]. apply Hover. by eapply (n_removing _ HI g).
      * destruct (Hrem Ha) as [E|[E|[E _]]]; [by eapply (n_removing _ HI g)|done|]. destruct Hne. by eapply (n_creator _ HI).
    + rewrite fn_lookup_insert_ne by done. intros Ha Hr [[-> ->]|[Hk1 Hk]]%move_cases; [rewrite Eg; congruence|by eapply (n_removing _ HI)].
  - intros k1 k2 y1 y2 [[-> ->]|[Hn1 H1]]%move_cases [[-> ->]|[Hn2 H2]]%move_cases; rewrite ?Eg; intros U1 U2 E; [done|..|by eapply (n_unlink _ HI)].
    + by destruct (Hunl U1 k2 y2 Hn2 H2 U2).
    + by destruct (Hunl U2 k1 y1 Hn1 H1 U1).
  - intros c. destruct (decide (g = c)) as [<-|Hne]; [rewrite fn_lookup_insert, Es, Ef|rewrite fn_lookup_insert_ne by done]; apply HI.
  - intros k1 k2 y1 y2 i [[-> ->]|[Hn1 H1]]%move_cases [[-> ->]|[Hn2 H2]]%move_cases; rewrite ?Eg; intros E S1 S2; [done|..|by eapply (n_slot _ HI)].
    + destruct (Hnew i S1) as [E1|[st E1]]; [by eapply (n_slot _ HI)|]. destruct (k_slot _ _ _ _ (n_member _ HI k2 y2 H2) i S2) as (_ & st' & E2).
      rewrite <- E, E1 in E2. injection E2 as E2 _. by destruct (k_pid _ _ _ _ (n_member _ HI k2 y2 H2)).
    + destruct (Hnew i S2) as [E1|[st E1]]; [by eapply (n_slot _ HI)|]. destruct (k_slot _ _ _ _ (n_member _ HI k1 y1 H1) i S1) as (_ & st' & E2).
      rewrite E, E1 in E2. injection E2 as E2 _. by destruct (k_pid _ _ _ _ (n_member _ HI k1 y1 H1)).
Qed.
End Move.

Lemma ginv_ext s1 s2 :
  s_name s1 = s_name s2 -> s_next s1 = s_next s2 -> s_members s1 = s_members s2 -> (forall c, s_objects s1 c = s_objects s2 c) -> ginv s1 -> ginv s2.
Proof.
  intros E1 E2 E3 E4 [I1 I2 I3 I4 I5 I6 I7 I8 I9].
  split; unfold users in *; rewrite <- ?E1, <- ?E2, <- ?E3; [intros j x Hj|done|done|intros c|intros c|intros c|done|intros c|done]; rewrite <- ?E4; eauto.
Qed.

(** A step that changes neither its object nor what it holds of it. *)
Lemma ginv_quiet s j x x' :
  ginv s -> s_members s !! j = Some x -> m_object x' = m_object x -> m_created x' = m_created x -> m_counted x' = m_counted x -> m_slot x' = m_slot x ->
  member_ok (s_name s) (s_next s) (s_objects s (m_object x)) x' ->
  (finished (m_pc x) = true -> finished (m_pc x') = true) -> (over (m_pc x) = true -> over (m_pc x') = true) ->
  (unlinking (m_pc x') = true -> forall k y, k <> j -> s_members s !! k = Some y -> unlinking (m_pc y) = true -> m_object y <> m_object x) ->
  ginv (set_members (<[j := x']> (s_members s)) s).
Proof.
  intros HI Hj Eg Ec En El Hself Hfin Hover Hunl. apply (ginv_ext (set_members (<[j := x']> (s_members s)) (set_object (m_object x) (s_objects s (m_object x)) s))); try done.
  { intros c. cbn. destruct (decide (m_object x = c)) as [<-|Hne]; [by rewrite fn_lookup_insert|by rewrite fn_lookup_insert_ne]. }
  apply ginv_move; try done; [|by left|rewrite El; by left].
  assert (counts (m_object x) x' = counts (m_object x) x) as -> by (unfold counts; by rewrite Eg, En).
  rewrite Z.sub_add. apply HI.
Qed.

(** ** The creator alone *)

Section Creator.
Context (s : ssystem) (j : nat) (x : member) (HI : ginv s) (Hj : s_members s !! j = Some x).
Context (Hc : m_created x = true) (Hs : ob_state (s_objects s (m_object x)) <> kReady).

(** Until the segment is ready nobody else is counted. *)
Lemma creator_alone k y : s_members s !! k = Some y -> m_counted y = true -> m_object y = m_object x -> k = j.
Proof.
  intros Hk Hy E. destruct (m_created y) eqn:Ec; [by eapply (n_creator _ HI)|]. destruct Hs. rewrite <- E.
  apply (k_ready _ _ _ _ (n_member _ HI k y Hk)); [done|]. by rewrite Hy, orb_true_r.
Qed.

Lemma creator_keeps : over (m_pc x) = false -> ob_attached (s_objects s (m_object x)) <> kRemoving /\ s_name s = Some (m_object x).
Proof.
  intros Ho. assert (ob_attached (s_objects s (m_object x)) <> kRemoving) as Ha.
  { intros Ha. by rewrite (n_removing _ HI _ j x Ha Hs Hj Hc eq_refl) in Ho. }
  split; [done|]. destruct (n_alive _ HI (m_object x)) as [E|[E|[_ E]]]; [|done|done|].
  - apply (k_next _ _ _ _ (n_member _ HI j x Hj)). by rewrite Hc, orb_true_r.
  - unfold over in Ho. by rewrite (E j x Hj Hc eq_refl) in Ho.
Qed.

Lemma creator_unlinks k y : over (m_pc x) = false -> s_members s !! k = Some y -> unlinking (m_pc y) = true -> m_object y <> m_object x.
Proof.
  intros Ho Hk Hu E. destruct (k_unlink _ _ _ _ (n_member _ HI k y Hk) Hu) as [_ [Ha|[_ Hy]]].
  - rewrite E in Ha. by destruct (creator_keeps Ho).
  - assert (k = j) as -> by by eapply (n_creator _ HI). simplify_eq. unfold over in Ho. rewrite Hu in Ho. by destruct (finished (m_pc x)).
Qed.
End Creator.

(** ** Steps that do more *)

(** A member with nothing yet. *)
Lemma blank_ok name next o x :
  m_created x = false -> m_counted x = false -> m_slot x = None -> m_pid x <> 0 -> (bound (m_pc x) = true -> (m_object x < next)%nat) ->
  match m_pc x with SOpen | SOpenExisting | SWaitSize | SRetry | SDone _ => True | _ => False end -> member_ok name next o x.
Proof.
  intros E1 E2 E3 E4 Hb Hp. split; rewrite ?E1, ?E2, ?E3, ?orb_false_r; try done; destruct (m_pc x); try done; naive_solver.
Qed.

Lemma ginv_blank s j x' :
  ginv s -> m_created x' = false -> m_counted x' = false -> m_slot x' = None -> m_pid x' <> 0 -> (bound (m_pc x') = true -> (m_object x' < s_next s)%nat) ->
  match m_pc x' with SOpen | SOpenExisting | SWaitSize | SRetry | SDone _ => True | _ => False end ->
  (forall x, s_members s !! j = Some x -> m_counted x = false) ->
  ginv (set_members (<[j := x']> (s_members s)) s).
Proof.
  intros HI E1 E2 E3 E4 Hb Hp Hold.
  assert (forall k y, <[j := x']> (s_members s) !! k = Some y -> k = j /\ y = x' \/ k <> j /\ s_members s !! k = Some y) as Hcase.
  { intros k y [[<- <-]|[Hne Hk]]%lookup_insert_Some; [by left|by right]. }
  assert (unlinking (m_pc x') = false) as Hu by by destruct (m_pc x').
  split; cbn [set_members s_name s_next s_objects s_members].
  - intros k y [[-> ->]|[Hne Hk]]%Hcase; [by apply blank_ok|by apply (n_member _ HI k)].
  - apply HI.
  - intros k1 k2 y1 y2 [[-> ->]|[Hn1 H1]]%Hcase [[-> ->]|[Hn2 H2]]%Hcase; rewrite ?E1; try done. by eapply (n_creator _ HI).
  - intros c. assert (users c (set_members (<[j := x']> (s_members s)) s) = users c s) as ->; [|apply HI]. unfold users. cbn [set_members s_members].
    destruct (s_members s !! j) as [x|] eqn:Hj.
    + rewrite (total_update _ _ _ x) by done. rewrite !counts_uncounted; [lia|done|by apply Hold].
    + rewrite total_insert_new by done. by rewrite counts_uncounted.
  - intros c Hc. destruct (n_alive _ HI c Hc) as [E|[E|[Ea Eb]]]; [by left|by right; left|right; right]. split; [done|].
    intros k y [[-> ->]|[Hne Hk]]%Hcase; [by rewrite E1|by apply (Eb k)].
  - intros c k y Ha Hr [[-> ->]|[Hne Hk]]%Hcase; [by rewrite E1|by eapply (n_removing _ HI)].
  - intros k1 k2 y1 y2 [[-> ->]|[Hn1 H1]]%Hcase [[-> ->]|[Hn2 H2]]%Hcase; rewrite ?Hu; try done. by eapply (n_unlink _ HI).
  - apply HI.
  - intros k1 k2 y1 y2 i [[-> ->]|[Hn1 H1]]%Hcase [[-> ->]|[Hn2 H2]]%Hcase; rewrite ?E3; try done. by eapply (n_slot _ HI).
Qed.

Lemma member_ok_unnamed name' next next' o x : member_ok None next o x -> (next <= next')%nat -> member_ok name' next' o x.
Proof.
  intros [] Hn. assert (m_counted x = false) as Ec by (apply not_true_is_false; intros E; by specialize (k_counted0 E)).
  split; try done; [intros Hb; specialize (k_next0 Hb); lia|by rewrite Ec|intros Hu; by destruct (k_unlink0 Hu)].
Qed.

Lemma member_ok_unbound name next o o' x :
  bound (m_pc x) = false -> m_created x = false -> m_counted x = false -> member_ok name next o x -> member_ok name next o' x.
Proof.
  intros Eb Ec En []. split; rewrite ?Ec, ?En, ?orb_false_r in *; try done; [..|intros i Hi; by destruct (k_slot0 i Hi)];
    try (intros; by destruct (m_pc x)).
Qed.

Lemma ginv_create s j x :
  ginv s -> s_members s !! j = Some x -> s_name s = None ->
  let '(x', s') := create_object x s in ginv (set_members (<[j := x']> (s_members s')) s').
Proof.
  intros HI Hj En. cbn [create_object s_members].
  assert (forall k y, s_members s !! k = Some y -> m_counted y = false /\ unlinking (m_pc y) = false /\ m_slot y = None) as Hnone.
  { intros k y Hk. pose proof (n_member _ HI k y Hk) as []. rewrite En in *. assert (m_counted y = false) as Ec by (apply not_true_is_false; naive_solver).
    split; [done|]. split; [apply not_true_is_false; naive_solver|]. destruct (m_slot y) as [i|] eqn:Ei; [|done]. destruct (k_slot0 i eq_refl). congruence. }
  assert (forall k y, s_members s !! k = Some y -> m_object y <> s_next s \/ bound (m_pc y) = false /\ m_created y = false) as Hfresh.
  { intros k y Hk. pose proof (k_next _ _ _ _ (n_member _ HI k y Hk)) as Hb. destruct (decide (m_object y = s_next s)) as [E|]; [right|by left].
    destruct (bound (m_pc y)); [specialize (Hb eq_refl); lia|]. destruct (m_created y); [specialize (Hb eq_refl); lia|done]. }
  set (x' := opened (s_next s) true SSize x).
  assert (forall k y, <[j := x']> (s_members s) !! k = Some y -> k = j /\ y = x' \/ k <> j /\ s_members s !! k = Some y) as Hcase.
  { intros k y [[<- <-]|[Hne Hk]]%lookup_insert_Some; [by left|by right]. }
  split; cbn [set_members s_name s_next s_objects s_members].
  - intros k y [[-> ->]|[Hne Hk]]%Hcase.
    + cbn [x' opened m_object]. rewrite fn_lookup_insert. split; cbn; try done; [intros; lia|naive_solver|by apply (n_member _ HI j x Hj)].
    + pose proof (n_member _ HI k y Hk) as Hy. rewrite En in Hy. apply member_ok_unnamed with (next := s_next s); [|lia].
      destruct (Hfresh k y Hk) as [E|[E1 E2]]; [by rewrite fn_lookup_insert_ne|]. eapply member_ok_unbound; [done|done|by eapply Hnone|exact Hy].
  - intros c [= <-]. lia.
  - intros k1 k2 y1 y2 [[-> ->]|[Hn1 H1]]%Hcase [[-> ->]|[Hn2 H2]]%Hcase; [done|..|by eapply (n_creator _ HI)]; cbn [x' opened m_created m_object]; intros C1 C2 E.
    + destruct (Hfresh k2 y2 H2) as [?|[? ?]]; congruence.
    + destruct (Hfresh k1 y1 H1) as [?|[? ?]]; congruence.
  - intros c. rewrite users_none by (intros k y [[-> ->]|[Hne Hk]]%Hcase Hy; [done|by destruct (Hnone k y Hk) as [E _]; rewrite E in Hy]).
    destruct (decide (s_next s = c)) as [<-|Hne]; [right; by rewrite fn_lookup_insert|]. rewrite fn_lookup_insert_ne by done.
    pose proof (n_count _ HI c) as Hc. rewrite users_none in Hc by (intros k y Hk Hy; destruct (Hnone k y Hk); congruence). exact Hc.
  - intros c Hc. destruct (decide (s_next s = c)) as [<-|Hne]; [by left|right]. rewrite fn_lookup_insert_ne by done.
    destruct (n_alive _ HI c ltac:(lia)) as [E|[E|[Ea Eb]]]; [congruence|by left|right]. split; [done|].
    intros k y [[-> ->]|[Hk1 Hk]]%Hcase; [cbn; congruence|by apply (Eb k)].
  - intros c k y. destruct (decide (s_next s = c)) as [<-|Hne]; [by rewrite fn_lookup_insert|]. rewrite fn_lookup_insert_ne by done.
    intros Ha Hr [[-> ->]|[Hk1 Hk]]%Hcase; [cbn; congruence|by eapply (n_removing _ HI)].
  - intros k1 k2 y1 y2 [[-> ->]|[Hn1 H1]]%Hcase [[-> ->]|[Hn2 H2]]%Hcase; try done. by eapply (n_unlink _ HI).
  - intros c. destruct (decide (s_next s = c)) as [<-|Hne]; [by rewrite fn_lookup_insert|]. rewrite fn_lookup_insert_ne by done. apply HI.
  - intros k1 k2 y1 y2 i [[-> ->]|[Hn1 H1]]%Hcase [[-> ->]|[Hn2 H2]]%Hcase; try done. by eapply (n_slot _ HI).
Qed.

(** The creator writes the header. *)
Lemma ginv_init s j x :
  ginv s -> s_members s !! j = Some x -> m_pc x = SInit ->
  ginv (set_members (<[j := goto SLoad x]> (s_members s)) (set_object (m_object x) (construct (m_shape x) (s_objects s (m_object x))) s)).
Proof.
  intros HI Hj Ep. pose proof (n_member _ HI j x Hj) as Hx. assert (m_created x = true) as Hc by (apply (k_creator _ _ _ _ Hx); by right).
  assert (ob_state (s_objects s (m_object x)) <> kReady) as Hs by (by rewrite (k_early _ _ _ _ Hx) by (rewrite ?Ep; done)).
  destruct (creator_keeps s j x HI Hj Hc Hs ltac:(by rewrite Ep)) as [Ha En].
  assert (m_counted x = false) as Eu by (apply (k_loose _ _ _ _ Hx); by rewrite Ep). assert (m_slot x = None) as El by (apply (k_slotless _ _ _ _ Hx); by rewrite Ep).
  assert (forall k y, <[j := goto SLoad x]> (s_members s) !! k = Some y -> k = j /\ y = goto SLoad x \/ k <> j /\ s_members s !! k = Some y) as Hcase.
  { intros k y [[<- <-]|[Hne Hk]]%lookup_insert_Some; [by left|by right]. }
  assert (users (m_object x) s = 0) as Hu.
  { apply users_none. intros k y Hk Hy E. assert (k = j) as -> by by eapply (creator_alone s j x). congruence. }
  split; cbn [set_members set_object s_name s_next s_objects s_members].
  - intros k y [[-> ->]|[Hne Hk]]%Hcase.
    + cbn [goto m_object]. rewrite fn_lookup_insert. destruct Hx. rewrite Hc, Eu, El, Ep in *. split; cbn; rewrite ?Hc, ?Eu, ?El; try done; naive_solver.
    + pose proof (n_member _ HI k y Hk) as Hy. destruct (decide (m_object x = m_object y)) as [E|Hd]; [|by rewrite fn_lookup_insert_ne].
      assert (m_created y = false) as Ec by (apply not_true_is_false; intros E2; apply Hne; by eapply (n_creator _ HI)).
      assert (m_counted y = false) as Ey by (apply not_true_is_false; intros E2; apply Hne; by eapply (creator_alone s j x)).
      pose proof (creator_unlinks s j x HI Hj Hc Hs k y ltac:(by rewrite Ep) Hk) as Hun.
      assert (needs_ready (m_pc y) = false) as Er.
      { apply not_true_is_false. intros E2. apply Hs. rewrite E. apply (k_ready _ _ _ _ Hy); [done|by rewrite E2]. }
      rewrite E, fn_lookup_insert. destruct Hy. rewrite Ec, Ey, Er in *. split; rewrite ?Ec, ?Ey, ?Er; try done.
      * intros Hul. by destruct (Hun Hul).
      * intros r Hr. by destruct (k_never0 r Hr).
      * destruct (m_pc y); done.
      * intros i Hi. by destruct (k_slot0 i Hi).
  - apply HI.
  - intros k1 k2 y1 y2 [[-> ->]|[Hn1 H1]]%Hcase [[-> ->]|[Hn2 H2]]%Hcase; [done|..]; intros; by eapply (n_creator _ HI).
  - intros c. assert (users c (set_members (<[j := goto SLoad x]> (s_members s)) (set_object (m_object x) (construct (m_shape x) (s_objects s (m_object x))) s)) = users c s) as ->.
    { unfold users. cbn [set_members set_object s_members]. rewrite (total_update _ _ _ x) by done. rewrite !counts_uncounted by done. lia. }
    destruct (decide (m_object x = c)) as [<-|Hne]; [rewrite fn_lookup_insert; by right|rewrite fn_lookup_insert_ne by done; apply HI].
  - intros c Hlt. destruct (decide (m_object x = c)) as [<-|Hne]; [by left|]. rewrite fn_lookup_insert_ne by done.
    destruct (n_alive _ HI c Hlt) as [E|[E|[Ea Eb]]]; [by left|by right; left|right; right]. split; [done|].
    intros k y [[-> ->]|[Hk1 Hk]]%Hcase; [by cbn; intros|by apply (Eb k)].
  - intros c k y. destruct (decide (m_object x = c)) as [<-|Hne]; [by rewrite fn_lookup_insert|]. rewrite fn_lookup_insert_ne by done.
    intros Hr1 Hr [[-> ->]|[Hk1 Hk]]%Hcase; [by cbn; intros|by eapply (n_removing _ HI)].
  - intros k1 k2 y1 y2 [[-> ->]|[Hn1 H1]]%Hcase [[-> ->]|[Hn2 H2]]%Hcase; try done. by eapply (n_unlink _ HI).
  - intros c. destruct (decide (m_object x = c)) as [<-|Hne]; [by rewrite fn_lookup_insert|]. rewrite fn_lookup_insert_ne by done. apply HI.
  - intros k1 k2 y1 y2 i [[-> ->]|[Hn1 H1]]%Hcase [[-> ->]|[Hn2 H2]]%Hcase; [done|..]; cbn [goto m_slot m_object]; rewrite ?El; try done. by eapply (n_slot _ HI).
Qed.

(** Fewer processes than the count can hold. *)
Definition few (s : ssystem) : Prop := Z.of_nat (base.size (s_members s)) < kRemoving.

Lemma users_few s g : few s -> users g s < kRemoving.
Proof. unfold few. intros Hf. pose proof (total_le_size (s_members s) g) as Ht. unfold users. lia. Qed.

Lemma counted_keeps s j x : ginv s -> few s -> s_members s !! j = Some x -> m_counted x = true ->
  ob_attached (s_objects s (m_object x)) = users (m_object x) s /\ 0 < users (m_object x) s < kRemoving.
Proof.
  intros HI Hf Hj Hc. pose proof (users_pos s j x Hj Hc) as Hp. pose proof (users_few s (m_object x) Hf) as Hu.
  destruct (n_count _ HI (m_object x)) as [[_ E]|E]; [lia|]. split; [exact E|lia].
Qed.

(** The name is removed. *)
Lemma ginv_unlink s j x r :
  ginv s -> few s -> s_members s !! j = Some x -> m_pc x = SUnlink r -> ginv (set_members (<[j := goto (finish r) x]> (s_members s)) (set_name None s)).
Proof.
  intros HI Hf Hj Ep. pose proof (n_member _ HI j x Hj) as Hx. destruct (k_unlink _ _ _ _ Hx ltac:(by rewrite Ep)) as [En Hd].
  assert (m_counted x = false) as Eu by (apply (k_loose _ _ _ _ Hx); by rewrite Ep). assert (m_slot x = None) as El by (apply (k_slotless _ _ _ _ Hx); by rewrite Ep).
  assert (finished (finish r) = true) as Hfin by by destruct r.
  assert (forall k y, <[j := goto (finish r) x]> (s_members s) !! k = Some y -> k = j /\ y = goto (finish r) x \/ k <> j /\ s_members s !! k = Some y) as Hcase.
  { intros k y [[<- <-]|[Hne Hk]]%lookup_insert_Some; [by left|by right]. }
  assert (forall k y, s_members s !! k = Some y -> m_counted y = false) as Hnone.
  { intros k y Hk. apply not_true_is_false. intros Hy. pose proof (k_counted _ _ _ _ (n_member _ HI k y Hk) Hy) as E. rewrite En in E. injection E as E.
    destruct Hd as [Ha|[Hs Hc]]; [rewrite E in Ha; destruct (counted_keeps s k y HI Hf Hk Hy); lia|].
    assert (k = j) as -> by by eapply (creator_alone s j x). congruence. }
  split; cbn [set_members set_name s_name s_next s_objects s_members].
  - intros k y [[-> ->]|[Hne Hk]]%Hcase.
    + cbn [goto m_object]. destruct Hx. rewrite Eu, El, Ep in *. destruct r; split; cbn; rewrite ?Eu, ?El; try done; try (naive_solver);
        intros Hb; apply k_next0; by destruct (m_created x).
    + pose proof (n_member _ HI k y Hk) as []. rewrite (Hnone k y Hk) in *. split; rewrite ?(Hnone k y Hk); try done.
      intros Hu. exfalso. apply Hne. eapply (n_unlink _ HI); [exact Hk|exact Hj|done|by rewrite Ep|]. destruct (k_unlink0 Hu) as [E _]. congruence.
  - done.
  - intros k1 k2 y1 y2 [[-> ->]|[Hn1 H1]]%Hcase [[-> ->]|[Hn2 H2]]%Hcase; [done|..]; intros; by eapply (n_creator _ HI).
  - intros c. pose proof (n_count _ HI c) as Hcount. rewrite users_none in Hcount by (intros k y Hk Hy; rewrite (Hnone k y Hk) in Hy; done).
    rewrite users_none; [done|]. intros k y [[-> ->]|[Hne Hk]]%Hcase Hy; [cbn in Hy; congruence|]. by rewrite (Hnone k y Hk) in Hy.
  - intros c Hlt. right. destruct (n_alive _ HI c Hlt) as [E|[E|[Ea Eb]]]; [|by left|right].
    + rewrite En in E. injection E as <-. destruct Hd as [Ha|[Hs Hc]]; [by left|right]. split; [done|].
      intros k y [[-> ->]|[Hk1 Hk]]%Hcase Hy Ho; [done|]. destruct Hk1. by eapply (n_creator _ HI).
    + split; [done|]. intros k y [[-> ->]|[Hk1 Hk]]%Hcase; [done|by apply (Eb k)].
  - intros c k y Ha Hr [[-> ->]|[Hk1 Hk]]%Hcase; [intros _ _; cbn; unfold over; by rewrite Hfin|by eapply (n_removing _ HI)].
  - intros k1 k2 y1 y2 [[-> ->]|[Hn1 H1]]%Hcase [[-> ->]|[Hn2 H2]]%Hcase; [done|by destruct r..|by eapply (n_unlink _ HI)].
  - apply HI.
  - intros k1 k2 y1 y2 i [[-> ->]|[Hn1 H1]]%Hcase [[-> ->]|[Hn2 H2]]%Hcase; [done|..]; cbn [goto m_slot m_object]; rewrite ?El; try done. by eapply (n_slot _ HI).
Qed.

Lemma ginv_ready s j x : ginv s -> s_members s !! j = Some x -> m_pc x = SUse -> m_created x = true -> ginv (MarkReady x s).
Proof.
  intros HI Hj Ep Hc. unfold MarkReady. pose proof (n_member _ HI j x Hj) as Hx.
  assert (forall k y, s_members s !! k = Some y -> m_created y = true -> m_object y = m_object x -> m_pc y = SUse) as Hown.
  { intros k y Hk Hy E. assert (k = j) as -> by by eapply (n_creator _ HI). congruence. }
  split; cbn [set_object s_name s_next s_objects s_members]; try apply HI.
  - intros k y Hk. pose proof (n_member _ HI k y Hk) as Hy. destruct (decide (m_object x = m_object y)) as [E|Hd]; [|by rewrite fn_lookup_insert_ne].
    rewrite E, fn_lookup_insert. destruct Hy. specialize (Hown k y Hk). split; cbn; try done.
    + intros C1 C2. by rewrite Hown in C2 by done.
    + intros Hu. destruct (k_unlink0 Hu) as [? [?|[_ ?]]]; [split; [done|by left]|]. by rewrite Hown in Hu by done.
    + intros r Hr. destruct (k_never0 r Hr) as [Hcr _]. by rewrite Hown in Hr by done.
  - intros c. destruct (decide (m_object x = c)) as [<-|Hne]; [rewrite fn_lookup_insert|rewrite fn_lookup_insert_ne by done]; apply (n_count _ HI).
  - intros c Hlt. destruct (n_alive _ HI c Hlt) as [E|[E|[Ea Eb]]]; [by left|right; left|].
    + destruct (decide (m_object x = c)) as [<-|Hne]; [by rewrite fn_lookup_insert|by rewrite fn_lookup_insert_ne].
    + destruct (decide (m_object x = c)) as [<-|Hne]; [|right; right; by rewrite fn_lookup_insert_ne]. specialize (Eb j x Hj Hc eq_refl). by rewrite Ep in Eb.
  - intros c k y. destruct (decide (m_object x = c)) as [<-|Hne]; [by rewrite fn_lookup_insert|rewrite fn_lookup_insert_ne by done; apply HI].
  - intros c. destruct (decide (m_object x = c)) as [<-|Hne]; [rewrite fn_lookup_insert|rewrite fn_lookup_insert_ne by done; apply HI].
    intros _. exists (m_shape x). cbn. apply (k_config _ _ _ _ Hx). by rewrite Ep.
Qed.

(** ** Every step *)

Ltac member_split Hx Ep :=
  destruct Hx; rewrite Ep in *; split; cbn [goto set_counted set_slot set_bytes m_pc m_object m_created m_counted m_slot m_shape m_pid
    bound early needs_ready checked loose slotless must_count unlinking finished orb] in *;
  try done.
Ltac member_goto Hx Ep := member_split Hx Ep; try naive_solver.

(** A process is counted. *)
Lemma ginv_attach s j x e :
  ginv s -> few s -> s_members s !! j = Some x -> m_pc x = SCas e -> ob_attached (s_objects s (m_object x)) = e ->
  ginv (set_members (<[j := goto (SClaim 0) (set_counted true x)]> (s_members s))
    (set_object (m_object x) (set_attached (u32 (e + 1)) (s_objects s (m_object x))) s)).
Proof.
  intros HI Hf Hj Ep Ea. pose proof (n_member _ HI j x Hj) as Hx. pose proof (k_cas _ _ _ _ Hx e Ep) as Hne.
  assert (m_counted x = false) as Ec by (apply (k_loose _ _ _ _ Hx); by rewrite Ep).
  destruct (n_count _ HI (m_object x)) as [[? _]|Eu]; [congruence|]. rewrite Ea in Eu.
  set (x' := goto (SClaim 0) (set_counted true x)).
  assert (counts (m_object x) x' = 1) as Ex' by (apply (counts_self x'); done). pose proof (counts_uncounted (m_object x) x Ec) as Ex.
  assert (users (m_object x) s + 1 < kRemoving) as Hb.
  { pose proof (total_le_size (<[j := x']> (s_members s)) (m_object x)) as Ht. rewrite (total_update _ _ _ x) in Ht by done.
    rewrite map_size_insert_Some in Ht by (by rewrite Hj). unfold few in Hf. unfold users. lia. }
  assert (0 <= users (m_object x) s) by (apply total_nonneg, counts_nonneg).
  assert (u32 (e + 1) = e + 1) as E32 by (apply u32_small; unfold is_u32, u32_mod, kRemoving in *; lia).
  assert (s_name s = Some (m_object x)) as En.
  { destruct (n_alive _ HI (m_object x)) as [E|[E|[E1 E2]]]; [apply (k_next _ _ _ _ Hx); by rewrite Ep|done|congruence|].
    destruct (m_created x) eqn:Hc; [specialize (E2 j x Hj Hc eq_refl); by rewrite Ep in E2|]. destruct E1. apply (k_ready _ _ _ _ Hx); [done|by rewrite Ep]. }
  apply ginv_move; rewrite ?Ep; try done.
  - unfold x'. member_goto Hx Ep.
  - right. cbn [set_attached ob_attached]. rewrite E32, Ex, Ex'. lia.
  - rewrite Ea. congruence.
  - cbn [set_attached ob_attached]. rewrite E32. lia.
  - by left.
Qed.

(** [fetch_sub] of the destructor. *)
Lemma ginv_sub s j a x r never_ready x' s' :
  ginv s -> few s -> s_members s !! j = Some x -> m_pc x = SSub r never_ready -> sstep a x s = Some (x', s') -> ginv (set_members (<[j := x']> (s_members s)) s').
Proof.
  intros HI Hf Hj Ep Hs. pose proof (n_member _ HI j x Hj) as Hx. unfold sstep, destroy_segment in Hs. rewrite Ep in Hs.
  assert (never_ready = true -> m_created x = true /\ ob_state (s_objects s (m_object x)) <> kReady) as Hnr by (intros ->; by apply (k_never _ _ _ _ Hx r)).
  assert (never_ready = true -> s_name s = Some (m_object x) /\
    forall k y, k <> j -> s_members s !! k = Some y -> unlinking (m_pc y) = true -> m_object y <> m_object x) as Halone.
  { intros En. destruct (Hnr En) as [Hc Hr]. split; [apply (creator_keeps s j x); try done; by rewrite Ep|].
    intros k y _ Hk. eapply (creator_unlinks s j x); try done. by rewrite Ep. }
  assert (m_slot x = None) as El by (apply (k_slotless _ _ _ _ Hx); by rewrite Ep).
  destruct (m_counted x) eqn:Ec.
  - destruct (counted_keeps s j x HI Hf Hj Ec) as [Ea Hu]. injection Hs as <- <-. set (t := if _ && _ then _ else _).
    assert (counts (m_object x) (goto t (set_counted false x)) = 0) as E0 by by apply counts_uncounted. pose proof (counts_self x Ec) as E1.
    assert (u32 (ob_attached (s_objects s (m_object x)) - 1) = users (m_object x) s - 1) as E32
      by (rewrite Ea; apply u32_small; unfold is_u32, u32_mod, kRemoving in *; lia).
    assert (t = SRemove r \/ t = SUnlink r /\ never_ready = true \/ t = finish r) as Ht.
    { unfold t. destruct (_ && _); [by left|]. destruct never_ready; [by right; left|by right; right]. }
    clearbody t. apply ginv_move; rewrite ?Ep; try done.
    + pose proof (fun En => proj1 (Halone En)) as Hname. destruct Ht as [->|[[-> Htrue]| ->]]; [member_goto Hx Ep..|destruct r; member_goto Hx Ep].
    + right. cbn [set_attached ob_attached]. rewrite E32, E0, E1. lia.
    + rewrite Ea. lia.
    + cbn [set_attached ob_attached]. rewrite E32. lia.
    + destruct Ht as [->|[[-> Htrue]| ->]]; [done|intros _; by apply Halone|by destruct r].
    + by left.
  - injection Hs as <- <-. apply ginv_quiet with (x := x); rewrite ?Ep; try done.
    + destruct never_ready; [destruct (Hnr eq_refl), (Halone eq_refl); member_goto Hx Ep|]. destruct r; member_goto Hx Ep.
    + destruct never_ready; [intros _; by apply Halone|by destruct r].
Qed.

(** The count goes from 0 to the marker. *)
Lemma ginv_remove s j x r :
  ginv s -> s_members s !! j = Some x -> m_pc x = SRemove r -> ob_attached (s_objects s (m_object x)) = 0 ->
  ginv (set_members (<[j := goto (SUnlink r) x]> (s_members s)) (set_object (m_object x) (set_attached kRemoving (s_objects s (m_object x))) s)).
Proof.
  intros HI Hj Ep Ea. pose proof (n_member _ HI j x Hj) as Hx.
  assert (m_counted x = false) as Ec by (apply (k_loose _ _ _ _ Hx); by rewrite Ep).
  assert (users (m_object x) s = 0) as Eu by (destruct (n_count _ HI (m_object x)) as [[? ?]|?]; congruence).
  assert (ob_state (s_objects s (m_object x)) = kReady \/ m_created x = true) as Hr.
  { destruct (m_created x) eqn:Hc; [by right|left]. apply (k_ready _ _ _ _ Hx); [done|by rewrite Ep]. }
  assert (s_name s = Some (m_object x)) as En.
  { destruct (n_alive _ HI (m_object x)) as [E|[E|[E1 E2]]]; [apply (k_next _ _ _ _ Hx); by rewrite Ep|done|by rewrite Ea in E|].
    destruct Hr as [Hr|Hr]; [done|]. specialize (E2 j x Hj Hr eq_refl). by rewrite Ep in E2. }
  apply ginv_move; rewrite ?Ep; try done.
  - member_goto Hx Ep.
  - left. split; [done|]. rewrite Eu, !counts_uncounted by done. lia.
  - intros _. destruct Hr as [Hr|Hr]; [by right; left|by right; right].
  - intros _ k y Hne Hk Hu E. destruct (k_unlink _ _ _ _ (n_member _ HI k y Hk) Hu) as [_ [E2|[E2 E3]]]; rewrite E in *; [by rewrite Ea in E2|].
    destruct Hr as [Hr|Hr]; [done|]. apply Hne. by eapply (n_creator _ HI).
  - by left.
Qed.

Lemma ginv_thread s j a x x' s' :
  ginv s -> few s -> s_members s !! j = Some x -> sstep a x s = Some (x', s') -> ginv (set_members (<[j := x']> (s_members s)) s').
Proof.
  intros HI Hf Hj Hs. pose proof (n_member _ HI j x Hj) as Hx. pose proof (ginv_sub s j a x) as Hsub. specialize (fun r b => Hsub r b x' s' HI Hf Hj) as Hsub.
  pose proof Hs as Hstep. unfold sstep, ClaimProcessSlot, destroy_segment in Hs. pose proof (fun t => ginv_quiet s j x (goto t x) HI Hj eq_refl eq_refl eq_refl eq_refl) as Hquiet.
  destruct (m_pc x) as [| | | | | | | | |e|i| |r|r|r nr|r|r| |r|] eqn:Ep; try discriminate Hs.
  - (* SOpen *)
    destruct (m_mode x).
    + destruct (negb _); [simplify_eq; apply Hquiet; try done; member_goto Hx Ep|]. destruct (s_name s) eqn:En.
      * simplify_eq. apply Hquiet; try done; member_goto Hx Ep.
      * pose proof (ginv_create s j x HI Hj En) as Hc. injection Hs as <- <-. exact Hc.
    + destruct (negb _); [simplify_eq; apply Hquiet; try done; member_goto Hx Ep|]. destruct (s_name s) eqn:En.
      * simplify_eq. apply Hquiet; try done; member_goto Hx Ep.
      * pose proof (ginv_create s j x HI Hj En) as Hc. injection Hs as <- <-. exact Hc.
    + simplify_eq. apply Hquiet; try done; member_goto Hx Ep.
  - (* SOpenExisting *)
    destruct (negb _); [simplify_eq; apply Hquiet; try done; member_goto Hx Ep|]. destruct (s_name s) as [g|] eqn:En.
    + simplify_eq. apply ginv_blank; try done; [by apply (k_pid _ _ _ _ Hx)|intros _; by apply (n_name _ HI)|].
      intros x0 Hx0. simplify_eq. apply (k_loose _ _ _ _ Hx). by rewrite Ep.
    + simplify_eq. apply Hquiet; try done; member_goto Hx Ep.
  - (* SSize *)
    assert (m_created x = true) as Hc by (apply (k_creator _ _ _ _ Hx); by left).
    assert (ob_state (s_objects s (m_object x)) <> kReady) as Hr by (by rewrite (k_early _ _ _ _ Hx) by (rewrite ?Ep; done)).
    destruct (creator_keeps s j x HI Hj Hc Hr ltac:(by rewrite Ep)) as [_ En].
    destruct (negb _); simplify_eq.
    + apply Hquiet; try done; [member_goto Hx Ep|]. intros _ k y _ Hk Hu. eapply creator_unlinks; try done. by rewrite Ep.
    + apply ginv_move; try done; rewrite ?Ep; try done; [member_goto Hx Ep| |by left|by left].
      rewrite Z.sub_add. apply HI.
  - (* SWaitSize *)
    destruct (negb _); [simplify_eq; apply Hquiet; try done; member_goto Hx Ep|]. destruct (_ <? _).
    + destruct (a_late a); simplify_eq; [apply Hquiet; try done; member_goto Hx Ep|]. apply (ginv_quiet s' j x' x'); try done. by rewrite Ep.
    + simplify_eq. apply (ginv_quiet s' j x); rewrite ?Ep; try done. member_goto Hx Ep.
  - (* SMap *)
    destruct (m_created x) eqn:Hc.
    + assert (ob_state (s_objects s (m_object x)) <> kReady) as Hr by (by rewrite (k_early _ _ _ _ Hx) by (rewrite ?Ep; done)).
      destruct (creator_keeps s j x HI Hj Hc Hr ltac:(by rewrite Ep)) as [_ En].
      destruct (negb _); simplify_eq; (apply Hquiet; try done; [member_goto Hx Ep|..]); try done.
      intros _ k y _ Hk Hu. eapply creator_unlinks; try done. by rewrite Ep.
    + destruct (negb _); simplify_eq; apply Hquiet; try done; member_goto Hx Ep.
  - (* SInit *) simplify_eq. by apply ginv_init.
  - (* SWaitReady *)
    destruct (Z.eqb_spec (ob_state (s_objects s (m_object x))) kReady); [simplify_eq; apply Hquiet; try done; member_goto Hx Ep|].
    destruct (a_late a); simplify_eq; [apply Hquiet; try done; member_goto Hx Ep|]. apply (ginv_quiet s' j x' x'); try done. by rewrite Ep.
  - (* SCheck *)
    destruct (known_layout _) eqn:Hl; cbn [negb] in Hs; [|simplify_eq; apply Hquiet; try done; member_goto Hx Ep].
    destruct (same_shape _ _ _) eqn:Hsh; cbn [negb] in Hs; [|simplify_eq; apply Hquiet; try done; member_goto Hx Ep].
    simplify_eq. assert (m_created x = false) as Hc by (apply (k_attacher _ _ _ _ Hx); by right; right).
    destruct (n_config _ HI (m_object x)) as [shape Hcf]; [apply (k_ready _ _ _ _ Hx); [done|by rewrite Ep]|].
    rewrite Hcf in Hl, Hsh. pose proof (same_shape_config _ _ _ Hl Hsh) as E. rewrite <- Hcf in E. apply Hquiet; try done; member_goto Hx Ep.
  - (* SLoad *)
    destruct (Z.eqb_spec (ob_attached (s_objects s (m_object x))) kRemoving); simplify_eq; apply Hquiet; try done; member_goto Hx Ep.
  - (* SCas *)
    destruct (Z.eqb_spec (ob_attached (s_objects s (m_object x))) e) as [Ea|]; [|simplify_eq; apply Hquiet; try done; member_goto Hx Ep].
    injection Hs as <- <-. by eapply ginv_attach.
  - (* SClaim *)
    destruct (ob_slots (s_objects s (m_object x)) !! i) as [[pid st]|] eqn:Hi; [|simplify_eq; apply Hquiet; try done; member_goto Hx Ep].
    destruct (Z.eqb_spec pid 0) as [->|]; [|simplify_eq; apply Hquiet; try done; member_goto Hx Ep]. simplify_eq.
    pose proof (lookup_lt_Some _ _ _ Hi) as Hlt. apply ginv_move; rewrite ?Ep; try done.
    + pose proof (k_must _ _ _ _ Hx ltac:(by rewrite Ep)) as Hcn. member_split Hx Ep; try (by intros [?|[?|?]]); try (by intros [?|?]).
      intros i' [= <-]. split; [done|]. exists (a_start_time a). by apply list_lookup_insert_eq.
    + change (counts (m_object x) (goto SUse (set_slot (Some i) x))) with (counts (m_object x) x). rewrite Z.sub_add. apply HI.
    + by left.
    + intros i' p Hp Hne _. cbn. rewrite list_lookup_insert_ne; [done|]. intros <-. rewrite Hi in Hp. by injection Hp as <-.
    + intros i' [= <-]. right. by exists st.
  - (* SDestroy *)
    destruct (m_slot x) as [i|] eqn:El; simplify_eq; [|apply Hquiet; try done; member_goto Hx Ep].
    apply ginv_move; rewrite ?Ep; try done.
    + member_goto Hx Ep.
    + change (counts (m_object x) (goto (SState r) (set_slot None x))) with (counts (m_object x) x). rewrite Z.sub_add. apply HI.
    + by left.
    + intros i' p Hp _ Hne. cbn. rewrite list_lookup_alter_ne; [done|]. congruence.
  - (* SState *)
    simplify_eq. apply Hquiet; try done. destruct (m_created x) eqn:Hc; cbn [andb]; [destruct (Z.eqb_spec (ob_state (s_objects s' (m_object x))) kReady)|]; member_goto Hx Ep.
  - (* SSub *) by eapply Hsub.
  - (* SRemove *)
    destruct (Z.eqb_spec (ob_attached (s_objects s (m_object x))) 0) as [Ea|]; [|simplify_eq; apply Hquiet; try done; try (by destruct r); destruct r; member_goto Hx Ep].
    injection Hs as <- <-. by apply ginv_remove.
  - (* SUnlink *) simplify_eq. by apply ginv_unlink.
  - (* SRetry *)
    destruct (a_late a); simplify_eq; [apply Hquiet; try done; member_goto Hx Ep|].
    apply ginv_blank; try done; [by apply (k_pid _ _ _ _ Hx)|]. intros x0 Hx0. simplify_eq. apply (k_loose _ _ _ _ Hx). by rewrite Ep.
Qed.

Lemma ginv_step s s' : ginv s -> few s -> seg_step false s s' -> ginv s'.
Proof.
  intros HI Hf Hs. destruct Hs as [s j mode shape remove pid Hj Hp|s j a x x' s' Hj Hs|s j x Hj Ep Hc|s j x Hj Ep|s j x Hj|s e He]; [..|done].
  - apply ginv_blank; try done. intros x. by rewrite Hj.
  - by eapply ginv_thread.
  - by eapply ginv_ready.
  - pose proof (n_member _ HI j x Hj) as Hx. apply (ginv_quiet s j x); rewrite ?Ep; try done. member_goto Hx Ep.
  - pose proof (n_member _ HI j x Hj) as Hx. apply (ginv_quiet s j x); try done. destruct Hx.
    split; cbn [goto m_pc m_object m_created m_counted m_slot m_shape m_pid bound early needs_ready checked loose slotless must_count unlinking orb] in *; try done; try (by intros [?|[?|?]]); try (by intros [?|?]).
    + intros Hb. apply k_next0. destruct (m_created x), (m_counted x); try done; by rewrite ?orb_true_r.
    + intros Hc Hn. apply k_ready0; [done|]. by rewrite Hn, orb_true_r.
    + intros Hn. apply k_config0. by rewrite Hn, orb_true_r.
Qed.

Lemma seg_members_grow s s' : seg_step false s s' -> (base.size (s_members s) <= base.size (s_members s'))%nat.
Proof.
  assert (forall j x (m : gmap nat member), (base.size m <= base.size (<[j := x]> m))%nat) as Hm.
  { intros j x m. destruct (m !! j) eqn:E; [rewrite map_size_insert_Some by done; lia|rewrite map_size_insert_None by done; lia]. }
  intros Hs. destruct Hs; cbn [set_members MarkReady set_object s_members]; try apply Hm; done.
Qed.

Lemma ginv_reachable s : rtc (seg_step false) seg_empty s -> few s -> ginv s.
Proof.
  assert (ginv seg_empty) as H0 by (split; try done; [intros c; by right|intros c Hc; cbn in Hc; lia]).
  intros Hr Hf. revert H0. induction Hr as [s0|s0 s1 s2 Hs Hr IH]; intros HI; [done|]. apply IH; [done|]. eapply ginv_step; [done| |exact Hs].
  apply seg_members_grow in Hs. assert (base.size (s_members s1) <= base.size (s_members s2))%nat as Hle.
  { clear -Hr. induction Hr as [|y1 y2 y3 Hs1 _ IH]; [done|]. etrans; [by apply seg_members_grow|done]. }
  unfold few in *. lia.
Qed.

(** C14 — Processes that have a cache open under one name share it: however they open,
    initialize, leave, fail and die, all of them use the segment the name refers
    to, every one that did not create it finds it initialized, their
    configurations agree with its header, and no two have the same process slot. *)
Theorem segment_shared s :
  rtc (seg_step false) seg_empty s -> Z.of_nat (base.size (s_members s)) < kRemoving ->
  forall j x, s_members s !! j = Some x -> m_pc x = SUse ->
    let o := s_objects s (m_object x) in
    s_name s = Some (m_object x) /\ ob_config o = config_of (m_shape x) /\ (m_created x = false -> ob_state o = kReady) /\
    exists i st, m_slot x = Some i /\ ob_slots o !! i = Some (m_pid x, st) /\
      forall k y, s_members s !! k = Some y -> m_pc y = SUse -> m_object y = m_object x /\ config_of (m_shape y) = config_of (m_shape x) /\ (m_slot y = Some i -> k = j).
Proof.
  intros Hr Hf j x Hj Ep. pose proof (ginv_reachable s Hr Hf) as HI. cbn zeta.
  assert (forall k y, s_members s !! k = Some y -> m_pc y = SUse -> m_counted y = true /\ s_name s = Some (m_object y) /\ ob_config (s_objects s (m_object y)) = config_of (m_shape y)) as Huse.
  { intros k y Hk Ey. pose proof (n_member _ HI k y Hk) as Hy. assert (m_counted y = true) as Hc by (apply (k_must _ _ _ _ Hy); by rewrite Ey).
    split; [done|]. split; [by apply (k_counted _ _ _ _ Hy)|]. apply (k_config _ _ _ _ Hy). by rewrite Ey. }
  destruct (Huse j x Hj Ep) as (Hc & Hn & Hcf). pose proof (n_member _ HI j x Hj) as Hx.
  split; [done|]. split; [done|]. split; [intros Hcr; apply (k_ready _ _ _ _ Hx); [done|by rewrite Ep]|].
  destruct (k_use _ _ _ _ Hx Ep) as [i Hi]. destruct (k_slot _ _ _ _ Hx i Hi) as (_ & st & Hst). exists i, st. split; [done|]. split; [done|].
  intros k y Hk Ey. destruct (Huse k y Hk Ey) as (_ & Hny & Hcy). assert (m_object y = m_object x) as E by congruence.
  split; [done|]. split; [congruence|]. intros Hiy. by eapply (n_slot _ HI).
Qed.
