(* ===== verification/SegmentRun.v ===== *)
(** Runs of the cross-process segment: a process that attaches while another
    initializes, and a name removed by hand while its segment is in use. *)
From stdpp Require Import strings.
From S2P Require Import Prelude Status Segment SegmentSafety.

(** ** Schedules *)

Inductive gaction :=
  | ActStart (j : nat) (mode : SharedMemoryMode) (shape : Shape) (remove : bool) (pid : Z)
  | ActMember (j : nat) (a : answer)
  | ActReady (j : nat)
  | ActLeave (j : nat)
  | ActDie (j : nat)
  | ActRemove.

Section Schedules.
Context (removes : bool).

Definition gact (s : ssystem) (a : gaction) : ssystem :=
  match a with
  | ActStart j mode shape remove pid =>
      match s_members s !! j with
      | None => if pid =? 0 then s else set_members (<[j := Member mode shape remove pid 0 0 false false None SOpen]> (s_members s)) s
      | Some _ => s
      end
  | ActMember j a =>
      match x ← s_members s !! j; sstep a x s with
      | Some (x', s') => set_members (<[j := x']> (s_members s)) s'
      | None => s
      end
  | ActReady j =>
      match s_members s !! j with
      | Some x => match m_pc x with SUse => if m_created x then MarkReady x s else s | _ => s end
      | None => s
      end
  | ActLeave j =>
      match s_members s !! j with
      | Some x => match m_pc x with SUse => set_members (<[j := goto (SDestroy (Some (Ok tt))) x]> (s_members s)) s | _ => s end
      | None => s
      end
  | ActDie j => match s_members s !! j with Some x => set_members (<[j := goto SDead x]> (s_members s)) s | None => s end
  | ActRemove => if removes then (Remove 0 s).2 else s
  end.

Lemma gact_step s a : gact s a = s \/ seg_step removes s (gact s a).
Proof.
  destruct a as [j mode shape remove pid|j a|j|j|j|]; cbn [gact].
  - destruct (s_members s !! j) eqn:Hj; [by left|]. destruct (Z.eqb_spec pid 0); [by left|]. right. by apply seg_start.
  - destruct (s_members s !! j) as [x|] eqn:Hj; [|by left]. cbn [mbind option_bind]. destruct (sstep a x s) as [[x' s']|] eqn:Hs; [|by left]. right. by eapply seg_thread.
  - destruct (s_members s !! j) as [x|] eqn:Hj; [|by left]. destruct (m_pc x) eqn:Ep; try by left. destruct (m_created x) eqn:Ec; [|by left]. right. by eapply seg_ready.
  - destruct (s_members s !! j) as [x|] eqn:Hj; [|by left]. destruct (m_pc x) eqn:Ep; try by left. right. by apply seg_leave.
  - destruct (s_members s !! j) as [x|] eqn:Hj; [|by left]. right. by apply seg_die.
  - destruct removes eqn:Er; [|by left]. right. by apply seg_remove.
Qed.

Lemma gacts_steps s l : rtc (seg_step removes) s (foldl gact s l).
Proof.
  revert s. induction l as [|a l IH]; intros s; [done|]. cbn [foldl]. etrans; [|apply IH]. destruct (gact_step s a) as [->|Hs]; [done|by apply rtc_once].
Qed.
End Schedules.

Definition small_shape : Shape := MkShape 4096 16 4 512 "lru" 131072.
(** [n] steps of process [j], every call of the system succeeding. *)
Definition goes (j n : nat) : list gaction := repeat (ActMember j (Answer 0 false 7)) n.
Definition joins (j : nat) (pid : Z) : list gaction := ActStart j kCreateOrAttach small_shape true pid :: goes j 3.

(** Process 1 opens the segment that 0 is still initializing; process 2 creates a
    new one after both have left. *)
Definition shared_run : list gaction := joins 0 100 ++ joins 1 200 ++ goes 0 6 ++ goes 1 2 ++ [ActReady 0] ++ goes 1 12.
Definition left_run : list gaction := shared_run ++ [ActLeave 0; ActLeave 1] ++ goes 0 3 ++ goes 1 6 ++ joins 2 300 ++ goes 2 6.

Lemma segment_shared_witness :
  let s := foldl (gact false) seg_empty shared_run in
  let s' := foldl (gact false) seg_empty left_run in
  s_name s = Some 0%nat /\ (m_created <$> s_members s !! 1%nat) = Some false /\ ob_state (s_objects s 0%nat) = kReady /\ s_name s' = Some 1%nat /\
  (m_pc <$> s_members s' !! 1%nat) = Some (SDone (Ok tt)).
Proof.
  cbn zeta. pose proof (segment_shared _ (gacts_steps false seg_empty shared_run) ltac:(vm_compute; reflexivity) 1%nat) as H1.
  pose proof (segment_shared _ (gacts_steps false seg_empty left_run) ltac:(vm_compute; reflexivity) 2%nat) as H2.
  destruct (H1 (Member kCreateOrAttach small_shape true 200 0 (total_bytes small_shape) false true (Some 1%nat) SUse)) as (N1 & _ & R1 & _);
    [vm_compute; reflexivity|reflexivity|].
  destruct (H2 (Member kCreateOrAttach small_shape true 300 1 (total_bytes small_shape) true true (Some 0%nat) SUse)) as (N2 & _);
    [vm_compute; reflexivity|reflexivity|].
  split; [exact N1|]. split; [vm_compute; reflexivity|]. split; [exact (R1 eq_refl)|]. split; [exact N2|vm_compute; reflexivity].
Defined.

(** ** [Remove] while a segment is in use *)

(** The name of segment 0 is removed by hand; process 1 creates segment 1 under it;
    process 0, the last user of segment 0, leaves; process 2 opens the name. *)
Definition removed_run : list gaction :=
  joins 0 100 ++ goes 0 6 ++ [ActReady 0; ActRemove] ++ joins 1 200 ++ goes 1 6 ++ [ActReady 1; ActLeave 0] ++ goes 0 6 ++ joins 2 300 ++ goes 2 6.

(** The last user of a segment whose name was removed by hand removes the name of
    the segment that was created since: two processes then use different segments
    under one name, although no one removed theirs. *)
Lemma segment_wrong_name :
  exists s x y, rtc (seg_step true) seg_empty s /\ s_members s !! 1%nat = Some x /\ s_members s !! 2%nat = Some y /\
    m_pc x = SUse /\ m_pc y = SUse /\ m_object x = 1%nat /\ m_object y = 2%nat.
Proof.
  exists (foldl (gact true) seg_empty removed_run), (Member kCreateOrAttach small_shape true 200 1 (total_bytes small_shape) true true (Some 0%nat) SUse),
    (Member kCreateOrAttach small_shape true 300 2 (total_bytes small_shape) true true (Some 0%nat) SUse).
  split; [apply gacts_steps|]. split; [vm_compute; reflexivity|]. split; [vm_compute; reflexivity|]. done.
Qed.
