(* ===== verification/WrittenFiles.v ===== *)
(** Files written since their last sync: [RecordWrittenFile], [NoteWrittenFile],
    [SyncWrittenFiles] and [SyncFiles] of [lib/buffer/buffer_manager_lifecycle.cc],
    [SyncFile] of [lib/buffer/buffer_manager.cc] and the table
    [SharedWrittenFiles] of [lib/buffer/shared_segment.h], under any interleaving
    of threads of any number of processes, each of which may die.

    Each section under a latch is one step.  [w_written] counts the writes to a file
    that have completed, [w_durable] how many of them a sync has covered: those that
    had completed when it was submitted.  A process dies between two sections: what
    its list and its threads held stays with it. *)
From stdpp Require Import strings.
From S2P Require Import Prelude Status.

Definition kCapacity : nat := 1024.

Inductive wpc :=
  | WWrite (file : Z)                       (* a writeback whose bytes are about to be stored *)
  | WRecord (file : Z)                      (* the end of [FinalizeFlushTask] *)
  | WSwap                                   (* [SyncWrittenFiles] *)
  | WDrain (files : list Z)
  | WErase (file : Z)                       (* [SyncFile] *)
  | WEraseShared (file : Z)
  | WSync (files : list Z)                  (* [SyncFiles] *)
  | WWait (files : list Z) (covers : Z -> nat)
  | WNote (files : list Z) (r : Status)
  | WNoteLocal (file : Z) (files : list Z) (r : Status)
  | WDone (r : Status).

(** [w_cross]: the manager is attached to a segment, whose table is [w_shared];
    [w_local p] is [written_files_] of process [p]. *)
Record wsystem := WSystem {
  w_cross : bool;
  w_shared : list Z;
  w_local : nat -> list Z;
  w_written : Z -> nat;
  w_durable : Z -> nat;
  w_dead : nat -> bool;
  w_threads : gmap nat (nat * wpc)
}.
Definition set_shared (l : list Z) (s : wsystem) : wsystem :=
  WSystem (w_cross s) l (w_local s) (w_written s) (w_durable s) (w_dead s) (w_threads s).
Definition set_local (p : nat) (l : list Z) (s : wsystem) : wsystem :=
  WSystem (w_cross s) (w_shared s) (<[p := l]> (w_local s)) (w_written s) (w_durable s) (w_dead s) (w_threads s).
Definition set_written (f : Z -> nat) (s : wsystem) : wsystem :=
  WSystem (w_cross s) (w_shared s) (w_local s) f (w_durable s) (w_dead s) (w_threads s).
Definition set_durable (f : Z -> nat) (s : wsystem) : wsystem :=
  WSystem (w_cross s) (w_shared s) (w_local s) (w_written s) f (w_dead s) (w_threads s).
Definition set_dead (p : nat) (s : wsystem) : wsystem :=
  WSystem (w_cross s) (w_shared s) (w_local s) (w_written s) (w_durable s) (<[p := true]> (w_dead s)) (w_threads s).
Definition set_threads (m : gmap nat (nat * wpc)) (s : wsystem) : wsystem :=
  WSystem (w_cross s) (w_shared s) (w_local s) (w_written s) (w_durable s) (w_dead s) m.

(** ** The lists *)

Definition push_new (f : Z) (l : list Z) : list Z := if bool_decide (f ∈ l) then l else l ++ [f].

Definition NoteLocalWrittenFile (p : nat) (f : Z) (s : wsystem) : wsystem := set_local p (push_new f (w_local s p)) s.

(** [false] when the shared table is full. *)
Definition RecordWrittenFile (p : nat) (f : Z) (s : wsystem) : bool * wsystem :=
  if negb (w_cross s) then (true, NoteLocalWrittenFile p f s)
  else if bool_decide (f ∈ w_shared s) then (true, s)
  else if bool_decide (length (w_shared s) = kCapacity) then (false, s)
  else (true, set_shared (w_shared s ++ [f]) s).

(** The second half of [SyncWrittenFiles]: the files of the table that are not in the
    local list yet. *)
Definition add_files (l files : list Z) : list Z := foldl (fun files f => push_new f files) files l.

(** ** Threads *)

(** [synced] says which requests the disk completes without an error, [error] what the
    others report. *)
Definition wstep (p : nat) (t : wpc) (synced : Z -> bool) (error : Error) (s : wsystem) : option (wpc * wsystem) :=
  match t with
  | WWrite f => Some (WRecord f, set_written (<[f := S (w_written s f)]> (w_written s)) s)
  | WRecord f => let '(ok, s) := RecordWrittenFile p f s in Some (if ok then WDone (Ok tt) else WSync [f], s)
  | WSwap => Some (WDrain (w_local s p), set_local p [] s)
  | WDrain files => if w_cross s then Some (WSync (add_files (w_shared s) files), set_shared [] s) else Some (WSync files, s)
  | WErase f => Some (WEraseShared f, set_local p (without f (w_local s p)) s)
  | WEraseShared f => Some (WSync [f], if w_cross s then set_shared (without f (w_shared s)) s else s)
  | WSync [] => Some (WDone (Ok tt), s)
  | WSync files => Some (WWait files (w_written s), s)
  | WWait files covers =>
      let s := set_durable (fun f => if bool_decide (f ∈ files) && synced f then (w_durable s f `max` covers f)%nat else w_durable s f) s in
      Some (if forallb synced files then WDone (Ok tt) else WNote files (Err error), s)
  | WNote [] r => Some (WDone r, s)
  | WNote (f :: files) r => let '(ok, s) := RecordWrittenFile p f s in Some (if ok then WNote files r else WNoteLocal f files r, s)
  | WNoteLocal f files r => Some (WNote files r, NoteLocalWrittenFile p f s)
  | WDone _ => None
  end.

(** Where a call begins. *)
Definition begins (t : wpc) : bool := match t with WWrite _ | WSwap | WErase _ => true | _ => false end.

Inductive written_step : wsystem -> wsystem -> Prop :=
  | written_thread s j p t synced error t' s' :
      w_threads s !! j = Some (p, t) -> w_dead s p = false -> wstep p t synced error s = Some (t', s') ->
      written_step s (set_threads (<[j := (p, t')]> (w_threads s)) s')
  | written_call s j p t :
      w_threads s !! j = None -> w_dead s p = false -> begins t = true -> written_step s (set_threads (<[j := (p, t)]> (w_threads s)) s)
  | written_die s p : written_step s (set_dead p s).

Definition written_start (cross : bool) : wsystem :=
  WSystem cross [] (fun _ => []) (fun _ => 0%nat) (fun _ => 0%nat) (fun _ => false) ∅.

(** ** Nothing is forgotten *)

(** A thread at [t] will still sync file [f] or put it back into a list; a sync that
    was submitted counts if it covers the last write. *)
Definition in_hand (f : Z) (last : nat) (t : wpc) : Prop :=
  match t with
  | WRecord f' | WEraseShared f' => f = f'
  | WDrain files | WSync files | WNote files _ => f ∈ files
  | WNoteLocal f' files _ => f = f' \/ f ∈ files
  | WWait files covers => f ∈ files /\ covers f = last
  | _ => False
  end.

Definition kept (s : wsystem) (f : Z) : Prop :=
  f ∈ w_shared s \/ (exists p, f ∈ w_local s p) \/ exists j p t, w_threads s !! j = Some (p, t) /\ in_hand f (w_written s f) t.

(** Process [p] has the file in its list, or a thread of it has it in hand. *)
Definition held_by (s : wsystem) (p : nat) (f : Z) : Prop :=
  f ∈ w_local s p \/ exists j t, w_threads s !! j = Some (p, t) /\ in_hand f (w_written s f) t.

Lemma kept_held s f : kept s f -> f ∈ w_shared s \/ exists p, held_by s p f.
Proof. intros [?|[[p ?]|(j & p & t & ? & ?)]]; [by left|right; exists p; by left|right; exists p; right; by exists j, t]. Qed.

Record winv (s : wsystem) : Prop := {
  wi_kept f : (w_durable s f < w_written s f)%nat -> kept s f;
  wi_covers j p files covers f : w_threads s !! j = Some (p, WWait files covers) -> (covers f <= w_written s f)%nat;
  wi_bound f : (w_durable s f <= w_written s f)%nat;
  wi_capacity : (length (w_shared s) <= kCapacity)%nat;
  wi_private : w_cross s = false -> w_shared s = []
}.

Lemma elem_of_push_new f g l : g ∈ push_new f l <-> g = f \/ g ∈ l.
Proof. unfold push_new. case_bool_decide; [naive_solver|]. rewrite elem_of_app, list_elem_of_singleton. naive_solver. Qed.

Lemma elem_of_add_files l files g : g ∈ add_files l files <-> g ∈ l \/ g ∈ files.
Proof.
  unfold add_files. revert files. induction l as [|f l IH]; intros files; cbn [foldl]; [rewrite elem_of_nil; naive_solver|].
  rewrite IH, elem_of_push_new, elem_of_cons. naive_solver.
Qed.

(** Thread [j] goes from [t] to [t']. *)
Lemma winv_move s j p t t' s' :
  winv s -> w_threads s !! j = Some (p, t) -> w_threads s' = w_threads s ->
  (forall f, f ∈ w_shared s -> f ∈ w_shared s' \/ in_hand f (w_written s' f) t') ->
  (forall q f, f ∈ w_local s q -> f ∈ w_local s' q \/ in_hand f (w_written s' f) t') ->
  (forall f, in_hand f (w_written s f) t -> in_hand f (w_written s' f) t' \/ f ∈ w_shared s' \/ (exists q, f ∈ w_local s' q) \/ w_durable s' f = w_written s' f) ->
  (forall f, w_written s' f = w_written s f \/ in_hand f (w_written s' f) t') ->
  (forall f, w_durable s f <= w_durable s' f <= w_written s' f)%nat ->
  (forall f, w_written s f <= w_written s' f)%nat ->
  (forall files covers f, t' = WWait files covers -> covers f <= w_written s' f)%nat ->
  (length (w_shared s') <= kCapacity)%nat -> (w_cross s' = false -> w_shared s' = []) ->
  winv (set_threads (<[j := (p, t')]> (w_threads s')) s').
Proof.
  intros [I1 I2 I3 I4 I5] Hj Et C1 C2 C3 C4 C5 C6 C7 C8 C9. rewrite Et. split; cbn [set_threads w_cross w_shared w_local w_written w_durable w_threads].
  - intros f Hlt. assert (in_hand f (w_written s' f) t' -> kept (set_threads (<[j := (p, t')]> (w_threads s)) s') f) as Hnew.
    { intros Hh. right. right. exists j, p, t'. split; [apply lookup_insert_eq|exact Hh]. }
    destruct (C4 f) as [Ew|Hh]; [|by apply Hnew]. specialize (C5 f) as C5f. destruct (I1 f) as [Hs|[(q & Hq)|(k & q & u & Hk & Hh)]]; [lia|..].
    + destruct (C1 f Hs); [by left|by apply Hnew].
    + destruct (C2 q f Hq); [right; left; by exists q|by apply Hnew].
    + destruct (decide (k = j)) as [->|Hne].
      * rewrite Hj in Hk. injection Hk as <- <-. destruct (C3 f Hh) as [?|[?|[?|?]]]; [by apply Hnew|by left|by right; left|lia].
      * right. right. exists k, q, u. cbn [set_threads w_threads w_written]. rewrite lookup_insert_ne, Ew by done. done.
  - intros k q files covers f [[<- [= <- ->]]|[Hne Hk]]%lookup_insert_Some; [by eapply C7|]. etrans; [by eapply I2|apply C6].
  - intros f. apply C5.
  - exact C8.
  - exact C9.
Qed.

Lemma record_spec p f s :
  let '(ok, s') := RecordWrittenFile p f s in
  w_threads s' = w_threads s /\ w_written s' = w_written s /\ w_durable s' = w_durable s /\
  (forall g, g ∈ w_shared s -> g ∈ w_shared s') /\ (forall q g, g ∈ w_local s q -> g ∈ w_local s' q) /\
  (ok = true -> f ∈ w_shared s' \/ f ∈ w_local s' p) /\ ((length (w_shared s) <= kCapacity)%nat -> (length (w_shared s') <= kCapacity)%nat) /\
  ((w_cross s = false -> w_shared s = []) -> w_cross s' = false -> w_shared s' = []).
Proof.
  unfold RecordWrittenFile. destruct (w_cross s) eqn:Ecr; cbn [negb].
  - case_bool_decide as Hf; [split_and!; try done; [by left|by rewrite Ecr]|]. case_bool_decide as Hl; [split_and!; try done; by rewrite Ecr|].
    cbn. split_and!; try done; [..|by rewrite Ecr].
    + intros g Hg. rewrite elem_of_app. by left.
    + intros _. left. rewrite elem_of_app, list_elem_of_singleton. by right.
    + intros Hle. rewrite length_app. cbn. lia.
  - cbn. split_and!; try done.
    + intros q g Hg. destruct (decide (p = q)) as [<-|Hne]; [rewrite fn_lookup_insert, elem_of_push_new; by right|by rewrite fn_lookup_insert_ne].
    + intros _. right. rewrite fn_lookup_insert, elem_of_push_new. by left.
    + intros Hp _. by apply Hp.
Qed.

Lemma note_local_spec p f s :
  let s' := NoteLocalWrittenFile p f s in
  (forall q g, g ∈ w_local s q -> g ∈ w_local s' q) /\ f ∈ w_local s' p.
Proof.
  cbn. split; [|rewrite fn_lookup_insert, elem_of_push_new; by left]. intros q g Hg.
  destruct (decide (p = q)) as [<-|Hne]; [rewrite fn_lookup_insert, elem_of_push_new; by right|by rewrite fn_lookup_insert_ne].
Qed.

Lemma wstep_threads p t synced error s t' s' : wstep p t synced error s = Some (t', s') -> w_threads s' = w_threads s.
Proof.
  intros Hs. destruct t as [f|f| |files|f|f|[|f files]|files c|[|f files] r|f files r|r]; cbn [wstep] in Hs; try (by simplify_eq);
    [pose proof (record_spec p f s) as Hr; destruct (RecordWrittenFile p f s); simplify_eq; apply Hr|by destruct (w_cross s); simplify_eq|
     by destruct (w_cross s); simplify_eq|pose proof (record_spec p f s) as Hr; destruct (RecordWrittenFile p f s); simplify_eq; apply Hr].
Qed.

Lemma winv_thread s j p t synced error t' s' :
  winv s -> w_threads s !! j = Some (p, t) -> wstep p t synced error s = Some (t', s') -> winv (set_threads (<[j := (p, t')]> (w_threads s)) s').
Proof.
  intros HI Hj Hs. pose proof (wstep_threads _ _ _ _ _ _ _ Hs) as Et.
  rewrite <- Et. pose proof (fun f => wi_bound _ HI f) as Hb. pose proof (wi_capacity _ HI) as Hc. pose proof (wi_private _ HI) as Hp.
  destruct t as [f|f| |files|f|f|[|f files]|files c|[|f files] r|f files r|r]; cbn [wstep] in Hs; try discriminate Hs.
  - injection Hs as <- <-. apply (winv_move s j p (WWrite f)); try done; cbn [set_written w_written w_durable w_shared w_local in_hand]; try (by left); try (by intros; left).
    + intros g. destruct (decide (f = g)) as [<-|Hne]; [by right|left; by rewrite fn_lookup_insert_ne].
    + intros g. specialize (Hb g). destruct (decide (f = g)) as [<-|Hne]; [rewrite fn_lookup_insert|rewrite fn_lookup_insert_ne by done]; lia.
    + intros g. destruct (decide (f = g)) as [<-|Hne]; [rewrite fn_lookup_insert|rewrite fn_lookup_insert_ne by done]; lia.
  - pose proof (record_spec p f s) as Hr. destruct (RecordWrittenFile p f s) as [ok s1]. injection Hs as <- <-. destruct Hr as (R1 & R2 & R3 & R4 & R5 & R6 & R7 & R8).
    apply (winv_move s j p (WRecord f)); rewrite ?R2, ?R3; try done; try (by left); try (by intros g; split; [done|apply Hb]); [by intros; left; apply R4|by intros; left; apply R5| |by destruct ok|by apply R7|by apply R8].
    cbn [in_hand]. intros g ->. destruct ok; [destruct (R6 eq_refl); [by right; left|right; right; left; by exists p]|left; by left].
  - injection Hs as <- <-. apply (winv_move s j p WSwap); try done; cbn [set_local w_local w_shared in_hand]; try (by left); try (by intros g; split; [done|apply Hb]).
    intros q f Hq. destruct (decide (p = q)) as [<-|Hne]; [by right|left; by rewrite fn_lookup_insert_ne].
  - destruct (w_cross s); injection Hs as <- <-; apply (winv_move s j p (WDrain files)); try done; cbn [set_shared w_local w_shared in_hand length]; try (by left); try (by intros g; split; [done|apply Hb]).
    + intros f Hf. right. apply elem_of_add_files. by left.
    + intros f Hf. left. apply elem_of_add_files. by right.
    + lia.
    + intros _. by apply Hp.
  - injection Hs as <- <-. apply (winv_move s j p (WErase f)); try done; cbn [set_local w_local w_shared in_hand]; try (by left); try (by intros g; split; [done|apply Hb]).
    intros q g Hq. destruct (decide (p = q)) as [<-|Hne]; [|left; by rewrite fn_lookup_insert_ne]. rewrite fn_lookup_insert, elem_of_without. destruct (decide (g = f)); naive_solver.
  - injection Hs as <- <-. apply (winv_move s j p (WEraseShared f)); destruct (w_cross s) eqn:Ecr; try done; cbn [set_shared w_local w_shared in_hand]; try (by left); try (by intros g; split; [done|apply Hb]);
      try (by intros g ->; left; left).
    + intros g Hg. rewrite elem_of_without. destruct (decide (g = f)) as [->|]; [right; by left|by left].
    + unfold without. etrans; [apply length_filter|exact Hc].
    + cbn. congruence.
    + intros _. by apply Hp.
  - injection Hs as <- <-. apply (winv_move s j p (WSync [])); try done; try (by left); try (by intros g; split; [done|apply Hb]). cbn [in_hand]. intros g Hg. by apply elem_of_nil in Hg.
  - injection Hs as <- <-. apply (winv_move s j p (WSync (f :: files))); try done; try (by left); try (by intros g; split; [done|apply Hb]); cbn [in_hand].
    by intros ? ? g [= <- <-].
  - injection Hs as <- <-. pose proof (fun f => wi_covers _ HI j p files c f Hj) as Hcov.
    assert (forall f, (w_durable s f <= (if bool_decide (f ∈ files) && synced f then w_durable s f `max` c f else w_durable s f) <= w_written s f)%nat) as Hd.
    { intros f. specialize (Hb f). specialize (Hcov f). destruct (_ && _); lia. }
    apply (winv_move s j p (WWait files c)); try done; cbn [set_durable w_durable w_written w_shared w_local in_hand]; try (by left).
    + intros f [Hf Hlast]. destruct (forallb synced files) eqn:Ea; [|by left]. right. right. right.
      rewrite forallb_forall in Ea. rewrite bool_decide_eq_true_2, (Ea f) by (try done; by apply list_elem_of_In). cbn [andb]. specialize (Hb f). lia.
    + by destruct (forallb synced files).
  - injection Hs as <- <-. apply (winv_move s j p (WNote [] r)); try done; try (by left); try (by intros g; split; [done|apply Hb]). cbn [in_hand]. intros g Hg. by apply elem_of_nil in Hg.
  - pose proof (record_spec p f s) as Hr. destruct (RecordWrittenFile p f s) as [ok s1]. injection Hs as <- <-. destruct Hr as (R1 & R2 & R3 & R4 & R5 & R6 & R7 & R8).
    apply (winv_move s j p (WNote (f :: files) r)); rewrite ?R2, ?R3; try done; try (by left); try (by intros g; split; [done|apply Hb]); [by intros; left; apply R4|by intros; left; apply R5| |by destruct ok|by apply R7|by apply R8].
    cbn [in_hand]. intros g [->|Hg]%elem_of_cons; [|left; destruct ok; [done|by right]].
    destruct ok; [destruct (R6 eq_refl); [by right; left|right; right; left; by exists p]|left; by left].
  - injection Hs as <- <-. destruct (note_local_spec p f s) as [R1 R2].
    apply (winv_move s j p (WNoteLocal f files r)); try done; try (by left); try (by intros g; split; [done|apply Hb]); [by intros; left; apply R1|].
    cbn [in_hand]. intros g [->|Hg]; [right; right; left; by exists p|by left].
Qed.

Lemma winv_reachable cross s : rtc written_step (written_start cross) s -> winv s.
Proof.
  assert (winv (written_start cross)) as HI.
  { split; cbn; [intros f Hf; lia|intros j p files c f Hj; by rewrite lookup_empty in Hj|done|lia|done]. }
  revert HI. generalize (written_start cross). intros s0 HI Hr. induction Hr as [s0|s0 s1 s2 Hs _ IH]; [done|]. apply IH. clear IH.
  destruct Hs as [s j p t synced error t' s' Hj _ Hs|s j p t Hj _ Hb|s p]; [by eapply winv_thread| |by destruct HI]. destruct HI as [I1 I2 I3 I4 I5].
  split; cbn [set_threads w_cross w_shared w_local w_written w_durable w_threads]; [|intros k q files c f [[<- [= <- ->]]|[Hne Hk]]%lookup_insert_Some; [done|by eapply I2]|done|done|done].
  intros f Hf. destruct (I1 f Hf) as [Hs|[Hq|(k & q & u & Hk & Hh)]]; [by left|by right; left|right; right].
  exists k, q, u. cbn [set_threads w_threads]. rewrite lookup_insert_ne by congruence. done.
Qed.

(** A call that runs by itself, [n] steps at most. *)
Fixpoint run_alone (n : nat) (p : nat) (t : wpc) (synced : Z -> bool) (error : Error) (s : wsystem) : option (Status * wsystem) :=
  match n, t with
  | _, WDone r => Some (r, s)
  | O, _ => None
  | S n, _ => '(t, s) ← wstep p t synced error s; run_alone n p t synced error s
  end.

Lemma note_alone p files r synced error s : exists n s', run_alone n p (WNote files r) synced error s = Some (r, s').
Proof.
  revert s. induction files as [|f files IH]; intros s; [by exists 1%nat, s|]. destruct (RecordWrittenFile p f s) as [ok s1] eqn:Er. destruct ok.
  - destruct (IH s1) as (n & s' & E). exists (S n), s'. cbn [run_alone wstep]. rewrite Er. exact E.
  - destruct (IH (NoteLocalWrittenFile p f s1)) as (n & s' & E). exists (S (S n)), s'. cbn [run_alone wstep]. rewrite Er. exact E.
Qed.

(** [SyncWrittenFiles] of a process that is alone returns; when it reports success,
    every write is durable whose file no other process holds. *)
Lemma sync_alone p synced error s :
  winv s -> (forall j q t, w_threads s !! j = Some (q, t) -> (exists r, t = WDone r) \/ q <> p /\ w_dead s q = true) ->
  exists n r s', run_alone n p WSwap synced error s = Some (r, s') /\
    (has_value r = true -> forall f, (forall q, q <> p -> ~ held_by s q f) -> w_durable s' f = w_written s f).
Proof.
  intros HI Hrest. set (files := if w_cross s then add_files (w_shared s) (w_local s p) else w_local s p).
  set (s1 := if w_cross s then set_shared [] (set_local p [] s) else set_local p [] s).
  assert (forall n, run_alone (S (S n)) p WSwap synced error s = run_alone n p (WSync files) synced error s1) as Hrun.
  { intros n. unfold files, s1. cbn [run_alone wstep mbind option_bind set_local w_cross]. by destruct (w_cross s). }
  assert (w_durable s1 = w_durable s /\ w_written s1 = w_written s) as [Ed Ew] by (unfold s1; by destruct (w_cross s)).
  assert (forall f, (forall q, q <> p -> ~ held_by s q f) -> f ∉ files -> w_durable s f = w_written s f) as Hdur.
  { intros f Hheld Hf. pose proof (wi_bound _ HI f) as Hb. destruct (decide (w_durable s f < w_written s f)%nat) as [Hlt|]; [|lia]. exfalso. apply Hf. unfold files.
    destruct (wi_kept _ HI f Hlt) as [Hs|[[q Hq]|(j & q & t & Hj & Hh)]].
    - destruct (w_cross s) eqn:Ec; [apply elem_of_add_files; by left|]. rewrite (wi_private _ HI Ec) in Hs. by apply elem_of_nil in Hs.
    - destruct (decide (q = p)) as [->|Hne]; [destruct (w_cross s); [apply elem_of_add_files; by right|done]|]. destruct (Hheld q Hne). by left.
    - destruct (Hrest j q t Hj) as [[r ->]|[Hne _]]; [done|]. destruct (Hheld q Hne). right. by exists j, t. }
  clearbody files s1. destruct files as [|f0 l]; [exists 3%nat, (Ok tt), s1; rewrite Hrun; split; [done|]; intros _ f Hheld; rewrite Ed; apply Hdur; [done|apply not_elem_of_nil]|].
  set (files := f0 :: l) in *. set (s2 := set_durable (fun f => if bool_decide (f ∈ files) && synced f then (w_durable s1 f `max` w_written s1 f)%nat else w_durable s1 f) s1).
  assert (forall n, run_alone (S (S (S (S n)))) p WSwap synced error s =
    run_alone n p (if forallb synced files then WDone (Ok tt) else WNote files (Err error)) synced error s2) as Hrun2 by (intros n; rewrite Hrun; reflexivity).
  destruct (forallb synced files) eqn:Ea.
  - exists 4%nat, (Ok tt), s2. rewrite Hrun2. split; [done|]. intros _ f Hheld. cbn [s2 set_durable w_durable]. rewrite Ed, Ew. rewrite forallb_forall in Ea.
    case_bool_decide as Hf; cbn [andb]; [|by apply Hdur]. rewrite (Ea f) by (by apply list_elem_of_In). pose proof (wi_bound _ HI f). lia.
  - destruct (note_alone p files (Err error) synced error s2) as (n & s' & E). exists (S (S (S (S n)))), (Err error), s'. rewrite Hrun2. by split.
Qed.

(** C20 — No written file is forgotten: whatever threads of whatever processes write,
    record, sync, fail and die (outside the sections under a latch), every file with
    a completed write that is not durable is in the shared table, or held by a
    process: in its local list, or in the hands of a thread that, unless its process
    dies, will sync the file or put it back; the table keeps its capacity; and when
    every other call has returned or died with its process, [SyncWrittenFiles]
    returns, and on success every write is durable whose file no other process,
    alive or dead, holds. *)
Theorem written_files_kept cross s :
  rtc written_step (written_start cross) s ->
  (forall f, (w_durable s f < w_written s f)%nat -> f ∈ w_shared s \/ exists p, held_by s p f) /\ (length (w_shared s) <= kCapacity)%nat /\
  forall p synced error,
    (forall j q t, w_threads s !! j = Some (q, t) -> (exists r, t = WDone r) \/ q <> p /\ w_dead s q = true) ->
    exists n r s', run_alone n p WSwap synced error s = Some (r, s') /\
      (has_value r = true -> forall f, (forall q, q <> p -> ~ held_by s q f) -> w_durable s' f = w_written s f).
Proof. intros HI%winv_reachable. split; [intros f Hf; by apply kept_held, HI|]. split; [apply HI|]. intros. by apply sync_alone. Qed.

(** ** Two calls at the same time *)

Definition go (j : nat) (synced : Z -> bool) (s : wsystem) : wsystem :=
  match w_threads s !! j with
  | Some (p, t) =>
      match w_dead s p, wstep p t synced (MkError kIoError "sync" 5) s with
      | false, Some (t', s') => set_threads (<[j := (p, t')]> (w_threads s)) s'
      | _, _ => s
      end
  | None => s
  end.
Definition call (j p : nat) (t : wpc) (s : wsystem) : wsystem :=
  match w_threads s !! j with None => if begins t && negb (w_dead s p) then set_threads (<[j := (p, t)]> (w_threads s)) s else s | Some _ => s end.

Lemma go_steps j synced s : rtc written_step s (go j synced s).
Proof.
  unfold go. destruct (w_threads s !! j) as [[p t]|] eqn:Hj; [|done]. destruct (w_dead s p) eqn:Hp; [done|].
  destruct (wstep _ _ _ _ _) as [[t' s']|] eqn:Hs; [|done]. apply rtc_once. by eapply written_thread.
Qed.
Lemma call_step j p t s : w_threads s !! j = None -> w_dead s p = false -> begins t = true -> written_step s (call j p t s).
Proof. intros Hj Hp Hb. unfold call. rewrite Hj, Hb, Hp. by apply written_call. Qed.
Lemma call_steps j p t s : rtc written_step s (call j p t s).
Proof.
  unfold call. destruct (w_threads s !! j) eqn:Hj; [done|]. destruct (begins t) eqn:Hb; [|done]. destruct (w_dead s p) eqn:Hp; [done|].
  apply rtc_once. by apply written_call.
Qed.

Definition all_good (f : Z) : bool := true.
Definition all_bad (f : Z) : bool := false.

(** Thread 0 writes file 7 back. *)
Definition file_written (cross : bool) : wsystem := go 0 all_good (go 0 all_good (call 0 0 (WWrite 7) (written_start cross))).
(** Thread 1 has taken the list and submitted its sync. *)
Definition sync_submitted (cross : bool) : wsystem := go 1 all_good (go 1 all_good (go 1 all_good (call 1 0 WSwap (file_written cross)))).
(** Thread 2 calls and returns. *)
Definition second_call (cross : bool) : wsystem := call 2 0 WSwap (sync_submitted cross).
Definition early_return (cross : bool) : wsystem := go 2 all_good (go 2 all_good (go 2 all_good (second_call cross))).
(** The sync fails, and the file is put back. *)
Definition late_failure (cross : bool) : wsystem := go 1 all_bad (go 1 all_bad (go 1 all_bad (early_return cross))).

Ltac schedule :=
  repeat first [match goal with |- rtc _ ?x ?x => apply rtc_refl end | etrans; [|apply go_steps] | etrans; [|apply call_steps]].

(** C21 — [SyncWrittenFiles] can return success while a write that had completed before
    it was called is not durable: thread 0 has written file 7 back and returned, and
    only then does thread 2 call [SyncWrittenFiles]; the call reports success, yet
    the write is not durable, because the call of thread 1 has taken the file from
    the list and waits for its sync, which then fails. *)
Theorem sync_returns_early cross :
  exists s1 s1' s2 s3 covers, rtc written_step (written_start cross) s1 /\ written_step s1 s1' /\ rtc written_step s1' s2 /\ rtc written_step s2 s3 /\
    w_threads s1 !! 0%nat = Some (0%nat, WDone (Ok tt)) /\ w_written s1 7 = 1%nat /\ w_threads s1 !! 1%nat = Some (0%nat, WWait [7] covers) /\
    w_threads s1 !! 2%nat = None /\ w_threads s1' !! 2%nat = Some (0%nat, WSwap) /\
    w_threads s2 !! 2%nat = Some (0%nat, WDone (Ok tt)) /\ w_durable s2 7 = 0%nat /\
    (exists e, w_threads s3 !! 1%nat = Some (0%nat, WDone (Err e))) /\ w_durable s3 7 = 0%nat.
Proof.
  exists (sync_submitted cross), (second_call cross), (early_return cross), (late_failure cross), (w_written (file_written cross)).
  split; [unfold sync_submitted, file_written; schedule|].
  split; [apply call_step; destruct cross; vm_compute; reflexivity|].
  split; [unfold early_return; schedule|]. split; [unfold late_failure; schedule|].
  destruct cross; (do 7 (split; [vm_compute; reflexivity|])); (split; [exists (MkError kIoError "sync" 5); vm_compute; reflexivity|vm_compute; reflexivity]).
Qed.

Lemma written_files_kept_witness :
  (7 ∈ w_shared (early_return true) \/ exists p, held_by (early_return true) p 7) /\
  exists n r s', run_alone n 0 WSwap all_good (MkError kIoError "sync" 5) (file_written true) = Some (r, s') /\ (has_value r = true -> w_durable s' 7 = 1%nat).
Proof.
  assert (rtc written_step (written_start true) (file_written true)) as H2 by (unfold file_written; schedule).
  assert (rtc written_step (written_start true) (early_return true)) as H1 by (etrans; [exact H2|unfold early_return, second_call, sync_submitted; schedule]).
  split; [apply (written_files_kept true _ H1); vm_compute; lia|].
  assert (w_threads (file_written true) = {[0%nat := (0%nat, WDone (Ok tt))]}) as Et by (vm_compute; reflexivity).
  destruct (written_files_kept true _ H2) as (_ & _ & Hs). destruct (Hs 0%nat all_good (MkError kIoError "sync" 5)) as (n & r & s' & E & Hd).
  - intros j q t Hj. rewrite Et in Hj. apply lookup_singleton_Some in Hj as [_ Hj]. injection Hj as _ <-. left. by exists (Ok tt).
  - exists n, r, s'. split; [exact E|]. intros Hr. rewrite (Hd Hr); [vm_compute; reflexivity|]. intros q Hq [Hl|(j & t & Hj & Hh)].
    + destruct q; [done|]. by apply elem_of_nil in Hl.
    + rewrite Et in Hj. apply lookup_singleton_Some in Hj as [_ Hj]. injection Hj as <- <-. done.
Defined.
