(* ===== verification/StateBlocks.v ===== *)
(** The memory of the replacement policies: the layout of each policy's state, its
    placement in memory of the caller ([LayoutFor], [Place], [SharedStateBytes] and
    [BindSharedState] of [lib/replacer/*.cc], [FrameList::Reserve]), and the place
    the cross-process segment has for it. *)
From stdpp Require Import strings.
From S2P Require Import Segment.
From S2P Require Import Prelude Status Layout Replacer Clock FrameList Lru TwoQueue Sieve OrderedSet PlanReplacer LruK.

(** ** Layouts *)

(** [layout.Add<T>(count)] for a list of arrays, [sizeof(T)] and [count] each. *)
Fixpoint add_all (l : list (Z * Z)) (s : StateLayout) : list Z * StateLayout :=
  match l with
  | [] => ([], s)
  | (sizeof, count) :: l => let '(o, s) := Add sizeof count kCacheLineSize s in let '(os, s) := add_all l s in (o :: os, s)
  end.

(** Offsets and [bytes]. *)
Definition LayoutFor (l : list (Z * Z)) : list Z * Z := let '(os, s) := add_all l (MkLayout 0) in (os, size s).

(** Hand, marks. *)
Definition clock_arrays (capacity : Z) : list (Z * Z) := [(8, 1); (1, capacity)].
Definition sweep_arrays (capacity : Z) : list (Z * Z) := [(8, 1); (1, capacity)].
(** Queue, visited, newer, older, linked. *)
Definition sieve_arrays (capacity : Z) : list (Z * Z) := [(24, 1); (1, capacity); (4, capacity); (4, capacity); (1, capacity)].
(** Ends, both directions, linked. *)
Definition frame_list_arrays (capacity : Z) : list (Z * Z) := [(8, 1); (4, capacity); (4, capacity); (1, capacity)].
Definition lru_arrays (capacity : Z) : list (Z * Z) := (4, 1) :: frame_list_arrays capacity.
Definition two_queue_arrays (capacity : Z) : list (Z * Z) := (4, 1) :: frame_list_arrays capacity ++ frame_list_arrays capacity.
(** Header, histories, timestamps, nodes. *)
Definition lru_k_arrays (history_length capacity : Z) : list (Z * Z) :=
  [(24, 1); (12, capacity); (8, u64 (capacity * history_length)); (24, capacity)].
Definition plan_arrays (capacity : Z) : list (Z * Z) := [(8, 1); (24, capacity)].

(** ** Binding *)

(** What [Place] constructs at those offsets, [ConstructState<T>(base, offset, count)]
    each: [sizeof(T)] and [count]. *)
Definition clock_built (capacity : Z) : list (Z * Z) := [(8, 1); (1, capacity)].
Definition sweep_built (capacity : Z) : list (Z * Z) := [(8, 1); (1, capacity)].
Definition sieve_built (capacity : Z) : list (Z * Z) := [(24, 1); (1, capacity); (4, capacity); (4, capacity); (1, capacity)].
Definition frame_list_built (capacity : Z) : list (Z * Z) := [(8, 1); (4, capacity); (4, capacity); (1, capacity)].
Definition lru_built (capacity : Z) : list (Z * Z) := (4, 1) :: frame_list_built capacity.
Definition two_queue_built (capacity : Z) : list (Z * Z) := (4, 1) :: frame_list_built capacity ++ frame_list_built capacity.
Definition lru_k_built (history_length capacity : Z) : list (Z * Z) :=
  [(24, 1); (12, capacity); (8, u64 (capacity * history_length)); (24, capacity)].
Definition plan_built (capacity : Z) : list (Z * Z) := [(8, 1); (24, capacity)].

(** A policy with its state of type [S]: the arrays [LayoutFor] reserves, the arrays
    [Place] constructs, and the state they hold then. *)
Record binding (S : Type) := Binding { b_arrays : list (Z * Z); b_built : list (Z * Z); b_new : S }.
Arguments Binding {S}.
Arguments b_arrays {S}.
Arguments b_built {S}.
Arguments b_new {S}.

Definition clock_binding (n : Z) : binding clock := Binding (clock_arrays n) (clock_built n) (ClockReplacer.Make n).
Definition sweep_binding (n : Z) : binding clock := Binding (sweep_arrays n) (sweep_built n) (ClockSweepReplacer.Make n).
Definition sieve_binding (n : Z) : binding sieve := Binding (sieve_arrays n) (sieve_built n) (MakeSieve n).
Definition lru_binding (n : Z) : binding lru := Binding (lru_arrays n) (lru_built n) (MakeLru n).
Definition two_queue_binding (n : Z) : binding two_queue := Binding (two_queue_arrays n) (two_queue_built n) (MakeTwoQueue n).
Definition lru_k_binding (n k : Z) : binding lruk := Binding (lru_k_arrays k n) (lru_k_built k n) (MakeLruK n k).
Definition plan_binding (n : Z) : binding plan := Binding (plan_arrays n) (plan_built n) (MakePlan n).

(** The policies for [n] frames, LRU-K with [k] remembered accesses. *)
Inductive policy_binding (n k : Z) : forall S, binding S -> Prop :=
  | bind_clock : policy_binding n k clock (clock_binding n)
  | bind_sweep : policy_binding n k clock (sweep_binding n)
  | bind_sieve : policy_binding n k sieve (sieve_binding n)
  | bind_lru : policy_binding n k lru (lru_binding n)
  | bind_two_queue : policy_binding n k two_queue (two_queue_binding n)
  | bind_lru_k : policy_binding n k lruk (lru_k_binding n k)
  | bind_plan : policy_binding n k plan (plan_binding n).

Definition SharedStateBytes {S} (p : binding S) : Z := (LayoutFor (b_arrays p)).2.

(** [Place]: the arrays of the state, address, bytes and alignment each, and what
    they hold: a new state is constructed, or the one in memory is used. *)
Definition Place {S} (p : binding S) (base : Z) (initialize : bool) (memory : S) : list (Z * Z * Z) * S :=
  (zip_with (fun o a => (base + o, a.2 * a.1, kCacheLineSize)) (LayoutFor (b_arrays p)).1 (b_built p), if initialize then b_new p else memory).

Definition BindSharedState {S} (p : binding S) (address length : Z) (initialize : bool) (memory : S) : Result (list (Z * Z * Z) * S) :=
  match CheckStateMemory address length (SharedStateBytes p) with
  | Err e => Err e
  | Ok _ => Ok (Place p address initialize memory)
  end.

Definition BindClock (n : Z) := BindSharedState (clock_binding n).
Definition BindSweep (n : Z) := BindSharedState (sweep_binding n).
Definition BindSieve (n : Z) := BindSharedState (sieve_binding n).
Definition BindLru (n : Z) := BindSharedState (lru_binding n).
Definition BindTwoQueue (n : Z) := BindSharedState (two_queue_binding n).
Definition BindLruK (n k : Z) := BindSharedState (lru_k_binding n k).
Definition BindPlan (n : Z) := BindSharedState (plan_binding n).

(** ** Placement *)

(** Arrays with their offsets, as [Layout.placed] takes them. *)
Definition laid (os : list Z) (l : list (Z * Z)) : list (Z * Z * Z) := zip_with (fun o p => (o, p.2 * p.1, 64)) os l.
Definition room (l : list (Z * Z)) : Z := foldr (fun p n => p.2 * p.1 + 64 + n) 0 l.

Lemma add_all_placed l s :
  0 <= layout_size s -> Forall (fun p => 0 <= p.2 * p.1) l -> layout_size s + room l < 2 ^ 58 ->
  let '(os, s') := add_all l s in
  (forall limit, layout_size s' <= limit -> placed (layout_size s) limit (laid os l)) /\ layout_size s <= layout_size s' <= layout_size s + room l.
Proof.
  revert s. induction l as [|[sizeof count] l IH]; intros s Hs Hl Hr; cbn [add_all].
  { split; [done|]. cbn. lia. }
  apply list.Forall_cons in Hl as [Hp Hl]. cbn [fst snd room foldr] in *. fold (room l) in *.
  assert (0 <= room l) as Hr0 by (clear -Hl; induction Hl as [|p l Hp _ IH]; cbn; [lia|fold (room l); lia]).
  pose proof (add_spec sizeof count 6 s ltac:(lia) ltac:(lia) ltac:(lia)) as Ha. change (2 ^ 6) with kCacheLineSize in Ha. change kCacheLineSize with 64 in *.
  destruct (Add sizeof count 64 s) as [o s1]. destruct Ha as (Ho & Hm & H1). specialize (IH s1 ltac:(lia) Hl ltac:(lia)).
  destruct (add_all l s1) as [os s2]. destruct IH as [IH1 IH2]. split; [|lia]. intros limit Hlim. cbn [laid zip_with placed fst snd].
  split; [lia|]. split; [done|]. rewrite <- H1. by apply IH1.
Qed.

Lemma layout_for_placed l :
  Forall (fun p => 0 <= p.2 * p.1) l -> room l < 2 ^ 58 ->
  let '(os, bytes) := LayoutFor l in placed 0 bytes (laid os l) /\ 0 < bytes <= room l + 65 /\ bytes mod 64 = 0.
Proof.
  intros Hl Hr. unfold LayoutFor. pose proof (add_all_placed l (MkLayout 0) ltac:(done) Hl Hr) as Ha. destruct (add_all l (MkLayout 0)) as [os s].
  destruct Ha as [Ha Hb]. cbn [layout_size] in *. unfold size, kCacheLineSize. set (v := if _ =? 0 then _ else _).
  assert (layout_size s <= v <= layout_size s + 1 /\ 0 < v) as Hv by (unfold v; destruct (Z.eqb_spec (layout_size s) 0); lia).
  destruct (align_spec v 6 ltac:(lia) ltac:(lia)) as [Hz Hm]. change (2 ^ 6) with 64 in *. split; [apply Ha; lia|]. split; [lia|done].
Qed.

Lemma policy_room n k S (p : binding S) :
  0 <= n < 2 ^ 32 -> 1 <= k <= 2 ^ 16 -> policy_binding n k S p ->
  b_built p = b_arrays p /\ Forall (fun a => 0 <= a.2 * a.1) (b_arrays p) /\ room (b_arrays p) < 2 ^ 55.
Proof.
  intros Hn Hk Hp. assert (0 <= n * k <= 2 ^ 48) as Hnk by nia. assert (u64 (n * k) = n * k) as Hu by (apply u64_small; unfold is_u64, u64_mod; lia).
  destruct Hp; (split; [reflexivity|]); cbn [b_arrays clock_binding sweep_binding sieve_binding lru_binding two_queue_binding lru_k_binding plan_binding];
    unfold clock_arrays, sweep_arrays, sieve_arrays, lru_arrays, two_queue_arrays, frame_list_arrays, lru_k_arrays, plan_arrays; cbn [app]; rewrite ?Hu;
    (split; [repeat (apply list.Forall_cons; split; [cbn [fst snd]; lia|]); by apply list.Forall_nil|cbn [room foldr fst snd]; lia]).
Qed.

(** Arrays placed relative to an aligned base. *)
Lemma placed_shift base start limit os l :
  base mod 64 = 0 -> placed start limit (laid os l) ->
  placed (base + start) (base + limit) (zip_with (fun o a => (base + o, a.2 * a.1, kCacheLineSize)) os l).
Proof.
  intros Hb. revert start l. unfold laid, kCacheLineSize. induction os as [|o os IH]; intros start [|a l]; cbn [zip_with placed fst snd]; try lia.
  intros (H1 & H2 & H3). split; [lia|]. split; [by rewrite Z.add_mod, Hb, H2 by lia|]. rewrite <- Z.add_assoc. by apply IH.
Qed.

Lemma add_all_length l s : length (add_all l s).1 = length l.
Proof.
  revert s. induction l as [|[sizeof count] l IH]; intros s; [done|]. cbn [add_all]. destruct (Add _ _ _ _) as [o s1].
  specialize (IH s1). destruct (add_all l s1). cbn in *. by rewrite IH.
Qed.

Lemma layout_for_length l : length (LayoutFor l).1 = length l.
Proof. unfold LayoutFor. pose proof (add_all_length l (MkLayout 0)). by destruct (add_all l (MkLayout 0)). Qed.

(** C35 — For every policy, fewer than 2^32 frames, up to 2^16 remembered accesses
    (LRU-K) and a kernel region of less than 2^59 bytes: the segment places header,
    policy state and kernel region one after the other, the region page aligned and
    inside the segment; the memory it has for the policy is always accepted, and
    the arrays [Place] constructs there, all of them with the extents it constructs,
    are cache-line aligned, in order, without overlap and inside that memory. *)
Theorem segment_layout_placed n k S (p : binding S) shape base :
  0 <= n < 2 ^ 32 -> 1 <= k <= 2 ^ 16 -> policy_binding n k S p ->
  replacer_state_bytes shape = SharedStateBytes p -> 0 <= kernel_bytes shape < 2 ^ 59 -> base mod 4096 = 0 ->
  let address := base + replacer_offset in
  placed 0 (total_bytes shape) [(0, header_bytes, 4096); (replacer_offset, replacer_state_bytes shape, 64); (kernel_offset shape, kernel_bytes shape, 4096)] /\
  forall initialize memory, exists blocks,
    BindSharedState p address (replacer_state_bytes shape) initialize memory = Ok (blocks, if initialize then b_new p else memory) /\
    (fun b => b.1.2) <$> blocks = (fun a => a.2 * a.1) <$> b_built p /\
    placed address (address + replacer_state_bytes shape) blocks.
Proof.
  intros Hn Hk Hp Hb Hkb Hbase address. destruct (policy_room n k S p Hn Hk Hp) as (Eb & Hf & Hr).
  pose proof (layout_for_placed (b_arrays p) Hf ltac:(lia)) as Hpl. pose proof (layout_for_length (b_arrays p)) as Hlen.
  unfold BindSharedState, Place, SharedStateBytes in *. destruct (LayoutFor (b_arrays p)) as [os bytes]. cbn [fst snd] in *. destruct Hpl as (Hpl & Hbytes & _).
  assert (address mod 64 = 0) as Ha.
  { unfold address. change replacer_offset with 9408. rewrite (Z.div_mod base 4096), Hbase by lia.
    replace (4096 * (base / 4096) + 0 + 9408) with ((64 * (base / 4096) + 147) * 64) by lia. by apply Z.mod_mul. }
  split.
  - unfold total_bytes, kernel_offset. change replacer_offset with 9408. change header_bytes with 9408. rewrite Hb.
    rewrite (u64_small (9408 + bytes)) by (unfold is_u64, u64_mod; lia). change (AlignUp (9408 + bytes) kPageSize) with (Align (9408 + bytes) (2 ^ 12)).
    destruct (align_spec (9408 + bytes) 12 ltac:(lia) ltac:(lia)) as [Hal Hm]. change (2 ^ 12) with 4096 in *.
    rewrite u64_small by (unfold is_u64, u64_mod; lia). cbn [placed]. split_and!; done || lia.
  - intros initialize memory. eexists. rewrite Hb. unfold CheckStateMemory. rewrite Z.ltb_irrefl. change (address mod kCacheLineSize) with (address mod 64).
    rewrite Ha. split; [done|]. rewrite Eb. split.
    + clear -Hlen. revert os Hlen. induction (b_arrays p) as [|a l IH]; intros [|o os] Hlen; try done. cbn. f_equal. apply IH. by injection Hlen.
    + replace address with (address + 0) at 1 by lia. by apply placed_shift.
Qed.

Lemma segment_layout_placed_witness :
  let shape := MkShape 4096 100 16 (LayoutFor (lru_k_arrays 2 100)).2 "lru_k" 500000 in
  placed 0 (total_bytes shape) [(0, header_bytes, 4096); (replacer_offset, replacer_state_bytes shape, 64); (kernel_offset shape, kernel_bytes shape, 4096)] /\
  exists blocks, BindLruK 100 2 (8192 + replacer_offset) (replacer_state_bytes shape) true (MakeLruK 1 1) = Ok (blocks, MakeLruK 100 2).
Proof.
  cbn zeta. set (shape := MkShape _ _ _ _ _ _).
  destruct (segment_layout_placed 100 2 _ (lru_k_binding 100 2) shape 8192 ltac:(lia) ltac:(lia) (bind_lru_k 100 2) eq_refl ltac:(cbn; lia) eq_refl) as (H1 & H2).
  split; [exact H1|]. destruct (H2 true (MakeLruK 1 1)) as (blocks & E & _). exists blocks. exact E.
Defined.
