(* ===== verification/Kernel.v ===== *)
(** The state of a buffer manager and the code that runs behind its calls:
    [include/telepath/buffer/buffer_manager.h], [lib/buffer/buffer_manager_*.cc].

    [kernel] is the state of one [BufferManager] in private-memory mode, over any
    page table, free list, replacement policy and backend that implement their
    interfaces.  A function of type [M A] is a call run by one thread at a time:
    it transforms the state and returns, or is [None] when the call would block
    or spin for ever.  Work that other threads do in the background is part of
    the state: tasks queued for the flush workers and reads in flight; a call
    that has to wait lets them make progress ([progress]).  Telemetry calls have
    no effect on this state and are left out. *)
From stdpp Require Import strings.
From S2P Require Import Prelude Status CasLoop FrameControl Layout Replacer FlushScheduler Cleaner Interfaces.

(** ** State *)

Record descriptor := Descriptor {
  control : Z;
  last_writeback_error : Z;
  version : Z;
  d_tag : BufferTag;
  rec_lsn : Z;
  writeback_rec_lsn : Z
}.

Definition new_descriptor : descriptor := Descriptor 0 0 0 no_page kInvalidLsn kInvalidLsn.

(** A task's [completed] flag and status live in [completed] of the kernel,
    under the task's identity. *)
Record flush_task := FlushTask {
  task_id : nat;
  task_frame : Z;
  task_tag : BufferTag;
  clear_dirty_on_success : bool;
  task_cleaner_owned : bool;
  task_snapshot : page
}.

Record FrameReservation := MkReservation {
  res_frame : Z;
  had_evicted_page : bool;
  evicted_tag : BufferTag
}.

Inductive ForegroundWriteback := kDirect | kQueuedWriteback.

#[export] Instance ForegroundWriteback_eq_dec : EqDecision ForegroundWriteback.
Proof. solve_decision. Defined.

(** The slots of a [ReadBuffersOperation] and its outstanding requests. *)
Inductive read_slot := SlotPinned | SlotLoading | SlotFailed | SlotDeferred.

#[export] Instance read_slot_eq_dec : EqDecision read_slot.
Proof. solve_decision. Defined.

Record read_state := ReadState {
  rs_strategy : option nat;
  rs_tags : list BufferTag;
  rs_frames : list Z;
  rs_slots : list read_slot;
  rs_pending : Z;
  rs_error : Status
}.

Record async_load := AsyncLoad {
  al_operation : option nat;
  al_entries : list (BufferTag * FrameReservation * nat)
}.

(** [BufferAccessStrategy]: the objects live with the callers; a pointer to one
    is its number. *)
Record strategy := Strategy { bulk_read : bool; ring : list Z; current : Z }.

Record config := Config {
  pool_size : Z;
  geometry : BlockGeometry;
  foreground_writeback : ForegroundWriteback;
  pre_write_hook : option (BufferTag -> page -> Status);
  max_request_blocks : nat
}.

Record kernel (T F R B : Type) := Kernel {
  cfg : config;
  desc : Z -> descriptor;
  frame_data : Z -> page;
  table : T;
  free : F;
  replacer : R;
  disk : B;
  dirty_page_count : Z;
  sched : scheduler flush_task;
  completed : gmap nat Status;
  next_task : nat;
  clean : option cleaner;
  written_files : list Z;
  failed : bool;
  closed : bool;
  loads : list async_load;
  operations : gmap nat read_state;
  strategies : nat -> strategy
}.
Arguments Kernel {T F R B}.
Arguments cfg {T F R B}.
Arguments desc {T F R B}.
Arguments frame_data {T F R B}.
Arguments table {T F R B}.
Arguments free {T F R B}.
Arguments replacer {T F R B}.
Arguments disk {T F R B}.
Arguments dirty_page_count {T F R B}.
Arguments sched {T F R B}.
Arguments completed {T F R B}.
Arguments next_task {T F R B}.
Arguments clean {T F R B}.
Arguments written_files {T F R B}.
Arguments failed {T F R B}.
Arguments closed {T F R B}.
Arguments loads {T F R B}.
Arguments operations {T F R B}.
Arguments strategies {T F R B}.

Section Kernel.
Context {T F R B : Type} `{FrameTable T} `{FreeFrames F} `{Replacer R} `{Backend B}.

Local Abbreviation kernel := (kernel T F R B).

Definition set_desc (d : Z -> descriptor) (k : kernel) : kernel :=
  Kernel (cfg k) d (frame_data k) (table k) (free k) (replacer k) (disk k) (dirty_page_count k) (sched k)
    (completed k) (next_task k) (clean k) (written_files k) (failed k) (closed k) (loads k) (operations k) (strategies k).
Definition set_data (d : Z -> page) (k : kernel) : kernel :=
  Kernel (cfg k) (desc k) d (table k) (free k) (replacer k) (disk k) (dirty_page_count k) (sched k)
    (completed k) (next_task k) (clean k) (written_files k) (failed k) (closed k) (loads k) (operations k) (strategies k).
Definition set_table (t : T) (k : kernel) : kernel :=
  Kernel (cfg k) (desc k) (frame_data k) t (free k) (replacer k) (disk k) (dirty_page_count k) (sched k)
    (completed k) (next_task k) (clean k) (written_files k) (failed k) (closed k) (loads k) (operations k) (strategies k).
Definition set_free (f : F) (k : kernel) : kernel :=
  Kernel (cfg k) (desc k) (frame_data k) (table k) f (replacer k) (disk k) (dirty_page_count k) (sched k)
    (completed k) (next_task k) (clean k) (written_files k) (failed k) (closed k) (loads k) (operations k) (strategies k).
Definition set_replacer (r : R) (k : kernel) : kernel :=
  Kernel (cfg k) (desc k) (frame_data k) (table k) (free k) r (disk k) (dirty_page_count k) (sched k)
    (completed k) (next_task k) (clean k) (written_files k) (failed k) (closed k) (loads k) (operations k) (strategies k).
Definition set_disk (b : B) (k : kernel) : kernel :=
  Kernel (cfg k) (desc k) (frame_data k) (table k) (free k) (replacer k) b (dirty_page_count k) (sched k)
    (completed k) (next_task k) (clean k) (written_files k) (failed k) (closed k) (loads k) (operations k) (strategies k).
Definition set_dirty_count (n : Z) (k : kernel) : kernel :=
  Kernel (cfg k) (desc k) (frame_data k) (table k) (free k) (replacer k) (disk k) n (sched k)
    (completed k) (next_task k) (clean k) (written_files k) (failed k) (closed k) (loads k) (operations k) (strategies k).
Definition set_sched (s : scheduler flush_task) (k : kernel) : kernel :=
  Kernel (cfg k) (desc k) (frame_data k) (table k) (free k) (replacer k) (disk k) (dirty_page_count k) s
    (completed k) (next_task k) (clean k) (written_files k) (failed k) (closed k) (loads k) (operations k) (strategies k).
Definition set_tasks (c : gmap nat Status) (n : nat) (k : kernel) : kernel :=
  Kernel (cfg k) (desc k) (frame_data k) (table k) (free k) (replacer k) (disk k) (dirty_page_count k) (sched k)
    c n (clean k) (written_files k) (failed k) (closed k) (loads k) (operations k) (strategies k).
Definition set_cleaner (c : option cleaner) (k : kernel) : kernel :=
  Kernel (cfg k) (desc k) (frame_data k) (table k) (free k) (replacer k) (disk k) (dirty_page_count k) (sched k)
    (completed k) (next_task k) c (written_files k) (failed k) (closed k) (loads k) (operations k) (strategies k).
Definition set_written (l : list Z) (k : kernel) : kernel :=
  Kernel (cfg k) (desc k) (frame_data k) (table k) (free k) (replacer k) (disk k) (dirty_page_count k) (sched k)
    (completed k) (next_task k) (clean k) l (failed k) (closed k) (loads k) (operations k) (strategies k).
Definition set_closed (b : bool) (k : kernel) : kernel :=
  Kernel (cfg k) (desc k) (frame_data k) (table k) (free k) (replacer k) (disk k) (dirty_page_count k) (sched k)
    (completed k) (next_task k) (clean k) (written_files k) (failed k) b (loads k) (operations k) (strategies k).
Definition set_failed (b : bool) (k : kernel) : kernel :=
  Kernel (cfg k) (desc k) (frame_data k) (table k) (free k) (replacer k) (disk k) (dirty_page_count k) (sched k)
    (completed k) (next_task k) (clean k) (written_files k) b (closed k) (loads k) (operations k) (strategies k).
Definition set_loads (l : list async_load) (k : kernel) : kernel :=
  Kernel (cfg k) (desc k) (frame_data k) (table k) (free k) (replacer k) (disk k) (dirty_page_count k) (sched k)
    (completed k) (next_task k) (clean k) (written_files k) (failed k) (closed k) l (operations k) (strategies k).
Definition set_operations (o : gmap nat read_state) (k : kernel) : kernel :=
  Kernel (cfg k) (desc k) (frame_data k) (table k) (free k) (replacer k) (disk k) (dirty_page_count k) (sched k)
    (completed k) (next_task k) (clean k) (written_files k) (failed k) (closed k) (loads k) o (strategies k).
Definition set_strategies (s : nat -> strategy) (k : kernel) : kernel :=
  Kernel (cfg k) (desc k) (frame_data k) (table k) (free k) (replacer k) (disk k) (dirty_page_count k) (sched k)
    (completed k) (next_task k) (clean k) (written_files k) (failed k) (closed k) (loads k) (operations k) s.

(** ** Calls *)

Definition M (A : Type) : Type := kernel -> option (A * kernel).

Definition ret {A} (a : A) : M A := fun k => Some (a, k).
Definition bind {A C} (m : M A) (f : A -> M C) : M C := fun k => '(a, k) ← m k; f a k.
(** A call that never returns. *)
Definition diverge {A} : M A := fun _ => None.
Definition get {A} (f : kernel -> A) : M A := fun k => Some (f k, k).
Definition modify (f : kernel -> kernel) : M unit := fun k => Some (tt, f k).

Local Notation "x <- m ;; k" := (bind m (fun x => k)) (at level 100, m at next level, right associativity).
Local Notation "m ;; k" := (bind m (fun _ => k)) (at level 100, right associativity).

(** A loop [while (true)] with fuel; [inr] leaves it. *)
Fixpoint loop {A C} (fuel : nat) (body : A -> M (A + C)) (a : A) : M C :=
  match fuel with
  | O => diverge
  | S fuel => r <- body a ;; match r with inl a => loop fuel body a | inr c => ret c end
  end.

(** The calls for every element, in order. *)
Fixpoint for_each {A} (l : list A) (body : A -> M unit) : M unit :=
  match l with
  | [] => ret tt
  | a :: l => body a ;; for_each l body
  end.

Definition frame_ids (k : kernel) : list Z := seqZ 0 (pool_size (cfg k)).

(** ** Descriptors *)

Definition upd_desc (f : Z) (g : descriptor -> descriptor) : M unit :=
  modify (fun k => set_desc (<[f := g (desc k f)]> (desc k)) k).

Definition set_control (w : Z) (d : descriptor) : descriptor :=
  Descriptor w (last_writeback_error d) (version d) (d_tag d) (rec_lsn d) (writeback_rec_lsn d).
Definition set_error (e : Z) (d : descriptor) : descriptor :=
  Descriptor (control d) e (version d) (d_tag d) (rec_lsn d) (writeback_rec_lsn d).
Definition set_version (v : Z) (d : descriptor) : descriptor :=
  Descriptor (control d) (last_writeback_error d) v (d_tag d) (rec_lsn d) (writeback_rec_lsn d).
Definition set_tag (t : BufferTag) (d : descriptor) : descriptor :=
  Descriptor (control d) (last_writeback_error d) (version d) t (rec_lsn d) (writeback_rec_lsn d).
Definition set_rec_lsn (l : Z) (d : descriptor) : descriptor :=
  Descriptor (control d) (last_writeback_error d) (version d) (d_tag d) l (writeback_rec_lsn d).
Definition set_writeback_rec_lsn (l : Z) (d : descriptor) : descriptor :=
  Descriptor (control d) (last_writeback_error d) (version d) (d_tag d) (rec_lsn d) l.

(** An operation on a control word with no other thread at it; one that keeps
    reloading never returns. *)
Definition on_word {A} (f : Z) (body : Z -> cas_step Z A) : M A := fun k =>
  '(w, _, a) ← run_alone body (control (desc k f));
  Some (a, set_desc (<[f := set_control w (desc k f)]> (desc k)) k).

Definition lower_rec_lsn (f lsn : Z) : M unit := fun k =>
  '(l, _, a) ← run_alone (LowerRecLsn lsn) (rec_lsn (desc k f));
  Some (a, set_desc (<[f := set_rec_lsn l (desc k f)]> (desc k)) k).

Definition LoadTag (f : Z) : M BufferTag := get (fun k => d_tag (desc k f)).
Definition StoreTag (f : Z) (t : BufferTag) : M unit := upd_desc f (set_tag t).
Definition word (f : Z) : M Z := get (fun k => control (desc k f)).

Definition CheckUsable : M Status :=
  get (fun k => if failed k then Failed "buffer manager is in the failed state"
                else if closed k then Unavailable "buffer manager is closed" 0 else Ok tt).

(** ** Cleaner candidates *)

Definition on_cleaner (g : cleaner -> cleaner) : M unit :=
  modify (fun k => set_cleaner (g <$> clean k) k).

Definition ResetCleanerCandidate (f : Z) : M unit := fun k =>
  if pool_size (cfg k) <=? f then Some (tt, k) else on_cleaner (ResetCandidate f) k.

Definition MaybeEnqueueCleanerCandidate (f : Z) : M unit := fun k =>
  if pool_size (cfg k) <=? f then Some (tt, k) else on_cleaner (EnqueueCandidate f) k.

Definition ShouldQueueCleanerCandidate (w : Z) : bool :=
  IsResident w && IsDirty w && (Pins w =? 0) && negb (HasWriteback w).

Definition SeedCleanerCandidates : M unit :=
  ids <- get frame_ids ;;
  for_each ids (fun f =>
    w <- word f ;; if ShouldQueueCleanerCandidate w then MaybeEnqueueCleanerCandidate f else ret tt).

(** ** Finishing a writeback *)

Definition BeginFlushTask (t : flush_task) : M unit :=
  if negb (clear_dirty_on_success t) then ret tt
  else on_word (task_frame t) BeginWriteback ;; ret tt.

Definition NoteLocalWrittenFile (file : Z) : M unit :=
  modify (fun k => set_written (if decide (file ∈ written_files k) then written_files k
                                else written_files k ++ [file]) k).

Definition FinalizeFlushTask (t : flush_task) (flush_status : Status) : M unit :=
  let f := task_frame t in
  (if clear_dirty_on_success t then
     upd_desc f (set_error (PackWritebackError flush_status)) ;;
     (if has_value flush_status then upd_desc f (set_writeback_rec_lsn kInvalidLsn)
      else lsn <- get (fun k => writeback_rec_lsn (desc k f)) ;; lower_rec_lsn f lsn) ;;
     completion <- on_word f (CompleteWriteback (has_value flush_status)) ;;
     (if cleared_dirty completion
      then modify (fun k => set_dirty_count (u64 (dirty_page_count k - 1)) k) else ret tt) ;;
     if ShouldQueueCleanerCandidate (completion_word completion) then MaybeEnqueueCleanerCandidate f
     else if cleared_dirty completion then ResetCleanerCandidate f else ret tt
   else ret tt) ;;
  (if task_cleaner_owned t then on_cleaner OnFlushFinished else ret tt) ;;
  if has_value flush_status then NoteLocalWrittenFile (file_id (task_tag t)) else ret tt.

(** [IoEngine::Submit] and [Wait] for one write. *)
Definition write_block (t : BufferTag) (p : page) : M Status := fun k =>
  let '(r, b) := disk_write t p (disk k) in Some (r, set_disk b k).

(** [task->Complete(status)] *)
Definition complete_task (t : flush_task) (s : Status) : M unit :=
  modify (fun k => set_tasks (<[task_id t := s]> (completed k)) (next_task k) k).

Definition CompleteTask (t : flush_task) (s : Status) : M unit :=
  FinalizeFlushTask t s ;; complete_task t s.

Fixpoint write_all (ts : list flush_task) : M (list Status) :=
  match ts with
  | [] => ret []
  | t :: ts => s <- write_block (task_tag t) (task_snapshot t) ;; ss <- write_all ts ;; ret (s :: ss)
  end.

(** One round of the loop of the flush worker with counter 0; [false] when it
    would sleep. *)
Definition worker_round : M bool := fun k =>
  match TakeNextBatch 0 (sched k) with
  | None => Some (false, k)
  | Some (ts, _, s) =>
      (for_each ts BeginFlushTask ;;
       ss <- write_all ts ;;
       for_each (zip ts ss) (fun ts => CompleteTask ts.1 ts.2) ;;
       ret (negb (is_empty ts))) (set_sched s k)
  end.

(** ** Finishing a read *)

Definition ReleaseFreeFrame (f : Z) : M unit :=
  ResetCleanerCandidate f ;; modify (fun k => set_free (push_free f (free k)) k).

Definition AbortLoadReservation (f : Z) (tag : BufferTag) (status : Status) : M Status :=
  modify (fun k => set_table (remove_frame tag f (table k)) k) ;;
  modify (fun k => set_replacer (Remove 0 f (replacer k)) k) ;;
  StoreTag f no_page ;;
  on_word f ReleaseToFree ;;
  ReleaseFreeFrame f ;;
  ret status.

Definition PublishLoadedFrame (reservation : FrameReservation) (release_pin : bool) : M unit :=
  let f := res_frame reservation in
  ResetCleanerCandidate f ;;
  modify (fun k => set_replacer (RecordLoad 0 f (replacer k)) k) ;;
  on_word f (PublishResident release_pin) ;; ret tt.

(** Reading one block into a frame. *)
Definition read_block (f : Z) (tag : BufferTag) : M Status := fun k =>
  let '(r, b) := disk_read tag (disk k) in
  let k := set_disk b k in
  match r with
  | Ok p => Some (Ok tt, set_data (<[f := p]> (frame_data k)) k)
  | Err e => Some (Err e, k)
  end.

Definition upd_operation (o : nat) (g : read_state -> read_state) : M unit :=
  modify (fun k => set_operations (alter g o (operations k)) k).

(** [IoWaiter::Complete] *)
Definition waiter_complete (s : Status) (r : read_state) : read_state :=
  ReadState (rs_strategy r) (rs_tags r) (rs_frames r) (rs_slots r) (u32 (rs_pending r - 1))
    (match rs_error r, s with Ok _, Err e => Err e | e, _ => e end).
Definition set_slot (i : nat) (v : read_slot) (r : read_state) : read_state :=
  ReadState (rs_strategy r) (rs_tags r) (rs_frames r) (<[i := v]> (rs_slots r)) (rs_pending r) (rs_error r).

Definition FinishAsyncLoad (load : async_load) (status : Status) : M unit :=
  for_each (al_entries load) (fun '(tag, reservation, slot) =>
    if has_value status then
      PublishLoadedFrame reservation (match al_operation load with None => true | Some _ => false end)
    else
      AbortLoadReservation (res_frame reservation) tag status ;;
      match al_operation load with
      | Some o => upd_operation o (set_slot slot SlotFailed)
      | None => ret tt
      end) ;;
  match al_operation load with
  | Some o => upd_operation o (waiter_complete status)
  | None => ret tt
  end.

(** The blocks of one request, up to the first failure. *)
Fixpoint read_blocks (es : list (BufferTag * FrameReservation * nat)) : M Status :=
  match es with
  | [] => ret (Ok tt)
  | (tag, reservation, _) :: es =>
      s <- read_block (res_frame reservation) tag ;;
      match s with Ok _ => read_blocks es | Err e => ret (Err e) end
  end.

(** The oldest read in flight completes; [false] when there is none. *)
Definition complete_load : M bool := fun k =>
  match loads k with
  | [] => Some (false, k)
  | l :: ls => (s <- read_blocks (al_entries l) ;; FinishAsyncLoad l s ;; ret true) (set_loads ls k)
  end.

(** ** Waiting *)

(** Background work advances; with none left the caller waits for ever. *)
Definition progress : M unit :=
  b <- complete_load ;;
  if (b : bool) then ret tt else b <- worker_round ;; if (b : bool) then ret tt else diverge.

(** Enough rounds for everything in the background to finish, twice for
    [WaitWhile], which first announces itself. *)
Definition pending_work (k : kernel) : nat :=
  (length (loads k) + length (foreground_queue (sched k)) + length (background_queue (sched k)))%nat.
Definition wait_fuel (k : kernel) : nat := (2 * pending_work k + 3)%nat.

Definition wait_while (f : Z) (blocked : kernel -> Z -> bool) : M unit := fun k =>
  loop (wait_fuel k) (fun _ k =>
    match WaitWhile (blocked k) (control (desc k f)) with
    | WaitReturn _ => Some (inr tt, k)
    | WaitSetWaiters next => Some (inl tt, set_desc (<[f := set_control next (desc k f)]> (desc k)) k)
    | WaitSleep _ => (progress ;; ret (inl tt)) k
    end) tt k.

(** Takes the latch or waits for it. *)
Definition acquire (f : Z) (try : Z -> cas_step Z bool) (blocked : Z -> bool) : M unit := fun k =>
  loop (wait_fuel k) (fun _ =>
    ok <- on_word f try ;;
    if (ok : bool) then ret (inr tt) else wait_while f (fun _ => blocked) ;; ret (inl tt)) tt k.

Definition AcquireShared (f : Z) : M unit := acquire f TryAcquireShared shared_blocked.
Definition AcquireExclusive (f : Z) : M unit := acquire f TryAcquireExclusive exclusive_blocked.

Definition WaitForPendingFlush (f : Z) : M Status :=
  wait_while f (fun _ => HasWriteback) ;;
  e <- get (fun k => UnpackWritebackError (last_writeback_error (desc k f))) ;;
  match e with Some s => ret s | None => diverge end.

Definition loading_tag (k : kernel) (f : Z) (tag : BufferTag) : bool :=
  StateIs (control (desc k f)) kLoading && tag_eqb (d_tag (desc k f)) tag.

Definition IsLoadingTag (f : Z) (tag : BufferTag) : M bool := get (fun k => loading_tag k f tag).

(** The predicate ignores the word it is given and reads the descriptor again. *)
Definition WaitForLoad (f : Z) (tag : BufferTag) : M unit :=
  wait_while f (fun k _ => loading_tag k f tag).

(** [flush_scheduler_->Wait(task)] *)
Definition WaitTask (t : flush_task) : M Status := fun k =>
  loop (S (pending_work k)) (fun _ =>
    s <- get (fun k => completed k !! task_id t) ;;
    match s with
    | Some s => ret (inr s)
    | None => b <- worker_round ;; if (b : bool) then ret (inl tt) else diverge
    end) tt k.

(** ** Releasing a pin *)

Definition ReleaseFrame (f : Z) : M unit :=
  previous <- on_word f Unpin ;;
  match previous with
  | None => ret tt
  | Some w =>
      if negb (Pins w =? 1) then ret tt
      else if negb (IsDirty w) then ret tt
      else MaybeEnqueueCleanerCandidate f
  end.

(** ** Writing back

    [stable_data] is null or points to the memory of a frame (every caller passes
    a handle's data pointer): [stable] is that frame. *)

Definition CaptureFlushSnapshot (f : Z) (stable : option Z) : M page :=
  get (fun k => frame_data k (default f stable)).

(** The loop of [PrepareFlushTask] with the latch held or not needed: [inl] is an
    error or [false], [inr] the tag and the snapshot; the second component is
    [*was_busy]. *)
Definition prepare_loop (f : Z) (stable : option Z) (opportunistic cleaner_owned : bool)
    : M (Result (option (BufferTag * page)) * bool) := fun k =>
  loop (wait_fuel k) (fun _ =>
    outcome <- on_word f (TryQueueWriteback cleaner_owned) ;;
    match outcome with
    | kQueued =>
        upd_desc f (set_error 0) ;;
        modify (fun k => set_desc (<[f := set_writeback_rec_lsn (rec_lsn (desc k f)) (desc k f)]> (desc k)) k) ;;
        upd_desc f (set_rec_lsn kInvalidLsn) ;;
        tag <- LoadTag f ;;
        snapshot <- CaptureFlushSnapshot f stable ;;
        ret (inr (Ok (Some (tag, snapshot)), false))
    | kNotDirty => ret (inr (Ok None, false))
    | kPinned => ret (inr (Ok None, true))
    | kPending =>
        if match stable with None => true | Some _ => false end && opportunistic
        then ret (inr (Ok None, true))
        else
          s <- WaitForPendingFlush f ;;
          match s with Ok _ => ret (inl tt) | Err e => ret (inr (Err e, false)) end
    end) tt k.

Definition PrepareFlushTask (f : Z) (stable : option Z) (opportunistic cleaner_owned : bool)
    : M (Result (option (BufferTag * page)) * bool) :=
  match stable with
  | Some _ => prepare_loop f stable opportunistic cleaner_owned
  | None =>
      if negb opportunistic then
        AcquireShared f ;;
        r <- prepare_loop f stable opportunistic cleaner_owned ;;
        on_word f ReleaseShared ;; ret r
      else
        ok <- on_word f TryAcquireShared ;;
        if negb ok then ret (Ok None, true)
        else
          r <- prepare_loop f stable opportunistic cleaner_owned ;;
          on_word f ReleaseShared ;; ret r
  end.

Definition RollBackFlushTask (f : Z) (cleaner_owned : bool) (status : Status) : M Status :=
  (if cleaner_owned then on_cleaner OnFlushFinished else ret tt) ;;
  upd_desc f (set_error (PackWritebackError status)) ;;
  lsn <- get (fun k => writeback_rec_lsn (desc k f)) ;;
  lower_rec_lsn f lsn ;;
  on_word f CancelQueuedWriteback ;;
  ret status.

(** The result is the task or none, with [*was_busy]. *)
Definition CreateFlushTask (f : Z) (stable : option Z) (opportunistic cleaner_owned : bool)
    : M (Result (option flush_task) * bool) :=
  n <- get (fun k => pool_size (cfg k)) ;;
  if n <=? f then ret (InvalidArgument "invalid frame id", false)
  else
    prepared <- PrepareFlushTask f stable opportunistic cleaner_owned ;;
    match prepared with
    | (Err e, busy) => ret (Err e, busy)
    | (Ok None, busy) => ret (Ok None, busy)
    | (Ok (Some (tag, snapshot)), busy) =>
        id <- get next_task ;;
        modify (fun k => set_tasks (completed k) (S (next_task k)) k) ;;
        let task := FlushTask id f tag true cleaner_owned snapshot in
        hook <- get (fun k => pre_write_hook (cfg k)) ;;
        match hook with
        | None => ret (Ok (Some task), busy)
        | Some h =>
            match h tag snapshot with
            | Ok _ => ret (Ok (Some task), busy)
            | Err e =>
                s <- RollBackFlushTask f cleaner_owned (Err e) ;;
                ret (match s with Ok _ => Ok (Some task) | Err e => Err e end, busy)
            end
        end
    end.

Definition EnqueueFlushTask (t : flush_task) : M Status :=
  (if task_cleaner_owned t then on_cleaner OnFlushScheduled else ret tt) ;;
  fun k => let '(r, s) := Enqueue task_cleaner_owned t (sched k) in Some (r, set_sched s k).

Definition TryScheduleFlushTask (f : Z) (stable : option Z) (opportunistic cleaner_owned : bool)
    : M (Result (option flush_task) * bool) :=
  created <- CreateFlushTask f stable opportunistic cleaner_owned ;;
  match created with
  | (Ok (Some task), busy) =>
      s <- EnqueueFlushTask task ;;
      match s with
      | Ok _ => ret (Ok (Some task), busy)
      | Err e =>
          s <- RollBackFlushTask f cleaner_owned (Err e) ;;
          ret (match s with Ok _ => Ok None | Err e => Err e end, busy)
      end
  | r => ret r
  end.

Definition WriteFlushTaskDirect (t : flush_task) : M Status :=
  BeginFlushTask t ;;
  s <- write_block (task_tag t) (task_snapshot t) ;;
  FinalizeFlushTask t s ;;
  ret s.

Definition ForegroundFlushRound (f : Z) (stable : option Z) : M (Result bool) :=
  queued <- get (fun k => bool_decide (foreground_writeback (cfg k) = kQueuedWriteback)) ;;
  created <- (if (queued : bool) then TryScheduleFlushTask f stable false false
              else CreateFlushTask f stable false false) ;;
  match created with
  | (Err e, _) => ret (Err e)
  | (Ok None, _) => ret (Ok false)
  | (Ok (Some t), _) =>
      s <- (if queued then WaitTask t else WriteFlushTaskDirect t) ;;
      ret (match s with Ok _ => Ok true | Err e => Err e end)
  end.

(** A round that writes leaves the page clean unless it is written meanwhile, so
    with no other thread the second round finds nothing to do. *)
Definition RunForegroundFlush (f : Z) (stable : option Z) : M Status :=
  loop 3 (fun _ =>
    wrote <- ForegroundFlushRound f stable ;;
    match wrote with
    | Err e => ret (inr (Err e))
    | Ok false => ret (inr (Ok tt))
    | Ok true => ret (inl tt)
    end) tt.

Definition FlushFrameWithStableSource (f : Z) (stable : option Z) : M Status :=
  n <- get (fun k => pool_size (cfg k)) ;;
  if n <=? f then ret (InvalidArgument "invalid frame id") else RunForegroundFlush f stable.

Definition FlushFrame (f : Z) : M Status := FlushFrameWithStableSource f None.

Definition FlushFrameOnce (f : Z) (stable : option Z) : M Status :=
  wrote <- ForegroundFlushRound f stable ;;
  ret (match wrote with Ok _ => Ok tt | Err e => Err e end).

End Kernel.

Declare Scope kernel_scope.
Delimit Scope kernel_scope with kernel.
Notation "x <- m ;; k" := (bind m (fun x => k))
  (at level 100, m at next level, right associativity) : kernel_scope.
Notation "m ;; k" := (bind m (fun _ => k)) (at level 100, right associativity) : kernel_scope.
