(* ===== verification/Manager.v ===== *)
(** The public operations of a buffer manager: eviction, reading, handles,
    flushing, dropping and closing ([lib/buffer/buffer_manager.cc] and its
    companions [_eviction.cc], [_read.cc], [_handle.cc], [_cleaner.cc],
    [_lifecycle.cc], [lib/buffer/buffer_handle.cc], [buffer_access_strategy.cc]). *)
From stdpp Require Import strings.
From S2P Require Import Prelude Status CasLoop FrameControl Layout Replacer FlushScheduler Cleaner Interfaces Kernel.

Section Manager.
Context {T F R B : Type} `{FrameTable T} `{FreeFrames F} `{Replacer R} `{Backend B}.

Local Open Scope kernel_scope.
Local Abbreviation kernel := (kernel T F R B).
Local Abbreviation M := (@M T F R B).

(** ** Access strategies *)

Definition kDefaultBulkReadRingSize : nat := 32.

Definition NewStrategy (bulk : bool) (ring_size : nat) : strategy :=
  if negb bulk then Strategy false [] 0
  else Strategy true (replicate (if decide (ring_size = O) then kDefaultBulkReadRingSize else ring_size) kInvalidFrameId) 0.

Definition RecordsAccesses (s : strategy) : bool := negb (bulk_read s).

Definition NextRingFrame (s : strategy) : Z * strategy :=
  match ring s with
  | [] => (kInvalidFrameId, s)
  | _ =>
      let current := (current s + 1) mod Z.of_nat (length (ring s)) in
      (default kInvalidFrameId (ring s !! Z.to_nat current), Strategy (bulk_read s) (ring s) current)
  end.

Definition RememberRingFrame (f : Z) (s : strategy) : strategy :=
  match ring s with
  | [] => s
  | _ => Strategy (bulk_read s) (<[Z.to_nat (current s) := f]> (ring s)) (current s)
  end.

Definition on_strategy {A} (p : nat) (g : strategy -> A * strategy) : M A := fun k =>
  let '(a, s) := g (strategies k p) in Some (a, set_strategies (<[p := s]> (strategies k)) k).

Definition record_access (st : option nat) : M bool :=
  match st with None => ret true | Some p => get (fun k => RecordsAccesses (strategies k p)) end.

(** ** Eviction *)

Definition IsEvictable (k : kernel) (f : Z) : bool :=
  if pool_size (cfg k) <=? f then false
  else
    let w := control (desc k f) in
    if negb (IsResident w) || negb (Pins w =? 0) then false
    else negb (any_bit w (Z.lor kLatchMask kWritebackMask)).

(** A frame to reserve and whether it came from the free list. *)
Definition AcquireReservationFrame : M (Result (Z * bool)) := fun k =>
  match pop_free (free k) with
  | (Some f, s) => Some (Ok (f, true), set_free s k)
  | (None, s) =>
      let k := set_free s k in
      match Victim (IsEvictable k) (replacer k) with
      | (Some f, r) => Some (Ok (f, false), set_replacer r k)
      | (None, r) => Some (ResourceExhausted "no evictable frame available", set_replacer r k)
      end
  end.

Definition IsLiveFor (k : kernel) (f : Z) (tag : BufferTag) : bool :=
  negb (StateIs (control (desc k f)) kFree) && tag_eqb (d_tag (desc k f)) tag.

Definition InstallReservationEntry (tag : BufferTag) (r : FrameReservation) : M (option Z) := fun k =>
  let old := if had_evicted_page r then Some (evicted_tag r) else None in
  let '(x, t) := replace_unless_live old tag (res_frame r) (fun g => IsLiveFor k g tag) (table k) in
  Some (x, set_table t k).

Inductive FrameReservationOutcome :=
  | FrameReserved (r : FrameReservation) | FrameNeedsFlush | FrameRejected | FrameTagExists.

Definition TryReserveFrameForTag (f : Z) (tag : BufferTag) (allow_victim_flush from_free_list : bool)
    : M FrameReservationOutcome :=
  r <- on_word f (TryReserve from_free_list) ;;
  match r with
  | (kRejected, _) => ret FrameRejected
  | (kNeedsFlush, _) => ret (if allow_victim_flush then FrameNeedsFlush else FrameRejected)
  | (kReserved, observed) =>
      let had := IsResident observed in
      old <- LoadTag f ;;
      let reservation := MkReservation f had (if had then old else no_page) in
      StoreTag f tag ;;
      upd_desc f (fun d => set_version (u64 (version d + 1)) d) ;;
      existing <- InstallReservationEntry tag reservation ;;
      match existing with
      | Some _ =>
          modify (fun k => set_replacer (Remove 0 f (replacer k)) k) ;;
          StoreTag f no_page ;;
          on_word f ReleaseToFree ;;
          ReleaseFreeFrame f ;;
          ret FrameTagExists
      | None => ResetCleanerCandidate f ;; ret (FrameReserved reservation)
      end
  end.

Definition FlushVictimBeforeReuse (f : Z) : M Status := FlushFrame f.

Definition HasPinnedFrame : M bool :=
  get (fun k => existsb (fun f => negb (Pins (control (desc k f)) =? 0)) (frame_ids k)).

Definition HasTransientFrame : M bool :=
  get (fun k => existsb (fun f => let w := control (desc k f) in
                                  (Pins w =? 0) || StateIs w kLoading) (frame_ids k)).

(** ** Reading *)

Inductive ReadBufferMode := kNormal | kZeroAndLock.
Inductive ResidentProbe := ProbePinned (f : Z) | ProbeLoading (f : Z) | ProbeAbsent.

Definition TryPinResidentFrame (f : Z) (tag : BufferTag) (record : bool) : M bool :=
  pinned <- on_word f TryPinResident ;;
  if negb pinned then ret false
  else
    t <- LoadTag f ;;
    if negb (tag_eqb t tag) then on_word f Unpin ;; ret false
    else
      (if record then modify (fun k => set_replacer (RecordAccess 0 f (replacer k)) k) else ret tt) ;;
      ret true.

Definition ProbeResident (tag : BufferTag) (record : bool) : M ResidentProbe :=
  mapped <- get (fun k => lookup_frame tag (table k)) ;;
  match mapped with
  | None => ret ProbeAbsent
  | Some f =>
      pinned <- TryPinResidentFrame f tag record ;;
      if (pinned : bool) then ret (ProbePinned f)
      else
        loading <- IsLoadingTag f tag ;;
        ret (if loading then ProbeLoading f else ProbeAbsent)
  end.

Definition IsResidentTag (tag : BufferTag) : M bool :=
  get (fun k => match lookup_frame tag (table k) with
                | None => false
                | Some f => IsLiveFor k f tag
                end).

(** The spinning of [AcquireVictimFrame] lets background work advance. *)
Definition AcquireVictimFrame (wait_for_frame : bool) : M (Result (Z * bool)) := fun k =>
  loop (S (pending_work k)) (fun _ =>
    frame <- AcquireReservationFrame ;;
    match frame with
    | Ok c => ret (inr (Ok c))
    | Err e =>
        transient <- HasTransientFrame ;;
        if negb (bool_decide (code e = kResourceExhausted)) || negb wait_for_frame || negb transient
        then ret (inr (Err e)) else progress ;; ret (inl tt)
    end) tt k.

Definition ReserveVictim (candidate : Z * bool) (tag : BufferTag) : M (Result FrameReservationOutcome) :=
  let '(f, from_free_list) := candidate in
  outcome <- TryReserveFrameForTag f tag true from_free_list ;;
  match outcome with
  | FrameNeedsFlush =>
      s <- FlushVictimBeforeReuse f ;;
      match s with
      | Err e => ret (Err e)
      | Ok _ => outcome <- TryReserveFrameForTag f tag false false ;; ret (Ok outcome)
      end
  | o => ret (Ok o)
  end.

Definition TryReserveRingFrame (tag : BufferTag) (st : option nat) : M FrameReservationOutcome :=
  match st with
  | None => ret FrameRejected
  | Some p =>
      f <- on_strategy p NextRingFrame ;;
      n <- get (fun k => pool_size (cfg k)) ;;
      if (f =? kInvalidFrameId) || (n <=? f) then ret FrameRejected
      else TryReserveFrameForTag f tag false false
  end.

(** One candidate per pass; a pass fails only when another thread took the frame. *)
Definition ReserveFrameForTag (tag : BufferTag) (st : option nat) (wait_for_frame : bool)
    : M (Result (option FrameReservation)) :=
  ring_outcome <- TryReserveRingFrame tag st ;;
  match ring_outcome with
  | FrameReserved r => ret (Ok (Some r))
  | FrameTagExists => ret (Ok None)
  | _ =>
      loop 2 (fun _ =>
        candidate <- AcquireVictimFrame wait_for_frame ;;
        match candidate with
        | Err e => ret (inr (Err e))
        | Ok c =>
            outcome <- ReserveVictim c tag ;;
            match outcome with
            | Err e => ret (inr (Err e))
            | Ok FrameTagExists => ret (inr (Ok None))
            | Ok (FrameReserved r) =>
                match st with
                | Some p => on_strategy p (fun s => (tt, RememberRingFrame c.1 s))
                | None => ret tt
                end ;;
                ret (inr (Ok (Some r)))
            | Ok _ => (if c.2 then ReleaseFreeFrame c.1 else ret tt) ;; ret (inl tt)
            end
        end) tt
  end.

Definition ReadReservedPage (f : Z) (tag : BufferTag) : M Status := read_block f tag.

(** The frame and whether the exclusive latch is held. *)
Definition CompleteReservation (tag : BufferTag) (r : FrameReservation) (mode : ReadBufferMode)
    : M (Result (Z * bool)) :=
  let f := res_frame r in
  match mode with
  | kZeroAndLock =>
      modify (fun k => set_data (<[f := zero_page (geometry (cfg k))]> (frame_data k)) k) ;;
      AcquireExclusive f ;;
      PublishLoadedFrame r false ;;
      ret (Ok (f, true))
  | kNormal =>
      s <- ReadReservedPage f tag ;;
      match s with
      | Ok _ => PublishLoadedFrame r false ;; ret (Ok (f, false))
      | Err e => s <- AbortLoadReservation f tag (Err e) ;; ret (match s with Ok _ => Ok (f, false) | Err e => Err e end)
      end
  end.

Definition LoadPage (tag : BufferTag) (st : option nat) (mode : ReadBufferMode)
    : M (Result (option (Z * bool))) :=
  reserved <- ReserveFrameForTag tag st true ;;
  match reserved with
  | Err e => ret (Err e)
  | Ok None => ret (Ok None)
  | Ok (Some r) =>
      frame <- CompleteReservation tag r mode ;;
      ret (match frame with Ok c => Ok (Some c) | Err e => Err e end)
  end.

Definition PinPage (tag : BufferTag) (st : option nat) (mode : ReadBufferMode) : M (Result (Z * bool)) :=
  usable <- CheckUsable ;;
  match usable with
  | Err e => ret (Err e)
  | Ok _ =>
      record <- record_access st ;;
      fun k => loop (wait_fuel k) (fun _ =>
        probe <- ProbeResident tag record ;;
        match probe with
        | ProbePinned f => ret (inr (Ok (f, false)))
        | ProbeLoading f => WaitForLoad f tag ;; ret (inl tt)
        | ProbeAbsent =>
            loaded <- LoadPage tag st mode ;;
            match loaded with
            | Ok (Some c) => ret (inr (Ok c))
            | Ok None => ret (inl tt)
            | Err e =>
                resident <- IsResidentTag tag ;;
                if negb (bool_decide (code e = kResourceExhausted)) || negb resident
                then ret (inr (Err e)) else ret (inl tt)
            end
        end) tt k
  end.

(** ** Handles *)

(** [valid] is [manager_ != nullptr] of a handle of this manager. *)
Record handle := Handle { h_valid : bool; h_exclusive : bool; h_frame : Z; h_tag : BufferTag; marked_dirty : bool }.

Definition MakeSharedHandle (f : Z) (tag : BufferTag) : M handle :=
  AcquireShared f ;; ret (Handle true false f tag false).

Definition MakeExclusiveHandle (f : Z) (tag : BufferTag) (latched : bool) : M handle :=
  (if latched then ret tt else AcquireExclusive f) ;; ret (Handle true true f tag false).

Definition ReleaseSharedHandle (f : Z) : M unit := on_word f ReleaseShared ;; ReleaseFrame f.

Definition ReleaseExclusiveHandle (f : Z) : M unit :=
  upd_desc f (fun d => set_version (bump_version (version d)) d) ;;
  on_word f ReleaseExclusive ;; ReleaseFrame f.

Definition MarkHandleDirty (f lsn : Z) : M unit :=
  became_dirty <- on_word f MarkDirty ;;
  lower_rec_lsn f lsn ;;
  if default false became_dirty
  then modify (fun k => set_dirty_count (u64 (dirty_page_count k + 1)) k) else ret tt.

(** [Reset]: the handle afterwards. *)
Definition Reset (h : handle) : M handle :=
  if negb (h_valid h) then ret h
  else
    (if h_exclusive h then ReleaseExclusiveHandle (h_frame h) else ReleaseSharedHandle (h_frame h)) ;;
    ret (Handle false (h_exclusive h) kInvalidFrameId (h_tag h) false).

(** [mutable_data] followed by storing [p] through the span it returns. *)
Definition WritePage (h : handle) (p : page) : M handle :=
  if negb (h_valid h) then ret h
  else
    (if marked_dirty h then ret tt else MarkHandleDirty (h_frame h) kInvalidLsn) ;;
    modify (fun k => set_data (<[h_frame h := p]> (frame_data k)) k) ;;
    ret (Handle true (h_exclusive h) (h_frame h) (h_tag h) true).

Definition HandleMarkDirty (h : handle) (lsn : Z) : M handle :=
  if negb (h_valid h) then ret h
  else MarkHandleDirty (h_frame h) lsn ;; ret (Handle true (h_exclusive h) (h_frame h) (h_tag h) true).

(** ** Public operations *)

Definition ReadBuffer (tag : BufferTag) (st : option nat) : M (Result handle) :=
  frame <- PinPage tag st kNormal ;;
  match frame with
  | Err e => ret (Err e)
  | Ok (f, _) => h <- MakeSharedHandle f tag ;; ret (Ok h)
  end.

Definition ReadBufferExclusive (tag : BufferTag) (st : option nat) (mode : ReadBufferMode) : M (Result handle) :=
  frame <- PinPage tag st mode ;;
  match frame with
  | Err e => ret (Err e)
  | Ok (f, latched) => h <- MakeExclusiveHandle f tag latched ;; ret (Ok h)
  end.

(** The check every public operation starts with. *)
Definition usable_then {A} (m : M (Result A)) : M (Result A) :=
  usable <- CheckUsable ;; match usable with Err e => ret (Err e) | Ok _ => m end.

Definition not_this_manager {A} : Result A := InvalidArgument "buffer handle does not belong to this buffer manager".

Definition ReleaseBuffer (h : handle) : M (Result handle) :=
  usable_then (if negb (h_valid h) then ret not_this_manager else h <- Reset h ;; ret (Ok h)).

Definition FlushBufferShared (h : handle) : M Status :=
  usable_then (if negb (h_valid h) then ret not_this_manager
               else FlushFrameWithStableSource (h_frame h) (Some (h_frame h))).

Definition FlushBufferExclusive (h : handle) : M Status :=
  usable_then (if negb (h_valid h) then ret not_this_manager
               else FlushFrameOnce (h_frame h) (Some (h_frame h))).

Definition FlushBuffer (tag : BufferTag) : M Status :=
  usable_then
    (mapped <- get (fun k => lookup_frame tag (table k)) ;;
     match mapped with
     | None => ret (Ok tt)
     | Some f =>
         pinned <- TryPinResidentFrame f tag false ;;
         if negb pinned then ret (Ok tt)
         else s <- FlushFrame f ;; ReleaseFrame f ;; ret s
     end).

(** ** Syncing files *)

Fixpoint sync_all (files : list Z) : M Status :=
  match files with
  | [] => ret (Ok tt)
  | f :: files =>
      s <- (fun k => let '(r, b) := disk_sync f (disk k) in Some (r, set_disk b k)) ;;
      rest <- sync_all files ;;
      ret (match s with Ok _ => rest | Err e => Err e end)
  end.

Definition SyncFiles (files : list Z) : M Status :=
  match files with
  | [] => ret (Ok tt)
  | _ =>
      s <- sync_all files ;;
      (if has_value s then ret tt else for_each files NoteLocalWrittenFile) ;;
      ret s
  end.

Definition SyncWrittenFiles : M Status :=
  files <- get written_files ;; modify (set_written []) ;; SyncFiles files.

Definition SyncFile (file : Z) : M Status :=
  usable_then (modify (fun k => set_written (without file (written_files k)) k) ;; SyncFiles [file]).

(** ** Writing back many frames *)

(** Keeps the first error. *)
Definition first_error (a b : Status) : Status := match a with Ok _ => b | Err e => Err e end.

Fixpoint WaitForScheduledFlushes (ts : list flush_task) : M Status :=
  match ts with
  | [] => ret (Ok tt)
  | t :: ts => s <- WaitTask t ;; rest <- WaitForScheduledFlushes ts ;; ret (first_error s rest)
  end.

Fixpoint FlushBusyFrames (fs : list Z) : M Status :=
  match fs with
  | [] => ret (Ok tt)
  | f :: fs => s <- FlushFrame f ;; rest <- FlushBusyFrames fs ;; ret (first_error s rest)
  end.

(** The scheduling pass: the queued tasks and the busy frames, or the error that
    ended it. *)
Fixpoint schedule_frames (selected : kernel -> Z -> bool) (fs : list Z)
    : M (Result (list flush_task * list Z)) :=
  match fs with
  | [] => ret (Ok ([], []))
  | f :: fs =>
      sel <- get (fun k => selected k f) ;;
      if negb sel then schedule_frames selected fs
      else
        r <- TryScheduleFlushTask f None true false ;;
        match r with
        | (Err e, _) => ret (Err e)
        | (Ok t, busy) =>
            rest <- schedule_frames selected fs ;;
            ret (match rest with
                 | Err e => Err e
                 | Ok (ts, bs) =>
                     Ok (if busy : bool then (ts, f :: bs)
                         else match t with Some t => (t :: ts, bs) | None => (ts, bs) end)
                 end)
        end
  end.

Definition WriteBackFrames (selected : kernel -> Z -> bool) : M Status :=
  ids <- get frame_ids ;;
  r <- schedule_frames selected ids ;;
  match r with
  | Err e => ret (Err e)
  | Ok (ts, busy) =>
      wait_status <- WaitForScheduledFlushes ts ;;
      flush_status <- FlushBusyFrames busy ;;
      ret (first_error wait_status flush_status)
  end.

Definition FlushAll : M Status :=
  usable_then
    (s <- WriteBackFrames (fun _ _ => true) ;;
     match s with Err e => ret (Err e) | Ok _ => SyncWrittenFiles end).

Definition FlushFileBuffers (file : Z) : M Status :=
  usable_then (WriteBackFrames (fun k f => file_id (d_tag (desc k f)) =? file)).

(** ** recLSN *)

Definition FrameRecLsn (d : descriptor) : Z :=
  let pending := rec_lsn d in
  let writing := writeback_rec_lsn d in
  if pending =? kInvalidLsn then writing
  else if writing =? kInvalidLsn then pending
  else Z.min pending writing.

Definition older (oldest lsn : Z) : Z :=
  if negb (lsn =? kInvalidLsn) && ((oldest =? kInvalidLsn) || (lsn <? oldest)) then lsn else oldest.

Definition MinRecLsn (k : kernel) : option Z :=
  let oldest := foldl (fun o f => older o (FrameRecLsn (desc k f))) kInvalidLsn (frame_ids k) in
  if oldest =? kInvalidLsn then None else Some oldest.

Definition before_lsn (lsn : Z) (k : kernel) (f : Z) : bool :=
  let r := FrameRecLsn (desc k f) in negb (r =? kInvalidLsn) && (r <? lsn).

(** The second pass of [CheckpointBuffers]: [None] when it went through. *)
Fixpoint checkpoint_frames (lsn : Z) (fs : list Z) : M Status :=
  match fs with
  | [] => ret (Ok tt)
  | f :: fs =>
      s <- loop 3 (fun _ =>
             b <- get (fun k => before_lsn lsn k f) ;;
             if negb b then ret (inr (Ok tt))
             else
               wrote <- ForegroundFlushRound f None ;;
               match wrote with
               | Err e => ret (inr (Err e))
               | Ok false => ret (inr (Ok tt))
               | Ok true => ret (inl tt)
               end) tt ;;
      match s with Err e => ret (Err e) | Ok _ => checkpoint_frames lsn fs end
  end.

Definition CheckpointBuffers (lsn : Z) : M Status :=
  usable_then
    (s <- WriteBackFrames (before_lsn lsn) ;;
     match s with
     | Err e => ret (Err e)
     | Ok _ =>
         ids <- get frame_ids ;;
         s <- checkpoint_frames lsn ids ;;
         match s with Err e => ret (Err e) | Ok _ => SyncWrittenFiles end
     end).

(** ** Dropping *)

(** One pass over a frame: [inr] with the new result leaves the frame. *)
Definition drop_pass (file first_block f : Z) (result : Status) : M (unit + Status) :=
  tag <- LoadTag f ;;
  w <- word f ;;
  if StateIs w kFree || negb (file_id tag =? file) || (block_id tag <? first_block) then ret (inr result)
  else if StateIs w kLoading then WaitForLoad f tag ;; ret (inl tt)
  else
    pinned <- TryPinResidentFrame f tag false ;;
    if negb pinned then ret (inl tt)
    else
      outcome <- on_word f TryDiscardPinned ;;
      match outcome with
      | (kWriteback, _) => ReleaseFrame f ;; WaitForPendingFlush f ;; ret (inl tt)
      | (kLatched, _) => wait_while f (fun _ => exclusive_blocked) ;; ReleaseFrame f ;; ret (inl tt)
      | (kBusy, _) => ReleaseFrame f ;; ret (inr (InvalidArgument "a page in the dropped range is in use"))
      | (kDiscarded, previous) =>
          (if match previous with Some w => IsDirty w | None => false end
           then modify (fun k => set_dirty_count (u64 (dirty_page_count k - 1)) k) else ret tt) ;;
          upd_desc f (set_rec_lsn kInvalidLsn) ;;
          upd_desc f (set_writeback_rec_lsn kInvalidLsn) ;;
          modify (fun k => set_table (remove_frame tag f (table k)) k) ;;
          modify (fun k => set_replacer (Remove 0 f (replacer k)) k) ;;
          StoreTag f no_page ;;
          ReleaseFreeFrame f ;;
          ret (inr result)
      end.

Fixpoint drop_frames (file first_block : Z) (fs : list Z) (result : Status) : M Status :=
  match fs with
  | [] => ret result
  | f :: fs =>
      result <- (fun k => loop (wait_fuel k) (fun _ => drop_pass file first_block f result) tt k) ;;
      drop_frames file first_block fs result
  end.

Definition DropFileBuffers (file first_block : Z) : M Status :=
  usable_then (ids <- get frame_ids ;; drop_frames file first_block ids (Ok tt)).

(** ** The cleaner and closing *)

Definition ScheduleCleanerFlush (f : Z) : M unit :=
  TryScheduleFlushTask f None true true ;; ret tt.

(** The prefetches in flight, then the loads, are waited for. *)
Definition await_loads : M unit := fun k =>
  loop (S (pending_work k)) (fun _ =>
    b <- get (fun k => existsb (fun l => match al_operation l with None => true | Some _ => false end) (loads k)) ;;
    if (b : bool) then complete_load ;; ret (inl tt) else ret (inr tt)) tt k.

(** The workers drain the queues before they are joined. *)
Definition StopFlushPipeline : M unit :=
  modify (fun k => set_sched (BeginShutdown (sched k)) k) ;;
  fun k => loop (S (pending_work k)) (fun _ =>
    b <- worker_round ;; ret (if (b : bool) then inl tt else inr tt)) tt k.

(** What the I/O engine calls when its backend breaks; the cause is not kept. *)
Definition EnterFailedState : M unit := modify (set_failed true).

Definition Close : M Status :=
  done <- get closed ;;
  if (done : bool) then ret (Ok tt)
  else
    await_loads ;;
    ids <- get frame_ids ;;
    for_each ids (fun f =>
      tag <- LoadTag f ;;
      loading <- IsLoadingTag f tag ;;
      if (loading : bool) then WaitForLoad f tag else ret tt) ;;
    pinned <- HasPinnedFrame ;;
    if (pinned : bool) then ret (InvalidArgument "pages are still pinned by handles or read operations")
    else
      usable <- CheckUsable ;;
      status <- (match usable with Ok _ => FlushAll | Err e => ret (Err e) end) ;;
      broken <- get failed ;;
      if negb (has_value status) && negb broken then ret status
      else
        modify (set_closed true) ;;
        StopFlushPipeline ;;
        ret status.

(** ** Construction *)

Definition SeedFreeFrames : M unit :=
  ids <- get frame_ids ;;
  for_each ids (fun f => modify (fun k => set_free (push_free f (free k)) k)).

End Manager.
