(* ===== verification/AsyncRead.v ===== *)
(** Reads that overlap with other work: prefetches and multi-block reads
    ([lib/buffer/buffer_manager_async_read.cc]).

    A [ReadBuffersOperation] is a number; its state is in [operations] of the
    kernel while it is in progress.  The reads a call submits join [loads], where
    they complete one by one while some call waits.  An operation whose engine
    has stopped is not modelled: the engine runs until the manager is closed. *)
From stdpp Require Import strings.
From S2P Require Import Prelude Status CasLoop FrameControl Layout Replacer FlushScheduler Cleaner Interfaces Kernel Manager.

(** ** Combining reads into requests *)

Abbreviation load_entry := (BufferTag * FrameReservation * nat)%type.

(** The request can take one more block, and it is the next one. *)
Definition extends_last (max_blocks : nat) (l : async_load) (tag : BufferTag) : bool :=
  (length (al_entries l) <? max_blocks)%nat &&
  match list.last (al_entries l) with
  | Some (t, _, _) => (file_id t =? file_id tag) && (u64 (block_id t + 1) =? block_id tag)
  | None => false
  end.

(** [loads] with its last request first. *)
Definition AppendAsyncLoad (max_blocks : nat) (o : option nat) (e : load_entry) (rev_loads : list async_load)
    : list async_load :=
  match rev_loads with
  | l :: ls =>
      if extends_last max_blocks l e.1.1 then AsyncLoad (al_operation l) (al_entries l ++ [e]) :: ls
      else AsyncLoad o [e] :: l :: ls
  | [] => [AsyncLoad o [e]]
  end.

Section AsyncRead.
Context {T F R B : Type} `{FrameTable T} `{FreeFrames F} `{Replacer R} `{Backend B}.

Local Open Scope kernel_scope.
Local Abbreviation kernel := (kernel T F R B).
Local Abbreviation M := (@M T F R B).

Definition max_blocks : M nat := get (fun k => max_request_blocks (cfg k)).

(** [IoWaiter::Add] *)
Definition waiter_add (n : Z) (r : read_state) : read_state :=
  ReadState (rs_strategy r) (rs_tags r) (rs_frames r) (rs_slots r) (u32 (rs_pending r + n)) (rs_error r).

Fixpoint SubmitAsyncLoads (ls : list async_load) : M unit :=
  match ls with
  | [] => ret tt
  | l :: ls =>
      match al_operation l with
      | Some o => upd_operation o (waiter_add 1)
      | None => ret tt
      end ;;
      modify (fun k => set_loads (loads k ++ [l]) k) ;;
      SubmitAsyncLoads ls
  end.

(** ** Prefetching *)

Fixpoint prefetch_loop (file block : Z) (idx : list nat) (rev_loads : list async_load)
    : M (list async_load * Status) :=
  match idx with
  | [] => ret (rev_loads, Ok tt)
  | i :: idx =>
      let tag := MkTag file (u64 (block + Z.of_nat i)) in
      resident <- IsResidentTag tag ;;
      if (resident : bool) then prefetch_loop file block idx rev_loads
      else
        reservation <- ReserveFrameForTag tag None false ;;
        match reservation with
        | Err e => ret (rev_loads, if bool_decide (code e = kResourceExhausted) then Ok tt else Err e)
        | Ok None => prefetch_loop file block idx rev_loads
        | Ok (Some r) =>
            n <- max_blocks ;;
            prefetch_loop file block idx (AppendAsyncLoad n None (tag, r, i) rev_loads)
        end
  end.

Definition PrefetchBuffer (file block : Z) (block_count : nat) : M Status :=
  usable_then
    (r <- prefetch_loop file block (seq 0 block_count) [] ;;
     SubmitAsyncLoads (rev r.1) ;;
     ret r.2).

(** ** Multi-block reads *)

Definition TryReadResidentHit (tag : BufferTag) (record : bool) : M (option Z) :=
  probe <- ProbeResident tag record ;;
  ret (match probe with ProbePinned f => Some f | _ => None end).

(** The blocks from [i] on: their frames, their slots and the requests. *)
Fixpoint start_loop (o : nat) (st : option nat) (record : bool) (file block : Z) (idx : list nat)
    (rev_loads : list async_load) : M (list BufferTag * list Z * list read_slot * list async_load) :=
  match idx with
  | [] => ret ([], [], [], rev_loads)
  | i :: idx =>
      let tag := MkTag file (u64 (block + Z.of_nat i)) in
      hit <- TryReadResidentHit tag record ;;
      placed <-
        (match hit with
         | Some f => ret (f, SlotPinned, rev_loads)
         | None =>
             resident <- IsResidentTag tag ;;
             if (resident : bool) then ret (kInvalidFrameId, SlotDeferred, rev_loads)
             else
               reservation <- ReserveFrameForTag tag st false ;;
               match reservation with
               | Ok (Some r) =>
                   n <- max_blocks ;;
                   ret (res_frame r, SlotLoading, AppendAsyncLoad n (Some o) (tag, r, i) rev_loads)
               | _ => ret (kInvalidFrameId, SlotDeferred, rev_loads)
               end
         end) ;;
      let '(f, slot, rev_loads) := placed in
      rest <- start_loop o st record file block idx rev_loads ;;
      let '(tags, fs, slots, ls) := rest in
      ret (tag :: tags, f :: fs, slot :: slots, ls)
  end.

Definition StartReadBuffers (o : nat) (file block : Z) (block_count : nat) (st : option nat) : M Status :=
  usable_then
    (busy <- get (fun k => bool_decide (is_Some (operations k !! o))) ;;
     if (busy : bool) then ret (InvalidArgument "read buffers operation is still in progress")
     else
       record <- record_access st ;;
       started <- start_loop o st record file block (seq 0 block_count) [] ;;
       let '(tags, fs, slots, ls) := started in
       modify (fun k => set_operations (<[o := ReadState st tags fs slots 0 (Ok tt)]> (operations k)) k) ;;
       SubmitAsyncLoads (rev ls) ;;
       ret (Ok tt)).

(** [io_engine_->Wait(state.waiter)] *)
Definition wait_operation (o : nat) : M Status := fun k =>
  loop (S (pending_work k)) (fun _ =>
    s <- get (fun k => operations k !! o) ;;
    match s with
    | None => diverge
    | Some r => if rs_pending r =? 0 then ret (inr (rs_error r)) else progress ;; ret (inl tt)
    end) tt k.

(** Pins the blocks that were left for later, up to the first failure. *)
Fixpoint pin_deferred (o : nat) (st : option nat) (slots : list (nat * read_slot * BufferTag)) : M Status :=
  match slots with
  | [] => ret (Ok tt)
  | (i, SlotDeferred, tag) :: slots =>
      frame <- PinPage tag st kNormal ;;
      match frame with
      | Err e => ret (Err e)
      | Ok (f, _) =>
          upd_operation o (fun r => ReadState (rs_strategy r) (rs_tags r) (<[i := f]> (rs_frames r))
                                      (<[i := SlotPinned]> (rs_slots r)) (rs_pending r) (rs_error r)) ;;
          pin_deferred o st slots
      end
  | _ :: slots => pin_deferred o st slots
  end.

Fixpoint finish_slots (keep : bool) (slots : list (read_slot * Z * BufferTag)) : M (list handle) :=
  match slots with
  | [] => ret []
  | (SlotPinned, f, tag) :: slots | (SlotLoading, f, tag) :: slots =>
      if keep then h <- MakeSharedHandle f tag ;; hs <- finish_slots keep slots ;; ret (h :: hs)
      else ReleaseFrame f ;; finish_slots keep slots
  | _ :: slots => finish_slots keep slots
  end.

Definition operation_slots (o : nat) (k : kernel) : list (nat * read_slot * BufferTag) :=
  match operations k !! o with
  | Some r => zip (zip (seq 0 (length (rs_slots r))) (rs_slots r)) (rs_tags r)
  | None => []
  end.

Definition operation_frames (o : nat) (k : kernel) : list (read_slot * Z * BufferTag) :=
  match operations k !! o with
  | Some r => zip (zip (rs_slots r) (rs_frames r)) (rs_tags r)
  | None => []
  end.

Definition FinishReadBuffers (o : nat) (make_handles : bool) : M (Status * list handle) :=
  io_status <- wait_operation o ;;
  st <- get (fun k => operations k !! o ≫= rs_strategy) ;;
  slots <- get (operation_slots o) ;;
  result <- (if has_value io_status && make_handles then pin_deferred o st slots else ret io_status) ;;
  frames <- get (operation_frames o) ;;
  hs <- finish_slots (has_value result && make_handles) frames ;;
  modify (fun k => set_operations (delete o (operations k)) k) ;;
  ret (result, hs).

Definition WaitReadBuffers (o : nat) : M (Status * list handle) :=
  busy <- get (fun k => bool_decide (is_Some (operations k !! o))) ;;
  if negb busy then ret (InvalidArgument "read buffers operation is not in progress", [])
  else FinishReadBuffers o true.

(** [~ReadBuffersOperation] *)
Definition DropOperation (o : nat) : M unit :=
  busy <- get (fun k => bool_decide (is_Some (operations k !! o))) ;;
  if negb busy then ret tt else FinishReadBuffers o false ;; ret tt.

End AsyncRead.
