(* ===== verification/Lifecycle.v ===== *)
(** Construction of a buffer manager: the options and their defaults
    ([include/telepath/options/buffer_manager_options.h]), [BufferManager::Create]
    ([lib/buffer/buffer_manager.cc]) and [Initialize] with the resolution of the
    writeback options ([lib/buffer/buffer_manager_lifecycle.cc]).

    Private-memory mode without an observation plane.  What the machine decides
    (memory, threads) is a [platform]; the backend and the policy are arguments,
    as in the code, absent when the caller passes a null pointer. *)
From stdpp Require Import strings.
From S2P Require Import IoEngine Prelude Status FrameControl Layout FreeList PageTable Replacer FlushScheduler Cleaner Interfaces Kernel Manager.

(** ** Options *)

Record BufferManagerOptions := Options {
  opt_pool_size : Z;
  opt_page_size : Z;
  opt_stripe_count : Z;
  opt_flush_worker_count : Z;
  opt_flush_submit_batch_size : Z;
  opt_flush_foreground_burst_limit : Z;
  opt_enable_background_cleaner : bool;
  opt_dirty_page_high_watermark : Z;
  opt_dirty_page_low_watermark : Z;
  opt_foreground_writeback : ForegroundWriteback;
  opt_pre_write_hook : option (BufferTag -> page -> Status)
}.

(** The fields of [std::size_t] hold values of that type. *)
Definition options_ok (o : BufferManagerOptions) : Prop :=
  is_u64 (opt_pool_size o) /\ is_u64 (opt_stripe_count o) /\ is_u64 (opt_flush_worker_count o) /\
  is_u64 (opt_flush_submit_batch_size o) /\ is_u64 (opt_flush_foreground_burst_limit o) /\
  is_u64 (opt_dirty_page_high_watermark o) /\ is_u64 (opt_dirty_page_low_watermark o).

Record DiskBackendCapabilities := Capabilities {
  queue_depth : Z;
  cap_max_request_blocks : Z;
  cap_block_size : Z
}.

Definition clamp (x low high : Z) : Z := Z.max low (Z.min x high).

Definition ResolvePageTableStripeCount (hardware_concurrency : Z) (o : BufferManagerOptions) : Z :=
  if negb (opt_stripe_count o =? 0) then opt_stripe_count o
  else
    let hardware_threads := Z.max 1 hardware_concurrency in
    let baseline := Z.max 16 (u64 (hardware_threads * 4)) in
    Z.min baseline (Z.max 1 (opt_pool_size o)).

Definition ResolveDirtyPageHighWatermark (o : BufferManagerOptions) : Z :=
  if opt_pool_size o =? 0 then 0
  else if negb (opt_dirty_page_high_watermark o =? 0) then Z.min (opt_dirty_page_high_watermark o) (opt_pool_size o)
  else Z.max 1 (u64 (opt_pool_size o * 3) / 4).

Definition ResolveDirtyPageLowWatermark (o : BufferManagerOptions) : Z :=
  let high := ResolveDirtyPageHighWatermark o in
  if high =? 0 then 0
  else
    let max_low := high - 1 in
    if negb (opt_dirty_page_low_watermark o =? 0) then Z.min (opt_dirty_page_low_watermark o) max_low
    else if high =? 1 then 0
    else Z.min (high / 2) max_low.

Definition ResolveFlushWorkerCount (c : DiskBackendCapabilities) (o : BufferManagerOptions) : Z :=
  let max_worker_count := Z.max 1 (opt_pool_size o) in
  let derived := queue_depth c in
  let derived := if derived =? 0 then 1 else derived in
  let derived := if 4 <? derived then 4 else derived in
  let derived := if max_worker_count <? derived then max_worker_count else derived in
  if opt_flush_worker_count o =? 0 then derived
  else clamp (opt_flush_worker_count o) 1 max_worker_count.

Definition ResolveFlushSubmitBatchSize (c : DiskBackendCapabilities) (flush_worker_count : Z) (o : BufferManagerOptions) : Z :=
  let max_submit_batch_size := Z.max 1 (queue_depth c) in
  let derived := Z.max 1 (queue_depth c / flush_worker_count) in
  if opt_flush_submit_batch_size o =? 0 then derived
  else clamp (opt_flush_submit_batch_size o) 1 max_submit_batch_size.

(** [batch] is the resolved [options_.flush_submit_batch_size]. *)
Definition ResolveFlushForegroundBurstLimit (batch : Z) (o : BufferManagerOptions) : Z :=
  let derived := u64 (batch * 4) in
  let derived := if derived <? 4 then 4 else derived in
  if opt_flush_foreground_burst_limit o =? 0 then derived
  else Z.max 1 (opt_flush_foreground_burst_limit o).

(** Whether the cleaner runs, with its watermarks. *)
Definition ResolveCleanerOptions (o : BufferManagerOptions) : bool * Z * Z :=
  if negb (opt_enable_background_cleaner o)
  then (false, opt_dirty_page_high_watermark o, opt_dirty_page_low_watermark o)
  else
    let high := ResolveDirtyPageHighWatermark o in
    (negb (high =? 0), high, ResolveDirtyPageLowWatermark o).

(** ** Creation *)

(** What the machine answers: the kernel's memory or none, whether threads start. *)
Record platform := Platform {
  hardware_concurrency : Z;
  memory : option (Z -> page);
  engine_starts : bool;
  workers_start : bool;
  cleaner_starts : bool
}.

Section Create.
Context {R B : Type} `{Replacer R} `{Backend B}.
Local Open Scope kernel_scope.
Local Abbreviation kernel := (kernel page_table free_list R B).

(** The state constructed in the region: every descriptor, the page table and the
    free list freshly initialised, no scheduler and no cleaner started yet. *)
Definition ConstructKernel (p : platform) (o : BufferManagerOptions) (g : BlockGeometry) (c : DiskBackendCapabilities)
    (r : R) (b : B) (bytes : Z -> page) : kernel :=
  Kernel
    (Config (opt_pool_size o) g (opt_foreground_writeback o) (opt_pre_write_hook o)
       (Z.to_nat (ClampRequestBlocks (cap_max_request_blocks c))))
    (fun _ => new_descriptor) bytes
    (NewTable (opt_pool_size o) (ResolvePageTableStripeCount (hardware_concurrency p) o))
    Empty r b 0 (MakeScheduler 1 1) ∅ 0 None [] false false [] ∅ (fun _ => NewStrategy false 0).

Definition InitializeKernelMemory (p : platform) (o : BufferManagerOptions) (g : BlockGeometry) (c : DiskBackendCapabilities)
    (r : R) (b : B) : Result kernel :=
  match Validate (opt_pool_size o) g with
  | Err e => Err e
  | Ok _ =>
      match memory p with
      | None => ResourceExhausted "failed to allocate kernel memory"
      | Some bytes => Ok (ConstructKernel p o g c r b bytes)
      end
  end.

Definition ValidateRuntimeDependencies (r : option R) (b : option B) : Result (R * B) :=
  match b, r with
  | None, _ => InvalidArgument "disk backend must not be null"
  | _, None => InvalidArgument "replacer must not be null"
  | Some b, Some r => Ok (r, b)
  end.

Definition StartIoEngine (p : platform) : Status :=
  if engine_starts p then Ok tt else Unavailable "failed to start io engine" 0.

Definition StartFlushScheduler (p : platform) (batch burst : Z) (k : kernel) : Result kernel :=
  if workers_start p then Ok (set_sched (MakeScheduler batch burst) k) else Unavailable "failed to start flush scheduler" 0.

Definition StartCleanerController (p : platform) (resolved : bool * Z * Z) (k : kernel) : Result kernel :=
  let '(enabled, high, low) := resolved in
  if negb enabled then Ok k
  else if cleaner_starts p then Ok (set_cleaner (Some (MakeCleaner (pool_size (cfg k)) high low)) k)
  else Unavailable "failed to start background cleaner" 0.

(** [Initialize]; what it stops on the way when a part does not start is the
    state of threads, which end with the manager. *)
Definition Initialize (p : platform) (o : BufferManagerOptions) (g : BlockGeometry) (c : DiskBackendCapabilities)
    (r : option R) (b : option B) : Result kernel :=
  deps <-! ValidateRuntimeDependencies r b ;;
  k <-! InitializeKernelMemory p o g c deps.1 deps.2 ;;
  let k := default k (snd <$> SeedFreeFrames k) in
  let cleaner := ResolveCleanerOptions o in
  let workers := ResolveFlushWorkerCount c o in
  let batch := ResolveFlushSubmitBatchSize c workers o in
  let burst := ResolveFlushForegroundBurstLimit batch o in
  _ <-! StartIoEngine p ;;
  k <-! StartFlushScheduler p batch burst k ;;
  StartCleanerController p cleaner k.

Definition CreateManager (p : platform) (o : BufferManagerOptions) (c : DiskBackendCapabilities)
    (b : option B) (r : option R) : Result kernel :=
  match Layout.Create (opt_page_size o) with
  | Err e => Err e
  | Ok g =>
      match b with
      | Some _ =>
          if negb (cap_block_size c =? 0) && negb (cap_block_size c =? block_size g)
          then InvalidArgument "disk backend block size does not match the buffer manager page size"
          else Initialize p o g c r b
      | None => Initialize p o g c r b
      end
  end.

End Create.

(** ** The resolved options *)

Lemma clamp_bounds x low high : low <= high -> low <= clamp x low high <= high.
Proof. unfold clamp. lia. Qed.

Lemma worker_count_bounds c o : 0 <= queue_depth c -> 1 <= ResolveFlushWorkerCount c o <= Z.max 1 (opt_pool_size o).
Proof.
  intros Hq. unfold ResolveFlushWorkerCount. set (m := Z.max 1 (opt_pool_size o)). assert (1 <= m) by (unfold m; lia).
  destruct (opt_flush_worker_count o =? 0); [|by apply clamp_bounds].
  assert (forall a b, 1 <= a -> 1 <= b -> 1 <= (if b <? a then b else a) <= b) as Hmin by (intros a b; destruct (Z.ltb_spec b a); lia).
  apply Hmin; [|done]. apply (Hmin _ 4); [|done]. destruct (Z.eqb_spec (queue_depth c) 0); lia.
Qed.

Lemma batch_size_bounds c w o : 0 <= queue_depth c -> 1 <= w ->
  1 <= ResolveFlushSubmitBatchSize c w o <= Z.max 1 (queue_depth c).
Proof.
  intros Hq Hw. unfold ResolveFlushSubmitBatchSize. destruct (_ =? 0); [|apply clamp_bounds; lia].
  assert (queue_depth c / w <= queue_depth c) by (apply Z.div_le_upper_bound; nia). lia.
Qed.

Lemma burst_limit_bound batch o : is_u64 (opt_flush_foreground_burst_limit o) -> 1 <= ResolveFlushForegroundBurstLimit batch o.
Proof.
  intros Hb. unfold ResolveFlushForegroundBurstLimit. destruct (_ =? 0); [|lia]. destruct (Z.ltb_spec (u64 (batch * 4)) 4); lia.
Qed.

Lemma stripe_count_bound h o : options_ok o -> 1 <= ResolvePageTableStripeCount h o.
Proof.
  intros (_ & Hs & _). unfold ResolvePageTableStripeCount, is_u64 in *. destruct (Z.eqb_spec (opt_stripe_count o) 0); cbn [negb]; lia.
Qed.

Lemma watermark_bounds o : options_ok o -> 0 < opt_pool_size o ->
  0 <= ResolveDirtyPageLowWatermark o < ResolveDirtyPageHighWatermark o /\ ResolveDirtyPageHighWatermark o <= opt_pool_size o.
Proof.
  intros (Hp & _ & _ & _ & _ & Hh & Hl) Hpos. unfold is_u64 in *.
  assert (0 < ResolveDirtyPageHighWatermark o <= opt_pool_size o) as Hb.
  { unfold ResolveDirtyPageHighWatermark. destruct (Z.eqb_spec (opt_pool_size o) 0); [lia|].
    destruct (Z.eqb_spec (opt_dirty_page_high_watermark o) 0); cbn [negb]; [|lia].
    assert (u64 (opt_pool_size o * 3) <= opt_pool_size o * 3) by (unfold u64; apply Z.mod_le; unfold u64_mod in *; lia).
    assert (u64 (opt_pool_size o * 3) / 4 <= opt_pool_size o) by (apply Z.div_le_upper_bound; lia). lia. }
  split; [|lia]. unfold ResolveDirtyPageLowWatermark. set (high := ResolveDirtyPageHighWatermark o) in *.
  destruct (Z.eqb_spec high 0); [lia|]. destruct (Z.eqb_spec (opt_dirty_page_low_watermark o) 0); cbn [negb]; [|lia].
  destruct (Z.eqb_spec high 1); [lia|]. pose proof (Z.div_pos high 2). lia.
Qed.
