(* ===== verification/BackendFactory.v ===== *)
(** The choice of a disk backend: [lib/io/disk_backend_factory.cc] with
    [include/telepath/io/disk_backend_options.h] and the constructor of the POSIX
    backend.

    Creating an io_uring backend is a parameter, as is whether it is compiled in. *)
From stdpp Require Import strings.
From S2P Require Import Prelude Status Layout FreeList PageTable Interfaces IoEngine FdCache PosixDisk PosixQueue Kernel Manager Lifecycle.

Inductive DiskBackendKind := kAuto | kPosix | kIoUring.

#[export] Instance DiskBackendKind_eq_dec : EqDecision DiskBackendKind.
Proof. solve_decision. Defined.

Record DiskBackendOptions := BackendOptions {
  preferred_kind : DiskBackendKind;
  allow_fallback : bool;
  bo_queue_depth : Z;
  bo_max_open_files : Z;
  bo_sync_on_write : bool;
  bo_io_worker_count : Z
}.

Definition ResolveQueueDepth (o : DiskBackendOptions) : Z :=
  if negb (bo_queue_depth o =? 0) then bo_queue_depth o
  else match preferred_kind o with kIoUring => 64 | kAuto => 32 | kPosix => 1 end.
Definition ResolveMaxOpenFiles (o : DiskBackendOptions) : Z := if negb (bo_max_open_files o =? 0) then bo_max_open_files o else 64.
Definition ResolveIoWorkerCount (o : DiskBackendOptions) : Z := if negb (bo_io_worker_count o =? 0) then bo_io_worker_count o else 4.

Section Factory.
Context {S U : Type} `{Posix S}.

(** A POSIX backend with the threads its constructor started, or an io_uring one. *)
Inductive disk_backend := PosixBackend (is_fallback : bool) (b : qsystem (S := S)) | IoUringBackend (b : U).

(** The constructor. *)
Definition MakePosix (root_path : string) (g : BlockGeometry) (max_open_files : Z) (sync : bool) (io_worker_count : Z)
    (m : Z -> list Byte.byte) (s : S) : qsystem (S := S) :=
  queue_start (PosixDisk g sync (MakeFdCache root_path max_open_files) s) m io_worker_count.

(** The number of workers, the bound on the blocks of a request, the block size. *)
Definition PosixCapabilities (io_worker_count : Z) (d : posix S) : DiskBackendCapabilities :=
  Capabilities (Z.max 1 io_worker_count) kMaxDiskRequestBlocks (block_size (pd_geometry d)).

Variable io_uring_supported : bool.
Variable create_io_uring : string -> BlockGeometry -> Z -> Z -> bool -> Result U.

Definition MakePosixBackend (root_path : string) (g : BlockGeometry) (is_fallback : bool) (o : DiskBackendOptions)
    (m : Z -> list Byte.byte) (s : S) : Result disk_backend :=
  Ok (PosixBackend is_fallback (MakePosix root_path g (ResolveMaxOpenFiles o) (bo_sync_on_write o) (ResolveIoWorkerCount o) m s)).

Definition MakeIoUringBackend (root_path : string) (g : BlockGeometry) (o : DiskBackendOptions) : Result disk_backend :=
  if negb io_uring_supported then Unavailable "io_uring backend is not available in this build" 0
  else match create_io_uring root_path g (ResolveQueueDepth o) (ResolveMaxOpenFiles o) (bo_sync_on_write o) with
       | Err e => Err e
       | Ok b => Ok (IoUringBackend b)
       end.

Definition CreateIoUringOrFallback (root_path : string) (g : BlockGeometry) (o : DiskBackendOptions)
    (m : Z -> list Byte.byte) (s : S) : Result disk_backend :=
  match MakeIoUringBackend root_path g o with
  | Ok b => Ok b
  | Err e =>
      match preferred_kind o with
      | kIoUring => if negb (allow_fallback o) then Err e else MakePosixBackend root_path g true o m s
      | _ => MakePosixBackend root_path g true o m s
      end
  end.

Definition CreateDiskBackend (root_path : string) (page_size : Z) (o : DiskBackendOptions)
    (m : Z -> list Byte.byte) (s : S) : Result disk_backend :=
  match Layout.Create page_size with
  | Err e => Err e
  | Ok g =>
      match preferred_kind o with
      | kPosix => MakePosixBackend root_path g false o m s
      | kIoUring | kAuto => CreateIoUringOrFallback root_path g o m s
      end
  end.
End Factory.

Section Created.
Context {S U : Type} `{PosixLaws S}.
Variable io_uring_supported : bool.
Variable create_io_uring : string -> BlockGeometry -> Z -> Z -> bool -> Result U.
Local Abbreviation create := (CreateDiskBackend io_uring_supported create_io_uring).

(** The factory returns the backend the options ask for: a page size that is
    no block size is refused; otherwise a POSIX backend asked for is always
    returned, marked as no fallback; when io_uring is preferred or the choice is
    left open, an io_uring backend that can be created is returned, and when it
    cannot, the error is reported exactly if io_uring was preferred and no
    fallback is allowed, and else a POSIX backend is returned, marked as fallback.
    A POSIX backend has blocks of the page size, a worker, and its descriptors are
    in order. *)
Lemma backend_choice root page_size o m (s : S) :
  match Layout.Create page_size with
  | Err e => create root page_size o m s = Err e
  | Ok g =>
      let native := MakeIoUringBackend (S := S) io_uring_supported create_io_uring root g o in
      match create root page_size o m s with
      | Err e => preferred_kind o = kIoUring /\ allow_fallback o = false /\ native = Err e
      | Ok (IoUringBackend b) => preferred_kind o <> kPosix /\ native = Ok (IoUringBackend b)
      | Ok (PosixBackend fallback b) =>
          fallback = bool_decide (preferred_kind o <> kPosix) /\ (fallback = true -> has_value native = false) /\
          posix_ok (q_disk (q_shared b)) /\ block_size (pd_geometry (q_disk (q_shared b))) = page_size /\
          q_threads b !! 0%nat = Some QWork
      end
  end.
Proof.
  unfold CreateDiskBackend. destruct (Layout.Create page_size) as [g|e] eqn:Eg; [|done]. apply create_geometry in Eg as (Hg & Eb & _).
  set (b0 := MakePosix root g (ResolveMaxOpenFiles o) (bo_sync_on_write o) (ResolveIoWorkerCount o) m s).
  assert (posix_ok (q_disk (q_shared b0)) /\ block_size (pd_geometry (q_disk (q_shared b0))) = page_size /\ q_threads b0 !! 0%nat = Some QWork) as Hp.
  { split; [|split; [done|apply workers_first]]. split; [done|]. intros file e He. change ((∅ : gmap Z fd_entry) !! file = Some e) in He. by rewrite lookup_empty in He. }
  cbn zeta. destruct (preferred_kind o) eqn:Ek; unfold CreateIoUringOrFallback, MakePosixBackend; rewrite ?Ek; cbn [has_value].
  - destruct (MakeIoUringBackend _ _ root g o) as [[fb b|b]|e] eqn:En; [|done|].
    + unfold MakeIoUringBackend in En. destruct (negb _); [done|]. by destruct (create_io_uring _ _ _ _ _).
    + split; [by rewrite bool_decide_true|]. split; [done|]. exact Hp.
  - split; [rewrite bool_decide_false; [done|by intros []]|]. split; [done|]. exact Hp.
  - destruct (MakeIoUringBackend _ _ root g o) as [[fb b|b]|e] eqn:En; [|done|].
    + unfold MakeIoUringBackend in En. destruct (negb _); [done|]. by destruct (create_io_uring _ _ _ _ _).
    + destruct (allow_fallback o); cbn [negb]; [|done]. split; [by rewrite bool_decide_true|]. split; [done|]. exact Hp.
Qed.
End Created.
