(* ===== verification/KernelInv.v ===== *)
(** The invariant of a buffer manager and the effect on it of a change at one
    frame.

    [V] is the page store the manager implements: what a reader of a page must
    see.  [G] describes every frame: its decoded control word (up to the waiters
    bit, which no operation run alone depends on), whether the running call owns
    it while it is free or loading, the page it is for and its bytes.  The bytes
    of an exclusively latched frame are its holder's business; every other
    resident frame shows [V].  [X] are the flush tasks in the hands of the
    running call; the others are in the scheduler's queues. *)
From S2P Require Import Prelude Status CasLoop FrameControl Layout Replacer FlushScheduler Cleaner Interfaces Kernel Manager.

(** The pages the calls are about: only they are cached. *)
Class Scope := scope : BufferTag -> Prop.

Record ginfo := GInfo { g_ctl : ctl; g_own : bool; g_tag : BufferTag; g_page : page }.

Definition with_ctl (c : ctl) (g : ginfo) : ginfo := GInfo c (g_own g) (g_tag g) (g_page g).
Definition with_own (b : bool) (g : ginfo) : ginfo := GInfo (g_ctl g) b (g_tag g) (g_page g).

Definition g_state (g : ginfo) : BufferFrameState := c_state (g_ctl g).

Record frame_ok (V cont : BufferTag -> page) (trk : Prop) (g : ginfo) (d : descriptor) (p : page) : Prop := {
  fo_word : exists w, control d = encode (set_waiters w (g_ctl g));
  fo_ctl : ctl_ok (g_ctl g);
  fo_error : is_Some (UnpackWritebackError (last_writeback_error d));
  fo_page : p = g_page g;
  fo_tag : g_state g <> kFree -> d_tag d = g_tag g;
  fo_free : g_state g = kFree ->
    c_dirty (g_ctl g) = false /\ c_writeback (g_ctl g) = false /\ c_pins (g_ctl g) = 0;
  fo_loading : g_state g = kLoading ->
    c_dirty (g_ctl g) = false /\ c_writeback (g_ctl g) = false /\ c_pins (g_ctl g) = 1;
  fo_resident : g_state g = kResident ->
    g_own g = false /\ trk /\ (c_excl (g_ctl g) = false -> g_page g = V (g_tag g)) /\
    (c_dirty (g_ctl g) = false -> cont (g_tag g) = V (g_tag g)) /\
    (c_writeback (g_ctl g) = true -> c_dirty (g_ctl g) = true)
}.

Record task_ok (V : BufferTag -> page) (g : ginfo) (t : flush_task) : Prop := {
  tk_resident : g_state g = kResident;
  tk_writeback : c_writeback (g_ctl g) = true;
  tk_tag : task_tag t = g_tag g;
  tk_clears : clear_dirty_on_success t = true;
  tk_snapshot : c_redirtied (g_ctl g) = false -> c_excl (g_ctl g) = false -> task_snapshot t = V (g_tag g)
}.

Definition sum_dirty (n : Z) (G : Z -> ginfo) : Z :=
  foldr (fun f s => b2z (c_dirty (g_ctl (G f))) + s) 0 (seqZ 0 n).

Section Inv.
Context {T F R B : Type} `{FrameTableLaws T} `{FreeFramesLaws F} `{ReplacerLaws R} `{BackendLaws B} {SC : Scope}.
Local Abbreviation kernel := (kernel T F R B).

Definition nframes (k : kernel) : Z := pool_size (cfg k).
Definition in_pool (k : kernel) (f : Z) : Prop := 0 <= f < nframes k.

Definition queued_tasks (k : kernel) : list flush_task :=
  foreground_queue (sched k) ++ background_queue (sched k).
Definition all_tasks (X : list flush_task) (k : kernel) : list flush_task := queued_tasks k ++ X.

Definition load_entries (k : kernel) : list (BufferTag * FrameReservation * nat) := mjoin (al_entries <$> loads k).
Definition entry_frame (e : BufferTag * FrameReservation * nat) : Z := res_frame e.1.2.

(** The tasks [l] are distinct objects, none of them completed. *)
Definition ids_ok (l : list flush_task) (k : kernel) : Prop :=
  NoDup (task_id <$> l) /\
  (forall t, t ∈ l -> (task_id t < next_task k)%nat /\ completed k !! task_id t = None) /\
  (forall i s, completed k !! i = Some s -> (i < next_task k)%nat).

Definition entry_of (g : ginfo) : option BufferTag :=
  if decide (g_state g = kFree) then None else Some (g_tag g).

Definition free_ok (G : Z -> ginfo) (k : kernel) : Prop :=
  exists l, free_holds (free k) l /\ NoDup l /\
    forall f, f ∈ l <-> in_pool k f /\ g_state (G f) = kFree /\ g_own (G f) = false.

(** The reads in flight are the loading frames nobody owns. *)
Definition loads_ok (G : Z -> ginfo) (k : kernel) : Prop :=
  NoDup (entry_frame <$> load_entries k) /\
  (forall f, f ∈ entry_frame <$> load_entries k <->
             in_pool k f /\ g_state (G f) = kLoading /\ g_own (G f) = false) /\
  (forall e, e ∈ load_entries k -> e.1.1 = g_tag (G (entry_frame e))).

Record Inv (V : BufferTag -> page) (G : Z -> ginfo) (X : list flush_task) (k : kernel) : Prop := {
  i_pool : 0 < nframes k < kInvalidFrameId;
  i_table : table_ok (table k) /\ table_frames (table k) = nframes k;
  i_replacer : valid (replacer k) /\ frames (replacer k) = nframes k;
  i_frame f : in_pool k f ->
    frame_ok V (contents (disk k)) (tracked (replacer k) f) (G f) (desc k f) (frame_data k f);
  i_entry f : in_pool k f -> entry (table k) f = entry_of (G f);
  i_unique f g : in_pool k f -> in_pool k g -> g_state (G f) <> kFree -> g_state (G g) <> kFree ->
    g_tag (G f) = g_tag (G g) -> f = g;
  i_free : free_ok G k;
  i_store t : (forall f, in_pool k f -> g_state (G f) = kResident -> g_tag (G f) <> t) ->
    contents (disk k) t = V t;
  i_dirty : dirty_page_count k = sum_dirty (nframes k) G;
  i_tasks : NoDup (task_frame <$> all_tasks X k) /\
    forall t, t ∈ all_tasks X k -> in_pool k (task_frame t) /\ task_ok V (G (task_frame t)) t;
  i_writeback f : in_pool k f -> c_writeback (g_ctl (G f)) = true ->
    exists t, t ∈ all_tasks X k /\ task_frame t = f;
  i_ids : ids_ok (queued_tasks k) k;
  i_loads : loads_ok G k;
  i_sched : 1 <= submit_batch_size (sched k);
  i_rings : forall p f, f ∈ ring (strategies k p) -> 0 <= f;
  i_scope f : in_pool k f -> g_state (G f) <> kFree -> scope (g_tag (G f));
  i_addressable t : scope t -> addressable (B := B) t;
  i_fits t : page_fits (B := B) (V t)
}.

(** ** The dirty-page count *)

Lemma sum_dirty_ext n G G' :
  (forall f, 0 <= f < n -> c_dirty (g_ctl (G' f)) = c_dirty (g_ctl (G f))) -> sum_dirty n G' = sum_dirty n G.
Proof.
  intros He. unfold sum_dirty.
  assert (forall l, (forall f, f ∈ l -> 0 <= f < n) ->
    foldr (fun f s => b2z (c_dirty (g_ctl (G' f))) + s) 0 l =
    foldr (fun f s => b2z (c_dirty (g_ctl (G f))) + s) 0 l) as Hl.
  { induction l as [|f l IH]; intros Hr; [done|]. cbn [foldr]. rewrite IH, He; [done| |]; set_solver. }
  apply Hl. intros f Hf. apply elem_of_seqZ in Hf. lia.
Qed.

Lemma sum_dirty_update n G f g :
  0 <= f < n ->
  sum_dirty n (<[f := g]> G) = sum_dirty n G - b2z (c_dirty (g_ctl (G f))) + b2z (c_dirty (g_ctl g)).
Proof.
  intros Hf. unfold sum_dirty.
  assert (forall l, NoDup l ->
    foldr (fun h s => b2z (c_dirty (g_ctl ((<[f := g]> G : Z -> ginfo) h))) + s) 0 l =
    foldr (fun h s => b2z (c_dirty (g_ctl (G h))) + s) 0 l +
    (if decide (f ∈ l) then b2z (c_dirty (g_ctl g)) - b2z (c_dirty (g_ctl (G f))) else 0)) as Hl.
  { induction l as [|h l IH]; intros Hnd; [done|]. apply list.NoDup_cons in Hnd as [Hh Hnd]. cbn [foldr].
    rewrite IH by done. destruct (decide (h = f)) as [->|Hne].
    - rewrite fn_lookup_insert. rewrite (decide_False (P := f ∈ l)) by done.
      rewrite decide_True by set_solver. lia.
    - rewrite fn_lookup_insert_ne by done. destruct (decide (f ∈ l)).
      + rewrite decide_True by set_solver. lia.
      + rewrite decide_False by set_solver. lia. }
  rewrite Hl by apply NoDup_seqZ. rewrite decide_True by (apply elem_of_seqZ; lia). lia.
Qed.

Lemma sum_dirty_bound n G : 0 <= n -> 0 <= sum_dirty n G <= n.
Proof.
  intros Hn. unfold sum_dirty. rewrite <- (Z2Nat.id n) at 3 by lia. rewrite <- (length_seqZ 0 n).
  generalize (seqZ 0 n) as l. induction l as [|f l IH]; cbn [foldr length]; [lia|].
  pose proof (b2z_bound (c_dirty (g_ctl (G f)))). lia.
Qed.

(** Incrementing and decrementing the 64-bit counter does not wrap. *)
Lemma dirty_count_u64 V G X k d :
  Inv V G X k -> 0 <= sum_dirty (nframes k) G + d <= nframes k ->
  u64 (dirty_page_count k + d) = dirty_page_count k + d.
Proof.
  intros HI Hd. rewrite (i_dirty _ _ _ _ HI). apply u64_small. pose proof (i_pool _ _ _ _ HI).
  unfold is_u64. change kInvalidFrameId with (2 ^ 32 - 1) in *. change u64_mod with (2 ^ 64). lia.
Qed.

(** ** Fields the invariant does not read *)

Definition same_state (k k' : kernel) : Prop :=
  cfg k' = cfg k /\ table k' = table k /\ replacer k' = replacer k /\ disk k' = disk k /\ free k' = free k /\
  sched k' = sched k /\ loads k' = loads k /\ strategies k' = strategies k.

Lemma inv_ext V G X k k' :
  Inv V G X k -> same_state k k' -> (forall f, desc k' f = desc k f) -> frame_data k' = frame_data k ->
  dirty_page_count k' = dirty_page_count k -> completed k' = completed k -> next_task k' = next_task k ->
  Inv V G X k'.
Proof.
  intros [] (E1 & E2 & E3 & E4 & E5 & E6 & E7 & E7') E8 E9 E10 E11 E12.
  unfold all_tasks, queued_tasks, load_entries, in_pool, nframes, ids_ok, free_ok, loads_ok in *.
  split; unfold all_tasks, queued_tasks, load_entries, in_pool, nframes, ids_ok, free_ok, loads_ok in *;
    unfold load_entries, in_pool, nframes in *;
    rewrite ?E1, ?E2, ?E3, ?E4, ?E5, ?E6, ?E7, ?E7', ?E9, ?E10, ?E11, ?E12; try done.
  intros f Hf. rewrite E8. auto.
Qed.

(** Equal descriptions of the frames. *)
Lemma inv_ghost_ext V G G' X k : Inv V G X k -> (forall f, G' f = G f) -> Inv V G' X k.
Proof.
  intros [I1 I2 I3 I4 I5 I6 I7 I8 I9 I10 I11 I12 I13 I14 I15 I16 I17 I18] HG. split; try done.
  - intros f Hf. rewrite HG. auto.
  - intros f Hf. rewrite HG. auto.
  - intros f g Hf Hg. rewrite !HG. auto.
  - destruct I7 as (l & ? & ? & Hl). exists l. split_and!; try done. intros f. rewrite HG. auto.
  - intros t Ht. apply I8. intros f Hf. rewrite <- HG. auto.
  - rewrite I9. symmetry. apply sum_dirty_ext. intros f _. by rewrite HG.
  - destruct I10 as [? Hall]. split; [done|]. intros t Ht. rewrite HG. auto.
  - intros f Hf. rewrite HG. auto.
  - destruct I13 as (? & Hl & Ht). split; [done|]. split; [intros f; rewrite HG; auto|].
    intros e He. rewrite HG. auto.
  - intros f Hf. rewrite HG. auto.
Qed.

(** ** A change at one frame *)

(** What stays the same around frame [f]. *)
Record outside (f : Z) (k k' : kernel) : Prop := {
  o_cfg : cfg k' = cfg k;
  o_sched : sched k' = sched k;
  o_completed : completed k' = completed k;
  o_next : next_task k' = next_task k;
  o_strategies : strategies k' = strategies k;
  o_contents : contents (disk k') = contents (disk k);
  o_table : table_ok (table k') /\ table_frames (table k') = table_frames (table k);
  o_entry h : in_pool k h -> h <> f -> entry (table k') h = entry (table k) h;
  o_replacer : valid (replacer k') /\ frames (replacer k') = frames (replacer k);
  o_tracked h : h <> f -> tracked (replacer k) h -> tracked (replacer k') h;
  o_desc h : h <> f -> desc k' h = desc k h;
  o_data h : h <> f -> frame_data k' h = frame_data k h
}.

(** The flush tasks after a change at [f]. *)
Record tasks_step V (X X' : list flush_task) (k : kernel) (f : Z) (g' : ginfo) : Prop := {
  ts_frames : NoDup (task_frame <$> all_tasks X' k);
  ts_new t : t ∈ all_tasks X' k ->
    (task_frame t <> f /\ t ∈ all_tasks X k) \/ (task_frame t = f /\ task_ok V g' t);
  ts_old t : t ∈ all_tasks X k -> task_frame t <> f -> t ∈ all_tasks X' k;
  ts_writeback : c_writeback (g_ctl g') = true -> exists t, t ∈ all_tasks X' k /\ task_frame t = f
}.

(** [V'] may differ from [V] at the page of [f]. *)
Lemma inv_store_update V V' G X X' k k' f g' :
  Inv V G X k -> in_pool k f -> outside f k k' ->
  (forall t, t <> g_tag (G f) \/ g_state (G f) <> kResident -> V' t = V t) -> (forall t, page_fits (B := B) (V' t)) ->
  entry (table k') f = entry_of g' ->
  frame_ok V' (contents (disk k)) (tracked (replacer k') f) g' (desc k' f) (frame_data k' f) ->
  (g_state g' <> kFree -> scope (g_tag g') /\
     forall h, in_pool k h -> h <> f -> g_state (G h) <> kFree -> g_tag (G h) <> g_tag g') ->
  (g_state (G f) = kResident -> g_state g' = kResident /\ g_tag g' = g_tag (G f) \/
     contents (disk k) (g_tag (G f)) = V' (g_tag (G f))) ->
  dirty_page_count k' = dirty_page_count k - b2z (c_dirty (g_ctl (G f))) + b2z (c_dirty (g_ctl g')) ->
  tasks_step V' X X' k f g' -> free_ok (<[f := g']> G) k' -> loads_ok (<[f := g']> G) k' ->
  Inv V' (<[f := g']> G) X' k'.
Proof.
  intros HI Hf HO HV Hfit He Hfo Hun Hst Hdirty Hts Hfree Hloads.
  assert (forall h, in_pool k h -> h <> f -> g_state (G h) = kResident -> V' (g_tag (G h)) = V (g_tag (G h))) as HVh.
  { intros h Hh Hne Es. apply HV. destruct (decide (g_state (G f) = kResident)); [left|by right]. intros Et. apply Hne.
    apply (i_unique V G X k HI); try done; congruence. }
  assert (nframes k' = nframes k) as En by (unfold nframes; by rewrite (o_cfg _ _ _ HO)).
  assert (forall h, in_pool k' h <-> in_pool k h) as Hin by (intros h; unfold in_pool; by rewrite En).
  assert (forall Y, all_tasks Y k' = all_tasks Y k) as Eall
    by (intros Y; unfold all_tasks, queued_tasks; by rewrite (o_sched _ _ _ HO)).
  split; rewrite ?Eall, ?En, ?(o_contents _ _ _ HO), ?(o_sched _ _ _ HO), ?(o_strategies _ _ _ HO);
    try solve [apply HI|done].
  - destruct (o_table _ _ _ HO) as [? ->]. split; [done|apply HI].
  - destruct (o_replacer _ _ _ HO) as [? ->]. split; [done|apply HI].
  - intros h Hh. rewrite Hin in Hh. destruct (decide (h = f)) as [->|Hne]; [by rewrite fn_lookup_insert|].
    rewrite fn_lookup_insert_ne, (o_desc _ _ _ HO), (o_data _ _ _ HO) by done.
    destruct (i_frame V G X k HI h Hh) as [F1 F2 F3 F4 F5 F6 F7 F8]. split; try done.
    intros E. destruct (F8 E) as (? & ? & ? & ? & ?). rewrite (HVh h Hh Hne E). split_and!; try done. by apply (o_tracked _ _ _ HO).
  - intros h Hh. rewrite Hin in Hh. destruct (decide (h = f)) as [->|Hne]; [by rewrite fn_lookup_insert|].
    rewrite fn_lookup_insert_ne, (o_entry _ _ _ HO) by done. by apply (i_entry V G X k HI).
  - intros h j Hh Hj. rewrite Hin in Hh, Hj.
    destruct (decide (h = f)) as [->|Hh'], (decide (j = f)) as [->|Hj'];
      rewrite ?fn_lookup_insert, ?fn_lookup_insert_ne by done; try done.
    + intros L1 L2 E. by destruct (proj2 (Hun L1) j Hj Hj' L2).
    + intros L1 L2 E. by destruct (proj2 (Hun L2) h Hh Hh' L1).
    + by apply (i_unique V G X k HI).
  - intros t Ht.
    assert (forall h, in_pool k h -> h <> f -> g_state (G h) = kResident -> g_tag (G h) <> t) as Ho.
    { intros h Hh Hne. specialize (Ht h). rewrite fn_lookup_insert_ne in Ht by done. apply Ht. by apply Hin. }
    destruct (decide (g_state (G f) = kResident /\ g_tag (G f) = t)) as [[Es <-]|Hnot].
    + destruct (Hst Es) as [[Es' Et]|]; [|done]. specialize (Ht f). rewrite fn_lookup_insert in Ht.
      by destruct (Ht (proj2 (Hin f) Hf) Es').
    + rewrite HV by (destruct (decide (g_state (G f) = kResident)); [left; intros ->; tauto|by right]).
      apply (i_store V G X k HI). intros h Hh Es Et. destruct (decide (h = f)) as [->|Hne]; [naive_solver|].
      by apply (Ho h).
  - rewrite Hdirty, (i_dirty V G X k HI), sum_dirty_update by done. done.
  - destruct Hts as [Hnf Hnew _ _]. split; [done|]. intros t Ht. rewrite Hin.
    destruct (Hnew t Ht) as [[Hne Ht0]|[Eq Hok]].
    + destruct (i_tasks V G X k HI) as [_ Hall]. destruct (Hall t Ht0) as [? [J1 J2 J3 J4 J5]]. rewrite fn_lookup_insert_ne by done.
      split; [done|]. split; try done. rewrite (HVh (task_frame t)) by done. done.
    + rewrite Eq, fn_lookup_insert. done.
  - intros h Hh Hw. rewrite Hin in Hh. destruct (decide (h = f)) as [->|Hne].
    + rewrite fn_lookup_insert in Hw. by apply (ts_writeback _ _ _ _ _ _ Hts).
    + rewrite fn_lookup_insert_ne in Hw by done.
      destruct (i_writeback V G X k HI h Hh Hw) as (t & Ht & <-). exists t. split; [|done].
      by eapply (ts_old _ _ _ _ _ _ Hts).
  - unfold ids_ok, queued_tasks. rewrite (o_sched _ _ _ HO), (o_completed _ _ _ HO), (o_next _ _ _ HO). apply HI.
  - intros h Hh. rewrite Hin in Hh. destruct (decide (h = f)) as [->|Hne]; [rewrite fn_lookup_insert; apply Hun|].
    rewrite fn_lookup_insert_ne by done. by apply (i_scope V G X k HI).
Qed.

Lemma inv_update V G X X' k k' f g' :
  Inv V G X k -> in_pool k f -> outside f k k' ->
  entry (table k') f = entry_of g' ->
  frame_ok V (contents (disk k)) (tracked (replacer k') f) g' (desc k' f) (frame_data k' f) ->
  (g_state g' <> kFree -> scope (g_tag g') /\
     forall h, in_pool k h -> h <> f -> g_state (G h) <> kFree -> g_tag (G h) <> g_tag g') ->
  (g_state (G f) = kResident -> g_state g' = kResident /\ g_tag g' = g_tag (G f) \/
     contents (disk k) (g_tag (G f)) = V (g_tag (G f))) ->
  dirty_page_count k' = dirty_page_count k - b2z (c_dirty (g_ctl (G f))) + b2z (c_dirty (g_ctl g')) ->
  tasks_step V X X' k f g' -> free_ok (<[f := g']> G) k' -> loads_ok (<[f := g']> G) k' ->
  Inv V (<[f := g']> G) X' k'.
Proof. intros HI Hf HO. apply (inv_store_update V V G X X' k k' f g' HI Hf HO); [done|apply HI]. Qed.

(** Only the descriptor of [f], the dirty-page count and fields the invariant does
    not read differ. *)
Definition touched (f : Z) (k k' : kernel) : Prop :=
  same_state k k' /\ frame_data k' = frame_data k /\ (forall h, h <> f -> desc k' h = desc k h) /\
  completed k' = completed k /\ next_task k' = next_task k /\ failed k' = failed k /\ closed k' = closed k /\
  operations k' = operations k.

Lemma touched_desc f k d : touched f k (set_desc (<[f := d]> (desc k)) k).
Proof. repeat split. intros h Hh. cbn. by rewrite fn_lookup_insert_ne. Qed.

Lemma touched_refl f k : touched f k k.
Proof. by repeat split. Qed.

Lemma touched_trans f k k1 k2 : touched f k k1 -> touched f k1 k2 -> touched f k k2.
Proof.
  intros ((? & ? & ? & ? & ? & ? & ? & ?) & ? & Hd & ? & ? & ? & ? & ?)
         ((? & ? & ? & ? & ? & ? & ? & ?) & ? & Hd' & ? & ? & ? & ? & ?).
  unfold touched, same_state. split_and!; try congruence. intros h Hh. rewrite Hd', Hd by done. done.
Qed.

Lemma touched_outside V G X f k k' : Inv V G X k -> touched f k k' -> outside f k k'.
Proof.
  intros HI ((? & Et & Er & Ed & ? & ? & ? & ?) & Ef & Hd & ? & ? & ? & ? & ?).
  split; rewrite ?Et, ?Er, ?Ed, ?Ef; try done; try apply HI; auto.
  - split; [apply HI|done].
  - split; [apply HI|done].
Qed.

Lemma entry_of_same g g' : g_state g' = g_state g -> g_tag g' = g_tag g -> entry_of g' = entry_of g.
Proof. unfold entry_of. by intros -> ->. Qed.

(** Changing a frame's description in a way its place in the free list and among
    the reads in flight does not depend on. *)
Lemma free_ok_local G k f g' :
  free_ok G k -> g_state g' = g_state (G f) -> g_own g' = g_own (G f) -> free_ok (<[f := g']> G) k.
Proof.
  intros (l & Hl & Hnd & Hel) Es Eo. exists l. split_and!; try done. intros h. rewrite Hel.
  destruct (decide (h = f)) as [->|Hne]; [by rewrite fn_lookup_insert, Es, Eo|by rewrite fn_lookup_insert_ne].
Qed.

Lemma loads_ok_local G k f g' :
  loads_ok G k -> g_state g' = g_state (G f) -> g_own g' = g_own (G f) -> g_tag g' = g_tag (G f) ->
  loads_ok (<[f := g']> G) k.
Proof.
  intros (Hnd & Hel & Htg) Es Eo Et. split; [done|]. split.
  - intros h. rewrite Hel.
    destruct (decide (h = f)) as [->|Hne]; [by rewrite fn_lookup_insert, Es, Eo|by rewrite fn_lookup_insert_ne].
  - intros e He. rewrite Htg by done.
    destruct (decide (entry_frame e = f)) as [->|Hne]; [by rewrite fn_lookup_insert, Et|by rewrite fn_lookup_insert_ne].
Qed.

(** A frame that is in neither before and after the change. *)
Lemma free_ok_other G k f g' :
  free_ok G k -> ~ (g_state (G f) = kFree /\ g_own (G f) = false) -> ~ (g_state g' = kFree /\ g_own g' = false) ->
  free_ok (<[f := g']> G) k.
Proof.
  intros (l & Hl & Hnd & Hel) Ho Hn. exists l. split_and!; try done. intros h. rewrite Hel.
  destruct (decide (h = f)) as [->|Hne]; [rewrite fn_lookup_insert; tauto|by rewrite fn_lookup_insert_ne].
Qed.

Lemma loads_ok_other G k f g' :
  loads_ok G k -> ~ (g_state (G f) = kLoading /\ g_own (G f) = false) ->
  ~ (g_state g' = kLoading /\ g_own g' = false) -> loads_ok (<[f := g']> G) k.
Proof.
  intros (Hnd & Hel & Htg) Ho Hn. split; [done|]. split.
  - intros h. rewrite Hel.
    destruct (decide (h = f)) as [->|Hne]; [rewrite fn_lookup_insert; tauto|by rewrite fn_lookup_insert_ne].
  - intros e He. rewrite Htg by done. rewrite fn_lookup_insert_ne; [done|]. intros ->. apply Ho.
    apply (Hel (entry_frame e)). by apply list_elem_of_fmap_2.
Qed.

Lemma free_ok_ext G k k' : free_ok G k -> cfg k' = cfg k -> free k' = free k -> free_ok G k'.
Proof. unfold free_ok, in_pool, nframes. by intros ? -> ->. Qed.

Lemma loads_ok_ext G k k' : loads_ok G k -> cfg k' = cfg k -> loads k' = loads k -> loads_ok G k'.
Proof. unfold loads_ok, load_entries, in_pool, nframes. by intros ? -> ->. Qed.

(** A frame put on the free list. *)
Lemma free_ok_push G k k' f g' :
  free_ok G k -> 0 < nframes k < kInvalidFrameId -> in_pool k f -> ~ (g_state (G f) = kFree /\ g_own (G f) = false) ->
  g_state g' = kFree -> g_own g' = false -> cfg k' = cfg k -> free k' = push_free f (free k) ->
  free_ok (<[f := g']> G) k'.
Proof.
  intros (l & Hl & Hnd & Hel) Hn Hf Ho Es Eo Ec Ef. unfold in_pool, nframes in *. exists (f :: l).
  assert (f ∉ l) as Hni by (intros Hin; apply Ho; by apply Hel).
  split; [rewrite Ef; apply push_law; [done|lia|done]|]. split; [by apply list.NoDup_cons|].
  intros h. rewrite elem_of_cons, Hel. unfold in_pool, nframes. rewrite Ec.
  destruct (decide (h = f)) as [->|Hne]; [rewrite fn_lookup_insert; tauto|rewrite fn_lookup_insert_ne by done; tauto].
Qed.

Lemma outside_same f k k1 k2 :
  outside f k k1 -> same_state k1 k2 -> desc k2 = desc k1 -> frame_data k2 = frame_data k1 ->
  completed k2 = completed k1 -> next_task k2 = next_task k1 -> outside f k k2.
Proof.
  intros [] (E1 & E2 & E3 & E4 & E5 & E6 & E7 & E8) E9 E10 E11 E12.
  split; rewrite ?E1, ?E2, ?E3, ?E4, ?E6, ?E8, ?E9, ?E10, ?E11, ?E12; done.
Qed.

(** A change that keeps the state, the owner and the page of the frame. *)
Lemma inv_local V G X X' k k' f g' :
  Inv V G X k -> in_pool k f -> touched f k k' ->
  g_state g' = g_state (G f) -> g_own g' = g_own (G f) -> g_tag g' = g_tag (G f) ->
  frame_ok V (contents (disk k)) (tracked (replacer k) f) g' (desc k' f) (frame_data k f) ->
  dirty_page_count k' = dirty_page_count k - b2z (c_dirty (g_ctl (G f))) + b2z (c_dirty (g_ctl g')) ->
  tasks_step V X X' k f g' ->
  Inv V (<[f := g']> G) X' k'.
Proof.
  intros HI Hf Ht Es Eo Et Hfo Hd Hts. pose proof (touched_outside _ _ _ _ _ _ HI Ht) as HO.
  pose proof Ht as ((Ec & Etb & Er & _ & Ef & _ & El & _) & Efd & _).
  eapply inv_update; try done.
  - rewrite Etb, (i_entry V G X k HI f Hf). symmetry. by apply entry_of_same.
  - by rewrite Er, Efd.
  - intros L. split; [rewrite Et; apply (i_scope V G X k HI f Hf); congruence|]. intros h Hh Hne Lh E. apply Hne.
    apply (i_unique V G X k HI h f); congruence.
  - intros E. left. split; congruence.
  - eapply free_ok_ext; [|done..]. apply free_ok_local; [apply HI|done..].
  - eapply loads_ok_ext; [|done..]. apply loads_ok_local; [apply HI|done..].
Qed.

(** The tasks are the same and their snapshots still count. *)
Lemma tasks_same V G X k f g' :
  Inv V G X k -> in_pool k f -> g_state g' = g_state (G f) -> g_tag g' = g_tag (G f) ->
  c_writeback (g_ctl g') = c_writeback (g_ctl (G f)) ->
  (c_redirtied (g_ctl g') = false -> c_excl (g_ctl g') = false ->
     c_writeback (g_ctl g') = true -> c_redirtied (g_ctl (G f)) = false /\ c_excl (g_ctl (G f)) = false) ->
  tasks_step V X X k f g'.
Proof.
  intros HI Hf Est Etag Ew Er. destruct (i_tasks V G X k HI) as [Hnd Hall]. split; try done.
  - intros t Ht. destruct (decide (task_frame t = f)) as [<-|Hne]; [right|by left]. split; [done|].
    destruct (Hall t Ht) as [_ [J1 J2 J3 J4 J5]]. split; try congruence.
    intros Hr Hx. rewrite Etag. destruct Er as [? ?]; try done; [congruence|]. auto.
  - rewrite Ew. intros Hw. by apply (i_writeback V G X k HI).
Qed.

(** A frame with no writeback before and after has no task. *)
Lemma tasks_none V G X k f g' :
  Inv V G X k -> c_writeback (g_ctl (G f)) = false -> c_writeback (g_ctl g') = false ->
  forall V', tasks_step V' X X k f g'.
Proof.
  intros HI Ew Ew' V'. destruct (i_tasks V G X k HI) as [Hnd Hall]. split; try done.
  - intros t Ht. left. split; [|done]. intros <-. destruct (Hall t Ht) as [_ [_ J2 _ _ _]]. congruence.
  - congruence.
Qed.

(** An operation on the control word of [f] that keeps state, dirty and writeback
    bits; the exclusive latch may only be taken, or given back with the page
    showing [V]. *)
Lemma inv_word V G X k f w c' d' :
  Inv V G X k -> in_pool k f ->
  control d' = encode (set_waiters w c') -> ctl_ok c' -> c_state c' = c_state (g_ctl (G f)) ->
  c_dirty c' = c_dirty (g_ctl (G f)) -> c_writeback c' = c_writeback (g_ctl (G f)) ->
  (c_redirtied (g_ctl (G f)) = true -> c_redirtied c' = true) ->
  (c_state c' <> kResident -> c_pins c' = c_pins (g_ctl (G f))) ->
  (c_excl (g_ctl (G f)) = true -> c_excl c' = false -> c_state c' = kResident ->
     g_page (G f) = V (g_tag (G f)) /\ (c_writeback c' = true -> c_redirtied c' = true)) ->
  last_writeback_error d' = last_writeback_error (desc k f) -> d_tag d' = d_tag (desc k f) ->
  Inv V (<[f := with_ctl c' (G f)]> G) X (set_desc (<[f := d']> (desc k)) k).
Proof.
  intros HI Hf Hw Hok Est Edt Ewb Hrd Hpins Hx Eerr Etag.
  pose proof (i_frame V G X k HI f Hf) as [F1 F2 F3 F4 F5 F6 F7 F8]. unfold g_state in *.
  eapply (inv_local V G X X k); try done.
  - apply touched_desc.
  - cbn [desc set_desc]. rewrite fn_lookup_insert.
    split; unfold g_state; cbn [g_ctl g_own g_tag g_page with_ctl]; rewrite ?Est, ?Edt, ?Ewb.
    + by exists w.
    + done.
    + by rewrite Eerr.
    + done.
    + by rewrite Etag.
    + intros E. rewrite Hpins by congruence. by apply F6.
    + intros E. rewrite Hpins by congruence. by apply F7.
    + intros E. destruct (F8 E) as (? & ? & Hp & ? & ?). split_and!; try done.
      intros E1. destruct (c_excl (g_ctl (G f))); [|by apply Hp]. apply Hx; congruence.
  - cbn [g_ctl with_ctl dirty_page_count set_desc]. rewrite Edt. lia.
  - apply (tasks_same V G); try done; cbn [g_ctl with_ctl].
    intros Er E1 E2. destruct (c_redirtied (g_ctl (G f))) eqn:Er0; [by rewrite Hrd in Er|]. split; [done|].
    destruct (c_excl (g_ctl (G f))); [|done].
    assert (c_state (g_ctl (G f)) = kResident) as Es.
    { rewrite Ewb in E2. destruct (i_writeback V G X k HI f Hf E2) as (t & Ht & <-).
      destruct (i_tasks V G X k HI) as [_ Hall]. by destruct (Hall t Ht) as [_ [? _ _ _ _]]. }
    destruct (Hx eq_refl E1 ltac:(congruence)) as [_ Hr]. by rewrite Hr in Er.
Qed.

End Inv.

(** Only the pages that are cached matter for the scope. *)
Lemma inv_rescope {T F R B : Type} `{FrameTableLaws T} `{FreeFramesLaws F} `{ReplacerLaws R} `{BackendLaws B}
    (S1 S2 : Scope) V G X (k : kernel T F R B) :
  Inv (SC := S1) V G X k -> (forall f, in_pool k f -> g_state (G f) <> kFree -> scope (Scope := S2) (g_tag (G f))) ->
  (forall t, scope (Scope := S2) t -> addressable (B := B) t) ->
  Inv (SC := S2) V G X k.
Proof. intros [I1 I2 I3 I4 I5 I6 I7 I8 I9 I10 I11 I12 I13 I14 I15 I16 I17 I18] Hs Ha. by split. Qed.
