(* ===== verification/KernelOps.v ===== *)
(** Specifications of the control-word operations of a buffer manager.

    [wp m Q k]: started in [k], the call [m] returns, and its result and final
    state satisfy [Q].  The only excuse for a call that does not return is a
    replacement policy that can miss an evictable frame ([steady_policy] fails, as
    for a clock whose 64-bit hand wraps around). *)
From S2P Require Import Prelude Status CasLoop FrameControl Layout Replacer FlushScheduler Cleaner Interfaces Kernel Manager KernelInv.

Section Ops.
Context {T F R B : Type} `{FrameTableLaws T} `{FreeFramesLaws F} `{ReplacerLaws R} `{BackendLaws B} {SC : Scope}.
Local Abbreviation kernel := (kernel T F R B).
Local Abbreviation M := (@M T F R B).

(** ** The program logic *)

Definition steady_policy : Prop := forall s : R, valid s -> steady s.

Definition wp {A} (m : M A) (Q : A -> kernel -> Prop) (k : kernel) : Prop :=
  match m k with Some (a, k') => Q a k' | None => ~ steady_policy end.

Lemma wp_bind {A C} (m : M A) (f : A -> M C) Q k :
  wp m (fun a => wp (f a) Q) k -> wp (bind m f) Q k.
Proof. unfold wp, bind. by destruct (m k) as [[a k']|]. Qed.

Lemma wp_mono {A} (m : M A) (Q Q' : A -> kernel -> Prop) k :
  wp m Q k -> (forall a k', Q a k' -> Q' a k') -> wp m Q' k.
Proof. unfold wp. destruct (m k) as [[a k']|]; auto. Qed.

(** A call followed by another, with the first one's specification. *)
Lemma wp_seq {A C} (m : M A) (f : A -> M C) (Q : A -> kernel -> Prop) S k :
  wp m Q k -> (forall a k', Q a k' -> wp (f a) S k') -> wp (bind m f) S k.
Proof. intros Hm Hf. apply wp_bind. by eapply wp_mono. Qed.

Lemma wp_run {A} (m : M A) (Q : A -> kernel -> Prop) k a k' : m k = Some (a, k') -> Q a k' -> wp m Q k.
Proof. unfold wp. by intros ->. Qed.

Lemma wp_get {A C} (g : kernel -> A) (f : A -> M C) Q k : wp (f (g k)) Q k -> wp (bind (get g) f) Q k.
Proof. done. Qed.

Lemma wp_modify {C} (g : kernel -> kernel) (f : unit -> M C) Q k : wp (f tt) Q (g k) -> wp (bind (modify g) f) Q k.
Proof. done. Qed.

Lemma wp_ret {A C} (a : A) (f : A -> M C) Q k : wp (f a) Q k -> wp (bind (ret a) f) Q k.
Proof. done. Qed.

(** A run has one result, so facts about it add up. *)
Lemma wp_forall {A Y} (y0 : Y) (m : M A) (P : A -> kernel -> Prop) (Q : Y -> A -> kernel -> Prop) k :
  (forall y, wp m (fun a k' => P a k' /\ Q y a k') k) -> wp m (fun a k' => P a k' /\ forall y, Q y a k') k.
Proof.
  unfold wp. intros Hm. destruct (m k) as [[a k']|]; [|apply (Hm y0)]. split; [apply (Hm y0)|]. intros y. apply Hm.
Qed.

(** A loop: every pass that goes on lowers the measure. *)
Lemma wp_loop {A C} (I : A -> kernel -> Prop) (measure : A -> kernel -> nat) (body : A -> M (A + C))
    (Q : C -> kernel -> Prop) fuel a0 k :
  (forall a k, I a k -> wp (body a) (fun r k' =>
     match r with inl a' => I a' k' /\ (measure a' k' < measure a k)%nat | inr c => Q c k' end) k) ->
  I a0 k -> (measure a0 k < fuel)%nat -> wp (loop fuel body a0) Q k.
Proof.
  intros Hb. revert a0 k. induction fuel as [|fuel IH]; intros a0 k HI Hm; [lia|]. cbn [loop].
  eapply wp_seq; [by apply Hb|]. intros [a'|c] k' Hr; [|done]. destruct Hr as [? ?]. apply IH; [done|lia].
Qed.

Lemma wp_for_each {A} (I : list A -> kernel -> Prop) (body : A -> M unit) l k :
  (forall a l k, I (a :: l) k -> wp (body a) (fun _ => I l) k) -> I l k -> wp (for_each l body) (fun _ => I []) k.
Proof.
  intros Hb. revert k. induction l as [|a l IH]; intros k HI; [done|]. cbn [for_each].
  eapply wp_seq; [by apply Hb|]. intros [] k'. apply IH.
Qed.

(** ** The state between steps *)

Context (K : config).
Local Abbreviation N := (pool_size K).

Definition St (V : BufferTag -> page) (G : Z -> ginfo) (X : list flush_task) (k : kernel) : Prop :=
  cfg k = K /\ failed k = false /\ closed k = false /\ Inv V G X k.

Lemma st_inv V G X k : St V G X k -> Inv V G X k.
Proof. intros (_ & _ & _ & HI). done. Qed.

Lemma st_cfg V G X k : St V G X k -> cfg k = K.
Proof. by intros (? & _). Qed.

Lemma st_pool V G X k f : St V G X k -> 0 <= f < N -> in_pool k f.
Proof. intros (E & _) Hf. unfold in_pool, nframes. by rewrite E. Qed.

Lemma st_pool_iff V G X k f : St V G X k -> in_pool k f <-> 0 <= f < N.
Proof. intros (E & _). unfold in_pool, nframes. by rewrite E. Qed.

Lemma st_frame V G X k f : St V G X k -> 0 <= f < N ->
  frame_ok V (contents (disk k)) (tracked (replacer k) f) (G f) (desc k f) (frame_data k f).
Proof. intros HS Hf. apply (i_frame V G X k (st_inv _ _ _ _ HS)). by eapply st_pool. Qed.

Lemma st_scope V G X k f : St V G X k -> 0 <= f < N -> g_state (G f) <> kFree -> scope (g_tag (G f)).
Proof. intros HS Hf. apply (i_scope V G X k (st_inv _ _ _ _ HS)). by eapply st_pool. Qed.

Lemma st_addressable V G X k f : St V G X k -> 0 <= f < N -> g_state (G f) <> kFree -> addressable (B := B) (g_tag (G f)).
Proof. intros HS Hf Hs. apply (i_addressable V G X k (st_inv _ _ _ _ HS)). by eapply st_scope. Qed.

Lemma st_ghost_ext V G G' X k : St V G X k -> (forall f, G' f = G f) -> St V G' X k.
Proof. intros (? & ? & ? & HI) HG. split_and!; try done. by eapply inv_ghost_ext. Qed.

(** Changes of fields that the invariant does not read. *)
Definition neutral (g : kernel -> kernel) : Prop :=
  forall k, same_state k (g k) /\ desc (g k) = desc k /\ frame_data (g k) = frame_data k /\
    dirty_page_count (g k) = dirty_page_count k /\ completed (g k) = completed k /\
    next_task (g k) = next_task k /\ failed (g k) = failed k /\ closed (g k) = closed k /\
    operations (g k) = operations k.

Lemma touched_neutral f g k : neutral g -> touched f k (g k).
Proof.
  intros Hn. destruct (Hn k) as (? & E & ? & ? & ? & ? & ? & ? & ?). unfold touched. split_and!; try done.
  intros h _. by rewrite E.
Qed.

Lemma st_neutral V G X k g : neutral g -> St V G X k -> St V G X (g k).
Proof.
  intros Hn (E & Ef & Ec & HI). destruct (Hn k) as (Hs & Ed & Ep & Ex & E1 & E2 & E3 & E4 & E5).
  split; [by destruct Hs as (-> & _)|]. split; [congruence|]. split; [congruence|].
  eapply inv_ext; eauto. intros f. by rewrite Ed.
Qed.

Lemma neutral_id : neutral id.
Proof. done. Qed.
Lemma neutral_cleaner g : neutral (fun k => set_cleaner (g <$> clean k) k).
Proof. done. Qed.
Lemma neutral_written g : neutral (fun k => set_written (g k) k).
Proof. done. Qed.
Lemma neutral_if g (b : kernel -> bool) : neutral g -> neutral (fun k => if b k then k else g k).
Proof. intros Hn k. destruct (b k); [done|apply Hn]. Qed.

(** The cleaner's book-keeping. *)
Lemma reset_cleaner_run f (k : kernel) : exists g, neutral g /\ ResetCleanerCandidate f k = Some (tt, g k).
Proof.
  exists (fun k => if pool_size (cfg k) <=? f then k else set_cleaner (ResetCandidate f <$> clean k) k).
  split; [by apply (neutral_if _ (fun k => pool_size (cfg k) <=? f)), neutral_cleaner|].
  unfold ResetCleanerCandidate. by destruct (_ <=? f).
Qed.

Lemma enqueue_cleaner_run f (k : kernel) : exists g, neutral g /\ MaybeEnqueueCleanerCandidate f k = Some (tt, g k).
Proof.
  exists (fun k => if pool_size (cfg k) <=? f then k else set_cleaner (EnqueueCandidate f <$> clean k) k).
  split; [by apply (neutral_if _ (fun k => pool_size (cfg k) <=? f)), neutral_cleaner|].
  unfold MaybeEnqueueCleanerCandidate. by destruct (_ <=? f).
Qed.

(** ** Control-word operations *)

(** The operation run on the decoded word. *)
Lemma on_word_run {A C} (body : Z -> cas_step Z A) (cbody : ctl -> cas_step ctl C) (out : C -> A) (k : kernel) f c :
  control (desc k f) = encode c -> body (encode c) = map_cas encode out (cbody c) ->
  on_word f body k =
    match cbody c with
    | Return a => Some (out a, set_desc (<[f := set_control (encode c) (desc k f)]> (desc k)) k)
    | Reload => None
    | Exchange c' _ a => Some (out a, set_desc (<[f := set_control (encode c') (desc k f)]> (desc k)) k)
    end.
Proof. intros Ew Eb. unfold on_word, run_alone. rewrite Ew, Eb. by destruct (cbody c). Qed.

(** Writing back the word that is there. *)
Lemma st_same_word V G X k f w :
  St V G X k -> control (desc k f) = w ->
  St V G X (set_desc (<[f := set_control w (desc k f)]> (desc k)) k).
Proof.
  intros (E & Ef & Ec & HI) Ew. split; [done|]. split; [done|]. split; [done|].
  eapply inv_ext; [exact HI|done| |done..]. intros h. cbn [desc set_desc].
  destruct (decide (h = f)) as [->|Hne]; [|by rewrite fn_lookup_insert_ne].
  rewrite fn_lookup_insert, <- Ew. by destruct (desc k f).
Qed.

Definition upd_ctl (G : Z -> ginfo) (f : Z) (c' : ctl) : Z -> ginfo := <[f := with_ctl c' (G f)]> G.

Lemma upd_ctl_eq G f c' : upd_ctl G f c' f = with_ctl c' (G f).
Proof. unfold upd_ctl. by rewrite fn_lookup_insert. Qed.
Lemma upd_ctl_ne G f c' h : h <> f -> upd_ctl G f c' h = G h.
Proof. intros ?. unfold upd_ctl. by rewrite fn_lookup_insert_ne. Qed.

(** Writing a word that differs in the latch, the pins of a resident frame, the
    waiters bit or a newly set redirtied bit. *)
Lemma st_word V G X k f w c' :
  St V G X k -> 0 <= f < N -> ctl_ok c' -> c_state c' = c_state (g_ctl (G f)) ->
  c_dirty c' = c_dirty (g_ctl (G f)) -> c_writeback c' = c_writeback (g_ctl (G f)) ->
  (c_redirtied (g_ctl (G f)) = true -> c_redirtied c' = true) ->
  (c_state c' <> kResident -> c_pins c' = c_pins (g_ctl (G f))) ->
  (c_excl (g_ctl (G f)) = true -> c_excl c' = false -> c_state c' = kResident ->
     g_page (G f) = V (g_tag (G f)) /\ (c_writeback c' = true -> c_redirtied c' = true)) ->
  St V (upd_ctl G f c') X
    (set_desc (<[f := set_control (encode (set_waiters w c')) (desc k f)]> (desc k)) k).
Proof.
  intros HS Hf Hok E1 E2 E3 E4 E5 E6. pose proof (st_pool _ _ _ _ _ HS Hf) as Hp.
  destruct HS as (E & Ef & Ec & HI). split; [done|]. split; [done|]. split; [done|].
  by eapply inv_word with (w := w).
Qed.

(** Steps a specification of a word operation starts with. *)
Section Frame.
Context (V : BufferTag -> page) (G : Z -> ginfo) (X : list flush_task) (f : Z) (Hf : 0 <= f < N).
Let c : ctl := g_ctl (G f).

(** The word of the frame, as the operations see it. *)
Lemma st_word_of k : St V G X k ->
  exists w, control (desc k f) = encode (set_waiters w c) /\ ctl_ok (set_waiters w c) /\ ctl_ok c.
Proof.
  intros HS. pose proof (st_frame V G X k f HS Hf) as [(w & Ew) Hok _ _ _ _ _ _]. exists w. split; [done|].
  split; [by apply ctl_ok_waiters|done].
Qed.

Lemma pin_spec k :
  St V G X k -> c_pins c < kMaxPins ->
  wp (on_word f TryPinResident) (fun b k' => touched f k k' /\
    if b then c_state c = kResident /\ St V (upd_ctl G f (set_pins (c_pins c + 1) c)) X k'
    else c_state c <> kResident /\ St V G X k') k.
Proof.
  intros HS Hp. destruct (st_word_of k HS) as (w & Ew & Hok & Hc).
  destruct (TryPinResident_encode _ Hok) as [Eb _]. unfold wp. rewrite (on_word_run _ pin_ctl id k f _ Ew Eb).
  unfold pin_ctl, c_is. cbn [set_waiters c_state c_pins]. fold c.
  case_bool_decide as Es; cbn [negb].
  - destruct (Z.eqb_spec (c_pins c) kMaxPins); [lia|]. split; [apply touched_desc|]. split; [done|].
    apply (st_word V G X k f w (set_pins (c_pins c + 1) c) HS Hf); cbn; try done.
    + destruct Hc. unfold kMaxPins in *. split; cbn; lia.
    + fold c. congruence.
  - split; [apply touched_desc|]. split; [done|]. by apply st_same_word.
Qed.

Lemma unpin_spec k :
  St V G X k -> c_state c = kResident -> 0 < c_pins c ->
  wp (on_word f Unpin) (fun r k' => touched f k k' /\ (exists w, r = Some (encode (set_waiters w c))) /\
    St V (upd_ctl G f (set_pins (c_pins c - 1) c)) X k') k.
Proof.
  intros HS Es Hp. destruct (st_word_of k HS) as (w & Ew & Hok & Hc).
  destruct (Unpin_encode _ Hok) as [Eb _]. unfold wp. rewrite (on_word_run _ unpin_ctl _ k f _ Ew Eb).
  unfold unpin_ctl. cbn [set_waiters c_pins]. fold c.
  destruct (Z.eqb_spec (c_pins c) 0); [lia|]. split; [apply touched_desc|]. split; [by exists w|].
  apply (st_word V G X k f w (set_pins (c_pins c - 1) c) HS Hf); cbn; try done.
  - destruct Hc. split; cbn; lia.
  - fold c. congruence.
Qed.

Lemma try_shared_spec k :
  St V G X k ->
  wp (on_word f TryAcquireShared) (fun b k' => touched f k k' /\
    if b then c_excl c = false /\ c_shared c < kMaxShared /\ St V (upd_ctl G f (set_shared (c_shared c + 1) c)) X k'
    else (c_excl c = true \/ c_shared c = kMaxShared) /\ St V G X k') k.
Proof.
  intros HS. destruct (st_word_of k HS) as (w & Ew & Hok & [Hc1 Hc2]).
  destruct (TryAcquireShared_encode _ Hok) as [Eb _]. unfold wp.
  rewrite (on_word_run _ acquire_shared_ctl id k f _ Ew Eb).
  unfold acquire_shared_ctl. cbn [set_waiters c_excl c_shared]. fold c.
  destruct (c_excl c) eqn:Ex; cbn [negb andb].
  - split; [apply touched_desc|]. split; [by left|]. by apply st_same_word.
  - destruct (Z.ltb_spec (c_shared c) kMaxShared) as [Hlt|Hge]; (split; [apply touched_desc|]).
    + split; [done|]. split; [done|].
      apply (st_word V G X k f w (set_shared (c_shared c + 1) c) HS Hf); cbn; try done.
      * unfold kMaxShared in *. split; cbn; lia.
      * fold c. congruence.
    + split; [right; unfold kMaxShared in *; lia|]. by apply st_same_word.
Qed.

Lemma acquire_shared_spec k :
  St V G X k -> c_excl c = false -> c_shared c < kMaxShared ->
  wp (AcquireShared f) (fun _ k' => touched f k k' /\ St V (upd_ctl G f (set_shared (c_shared c + 1) c)) X k') k.
Proof.
  intros HS Ex Hs. unfold AcquireShared, acquire, wp.
  replace (wait_fuel k) with (S (wait_fuel k - 1)) by (unfold wait_fuel; lia).
  cbn [loop]. unfold bind. pose proof (try_shared_spec k HS) as Ht. unfold wp in Ht.
  destruct (on_word f TryAcquireShared k) as [[[] k']|]; [|destruct Ht as [_ [[?|?] _]]; [congruence|lia]|done].
  destruct Ht as (? & _ & _ & ?). done.
Qed.

Lemma release_shared_spec k :
  St V G X k -> 0 < c_shared c ->
  wp (on_word f ReleaseShared) (fun _ k' => touched f k k' /\ St V (upd_ctl G f (set_shared (c_shared c - 1) c)) X k') k.
Proof.
  intros HS Hs. destruct (st_word_of k HS) as (w & Ew & Hok & [Hc1 Hc2]).
  destruct (ReleaseShared_encode _ Hok Hs) as [Eb _]. unfold wp. rewrite (on_word_run _ release_shared_ctl _ k f _ Ew Eb).
  unfold release_shared_ctl, wake_all. cbn [set_waiters set_shared c_shared c_waiters].
  assert (ctl_ok (set_shared (c_shared c - 1) c)) as Hok' by (split; cbn; lia).
  assert (forall w', St V (upd_ctl G f (set_shared (c_shared c - 1) c)) X
    (set_desc (<[f := set_control (encode (set_waiters w' (set_shared (c_shared c - 1) c))) (desc k f)]> (desc k)) k)) as Hst.
  { intros w'. apply (st_word V G X k f w' (set_shared (c_shared c - 1) c) HS Hf); cbn; try done. fold c. congruence. }
  destruct (_ || _); [destruct w|]; (split; [apply touched_desc|]); [apply (Hst false)|apply (Hst false)|apply (Hst w)].
Qed.

Lemma acquire_exclusive_spec k :
  St V G X k -> c_latched c = false ->
  wp (AcquireExclusive f) (fun _ k' => touched f k k' /\ St V (upd_ctl G f (set_excl true c)) X k') k.
Proof.
  intros HS Hl. unfold AcquireExclusive, acquire, wp.
  replace (wait_fuel k) with (S (wait_fuel k - 1)) by (unfold wait_fuel; lia).
  cbn [loop]. unfold bind. destruct (st_word_of k HS) as (w & Ew & Hok & Hc).
  destruct (TryAcquireExclusive_encode _ Hok) as [Eb _].
  rewrite (on_word_run _ acquire_exclusive_ctl id k f _ Ew Eb). unfold acquire_exclusive_ctl.
  change (c_latched (set_waiters w c)) with (c_latched c). rewrite Hl. cbn [negb].
  split; [apply touched_desc|].
  by apply (st_word V G X k f w (set_excl true c) HS Hf).
Qed.

(** The word after the exclusive latch is released. *)
Definition released_ctl : ctl := set_redirtied (c_redirtied c || c_writeback c) (set_excl false c).

Lemma release_exclusive_spec k :
  St V G X k -> g_page (G f) = V (g_tag (G f)) ->
  wp (on_word f ReleaseExclusive) (fun _ k' => touched f k k' /\ St V (upd_ctl G f released_ctl) X k') k.
Proof.
  intros HS Epg. destruct (st_word_of k HS) as (w & Ew & Hok & Hc).
  destruct (ReleaseExclusive_encode _ Hok) as [Eb _]. unfold wp.
  rewrite (on_word_run _ release_exclusive_ctl _ k f _ Ew Eb).
  unfold release_exclusive_ctl, wake_all. cbn [c_waiters set_waiters].
  change (c_writeback (set_waiters w c)) with (c_writeback c).
  assert (St V (upd_ctl G f released_ctl) X
    (set_desc (<[f := set_control (encode (set_waiters false released_ctl)) (desc k f)]> (desc k)) k)) as Hst.
  { apply (st_word V G X k f false released_ctl HS Hf); cbn; try done.
    - fold c. by intros ->.
    - intros _ _ _. split; [done|]. change (c_writeback released_ctl) with (c_writeback c). intros ->.
      apply orb_true_r. }
  split; [apply touched_desc|]. by destruct w.
Qed.

End Frame.

(** ** Several changes at one frame *)

Lemma st_local V G X X' k k' f g' :
  St V G X k -> 0 <= f < N -> touched f k k' ->
  g_state g' = g_state (G f) -> g_own g' = g_own (G f) -> g_tag g' = g_tag (G f) ->
  frame_ok V (contents (disk k)) (tracked (replacer k) f) g' (desc k' f) (frame_data k f) ->
  dirty_page_count k' = dirty_page_count k - b2z (c_dirty (g_ctl (G f))) + b2z (c_dirty (g_ctl g')) ->
  tasks_step V X X' k f g' ->
  St V (<[f := g']> G) X' k'.
Proof.
  intros HS Hf Ht Est Eown Etag Hfo Hdc Hts. pose proof Ht as ((Ec' & _) & _ & _ & _ & _ & E3 & E4 & _).
  pose proof (st_pool _ _ _ _ _ HS Hf) as Hp. destruct HS as (E & Ef & Ec & HI).
  split; [congruence|]. split; [congruence|]. split; [congruence|]. by eapply inv_local.
Qed.

Lemma lower_rec_lsn_run f lsn (k : kernel) :
  exists l, lower_rec_lsn f lsn k = Some (tt, set_desc (<[f := set_rec_lsn l (desc k f)]> (desc k)) k).
Proof.
  unfold lower_rec_lsn, run_alone, LowerRecLsn.
  destruct (_ =? _); cbn; [by eexists|]. destruct (_ || _); cbn; by eexists.
Qed.

(** The dirty-page count moves with one frame's dirty bit. *)
Lemma dirty_shift V G X k f :
  St V G X k -> 0 <= f < N ->
  (c_dirty (g_ctl (G f)) = false -> u64 (dirty_page_count k + 1) = dirty_page_count k + 1) /\
  (c_dirty (g_ctl (G f)) = true -> u64 (dirty_page_count k - 1) = dirty_page_count k - 1).
Proof.
  intros HS Hf. pose proof (st_pool _ _ _ _ _ HS Hf) as Hp. pose proof (st_inv _ _ _ _ HS) as HI.
  unfold in_pool in Hp.
  set (flip := with_ctl (set_dirty (negb (c_dirty (g_ctl (G f)))) (g_ctl (G f))) (G f)).
  pose proof (sum_dirty_bound (nframes k) (<[f := flip]> G) ltac:(lia)) as Hb.
  rewrite sum_dirty_update in Hb by done. cbn [flip with_ctl g_ctl set_dirty c_dirty] in Hb.
  split; intros Ed; rewrite Ed in Hb; cbn in Hb.
  - apply (dirty_count_u64 V G X k 1 HI). lia.
  - apply (dirty_count_u64 V G X k (-1) HI). lia.
Qed.

Section Frame2.
Context (V : BufferTag -> page) (G : Z -> ginfo) (X : list flush_task) (f : Z) (Hf : 0 <= f < N).
Let c : ctl := g_ctl (G f).

(** *** Marking dirty *)

Definition marked_ctl : ctl := set_redirtied (c_redirtied c || c_writeback c) (set_dirty true c).

Lemma mark_word (k : kernel) w :
  control (desc k f) = encode (set_waiters w c) -> ctl_ok (set_waiters w c) -> c_state c = kResident ->
  exists k1, on_word f MarkDirty k = Some (Some (negb (c_dirty c)), k1) /\ touched f k k1 /\
    dirty_page_count k1 = dirty_page_count k /\
    desc k1 f = set_control (encode (set_waiters w marked_ctl)) (desc k f).
Proof.
  intros Ew Hok Es. destruct (MarkDirty_encode _ Hok) as [Eb _].
  rewrite (on_word_run _ mark_dirty_ctl id k f _ Ew Eb). unfold mark_dirty_ctl, c_is.
  cbn [set_waiters c_state c_dirty c_redirtied]. change (c_writeback (set_waiters w c)) with (c_writeback c).
  rewrite bool_decide_true by done. cbn [negb].
  destruct (c_dirty c) eqn:Ed; [destruct (negb (c_writeback c) || c_redirtied c) eqn:Er|]; cbn [andb negb id].
  - eexists. split; [done|]. split; [apply touched_desc|]. split; [done|]. cbn. rewrite fn_lookup_insert.
    do 2 f_equal. unfold marked_ctl. destruct c as [st d q a p r x sh wt pn]; unfold c_writeback in *; cbn in *.
    subst d. f_equal. destruct r, (q || a); done.
  - eexists. split; [done|]. split; [apply touched_desc|]. split; [done|]. cbn. by rewrite fn_lookup_insert.
  - eexists. split; [done|]. split; [apply touched_desc|]. split; [done|]. cbn. by rewrite fn_lookup_insert.
Qed.

Lemma mark_dirty_spec lsn k :
  St V G X k -> c_state c = kResident -> c_excl c = true ->
  wp (MarkHandleDirty f lsn) (fun _ k' => touched f k k' /\ St V (upd_ctl G f marked_ctl) X k') k.
Proof.
  intros HS Es Hx. destruct (st_word_of V G X f Hf k HS) as (w & Ew & Hok & _). fold c in Ew, Hok.
  destruct (mark_word k w Ew Hok Es) as (k1 & E1 & Ht1 & Ed1 & Ef1).
  unfold wp, MarkHandleDirty, bind. rewrite E1. destruct (lower_rec_lsn_run f lsn k1) as [l E2].
  cbn [mbind option_bind]. rewrite E2. cbn [default].
  pose proof (st_frame V G X k f HS Hf) as [F1 F2 F3 F4 F5 F6 F7 F8].
  unfold g_state in *. fold c in F2, F4, F5, F6, F7, F8. destruct (F8 Es) as (R1 & R2 & R3 & R4 & R5).
  destruct (dirty_shift V G X k f HS Hf) as [Hup _]. fold c in Hup.
  set (k2 := set_desc (<[f := set_rec_lsn l (desc k1 f)]> (desc k1)) k1).
  assert (touched f k k2) as Ht2 by (eapply touched_trans; [exact Ht1|apply touched_desc]).
  assert (desc k2 f = set_rec_lsn l (set_control (encode (set_waiters w marked_ctl)) (desc k f))) as Ef2.
  { subst k2. cbn. rewrite fn_lookup_insert. by rewrite Ef1. }
  assert (frame_ok V (contents (disk k)) (tracked (replacer k) f) (with_ctl marked_ctl (G f)) (desc k2 f) (frame_data k f)) as Hfo.
  { rewrite Ef2. split; unfold g_state; cbn; try done; try congruence. by exists w. }
  assert (tasks_step V X X k f (with_ctl marked_ctl (G f))) as Hts.
  { apply (tasks_same V G); try done.
    - by apply st_inv.
    - by eapply st_pool.
    - cbn. fold c. congruence. }
  destruct (c_dirty c) eqn:Ed; cbn [negb].
  - cbn [ret]. split; [done|]. eapply st_local; try done. fold c. rewrite Ed. cbn. rewrite Ed1. lia.
  - cbn [modify]. split; [exact Ht2|]. eapply st_local; try done.
    fold c. rewrite Ed. cbn [b2z g_ctl with_ctl marked_ctl set_redirtied set_dirty c_dirty].
    cbn [dirty_page_count set_dirty_count]. subst k2. cbn [dirty_page_count set_desc]. rewrite Ed1, Hup; [lia|done].
Qed.

End Frame2.

End Ops.
