(* ===== verification/KernelFlush.v ===== *)
(** Writing pages back: queued and direct writebacks, the flush workers and the
    calls that wait for them keep the invariant, and a flush that reports success
    leaves its page clean. *)
From S2P Require Import Prelude Status CasLoop FrameControl Layout Replacer FlushScheduler Cleaner Interfaces Kernel Manager KernelInv KernelOps.

(** The control word after a writeback completes, is announced, or is queued. *)
Definition done_ctl (ok : bool) (c : ctl) : ctl :=
  set_dirty (c_dirty c && negb (clears_ctl ok c)) (set_redirtied false (set_active false (set_queued false c))).
Definition begun_ctl (c : ctl) : ctl := set_active true (set_queued false c).
Definition queued_ctl (c : ctl) : ctl := set_redirtied false (set_queued true c).
Definition cancelled_ctl (c : ctl) : ctl := set_redirtied false (set_queued false c).

Lemma done_begun ok c : done_ctl ok (begun_ctl c) = done_ctl ok c.
Proof. by destruct c. Qed.

Section Flush.
Context {T F R B : Type} `{FrameTableLaws T} `{FreeFramesLaws F} `{ReplacerLaws R} `{BackendLaws B} {SC : Scope}.
Local Abbreviation kernel := (kernel T F R B).
Local Abbreviation M := (@M T F R B).
Context (K : config).
Local Abbreviation N := (pool_size K).
Local Abbreviation St := (St K).

(** ** Changes outside the frames *)

(** Neutral changes in sequence. *)
Definition aside (k k' : kernel) : Prop := exists g, neutral g /\ k' = g k.

Lemma aside_refl k : aside k k.
Proof. by exists id. Qed.

Lemma aside_trans k1 k2 k3 : aside k1 k2 -> aside k2 k3 -> aside k1 k3.
Proof.
  intros (g & Hg & ->) (g' & Hg' & ->). exists (fun k => g' (g k)). split; [|done]. intros k.
  destruct (Hg k) as ((?&?&?&?&?&?&?&?) & ? & ? & ? & ? & ? & ? & ? & ?),
           (Hg' (g k)) as ((?&?&?&?&?&?&?&?) & ? & ? & ? & ? & ? & ? & ? & ?).
  unfold same_state. split_and!; congruence.
Qed.

Lemma aside_desc k k' : aside k k' -> desc k' = desc k /\ dirty_page_count k' = dirty_page_count k.
Proof. intros (g & Hg & ->). by destruct (Hg k) as (_ & ? & _ & ? & _). Qed.

Lemma aside_touched f k k' : aside k k' -> touched f k k'.
Proof. intros (g & Hg & ->). by apply touched_neutral. Qed.

Lemma st_aside V G X k k' : aside k k' -> St V G X k -> St V G X k'.
Proof. intros (g & Hg & ->). by apply st_neutral. Qed.

Lemma wp_aside {A} (m : M A) k : wp m (fun _ => aside k) k -> forall Q, (forall a k', aside k k' -> Q a k') -> wp m Q k.
Proof. intros Hm Q HQ. eapply wp_mono; [exact Hm|]. auto. Qed.

Lemma on_cleaner_aside g k : wp (on_cleaner g) (fun _ => aside k) k.
Proof. eexists. split; [apply neutral_cleaner|done]. Qed.

Lemma reset_cleaner_aside f k : wp (ResetCleanerCandidate f) (fun _ => aside k) k.
Proof. destruct (reset_cleaner_run f k) as (g & Hg & E). eapply wp_run; [done|]. by exists g. Qed.

Lemma enqueue_cleaner_aside f k : wp (MaybeEnqueueCleanerCandidate f) (fun _ => aside k) k.
Proof. destruct (enqueue_cleaner_run f k) as (g & Hg & E). eapply wp_run; [done|]. by exists g. Qed.

Lemma note_file_aside file k : wp (NoteLocalWrittenFile file) (fun _ => aside k) k.
Proof.
  eexists (fun k => set_written _ k). split; [|reflexivity].
  apply (neutral_written (fun k => if decide (file ∈ written_files k) then written_files k else written_files k ++ [file])).
Qed.

Lemma for_each_aside {A} (body : A -> M unit) l k :
  (forall a k, wp (body a) (fun _ => aside k) k) -> wp (for_each l body) (fun _ => aside k) k.
Proof.
  intros Hb. revert k. induction l as [|a l IH]; intros k; [apply aside_refl|]. cbn [for_each].
  eapply wp_seq; [apply Hb|]. intros [] k' Ha. eapply wp_mono; [apply IH|]. intros [] k'' Ha'. by eapply aside_trans.
Qed.

(** A different set of queues with the same tasks overall. *)
Lemma st_sched V G X X' k s :
  St V G X k -> all_tasks X' (set_sched s k) ≡ₚ all_tasks X k ->
  ids_ok (queued_tasks (set_sched s k)) k -> 1 <= submit_batch_size s ->
  St V G X' (set_sched s k).
Proof.
  intros (E1 & E2 & E3 & [I1 I2 I3 I4 I5 I6 I7 I8 I9 I10 I11 I12 I13 I14 I15 I16 I17 I18]) Hp Hi Hs.
  split_and!; try done. split; try done.
  - destruct I10 as [Hnd Hall]. split; [by rewrite Hp|]. intros t Ht. rewrite Hp in Ht. by apply Hall.
  - intros f Hf Hw. destruct (I11 f Hf Hw) as (t & Ht & <-). exists t. split; [|done]. by rewrite Hp.
Qed.

Lemma st_perm V G X X' k : St V G X k -> X' ≡ₚ X -> St V G X' k.
Proof.
  intros HS Hp. pose proof (st_inv _ _ _ _ _ HS) as HI.
  assert (k = set_sched (sched k) k) as Ek by (by destruct k). rewrite Ek.
  apply (st_sched V G X); [done| |apply HI|apply HI]. rewrite <- Ek. unfold all_tasks. by rewrite Hp.
Qed.

(** Task identities. *)
Lemma st_tasks V G X k c n :
  St V G X k -> ids_ok (queued_tasks k) (set_tasks c n k) -> St V G X (set_tasks c n k).
Proof.
  intros (E1 & E2 & E3 & [I1 I2 I3 I4 I5 I6 I7 I8 I9 I10 I11 I12 I13 I14 I15 I16 I17 I18]) Hi. by split_and!.
Qed.

(** Writing a block whose resident page is dirty. *)
Lemma st_disk V G X k b f :
  St V G X k -> 0 <= f < N -> g_state (G f) = kResident -> c_dirty (g_ctl (G f)) = true ->
  (forall other, other <> g_tag (G f) -> contents b other = contents (disk k) other) ->
  St V G X (set_disk b k).
Proof.
  intros HS Hf Es Ed Hother. pose proof (st_pool _ _ _ _ _ _ HS Hf) as Hin.
  destruct HS as (E1 & E2 & E3 & [I1 I2 I3 I4 I5 I6 I7 I8 I9 I10 I11 I12 I13 I14 I15 I16 I17 I18]).
  split_and!; try done. split; try done.
  - intros h Hh. destruct (I4 h Hh) as [F1 F2 F3 F4 F5 F6 F7 F8]. split; try done.
    intros E. destruct (F8 E) as (? & ? & ? & Hc & ?). split_and!; try done. intros Ecl. cbn [disk set_disk].
    rewrite Hother; [by apply Hc|]. intros Et. assert (h = f) as -> by (apply I6; try done; congruence). congruence.
  - intros t Ht. cbn [disk set_disk]. rewrite Hother; [by apply I8|]. intros ->. by apply (Ht f).
Qed.

Section Task.
Context (V : BufferTag -> page) (G : Z -> ginfo).

(** The facts about a task in hand. *)
Lemma st_task X k t :
  St V G X k -> t ∈ X -> 0 <= task_frame t < N /\ task_ok V (G (task_frame t)) t /\
    c_dirty (g_ctl (G (task_frame t))) = true.
Proof.
  intros HS Ht. destruct (i_tasks V G X k (st_inv _ _ _ _ _ HS)) as [_ Hall].
  destruct (Hall t) as [Hin Hok]; [unfold all_tasks; set_solver|].
  pose proof (proj1 (st_pool_iff _ _ _ _ _ _ HS) Hin) as Hf. split; [done|]. split; [done|].
  destruct Hok as [J1 J2 _ _ _]. pose proof (st_frame _ _ _ _ _ _ HS Hf) as Fo.
  destruct (fo_resident _ _ _ _ _ _ Fo J1) as (_ & _ & _ & _ & Hw). auto.
Qed.

Lemma begin_spec X k t :
  St V G X k -> t ∈ X ->
  wp (BeginFlushTask t) (fun _ k' => touched (task_frame t) k k' /\
    St V (upd_ctl G (task_frame t) (begun_ctl (g_ctl (G (task_frame t))))) X k') k.
Proof.
  intros HS Ht. destruct (st_task X k t HS Ht) as (Hf & [J1 J2 J3 J4 J5] & Hd). unfold BeginFlushTask.
  rewrite J4. cbn [negb]. destruct (st_word_of _ V G X _ Hf k HS) as (w & Ew & Hok & Hc).
  destruct (BeginWriteback_encode _ Hok) as [Eb _]. unfold wp, bind.
  rewrite (on_word_run _ begin_ctl encode k _ _ Ew Eb). cbn [begin_ctl mbind option_bind ret].
  split; [apply touched_desc|].
  apply (st_word K V G X k _ w (begun_ctl (g_ctl (G (task_frame t)))) HS Hf); try done.
  cbn. congruence.
Qed.

(** Writing the snapshot of a task. *)
Lemma write_block_spec X k t :
  St V G X k -> t ∈ X ->
  wp (write_block (task_tag t) (task_snapshot t)) (fun s k' => St V G X k' /\
    k' = set_disk (disk k') k /\
    (forall other, other <> task_tag t -> contents (disk k') other = contents (disk k) other) /\
    (has_value s = true -> page_fits (B := B) (task_snapshot t) -> contents (disk k') (task_tag t) = task_snapshot t)) k.
Proof.
  intros HS Ht. destruct (st_task X k t HS Ht) as (Hf & [J1 J2 J3 J4 J5] & Hd).
  unfold wp, write_block. pose proof (disk_write_law (task_tag t) (task_snapshot t) (disk k)) as Hw.
  destruct (disk_write _ _ _) as [r b]. destruct Hw as [Hother Hr].
  { rewrite J3. apply (st_addressable K V G X k (task_frame t) HS Hf). congruence. }
  split; [|split; [done|]; split; [done|]; by destruct r].
  apply (st_disk V G X k b (task_frame t)); try done. intros other Ho. apply Hother. by rewrite J3.
Qed.

(** The task of a frame leaves the hands of the call. *)
Lemma tasks_done X k t g' :
  St V G (t :: X) k -> c_writeback (g_ctl g') = false -> tasks_step V (t :: X) X k (task_frame t) g'.
Proof.
  intros HS Hw. destruct (i_tasks V G (t :: X) k (st_inv _ _ _ _ _ HS)) as [Hnd Hall].
  unfold all_tasks in *. rewrite <- Permutation_middle in Hnd. cbn in Hnd. apply list.NoDup_cons in Hnd as [Hni Hnd].
  split.
  - done.
  - intros t' Ht'. left. unfold all_tasks in *. split; [|set_solver]. intros E. apply Hni. rewrite <- E. by apply list_elem_of_fmap_2.
  - intros t' Ht' Hne. unfold all_tasks in *. rewrite elem_of_app, elem_of_cons in Ht'.
    destruct Ht' as [?|[->|?]]; [|done|]; apply elem_of_app; auto.
  - congruence.
Qed.

(** *** Finishing a task *)

(** Descriptor fields other than the control word. *)
Definition desc_step (f : Z) (e : Z) (k k' : kernel) : Prop :=
  touched f k k' /\ dirty_page_count k' = dirty_page_count k /\ control (desc k' f) = control (desc k f) /\
  d_tag (desc k' f) = d_tag (desc k f) /\ last_writeback_error (desc k' f) = e.

Lemma desc_step_upd f e k k1 g :
  desc_step f e k k1 -> control (g (desc k1 f)) = control (desc k1 f) -> d_tag (g (desc k1 f)) = d_tag (desc k1 f) ->
  last_writeback_error (g (desc k1 f)) = last_writeback_error (desc k1 f) ->
  desc_step f e k (set_desc (<[f := g (desc k1 f)]> (desc k1)) k1).
Proof.
  intros (Ht & Ed & Ec & Eg & Ee) E1 E2 E3. unfold desc_step. cbn. rewrite fn_lookup_insert.
  split; [eapply touched_trans; [exact Ht|apply touched_desc]|]. split_and!; congruence.
Qed.

Lemma desc_step_error f e k : desc_step f e k (set_desc (<[f := set_error e (desc k f)]> (desc k)) k).
Proof. unfold desc_step. cbn. rewrite fn_lookup_insert. split_and!; try done. apply touched_desc. Qed.

Lemma desc_step_lower f e k k1 lsn :
  desc_step f e k k1 -> wp (lower_rec_lsn f lsn) (fun _ k' => desc_step f e k k') k1.
Proof.
  intros Hd. destruct (lower_rec_lsn_run f lsn k1) as [l E]. eapply wp_run; [exact E|].
  by apply (desc_step_upd f e k k1 (set_rec_lsn l)).
Qed.

(** The invariant after the descriptor of a resident frame was rewritten. *)
Lemma st_rewritten X X' k k2 f c' w :
  St V G X k -> 0 <= f < N -> touched f k k2 -> control (desc k2 f) = encode (set_waiters w c') ->
  d_tag (desc k2 f) = d_tag (desc k f) -> is_Some (UnpackWritebackError (last_writeback_error (desc k2 f))) -> ctl_ok c' ->
  c_state (g_ctl (G f)) = kResident -> c_state c' = kResident -> c_excl c' = c_excl (g_ctl (G f)) ->
  (c_dirty c' = false -> contents (disk k) (g_tag (G f)) = V (g_tag (G f))) ->
  (c_writeback c' = true -> c_dirty c' = true) ->
  dirty_page_count k2 = dirty_page_count k - b2z (c_dirty (g_ctl (G f))) + b2z (c_dirty c') ->
  tasks_step V X X' k f (with_ctl c' (G f)) ->
  St V (upd_ctl G f c') X' k2.
Proof.
  intros HS Hf Ht Ew Eg Ee Hok Es Es' Ex Hcl Hwb Hd Hts.
  pose proof (st_frame _ _ _ _ _ _ HS Hf) as [F1 F2 F3 F4 F5 F6 F7 F8]. unfold g_state in *.
  destruct (F8 Es) as (R1 & R2 & R3 & R4 & R5).
  eapply st_local; try done.
  - unfold g_state. cbn. congruence.
  - split; unfold g_state; cbn [g_ctl g_own g_tag g_page with_ctl]; try done; try congruence.
    + by exists w.
    + intros _. rewrite Eg. apply F5. congruence.
    + intros _. split_and!; try done. by rewrite Ex.
Qed.

Lemma complete_word_run ok (k : kernel) f c w :
  control (desc k f) = encode (set_waiters w c) -> ctl_ok c ->
  exists k' wd, on_word f (CompleteWriteback ok) k = Some (MkCompletion (clears_ctl ok c) wd, k') /\
    touched f k k' /\ dirty_page_count k' = dirty_page_count k /\
    desc k' f = set_control (encode (set_waiters false (done_ctl ok c))) (desc k f).
Proof.
  intros Ew Hc. destruct (CompleteWriteback_encode _ (ctl_ok_waiters w _ Hc) ok) as [Eb _].
  rewrite (on_word_run _ (complete_ctl ok) _ k f _ Ew Eb). cbn [complete_ctl].
  change (clears_ctl ok (set_waiters w c)) with (clears_ctl ok c). cbn [fst snd].
  eexists _, _. split; [done|]. split; [apply touched_desc|]. split; [done|]. cbn [desc set_desc].
  rewrite fn_lookup_insert. do 2 f_equal. by destruct w.
Qed.

Lemma finalize_spec X k t s :
  St V G (t :: X) k -> (has_value s = true -> page_fits (B := B) (task_snapshot t) -> contents (disk k) (task_tag t) = task_snapshot t) ->
  wp (FinalizeFlushTask t s) (fun _ k' => touched (task_frame t) k k' /\
    St V (upd_ctl G (task_frame t) (done_ctl (has_value s) (g_ctl (G (task_frame t))))) X k') k.
Proof.
  intros HS Hw. destruct (st_task _ k t HS ltac:(set_solver)) as (Hf & [J1 J2 J3 J4 J5] & Hd).
  set (f := task_frame t) in *. set (c := g_ctl (G f)) in *. set (e := PackWritebackError s).
  unfold FinalizeFlushTask. fold f. rewrite J4.
  destruct (st_word_of _ V G _ _ Hf k HS) as (w & Ew & _ & Hc). fold c in Ew, Hc.
  (* the descriptor fields *)
  apply wp_bind, wp_bind. apply (wp_run _ _ _ tt (set_desc (<[f := set_error e (desc k f)]> (desc k)) k)); [done|].
  pose proof (desc_step_error f e k) as Hs0. set (k0 := set_desc _ k) in *.
  eapply wp_seq with (Q := fun _ k1 => desc_step f e k k1).
  { destruct s as [[]|er]; cbn [has_value].
    - by apply (desc_step_upd f e k k0 (set_writeback_rec_lsn kInvalidLsn)).
    - apply wp_get. by apply desc_step_lower. }
  intros [] k1 Hs1. pose proof Hs1 as (Ht1 & Ed1 & Ec1 & Eg1 & Ee1).
  (* the control word *)
  destruct (complete_word_run (has_value s) k1 f c w) as (k2 & wd & E2 & Ht2 & Ed2 & Ef2); [congruence|done|].
  apply wp_bind. eapply wp_run; [exact E2|]. cbn [cleared_dirty completion_word].
  destruct (dirty_shift _ V G _ k f HS Hf) as [_ Hdown]. fold c in Hdown. specialize (Hdown Hd).
  assert (clears_ctl (has_value s) c = true -> contents (disk k) (g_tag (G f)) = V (g_tag (G f))) as Hclean.
  { unfold clears_ctl. intros E. apply andb_true_iff in E as [E E4]. apply andb_true_iff in E as [E E3].
    apply andb_true_iff in E as [E E1]. apply negb_true_iff, orb_false_iff in E4 as [E4 E5].
    pose proof (J5 E4 E5) as Esn. rewrite <- Esn, <- J3. apply Hw; [done|]. rewrite Esn. apply (i_fits _ _ _ _ (st_inv _ _ _ _ _ HS)). }
  (* the invariant and the dirty-page count *)
  set (k3 := if clears_ctl (has_value s) c then set_dirty_count (u64 (dirty_page_count k2 - 1)) k2 else k2).
  assert (touched f k1 k3 /\ desc k3 f = desc k2 f /\
          dirty_page_count k3 = dirty_page_count k1 - b2z (clears_ctl (has_value s) c)) as (Ht3 & Ef3 & Ed3).
  { subst k3. destruct (clears_ctl (has_value s) c); cbn [b2z].
    - split; [exact Ht2|]. split; [done|]. cbn. rewrite Ed2, Ed1. rewrite Hdown. lia.
    - split; [exact Ht2|]. split; [done|]. rewrite Ed2. lia. }
  assert (St V (upd_ctl G f (done_ctl (has_value s) c)) X k3) as HS3.
  { apply (st_rewritten (t :: X) X k k3 f _ false HS Hf); try done; rewrite ?Ef3, ?Ef2; try done.
    - by eapply touched_trans.
    - cbn. rewrite Ee1. destruct (unpack_pack s) as (r & Er & _). by exists r.
    - cbn [done_ctl set_dirty c_dirty]. fold c. rewrite Hd. cbn [andb]. intros E. apply negb_false_iff in E. auto.
    - rewrite Ed3, Ed1. fold c. rewrite Hd. cbn [done_ctl set_dirty c_dirty]. rewrite Hd. cbn [andb].
      destruct (clears_ctl (has_value s) c); cbn; lia.
    - by apply tasks_done. }
  assert (touched f k k3) as Htk by (by eapply touched_trans).
  (* book-keeping *)
  apply wp_bind. eapply (wp_run _ _ _ tt k3).
  { subst k3. by destruct (clears_ctl (has_value s) c). }
  assert (forall m : M unit, wp m (fun _ => aside k3) k3 -> forall rest : unit -> M unit,
    (forall k4, aside k3 k4 -> wp (rest tt) (fun _ k5 => aside k3 k5) k4) ->
    wp m (fun a => wp (rest a) (fun _ k' => touched f k k' /\ St V (upd_ctl G f (done_ctl (has_value s) c)) X k')) k3) as Htail.
  { intros m Hm rest Hrest. eapply wp_mono; [exact Hm|]. intros [] k4 Ha4.
    eapply wp_mono; [by apply Hrest|]. intros [] k5 Ha5. split; [|by eapply st_aside].
    eapply touched_trans; [exact Htk|]. by apply aside_touched. }
  apply Htail.
  { destruct (ShouldQueueCleanerCandidate wd); [apply enqueue_cleaner_aside|].
    destruct (clears_ctl (has_value s) c); [apply reset_cleaner_aside|apply aside_refl]. }
  intros k4 Ha4. eapply wp_seq with (Q := fun _ k5 => aside k3 k5).
  { destruct (task_cleaner_owned t); [|done]. eapply wp_mono; [apply on_cleaner_aside|].
    intros [] k5 Ha5. by eapply aside_trans. }
  intros [] k5 Ha5. destruct (has_value s); [|done]. eapply wp_mono; [apply note_file_aside|].
  intros [] k6 Ha6. by eapply aside_trans.
Qed.

End Task.

End Flush.
