(* ===== verification/KernelWait.v ===== *)
(** Background work and waiting: what the flush workers and the reads in flight may
    change while a call waits, and that waiting ends. *)
From S2P Require Import Prelude Status CasLoop FrameControl Layout Replacer FlushScheduler Cleaner Interfaces.
From S2P Require Import Kernel Manager KernelInv KernelOps KernelFlush.

(** ** What other work may do to a frame

    A resident frame keeps its page, its latch and its pins and only gets
    cleaner; a free frame and one owned by the call stay as they are; a read in
    flight may finish or fail. *)
Record evolved (g g' : ginfo) : Prop := {
  ev_resident : g_state g = kResident ->
    g_state g' = kResident /\ g_own g' = g_own g /\ g_tag g' = g_tag g /\ g_page g' = g_page g /\
    c_excl (g_ctl g') = c_excl (g_ctl g) /\ c_shared (g_ctl g') = c_shared (g_ctl g) /\
    c_pins (g_ctl g') = c_pins (g_ctl g);
  ev_free : g_state g = kFree -> g' = g;
  ev_loading : g_state g = kLoading -> g' = g \/
    g_own g = false /\ g_own g' = false /\ g_state g' <> kLoading /\ g_tag g' = g_tag g /\
    c_excl (g_ctl g') = c_excl (g_ctl g) /\ c_shared (g_ctl g') = c_shared (g_ctl g) /\
    c_pins (g_ctl g') <= c_pins (g_ctl g);
  ev_clean : c_dirty (g_ctl g) = false -> c_dirty (g_ctl g') = false
}.

Lemma evolved_refl g : evolved g g.
Proof. split; intros E; [by split_and!|done|by left|done]. Qed.

Lemma evolved_trans g1 g2 g3 : evolved g1 g2 -> evolved g2 g3 -> evolved g1 g3.
Proof.
  intros [A1 A2 A3 A4] [B1 B2 B3 B4]. split.
  - intros E. destruct (A1 E) as (E' & ? & ? & ? & ? & ? & ?). destruct (B1 E') as (? & ? & ? & ? & ? & ? & ?).
    split_and!; congruence.
  - intros E. rewrite <- (A2 E). apply B2. by rewrite (A2 E).
  - intros E. destruct (A3 E) as [E'|(? & ? & Hs & ? & ? & ? & ?)].
    + subst g2. by apply B3.
    + right. destruct (g_state g2) eqn:Es; [| done |].
      * rewrite (B2 eq_refl). by split_and!; rewrite ?Es.
      * destruct (B1 eq_refl) as (Es' & ? & ? & ? & ? & ? & ?). split_and!; congruence.
  - auto.
Qed.

Lemma evolved_done ok g :
  g_state g = kResident -> evolved g (with_ctl (done_ctl ok (g_ctl g)) g).
Proof.
  intros E. split; unfold g_state in *; try congruence.
  - intros _. by split_and!.
  - cbn. by intros ->.
Qed.

Section Wait.
Context {T F R B : Type} `{FrameTableLaws T} `{FreeFramesLaws F} `{ReplacerLaws R} `{BackendLaws B} {SC : Scope}.
Local Abbreviation kernel := (kernel T F R B).
Local Abbreviation M := (@M T F R B).
Context (K : config).
Local Abbreviation N := (pool_size K).
Local Abbreviation St := (St K).

(** A task that is done: its frame is clean if it succeeded and nobody wrote. *)
Definition task_done (G G' : Z -> ginfo) (k' : kernel) (t : flush_task) : Prop :=
  exists s, completed k' !! task_id t = Some s /\
    (has_value s = true -> c_redirtied (g_ctl (G (task_frame t))) = false ->
     c_excl (g_ctl (G (task_frame t))) = false -> c_dirty (g_ctl (G' (task_frame t))) = false).

Record evo (G : Z -> ginfo) (k : kernel) (G' : Z -> ginfo) (k' : kernel) : Prop := {
  e_frames f : evolved (G f) (G' f);
  e_completed i s : completed k !! i = Some s -> completed k' !! i = Some s;
  e_next : (next_task k <= next_task k')%nat;
  e_queued t : t ∈ queued_tasks k ->
    t ∈ queued_tasks k' /\ G' (task_frame t) = G (task_frame t) \/ task_done G G' k' t;
  e_shutdown : sched_shutdown (sched k') = sched_shutdown (sched k)
}.

Lemma evo_refl G k : evo G k G k.
Proof. split; try done; auto. intros f. apply evolved_refl. Qed.

Lemma evo_trans G1 k1 G2 k2 G3 k3 : evo G1 k1 G2 k2 -> evo G2 k2 G3 k3 -> evo G1 k1 G3 k3.
Proof.
  intros [A1 A2 A3 A4 A5] [B1 B2 B3 B4 B5]. split.
  - intros f. by eapply evolved_trans.
  - auto.
  - lia.
  - intros t Ht. destruct (A4 t Ht) as [[Ht2 E2]|(s & Es & Hs)].
    + destruct (B4 t Ht2) as [[Ht3 E3]|(s & Es & Hs)]; [left; split; congruence|right].
      exists s. rewrite E2 in Hs. auto.
    + right. exists s. split; [auto|]. intros J1 J2 J3.
      apply (ev_clean _ _ (B1 (task_frame t))). auto.
  - congruence.
Qed.

(** ** A round of a flush worker *)

Section Round.
Context (V : BufferTag -> page).

(** Which statuses report a write that reached the disk. *)
Definition written (l : list (flush_task * Status)) (k : kernel) : Prop :=
  forall t s, (t, s) ∈ l -> has_value s = true -> page_fits (B := B) (task_snapshot t) -> contents (disk k) (task_tag t) = task_snapshot t.

(** The fields a batch in hand leaves alone until it completes. *)
Definition held (k k' : kernel) : Prop :=
  cfg k' = cfg k /\ sched k' = sched k /\ loads k' = loads k /\ completed k' = completed k /\ next_task k' = next_task k.

Lemma held_refl (k : kernel) : held k k.
Proof. done. Qed.

Lemma held_trans k1 k2 k3 : held k1 k2 -> held k2 k3 -> held k1 k3.
Proof. intros (? & ? & ? & ? & ?) (? & ? & ? & ? & ?). repeat split; congruence. Qed.

Lemma touched_held f k k' : touched f k k' -> held k k'.
Proof. intros ((? & _ & _ & _ & _ & ? & ? & _) & _ & _ & ? & ? & _). by repeat split. Qed.

Lemma touched_contents f (k k' : kernel) : touched f k k' -> disk k' = disk k.
Proof. by intros ((_ & _ & _ & ? & _) & _). Qed.

(** The tasks of the batch begin. *)
Definition begin_all (ts : list flush_task) (G : Z -> ginfo) : Z -> ginfo :=
  foldl (fun G t => upd_ctl G (task_frame t) (begun_ctl (g_ctl (G (task_frame t))))) G ts.

Lemma begin_all_spec ts X G k :
  St V G X k -> (forall t, t ∈ ts -> t ∈ X) ->
  wp (for_each ts BeginFlushTask) (fun _ k' => St V (begin_all ts G) X k' /\ held k k') k.
Proof.
  revert G k. induction ts as [|t ts IH]; intros G k HS Hin; cbn [for_each begin_all foldl].
  { split; [done|apply held_refl]. }
  eapply wp_seq; [apply (begin_spec K V G X k t HS); set_solver|]. intros [] k1 [Ht1 HS1].
  eapply wp_mono; [apply (IH _ _ HS1); set_solver|]. intros [] k2 [HS2 Hh2]. split; [done|].
  eapply held_trans; [by eapply touched_held|done].
Qed.

(** Two frames of the batch are for different pages. *)
Lemma tags_differ X G k t u :
  St V G X k -> t ∈ X -> u ∈ X -> task_frame t <> task_frame u -> task_tag t <> task_tag u.
Proof.
  intros HS Ht Hu Hne E. destruct (st_task K V G X k t HS Ht) as (Hf & [J1 J2 J3 _ _] & _).
  destruct (st_task K V G X k u HS Hu) as (Hg & [L1 L2 L3 _ _] & _). apply Hne.
  apply (i_unique V G X k (st_inv _ _ _ _ _ HS)); try by eapply st_pool.
  - congruence.
  - congruence.
  - congruence.
Qed.

Lemma st_frames_nodup X G k : St V G X k -> NoDup (task_frame <$> X).
Proof.
  intros HS. destruct (i_tasks V G X k (st_inv _ _ _ _ _ HS)) as [Hnd _].
  unfold all_tasks in Hnd. rewrite fmap_app in Hnd. by apply list.NoDup_app in Hnd as (_ & _ & ?).
Qed.

Lemma write_all_spec ts X G k :
  St V G X k -> (forall t, t ∈ ts -> t ∈ X) -> NoDup (task_frame <$> ts) ->
  wp (write_all ts) (fun ss k' => St V G X k' /\ held k k' /\ length ss = length ts /\ written (zip ts ss) k' /\
    (forall other, (forall t, t ∈ ts -> task_tag t <> other) -> contents (disk k') other = contents (disk k) other)) k.
Proof.
  revert k. induction ts as [|t ts IH]; intros k HS Hin Hnd; cbn [write_all].
  { split; [done|]. split; [apply held_refl|]. split; [done|]. split; [|done]. intros t s Hts. set_solver. }
  cbn in Hnd. apply list.NoDup_cons in Hnd as [Hni Hnd].
  eapply wp_seq; [apply (write_block_spec K V G X k t HS); set_solver|]. intros s k1 (HS1 & Ek1 & Ho1 & Hw1).
  eapply wp_seq; [apply (IH k1 HS1); [set_solver|done]|]. intros ss k2 (HS2 & Hh2 & El2 & Hw2 & Ho2).
  split; [done|]. split; [|split; [cbn; lia|split]].
  - eapply held_trans; [|exact Hh2]. by rewrite Ek1.
  - intros t' s' Hts. cbn [zip zip_with] in Hts. apply elem_of_cons in Hts as [[= -> ->]|Hts]; [|by apply Hw2].
    intros Hs Hfit. rewrite Ho2; [by apply Hw1|]. intros u Hu. apply (tags_differ X G k); try done; [set_solver..|].
    intros E. apply Hni. rewrite <- E. by apply list_elem_of_fmap_2.
  - intros other Hother. rewrite Ho2 by set_solver. apply Ho1. intros ->. apply (Hother t); set_solver.
Qed.

(** *** Completing the batch *)

Lemma ids_ok_submseteq (l l' : list flush_task) (k : kernel) : ids_ok l k -> l' ⊆+ l -> ids_ok l' k.
Proof.
  intros (Hnd & Hall & Hc) Hs. split; [|split; [|done]].
  - apply submseteq_Permutation in Hs as [r Hp]. rewrite Hp, fmap_app in Hnd. by apply list.NoDup_app in Hnd as [? _].
  - intros t Ht. apply Hall. eapply elem_of_submseteq; eauto.
Qed.

Lemma ids_ok_complete l t ts s (k : kernel) :
  ids_ok (l ++ t :: ts) k -> ids_ok (l ++ ts) (set_tasks (<[task_id t := s]> (completed k)) (next_task k) k).
Proof.
  intros (Hnd & Hall & Hc). rewrite <- Permutation_middle in Hnd. cbn in Hnd. apply list.NoDup_cons in Hnd as [Hni Hnd].
  split; [done|]. cbn [completed next_task set_tasks]. split.
  - intros u Hu. destruct (Hall u) as [? E]; [set_solver|]. split; [done|]. rewrite lookup_insert_ne; [done|].
    intros E'. apply Hni. rewrite E'. by apply list_elem_of_fmap_2.
  - intros i s' Hi. apply lookup_insert_Some in Hi as [[<- _]|[_ Hi]]; [|by eapply Hc].
    apply Hall. set_solver.
Qed.

Lemma ids_ok_ext (l : list flush_task) (k k' : kernel) :
  ids_ok l k -> completed k' = completed k -> next_task k' = next_task k -> ids_ok l k'.
Proof. unfold ids_ok. by intros ? -> ->. Qed.

Lemma complete_all_spec ts ss G k :
  length ss = length ts -> St V G ts k -> written (zip ts ss) k -> ids_ok (queued_tasks k ++ ts) k ->
  wp (for_each (zip ts ss) (fun p => CompleteTask p.1 p.2)) (fun _ k' => exists G', St V G' [] k' /\
    (forall f, evolved (G f) (G' f)) /\ (forall f, f ∉ task_frame <$> ts -> G' f = G f) /\
    (cfg k' = cfg k /\ sched k' = sched k /\ loads k' = loads k /\ next_task k' = next_task k) /\
    (forall i, i ∉ task_id <$> ts -> completed k' !! i = completed k !! i) /\
    (forall t, t ∈ ts -> task_done G G' k' t)) k.
Proof.
  revert ss G k. induction ts as [|t ts IH]; intros [|s ss] G k Hl HS Hw Hi; try done; cbn [zip zip_with for_each].
  { exists G. split; [done|]. split; [intros f; apply evolved_refl|]. split_and!; try done. set_solver. }
  cbn in Hl. pose proof (st_frames_nodup (t :: ts) G k HS) as Hnd. cbn in Hnd. apply list.NoDup_cons in Hnd as [Hni Hnd].
  destruct (st_task K V G _ k t HS ltac:(set_solver)) as (Hf & [J1 J2 J3 J4 J5] & Hd).
  pose proof Hi as (Hndi & _ & _). rewrite <- Permutation_middle in Hndi. cbn in Hndi.
  apply list.NoDup_cons in Hndi as [Hnii _]. rewrite fmap_app, not_elem_of_app in Hnii. destruct Hnii as [Hniq Hnits].
  apply wp_bind, wp_bind. cbn [fst snd].
  eapply wp_mono; [apply (finalize_spec K V G ts k t s HS); apply Hw; by left|].
  intros [] k1 [Ht1 HS1]. apply (wp_run _ _ _ tt (set_tasks (<[task_id t := s]> (completed k1)) (next_task k1) k1)); [done|].
  set (k2 := set_tasks _ _ k1). set (G1 := upd_ctl G (task_frame t) _) in *.
  pose proof (touched_held _ _ _ Ht1) as (Hh1 & Hh2 & Hh3 & Hh4 & Hh5).
  assert (queued_tasks k1 = queued_tasks k) as Eq by (unfold queued_tasks; by rewrite Hh2).
  assert (ids_ok (queued_tasks k1 ++ ts) k2) as Hi2.
  { apply ids_ok_complete. rewrite Eq. by eapply ids_ok_ext. }
  eapply wp_mono; [apply (IH ss G1 k2); try lia; try done|].
  - apply st_tasks; [done|]. eapply ids_ok_submseteq; [exact Hi2|]. by apply submseteq_inserts_r.
  - intros u s' Hu. change (disk k2) with (disk k1). rewrite (touched_contents _ _ _ Ht1). apply Hw. by right.
  - intros [] k3 (G' & HS3 & Hev & Hsame & (Ec & Esc & El & En) & Hcomp & Hdone). exists G'. split; [done|].
    assert (forall f, evolved (G f) (G1 f)) as Hev1.
    { intros f. unfold G1. destruct (decide (f = task_frame t)) as [->|Hne].
      - rewrite upd_ctl_eq. by apply evolved_done.
      - rewrite upd_ctl_ne by done. apply evolved_refl. }
    split; [intros f; by eapply evolved_trans|]. split_and!.
    + intros f Hnf. rewrite Hsame by set_solver. unfold G1. apply upd_ctl_ne. set_solver.
    + by rewrite Ec.
    + by rewrite Esc.
    + by rewrite El.
    + by rewrite En.
    + intros i Hni'. rewrite Hcomp by set_solver. cbn [k2 completed set_tasks].
      rewrite lookup_insert_ne by set_solver. by rewrite Hh4.
    + assert (forall u, u ∈ ts -> G1 (task_frame u) = G (task_frame u)) as Hoth.
      { intros u Hu. unfold G1. apply upd_ctl_ne. intros E. apply Hni. rewrite <- E. by apply list_elem_of_fmap_2. }
      intros u Hu. apply elem_of_cons in Hu as [->|Hu].
      * exists s. rewrite Hcomp by done. cbn [k2 completed set_tasks]. rewrite lookup_insert_eq. split; [done|].
        intros Hs Hr Hx. rewrite Hsame by done. unfold G1. rewrite upd_ctl_eq. cbn [with_ctl g_ctl done_ctl set_dirty c_dirty].
        unfold clears_ctl, c_is. rewrite Hs, Hr, Hx, Hd. unfold g_state in J1. by rewrite bool_decide_true.
      * destruct (Hdone u Hu) as (s' & Es' & Hs'). exists s'. split; [done|]. by rewrite Hoth in Hs'.
Qed.

Lemma begin_all_other ts G f : f ∉ task_frame <$> ts -> begin_all ts G f = G f.
Proof.
  revert G. induction ts as [|t ts IH]; intros G Hf; [done|]. cbn [begin_all foldl]. cbn in Hf.
  rewrite not_elem_of_cons in Hf. destruct Hf as [Hne Hf]. change (begin_all ts ?G' f) with (begin_all ts G' f).
  unfold begin_all in IH. rewrite IH by done. by apply upd_ctl_ne.
Qed.

(** Announcing a writeback hides nothing from its completion. *)
Lemma begin_all_fields ts G f :
  let c := g_ctl (begin_all ts G f) in
  g_state (begin_all ts G f) = g_state (G f) /\ g_own (begin_all ts G f) = g_own (G f) /\
  g_tag (begin_all ts G f) = g_tag (G f) /\ g_page (begin_all ts G f) = g_page (G f) /\
  c_excl c = c_excl (g_ctl (G f)) /\ c_shared c = c_shared (g_ctl (G f)) /\ c_pins c = c_pins (g_ctl (G f)) /\
  c_dirty c = c_dirty (g_ctl (G f)) /\ c_redirtied c = c_redirtied (g_ctl (G f)).
Proof.
  revert G. induction ts as [|t ts IH]; intros G; [done|]. cbn [begin_all foldl].
  unfold begin_all in IH. destruct (IH (upd_ctl G (task_frame t) (begun_ctl (g_ctl (G (task_frame t))))))
    as (-> & -> & -> & -> & -> & -> & -> & -> & ->).
  destruct (decide (f = task_frame t)) as [->|Hne]; [by rewrite upd_ctl_eq|by rewrite upd_ctl_ne].
Qed.

Lemma queues_nil (k : kernel) : queued_tasks k = [] -> foreground_queue (sched k) = [] /\ background_queue (sched k) = [].
Proof. unfold queued_tasks. intros E. by apply app_eq_nil in E. Qed.

(** A worker with tasks to write completes some; with none it does nothing. *)
Lemma worker_round_spec G k :
  St V G [] k ->
  wp worker_round (fun b k' => exists G', St V G' [] k' /\ evo G k G' k' /\ loads k' = loads k /\
    if b then (pending_work k' < pending_work k)%nat else queued_tasks k = []) k.
Proof.
  intros HS. pose proof (st_inv _ _ _ _ _ HS) as HI. unfold worker_round, wp.
  pose proof (take_batch_spec task_cleaner_owned 0 (sched k) (i_sched V G [] k HI)) as Hb.
  destruct (TakeNextBatch 0 (sched k)) as [[[ts stop] s]|]; last first.
  { destruct Hb as (E1 & E2 & _). exists G. split; [done|]. split; [apply evo_refl|]. split; [done|].
    unfold queued_tasks. by rewrite E1, E2. }
  destruct Hb as (_ & _ & (fg & bg & Hp & _ & _ & Ef & Eb) & Hemp & Hstop & Ebs & Esd).
  set (k0 := set_sched s k).
  assert (queued_tasks k ≡ₚ queued_tasks k0 ++ ts) as Hq.
  { unfold queued_tasks. cbn [k0 sched set_sched]. rewrite Ef, Eb, Hp. solve_Permutation. }
  assert (ids_ok (queued_tasks k0 ++ ts) k0) as Hi.
  { eapply ids_ok_ext; [|done..]. eapply ids_ok_submseteq; [apply (i_ids V G [] k HI)|].
    apply Permutation_submseteq. by symmetry. }
  assert (St V G ts k0) as HS0.
  { apply (st_sched K V G []); [done| | |by rewrite Ebs; apply HI].
    - unfold all_tasks. rewrite app_nil_r. by symmetry.
    - eapply ids_ok_submseteq; [eapply ids_ok_ext; [exact Hi|done..]|]. by apply submseteq_inserts_r. }
  assert (Hgoal : wp (for_each ts BeginFlushTask;; ss <- write_all ts;;
      for_each (zip ts ss) (fun ts0 => CompleteTask ts0.1 ts0.2);; ret (negb (is_empty ts)))%kernel
    (fun b k' => b = negb (is_empty ts) /\ exists G', St V G' [] k' /\ evo G k G' k' /\ loads k' = loads k /\
       queued_tasks k' = queued_tasks k0) k0).
  { eapply wp_seq; [by apply (begin_all_spec ts ts G k0 HS0)|]. intros [] k1 [HS1 Hh1].
    eapply wp_seq; [apply (write_all_spec ts ts _ k1 HS1); [done|by eapply st_frames_nodup]|].
    intros ss k2 (HS2 & Hh2 & El & Hw2 & _). pose proof (held_trans _ _ _ Hh1 Hh2) as (Hc & Hsc & Hld & Hcp & Hnx).
    assert (queued_tasks k2 = queued_tasks k0) as Eq2 by (unfold queued_tasks; by rewrite Hsc).
    eapply wp_seq; [apply (complete_all_spec ts ss _ k2 El HS2 Hw2)|].
    { rewrite Eq2. by eapply ids_ok_ext. }
    intros [] k3 (G' & HS3 & Hev & Hsame & (Ec3 & Es3 & El3 & En3) & Hcomp & Hdone). split; [done|].
    exists G'. split; [done|]. split; [|split; [by rewrite El3, Hld|unfold queued_tasks; by rewrite Es3, Hsc]].
    pose proof (fun f => begin_all_fields ts G f) as Hbf.
    assert (forall f, g_state (G f) <> kResident -> f ∉ task_frame <$> ts) as Hres.
    { intros f Hf Hin. apply list_elem_of_fmap in Hin as (t & -> & Ht).
      destruct (st_task K V G ts k0 t HS0 Ht) as (_ & [? _ _ _ _] & _). done. }
    assert (forall f, evolved (G f) (begin_all ts G f)) as Hev0.
    { intros f. destruct (decide (g_state (G f) = kResident)) as [Er|Er].
      - destruct (Hbf f) as (? & ? & ? & ? & ? & ? & ? & Hd & ?). split; try congruence. intros _.
        split_and!; congruence.
      - rewrite begin_all_other by auto. apply evolved_refl. }
    assert (forall i, i ∉ task_id <$> ts -> completed k3 !! i = completed k !! i) as Hcomp'.
    { intros i Hni. rewrite Hcomp by done. by rewrite Hcp. }
    split.
    - intros f. by eapply evolved_trans.
    - intros i st Hi'. rewrite Hcomp'; [done|]. intros Hin. apply list_elem_of_fmap in Hin as (t & -> & Ht).
      destruct Hi as (_ & Hall & _). destruct (Hall t) as [_ E]; [set_solver|]. change (completed k0) with (completed k) in E.
      congruence.
    - rewrite En3, Hnx. done.
    - intros t Ht. rewrite Hq, elem_of_app in Ht. destruct Ht as [Ht|Ht].
      + left. split; [unfold queued_tasks in *; by rewrite Es3, Hsc|].
        assert (task_frame t ∉ task_frame <$> ts) as Hni.
        { destruct (i_tasks V G ts k0 (st_inv _ _ _ _ _ HS0)) as [Hnd _]. unfold all_tasks in Hnd.
          rewrite fmap_app in Hnd. apply list.NoDup_app in Hnd as (_ & Hd & _). apply Hd. by apply list_elem_of_fmap_2. }
        rewrite Hsame, begin_all_other; done.
      + right. destruct (Hdone t Ht) as (st & E & Hst). exists st. split; [done|].
        destruct (Hbf (task_frame t)) as (_ & _ & _ & _ & Ex & _ & _ & _ & Er). rewrite <- Ex, <- Er. done.
    - rewrite Es3, Hsc. exact Esd. }
  eapply (wp_mono _ _ _ k0); [exact Hgoal|]. intros b k' Hk'. destruct Hk' as (-> & G' & HS' & He & El & Eq).
  exists G'. split; [done|]. split; [done|]. split; [done|]. destruct ts as [|t ts]; cbn [is_empty negb].
  - destruct Hstop as (_ & E1 & E2); [by apply Hemp|]. unfold queued_tasks. by rewrite E1, E2.
  - apply Permutation_length in Hq. unfold pending_work. rewrite El.
    assert (length (queued_tasks k') < length (queued_tasks k))%nat as Hlt.
    { rewrite Eq, Hq, length_app. cbn. lia. }
    unfold queued_tasks in Hlt. rewrite !length_app in Hlt. lia.
Qed.

End Round.

End Wait.
