(* ===== verification/KernelFrames.v ===== *)
(** Changing what a frame is for: publishing a loaded page, giving a reservation
    up and reserving a frame keep the invariant. *)
From S2P Require Import Prelude Status CasLoop FrameControl Layout Replacer FlushScheduler Cleaner Interfaces.
From S2P Require Import Kernel Manager KernelInv KernelOps KernelFlush KernelWait.

Definition loaded_ctl (release_pin : bool) (c : ctl) : ctl := set_pins (c_pins c - b2z release_pin) (set_state kResident c).
Definition freed_ctl (c : ctl) : ctl := Ctl kFree false false false false false (c_excl c) (c_shared c) false 0.
Definition reserved_ctl : ctl := Ctl kLoading false false false false false false 0 false 1.

Section Frames.
Context {T F R B : Type} `{FrameTableLaws T} `{FreeFramesLaws F} `{ReplacerLaws R} `{BackendLaws B} {SC : Scope}.
Local Abbreviation kernel := (kernel T F R B).
Local Abbreviation M := (@M T F R B).
Context (K : config).
Local Abbreviation N := (pool_size K).
Local Abbreviation St := (St K).

(** [inv_store_update] and [inv_update] for states between steps. *)
Lemma st_store_update V V' G X X' k k' f g' :
  St V G X k -> 0 <= f < N -> outside f k k' -> failed k' = failed k -> closed k' = closed k ->
  (forall t, t <> g_tag (G f) \/ g_state (G f) <> kResident -> V' t = V t) -> (forall t, page_fits (B := B) (V' t)) ->
  entry (table k') f = entry_of g' ->
  frame_ok V' (contents (disk k)) (tracked (replacer k') f) g' (desc k' f) (frame_data k' f) ->
  (g_state g' <> kFree -> scope (g_tag g') /\
     forall h, 0 <= h < N -> h <> f -> g_state (G h) <> kFree -> g_tag (G h) <> g_tag g') ->
  (g_state (G f) = kResident -> g_state g' = kResident /\ g_tag g' = g_tag (G f) \/
     contents (disk k) (g_tag (G f)) = V' (g_tag (G f))) ->
  dirty_page_count k' = dirty_page_count k - b2z (c_dirty (g_ctl (G f))) + b2z (c_dirty (g_ctl g')) ->
  tasks_step V' X X' k f g' -> free_ok (<[f := g']> G) k' -> loads_ok (<[f := g']> G) k' ->
  St V' (<[f := g']> G) X' k'.
Proof.
  intros HS Hf HO Efa Ecl HV Hfit He Hfo Hun Hst Hd Hts Hfr Hld. pose proof (st_pool_iff _ _ _ _ _ f HS) as Hin.
  pose proof HS as (E1 & E2 & E3 & HI). split; [by rewrite (o_cfg _ _ _ HO)|]. split; [congruence|]. split; [congruence|].
  eapply (inv_store_update V V'); try done.
  - by apply Hin.
  - intros L. split; [by apply Hun|]. intros h Hh. apply Hun; [done|]. by apply (st_pool_iff _ _ _ _ _ h HS).
Qed.

Lemma st_update V G X X' k k' f g' :
  St V G X k -> 0 <= f < N -> outside f k k' -> failed k' = failed k -> closed k' = closed k ->
  entry (table k') f = entry_of g' ->
  frame_ok V (contents (disk k)) (tracked (replacer k') f) g' (desc k' f) (frame_data k' f) ->
  (g_state g' <> kFree -> scope (g_tag g') /\
     forall h, 0 <= h < N -> h <> f -> g_state (G h) <> kFree -> g_tag (G h) <> g_tag g') ->
  (g_state (G f) = kResident -> g_state g' = kResident /\ g_tag g' = g_tag (G f) \/
     contents (disk k) (g_tag (G f)) = V (g_tag (G f))) ->
  dirty_page_count k' = dirty_page_count k - b2z (c_dirty (g_ctl (G f))) + b2z (c_dirty (g_ctl g')) ->
  tasks_step V X X' k f g' -> free_ok (<[f := g']> G) k' -> loads_ok (<[f := g']> G) k' ->
  St V (<[f := g']> G) X' k'.
Proof. intros HS Hf HO Efa Ecl. apply (st_store_update V V G X X' k k' f g' HS Hf HO Efa Ecl); [done|apply HS]. Qed.

Section Load.
Context (V : BufferTag -> page) (G : Z -> ginfo) (X : list flush_task) (f : Z) (Hf : 0 <= f < N).
Let c : ctl := g_ctl (G f).
Let tag : BufferTag := g_tag (G f).

(** The page of a frame that is being loaded is on disk. *)
Lemma loading_contents k : St V G X k -> g_state (G f) = kLoading -> contents (disk k) tag = V tag.
Proof.
  intros HS Es. apply (i_store V G X k (st_inv _ _ _ _ _ HS)). intros h Hh Er Et.
  assert (h = f) as ->; [|congruence].
  apply (i_unique V G X k (st_inv _ _ _ _ _ HS)); try done; [by eapply st_pool|congruence|congruence].
Qed.

(** *** Publishing *)

Definition published (release_pin : bool) : ginfo := GInfo (loaded_ctl release_pin c) false tag (g_page (G f)).

Lemma publish_spec k r rel :
  St V G X k -> res_frame r = f -> g_state (G f) = kLoading -> g_own (G f) = true ->
  (c_excl c = false -> g_page (G f) = V tag) ->
  wp (PublishLoadedFrame r rel) (fun _ k' => St V (<[f := published rel]> G) X k' /\
    held k k' /\ disk k' = disk k /\ operations k' = operations k /\ strategies k' = strategies k) k.
Proof.
  intros HS Er Es Eo Hpg. unfold PublishLoadedFrame. rewrite Er.
  eapply wp_seq; [apply reset_cleaner_aside|]. intros [] k0 Ha.
  pose proof (st_aside _ _ _ _ _ _ Ha HS) as HS0. pose proof (aside_touched f _ _ Ha) as Ht0.
  apply wp_modify. set (k1 := set_replacer (RecordLoad 0 f (replacer k0)) k0).
  destruct (st_word_of _ V G X _ Hf k0 HS0) as (w & Ew & Hok & Hc). fold c in Ew, Hok, Hc.
  pose proof (st_frame _ _ _ _ _ _ HS0 Hf) as [F1 F2 F3 F4 F5 F6 F7 F8]. destruct (F7 Es) as (D1 & D2 & D3).
  destruct (PublishResident_encode (set_waiters w c) Hok rel) as [Eb _]; [pose proof (b2z_bound rel); cbn; fold c in D3; lia|].
  unfold wp, bind. rewrite (on_word_run _ (publish_ctl rel) encode k1 f _ Ew Eb).
  unfold publish_ctl, wake_all. cbn [mbind option_bind ret].
  set (w1 := encode _). set (k2 := set_desc _ k1).
  assert (w1 = encode (set_waiters false (loaded_ctl rel c))) as Ew1 by (subst w1; by destruct w).
  pose proof (st_inv _ _ _ _ _ HS0) as HI0. destruct (i_replacer V G X k0 HI0) as [Hv Hfr].
  destruct (load_law 0 f (replacer k0) Hv) as (Hv' & Hfr' & Htr).
  { rewrite Hfr. by eapply st_pool. }
  split; [|split; [|split; [|split]]].
  - eapply (st_update V G X X k0 k2 f); try done.
    + split; cbn; try done.
      * split; [apply HI0|done].
      * intros h Hh. rewrite Htr. auto.
      * intros h Hh. by rewrite fn_lookup_insert_ne.
    + cbn [k2 table set_desc k1 set_replacer]. rewrite (i_entry V G X k0 HI0 f); [|by eapply st_pool].
      unfold entry_of. rewrite Es. unfold g_state. cbn. done.
    + cbn [k2 desc set_desc]. rewrite fn_lookup_insert. split; unfold g_state; cbn [published g_ctl g_own g_tag g_page loaded_ctl set_pins set_state c_state]; try done.
      * exists false. cbn [set_control control]. exact Ew1.
      * fold c in F2, D3. destruct F2. split; cbn; [lia|]. destruct rel; cbn; lia.
      * intros _. cbn. apply F5. congruence.
      * intros _. split; [done|]. split; [apply Htr; auto|]. split; [done|]. split.
        -- intros _. by apply loading_contents.
        -- change (c_writeback c = true -> c_dirty c = true). fold c in D2. congruence.
    + intros _. split; [apply (st_scope K V G X k0 f HS0 Hf); congruence|].
      intros h Hh Hne Lh E. apply Hne. apply (i_unique V G X k0 HI0); try done; try by eapply st_pool. congruence.
    + congruence.
    + cbn. fold c. lia.
    + apply (tasks_none V G); [done|done|]. fold c in D2. done.
    + eapply free_ok_ext; [|done..]. apply free_ok_other; [apply HI0|intros [? _]; congruence|by intros [? _]].
    + eapply loads_ok_ext; [|done..]. apply loads_ok_other; [apply HI0|intros [_ ?]; congruence|by intros [? _]].
  - eapply held_trans; [eapply touched_held; exact Ht0|done].
  - by rewrite <- (touched_contents _ _ _ Ht0).
  - by destruct Ht0 as (_ & _ & _ & _ & _ & _ & _ & ?).
  - by destruct Ht0 as ((_ & _ & _ & _ & _ & _ & _ & ?) & _).
Qed.

(** *** Giving a reservation up *)

Definition freed : ginfo := GInfo (freed_ctl c) false tag (g_page (G f)).

Lemma frame_ok_freed V' cont (trk : Prop) d :
  ctl_ok c -> (exists w, control d = encode (set_waiters w (freed_ctl c))) ->
  is_Some (UnpackWritebackError (last_writeback_error d)) -> frame_ok V' cont trk freed d (g_page (G f)).
Proof. intros [? ?] ? ?. by split. Qed.

Lemma abort_spec k status :
  St V G X k -> g_state (G f) = kLoading -> g_own (G f) = true ->
  wp (AbortLoadReservation f tag status) (fun s k' => s = status /\ St V (<[f := freed]> G) X k' /\
    held k k' /\ disk k' = disk k /\ operations k' = operations k /\ strategies k' = strategies k) k.
Proof.
  intros HS Es Eo. pose proof (st_inv _ _ _ _ _ HS) as HI. pose proof (st_pool _ _ _ _ _ _ HS Hf) as Hin.
  pose proof (st_frame _ _ _ _ _ _ HS Hf) as [F1 F2 F3 F4 F5 F6 F7 F8]. destruct (F7 Es) as (D1 & D2 & D3).
  destruct (i_table V G X k HI) as [Htb Hfn]. destruct (i_replacer V G X k HI) as [Hv Hfr].
  destruct (remove_law tag f (table k) Htb) as (Htb' & Hfn' & He & Hef); [by rewrite Hfn|].
  destruct (Replacer.remove_law 0 f (replacer k) Hv) as (Hv' & Hfr' & Htr); [by rewrite Hfr|].
  unfold AbortLoadReservation. do 2 apply wp_modify.
  set (k1 := set_replacer _ _). apply wp_bind.
  apply (wp_run _ _ _ tt (set_desc (<[f := set_tag no_page (desc k f)]> (desc k)) k1)); [done|].
  set (k2 := set_desc _ k1).
  destruct (st_word_of _ V G X _ Hf k HS) as (w & Ew & Hok & Hc). fold c in Ew, Hok, Hc.
  assert (control (desc k2 f) = encode (set_waiters w c)) as Ew2 by (cbn; by rewrite fn_lookup_insert).
  destruct (ReleaseToFree_encode _ Hok) as [Eb _]. apply wp_bind. unfold wp at 1.
  rewrite (on_word_run _ release_to_free_ctl encode k2 f _ Ew2 Eb). unfold release_to_free_ctl, wake_all.
  set (w3 := encode _). set (k3 := set_desc _ k2).
  assert (w3 = encode (set_waiters false (freed_ctl c))) as Ew3 by (subst w3; by destruct w).
  unfold ReleaseFreeFrame. apply wp_bind. apply wp_bind. eapply wp_mono; [apply reset_cleaner_aside|].
  intros [] k4 (g & Hg & ->). destruct (Hg k3) as (Hs & E1 & E2 & E3 & E4 & E5 & E6 & E7 & E8).
  set (k4 := g k3) in *. apply (wp_run _ _ _ tt (set_free (push_free f (free k4)) k4)); [done|]. set (k5 := set_free _ k4).
  pose proof Hs as (S1 & S2 & S3 & S4 & S5 & S6 & S7 & S8).
  assert (desc k5 f = set_control w3 (set_tag no_page (desc k f))) as Edf.
  { change (desc k5) with (desc k4). rewrite E1. cbn [k3 desc set_desc k2]. by rewrite !fn_lookup_insert. }
  cbn [wp ret]. split; [done|]. split; [|split; [|split; [|split]]].
  - eapply (st_update V G X X k k5 f); try done.
    + assert (outside f k k3) as HO.
      { split; cbn; try done.
        - intros h _ Hne. by apply He.
        - intros h Hne. rewrite Htr. auto.
        - intros h Hne. by rewrite !fn_lookup_insert_ne. }
      destruct (outside_same f k k3 k4 HO Hs E1 E2 E4 E5). by split.
    + change (table k5) with (table k4). rewrite S2. cbn [k3 k2 k1 table set_desc set_replacer set_table].
      rewrite Hef. rewrite decide_True; [done|]. rewrite (i_entry V G X k HI f Hin). unfold entry_of.
      by rewrite decide_False by congruence.
    + rewrite Edf. change (frame_data k5) with (frame_data k4). rewrite E2. cbn [k3 k2 k1 frame_data set_desc set_replacer set_table].
      rewrite F4. apply frame_ok_freed; [done| |done]. exists false. exact Ew3.
    + congruence.
    + change (dirty_page_count k5) with (dirty_page_count k4). rewrite E3. cbn. fold c. fold c in D1. rewrite D1. cbn. lia.
    + apply (tasks_none V G); [done|done|done].
    + eapply (free_ok_push G k); try done; [apply HI|apply HI|intros [? _]; congruence|].
      cbn [k5 free set_free]. by rewrite S5.
    + eapply (loads_ok_ext _ k); [|done..].
      apply loads_ok_other; [apply HI|intros [_ ?]; congruence|by intros [? _]].
  - by repeat split.
  - exact S4.
  - done.
  - done.
Qed.

End Load.

(** *** Reserving *)

(** No frame holds or loads the page. *)
Definition unheld (G : Z -> ginfo) (tag : BufferTag) : Prop :=
  forall h, 0 <= h < N -> g_state (G h) <> kFree -> g_tag (G h) <> tag.
(** The page may be cached and is not. *)
Definition absent (G : Z -> ginfo) (tag : BufferTag) : Prop := scope tag /\ unheld G tag.

Definition reserved (g : ginfo) (tag : BufferTag) : ginfo := GInfo reserved_ctl true tag (g_page g).

(** Why a frame cannot be reserved. *)
Definition rejects (allow popped : bool) (c : ctl) : Prop :=
  c_state c = kLoading \/ c_state c = kFree /\ popped = false \/ reservable_ctl c = false \/
  c_state c = kResident /\ c_dirty c = true /\ allow = false.

Section Reserve.
Context (V : BufferTag -> page) (G : Z -> ginfo) (X : list flush_task) (f : Z) (Hf : 0 <= f < N).
Let c : ctl := g_ctl (G f).

(** The state once the frame is claimed and its new page is in the table. *)
Lemma st_reserve k k' tag :
  St V G X k -> absent G tag -> outside f k k' -> failed k' = failed k -> closed k' = closed k ->
  (g_state (G f) = kFree /\ g_own (G f) = true \/ g_state (G f) = kResident) ->
  c_dirty c = false -> c_writeback c = false ->
  entry (table k') f = Some tag -> (exists w, control (desc k' f) = encode (set_waiters w reserved_ctl)) ->
  last_writeback_error (desc k' f) = last_writeback_error (desc k f) -> d_tag (desc k' f) = tag ->
  frame_data k' f = frame_data k f ->
  dirty_page_count k' = dirty_page_count k -> free k' = free k -> loads k' = loads k ->
  St V (<[f := reserved (G f) tag]> G) X k'.
Proof.
  intros HS Hab HO Efa Ecl Hst Ed Ew He Hw Ee Et Efd Edc Efr El. pose proof (st_inv _ _ _ _ _ HS) as HI.
  pose proof (st_frame _ _ _ _ _ _ HS Hf) as [F1 F2 F3 F4 F5 F6 F7 F8].
  pose proof (o_cfg _ _ _ HO) as Ec.
  eapply (st_update V G X X k k' f); try done.
  - rewrite Efd, F4. split; unfold g_state; cbn; try done. by rewrite Ee.
  - intros _. split; [apply Hab|]. intros h Hh Hne Lh. by apply Hab.
  - intros Es. right. by apply (F8 Es).
  - rewrite Edc. fold c. rewrite Ed. cbn. lia.
  - by apply (tasks_none V G).
  - eapply (free_ok_ext _ k); [|done..]. apply free_ok_other; [apply HI| |by intros [? _]].
    intros [? ?]. destruct Hst as [[_ ?]|?]; congruence.
  - eapply (loads_ok_ext _ k); [|done..]. apply loads_ok_other; [apply HI| |by intros [_ ?]].
    intros [? ?]. destruct Hst as [[? _]|?]; congruence.
Qed.

Local Ltac reject :=
  eexists _, _; split; [done|]; split; [done|]; split; [apply touched_desc|]; split; [done|]; intros ?; auto.

(** The claim on the control word. *)
Lemma reserve_word k popped :
  St V G X k -> (popped = true -> g_state (G f) = kFree) ->
  exists w o k1, on_word f (TryReserve popped) k = Some ((o, encode (set_waiters w c)), k1) /\ ctl_ok (set_waiters w c) /\
    touched f k k1 /\
    match o with
    | kRejected => St V G X k1 /\ forall allow, rejects allow popped c
    | kNeedsFlush => St V G X k1 /\ c_state c = kResident /\ c_dirty c = true /\ reservable_ctl c = true
    | kReserved =>
        dirty_page_count k1 = dirty_page_count k /\
        desc k1 f = set_control (encode (set_waiters w reserved_ctl)) (desc k f) /\
        (popped = true \/ c_state c = kResident) /\ reservable_ctl c = true /\ c_dirty c = false
    end.
Proof.
  intros HS Hpop. destruct (st_word_of _ V G X _ Hf k HS) as (w & Ew & Hok & Hc). fold c in Ew, Hok, Hc.
  exists w. destruct (TryReserve_encode _ Hok popped) as [Eb _].
  rewrite (on_word_run _ (reserve_ctl popped) _ k f _ Ew Eb). unfold reserve_ctl, c_is.
  cbn [set_waiters c_state c_dirty c_waiters]. change (reservable_ctl (set_waiters w c)) with (reservable_ctl c).
  pose proof (st_same_word K V G X k f _ HS Ew) as HSw. unfold rejects.
  pose proof (st_frame _ _ _ _ _ _ HS Hf) as Fo.
  case_bool_decide as E1; [reject|].
  case_bool_decide as E2; cbn [andb].
  - destruct popped; cbn [negb]; [|reject].
    destruct (reservable_ctl c) eqn:Erv; cbn [negb]; [|reject].
    rewrite bool_decide_false by congruence. cbn [andb].
    eexists _, _. split; [done|]. split; [done|]. split; [apply touched_desc|]. split; [done|].
    cbn. rewrite fn_lookup_insert. split; [done|]. split; [by left|]. split; [done|]. by apply (fo_free _ _ _ _ _ _ Fo).
  - destruct (reservable_ctl c) eqn:Erv; cbn [negb]; [|reject].
    case_bool_decide as E3; cbn [andb].
    + destruct (c_dirty c) eqn:Ed.
      * eexists _, _. split_and!; try done. apply touched_desc.
      * eexists _, _. split; [done|]. split; [done|]. split; [apply touched_desc|]. split; [done|].
        cbn. rewrite fn_lookup_insert. split; [done|]. split; [by right|]. done.
    + exfalso. destruct (c_state c); congruence.
Qed.

Lemma reserve_spec k tag allow popped :
  St V G X k -> absent G tag -> (popped = true -> g_state (G f) = kFree /\ g_own (G f) = true) ->
  wp (TryReserveFrameForTag f tag allow popped) (fun o k' => held k k' /\ disk k' = disk k /\ strategies k' = strategies k /\
    match o with
    | FrameReserved r => res_frame r = f /\ c_state c <> kLoading /\ St V (<[f := reserved (G f) tag]> G) X k'
    | FrameNeedsFlush => St V G X k' /\ c_state c = kResident /\ c_dirty c = true /\ reservable_ctl c = true /\ allow = true
    | FrameRejected => St V G X k' /\ rejects allow popped c
    | FrameTagExists => False
    end) k.
Proof.
  intros HS Hab Hpop. pose proof (st_inv _ _ _ _ _ HS) as HI. pose proof (st_pool _ _ _ _ _ _ HS Hf) as Hin.
  destruct (reserve_word k popped HS) as (w & o & k1 & E1 & Hok & Ht1 & Ho); [intros E; by apply Hpop|].
  unfold TryReserveFrameForTag. apply wp_bind. eapply wp_run; [exact E1|].
  assert (held k k1 /\ disk k1 = disk k /\ strategies k1 = strategies k) as (Hh1 & Hd1 & Hs1).
  { split; [by eapply touched_held|]. split; [by eapply touched_contents|]. by destruct Ht1 as ((_&_&_&_&_&_&_&?)&_). }
  destruct o.
  - destruct Ho as (Edc & Edf & Hst & Erv & Ed).
    rewrite IsResident_encode by done. apply wp_get. set (had := c_is kResident _).
    set (old := d_tag (desc k1 f)). apply wp_bind.
    apply (wp_run _ _ _ tt (set_desc (<[f := set_tag tag (desc k1 f)]> (desc k1)) k1)); [done|]. set (k2 := set_desc _ k1).
    apply wp_bind.
    apply (wp_run _ _ _ tt (set_desc (<[f := set_version (u64 (version (desc k2 f) + 1)) (desc k2 f)]> (desc k2)) k2)); [done|].
    set (k3 := set_desc _ k2). apply wp_bind. unfold InstallReservationEntry, wp at 1. cbn [res_frame had_evicted_page evicted_tag].
    destruct (i_table V G X k HI) as [Htb Hfn]. pose proof Ht1 as ((S1 & S2 & S3 & S4 & S5 & S6 & S7 & S8) & S9 & S10 & S11 & S12 & S13 & S14 & S15).
    change (table k3) with (table k1). rewrite S2.
    pose proof (replace_law (if had then Some (if had then old else no_page) else None) tag f
      (fun g => IsLiveFor k3 g tag) (table k) Htb ltac:(by rewrite Hfn)) as Hrl.
    destruct (replace_unless_live _ _ _ _ _) as [x t']. destruct Hrl as (Htb' & Hfn' & He & Hx). destruct x as [g|].
    { destruct Hx as (Hg & Hne & Hgt & _). rewrite Hfn in Hg. rewrite (i_entry V G X k HI g Hg) in Hgt.
      unfold entry_of in Hgt. destruct (decide _); [done|]. injection Hgt as Hgt. exfalso.
      eapply (proj2 Hab); [|done|exact Hgt]. by eapply st_pool_iff. }
    destruct Hx as [Hef _]. set (k4 := set_table t' k3).
    eapply wp_seq; [apply reset_cleaner_aside|]. intros [] k5 (g & Hg & ->).
    assert (St V (<[f := reserved (G f) tag]> G) X k4) as HS4.
    { apply (st_reserve k k4 tag); try done.
      - split; cbn [k4 k3 k2 cfg sched completed next_task strategies disk table replacer desc frame_data set_table set_desc];
          rewrite ?S1, ?S3, ?S4, ?S6, ?S8, ?S9, ?S11, ?S12; try done.
        + intros h _ Hne. by apply He.
        + split; [apply HI|done].
        + intros h Hne. rewrite !fn_lookup_insert_ne by done. by apply S10.
      - destruct Hst as [Hp|?]; [left; by apply Hpop|by right].
      - unfold reservable_ctl in Erv. apply andb_true_iff in Erv as [_ Erv]. by apply negb_true_iff in Erv.
      - exists w. cbn. rewrite !fn_lookup_insert. by rewrite Edf.
      - cbn. rewrite !fn_lookup_insert. by rewrite Edf.
      - cbn. by rewrite !fn_lookup_insert.
      - cbn. by rewrite S9. }
    pose proof (touched_neutral f g k4 Hg) as Ht5.
    split; [eapply held_trans; [exact Hh1|]; eapply (held_trans _ k4); [done|by eapply touched_held]|].
    split; [rewrite (touched_contents _ _ _ Ht5); exact Hd1|].
    split; [destruct Ht5 as ((_&_&_&_&_&_&_&E5)&_); rewrite E5; exact Hs1|].
    split; [done|]. split; [|by apply st_neutral].
    destruct Hst as [Hp|Hp]; [destruct (Hpop Hp) as [Es _]; unfold g_state in Es; fold c in Es|]; congruence.
  - destruct Ho as (HS1 & Es & Ed & Erv). destruct allow; cbn [wp ret].
    + by split_and!.
    + split_and!; try done. by do 3 right.
  - destruct Ho as (HS1 & Hr). cbn [wp ret]. split_and!; try done.
Qed.

End Reserve.

End Frames.
