(* ===== verification/KernelProgress.v ===== *)
(** Reads in flight complete, and a call that waits for background work gets it. *)
From S2P Require Import Prelude Status CasLoop FrameControl Layout Replacer FlushScheduler Cleaner Interfaces.
From S2P Require Import Kernel Manager KernelInv KernelOps KernelFlush KernelWait KernelFrames.

Section Progress.
Context {T F R B : Type} `{FrameTableLaws T} `{FreeFramesLaws F} `{ReplacerLaws R} `{BackendLaws B} {SC : Scope}.
Local Abbreviation kernel := (kernel T F R B).
Local Abbreviation M := (@M T F R B).
Context (K : config).
Local Abbreviation N := (pool_size K).
Local Abbreviation St := (St K).
Local Abbreviation load_entry := (BufferTag * FrameReservation * nat)%type.

Lemma st_operations V G X k o : St V G X k -> St V G X (set_operations o k).
Proof. intros (? & ? & ? & HI). split_and!; try done. by eapply inv_ext. Qed.

(** ** One read *)

Definition with_page (p : page) (g : ginfo) : ginfo := GInfo (g_ctl g) (g_own g) (g_tag g) p.

(** Writing to the memory of a frame that is being loaded. *)
Lemma st_page V G X k k' f p :
  St V G X k -> 0 <= f < N -> g_state (G f) = kLoading ->
  same_state k (set_disk (disk k) k') -> contents (disk k') = contents (disk k) -> desc k' = desc k ->
  frame_data k' f = p -> (forall h, h <> f -> frame_data k' h = frame_data k h) ->
  dirty_page_count k' = dirty_page_count k -> completed k' = completed k -> next_task k' = next_task k ->
  failed k' = failed k -> closed k' = closed k ->
  St V (<[f := with_page p (G f)]> G) X k'.
Proof.
  intros HS Hf Es (S1 & S2 & S3 & _ & S5 & S6 & S7 & S8) Ect Ed Efd Hfd Edc E1 E2 E3 E4.
  cbn in S1, S2, S3, S5, S6, S7, S8. pose proof (st_inv _ _ _ _ _ HS) as HI. pose proof (st_pool _ _ _ _ _ _ HS Hf) as Hin.
  pose proof (st_frame _ _ _ _ _ _ HS Hf) as [F1 F2 F3 F4 F5 F6 F7 F8]. destruct (F7 Es) as (D1 & D2 & D3).
  eapply (st_update K V G X X k k' f); try done.
  - split; rewrite ?S2, ?S3, ?Ed; try done; try (split; [apply HI|done]).
  - rewrite S2, (i_entry V G X k HI f Hin). symmetry. by apply entry_of_same.
  - rewrite S3, Ed, Efd. split; try done. unfold g_state in *. cbn. congruence.
  - intros _. split; [apply (st_scope K V G X k f HS Hf); congruence|].
    intros h Hh Hne Lh E. apply Hne. apply (i_unique V G X k HI); try done; try by eapply st_pool. congruence.
  - congruence.
  - rewrite Edc. cbn. lia.
  - by apply (tasks_none V G).
  - eapply (free_ok_ext _ k); [|done..]. by apply free_ok_local; [apply HI|..].
  - eapply (loads_ok_ext _ k); [|done..]. by apply loads_ok_local; [apply HI|..].
Qed.

Lemma read_block_spec V G X k f :
  St V G X k -> 0 <= f < N -> g_state (G f) = kLoading ->
  wp (read_block f (g_tag (G f))) (fun s k' => held k k' /\ operations k' = operations k /\ strategies k' = strategies k /\
    exists p, St V (<[f := with_page p (G f)]> G) X k' /\ (has_value s = true -> p = V (g_tag (G f)))) k.
Proof.
  intros HS Hf Es. unfold read_block, wp. pose proof (disk_read_law (g_tag (G f)) (disk k)) as Hr.
  destruct (disk_read _ _) as [r b]. destruct Hr as [Hc Hr]; [apply (st_addressable K V G X k f HS Hf); congruence|].
  pose proof (loading_contents K V G X f Hf k HS Es) as Hcv.
  destruct r as [p|e]; (split; [done|]; split; [done|]; split; [done|]).
  - exists p. split; [|intros _; congruence].
    eapply (st_page V G X k _ f p); try done; cbn; [by rewrite fn_lookup_insert|].
    intros h Hne. by rewrite fn_lookup_insert_ne.
  - exists (g_page (G f)). split; [|done]. eapply (st_page V G X k _ f); try done.
    cbn. apply (fo_page _ _ _ _ _ _ (st_frame _ _ _ _ _ _ HS Hf)).
Qed.

(** ** A request of several blocks *)

(** The entry is for a frame this call owns. *)
Definition claimed_entry (G : Z -> ginfo) (e : load_entry) : Prop :=
  0 <= entry_frame e < N /\ g_state (G (entry_frame e)) = kLoading /\ g_own (G (entry_frame e)) = true /\
  e.1.1 = g_tag (G (entry_frame e)).

Definition repaged (G G' : Z -> ginfo) (fs : list Z) : Prop :=
  forall f, (exists p, G' f = with_page p (G f)) /\ (f ∉ fs -> G' f = G f).

Lemma repaged_refl G fs : repaged G G fs.
Proof. intros f. split; [|done]. exists (g_page (G f)). by destruct (G f). Qed.

Lemma repaged_claimed G G' fs e : repaged G G' fs -> claimed_entry G e -> claimed_entry G' e.
Proof.
  intros Hr (Hf & Es & Eo & Et). destruct (Hr (entry_frame e)) as [(p & E) _]. unfold claimed_entry. by rewrite E.
Qed.

Lemma read_blocks_spec V X es G k :
  St V G X k -> NoDup (entry_frame <$> es) -> (forall e, e ∈ es -> claimed_entry G e) ->
  wp (read_blocks es) (fun s k' => held k k' /\ operations k' = operations k /\ strategies k' = strategies k /\
    exists G', St V G' X k' /\ repaged G G' (entry_frame <$> es) /\
      (has_value s = true -> forall e, e ∈ es -> g_page (G' (entry_frame e)) = V (g_tag (G (entry_frame e))))) k.
Proof.
  revert G k. induction es as [|e es IH]; intros G k HS Hnd Hcl; cbn [read_blocks].
  { split; [done|]. split; [done|]. split; [done|]. exists G. split; [done|]. split; [apply repaged_refl|]. set_solver. }
  destruct e as [[tag r] slot]. cbn in Hnd. apply list.NoDup_cons in Hnd as [Hni Hnd].
  destruct (Hcl (tag, r, slot)) as (Hf & Es & Eo & Et); [by left|].
  change (entry_frame (tag, r, slot)) with (res_frame r) in *. cbn in Et. subst tag.
  eapply wp_seq; [by apply read_block_spec|]. intros s k1 (Hh1 & Ho1 & Hst1 & p & HS1 & Hp).
  set (G1 := <[res_frame r := with_page p (G (res_frame r))]> G) in *.
  assert (repaged G G1 [res_frame r]) as Hr1.
  { intros f. unfold G1. destruct (decide (f = res_frame r)) as [->|Hne].
    - rewrite fn_lookup_insert. split; [by eexists|]. set_solver.
    - rewrite fn_lookup_insert_ne by done. split; [|done]. exists (g_page (G f)). by destruct (G f). }
  destruct s as [[]|er].
  - eapply wp_mono; [apply (IH G1 k1 HS1 Hnd)|].
    { intros e He. eapply repaged_claimed; [exact Hr1|]. apply Hcl. by right. }
    intros s k2 (Hh2 & Ho2 & Hst2 & G2 & HS2 & Hr2 & Hp2). split; [by eapply held_trans|].
    split; [congruence|]. split; [congruence|]. exists G2. split; [done|]. split.
    + intros f. destruct (Hr1 f) as [(p1 & E1) N1], (Hr2 f) as [(p2 & E2) N2]. split.
      * exists p2. by rewrite E2, E1.
      * cbn. rewrite not_elem_of_cons. intros [? ?]. rewrite N2 by done. apply N1. set_solver.
    + intros Hv e He. apply elem_of_cons in He as [->|He].
      * change (entry_frame _) with (res_frame r). destruct (Hr2 (res_frame r)) as [_ N2]. rewrite N2 by done.
        unfold G1. rewrite fn_lookup_insert. cbn. by apply Hp.
      * rewrite (Hp2 Hv e He). destruct (Hr1 (entry_frame e)) as [(p1 & E1) _]. by rewrite E1.
  - split; [done|]. split; [done|]. split; [done|]. exists G1. split; [done|]. split; [|done].
    intros f. destruct (Hr1 f) as [HE N1]. split; [done|]. intros Hnf. apply N1. cbn in Hnf. set_solver.
Qed.

(** A frame whose read is over. *)
Definition landed (g g' : ginfo) : Prop :=
  g_own g' = false /\ g_state g' <> kLoading /\ g_tag g' = g_tag g /\
  c_excl (g_ctl g') = c_excl (g_ctl g) /\ c_shared (g_ctl g') = c_shared (g_ctl g) /\ c_dirty (g_ctl g') = false /\
  c_pins (g_ctl g') <= c_pins (g_ctl g).

Definition finish_entry (o : option nat) (status : Status) (e : load_entry) : M unit :=
  let '(tag, reservation, slot) := e in
  if has_value status then PublishLoadedFrame reservation (match o with None => true | Some _ => false end)
  else bind (AbortLoadReservation (res_frame reservation) tag status)
    (fun _ => match o with Some o => upd_operation o (set_slot slot SlotFailed) | None => ret tt end).

Lemma finish_entry_spec V X G k o s e :
  St V G X k -> claimed_entry G e ->
  (has_value s = true -> g_page (G (entry_frame e)) = V (g_tag (G (entry_frame e)))) ->
  wp (finish_entry o s e) (fun _ k' => held k k' /\ exists g', St V (<[entry_frame e := g']> G) X k' /\
    landed (G (entry_frame e)) g') k.
Proof.
  intros HS (Hf & Es & Eo & Et) Hp. destruct e as [[tag r] slot].
  change (entry_frame (tag, r, slot)) with (res_frame r) in *. cbn in Et. subst tag. unfold finish_entry.
  destruct (fo_loading _ _ _ _ _ _ (st_frame _ _ _ _ _ _ HS Hf) Es) as (Ed & _ & Epin).
  destruct s as [[]|er]; cbn [has_value] in *.
  - eapply wp_mono; [by apply (publish_spec K V G X (res_frame r)); auto|].
    intros [] k' (HS' & Hh & _). split; [done|]. eexists. split; [exact HS'|]. split_and!; try done. cbn. destruct o; cbn; lia.
  - eapply wp_seq; [by apply (abort_spec K V G X (res_frame r))|]. intros s k' (_ & HS' & Hh & _).
    destruct o as [o|]; (split; [done|]); eexists.
    + split; [by apply st_operations|]. split_and!; try done. cbn. lia.
    + split; [done|]. split_and!; try done. cbn. lia.
Qed.

Lemma finish_entries_spec V X o s es G k :
  St V G X k -> NoDup (entry_frame <$> es) -> (forall e, e ∈ es -> claimed_entry G e) ->
  (has_value s = true -> forall e, e ∈ es -> g_page (G (entry_frame e)) = V (g_tag (G (entry_frame e)))) ->
  wp (for_each es (finish_entry o s)) (fun _ k' => held k k' /\ exists G', St V G' X k' /\
    (forall f, f ∉ entry_frame <$> es -> G' f = G f) /\ (forall e, e ∈ es -> landed (G (entry_frame e)) (G' (entry_frame e)))) k.
Proof.
  revert G k. induction es as [|e es IH]; intros G k HS Hnd Hcl Hp; cbn [for_each].
  { split; [done|]. exists G. split; [done|]. split; [done|]. set_solver. }
  cbn in Hnd. apply list.NoDup_cons in Hnd as [Hni Hnd].
  eapply wp_seq; [apply (finish_entry_spec V X G k o s e HS); [apply Hcl; by left|intros Hv; apply Hp; [done|by left]]|].
  intros [] k1 (Hh1 & g1 & HS1 & Hl1).
  assert (forall u, u ∈ es -> (<[entry_frame e := g1]> G : Z -> ginfo) (entry_frame u) = G (entry_frame u)) as Hoth.
  { intros u Hu. rewrite fn_lookup_insert_ne; [done|]. intros E. apply Hni. rewrite E. by apply list_elem_of_fmap_2. }
  eapply wp_mono; [apply (IH _ k1 HS1 Hnd)|].
  - intros u Hu. unfold claimed_entry. rewrite Hoth by done. apply Hcl. by right.
  - intros Hv u Hu. rewrite Hoth by done. apply Hp; [done|by right].
  - intros [] k2 (Hh2 & G2 & HS2 & Hs2 & Hl2). split; [by eapply held_trans|]. exists G2. split; [done|]. split.
    + intros f Hnf. cbn in Hnf. rewrite not_elem_of_cons in Hnf. destruct Hnf as [? ?]. rewrite Hs2 by done.
      by rewrite fn_lookup_insert_ne.
    + intros u Hu. apply elem_of_cons in Hu as [->|Hu].
      * rewrite Hs2 by done. by rewrite fn_lookup_insert.
      * rewrite <- (Hoth u Hu). by apply Hl2.
Qed.

(** ** Completing the oldest read *)

Definition claim (es : list load_entry) (G : Z -> ginfo) : Z -> ginfo :=
  fun f => if decide (f ∈ entry_frame <$> es) then with_own true (G f) else G f.

Lemma claim_ctl es G f : g_ctl (claim es G f) = g_ctl (G f) /\ g_tag (claim es G f) = g_tag (G f) /\ g_page (claim es G f) = g_page (G f).
Proof. unfold claim. by destruct (decide _). Qed.

(** Loading frames change hands between the calls and the reads in flight. *)
Lemma st_reown V G G' X k ls :
  St V G X k ->
  (forall f, G' f = G f \/ g_state (G f) = kLoading /\ exists b, G' f = with_own b (G f)) ->
  loads_ok G' (set_loads ls k) -> St V G' X (set_loads ls k).
Proof.
  intros (E1 & E2 & E3 & HI) HG Hl. split; [done|]. split; [done|]. split; [done|].
  assert (forall f, g_ctl (G' f) = g_ctl (G f) /\ g_tag (G' f) = g_tag (G f) /\ g_page (G' f) = g_page (G f)) as Hcc.
  { intros f. destruct (HG f) as [->|(_ & b & ->)]; done. }
  assert (forall f, g_state (G' f) = g_state (G f)) as Hst by (intros f; unfold g_state; by destruct (Hcc f) as (-> & _)).
  destruct HI as [I1 I2 I3 I4 I5 I6 I7 I8 I9 I10 I11 I12 I13 I14 I15 I16 I17 I18]. split; try done.
  - intros f Hf. destruct (I4 f Hf) as [F1 F2 F3 F4 F5 F6 F7 F8]. destruct (Hcc f) as (Ec & Et & Ep).
    split; rewrite ?Hst, ?Ec, ?Et, ?Ep; try done. intros E. destruct (F8 E) as (? & ?). split; [|done].
    destruct (HG f) as [->|(Es & _)]; [done|congruence].
  - intros f Hf. cbn [table set_loads]. rewrite (I5 f Hf). destruct (Hcc f) as (_ & Et & _). by apply entry_of_same.
  - intros f g Hf Hg. rewrite !Hst. destruct (Hcc f) as (_ & -> & _), (Hcc g) as (_ & -> & _). by apply I6.
  - destruct I7 as (fl & ? & ? & Hfl). exists fl. split; [done|]. split; [done|]. intros f. rewrite Hfl, Hst.
    destruct (HG f) as [->|(Es & _)]; [done|]. rewrite Es. naive_solver.
  - intros t Ht. apply I8. intros f Hf. specialize (Ht f Hf). rewrite Hst in Ht. by destruct (Hcc f) as (_ & <- & _).
  - cbn [dirty_page_count set_loads]. rewrite I9. symmetry. apply sum_dirty_ext. intros f _. by destruct (Hcc f) as (-> & _).
  - destruct I10 as [? Hall]. split; [done|]. intros t Ht. destruct (Hall t Ht) as [? [J1 J2 J3 J4 J5]]. split; [done|].
    destruct (Hcc (task_frame t)) as (Ec & Et & _). split; rewrite ?Hst, ?Ec, ?Et; done.
  - intros f Hf. destruct (Hcc f) as (-> & _). by apply I11.
  - intros f Hf. rewrite Hst. destruct (Hcc f) as (_ & -> & _). by apply I16.
Qed.

Lemma st_claim V G X k l ls :
  St V G X k -> loads k = l :: ls ->
  St V (claim (al_entries l) G) X (set_loads ls k) /\ NoDup (entry_frame <$> al_entries l) /\
  (forall e, e ∈ al_entries l -> claimed_entry (claim (al_entries l) G) e /\ g_own (G (entry_frame e)) = false).
Proof.
  intros HS El. pose proof HS as (E1 & E2 & E3 & HI). destruct (i_loads V G X k HI) as (Hnd & Hel & Htg).
  assert (load_entries k = al_entries l ++ load_entries (set_loads ls k)) as Ele by (unfold load_entries; by rewrite El).
  rewrite Ele in Hnd, Hel, Htg. rewrite fmap_app in Hnd, Hel. apply list.NoDup_app in Hnd as (Hnd1 & Hdisj & Hnd2).
  assert (forall f, f ∈ entry_frame <$> al_entries l -> in_pool k f /\ g_state (G f) = kLoading /\ g_own (G f) = false) as Hin.
  { intros f Hfin. apply Hel. by apply elem_of_app; left. }
  pose proof (claim_ctl (al_entries l) G) as Hcc.
  assert (forall f, g_state (claim (al_entries l) G f) = g_state (G f)) as Hst by (intros f; unfold g_state; by destruct (Hcc f) as (-> & _)).
  split; [|split; [done|]].
  - apply (st_reown V G _ X k ls HS).
    { intros f. unfold claim. destruct (decide _) as [Hd|]; [|by left]. right. split; [by apply Hin|by exists true]. }
    split; [done|]. split.
    + intros f. rewrite Hst. unfold claim. destruct (decide _) as [Hd|Hd].
      * cbn. split; [|naive_solver]. intros Hf. by destruct (Hdisj f Hd).
      * change (in_pool (set_loads ls k) f) with (in_pool k f). specialize (Hel f). rewrite elem_of_app in Hel. tauto.
    + intros e He. destruct (Hcc (entry_frame e)) as (_ & -> & _). apply Htg. by apply elem_of_app; right.
  - intros e He. destruct (Hin (entry_frame e)) as (Hf & Es & Eo); [by apply list_elem_of_fmap_2|].
    split; [|done]. unfold claimed_entry. rewrite Hst. destruct (Hcc (entry_frame e)) as (_ & -> & _).
    split; [by eapply st_pool_iff|]. split; [done|]. split.
    + unfold claim. rewrite decide_True; [done|]. by apply list_elem_of_fmap_2.
    + apply Htg. by apply elem_of_app; left.
Qed.

Lemma complete_load_spec V G k :
  St V G [] k ->
  wp complete_load (fun b k' => exists G', St V G' [] k' /\ evo G k G' k' /\
    if b then (pending_work k' < pending_work k)%nat else loads k = [] /\ queued_tasks k' = queued_tasks k /\ loads k' = []) k.
Proof.
  intros HS. unfold complete_load, wp. destruct (loads k) as [|l ls] eqn:El.
  { exists G. split; [done|]. split; [apply evo_refl|done]. }
  destruct (st_claim V G [] k l ls HS El) as (HS0 & Hnd & Hcl). set (k0 := set_loads ls k) in *.
  eapply (wp_seq (read_blocks (al_entries l))); [by apply (read_blocks_spec V [] _ _ _ HS0 Hnd); apply Hcl|].
  intros s k1 (Hh1 & _ & _ & G1 & HS1 & Hr1 & Hp1).
  eapply wp_seq with (Q := fun _ k2 => held k1 k2 /\ exists G2, St V G2 [] k2 /\
    (forall f, f ∉ entry_frame <$> al_entries l -> G2 f = G1 f) /\
    (forall e, e ∈ al_entries l -> landed (G1 (entry_frame e)) (G2 (entry_frame e)))).
  { unfold FinishAsyncLoad. eapply wp_seq.
    - apply (finish_entries_spec V [] (al_operation l) s (al_entries l) G1 k1 HS1 Hnd).
      + intros e He. eapply repaged_claimed; [exact Hr1|]. by apply Hcl.
      + intros Hv e He. rewrite (Hp1 Hv e He). destruct (Hr1 (entry_frame e)) as [(p & ->) _]. done.
    - intros [] k2 (Hh2 & G2 & HS2 & HH). destruct (al_operation l); (split; [done|]); exists G2; split; try done.
      by apply st_operations. }
  intros [] k2 (Hh2 & G2 & HS2 & Hs2 & Hl2). destruct (held_trans _ _ _ Hh1 Hh2) as (Hc & Hsc & Hld & Hcp & Hnx).
  cbn [wp ret]. exists G2. split; [done|].
  assert (forall f, f ∉ entry_frame <$> al_entries l -> G2 f = G f) as Hsame.
  { intros f Hnf. rewrite Hs2 by done. destruct (Hr1 f) as [_ N1]. rewrite N1 by done. unfold claim. by rewrite decide_False. }
  split.
  - split.
    + intros f. destruct (decide (f ∈ entry_frame <$> al_entries l)) as [Hin|Hni]; [|rewrite Hsame by done; apply evolved_refl].
      apply list_elem_of_fmap in Hin as (e & -> & He). destruct (Hcl e He) as [(_ & Es & _ & _) Eo].
      destruct (claim_ctl (al_entries l) G (entry_frame e)) as (Ec & Et & _).
      destruct (Hr1 (entry_frame e)) as [(p & E1) _]. destruct (Hl2 e He) as (A1 & A2 & A3 & A4 & A5 & A6 & A7).
      rewrite E1 in A3, A4, A5, A7. cbn in A3, A4, A5, A7. rewrite Ec in A4, A5, A7. rewrite Et in A3.
      unfold g_state in Es. rewrite Ec in Es.
      split; unfold g_state; try congruence. intros _. right. by split_and!.
    + intros i st Hi. rewrite Hcp. done.
    + rewrite Hnx. done.
    + intros t Ht. left. split; [unfold queued_tasks in *; by rewrite Hsc|]. apply Hsame. intros Hin.
      apply list_elem_of_fmap in Hin as (e & E & He). destruct (Hcl e He) as [(_ & Es & _ & _) _].
      unfold g_state in Es. destruct (claim_ctl (al_entries l) G (entry_frame e)) as (Ec & _). rewrite Ec, <- E in Es.
      destruct (i_tasks V G [] k (st_inv _ _ _ _ _ HS)) as [_ Hall].
      destruct (Hall t) as [_ [J _ _ _ _]]; [unfold all_tasks; by rewrite app_nil_r|]. unfold g_state in J. congruence.
    + by rewrite Hsc.
  - unfold pending_work. rewrite Hld, Hsc, El. cbn. lia.
Qed.

(** ** Waiting *)

Lemma pending_none (k : kernel) : pending_work k = 0%nat -> loads k = [] /\ queued_tasks k = [].
Proof.
  unfold pending_work, queued_tasks. intros E.
  destruct (loads k), (foreground_queue (sched k)), (background_queue (sched k)); cbn in E; try lia. done.
Qed.

(** With work in the background, waiting gets some of it done. *)
Lemma progress_spec V G k :
  St V G [] k -> pending_work k <> 0%nat ->
  wp progress (fun _ k' => exists G', St V G' [] k' /\ evo G k G' k' /\ (pending_work k' < pending_work k)%nat) k.
Proof.
  intros HS Hp. unfold progress. eapply wp_seq; [by apply complete_load_spec|].
  intros [] k1 (G1 & HS1 & He1 & Hb); [by exists G1|]. destruct Hb as (El & Eq & El1).
  eapply wp_seq; [by apply worker_round_spec|]. intros [] k2 (G2 & HS2 & He2 & El2 & Hb).
  - exists G2. split; [done|]. split; [by eapply evo_trans|]. unfold pending_work in *. rewrite El.
    rewrite El1 in Hb. cbn in *. apply (f_equal length) in Eq. unfold queued_tasks in Eq. rewrite !length_app in Eq. lia.
  - exfalso. apply Hp. unfold pending_work. rewrite Eq in Hb. apply queues_nil in Hb as [-> ->]. by rewrite El.
Qed.

End Progress.
