(* ===== verification/KernelWriteback.v ===== *)
(** Flushing a frame: waiting for writebacks, preparing, queueing, writing and
    rolling back flush tasks, and the foreground flush that leaves a page clean. *)
From S2P Require Import Prelude Status CasLoop FrameControl Layout Replacer FlushScheduler Cleaner Interfaces.
From S2P Require Import Kernel Manager KernelInv KernelOps KernelFlush KernelWait KernelFrames KernelProgress.

Section Writeback.
Context {T F R B : Type} `{FrameTableLaws T} `{FreeFramesLaws F} `{ReplacerLaws R} `{BackendLaws B} {SC : Scope}.
Local Abbreviation kernel := (kernel T F R B).
Local Abbreviation M := (@M T F R B).
Context (K : config).
Local Abbreviation N := (pool_size K).
Local Abbreviation St := (St K).
Context (V : BufferTag -> page).

(** The state after some background work. *)
Definition later (G : Z -> ginfo) (k : kernel) (P : (Z -> ginfo) -> kernel -> Prop) (k' : kernel) : Prop :=
  exists G', St V G' [] k' /\ evo G k G' k' /\ P G' k'.

Lemma later_trans G k P (Q : (Z -> ginfo) -> kernel -> Prop) k1 k2 G1 :
  evo G k G1 k1 -> later G1 k1 P k2 -> (forall G' k', P G' k' -> Q G' k') -> later G k Q k2.
Proof. intros He (G' & HS & He' & HP) HQ. exists G'. split; [done|]. split; [by eapply evo_trans|auto]. Qed.

(** ** Waiting for a task *)

Lemma queued_not_completed G X k t : St V G X k -> t ∈ queued_tasks k -> completed k !! task_id t = None.
Proof. intros HS Ht. destruct (i_ids V G X k (st_inv _ _ _ _ _ HS)) as (_ & Hall & _). by apply Hall. Qed.

Lemma wait_task_spec G k t :
  St V G [] k -> t ∈ queued_tasks k \/ is_Some (completed k !! task_id t) ->
  wp (WaitTask t) (fun s => later G k (fun _ k' => completed k' !! task_id t = Some s)) k.
Proof.
  intros HS Ht. unfold WaitTask.
  refine (wp_loop (fun _ k1 => later G k (fun _ k1 => t ∈ queued_tasks k1 \/ is_Some (completed k1 !! task_id t)) k1)
    (fun _ => pending_work) _ _ _ _ k _ _ _); [|exists G; split; [done|]; split; [apply evo_refl|done]|lia].
  intros [] k1 (G1 & HS1 & He1 & Ht1). apply wp_get. destruct (completed k1 !! task_id t) as [s|] eqn:Ec.
  - exists G1. by split_and!.
  - destruct Ht1 as [Ht1|[? ?]]; [|done].
    eapply wp_seq; [by apply worker_round_spec|]. intros [] k2 (G2 & HS2 & He2 & _ & Hb); cbn [wp ret].
    + split; [|done]. exists G2. split; [done|]. split; [by eapply evo_trans|].
      destruct (e_queued _ _ _ _ He2 t Ht1) as [[? _]|(s & Es & _)]; [by left|right; by exists s].
    + rewrite Hb in Ht1. set_solver.
Qed.

(** A task that was queued is done once it completed. *)
Lemma wait_task_done G k k' G' t s :
  St V G' [] k' -> evo G k G' k' -> t ∈ queued_tasks k -> completed k' !! task_id t = Some s ->
  has_value s = true -> c_redirtied (g_ctl (G (task_frame t))) = false ->
  c_excl (g_ctl (G (task_frame t))) = false -> c_dirty (g_ctl (G' (task_frame t))) = false.
Proof.
  intros HS' He Ht Es Hs Hr Hx. destruct (e_queued _ _ _ _ He t Ht) as [[Ht' _]|(s' & Es' & Hd)].
  - by rewrite (queued_not_completed G' [] k' t HS' Ht') in Es.
  - assert (s' = s) as -> by congruence. auto.
Qed.

(** ** Sleeping on a control word *)

Lemma with_ctl_id g : with_ctl (g_ctl g) g = g.
Proof. by destruct g. Qed.

Lemma st_waiters G X k f w w' :
  St V G X k -> 0 <= f < N -> control (desc k f) = encode (set_waiters w (g_ctl (G f))) ->
  St V G X (set_desc (<[f := set_control (encode (set_waiters w' (g_ctl (G f)))) (desc k f)]> (desc k)) k).
Proof.
  intros HS Hf Ew. destruct (st_word_of K V G X f Hf k HS) as (_ & _ & _ & Hc).
  eapply st_ghost_ext; [apply (st_word K V G X k f w' (g_ctl (G f)) HS Hf); try done; congruence|].
  intros h. unfold upd_ctl. destruct (decide (h = f)) as [->|Hne].
  - by rewrite fn_lookup_insert, with_ctl_id.
  - by rewrite fn_lookup_insert_ne.
Qed.

Lemma wait_while_spec G k f (blocked : kernel -> Z -> bool) :
  St V G [] k -> 0 <= f < N ->
  (forall G1 k1, St V G1 [] k1 -> evo G k G1 k1 -> blocked k1 (control (desc k1 f)) = true -> pending_work k1 <> 0%nat) ->
  wp (wait_while f blocked) (fun _ => later G k (fun _ k' => blocked k' (control (desc k' f)) = false)) k.
Proof.
  intros HS Hf Hb. unfold wait_while.
  set (m := fun (_ : unit) (k : kernel) =>
    (2 * pending_work k + (if any_bit (control (desc k f)) kWaiters then 0 else 1))%nat).
  refine (wp_loop (fun _ k1 => later G k (fun _ _ => True) k1) m _ _ _ _ k _ _ _);
    [|exists G; split; [done|]; split; [apply evo_refl|done]|unfold m, wait_fuel; destruct (any_bit _ _); lia].
  intros [] k1 (G1 & HS1 & He1 & _). destruct (st_word_of K V G1 [] f Hf k1 HS1) as (w & Ew & Hok & _).
  unfold wp, WaitWhile. destruct (blocked k1 _) eqn:Eb; cbn [negb]; [|by exists G1].
  specialize (Hb G1 k1 HS1 He1 Eb). rewrite Ew. rewrite any_waiters by done. cbn [set_waiters c_waiters]. destruct w; cbn [negb].
  - eapply wp_seq; [by apply progress_spec|]. intros [] k2 (G2 & HS2 & He2 & Hp). cbn [wp ret].
    split; [exists G2; split; [done|]; split; [by eapply evo_trans|done]|].
    unfold m. destruct (any_bit _ _), (any_bit _ _); lia.
  - rewrite lor_waiters by done. cbn [set_waiters]. split.
    + exists G1. split; [by apply (st_waiters G1 [] k1 f false true)|]. split; [|done]. destruct He1. by split.
    + unfold m. cbn [desc set_desc pending_work]. rewrite fn_lookup_insert. cbn [control set_control].
      change (pending_work (set_desc _ k1)) with (pending_work k1). rewrite Ew, !any_waiters by done. cbn. lia.
Qed.

(** A frame with a writeback has its task in the queues. *)
Lemma writeback_pending G k f : St V G [] k -> 0 <= f < N -> c_writeback (g_ctl (G f)) = true -> pending_work k <> 0%nat.
Proof.
  intros HS Hf Hw Hp. destruct (i_writeback V G [] k (st_inv _ _ _ _ _ HS) f) as (t & Ht & _); [by eapply st_pool|done|].
  apply pending_none in Hp as [_ Hq]. unfold all_tasks in Ht. rewrite Hq in Ht. set_solver.
Qed.

Lemma word_writeback G X k f : St V G X k -> 0 <= f < N -> HasWriteback (control (desc k f)) = c_writeback (g_ctl (G f)).
Proof.
  intros HS Hf. destruct (st_word_of K V G X f Hf k HS) as (w & -> & Hok & _). by rewrite HasWriteback_encode.
Qed.

Lemma word_dirty G X k f : St V G X k -> 0 <= f < N -> IsDirty (control (desc k f)) = c_dirty (g_ctl (G f)).
Proof. intros HS Hf. destruct (st_word_of K V G X f Hf k HS) as (w & -> & Hok & _). by rewrite IsDirty_encode. Qed.

Lemma wait_flush_spec G k f :
  St V G [] k -> 0 <= f < N ->
  wp (WaitForPendingFlush f) (fun _ => later G k (fun G' _ => c_writeback (g_ctl (G' f)) = false)) k.
Proof.
  intros HS Hf. unfold WaitForPendingFlush.
  eapply wp_seq; [apply (wait_while_spec G k f (fun _ => HasWriteback) HS Hf)|].
  - intros G1 k1 HS1 _ Hb. rewrite (word_writeback G1 [] k1 f HS1 Hf) in Hb. by eapply writeback_pending.
  - intros [] k1 (G1 & HS1 & He1 & Hb). apply wp_get.
    destruct (fo_error _ _ _ _ _ _ (st_frame _ _ _ _ _ _ HS1 Hf)) as [s ->]. exists G1. split; [done|]. split; [done|].
    by rewrite <- (word_writeback G1 [] k1 f HS1 Hf).
Qed.

(** ** Queueing a writeback *)

(** The task made from frame [f]. *)
Definition task_of (g : ginfo) (f : Z) (id : nat) (own : bool) : flush_task :=
  FlushTask id f (g_tag g) true own (g_page g).

Definition queueable (g : ginfo) : Prop :=
  g_state g = kResident /\ c_dirty (g_ctl g) = true /\ c_writeback (g_ctl g) = false.

Definition queued_at (G : Z -> ginfo) (f : Z) : Z -> ginfo := upd_ctl G f (queued_ctl (g_ctl (G f))).

Lemma tasks_new G X k f t g' :
  Inv V G X k -> c_writeback (g_ctl (G f)) = false -> task_frame t = f -> task_ok V g' t ->
  tasks_step V X (t :: X) k f g'.
Proof.
  intros HI Ew Et Hok. destruct (i_tasks V G X k HI) as [Hnd Hall].
  assert (f ∉ task_frame <$> all_tasks X k) as Hni.
  { intros Hin. apply list_elem_of_fmap in Hin as (u & -> & Hu). destruct (Hall u Hu) as [_ [_ J _ _ _]]. congruence. }
  assert (all_tasks (t :: X) k ≡ₚ t :: all_tasks X k) as Hp by (unfold all_tasks; by rewrite Permutation_middle).
  split.
  - rewrite Hp. cbn. rewrite Et. by apply list.NoDup_cons.
  - intros u Hu. rewrite Hp in Hu. apply elem_of_cons in Hu as [->|Hu]; [by right|]. left. split; [|done].
    intros E. apply Hni. rewrite <- E. by apply list_elem_of_fmap_2.
  - intros u Hu _. rewrite Hp. by right.
  - intros _. exists t. rewrite Hp. split; [by left|done].
Qed.

Lemma queue_word G X k f skip :
  St V G X k -> 0 <= f < N ->
  exists o k1, on_word f (TryQueueWriteback skip) k = Some (o, k1) /\ touched f k k1 /\
    match o with
    | kPending => St V G X k1 /\ c_writeback (g_ctl (G f)) = true
    | kNotDirty => St V G X k1 /\ c_dirty (g_ctl (G f)) = false
    | kPinned => St V G X k1 /\ skip = true
    | kQueued => queueable (G f) /\ dirty_page_count k1 = dirty_page_count k /\
        exists w, desc k1 f = set_control (encode (set_waiters w (queued_ctl (g_ctl (G f))))) (desc k f)
    end.
Proof.
  intros HS Hf. destruct (st_word_of K V G X f Hf k HS) as (w & Ew & Hok & _). set (c := g_ctl (G f)) in *.
  destruct (TryQueueWriteback_encode _ Hok skip) as [Eb _].
  rewrite (on_word_run _ (queue_ctl skip) id k f _ Ew Eb). unfold queue_ctl, c_is.
  change (c_writeback (set_waiters w c)) with (c_writeback c). cbn [set_waiters c_state c_dirty c_pins].
  pose proof (st_same_word K V G X k f _ HS Ew) as HSw.
  pose proof (st_frame _ _ _ _ _ _ HS Hf) as Fo.
  destruct (c_writeback c) eqn:Ewb; [by eexists _, _; split; [done|]; split; [apply touched_desc|]|].
  case_bool_decide as Es; cbn [negb orb].
  - destruct (c_dirty c) eqn:Ed; cbn [negb]; [|by eexists _, _; split; [done|]; split; [apply touched_desc|]].
    destruct (skip && _) eqn:Esk.
    + apply andb_true_iff in Esk as [-> _]. by eexists _, _; split; [done|]; split; [apply touched_desc|].
    + eexists _, _. split; [done|]. split; [apply touched_desc|]. split; [done|]. split; [done|].
      exists w. cbn. by rewrite fn_lookup_insert.
  - eexists _, _. split; [done|]. split; [apply touched_desc|]. split; [done|].
    destruct (c_state c) eqn:Ec; [by apply (fo_free _ _ _ _ _ _ Fo)|by apply (fo_loading _ _ _ _ _ _ Fo)|done].
Qed.

(** What the loop of [PrepareFlushTask] ends with. *)
Definition prepared (f : Z) (G : Z -> ginfo) (k : kernel) (opp owned : bool)
    (r : Result (option (BufferTag * page)) * bool) (k' : kernel) : Prop :=
  match r with
  | (Err _, _) => later G k (fun _ _ => True) k'
  | (Ok None, busy) => later G k (fun G' _ => busy = false -> c_dirty (g_ctl (G' f)) = false) k' /\
      (busy = true -> opp = true \/ owned = true)
  | (Ok (Some (tag, snapshot)), busy) => busy = false /\ exists G1, evo G k G1 k' /\ queueable (G1 f) /\
      tag = g_tag (G1 f) /\ snapshot = g_page (G1 f) /\
      forall id own, St V (queued_at G1 f) [task_of (G1 f) f id own] k'
  end.

(** The queued writeback with its descriptor fields and its task. *)
Lemma queued_desc G k k1 k4 f w :
  St V G [] k -> 0 <= f < N -> queueable (G f) -> touched f k k1 -> touched f k1 k4 ->
  desc k1 f = set_control (encode (set_waiters w (queued_ctl (g_ctl (G f))))) (desc k f) ->
  control (desc k4 f) = control (desc k1 f) -> d_tag (desc k4 f) = d_tag (desc k1 f) ->
  last_writeback_error (desc k4 f) = 0 -> dirty_page_count k4 = dirty_page_count k ->
  forall id own, St V (queued_at G f) [task_of (G f) f id own] k4.
Proof.
  intros HS Hf (Es & Ed & Ew) Ht1 Ht4 E1 Ec Eg Ee Edc id own.
  pose proof (st_frame _ _ _ _ _ _ HS Hf) as [F1 F2 F3 F4 F5 F6 F7 F8].
  destruct (F8 Es) as (R1 & R2 & R3 & R4 & R5). unfold g_state in Es.
  eapply (st_rewritten K V G [] _ k k4 f _ w HS Hf); try done.
  - by eapply touched_trans.
  - by rewrite Ec, E1.
  - by rewrite Eg, E1.
  - rewrite Ee. by exists (Ok tt).
  - rewrite Edc. cbn. lia.
  - apply (tasks_new G []); try done. by eapply st_inv.
Qed.

Lemma prepare_loop_spec G k f stable opp owned :
  St V G [] k -> 0 <= f < N -> stable = None \/ stable = Some f ->
  wp (prepare_loop f stable opp owned) (prepared f G k opp owned) k.
Proof.
  intros HS Hf Hst. unfold prepare_loop.
  refine (wp_loop (fun _ k1 => later G k (fun _ _ => True) k1)
    (fun _ k1 => if HasWriteback (control (desc k1 f)) then 1%nat else 0%nat) _ _ _ _ k _ _ _);
    [|exists G; split; [done|]; split; [apply evo_refl|done]|unfold wait_fuel; destruct (HasWriteback _); lia].
  intros [] k0 (G0 & HS0 & He0 & _). destruct (queue_word G0 [] k0 f owned HS0 Hf) as (o & k1 & E1 & Ht1 & Ho).
  apply wp_bind. eapply wp_run; [exact E1|].
  assert (evo G k G0 k1) as He1.
  { destruct Ht1 as ((_ & _ & _ & _ & _ & S6 & _ & _) & _ & _ & S11 & S12 & _). destruct He0 as [A1 A2 A3 A4 A5].
    split; unfold task_done, queued_tasks in *; rewrite ?S6, ?S11, ?S12; done. }
  destruct o.
  - destruct Ho as (Hq & Edc & w & Ed1). apply wp_bind.
    apply (wp_run _ _ _ tt (set_desc (<[f := set_error 0 (desc k1 f)]> (desc k1)) k1)); [done|]. set (k2 := set_desc _ k1).
    apply wp_modify. set (k3 := set_desc _ k2). apply wp_bind.
    apply (wp_run _ _ _ tt (set_desc (<[f := set_rec_lsn kInvalidLsn (desc k3 f)]> (desc k3)) k3)); [done|]. set (k4 := set_desc _ k3).
    do 2 apply wp_get. cbn [wp ret prepared]. split; [done|]. exists G0.
    assert (desc k4 f = set_rec_lsn kInvalidLsn (set_writeback_rec_lsn (rec_lsn (desc k1 f)) (set_error 0 (desc k1 f)))) as Ed4.
    { cbn. rewrite !fn_lookup_insert. done. }
    assert (touched f k1 k4) as Ht4.
    { eapply touched_trans; [apply touched_desc|]. eapply touched_trans; apply touched_desc. }
    split; [by destruct He1; split|]. split; [done|]. split; [|split].
    + rewrite Ed4. cbn. rewrite Ed1. cbn. apply (fo_tag _ _ _ _ _ _ (st_frame _ _ _ _ _ _ HS0 Hf)).
      destruct Hq as (-> & _). done.
    + assert (default f stable = f) as -> by (by destruct Hst as [->| ->]).
      cbn [k4 k3 k2 frame_data set_desc].
      destruct Ht1 as (_ & -> & _). apply (fo_page _ _ _ _ _ _ (st_frame _ _ _ _ _ _ HS0 Hf)).
    + apply (queued_desc G0 k0 k1 k4 f w); try done; rewrite ?Ed4; done.
  - destruct Ho as (HS1 & Hd). cbn [wp ret prepared]. split; [|done]. by exists G0.
  - destruct Ho as (HS1 & Hw). destruct (_ && opp) eqn:Eopp.
    + apply andb_true_iff in Eopp as [_ ->]. cbn [wp ret prepared]. split; [|by left]. by exists G0.
    + eapply wp_seq; [by apply (wait_flush_spec G0 k1 f)|]. intros s k2 (G2 & HS2 & He2 & Hw2).
      pose proof (evo_trans _ _ _ _ _ _ He1 He2) as He.
      destruct s as [[]|e]; cbn [wp ret].
      * split; [by exists G2|]. rewrite (word_writeback G2 [] k2 f HS2 Hf), (word_writeback G0 [] k0 f HS0 Hf), Hw, Hw2. lia.
      * by exists G2.
  - destruct Ho as (HS1 & Hs). cbn [wp ret prepared]. split; [by exists G0|]. by right.
Qed.

(** ** Holding the shared latch meanwhile *)

Definition share (d : Z) (G : Z -> ginfo) (f : Z) : Z -> ginfo :=
  upd_ctl G f (set_shared (c_shared (g_ctl (G f)) + d) (g_ctl (G f))).

Definition shared_by (d : Z) (g : ginfo) : ginfo := with_ctl (set_shared (c_shared (g_ctl g) + d) (g_ctl g)) g.

Lemma shared_by_back g : shared_by (-1) (shared_by 1 g) = g.
Proof.
  destruct g as [[st d q a p r x sh wt pn] o t pg]. unfold shared_by, with_ctl, set_shared. cbn.
  by replace (sh + 1 + -1) with sh by lia.
Qed.

Lemma evolved_unshare g g1 :
  evolved (shared_by 1 g) g1 -> evolved g (shared_by (-1) g1).
Proof.
  intros [A1 A2 A3 A4]. unfold g_state in *. split; unfold g_state in *.
  - intros E. destruct (A1 E) as (E1 & E2 & E3 & E4 & E5 & E6 & E7). cbn in *. split_and!; try congruence. lia.
  - intros E. rewrite (A2 E). apply shared_by_back.
  - intros E. destruct (A3 E) as [->|(E1 & E2 & E3 & E4 & E5 & E6 & E7)]; [left; apply shared_by_back|].
    right. cbn in *. split_and!; try done. lia.
  - done.
Qed.

Lemma evo_touched G (k : kernel) G1 k1 f k0 k2 :
  evo G k G1 k1 -> touched f k0 k -> touched f k1 k2 -> evo G k0 G1 k2.
Proof.
  intros [A1 A2 A3 A4 A5] ((_ & _ & _ & _ & _ & S6 & _ & _) & _ & _ & S11 & S12 & _)
    ((_ & _ & _ & _ & _ & U6 & _ & _) & _ & _ & U11 & U12 & _).
  unfold queued_tasks, task_done in *. split; unfold queued_tasks, task_done in *;
    rewrite ?U6, ?U11, ?U12; rewrite ?S6, ?S11, ?S12 in *; done.
Qed.

Lemma evo_unshare G (k : kernel) G1 k1 f : evo (share 1 G f) k G1 k1 -> evo G k (share (-1) G1 f) k1.
Proof.
  intros [A1 A2 A3 A4 A5]. unfold share in *. split; try done.
  - intros h. specialize (A1 h). destruct (decide (h = f)) as [->|Hne].
    + rewrite upd_ctl_eq in *. by apply evolved_unshare.
    + by rewrite !upd_ctl_ne in * by done.
  - intros t Ht. destruct (A4 t Ht) as [[Ht' E]|(s & Es & Hs)]; destruct (decide (task_frame t = f)) as [<-|Hne].
    + left. split; [done|]. rewrite upd_ctl_eq in *. rewrite E. apply shared_by_back.
    + left. split; [done|]. by rewrite upd_ctl_ne in * by done.
    + right. exists s. split; [done|]. rewrite upd_ctl_eq in *. done.
    + right. exists s. split; [done|]. by rewrite upd_ctl_ne in * by done.
Qed.

Lemma share_pos G (k : kernel) G1 k1 f :
  evo (share 1 G f) k G1 k1 -> 0 <= c_shared (g_ctl (G f)) -> 0 < c_shared (g_ctl (G1 f)).
Proof.
  intros He Hsh. pose proof (e_frames _ _ _ _ He f) as [A1 A2 A3 _]. unfold share in *. rewrite upd_ctl_eq in *.
  destruct (g_state (G f)) eqn:Es; unfold g_state in *.
  - rewrite (A2 Es). cbn. lia.
  - destruct (A3 Es) as [->|(_ & _ & _ & _ & _ & -> & _)]; cbn; lia.
  - destruct (A1 Es) as (_ & _ & _ & _ & _ & -> & _). cbn. lia.
Qed.

Lemma evo_release G (k : kernel) G1 k1 k2 f : evo (share 1 G f) k G1 k1 -> touched f k1 k2 -> evo G k (share (-1) G1 f) k2.
Proof. intros He Ht. eapply (evo_touched _ k _ k1 f); [by apply evo_unshare|apply touched_refl|done]. Qed.

(** Dropping the latch after the loop. *)
Lemma prepared_release G k f opp owned r k1 :
  0 <= f < N -> 0 <= c_shared (g_ctl (G f)) -> prepared f (share 1 G f) k opp owned r k1 ->
  wp (on_word f ReleaseShared) (fun _ => prepared f G k opp owned r) k1.
Proof.
  intros Hf Hsh Hp.
  assert (forall P : ginfo -> Prop, (forall g, P g -> P (shared_by (-1) g)) ->
    later (share 1 G f) k (fun G' _ => P (G' f)) k1 ->
    wp (on_word f ReleaseShared) (fun _ => later G k (fun G' _ => P (G' f))) k1) as Hlat.
  { intros P HP (G1 & HS1 & He1 & HP1).
    eapply wp_mono; [apply (release_shared_spec K V G1 [] f Hf k1 HS1); by eapply share_pos|].
    intros w k2 [Ht2 HS2]. exists (share (-1) G1 f). split; [exact HS2|]. split; [by eapply evo_release|].
    unfold share. rewrite upd_ctl_eq. by apply HP. }
  destruct r as [[[[tag snapshot]|]|e] busy]; cbn [prepared] in *.
  - destruct Hp as (-> & G1 & He1 & (Q1 & Q2 & Q3) & -> & -> & HS1).
    pose proof (share_pos _ _ _ _ _ He1 Hsh) as Hpos.
    eapply wp_mono with (Q := fun _ k2 => touched f k1 k2 /\ forall p : nat * bool,
      St V (upd_ctl (queued_at G1 f) f (set_shared (c_shared (g_ctl (G1 f)) - 1) (g_ctl (queued_at G1 f f))))
        [task_of (G1 f) f p.1 p.2] k2).
    { apply (wp_forall (0%nat, false)). intros [id own].
      pose proof (release_shared_spec K V (queued_at G1 f) _ f Hf k1 (HS1 id own)) as Hr.
      unfold queued_at in Hr at 1 3. rewrite upd_ctl_eq in Hr. specialize (Hr Hpos).
      eapply wp_mono; [exact Hr|]. intros w k2 [Ht2 HS2]. split; [done|]. exact HS2. }
    intros w k2 [Ht2 HS2]. split; [done|]. exists (share (-1) G1 f). split; [by eapply evo_release|].
    unfold share at 1 2 3. rewrite !upd_ctl_eq. split; [done|]. split; [done|]. split; [done|].
    intros id own. eapply st_ghost_ext; [|intros h]. 
    + unfold share at 1. rewrite upd_ctl_eq. exact (HS2 (id, own)).
    + unfold queued_at, share. destruct (decide (h = f)) as [->|Hne]; [by rewrite !upd_ctl_eq|by rewrite !upd_ctl_ne].
  - destruct Hp as [Hl Hb]. eapply wp_mono; [apply (Hlat (fun g => busy = false -> c_dirty (g_ctl g) = false)); [done|exact Hl]|].
    intros w k2 Hl2. done.
  - apply (Hlat (fun _ => True)); done.
Qed.

Lemma prepare_spec G k f stable opp owned :
  St V G [] k -> 0 <= f < N -> stable = None \/ stable = Some f ->
  (stable = None -> opp = false -> c_excl (g_ctl (G f)) = false /\ c_shared (g_ctl (G f)) < kMaxShared) ->
  wp (PrepareFlushTask f stable opp owned) (prepared f G k opp owned) k.
Proof.
  intros HS Hf Hst Hl. unfold PrepareFlushTask. destruct stable as [x|]; [by apply prepare_loop_spec|].
  destruct (fo_ctl _ _ _ _ _ _ (st_frame _ _ _ _ _ _ HS Hf)) as [Hsh _].
  assert (forall k1, touched f k k1 -> St V (share 1 G f) [] k1 ->
    wp (bind (prepare_loop f None opp owned) (fun r => bind (on_word f ReleaseShared) (fun _ => ret r)))
       (prepared f G k opp owned) k1) as Hrest.
  { intros k1 Ht1 HS1. eapply wp_seq; [by apply prepare_loop_spec|]. intros r k2 Hp.
    eapply wp_seq; [apply (prepared_release G k1 f opp owned r k2 Hf ltac:(lia) Hp)|]. intros w k3 Hp3. cbn [wp ret].
    assert (forall G' k', evo G k1 G' k' -> evo G k G' k') as Hev.
    { intros G' k' He. eapply (evo_touched _ k1 _ k' f); [done|done|apply touched_refl]. }
    unfold wp, ret. destruct r as [[[[tag snapshot]|]|e] busy]; cbn [prepared] in *.
    - destruct Hp3 as (-> & G1 & He & HH). split; [done|]. exists G1. by split; [apply Hev|].
    - destruct Hp3 as [(G1 & HS' & He & HH) Hb]. split; [|done]. exists G1. split; [done|]. by split; [apply Hev|].
    - destruct Hp3 as (G1 & HS' & He & HH). exists G1. split; [done|]. by split; [apply Hev|]. }
  destruct opp; cbn [negb].
  - eapply wp_seq; [by apply (try_shared_spec K V G [] f Hf)|]. intros [] k1 [Ht1 Hk1]; cbn [negb].
    + destruct Hk1 as (_ & _ & HS1). by apply Hrest.
    + destruct Hk1 as [_ HS1]. cbn [wp ret prepared]. split; [|by left]. exists G. split; [done|].
      split; [|done]. eapply (evo_touched _ k _ k f); [apply evo_refl|apply touched_refl|done].
  - destruct (Hl eq_refl eq_refl). eapply wp_seq; [by apply (acquire_shared_spec K V G [] f Hf)|].
    intros [] k1 [Ht1 HS1]. by apply Hrest.
Qed.

End Writeback.
