(* ===== verification/KernelRound.v ===== *)
(** Flush tasks from creation to completion: rolling back, queueing, writing
    directly, and the foreground flush that leaves a page clean. *)
From S2P Require Import Prelude Status CasLoop FrameControl Layout Replacer FlushScheduler Cleaner Interfaces.
From S2P Require Import Kernel Manager KernelInv KernelOps KernelFlush KernelWait KernelFrames KernelProgress.
From S2P Require Import KernelWriteback.

Section Round.
Context {T F R B : Type} `{FrameTableLaws T} `{FreeFramesLaws F} `{ReplacerLaws R} `{BackendLaws B} {SC : Scope}.
Local Abbreviation kernel := (kernel T F R B).
Local Abbreviation M := (@M T F R B).
Context (K : config).
Local Abbreviation N := (pool_size K).
Local Abbreviation St := (St K).
Context (V : BufferTag -> page).
Local Abbreviation later := (later K V).

(** A change at a frame without queued task. *)
Lemma evo_at G (k : kernel) G' k' f :
  (forall h, h <> f -> G' h = G h) -> evolved (G f) (G' f) -> (forall t, t ∈ queued_tasks k -> task_frame t <> f) ->
  (forall t, t ∈ queued_tasks k -> t ∈ queued_tasks k') -> completed k' = completed k -> (next_task k <= next_task k')%nat ->
  sched_shutdown (sched k') = sched_shutdown (sched k) -> evo G k G' k'.
Proof.
  intros Ho Hf Hq Hin Ec En Es. split; try done.
  - intros h. destruct (decide (h = f)) as [->|Hne]; [done|]. rewrite Ho by done. apply evolved_refl.
  - intros i s. by rewrite Ec.
  - intros t Ht. left. split; [by apply Hin|]. apply Ho. by apply Hq.
Qed.

Lemma queued_frames G X k t u : St V G X k -> t ∈ X -> u ∈ queued_tasks k -> task_frame u <> task_frame t.
Proof.
  intros HS Ht Hu E. destruct (i_tasks V G X k (st_inv _ _ _ _ _ HS)) as [Hnd _]. unfold all_tasks in Hnd.
  rewrite fmap_app in Hnd. apply list.NoDup_app in Hnd as (_ & Hd & _). apply (Hd (task_frame u)).
  - by apply list_elem_of_fmap_2.
  - rewrite E. by apply list_elem_of_fmap_2.
Qed.

(** *** Changes of the flags of a queued frame *)

Lemma evolved_flags g c' :
  g_state g = kResident -> c_state c' = kResident -> c_excl c' = c_excl (g_ctl g) -> c_shared c' = c_shared (g_ctl g) ->
  c_pins c' = c_pins (g_ctl g) -> (c_dirty (g_ctl g) = false -> c_dirty c' = false) -> evolved g (with_ctl c' g).
Proof.
  intros Es Es' Ex Esh Ep Hd. split; unfold g_state in *; try congruence; [|done]. intros _. by split_and!.
Qed.

Lemma upd_upd G f c c' h : upd_ctl (upd_ctl G f c) f c' h = upd_ctl G f c' h.
Proof.
  unfold upd_ctl. destruct (decide (h = f)) as [->|Hne]; [by rewrite !fn_lookup_insert|by rewrite !fn_lookup_insert_ne].
Qed.

Lemma st_upd_upd G f c c' X k : St V (upd_ctl (upd_ctl G f c) f c') X k -> St V (upd_ctl G f c') X k.
Proof. intros HS. eapply st_ghost_ext; [exact HS|]. intros h. symmetry. apply upd_upd. Qed.

(** ** Rolling back *)

Lemma rollback_spec G k f t owned status :
  St V (queued_at G f) [t] k -> 0 <= f < N -> queueable (G f) -> task_frame t = f ->
  wp (RollBackFlushTask f owned status) (fun s k' => s = status /\ later G k (fun _ _ => True) k') k.
Proof.
  intros HS Hf (Es & Ed & Ew) Et. unfold RollBackFlushTask.
  eapply wp_seq with (Q := fun _ k1 => aside k k1).
  { destruct owned; [apply on_cleaner_aside|apply aside_refl]. }
  intros [] k1 Ha. pose proof (st_aside _ _ _ _ _ _ Ha HS) as HS1. set (e := PackWritebackError status).
  apply wp_bind. apply (wp_run _ _ _ tt (set_desc (<[f := set_error e (desc k1 f)]> (desc k1)) k1)); [done|].
  pose proof (desc_step_error f e k1) as Hs0. set (k2 := set_desc _ k1) in *. apply wp_get.
  eapply wp_seq; [by apply (desc_step_lower f e k1 k2)|]. intros [] k3 (Ht3 & Ed3 & Ec3 & Eg3 & Ee3).
  set (c := g_ctl (G f)) in *. set (G1 := queued_at G f) in *.
  assert (g_ctl (G1 f) = queued_ctl c) as Ec1 by (unfold G1, queued_at; by rewrite upd_ctl_eq).
  destruct (st_word_of K V G1 [t] f Hf k1 HS1) as (w & Ew1 & Hok & Hc). rewrite Ec1 in Ew1, Hok, Hc.
  destruct (CancelQueuedWriteback_encode _ Hok) as [Eb _]. apply wp_bind. unfold wp at 1.
  rewrite (on_word_run _ cancel_ctl encode k3 f (set_waiters w (queued_ctl c))) by (try done; congruence).
  unfold cancel_ctl, wake_all. set (w4 := encode _). set (k4 := set_desc _ k3). cbn [wp ret]. split; [done|].
  assert (w4 = encode (set_waiters false (cancelled_ctl (queued_ctl c)))) as Ew4 by (subst w4; by destruct w).
  assert (c_active c = false) as Eac by (unfold c_writeback in Ew; by apply orb_false_iff in Ew as [_ ?]).
  assert (St V (upd_ctl G1 f (cancelled_ctl (queued_ctl c))) [] k4) as HS4.
  { apply (st_rewritten K V G1 [t] [] k1 k4 f _ false HS1 Hf); try done.
    - eapply touched_trans; [exact Ht3|apply touched_desc].
    - cbn. rewrite fn_lookup_insert. cbn. exact Ew4.
    - cbn. rewrite fn_lookup_insert. cbn. exact Eg3.
    - cbn. rewrite fn_lookup_insert. cbn. rewrite Ee3. destruct (unpack_pack status) as (r & Er & _). by exists r.
    - by rewrite Ec1.
    - by rewrite Ec1.
    - cbn. fold c. congruence.
    - rewrite Ec1. cbn. change (dirty_page_count k4) with (dirty_page_count k3). rewrite Ed3. lia.
    - rewrite <- Et. apply (tasks_done K V G1); [done|]. cbn. unfold c_writeback. cbn. done. }
  exists (upd_ctl G f (cancelled_ctl (queued_ctl c))). split; [by eapply st_upd_upd|]. split; [|done].
  pose proof (touched_held _ _ _ (touched_trans f _ _ _ (aside_touched f _ _ Ha) Ht3)) as (_ & Hsc & _ & Hcp & Hnx).
  apply (evo_at _ _ _ _ f).
  - intros h Hne. by apply upd_ctl_ne.
  - rewrite upd_ctl_eq. by apply evolved_flags.
  - intros u Hu. rewrite <- Et. eapply queued_frames; [exact HS|by left|done].
  - intros u. unfold queued_tasks. change (sched k4) with (sched k3). by rewrite Hsc.
  - exact Hcp.
  - change (next_task k4) with (next_task k3). by rewrite Hnx.
  - change (sched k4) with (sched k3). by rewrite Hsc.
Qed.

(** ** Creating a task *)

Definition created (f : Z) (G : Z -> ginfo) (k : kernel) (opp owned : bool)
    (r : Result (option flush_task) * bool) (k' : kernel) : Prop :=
  match r with
  | (Err _, _) => later G k (fun _ _ => True) k'
  | (Ok None, busy) => later G k (fun G' _ => busy = false -> c_dirty (g_ctl (G' f)) = false) k' /\
      (busy = true -> opp = true \/ owned = true)
  | (Ok (Some t), busy) => busy = false /\ task_frame t = f /\ exists G1, evo G k G1 k' /\ queueable (G1 f) /\
      St V (queued_at G1 f) [t] k' /\ ids_ok (t :: queued_tasks k') k'
  end.

(** The caller may latch the frame, or holds a handle on it. *)
Definition flushable (G : Z -> ginfo) (f : Z) (stable : option Z) (opp : bool) : Prop :=
  (stable = None \/ stable = Some f) /\
  (stable = None -> opp = false -> c_excl (g_ctl (G f)) = false /\ c_shared (g_ctl (G f)) < kMaxShared).

Lemma create_spec G k f stable opp owned :
  St V G [] k -> 0 <= f < N -> flushable G f stable opp ->
  wp (CreateFlushTask f stable opp owned) (created f G k opp owned) k.
Proof.
  intros HS Hf [Hst Hl]. unfold CreateFlushTask. apply wp_get. rewrite (st_cfg _ _ _ _ _ HS).
  destruct (Z.leb_spec N f); [lia|].
  eapply wp_seq; [by apply (prepare_spec K V G k f stable opp owned)|].
  intros [[[[tag snap]|]|e] busy] k1; cbn [prepared]; [|done|done].
  intros (-> & G1 & He1 & Hq & -> & -> & HS1). apply wp_get, wp_modify.
  set (k2 := set_tasks (completed k1) (S (next_task k1)) k1). set (id := next_task k1).
  set (t := FlushTask id f (g_tag (G1 f)) true owned (g_page (G1 f))).
  destruct (i_ids V _ _ k1 (st_inv _ _ _ _ _ (HS1 id owned))) as (Hnd & Hall & Hcp).
  assert (ids_ok (t :: queued_tasks k2) k2) as Hi2.
  { split; [|split].
    - cbn. apply list.NoDup_cons. split; [|done]. intros Hin. apply list_elem_of_fmap in Hin as (u & Eu & Hu).
      destruct (Hall u Hu) as [Hlt _]. subst id. lia.
    - intros u Hu. apply elem_of_cons in Hu as [->|Hu].
      + cbn. split; [subst id; lia|]. destruct (completed k1 !! id) eqn:Ec; [|done]. apply Hcp in Ec. subst id. lia.
      + cbn. destruct (Hall u Hu). split; [lia|done].
    - intros i s Hi. cbn in *. apply Hcp in Hi. lia. }
  assert (St V (queued_at G1 f) [t] k2) as HS2.
  { apply st_tasks; [apply (HS1 id owned)|]. eapply ids_ok_submseteq; [exact Hi2|].
    apply submseteq_cons, (reflexivity (queued_tasks k1)). }
  assert (evo G k G1 k2) as He2.
  { destruct He1. split; try done. cbn. lia. }
  assert (created f G k opp owned (Ok (Some t), false) k2) as Hok.
  { split; [done|]. split; [done|]. by exists G1. }
  apply wp_get. destruct (pre_write_hook (cfg k2)) as [h|]; [|done]. destruct (h _ _) as [[]|e]; [done|].
  eapply wp_seq; [by apply (rollback_spec G1 k2 f t owned)|]. intros s k3 [-> Hl3]. cbn [wp ret created].
  by eapply later_trans.
Qed.

(** ** Queueing it *)

Lemma enqueue_spec G k t :
  St V G [t] k -> ids_ok (t :: queued_tasks k) k ->
  wp (EnqueueFlushTask t) (fun s k' => completed k' = completed k /\ next_task k' = next_task k /\
    sched_shutdown (sched k') = sched_shutdown (sched k) /\
    match s with
    | Ok _ => St V G [] k' /\ queued_tasks k' ≡ₚ t :: queued_tasks k
    | Err _ => St V G [t] k' /\ queued_tasks k' = queued_tasks k
    end) k.
Proof.
  intros HS Hi. unfold EnqueueFlushTask. eapply wp_seq with (Q := fun _ k1 => aside k k1).
  { destruct (task_cleaner_owned t); [apply on_cleaner_aside|apply aside_refl]. }
  intros [] k1 Ha. pose proof (st_aside _ _ _ _ _ _ Ha HS) as HS1.
  pose proof (touched_held _ _ _ (aside_touched 0 _ _ Ha)) as (_ & Hsc & _ & Hcp & Hnx).
  unfold wp, Enqueue. rewrite Hsc. destruct (sched_shutdown (sched k)) eqn:Esd.
  - rewrite <- Hsc. replace (set_sched (sched k1) k1) with k1 by (by destruct k1).
    rewrite Hsc. split_and!; try done. unfold queued_tasks. by rewrite Hsc.
  - assert (forall s, foreground_queue s ++ background_queue s ≡ₚ t :: queued_tasks k ->
      submit_batch_size s = submit_batch_size (sched k) ->
      St V G [] (set_sched s k1) /\ queued_tasks (set_sched s k1) ≡ₚ t :: queued_tasks k) as Hs.
    { intros s Hp Hb. split; [|done]. apply (st_sched K V G [t]); [done| | |].
      - unfold all_tasks. rewrite app_nil_r. unfold queued_tasks at 1. cbn. rewrite Hp.
        unfold queued_tasks. rewrite Hsc. apply Permutation_cons_append.
      - apply (ids_ok_ext _ k); [|done..]. eapply ids_ok_submseteq; [exact Hi|]. apply Permutation_submseteq. exact Hp.
      - rewrite Hb. apply (i_sched V G [t] k (st_inv _ _ _ _ _ HS)). }
    destruct (task_cleaner_owned t); cbn [completed next_task set_sched sched_shutdown sched set_queues];
      (split; [done|]); (split; [done|]); (split; [done|]); apply Hs; try done; cbn; unfold queued_tasks.
    + rewrite app_assoc. by rewrite <- Permutation_cons_append.
    + rewrite <- (Permutation_cons_append (foreground_queue (sched k))). done.
Qed.

(** What a scheduled task stands for. *)
Definition scheduled (f : Z) (G : Z -> ginfo) (k : kernel) (opp owned : bool)
    (r : Result (option flush_task) * bool) (k' : kernel) : Prop :=
  match r with
  | (Err _, _) => later G k (fun _ _ => True) k'
  | (Ok None, busy) => later G k (fun G' _ => busy = false -> c_dirty (g_ctl (G' f)) = false) k' /\
      (busy = true -> opp = true \/ owned = true)
  | (Ok (Some t), busy) => busy = false /\ task_frame t = f /\
      later G k (fun G' k' => t ∈ queued_tasks k' /\ c_redirtied (g_ctl (G' f)) = false /\ c_dirty (g_ctl (G f)) = true /\
        c_excl (g_ctl (G' f)) = c_excl (g_ctl (G f))) k'
  end.

(** A frame that got dirty enough to queue was dirty, and latched as before. *)
Lemma evolved_queueable g g1 : evolved g g1 -> queueable g1 -> g_own g = false \/ g_state g <> kLoading ->
  c_dirty (g_ctl g) = true /\ c_excl (g_ctl g1) = c_excl (g_ctl g).
Proof.
  intros [A1 A2 A3 A4] (Q1 & Q2 & Q3) Ho. split.
  - destruct (c_dirty (g_ctl g)) eqn:E; [done|]. rewrite A4 in Q2; congruence.
  - destruct (g_state g) eqn:Es; [by rewrite A2| |by apply A1].
    destruct (A3 eq_refl) as [->|(_ & _ & _ & _ & ? & _ & _)]; done.
Qed.

Lemma evo_queue G k G1 k1 f t k' :
  evo G k G1 k1 -> queueable (G1 f) -> St V (queued_at G1 f) [t] k1 -> task_frame t = f ->
  (forall u, u ∈ queued_tasks k1 -> u ∈ queued_tasks k') -> completed k' = completed k1 -> next_task k' = next_task k1 ->
  sched_shutdown (sched k') = sched_shutdown (sched k1) -> evo G k (queued_at G1 f) k'.
Proof.
  intros He (Q1 & Q2 & Q3) HS Et Hin Ec En Es. eapply evo_trans; [exact He|]. apply (evo_at _ _ _ _ f); try done.
  - intros h Hne. by apply upd_ctl_ne.
  - unfold queued_at. rewrite upd_ctl_eq. by apply evolved_flags.
  - intros u Hu. rewrite <- Et. eapply queued_frames; [exact HS|by left|done].
  - by rewrite En.
Qed.

Lemma schedule_spec G k f stable opp owned :
  St V G [] k -> 0 <= f < N -> flushable G f stable opp ->
  wp (TryScheduleFlushTask f stable opp owned) (scheduled f G k opp owned) k.
Proof.
  intros HS Hf Hfl. unfold TryScheduleFlushTask. eapply wp_seq; [by apply create_spec|].
  intros [[[t|]|e] busy] k1; cbn [created]; [|done|done].
  intros (-> & Et & G1 & He1 & Hq & HS1 & Hi1).
  eapply wp_seq; [by apply enqueue_spec|]. intros [[]|e] k2 (Ecp & Enx & Esd & Hs2).
  - destruct Hs2 as [HS2 Hp]. cbn [wp ret scheduled]. split; [done|]. split; [done|].
    exists (queued_at G1 f). split; [done|]. split.
    { eapply (evo_queue G k G1 k1 f t k2); try done. intros u Hu. rewrite Hp. by right. }
    split; [rewrite Hp; by left|]. unfold queued_at. rewrite upd_ctl_eq. split; [done|].
    destruct (evolved_queueable _ _ (e_frames _ _ _ _ He1 f) Hq) as [? ?]; [|done].
    destruct (g_state (G f)) eqn:Es; [by right| |by right]. left. destruct (g_own (G f)) eqn:Eo; [|done].
    destruct (ev_loading _ _ (e_frames _ _ _ _ He1 f) Es) as [E|(? & _)]; [|congruence].
    destruct Hq as (Hq & _). rewrite E in Hq. congruence.
  - destruct Hs2 as [HS2 Hq2].
    eapply wp_seq; [by apply (rollback_spec G1 k2 f t owned)|]. intros s k3 [-> Hl3]. cbn [wp ret scheduled].
    eapply (later_trans K V G k _ _ k2 k3 G1); [|exact Hl3|done].
    destruct He1 as [A1 A2 A3 A4 A5]. split; unfold task_done in *; rewrite ?Ecp, ?Enx, ?Esd, ?Hq2; done.
Qed.

(** ** Writing it directly *)

Lemma write_direct_spec G k f t :
  St V (queued_at G f) [t] k -> 0 <= f < N -> queueable (G f) -> task_frame t = f ->
  wp (WriteFlushTaskDirect t) (fun s => later G k (fun G' _ => has_value s = true ->
    c_excl (g_ctl (G f)) = false -> c_dirty (g_ctl (G' f)) = false)) k.
Proof.
  intros HS Hf (Q1 & Q2 & Q3) Et. unfold WriteFlushTaskDirect.
  eapply wp_seq; [apply (begin_spec K V (queued_at G f) [t] k t HS); by left|]. intros [] k1 [Ht1 HS1]. rewrite Et in Ht1, HS1.
  apply st_upd_upd in HS1.
  eapply wp_seq; [apply (write_block_spec K V _ [t] k1 t HS1); by left|]. intros s k2 (HS2 & Ek2 & _ & Hw2).
  eapply wp_seq; [apply (finalize_spec K V _ [] k2 t s HS2); exact Hw2|]. intros [] k3 [Ht3 HS3]. rewrite Et in Ht3, HS3. cbn [wp ret].
  apply st_upd_upd in HS3. rewrite upd_ctl_eq in HS3. cbn [with_ctl g_ctl] in HS3.
  eexists. split; [exact HS3|]. split.
  - pose proof (touched_held _ _ _ Ht1) as (_ & A2 & _ & A4 & A5). pose proof (touched_held _ _ _ Ht3) as (_ & B2 & _ & B4 & B5).
    assert (sched k2 = sched k1 /\ completed k2 = completed k1 /\ next_task k2 = next_task k1) as (C2 & C4 & C5) by (by rewrite Ek2).
    apply (evo_at _ _ _ _ f).
    + intros h Hne. by apply upd_ctl_ne.
    + rewrite upd_ctl_eq. apply evolved_flags; try done; unfold queued_at; rewrite ?upd_ctl_eq; cbn; (done || congruence).
    + intros u Hu. rewrite <- Et. eapply queued_frames; [exact HS|by left|done].
    + intros u. unfold queued_tasks. by rewrite B2, C2, A2.
    + congruence.
    + by rewrite B5, C5, A5.
    + by rewrite B2, C2, A2.
  - intros Hs Hx. rewrite upd_ctl_eq. unfold queued_at. rewrite upd_ctl_eq.
    cbn [with_ctl g_ctl done_ctl begun_ctl queued_ctl set_dirty c_dirty set_active set_queued set_redirtied].
    unfold clears_ctl, c_is. cbn. rewrite Hs, Q2, Hx. unfold g_state in Q1. by rewrite bool_decide_true.
Qed.

(** ** Foreground flushes *)

Lemma round_spec G k f stable :
  St V G [] k -> 0 <= f < N -> flushable G f stable false ->
  wp (ForegroundFlushRound f stable) (fun r => match r with
    | Err _ => later G k (fun _ _ => True)
    | Ok false => later G k (fun G' _ => c_dirty (g_ctl (G' f)) = false)
    | Ok true => later G k (fun G' _ => c_dirty (g_ctl (G f)) = true /\
                   (c_excl (g_ctl (G f)) = false -> c_dirty (g_ctl (G' f)) = false))
    end) k.
Proof.
  intros HS Hf Hfl. unfold ForegroundFlushRound. apply wp_get.
  destruct (bool_decide _).
  - eapply wp_seq; [by apply schedule_spec|]. intros [[[t|]|e] busy] k1; cbn [scheduled]; last done.
    + intros (-> & Et & G1 & HS1 & He1 & Hq & Hr & Hd & Hx).
      eapply wp_seq; [apply (wait_task_spec K V G1 k1 t HS1); by left|]. intros s k2 (G2 & HS2 & He2 & Ec).
      pose proof (evo_trans _ _ _ _ _ _ He1 He2) as He. destruct s as [[]|e]; cbn [wp ret]; exists G2; split_and!; try done.
      intros Ex. rewrite <- Et. eapply (wait_task_done K V G1 k1 k2 G2 t (Ok tt)); rewrite ?Et; try done. congruence.
    + intros [Hl Hb]. cbn [wp ret]. destruct Hl as (G1 & HS1 & He1 & Hc). exists G1. split; [done|]. split; [done|].
      apply Hc. destruct busy; [|done]. by destruct (Hb eq_refl).
  - eapply wp_seq; [by apply create_spec|]. intros [[[t|]|e] busy] k1; cbn [created]; last done.
    + intros (-> & Et & G1 & He1 & Hq & HS1 & Hi1).
      eapply wp_seq; [by apply (write_direct_spec G1 k1 f t)|]. intros s k2 Hl2.
      assert (g_own (G f) = false \/ g_state (G f) <> kLoading) as Ho.
      { destruct (g_state (G f)) eqn:Es; [by right| |by right]. left. destruct (g_own (G f)) eqn:Eo; [|done].
        destruct (ev_loading _ _ (e_frames _ _ _ _ He1 f) Es) as [E|(? & _)]; [|congruence].
        destruct Hq as (Hq & _). rewrite E in Hq. congruence. }
      destruct (evolved_queueable _ _ (e_frames _ _ _ _ He1 f) Hq Ho) as [Hd Hx].
      destruct s as [[]|e]; cbn [wp ret]; (eapply later_trans; [exact He1|exact Hl2|]); [|done].
      intros G' k' Hc. split; [done|]. intros Ex. apply Hc; [done|congruence].
    + intros [Hl Hb]. cbn [wp ret]. destruct Hl as (G1 & HS1 & He1 & Hc). exists G1. split; [done|]. split; [done|].
      apply Hc. destruct busy; [|done]. by destruct (Hb eq_refl).
Qed.

(** Latches of a frame that nobody takes stay free. *)
Lemma evolved_latch g g' : evolved g g' -> c_excl (g_ctl g') = c_excl (g_ctl g) /\ c_shared (g_ctl g') = c_shared (g_ctl g).
Proof.
  intros [A1 A2 A3 A4]. destruct (g_state g) eqn:E.
  - by rewrite (A2 eq_refl).
  - destruct (A3 eq_refl) as [->|(_ & _ & _ & _ & ? & ? & _)]; done.
  - by destruct (A1 eq_refl) as (_ & _ & _ & _ & ? & ? & _).
Qed.

Lemma flushable_evo G (k : kernel) G' k' f stable opp : evo G k G' k' -> flushable G f stable opp -> flushable G' f stable opp.
Proof.
  intros He [Hs Hl]. split; [done|]. destruct (evolved_latch _ _ (e_frames _ _ _ _ He f)) as [-> ->]. done.
Qed.

(** A foreground flush ends, and when it reports success the page is clean. *)
Lemma run_foreground_spec G k f stable :
  St V G [] k -> 0 <= f < N -> flushable G f stable false -> c_excl (g_ctl (G f)) = false ->
  wp (RunForegroundFlush f stable) (fun r => match r with
    | Err _ => later G k (fun _ _ => True)
    | Ok _ => later G k (fun G' _ => c_dirty (g_ctl (G' f)) = false)
    end) k.
Proof.
  intros HS Hf Hfl Hx. unfold RunForegroundFlush.
  refine (wp_loop (fun _ k1 => later G k (fun _ _ => True) k1)
    (fun _ k1 => if IsDirty (control (desc k1 f)) then 1%nat else 0%nat) _ _ _ _ k _ _ _);
    [|exists G; split; [done|]; split; [apply evo_refl|done]|destruct (IsDirty _); lia].
  intros [] k1 (G1 & HS1 & He1 & _).
  eapply wp_seq; [apply (round_spec G1 k1 f stable HS1 Hf); by eapply flushable_evo|].
  intros [[]|e] k2 Hl; cbn [wp ret].
  - destruct Hl as (G2 & HS2 & He2 & Hd & Hc). split.
    + exists G2. split; [done|]. split; [by eapply evo_trans|done].
    + rewrite (word_dirty K V G2 [] k2 f HS2 Hf), (word_dirty K V G1 [] k1 f HS1 Hf), Hd, Hc; [lia|].
      by destruct (evolved_latch _ _ (e_frames _ _ _ _ He1 f)) as [-> _].
  - by eapply later_trans.
  - by eapply later_trans.
Qed.

Lemma flush_stable_spec G k f stable :
  St V G [] k -> 0 <= f < N -> flushable G f stable false -> c_excl (g_ctl (G f)) = false ->
  wp (FlushFrameWithStableSource f stable) (fun r => match r with
    | Err _ => later G k (fun _ _ => True)
    | Ok _ => later G k (fun G' _ => c_dirty (g_ctl (G' f)) = false)
    end) k.
Proof.
  intros HS Hf Hfl Hx. unfold FlushFrameWithStableSource. apply wp_get. rewrite (st_cfg _ _ _ _ _ HS).
  destruct (Z.leb_spec N f); [lia|]. by apply run_foreground_spec.
Qed.

End Round.
