(* ===== verification/KernelPin.v ===== *)
(** Pinning a page: finding a frame for it, reading it in, and the search for a
    victim that ends.

    A state is calm when no call holds a latch or owns a frame and every frame has
    at most one pin: the state a client finds that releases its handles.  It is
    poised when the running call owns some frames that wait to be read into. *)
From S2P Require Import Prelude Status CasLoop FrameControl Layout Replacer FlushScheduler Cleaner Interfaces.
From S2P Require Import Kernel Manager KernelInv KernelOps KernelFlush KernelWait KernelFrames KernelProgress.
From S2P Require Import KernelWriteback KernelRound.

Definition calm (g : ginfo) : Prop :=
  g_own g = false /\ c_excl (g_ctl g) = false /\ c_shared (g_ctl g) = 0 /\ 0 <= c_pins (g_ctl g) <= 1.

Lemma calm_evolved g g' : calm g -> ctl_ok (g_ctl g') -> evolved g g' -> calm g'.
Proof.
  intros (C1 & C2 & C3 & C4) Hok [A1 A2 A3 A4]. destruct Hok as [_ Hp]. unfold calm. destruct (g_state g) eqn:E.
  - rewrite (A2 eq_refl). split_and!; try done; lia.
  - destruct (A3 eq_refl) as [->|(_ & B2 & _ & _ & B5 & B6 & B7)]; [split_and!; try done; lia|].
    rewrite B2, B5, B6. split_and!; try done; lia.
  - destruct (A1 eq_refl) as (_ & B2 & _ & _ & B5 & B6 & B7). rewrite B2, B5, B6, B7. split_and!; try done; lia.
Qed.

Section Pin.
Context {T F R B : Type} `{FrameTableLaws T} `{FreeFramesLaws F} `{ReplacerLaws R} `{BackendLaws B} {SC : Scope}.
Local Abbreviation kernel := (kernel T F R B).
Local Abbreviation M := (@M T F R B).
Context (K : config).
Local Abbreviation N := (pool_size K).
Local Abbreviation St := (St K).
Context (V : BufferTag -> page).
Local Abbreviation later := (later K V).

Definition all_calm (G : Z -> ginfo) : Prop := forall f, 0 <= f < N -> calm (G f).

Lemma st_ctl_ok G X k f : St V G X k -> 0 <= f < N -> ctl_ok (g_ctl (G f)).
Proof. intros HS Hf. apply (st_frame _ _ _ _ _ _ HS Hf). Qed.

Lemma all_calm_evo G k G' X k' : all_calm G -> St V G' X k' -> evo G k G' k' -> all_calm G'.
Proof.
  intros Hc HS He f Hf. eapply calm_evolved; [by apply Hc|by eapply st_ctl_ok|apply He].
Qed.

(** The running call owns the frames [O], which wait to be read into as [J] says. *)
Definition poised (O : list Z) (J G : Z -> ginfo) : Prop := forall f, 0 <= f < N ->
  g_own (G f) = bool_decide (f ∈ O) /\ c_excl (g_ctl (G f)) = false /\ c_shared (g_ctl (G f)) = 0 /\
  0 <= c_pins (g_ctl (G f)) <= 1 /\ (f ∈ O -> G f = J f /\ g_state (J f) = kLoading).

Lemma poised_nil J G : poised [] J G <-> all_calm G.
Proof.
  split; intros Hp f Hf.
  - destruct (Hp f Hf) as (E & ? & ? & ? & _). split; [|done]. rewrite E. apply bool_decide_false, not_elem_of_nil.
  - destruct (Hp f Hf) as (E & ? & ? & ?). split; [|split_and!; try done; try lia; by intros ?%not_elem_of_nil].
    rewrite E. symmetry. apply bool_decide_false, not_elem_of_nil.
Qed.

Lemma poised_not_owned O J G f : poised O J G -> 0 <= f < N -> g_state (G f) <> kLoading -> f ∉ O.
Proof. intros Hp Hf Hs Hin. destruct (Hp f Hf) as (_ & _ & _ & _ & Hj). destruct (Hj Hin) as [E ?]. rewrite E in Hs. done. Qed.

Lemma evolved_own g g' : evolved g g' -> g_own g' = g_own g.
Proof.
  intros [A1 A2 A3 _]. destruct (g_state g) eqn:E.
  - by rewrite (A2 eq_refl).
  - destruct (A3 eq_refl) as [->|(? & ? & _)]; congruence.
  - by destruct (A1 eq_refl) as (_ & ? & _).
Qed.

Lemma poised_evo O J G k G' X k' : poised O J G -> St V G' X k' -> evo G k G' k' -> poised O J G'.
Proof.
  intros Hp HS He f Hf. destruct (Hp f Hf) as (Co & Cx & Cs & Cp & Cj). destruct (st_ctl_ok G' X k' f HS Hf) as [_ Hok].
  pose proof (e_frames _ _ _ _ He f) as Hev. pose proof (evolved_own _ _ Hev) as Eo. split; [by rewrite Eo|].
  destruct (evolved_latch _ _ Hev) as [-> ->]. split; [done|]. split; [done|]. destruct Hev as [A1 A2 A3 _].
  destruct (g_state (G f)) eqn:E.
  - by rewrite (A2 eq_refl).
  - destruct (A3 eq_refl) as [->|(Ho & _ & _ & _ & _ & _ & ?)]; [done|]. split; [lia|]. intros Hin.
    rewrite Ho in Co. by rewrite bool_decide_true in Co.
  - destruct (A1 eq_refl) as (_ & _ & _ & _ & _ & _ & ?). split; [lia|]. intros Hin. destruct (Cj Hin) as [EG ?]. congruence.
Qed.

Lemma evo_held G (k : kernel) G' k1 k2 : evo G k G' k1 -> held k1 k2 -> evo G k G' k2.
Proof.
  intros [A1 A2 A3 A4 A5] (_ & E2 & _ & E4 & E5). split; unfold task_done, queued_tasks in *; rewrite ?E2, ?E4, ?E5; done.
Qed.

(** A page no frame holds stays so while others work. *)
Lemma unheld_evo G (k : kernel) G' k' tag : evo G k G' k' -> unheld K G tag -> unheld K G' tag.
Proof.
  intros He Ha f Hf Hs. pose proof (e_frames _ _ _ _ He f) as [A1 A2 A3 _]. destruct (g_state (G f)) eqn:E.
  - rewrite (A2 eq_refl) in Hs. congruence.
  - destruct (A3 eq_refl) as [->|(_ & _ & _ & -> & _)]; apply Ha; congruence || done.
  - destruct (A1 eq_refl) as (_ & _ & -> & _). apply Ha; congruence || done.
Qed.

Lemma absent_evo G (k : kernel) G' k' tag : evo G k G' k' -> absent K G tag -> absent K G' tag.
Proof. intros He [Hs Hu]. split; [done|]. by eapply unheld_evo. Qed.

(** ** Choosing a frame *)

(** The words say what the frames are. *)
Lemma word_fields G X k f : St V G X k -> 0 <= f < N ->
  exists w, control (desc k f) = encode (set_waiters w (g_ctl (G f))) /\ ctl_ok (set_waiters w (g_ctl (G f))).
Proof. intros HS Hf. destruct (st_word_of K V G X f Hf k HS) as (w & ? & ? & _). by exists w. Qed.

Lemma st_replacer G X k r :
  St V G X k -> valid r -> frames r = frames (replacer k) -> (forall f, tracked r f <-> tracked (replacer k) f) ->
  St V G X (set_replacer r k).
Proof.
  intros (E & Ef & Ec & HI) Hv Hfr Ht. split; [done|]. split; [done|]. split; [done|].
  destruct HI as [I1 I2 I3 I4 I5 I6 I7 I8 I9 I10 I11 I12 I13 I14 I15 I16 I17 I18]. split; try done.
  - cbn. destruct I3 as [_ E3]. split; [done|]. rewrite Hfr. done.
  - intros f Hf. specialize (I4 f Hf). cbn. destruct I4 as [F1 F2 F3 F4 F5 F6 F7 F8]. split; try done.
    intros Es. destruct (F8 Es) as (? & ? & ?). rewrite Ht. done.
Qed.

Lemma pop_spec G k :
  St V G [] k -> let '(r, s) := pop_free (free k) in
  match r with
  | Some f => 0 <= f < N /\ g_state (G f) = kFree /\ St V (<[f := with_own true (G f)]> G) [] (set_free s k)
  | None => St V G [] (set_free s k) /\ forall f, 0 <= f < N -> g_state (G f) = kFree -> g_own (G f) = true
  end.
Proof.
  intros HS. pose proof (st_inv _ _ _ _ _ HS) as HI. destruct (i_free _ _ _ _ HI) as (l & Hl & Hnd & Hel).
  pose proof (pop_law (free k) l Hl) as Hp. destruct l as [|f l].
  - rewrite Hp. split; [by destruct k|]. intros f Hf Hs. destruct (g_own (G f)) eqn:E; [done|].
    exfalso. apply (not_elem_of_nil f), Hel. split; [by eapply st_pool|done].
  - destruct Hp as (s' & -> & Hl'). apply list.NoDup_cons in Hnd as [Hnf Hnd].
    destruct (proj1 (Hel f)) as (Hf & Hs & Ho); [by left|]. assert (0 <= f < N) as Hfn by (by apply (st_pool_iff K V G [] k f HS)).
    split; [done|]. split; [done|].
    eapply (st_update K V G [] []); [exact HS|done|..]; try done.
    + split; try done; split; done || apply HI.
    + cbn. rewrite (i_entry _ _ _ _ HI f Hf). done.
    + pose proof (st_frame _ _ _ _ _ _ HS Hfn) as [F1 F2 F3 F4 F5 F6 F7 F8]. split; try done.
      unfold g_state in *. cbn. intros; congruence.
    + unfold g_state in *. cbn. intros; congruence.
    + cbn. lia.
    + apply (tasks_none V G); [done|..]; by apply (fo_free _ _ _ _ _ _ (st_frame _ _ _ _ _ _ HS Hfn)).
    + exists l. split; [done|]. split; [done|]. intros h. destruct (decide (h = f)) as [->|Hne].
      * rewrite fn_lookup_insert. cbn. split; [done|by intros (_ & _ & ?)].
      * rewrite fn_lookup_insert_ne by done. split; [intros Hin; apply Hel; by right|].
        intros Hh. apply Hel in Hh. by apply elem_of_cons in Hh as [?|?].
    + apply loads_ok_other; [eapply loads_ok_ext; [apply HI|done..]|..]; unfold g_state in *; cbn; intros [? ?]; congruence.
Qed.

(** A frame [Victim] may nominate: resident, unpinned, unlatched, not being written. *)
Definition evictable (g : ginfo) : Prop := g_state g = kResident /\ reservable_ctl (g_ctl g) = true.

Lemma evictable_word G X k f : St V G X k -> 0 <= f < N -> IsEvictable k f = true <-> evictable (G f).
Proof.
  intros HS Hf. unfold IsEvictable. rewrite (st_cfg _ _ _ _ _ HS). destruct (Z.leb_spec N f); [lia|].
  destruct (word_fields G X k f HS Hf) as (w & -> & Hok). rewrite IsResident_encode, Pins_encode, any_bit_lor, any_latch, any_writeback by done.
  unfold evictable, reservable_ctl, g_state, c_is. change (c_state (set_waiters w (g_ctl (G f)))) with (c_state (g_ctl (G f))).
  change (c_pins (set_waiters w (g_ctl (G f)))) with (c_pins (g_ctl (G f))).
  change (c_latched (set_waiters w (g_ctl (G f)))) with (c_latched (g_ctl (G f))).
  change (c_writeback (set_waiters w (g_ctl (G f)))) with (c_writeback (g_ctl (G f))).
  case_bool_decide; cbn [negb orb]; [|split; [done|by intros [? _]]].
  destruct (c_pins _ =? 0), (c_latched _), (c_writeback _); cbn; intuition done.
Qed.

(** What the search for a frame ends with. *)
Definition chosen (G : Z -> ginfo) (r : Result (Z * bool)) (k' : kernel) : Prop :=
  match r with
  | Ok (f, true) => 0 <= f < N /\ g_state (G f) = kFree /\ St V (<[f := with_own true (G f)]> G) [] k'
  | Ok (f, false) => 0 <= f < N /\ evictable (G f) /\ St V G [] k'
  | Err e => St V G [] k' /\ code e = kResourceExhausted /\
      (steady_policy (R := R) -> forall f, 0 <= f < N -> (g_state (G f) = kFree -> g_own (G f) = true) /\ ~ evictable (G f))
  end.

Lemma acquire_frame_spec G k :
  St V G [] k -> wp AcquireReservationFrame (fun r k' => chosen G r k' /\ held k k') k.
Proof.
  intros HS. unfold wp, AcquireReservationFrame. pose proof (pop_spec G k HS) as Hp.
  destruct (pop_free (free k)) as [[f|] s]; [by destruct Hp|]. destruct Hp as [HS1 Hfree].
  set (k1 := set_free s k) in *. pose proof (st_inv _ _ _ _ _ HS1) as HI1. destruct (i_replacer _ _ _ _ HI1) as [Hv Hfr].
  pose proof (victim_law (IsEvictable k1) (replacer k1) Hv) as Hvl.
  destruct (Victim (IsEvictable k1) (replacer k1)) as [[f|] r]; destruct Hvl as (Hv' & Hfr' & Ht & Hr).
  - destruct Hr as [Htr Hev]. assert (0 <= f < N) as Hf.
    { pose proof (tracked_range _ _ Hv Htr) as Hx. rewrite Hfr in Hx. unfold nframes in Hx. by rewrite (st_cfg _ _ _ _ _ HS1) in Hx. }
    split; [|done]. split; [done|]. split; [by apply (evictable_word G [] k1)|]. by apply st_replacer.
  - split; [|done]. split; [by apply st_replacer|]. split; [done|]. intros Hst f Hf. split; [by apply Hfree|].
    intros Hev. pose proof (fo_resident _ _ _ _ _ _ (st_frame _ _ _ _ _ _ HS1 Hf) (proj1 Hev)) as (_ & Htr & _).
    apply (evictable_word G [] k1 f HS1 Hf) in Hev. by rewrite (Hr (Hst _ Hv) f Htr) in Hev.
Qed.

(** When no frame is available but one may become so, there is background work. *)
Lemma transient_pending G k :
  St V G [] k -> all_calm G -> existsb (fun f => let w := control (desc k f) in (Pins w =? 0) || StateIs w kLoading) (frame_ids k) = true ->
  (forall f, 0 <= f < N -> (g_state (G f) = kFree -> g_own (G f) = true) /\ ~ evictable (G f)) -> pending_work k <> 0%nat.
Proof.
  intros HS Hc Hex Hno. apply existsb_exists in Hex as (f & Hin & Hw). unfold frame_ids in Hin.
  rewrite (st_cfg _ _ _ _ _ HS), <- list_elem_of_In, elem_of_seqZ in Hin. assert (0 <= f < N) as Hf by lia.
  destruct (Hc f Hf) as (Co & Cx & Cs & Cp). destruct (Hno f Hf) as [Hfr Hne].
  destruct (word_fields G [] k f HS Hf) as (w & Ew & Hok). cbv zeta in Hw.
  rewrite Ew, Pins_encode, StateIs_encode in Hw by done.
  unfold c_is in Hw. change (c_state (set_waiters w (g_ctl (G f)))) with (g_state (G f)) in Hw.
  change (c_pins (set_waiters w (g_ctl (G f)))) with (c_pins (g_ctl (G f))) in Hw.
  destruct (g_state (G f)) eqn:Es.
  - by rewrite Hfr in Co.
  - intros E0. destruct (pending_none k E0) as [El _]. destruct (i_loads _ _ _ _ (st_inv _ _ _ _ _ HS)) as (_ & Hl & _).
    destruct (Hl f) as [_ Hl2]. unfold load_entries in Hl2. rewrite El in Hl2. cbn in Hl2.
    apply (not_elem_of_nil f), Hl2. split; [by eapply st_pool|done].
  - rewrite bool_decide_false, orb_false_r in Hw by congruence. apply (writeback_pending K V G k f HS Hf).
    destruct (c_writeback (g_ctl (G f))) eqn:Ew'; [done|]. exfalso. apply Hne. split; [done|].
    unfold reservable_ctl, c_latched. by rewrite Hw, Cx, Cs, Ew'.
Qed.

(** With no background work a call that waits is stuck. *)
Lemma progress_stuck G k Q : St V G [] k -> pending_work k = 0%nat -> ~ steady_policy (R := R) -> wp progress Q k.
Proof.
  intros HS E0 Hn. unfold progress. eapply wp_seq; [by apply (complete_load_spec K V G)|].
  intros [] k1 (G1 & HS1 & He1 & Hb); [lia|]. destruct Hb as (_ & Eq1 & El1).
  eapply wp_seq; [by apply (worker_round_spec K V G1)|]. intros [] k2 (G2 & _ & _ & _ & Hb); [|done].
  exfalso. destruct (pending_none k E0) as [_ Eq]. rewrite Eq in Eq1. destruct (queues_nil _ Eq1) as [E1 E2].
  unfold pending_work in Hb. rewrite E1, E2, El1 in Hb. cbn in Hb. lia.
Qed.

Section Owned.
Context (O : list Z) (J : Z -> ginfo).
Local Abbreviation ready := (poised O J).

Lemma acquire_victim_spec G k wait :
  St V G [] k -> ready G -> (wait = true -> O = []) ->
  wp (AcquireVictimFrame wait) (fun r k' => exists G', evo G k G' k' /\ ready G' /\ chosen G' r k') k.
Proof.
  intros HS Hc Hw. unfold AcquireVictimFrame.
  refine (wp_loop (fun _ k1 => exists G1, St V G1 [] k1 /\ evo G k G1 k1 /\ ready G1) (fun _ k1 => pending_work k1) _ _ _ _ k _ _ _);
    [|exists G; split; [done|]; split; [apply evo_refl|done]|lia].
  intros [] k1 (G1 & HS1 & He1 & Hc1). eapply wp_seq; [by apply acquire_frame_spec|].
  intros [[f popped]|e] k2 [Hch Hh].
  - cbn [wp ret]. exists G1. split; [by eapply evo_held|]. done.
  - destruct Hch as (HS2 & Ecode & Hno). unfold HasTransientFrame. apply wp_get.
    pose proof (evo_held _ _ _ _ _ He1 Hh) as He2.
    destruct (_ || _) eqn:Eb; [cbn [wp ret]; exists G1; done|].
    apply orb_false_iff in Eb as [Ew Et]. apply negb_false_iff in Et. apply orb_false_iff in Ew as [_ Ew]. apply negb_false_iff in Ew.
    destruct (decide (pending_work k2 = 0%nat)) as [E0|Hp].
    + eapply wp_seq; [apply (progress_stuck G1 k2 (fun _ _ => False)); [done|done|]|done].
      intros Hst. apply (transient_pending G1 k2 HS2); [|done|by apply Hno|done].
      apply (poised_nil J). rewrite (Hw Ew) in Hc1. exact Hc1.
    + eapply wp_seq; [by apply (progress_spec K V G1 k2 HS2 Hp)|]. intros [] k3 (G3 & HS3 & He3 & Hlt). cbn [wp ret]. split.
      * exists G3. split; [done|]. split; [by eapply evo_trans|by eapply poised_evo].
      * destruct Hh as (_ & Hsc & Hld & _). unfold pending_work in *. rewrite Hsc, Hld in Hlt. lia.
Qed.

(** ** Reserving it *)

Lemma st_strategies G X k s :
  St V G X k -> (forall p f, f ∈ ring (s p) -> 0 <= f) -> St V G X (set_strategies s k).
Proof.
  intros (E & Ef & Ec & HI) Hr. split; [done|]. split; [done|]. split; [done|].
  destruct HI as [I1 I2 I3 I4 I5 I6 I7 I8 I9 I10 I11 I12 I13 I14 I15 I16 I17 I18]. by split.
Qed.

(** A state in which no frame holds the page. *)
Definition without_page (tag : BufferTag) (k : kernel) : Prop :=
  exists G, St V G [] k /\ ready G /\ absent K G tag.

(** The frame of the reservation is claimed for the page. *)
Definition reserved_for (tag : BufferTag) (r : FrameReservation) (k : kernel) : Prop :=
  exists G, 0 <= res_frame r < N /\ res_frame r ∉ O /\ ready G /\ absent K G tag /\
    St V (<[res_frame r := reserved (G (res_frame r)) tag]> G) [] k.

Lemma evictable_accepts (G : Z -> ginfo) allow f : evictable (G f) -> (allow = false -> c_dirty (g_ctl (G f)) = false) ->
  ~ rejects allow false (g_ctl (G f)).
Proof.
  intros [Hs Hr] Hd [?|[[? _]|[?|(_ & ? & ?)]]]; unfold g_state in *; try congruence. rewrite Hd in *; congruence.
Qed.

Lemma reserve_popped_spec G k f tag allow :
  0 <= f < N -> g_state (G f) = kFree -> ready G -> absent K G tag -> St V (<[f := with_own true (G f)]> G) [] k ->
  wp (TryReserveFrameForTag f tag allow true) (fun o k' => exists r, o = FrameReserved r /\ res_frame r = f /\ reserved_for tag r k') k.
Proof.
  intros Hf Hs Hc Ha HS. set (G1 := <[f := with_own true (G f)]> G) in *.
  assert (G1 f = with_own true (G f)) as Ef by (unfold G1; by rewrite fn_lookup_insert).
  assert (absent K G1 tag) as Ha1.
  { split; [apply Ha|]. intros h Hh. destruct (decide (h = f)) as [->|Hne]; [rewrite Ef; by apply Ha|]. unfold G1.
    rewrite fn_lookup_insert_ne by done. by apply Ha. }
  eapply wp_mono; [apply (reserve_spec K V G1 [] f Hf k tag allow true HS Ha1); rewrite Ef; done|].
  intros o k' (_ & _ & _ & Ho). rewrite Ef in Ho.
  pose proof (fo_free _ _ _ _ _ _ (st_frame _ _ _ _ _ _ HS Hf)) as Hfr. rewrite Ef in Hfr. destruct (Hfr Hs) as (Fd & Fw & Fp).
  destruct (Hc f Hf) as (_ & Cx & Cs & _).
  destruct o as [r| | |].
  - exists r. destruct Ho as (Er & _ & HS'). split; [done|]. split; [done|]. exists G. rewrite Er. split_and!; try done; try lia.
    { eapply poised_not_owned; [done|done|congruence]. }
    eapply st_ghost_ext; [exact HS'|]. intros h. unfold G1.
    destruct (decide (h = f)) as [->|Hne]; [by rewrite !fn_lookup_insert|by rewrite !fn_lookup_insert_ne].
  - destruct Ho as (_ & Hr & _). cbn in Hr. unfold g_state in Hs. congruence.
  - destruct Ho as (_ & [Hr|[[_ Hr]|[Hr|(Hr & _)]]]); cbn in Hr; unfold g_state in Hs; try congruence; try done.
    unfold reservable_ctl, c_latched in Hr. cbn in Fp, Fw. rewrite Fp, Fw, Cx, Cs in Hr. done.
  - done.
Qed.

(** The second attempt after the victim was written, or the only one for a ring frame. *)
Lemma reserve_clean_spec G k f tag :
  0 <= f < N -> ready G -> absent K G tag -> St V G [] k ->
  wp (TryReserveFrameForTag f tag false false) (fun o k' => match o with
    | FrameReserved r => res_frame r = f /\ reserved_for tag r k'
    | FrameRejected => St V G [] k' /\ rejects false false (g_ctl (G f))
    | _ => False
    end) k.
Proof.
  intros Hf Hc Ha HS. eapply wp_mono; [by apply (reserve_spec K V G [] f Hf k tag false false HS Ha)|].
  intros o k' (_ & _ & _ & Ho). destruct o as [r| | |]; [|by destruct Ho as (_ & _ & _ & _ & ?)|done|done].
  destruct Ho as (Er & Hnl & HS'). split; [done|]. exists G. rewrite Er. split_and!; try done; try lia. by eapply poised_not_owned.
Qed.

(** Flushing an evictable frame leaves it evictable and clean. *)
Lemma evictable_flushed G (k : kernel) G' k' f :
  St V G' [] k' -> evo G k G' k' -> 0 <= f < N -> evictable (G f) -> c_dirty (g_ctl (G' f)) = false -> evictable (G' f).
Proof.
  intros HS He Hf [Hs Hr] Hd. destruct (ev_resident _ _ (e_frames _ _ _ _ He f) Hs) as (Es' & _ & _ & _ & Ex & Esh & Ep).
  pose proof (fo_resident _ _ _ _ _ _ (st_frame _ _ _ _ _ _ HS Hf) Es') as (_ & _ & _ & _ & Hw).
  split; [done|]. unfold reservable_ctl, c_latched in *. rewrite Ex, Esh, Ep.
  destruct (c_writeback (g_ctl (G' f))); [rewrite Hw in Hd by done; done|].
  destruct (c_pins _ =? 0), (c_excl _ || _); done.
Qed.

Lemma reserve_victim_spec G k f popped tag :
  chosen G (Ok (f, popped)) k -> ready G -> absent K G tag ->
  wp (ReserveVictim (f, popped) tag) (fun o k' => match o with
    | Ok (FrameReserved r) => res_frame r = f /\ reserved_for tag r k'
    | Ok _ => False
    | Err _ => without_page tag k'
    end) k.
Proof.
  intros Hch Hc Ha. unfold ReserveVictim. destruct popped; destruct Hch as (Hf & Hev & HS).
  - eapply wp_seq; [by apply (reserve_popped_spec G)|]. intros o k1 (r & -> & Er & Hr). done.
  - eapply wp_seq; [by apply (reserve_spec K V G [] f Hf k tag true false HS Ha)|]. intros o k1 (_ & _ & _ & Ho).
    destruct o as [r| | |]; [| | |done].
    + destruct Ho as (Er & Hnl & HS1). split; [done|]. exists G. rewrite Er. split_and!; try done; try lia. by eapply poised_not_owned.
    + destruct Ho as (HS1 & _). unfold FlushVictimBeforeReuse, FlushFrame. destruct (Hc f Hf) as (_ & Cx & Cs & _).
      eapply wp_seq; [apply (flush_stable_spec K V G k1 f None HS1 Hf); [|done]|].
      { split; [by left|]. intros _ _. split; [done|]. rewrite Cs. unfold kMaxShared. lia. }
      intros [[]|e] k2 (G2 & HS2 & He2 & Hd2).
      * eapply wp_seq; [apply (reserve_clean_spec G2 k2 f tag Hf); [by eapply poised_evo|by eapply absent_evo|done]|].
        intros o k3 Ho3. destruct o as [r| | |]; try done. destruct Ho3 as [_ Hrej].
        exfalso. eapply evictable_accepts; [by eapply evictable_flushed|by intros _|exact Hrej].
      * exists G2. split_and!; [done|by eapply poised_evo|by eapply absent_evo].
    + destruct Ho as [_ Hrej]. exfalso. by eapply (evictable_accepts G true f).
Qed.

(** ** Ring frames *)

Lemma ring_next_spec (s : strategy) : (forall f, f ∈ ring s -> 0 <= f) ->
  0 <= (NextRingFrame s).1 /\ forall f, f ∈ ring (NextRingFrame s).2 -> 0 <= f.
Proof.
  intros Hr. unfold NextRingFrame. destruct (ring s) as [|a l] eqn:E; cbn [fst snd]; [rewrite E; split; [done|done]|].
  split; [|done]. destruct (_ !! Z.to_nat _) as [f|] eqn:El; cbn; [|done]. apply Hr. by eapply list_elem_of_lookup_2.
Qed.

Lemma try_ring_spec tag st k : without_page tag k ->
  wp (TryReserveRingFrame tag st) (fun o k' => match o with
    | FrameReserved r => reserved_for tag r k'
    | FrameRejected => without_page tag k'
    | _ => False
    end) k.
Proof.
  intros (G & HS & Hc & Ha). unfold TryReserveRingFrame. destruct st as [p|]; [|by exists G].
  apply wp_bind. unfold on_strategy, wp at 1. pose proof (i_rings _ _ _ _ (st_inv _ _ _ _ _ HS)) as Hr.
  destruct (ring_next_spec (strategies k p) (Hr p)) as [Hf Hr']. destruct (NextRingFrame (strategies k p)) as [f s]. cbn in Hf, Hr'.
  set (k1 := set_strategies _ k). assert (St V G [] k1) as HS1.
  { apply st_strategies; [done|]. intros q h. destruct (decide (q = p)) as [->|Hq];
      [rewrite fn_lookup_insert; apply Hr'|rewrite fn_lookup_insert_ne by done; apply Hr]. }
  apply wp_get. rewrite (st_cfg _ _ _ _ _ HS1). destruct (_ || _) eqn:Eb; [by exists G|].
  apply orb_false_iff in Eb as [_ Eb]. destruct (Z.leb_spec N f); [done|].
  eapply wp_mono; [by apply (reserve_clean_spec G k1 f tag)|]. intros o k2 Ho. destruct o; try done; [by destruct Ho|].
  destruct Ho as [HS2 _]. by exists G.
Qed.

Lemma reserve_for_tag_spec tag st wait k : without_page tag k -> (wait = true -> O = []) ->
  wp (ReserveFrameForTag tag st wait) (fun r k' => match r with
    | Ok (Some r) => reserved_for tag r k'
    | Ok None => False
    | Err _ => without_page tag k'
    end) k.
Proof.
  intros Hk Hw. unfold ReserveFrameForTag. eapply wp_seq; [by apply try_ring_spec|].
  intros o k1 Ho. destruct o as [r| | |]; try done. destruct Ho as (G & HS & Hc & Ha). cbn [loop].
  eapply wp_seq with (Q := fun a k' => match a with
    | inr (Ok (Some r)) => reserved_for tag r k' | inr (Err _) => without_page tag k' | _ => False end).
  2: { intros [[]|[[r|]|e]] k2 Hr; done. }
  eapply wp_seq; [by apply acquire_victim_spec|]. intros [[f popped]|e] k2 (G2 & He2 & Hc2 & Hch).
  - eapply wp_seq; [apply (reserve_victim_spec G2 k2 f popped tag Hch Hc2); by eapply absent_evo|].
    intros [[r| | |]|e] k3 Ho; try done. destruct Ho as [Er Hr]. destruct st as [p|]; [|done].
    apply wp_bind. unfold on_strategy, wp at 1. destruct Hr as (G3 & Hf & Hni & Hc3 & Ha3 & HS3). exists G3. split_and!; try done; try lia.
    apply st_strategies; [done|]. pose proof (i_rings _ _ _ _ (st_inv _ _ _ _ _ HS3)) as Hr. intros q h.
    destruct (decide (q = p)) as [->|Hq]; [rewrite fn_lookup_insert|rewrite fn_lookup_insert_ne by done; apply Hr].
    cbn. unfold RememberRingFrame. destruct (ring (strategies k3 p)) as [|a l] eqn:El; [rewrite El; by intros ?%not_elem_of_nil|].
    cbn [ring]. intros Hin. apply list_elem_of_lookup_1 in Hin as (i & Hi). apply list_lookup_insert_Some in Hi as [(_ & <- & _)|[_ Hi]]; [lia|].
    apply (Hr p). rewrite El. by eapply list_elem_of_lookup_2.
  - destruct Hch as (HS2 & _). exists G2. split_and!; [done|done|by eapply absent_evo].
Qed.

End Owned.
End Pin.
