(* ===== verification/KernelRead.v ===== *)
(** Reading and writing pages through handles: a page that is pinned is the page
    asked for, a reader sees the last contents written to it, and the calls
    return. *)
From S2P Require Import Prelude Status CasLoop FrameControl Layout Replacer FlushScheduler Cleaner Interfaces.
From S2P Require Import Kernel Manager KernelInv KernelOps KernelFlush KernelWait KernelFrames KernelProgress.
From S2P Require Import KernelWriteback KernelRound KernelPin.

Section Read.
Context {T F R B : Type} `{FrameTableLaws T} `{FreeFramesLaws F} `{ReplacerLaws R} `{BackendLaws B} {SC : Scope}.
Local Abbreviation kernel := (kernel T F R B).
Local Abbreviation M := (@M T F R B).
Context (K : config).
Local Abbreviation N := (pool_size K).
Local Abbreviation St := (St K).
Context (V : BufferTag -> page).

(** The state between the calls of a client. *)
Definition calm_state (k : kernel) : Prop := exists G, St V G [] k /\ all_calm K G.

(** The call holds a pin on the page, and the exclusive latch if [latched]. *)
Record pinned (tag : BufferTag) (f : Z) (latched : bool) (G : Z -> ginfo) (k : kernel) : Prop := {
  pn_frame : 0 <= f < N;
  pn_st : St V G [] k;
  pn_others h : 0 <= h < N -> h <> f -> calm (G h);
  pn_resident : g_state (G f) = kResident;
  pn_tag : g_tag (G f) = tag;
  pn_own : g_own (G f) = false;
  pn_excl : c_excl (g_ctl (G f)) = latched;
  pn_shared : c_shared (g_ctl (G f)) = 0;
  pn_pins : 1 <= c_pins (g_ctl (G f)) <= 2;
  pn_zero : latched = true -> g_page (G f) = zero_page (geometry K)
}.

(** A calm state in which no frame holds the page, and the reservation of a frame
    for it. *)
Definition missing (tag : BufferTag) (k : kernel) : Prop := exists G, St V G [] k /\ all_calm K G /\ absent K G tag.
Definition claimed_for (tag : BufferTag) (r : FrameReservation) (k : kernel) : Prop :=
  exists G, 0 <= res_frame r < N /\ all_calm K G /\ absent K G tag /\
    St V (<[res_frame r := reserved (G (res_frame r)) tag]> G) [] k.

Lemma claim_page_spec tag st k : missing tag k ->
  wp (ReserveFrameForTag tag st true) (fun r k' => match r with
    | Ok (Some r) => claimed_for tag r k'
    | Ok None => False
    | Err _ => missing tag k'
    end) k.
Proof.
  intros (G & HS & Hc & Ha). eapply wp_mono; [apply (reserve_for_tag_spec K V [] G); [|done]|].
  - exists G. split; [done|]. split; [by apply poised_nil|done].
  - intros [[r|]|e] k' Hr; [|done|].
    + destruct Hr as (G' & Hf & _ & Hp%poised_nil & Ha' & HS'). by exists G'.
    + destruct Hr as (G' & HS' & Hp%poised_nil & Ha'). by exists G'.
Qed.

(** ** Filling a reserved frame *)

Lemma complete_reservation_spec tag r mode k :
  claimed_for tag r k ->
  wp (CompleteReservation tag r mode) (fun a k' => match a with
    | Ok (f, latched) => f = res_frame r /\ (latched = true -> mode = kZeroAndLock) /\ exists G, pinned tag f latched G k'
    | Err _ => missing tag k'
    end) k.
Proof.
  intros (G & Hf & Hc & Ha & HS). unfold CompleteReservation. set (f := res_frame r) in *.
  set (G1 := <[f := reserved (G f) tag]> G) in *.
  assert (G1 f = reserved (G f) tag) as Ef by (unfold G1; by rewrite fn_lookup_insert).
  assert (forall g h, h <> f -> (<[f := g]> G1) h = G h) as Hne.
  { intros g h Hh. rewrite fn_lookup_insert_ne by done. unfold G1. by rewrite fn_lookup_insert_ne. }
  assert (forall c p latched (G2 : Z -> ginfo) k', (forall h, h <> f -> G2 h = G h) ->
    c_excl c = latched -> c_shared c = 0 -> c_pins c = 1 -> (latched = true -> p = zero_page (geometry K)) ->
    St V (<[f := GInfo (loaded_ctl false c) false tag p]> G2) [] k' ->
    exists G3, pinned tag f latched G3 k') as Hfin.
  { intros c p latched G2 k' Ho Ex Es Ep Hz HS'. eexists. split; [done|exact HS'|..]; rewrite ?fn_lookup_insert; try done.
    - intros h Hh Hhf. rewrite fn_lookup_insert_ne, Ho by done. by apply Hc.
    - cbn. lia. }
  destruct mode.
  - eapply wp_seq.
    { unfold ReadReservedPage. replace tag with (g_tag (G1 f)) at 1 by (by rewrite Ef).
      apply (read_block_spec K V G1 [] k f HS Hf). by rewrite Ef. }
    intros s k1 (_ & _ & _ & p & HS1 & Hp). rewrite Ef in HS1, Hp.
    set (G2 := <[f := with_page p (reserved (G f) tag)]> G1) in *.
    assert (G2 f = with_page p (reserved (G f) tag)) as Ef2 by (unfold G2; by rewrite fn_lookup_insert).
    destruct s as [[]|e]; cbn [has_value] in Hp.
    + eapply wp_seq; [apply (publish_spec K V G2 [] f Hf k1 r false HS1); rewrite ?Ef2; cbn; auto|].
      intros [] k2 (HS2 & _). cbn [wp ret]. split; [done|]. split; [done|]. unfold published in HS2. rewrite Ef2 in HS2.
      eapply (Hfin reserved_ctl p false G2); try done. intros h Hh. unfold G2. by apply Hne.
    + eapply wp_seq.
      { replace tag with (g_tag (G2 f)) at 1 by (by rewrite Ef2).
        apply (abort_spec K V G2 [] f Hf k1 (Err e) HS1); by rewrite Ef2. }
      intros s k2 (-> & HS2 & _). cbn [wp ret]. unfold freed in HS2. rewrite Ef2 in HS2. cbn in HS2. eexists. split; [exact HS2|]. split.
      * intros h Hh. destruct (decide (h = f)) as [->|Hhf]; [rewrite fn_lookup_insert; cbn; split_and!; done || (cbn; lia)|].
        rewrite fn_lookup_insert_ne by done. unfold G2. rewrite Hne by done. by apply Hc.
      * split; [apply Ha|]. intros h Hh. destruct (decide (h = f)) as [->|Hhf]; [rewrite fn_lookup_insert; done|].
        rewrite fn_lookup_insert_ne by done. unfold G2. rewrite Hne by done. by apply Ha.
  - apply wp_modify. rewrite (st_cfg _ _ _ _ _ HS). set (p := zero_page _). set (k1 := set_data _ k).
    assert (St V (<[f := with_page p (G1 f)]> G1) [] k1) as HS1.
    { apply (st_page K V G1 [] k k1 f p HS Hf); try done; cbn.
      - by rewrite Ef.
      - by rewrite fn_lookup_insert.
      - intros h Hh. by rewrite fn_lookup_insert_ne. }
    rewrite Ef in HS1. set (G2 := <[f := with_page p (reserved (G f) tag)]> G1) in *.
    assert (G2 f = with_page p (reserved (G f) tag)) as Ef2 by (unfold G2; by rewrite fn_lookup_insert).
    eapply wp_seq; [apply (acquire_exclusive_spec K V G2 [] f Hf k1 HS1); by rewrite Ef2|]. intros [] k2 [_ HS2].
    set (G3 := upd_ctl G2 f _) in *. assert (G3 f = with_ctl (set_excl true reserved_ctl) (with_page p (reserved (G f) tag))) as Ef3.
    { unfold G3. rewrite upd_ctl_eq, Ef2. done. }
    eapply wp_seq; [apply (publish_spec K V G3 [] f Hf k2 r false HS2); rewrite ?Ef3; cbn; auto; done|].
    intros [] k3 (HS3 & _). cbn [wp ret]. split; [done|]. split; [done|]. unfold published in HS3. rewrite Ef3 in HS3.
    eapply (Hfin (set_excl true reserved_ctl) p true G3); try done.
    intros h Hh. unfold G3. rewrite upd_ctl_ne by done. unfold G2. by apply Hne.
Qed.

Lemma load_page_spec tag st mode k :
  missing tag k ->
  wp (LoadPage tag st mode) (fun a k' => match a with
    | Ok (Some (f, latched)) => (latched = true -> mode = kZeroAndLock) /\ exists G, pinned tag f latched G k'
    | Ok None => False
    | Err _ => missing tag k'
    end) k.
Proof.
  intros Hk. unfold LoadPage. eapply wp_seq; [by apply claim_page_spec|]. intros [[r|]|e] k1 Hr; try done.
  eapply wp_seq; [by apply complete_reservation_spec|]. intros [[f latched]|e] k2 Hc; [|done]. by destruct Hc as (_ & ? & ?).
Qed.

(** ** Looking for the page *)

Lemma tag_eqb_eq a b : tag_eqb a b = true <-> a = b.
Proof.
  unfold tag_eqb. rewrite andb_true_iff, !Z.eqb_eq. destruct a, b; cbn. split; [intros [-> ->]; done|by intros [= -> ->]].
Qed.

Lemma lookup_page G k tag : St V G [] k ->
  match lookup_frame tag (table k) with
  | Some f => 0 <= f < N /\ g_state (G f) <> kFree /\ g_tag (G f) = tag
  | None => unheld K G tag
  end.
Proof.
  intros HS. pose proof (st_inv _ _ _ _ _ HS) as HI. destruct (i_table _ _ _ _ HI) as [Ht Hn].
  pose proof (lookup_law tag (table k) Ht) as Hl.
  assert (table_frames (table k) = N) as En by (rewrite Hn; unfold nframes; by rewrite (st_cfg _ _ _ _ _ HS)). rewrite En in Hl.
  assert (forall f, 0 <= f < N -> entry (table k) f = entry_of (G f)) as He.
  { intros f Hf. apply (i_entry _ _ _ _ HI). by eapply st_pool. }
  destruct (lookup_frame tag (table k)) as [f|].
  - destruct Hl as [Hf El]. rewrite He in El by done. unfold entry_of in El. destruct (decide _); [done|]. by injection El.
  - intros f Hf Hs Et. apply (Hl f Hf). rewrite He by done. unfold entry_of. rewrite decide_False by done. congruence.
Qed.

Lemma loading_tag_spec G k f tag : St V G [] k -> 0 <= f < N ->
  loading_tag k f tag = true <-> g_state (G f) = kLoading /\ g_tag (G f) = tag.
Proof.
  intros HS Hf. unfold loading_tag. destruct (word_fields K V G [] k f HS Hf) as (w & -> & Hok). rewrite StateIs_encode by done.
  unfold c_is. change (c_state (set_waiters w (g_ctl (G f)))) with (g_state (G f)).
  rewrite andb_true_iff, bool_decide_eq_true, tag_eqb_eq. split; intros [Es Et]; (split; [done|]).
  - rewrite <- Et. symmetry. apply (st_frame _ _ _ _ _ _ HS Hf). congruence.
  - rewrite <- Et. apply (st_frame _ _ _ _ _ _ HS Hf). congruence.
Qed.

Lemma record_access_spec G X k f (b : bool) : St V G X k -> 0 <= f ->
  wp (if b then modify (fun k => set_replacer (RecordAccess 0 f (replacer k)) k) else ret tt) (fun _ => St V G X) k.
Proof.
  intros HS Hf. destruct b; [|done]. unfold wp, modify.
  destruct (access_law 0 f (replacer k)) as (? & ? & ?); [apply (i_replacer _ _ _ _ (st_inv _ _ _ _ _ HS))|done|].
  by apply st_replacer.
Qed.

(** The probe pins the page, finds it being read, or finds it in no frame. *)
Lemma probe_spec G k tag record :
  St V G [] k -> all_calm K G ->
  wp (ProbeResident tag record) (fun p k' => match p with
    | ProbePinned f => exists G', pinned tag f false G' k'
    | ProbeLoading f => St V G [] k' /\ 0 <= f < N /\ g_state (G f) = kLoading /\ g_tag (G f) = tag /\
        lookup_frame tag (table k) = Some f
    | ProbeAbsent => St V G [] k' /\ unheld K G tag
    end) k.
Proof.
  intros HS Hc. unfold ProbeResident. apply wp_get. pose proof (lookup_page G k tag HS) as Hl.
  destruct (lookup_frame tag (table k)) as [f|] eqn:Elk; [|done]. destruct Hl as (Hf & Hs & Et). destruct (Hc f Hf) as (Co & Cx & Cs & Cp).
  unfold TryPinResidentFrame. apply wp_bind. eapply wp_seq; [apply (pin_spec K V G [] f Hf k HS); unfold kMaxPins; lia|].
  intros [] k1 [_ Hb].
  - destruct Hb as [Es HS1]. cbn [negb]. set (G1 := upd_ctl _ _ _) in HS1. unfold LoadTag. apply wp_get.
    assert (G1 f = with_ctl (set_pins (c_pins (g_ctl (G f)) + 1) (g_ctl (G f))) (G f)) as Ef by (unfold G1; by rewrite upd_ctl_eq).
    assert (d_tag (desc k1 f) = tag) as ->.
    { rewrite <- Et. pose proof (fo_tag _ _ _ _ _ _ (st_frame _ _ _ _ _ _ HS1 Hf)) as Hx. rewrite Ef in Hx. apply Hx. cbn.
      unfold g_state in *. cbn. congruence. }
    rewrite (proj2 (tag_eqb_eq tag tag) eq_refl). cbn [negb].
    eapply wp_seq; [apply (record_access_spec G1 [] k1 f record HS1); lia|]. intros [] k2 HS2. cbn [wp ret bind].
    exists G1. split; try done; rewrite ?Ef; try done; [|cbn; lia].
    intros h Hh Hhf. unfold G1. rewrite upd_ctl_ne by done. by apply Hc.
  - destruct Hb as [Es HS1]. cbn [negb wp ret bind]. unfold IsLoadingTag.
    assert (g_state (G f) = kLoading) as El by (unfold g_state in *; destruct (c_state (g_ctl (G f))); done).
    apply wp_get. rewrite (proj2 (loading_tag_spec G k1 f tag HS1 Hf)) by done. cbn [wp ret]. split_and!; try done; lia.
Qed.

(** ** Pinning *)

Definition tag_loading (tag : BufferTag) (k : kernel) : bool :=
  match lookup_frame tag (table k) with Some f => loading_tag k f tag | None => false end.

Lemma loading_pending G k f : St V G [] k -> all_calm K G -> 0 <= f < N -> g_state (G f) = kLoading -> pending_work k <> 0%nat.
Proof.
  intros HS Hc Hf Es E0. destruct (pending_none k E0) as [El _]. destruct (Hc f Hf) as (Co & _).
  destruct (i_loads _ _ _ _ (st_inv _ _ _ _ _ HS)) as (_ & Hl & _). destruct (Hl f) as [_ Hl2].
  unfold load_entries in Hl2. rewrite El in Hl2. cbn in Hl2. apply (not_elem_of_nil f), Hl2. split; [by eapply st_pool|done].
Qed.

(** Waiting for a read ends with the page no longer being read. *)
Lemma wait_load_spec G k f tag :
  St V G [] k -> all_calm K G -> 0 <= f < N -> g_state (G f) = kLoading -> g_tag (G f) = tag ->
  wp (WaitForLoad f tag) (fun _ k' => calm_state k' /\ tag_loading tag k' = false) k.
Proof.
  intros HS Hc Hf Es Et. unfold WaitForLoad. eapply wp_mono.
  - apply (wait_while_spec K V G k f (fun k _ => loading_tag k f tag) HS Hf). intros G1 k1 HS1 He1 Hb.
    apply (loading_tag_spec G1 k1 f tag HS1 Hf) in Hb as [Hb _]. eapply loading_pending; [done| |done|done]. by eapply all_calm_evo.
  - intros [] k' (G' & HS' & He & Hnl). split; [exists G'; split; [done|by eapply all_calm_evo]|].
    unfold tag_loading. pose proof (lookup_page G' k' tag HS') as Hl. destruct (lookup_frame tag (table k')) as [h|]; [|done].
    destruct Hl as (Hh & Hs & Eth). destruct (loading_tag k' h tag) eqn:Elt; [|done].
    pose proof (proj1 (loading_tag_spec G' k' h tag HS' Hh) Elt) as [Els _].
    assert (h = f) as ->; [|congruence].
    pose proof (e_frames _ _ _ _ He h) as [A1 A2 A3 _].
    assert (g_state (G h) = kLoading /\ G' h = G h) as [Egs Eg].
    { destruct (g_state (G h)) eqn:E.
      - rewrite (A2 eq_refl) in Els. congruence.
      - destruct (A3 eq_refl) as [Eg|(_ & _ & ? & _)]; done.
      - destruct (A1 eq_refl) as (? & _). congruence. }
    rewrite Eg in Eth. apply (i_unique _ _ _ _ (st_inv _ _ _ _ _ HS) h f); [by eapply st_pool|by eapply st_pool|congruence..].
Qed.

Lemma usable_run G X k : St V G X k -> CheckUsable k = Some (Ok tt, k).
Proof. intros (_ & Ef & Ec & _). unfold CheckUsable, get. by rewrite Ef, Ec. Qed.

Lemma pin_page_spec tag st mode k :
  scope tag -> calm_state k ->
  wp (PinPage tag st mode) (fun a k' => match a with
    | Ok (f, latched) => (latched = true -> mode = kZeroAndLock) /\ exists G, pinned tag f latched G k'
    | Err _ => calm_state k'
    end) k.
Proof.
  intros Hsc (G & HS & Hc). unfold PinPage. apply wp_bind. eapply wp_run; [by eapply usable_run|].
  eapply wp_seq with (Q := fun _ k' => k' = k); [destruct st; done|]. intros record k' ->.
  refine (wp_loop (fun _ k1 => calm_state k1) (fun _ k1 => if tag_loading tag k1 then 1%nat else 0%nat) _ _ _ _ k _ _ _);
    [|by exists G|unfold wait_fuel; destruct (tag_loading tag k); lia].
  intros [] k1 (G1 & HS1 & Hc1). eapply wp_seq; [by apply (probe_spec G1 k1)|]. intros [f|f|] k2 Hp.
  - cbn [wp ret]. done.
  - destruct Hp as (HS2 & Hf & Es & Et & Elk). eapply wp_seq; [by apply (wait_load_spec G1 k2 f tag)|]. intros [] k3 [Hk3 Et3].
    cbn [wp ret]. split; [done|]. rewrite Et3. unfold tag_loading. rewrite Elk, (proj2 (loading_tag_spec G1 k1 f tag HS1 Hf)) by done. lia.
  - destruct Hp as [HS2 Ha]. eapply wp_seq; [apply (load_page_spec tag st mode); by exists G1|].
    intros [[[f latched]|]|e] k3 Hl; try done. destruct Hl as (G3 & HS3 & Hc3 & Ha3). unfold IsResidentTag. apply wp_get.
    pose proof (lookup_page G3 k3 tag HS3) as Hlk. destruct (lookup_frame tag (table k3)) as [h|].
    + destruct Hlk as (Hh & Hs & Et). by destruct (proj2 Ha3 h Hh Hs).
    + rewrite orb_true_r. by exists G3.
Qed.
End Read.

Lemma calm_rescope {T F R B : Type} `{FrameTableLaws T} `{FreeFramesLaws F} `{ReplacerLaws R} `{BackendLaws B}
    (S1 S2 : Scope) K V (k : kernel T F R B) :
  (forall t, scope (Scope := S1) t -> scope (Scope := S2) t) -> (forall t, scope (Scope := S2) t -> addressable (B := B) t) ->
  calm_state (SC := S1) K V k -> calm_state (SC := S2) K V k.
Proof.
  intros Hs Ha (G & (E1 & E2 & E3 & HI) & Hc). exists G. split; [|done]. split; [done|]. split; [done|]. split; [done|].
  apply (inv_rescope S1 S2 V G [] k HI); [|done]. intros f Hf Hg. by apply Hs, (i_scope (SC := S1) V G [] k HI).
Qed.
