(* ===== verification/KernelStart.v ===== *)
(** A manager just created: what [BufferManager::Create] returns holds no page,
    has every frame on its free list, and implements the store that is on disk. *)
From S2P Require Import Prelude Status CasLoop FrameControl Layout FreeList PageTable Replacer FlushScheduler Cleaner Interfaces.
From S2P Require Import Kernel Manager Lifecycle KernelInv KernelOps KernelFlush KernelWait KernelFrames KernelProgress.
From S2P Require Import KernelPin KernelRead.

Section Fresh.
Context {T F R B : Type} `{FrameTableLaws T} `{FreeFramesLaws F} `{ReplacerLaws R} `{BackendLaws B} {SC : Scope}.
Local Open Scope kernel_scope.
Local Abbreviation kernel := (kernel T F R B).
Context (K : config).
Local Abbreviation N := (pool_size K).

Definition fresh_ctl : ctl := Ctl kFree false false false false false false 0 false 0.
Definition fresh_info (p : page) : ginfo := GInfo fresh_ctl false no_page p.

Lemma push_all_spec fs (k : kernel) l :
  free_holds (free k) l -> NoDup (fs ++ l) -> (forall f, f ∈ fs -> 0 <= f < kInvalidFrameId) ->
  exists s l', for_each fs (fun f => modify (fun k => set_free (push_free f (free k)) k)) k = Some (tt, set_free s k) /\
    free_holds s l' /\ l' ≡ₚ fs ++ l.
Proof.
  revert k l. induction fs as [|f fs IH]; intros k l Hl Hnd Hr; cbn [for_each].
  { exists (free k), l. split; [by destruct k|]. done. }
  cbn [app] in Hnd. apply list.NoDup_cons in Hnd as [Hni Hnd]. rewrite elem_of_app in Hni.
  destruct (IH (set_free (push_free f (free k)) k) (f :: l)) as (s & l' & E & Hs & Hp).
  - cbn. apply push_law; [done|apply Hr; by left|tauto].
  - rewrite <- Permutation_middle. apply list.NoDup_cons. rewrite elem_of_app. done.
  - intros g Hg. apply Hr. by right.
  - exists s, l'. split; [exact E|]. split; [done|].
    rewrite Hp. by rewrite <- Permutation_middle.
Qed.

Lemma fresh_calm (k : kernel) :
  cfg k = K -> 0 < N < kInvalidFrameId -> (forall f, desc k f = new_descriptor) ->
  table_ok (table k) -> table_frames (table k) = N -> (forall f, 0 <= f < N -> entry (table k) f = None) ->
  valid (replacer k) -> frames (replacer k) = N -> free_holds (free k) [] -> dirty_page_count k = 0 ->
  queued_tasks k = [] -> completed k = ∅ -> failed k = false -> closed k = false -> loads k = [] ->
  1 <= submit_batch_size (sched k) -> (forall p f, f ∈ ring (strategies k p) -> 0 <= f) ->
  (forall t, scope t -> addressable (B := B) t) ->
  exists s, SeedFreeFrames k = Some (tt, set_free s k) /\ calm_state K (contents (disk k)) (set_free s k).
Proof.
  intros Ek HN Hd Ht1 Ht2 Ht3 Hr1 Hr2 Hf Hdc Hq Hcp Hfl Hcl Hlo Hsb Hrg Hsc.
  destruct (push_all_spec (seqZ 0 N) k []) as (s & l & E & Hs & Hp); [done|rewrite app_nil_r; apply NoDup_seqZ| |].
  { intros f Hin. apply elem_of_seqZ in Hin. lia. }
  exists s. split; [unfold SeedFreeFrames, bind, get, frame_ids; cbn; by rewrite Ek|].
  exists (fun f => fresh_info (frame_data k f)). split; [|intros f _; split_and!; done].
  split; [done|]. split; [done|]. split; [done|]. unfold in_pool, nframes in *. split; cbn [set_free]; unfold all_tasks, in_pool, nframes;
    change (queued_tasks (set_free s k)) with (queued_tasks k); cbn; rewrite ?Ek, ?Hq, ?Hcp; try done.
  - intros f _. rewrite Hd. split; unfold g_state; cbn; try done. by exists false.
  - exists l. split; [done|]. split; [rewrite Hp, app_nil_r; apply NoDup_seqZ|]. intros f. rewrite Hp, app_nil_r, elem_of_seqZ.
    unfold in_pool, nframes. cbn. rewrite Ek. split; [intros; split; [lia|done]|intros [? _]; lia].
  - rewrite Hdc. unfold sum_dirty. generalize (seqZ 0 N). induction l0 as [|x l0 IH]; cbn in *; [done|exact IH].
  - split; [constructor|]. set_solver.
  - unfold ids_ok. cbn. rewrite Hcp. split; [constructor|]. set_solver.
  - unfold loads_ok, load_entries. cbn. rewrite Hlo. cbn. split; [constructor|]. split; [|set_solver]. intros f. set_solver.
  - intros t. apply contents_law.
Qed.
End Fresh.

Section Created.
Context {R B : Type} `{ReplacerLaws R} `{BackendLaws B} {SC : Scope}.
Local Abbreviation kernel := (kernel page_table free_list R B).

(** [BufferManager::Create] returned [k] for a pool the page table can number,
    a policy for as many frames, and a backend [b]. *)
Definition created_with (p : platform) (o : BufferManagerOptions) (c : DiskBackendCapabilities) (b : B) (r : R) (k : kernel) : Prop :=
  options_ok o /\ 0 <= queue_depth c /\ opt_pool_size o <= 2 ^ 31 /\ valid r /\ frames r = opt_pool_size o /\
  CreateManager p o c (Some b) (Some r) = Ok k.

Lemma create_calm p o c b r (k : kernel) :
  (forall t, scope t -> addressable (B := B) t) -> created_with p o c b r k ->
  calm_state (cfg k) (contents b) k /\ pool_size (cfg k) = opt_pool_size o /\
    geometry_ok (geometry (cfg k)) /\ block_size (geometry (cfg k)) = opt_page_size o.
Proof.
  intros Hsc (Ho & Hq & Hp & Hr & Hfr & Hc). unfold CreateManager in Hc. destruct (Layout.Create _) as [g|] eqn:Eg; [|done].
  destruct (_ && _); [done|]. unfold Initialize, InitializeKernelMemory in Hc. cbn [ValidateRuntimeDependencies fst snd] in Hc.
  destruct (Validate (opt_pool_size o) g) as [[]|] eqn:Ev; [|done].
  assert (0 < opt_pool_size o < kInvalidFrameId) as Hpool.
  { unfold Validate in Ev. destruct Ho as [Hu _]. unfold is_u64 in Hu. destruct (Z.eqb_spec (opt_pool_size o) 0); [done|].
    destruct (Z.leb_spec kInvalidFrameId (opt_pool_size o)); [done|]. lia. }
  destruct (memory p) as [bytes|]; [|done]. set (k0 := ConstructKernel _ _ _ _ _ _ _) in Hc.
  set (batch := ResolveFlushSubmitBatchSize _ _ _) in Hc. set (burst := ResolveFlushForegroundBurstLimit _ _) in Hc.
  assert (1 <= batch) as Hbatch by (apply batch_size_bounds; [done|by apply worker_count_bounds]).
  destruct (fresh_calm (cfg k0) k0) as (s & Es & G & HS & Hcalm); try done.
  { apply new_table_wf. cbn. lia. }
  { apply empty_holds. }
  { intros q f. cbn. set_solver. }
  rewrite Es in Hc. cbn [default snd fmap option_fmap option_map] in Hc.
  assert (calm_state (cfg k0) (contents b) (set_sched (MakeScheduler batch burst) (set_free s k0))) as Hk1.
  { exists G. split; [|done]. apply (st_sched (cfg k0) (contents b) G [] [] (set_free s k0)); [exact HS|done|apply HS|done]. }
  destruct (create_geometry _ _ Eg) as (Hg & Eb & _).
  unfold StartIoEngine, StartFlushScheduler, StartCleanerController in Hc.
  destruct (engine_starts p), (workers_start p), (ResolveCleanerOptions o) as [[[] high] low]; cbn [negb] in Hc; try done;
    [destruct (cleaner_starts p); [|done]|]; injection Hc as <-; [|done]. split; [|done].
  destruct Hk1 as (G1 & HS1 & Hc1). exists G1. split; [|done].
  apply (st_neutral (cfg k0) (contents b) G1 [] _ (set_cleaner (Some (MakeCleaner (pool_size (cfg k0)) high low)))); done.
Qed.
End Created.
