(* ===== verification/KernelClient.v ===== *)
(** What a client that uses one page at a time does through the public calls:
    read a page, write a page. *)
From S2P Require Import Prelude Status CasLoop FrameControl Layout Replacer FlushScheduler Cleaner Interfaces.
From S2P Require Import Kernel Manager KernelInv KernelOps KernelFlush KernelWait KernelFrames KernelProgress.
From S2P Require Import KernelWriteback KernelRound KernelPin KernelRead.

Section Client.
Context {T F R B : Type} `{FrameTableLaws T} `{FreeFramesLaws F} `{ReplacerLaws R} `{BackendLaws B} {SC : Scope}.
Local Open Scope kernel_scope.
Local Abbreviation kernel := (kernel T F R B).
Local Abbreviation M := (@M T F R B).
Context (K : config).
Local Abbreviation N := (pool_size K).
Local Abbreviation St := (St K).

(** [ReadBuffer], a copy of [data()], and the handle's destructor. *)
Definition read_page (tag : BufferTag) (st : option nat) : M (Result page) :=
  h <- ReadBuffer tag st ;;
  match h with
  | Err e => ret (Err e)
  | Ok h => p <- get (fun k => frame_data k (h_frame h)) ;; Reset h ;; ret (Ok p)
  end.

(** [ReadBufferExclusive], stores through [mutable_data()] that turn the page into
    [u] of it, and the handle's destructor. *)
Definition update_page (tag : BufferTag) (st : option nat) (mode : ReadBufferMode) (u : page -> page) : M Status :=
  h <- ReadBufferExclusive tag st mode ;;
  match h with
  | Err e => ret (Err e)
  | Ok h => p <- get (fun k => frame_data k (h_frame h)) ;; h <- WritePage h (u p) ;; Reset h ;; ret (Ok tt)
  end.

Definition write_page (tag : BufferTag) (st : option nat) (mode : ReadBufferMode) (p : page) : M Status :=
  update_page tag st mode (fun _ => p).

(** ** Changing the contents of a page *)

Lemma st_write V G X k f p :
  St V G X k -> 0 <= f < N -> g_state (G f) = kResident -> c_excl (g_ctl (G f)) = true -> c_dirty (g_ctl (G f)) = true -> page_fits (B := B) p ->
  St (<[g_tag (G f) := p]> V) (<[f := with_page p (G f)]> G) X (set_data (<[f := p]> (frame_data k)) k).
Proof.
  intros HS Hf Es Ex Ed Hfit. pose proof (st_inv _ _ _ _ _ HS) as HI. pose proof (st_pool _ _ _ _ _ _ HS Hf) as Hfp.
  pose proof (st_frame _ _ _ _ _ _ HS Hf) as [F1 F2 F3 F4 F5 F6 F7 F8]. unfold g_state in *. destruct (F8 Es) as (R1 & R2 & _ & _ & R5).
  eapply (st_store_update K V _ G X X k); try done; unfold g_state; cbn [with_page g_ctl g_tag g_own g_page].
  - split; try done; cbn; [split; [apply HI|done]..|]. intros h Hh. by rewrite fn_lookup_insert_ne.
  - intros t [Hne|?]; [|done]. by rewrite fn_lookup_insert_ne.
  - intros t. destruct (decide (t = g_tag (G f))) as [->|Hne]; [by rewrite fn_lookup_insert|rewrite fn_lookup_insert_ne by done; apply HI].
  - cbn. rewrite (i_entry _ _ _ _ HI f Hfp). by apply entry_of_same.
  - split; unfold g_state; cbn; try done; [by rewrite fn_lookup_insert|]. intros _. split_and!; try done; congruence.
  - intros Hs. split; [by apply (st_scope K V G X k f HS Hf)|]. intros h Hh Hne Hsh Et. apply Hne.
    apply (i_unique _ _ _ _ HI); try done; by eapply st_pool.
  - by left.
  - cbn. lia.
  - destruct (i_tasks _ _ _ _ HI) as [Hnd Hall]. split; try done.
    + intros t Ht. destruct (decide (task_frame t = f)) as [Et|Hne]; [right|by left]. split; [done|].
      destruct (Hall t Ht) as [_ [J1 J2 J3 J4 J5]]. rewrite Et in J1, J2, J3. split; cbn; try done. congruence.
    + intros Hw. by apply (i_writeback _ _ _ _ HI).
  - apply free_ok_local; [apply (free_ok_ext _ k); [apply HI|done..]|done..].
  - apply loads_ok_local; [apply (loads_ok_ext _ k); [apply HI|done..]|done..].
Qed.

(** A descriptor field the invariant does not read. *)
Lemma st_descriptor V G X k f g :
  St V G X k -> (forall d, control (g d) = control d /\ d_tag (g d) = d_tag d /\ last_writeback_error (g d) = last_writeback_error d) ->
  wp (upd_desc f g) (fun _ => St V G X) k.
Proof.
  intros (E & Ef & Ec & HI) Hg. unfold wp, upd_desc, modify. split; [done|]. split; [done|]. split; [done|].
  destruct HI as [I1 I2 I3 I4 I5 I6 I7 I8 I9 I10 I11 I12 I13 I14 I15 I16 I17 I18]. split; try done. intros h Hh. cbn.
  specialize (I4 h Hh). destruct (decide (h = f)) as [->|Hne]; [|by rewrite fn_lookup_insert_ne].
  rewrite fn_lookup_insert. destruct (Hg (desc k f)) as (E1 & E2 & E3), I4 as [F1 F2 F3 F4 F5 F6 F7 F8].
  split; rewrite ?E1, ?E2, ?E3; done.
Qed.

Section Ops.
Context (V : BufferTag -> page).

Lemma release_frame_spec G k f :
  St V G [] k -> 0 <= f < N -> g_state (G f) = kResident -> 0 < c_pins (g_ctl (G f)) ->
  wp (ReleaseFrame f) (fun _ => St V (upd_ctl G f (set_pins (c_pins (g_ctl (G f)) - 1) (g_ctl (G f)))) []) k.
Proof.
  intros HS Hf Es Hp. unfold ReleaseFrame. eapply wp_seq; [by apply (unpin_spec K V G [] f Hf k)|].
  intros o k1 (_ & (w & ->) & HS1). destruct (negb _); [done|]. destruct (negb _); [done|].
  eapply wp_aside; [apply enqueue_cleaner_aside|]. intros [] k2 Ha. by eapply st_aside.
Qed.

(** ** Shared handles *)

(** The client holds the page of [tag] in [f] through a shared handle. *)
Record holding (tag : BufferTag) (f : Z) (G : Z -> ginfo) (k : kernel) : Prop := {
  hd_frame : 0 <= f < N;
  hd_st : St V G [] k;
  hd_others h : 0 <= h < N -> h <> f -> calm (G h);
  hd_resident : g_state (G f) = kResident;
  hd_tag : g_tag (G f) = tag;
  hd_own : g_own (G f) = false;
  hd_excl : c_excl (g_ctl (G f)) = false;
  hd_shared : c_shared (g_ctl (G f)) = 1;
  hd_pins : 1 <= c_pins (g_ctl (G f)) <= 2
}.

Lemma read_buffer_spec tag st k :
  scope tag -> calm_state K V k ->
  wp (ReadBuffer tag st) (fun r k' => match r with
    | Ok h => h_valid h = true /\ h_exclusive h = false /\ exists G, holding tag (h_frame h) G k'
    | Err _ => calm_state K V k'
    end) k.
Proof.
  intros Hsc Hk. unfold ReadBuffer. eapply wp_seq; [by apply (pin_page_spec K V)|].
  intros [[f latched]|e] k1 Hp; [|done]. destruct Hp as (Hmode & G & Hpn).
  destruct latched; [by specialize (Hmode eq_refl)|]. destruct Hpn as [Hf HS Ho Es Et Eo Ex Esh Ep _]. unfold MakeSharedHandle. apply wp_bind.
  eapply wp_seq; [apply (acquire_shared_spec K V G [] f Hf k1 HS Ex); rewrite Esh; unfold kMaxShared; lia|].
  intros [] k2 [_ HS2]. set (G2 := upd_ctl _ _ _) in HS2. cbn [wp ret bind h_valid h_exclusive h_frame]. split; [done|]. split; [done|]. exists G2.
  assert (G2 f = with_ctl (set_shared (c_shared (g_ctl (G f)) + 1) (g_ctl (G f))) (G f)) as E2 by (unfold G2; by rewrite upd_ctl_eq).
  split; try done; rewrite ?E2; cbn; try done; [|lia].
  intros h Hh Hne. unfold G2. rewrite upd_ctl_ne by done. by apply Ho.
Qed.

Lemma held_page tag f G k : holding tag f G k -> frame_data k f = V tag.
Proof.
  intros [Hf HS Ho Es Et Eo Ex Esh Ep]. pose proof (st_frame _ _ _ _ _ _ HS Hf) as Hfo.
  rewrite (fo_page _ _ _ _ _ _ Hfo). destruct (fo_resident _ _ _ _ _ _ Hfo Es) as (_ & _ & Hpg & _). by rewrite Hpg, Et.
Qed.

Lemma reset_shared_spec tag h G k :
  holding tag (h_frame h) G k -> h_valid h = true -> h_exclusive h = false -> wp (Reset h) (fun _ => calm_state K V) k.
Proof.
  intros [Hf HS Ho Es Et Eo Ex Esh Ep] Hv He. unfold Reset. rewrite Hv, He. cbn [negb]. set (f := h_frame h) in *. unfold ReleaseSharedHandle. apply wp_bind.
  eapply wp_seq; [apply (release_shared_spec K V G [] f Hf k HS); lia|]. intros o k3 [_ HS3]. set (G3 := upd_ctl _ _ _) in HS3.
  assert (G3 f = with_ctl (set_shared 0 (g_ctl (G f))) (G f)) as E3 by (unfold G3; by rewrite upd_ctl_eq, Esh).
  eapply wp_mono; [apply (release_frame_spec G3 k3 f HS3 Hf); rewrite E3; cbn; [done|lia]|].
  intros [] k4 HS4. cbn [wp ret bind]. eexists. split; [exact HS4|]. intros g Hg. destruct (decide (g = f)) as [->|Hne].
  - rewrite upd_ctl_eq, E3. cbn. split_and!; cbn; try done; lia.
  - rewrite upd_ctl_ne by done. unfold G3. rewrite upd_ctl_ne by done. by apply Ho.
Qed.

Lemma read_page_spec tag st k :
  scope tag -> calm_state K V k ->
  wp (read_page tag st) (fun r k' => calm_state K V k' /\ (forall p, r = Ok p -> p = V tag)) k.
Proof.
  intros Hsc Hk. unfold read_page. eapply wp_seq; [by apply read_buffer_spec|]. intros [h|e] k1 Hr; [|cbn [wp ret]; split; [done|congruence]].
  destruct Hr as (Hv & He & G & Hh). apply wp_get. rewrite (held_page _ _ _ _ Hh). eapply wp_seq; [by eapply reset_shared_spec|].
  intros h' k2 Hk2. split; [done|]. by intros p [= ->].
Qed.

(** ** Exclusive handles *)

Lemma release_exclusive_handle_spec G k f :
  St V G [] k -> 0 <= f < N -> g_state (G f) = kResident -> g_page (G f) = V (g_tag (G f)) -> 0 < c_pins (g_ctl (G f)) ->
  wp (ReleaseExclusiveHandle f)
    (fun _ => St V (upd_ctl (upd_ctl G f (released_ctl G f)) f
                      (set_pins (c_pins (g_ctl (G f)) - 1) (released_ctl G f))) []) k.
Proof.
  intros HS Hf Es Ep Hp. unfold ReleaseExclusiveHandle.
  eapply wp_seq; [by apply (st_descriptor V G [] k f)|]. intros [] k1 HS1.
  eapply wp_seq; [by apply (release_exclusive_spec K V G [] f Hf k1)|]. intros o k2 [_ HS2].
  set (G2 := upd_ctl _ _ _) in *. assert (g_ctl (G2 f) = released_ctl G f) as E2 by (unfold G2; by rewrite upd_ctl_eq).
  eapply wp_mono; [apply (release_frame_spec G2 k2 f HS2 Hf); unfold g_state in *; by rewrite E2|].
  intros [] k3 HS3. by rewrite E2 in HS3.
Qed.

End Ops.

Lemma update_page_spec V tag st mode u k :
  (forall p, page_fits (B := B) p -> page_fits (B := B) (u p)) -> page_fits (B := B) (zero_page (geometry K)) -> scope tag -> calm_state K V k ->
  wp (update_page tag st mode u) (fun r k' => match r with
    | Ok _ => exists p, (p = V tag \/ mode = kZeroAndLock /\ p = zero_page (geometry K)) /\ calm_state K (<[tag := u p]> V) k'
    | Err _ => calm_state K V k'
    end) k.
Proof.
  intros Hu Hz0 Hsc Hk. unfold update_page, ReadBufferExclusive. apply wp_bind. eapply wp_seq; [by apply (pin_page_spec K V)|].
  intros [[f latched]|e] k1 Hp; [|done]. destruct Hp as (Hmode & G & [Hf HS Ho Es Et Eo Ex Esh Epn Hz]).
  assert (exists p, frame_data k1 f = p /\ g_page (G f) = p /\ (p = V tag \/ mode = kZeroAndLock /\ p = zero_page (geometry K))) as (p0 & _ & Ep0 & Hp0).
  { pose proof (st_frame _ _ _ _ _ _ HS Hf) as Fo. exists (g_page (G f)). split; [apply Fo|]. split; [done|].
    destruct latched; [right; split; [by apply Hmode|by apply Hz]|left].
    destruct (fo_resident _ _ _ _ _ _ Fo Es) as (_ & _ & Hpg & _). rewrite Hpg by done. by rewrite Et. }
  unfold MakeExclusiveHandle. apply wp_bind.
  eapply wp_seq with (Q := fun _ => St V (upd_ctl G f (set_excl true (g_ctl (G f)))) []).
  { destruct latched; [|eapply wp_mono; [apply (acquire_exclusive_spec K V G [] f Hf k1 HS)|by intros ? ? [_ ?]]].
    - eapply st_ghost_ext; [exact HS|]. intros h. destruct (decide (h = f)) as [->|Hne]; [|by rewrite upd_ctl_ne].
      rewrite upd_ctl_eq. destruct (G f) as [[] ? ? ?]. cbn in *. by subst.
    - unfold c_latched. by rewrite Ex, Esh. }
  intros [] k2 HS2. set (G2 := upd_ctl _ _ _) in *.
  assert (G2 f = with_ctl (set_excl true (g_ctl (G f))) (G f)) as E2 by (unfold G2; by rewrite upd_ctl_eq).
  cbn [wp ret bind]. apply wp_get. cbn [h_frame].
  assert (frame_data k2 f = p0) as -> by (rewrite (fo_page _ _ _ _ _ _ (st_frame _ _ _ _ _ _ HS2 Hf)), E2; exact Ep0).
  set (p := u p0). unfold WritePage. cbn [h_valid negb marked_dirty h_frame h_exclusive h_tag]. apply wp_bind.
  eapply wp_seq; [apply (mark_dirty_spec K V G2 [] f Hf kInvalidLsn k2 HS2); by rewrite E2|]. intros [] k3 [_ HS3].
  set (G3 := upd_ctl G2 _ _) in HS3. assert (G3 f = with_ctl (marked_ctl G2 f) (G f)) as E3 by (unfold G3; rewrite upd_ctl_eq, E2; done).
  assert (marked_ctl G2 f = set_redirtied (c_redirtied (g_ctl (G f)) || c_writeback (g_ctl (G f))) (set_dirty true (set_excl true (g_ctl (G f))))) as Em
    by (unfold marked_ctl; rewrite E2; done).
  rewrite Em in E3. apply wp_modify. cbn [wp ret]. assert (page_fits (B := B) p) as Hfit.
  { apply Hu. destruct Hp0 as [->|[_ ->]]; [apply (i_fits _ _ _ _ (st_inv _ _ _ _ _ HS))|done]. }
  apply (st_write V G3 [] k3 f p) in HS3; [|done|rewrite E3; done..|done].
  set (G4 := <[f := with_page p (G3 f)]> G3) in *. set (k4 := set_data _ _) in *.
  rewrite E3 in HS3. cbn [with_ctl g_tag] in HS3. rewrite Et in HS3.
  assert (G4 f = with_page p (G3 f)) as E4 by (unfold G4; by rewrite fn_lookup_insert).
  unfold Reset. cbn [h_valid negb h_exclusive h_frame]. apply wp_bind. eapply wp_seq.
  { apply (release_exclusive_handle_spec (<[tag := p]> V) G4 k4 f HS3 Hf); rewrite E4, E3; cbn; try done; [|lia].
    by rewrite Et, fn_lookup_insert. }
  intros [] k5 HS5. cbn [wp ret bind has_value]. exists p0. split; [done|]. eexists. split; [exact HS5|]. intros h Hh.
  destruct (decide (h = f)) as [->|Hne].
  - rewrite !upd_ctl_eq, E4, E3. unfold calm, released_ctl. rewrite E4, E3. cbn. split_and!; try done; lia.
  - rewrite !upd_ctl_ne by done. unfold G4. rewrite fn_lookup_insert_ne by done. unfold G3, G2. rewrite !upd_ctl_ne by done. by apply Ho.
Qed.

Lemma write_page_spec V tag st mode p k :
  page_fits (B := B) p -> page_fits (B := B) (zero_page (geometry K)) -> scope tag -> calm_state K V k ->
  wp (write_page tag st mode p) (fun r k' => calm_state K (if has_value r then <[tag := p]> V else V) k') k.
Proof.
  intros Hp Hz0 Hsc Hk. eapply wp_mono; [by apply (update_page_spec V)|]. intros [[]|e] k' Hr; [|done]. by destruct Hr as (? & _ & ?).
Qed.
End Client.
