(* ===== verification/KernelSweep.v ===== *)
(** Writing back many frames: the sweeps of [FlushAll] and [FlushFileBuffers],
    flushing one page by name, and syncing files.  A sweep that reports success
    leaves every page it was asked for on disk. *)
From S2P Require Import Prelude Status CasLoop FrameControl Layout Replacer FlushScheduler Cleaner Interfaces.
From S2P Require Import Kernel Manager KernelInv KernelOps KernelFlush KernelWait KernelFrames KernelProgress.
From S2P Require Import KernelWriteback KernelRound KernelPin KernelRead KernelClient.

Section Sweep.
Context {T F R B : Type} `{FrameTableLaws T} `{FreeFramesLaws F} `{ReplacerLaws R} `{BackendLaws B} {SC : Scope}.
Local Open Scope kernel_scope.
Local Abbreviation kernel := (kernel T F R B).
Local Abbreviation M := (@M T F R B).
Context (K : config).
Local Abbreviation N := (pool_size K).
Local Abbreviation St := (St K).
Context (V : BufferTag -> page).
Local Abbreviation later := (later K V).

(** ** What a sweep wants of a frame *)

(** The pages it is asked for. *)
Context (want : BufferTag -> bool).

Definition settled (g : ginfo) : Prop := c_dirty (g_ctl g) = false \/ want (g_tag g) = false.

(** The flush task of a frame that is not settled yet: queued or done. *)
Definition promised (t : flush_task) (G : Z -> ginfo) (k : kernel) : Prop :=
  let c := g_ctl (G (task_frame t)) in
  t ∈ queued_tasks k /\ c_redirtied c = false /\ c_excl c = false \/
  exists s, completed k !! task_id t = Some s /\ (has_value s = true -> c_dirty c = false).

Lemma settled_evo G (k : kernel) G' X k' f : evo G k G' k' -> St V G X k -> 0 <= f < N -> settled (G f) -> settled (G' f).
Proof.
  intros He HS Hf [Hd|Hw]; [left; by apply (ev_clean _ _ (e_frames _ _ _ _ He f))|].
  pose proof (e_frames _ _ _ _ He f) as [A1 A2 A3 A4]. destruct (g_state (G f)) eqn:Es.
  - right. by rewrite (A2 eq_refl).
  - left. apply A4. by apply (fo_loading _ _ _ _ _ _ (st_frame _ _ _ _ _ _ HS Hf)).
  - right. by destruct (A1 eq_refl) as (_ & _ & -> & _).
Qed.

Lemma promised_evo t G (k : kernel) G' k' : evo G k G' k' -> promised t G k -> promised t G' k'.
Proof.
  intros He [(Hq & Hr & Hx)|(s & Es & Hs)].
  - destruct (e_queued _ _ _ _ He t Hq) as [[Hq' EG]|(s & Es & Hs)]; [left; by rewrite EG|].
    right. exists s. split; [done|auto].
  - right. exists s. split; [by apply (e_completed _ _ _ _ He)|]. intros Hv.
    by apply (ev_clean _ _ (e_frames _ _ _ _ He _)), Hs.
Qed.

Lemma later_refl G k (P : (Z -> ginfo) -> kernel -> Prop) : St V G [] k -> P G k -> later G k P k.
Proof. intros HS HP. exists G. split; [done|]. split; [apply evo_refl|done]. Qed.

(** ** Scheduling *)

Definition swept (fs : list Z) (ts : list flush_task) (bs : list Z) (G : Z -> ginfo) (k : kernel) : Prop :=
  (forall t, t ∈ ts -> promised t G k) /\ (forall b, b ∈ bs -> 0 <= b < N) /\
  forall f, f ∈ fs -> settled (G f) \/ f ∈ bs \/ exists t, t ∈ ts /\ task_frame t = f.

Context (selected : kernel -> Z -> bool)
  (Hselected : forall G k f, St V G [] k -> 0 <= f < N -> selected k f = false -> settled (G f)).

Lemma schedule_frames_spec fs G k :
  St V G [] k -> all_calm K G -> (forall f, f ∈ fs -> 0 <= f < N) ->
  wp (schedule_frames selected fs) (fun r => match r with
    | Err _ => later G k (fun _ _ => True)
    | Ok (ts, bs) => later G k (swept fs ts bs)
    end) k.
Proof.
  revert G k. induction fs as [|f fs IH]; intros G k HS Hc Hfs; cbn [schedule_frames].
  { cbn [wp ret]. apply later_refl; [done|]. split_and!; set_solver. }
  assert (0 <= f < N) as Hf by (apply Hfs; by left).
  assert (forall g, g ∈ fs -> 0 <= g < N) as Hfs' by (intros g Hg; apply Hfs; by right).
  apply wp_get. destruct (selected k f) eqn:Esel; cbn [negb].
  2: { eapply wp_mono; [by apply IH|]. intros [[ts bs]|e] k' Hl; [|done].
       destruct Hl as (G' & HS' & He & J1 & J2 & J3). exists G'. split; [done|]. split; [done|]. split_and!; try done.
       intros g Hg. apply elem_of_cons in Hg as [->|Hg]; [|by apply J3].
       left. eapply settled_evo; [done|done|done|]. by eapply Hselected. }
  eapply wp_seq; [apply (schedule_spec K V G k f None true false HS Hf); split; [by left|done]|].
  intros [[ot|e] busy] k1 Hs; [|exact Hs].
  assert (later G k (fun G1 k1 => (busy = true \/ settled (G1 f)) /\ ot = None \/
            exists t, busy = false /\ ot = Some t /\ task_frame t = f /\ promised t G1 k1) k1) as Hone.
  { destruct ot as [t|]; cbn [scheduled] in Hs.
    - destruct Hs as (-> & Et & G1 & HS1 & He1 & Hq & Hr & _ & Hx). exists G1. split; [done|]. split; [done|].
      right. exists t. split_and!; try done. left. rewrite Et. split_and!; try done. rewrite Hx. by destruct (Hc f Hf) as (_ & ? & _).
    - destruct Hs as [(G1 & HS1 & He1 & Hd) _]. exists G1. split; [done|]. split; [done|]. left. split; [|done].
      destruct busy; [by left|]. right. left. by apply Hd. }
  clear Hs. destruct Hone as (G1 & HS1 & He1 & Hone).
  eapply wp_seq; [apply (IH G1 k1 HS1); [by eapply all_calm_evo|done]|].
  intros [[ts bs]|e] k2 Hl; cbn [wp ret]; [|by eapply later_trans].
  destruct Hl as (G2 & HS2 & He2 & J1 & J2 & J3).
  assert (evo G k G2 k2) as He by by eapply evo_trans.
  destruct Hone as [[Hb ->]|(t & -> & -> & Et & Hp)].
  - assert (settled (G1 f) -> settled (G2 f)) as Hse by (intros; by eapply (settled_evo G1 k1 G2 [] k2)).
    destruct busy; exists G2; (split; [done|]); (split; [done|]); (split; [done|]); split.
    + intros b Hb'. apply elem_of_cons in Hb' as [->|Hb']; [done|by apply J2].
    + intros g Hg. apply elem_of_cons in Hg as [->|Hg]; [right; left; by left|].
      destruct (J3 g Hg) as [?|[?|?]]; [by left|right; left; by right|by right; right].
    + done.
    + intros g Hg. apply elem_of_cons in Hg as [->|Hg]; [|by apply J3]. left. destruct Hb; [done|auto].
  - exists G2. split; [done|]. split; [done|]. split; [|split; [done|]].
    + intros u Hu. apply elem_of_cons in Hu as [->|Hu]; [by eapply (promised_evo t G1 k1)|by apply J1].
    + intros g Hg. apply elem_of_cons in Hg as [->|Hg]; [right; right; exists t; split; [by left|done]|].
      destruct (J3 g Hg) as [?|[?|(u & Hu & Eu)]]; [by left|by right; left|]. right. right. exists u. split; [by right|done].
Qed.

(** ** Waiting for what was scheduled *)

Lemma promised_wait t G k : St V G [] k -> promised t G k ->
  wp (WaitTask t) (fun s => later G k (fun G' _ => has_value s = true -> c_dirty (g_ctl (G' (task_frame t))) = false)) k.
Proof.
  intros HS Hp. eapply wp_mono.
  - apply (wait_task_spec K V G k t HS). destruct Hp as [(? & _)|(s & Es & _)]; [by left|right; by exists s].
  - intros s k' (G' & HS' & He & Es). exists G'. split; [done|]. split; [done|]. intros Hs.
    destruct Hp as [(Hq & Hr & Hx)|(s' & Es' & Hd)].
    + by eapply (wait_task_done K V G k k' G' t s).
    + apply (ev_clean _ _ (e_frames _ _ _ _ He _)), Hd. apply (e_completed _ _ _ _ He) in Es'. congruence.
Qed.

Lemma first_error_ok (a b : Status) : has_value (first_error a b) = true -> has_value a = true /\ has_value b = true.
Proof. by destruct a, b. Qed.

Lemma wait_scheduled_spec ts G k :
  St V G [] k -> (forall t, t ∈ ts -> promised t G k) ->
  wp (WaitForScheduledFlushes ts) (fun s => later G k (fun G' _ => has_value s = true ->
    forall t, t ∈ ts -> c_dirty (g_ctl (G' (task_frame t))) = false)) k.
Proof.
  revert G k. induction ts as [|t ts IH]; intros G k HS Hp; cbn [WaitForScheduledFlushes].
  { cbn [wp ret]. apply later_refl; [done|]. set_solver. }
  eapply wp_seq; [apply (promised_wait t G k HS), Hp; by left|]. intros s k1 (G1 & HS1 & He1 & Hd1).
  eapply wp_seq; [apply (IH G1 k1 HS1); intros u Hu; eapply promised_evo; [done|]; apply Hp; by right|].
  intros s' k2 (G2 & HS2 & He2 & Hd2). cbn [wp ret]. exists G2. split; [done|]. split; [by eapply evo_trans|].
  intros [Ha Hb]%first_error_ok u Hu. apply elem_of_cons in Hu as [->|Hu]; [|by apply Hd2].
  apply (ev_clean _ _ (e_frames _ _ _ _ He2 _)). auto.
Qed.

(** ** Busy frames *)

Lemma flush_frame_spec G k f :
  St V G [] k -> 0 <= f < N -> c_excl (g_ctl (G f)) = false -> c_shared (g_ctl (G f)) = 0 ->
  wp (FlushFrame f) (fun s => later G k (fun G' _ => has_value s = true -> c_dirty (g_ctl (G' f)) = false)) k.
Proof.
  intros HS Hf Hx Hs. eapply wp_mono.
  { apply (flush_stable_spec K V G k f None HS Hf); [|done]. split; [by left|]. split; [done|]. unfold kMaxShared. lia. }
  intros [[]|e] k' (G' & HS' & He & Hd); exists G'; by split_and!.
Qed.

Lemma flush_busy_spec bs G k :
  St V G [] k -> all_calm K G -> (forall b, b ∈ bs -> 0 <= b < N) ->
  wp (FlushBusyFrames bs) (fun s => later G k (fun G' _ => has_value s = true ->
    forall b, b ∈ bs -> c_dirty (g_ctl (G' b)) = false)) k.
Proof.
  revert G k. induction bs as [|b bs IH]; intros G k HS Hc Hb; cbn [FlushBusyFrames].
  { cbn [wp ret]. apply later_refl; [done|]. set_solver. }
  assert (0 <= b < N) as Hb0 by (apply Hb; by left).
  eapply wp_seq; [apply (flush_frame_spec G k b HS Hb0); by apply (Hc b Hb0)|]. intros s k1 (G1 & HS1 & He1 & Hd1).
  eapply wp_seq; [apply (IH G1 k1 HS1); [by eapply all_calm_evo|intros; apply Hb; by right]|].
  intros s' k2 (G2 & HS2 & He2 & Hd2). cbn [wp ret]. exists G2. split; [done|]. split; [by eapply evo_trans|].
  intros [Ha Hb']%first_error_ok u Hu. apply elem_of_cons in Hu as [->|Hu]; [|by apply Hd2].
  apply (ev_clean _ _ (e_frames _ _ _ _ He2 _)). auto.
Qed.

(** ** The sweep *)

Lemma write_back_spec G k :
  St V G [] k -> all_calm K G ->
  wp (WriteBackFrames selected) (fun s => later G k (fun G' _ => has_value s = true -> forall f, 0 <= f < N -> settled (G' f))) k.
Proof.
  intros HS Hc. unfold WriteBackFrames. apply wp_get.
  assert (forall f, f ∈ frame_ids k <-> 0 <= f < N) as Hids.
  { intros f. unfold frame_ids. rewrite (st_cfg _ _ _ _ _ HS), elem_of_seqZ. lia. }
  eapply wp_seq; [apply (schedule_frames_spec (frame_ids k) G k HS Hc); intros f; apply Hids|].
  intros [[ts bs]|e] k1 Hl; cbn [wp ret]; [|by eapply (later_trans K V G k); [apply evo_refl|exact Hl|]].
  destruct Hl as (G1 & HS1 & He1 & Hp & Hb & Hall).
  eapply wp_seq; [by apply (wait_scheduled_spec ts G1 k1)|]. intros s k2 (G2 & HS2 & He2 & Hd2).
  assert (evo G k G2 k2) as He02 by by eapply evo_trans.
  eapply wp_seq; [apply (flush_busy_spec bs G2 k2 HS2); [by eapply all_calm_evo|done]|]. intros s' k3 (G3 & HS3 & He3 & Hd3).
  cbn [wp ret]. exists G3. split; [done|]. split; [by eapply evo_trans|]. intros [Ha Hb']%first_error_ok f Hf.
  destruct (Hall f) as [Hs|[Hs|(t & Ht & <-)]]; [by apply Hids|..].
  - apply (settled_evo G2 k2 G3 [] k3 f He3 HS2 Hf), (settled_evo G1 k1 G2 [] k2 f He2 HS1 Hf), Hs.
  - left. auto.
  - left. apply (ev_clean _ _ (e_frames _ _ _ _ He3 _)). auto.
Qed.

(** A page that was asked for is on disk. *)
Lemma settled_stored G k : St V G [] k -> (forall f, 0 <= f < N -> settled (G f)) ->
  forall t, want t = true -> contents (disk k) t = V t.
Proof.
  intros HS Hs t Hw.
  destruct (decide (Exists (fun f => g_state (G f) = kResident /\ g_tag (G f) = t) (seqZ 0 N))) as [He|Hno]; rewrite list.Exists_exists in *.
  - destruct He as (f & Hin & Es & <-). assert (0 <= f < N) as Hf by (apply elem_of_seqZ in Hin; lia). destruct (Hs f Hf) as [Hd|]; [|congruence].
    by destruct (fo_resident _ _ _ _ _ _ (st_frame _ _ _ _ _ _ HS Hf) Es) as (_ & _ & _ & Hcl & _); auto.
  - apply (i_store _ _ _ _ (st_inv _ _ _ _ _ HS)). intros f Hf Es Et. apply Hno. exists f. split; [|done].
    apply (st_pool_iff K _ _ _ _ _ HS) in Hf. apply elem_of_seqZ. lia.
Qed.
End Sweep.

Section Public.
Context {T F R B : Type} `{FrameTableLaws T} `{FreeFramesLaws F} `{ReplacerLaws R} `{BackendLaws B} {SC : Scope}.
Local Open Scope kernel_scope.
Local Abbreviation kernel := (kernel T F R B).
Local Abbreviation M := (@M T F R B).
Context (K : config).
Local Abbreviation N := (pool_size K).
Local Abbreviation St := (St K).
Context (V : BufferTag -> page).
Local Abbreviation calm_state := (calm_state K V).

(** ** Syncing *)

Lemma st_disk_same G X k b : St V G X k -> contents b = contents (disk k) -> St V G X (set_disk b k).
Proof.
  intros (E1 & E2 & E3 & [I1 I2 I3 I4 I5 I6 I7 I8 I9 I10 I11 I12 I13 I14 I15 I16 I17 I18]) Hb. split; [done|]. split; [done|]. split; [done|].
  split; try done; cbn [disk set_disk]; rewrite Hb; done.
Qed.

Definition synced (G : Z -> ginfo) (k k' : kernel) : Prop := St V G [] k' /\ contents (disk k') = contents (disk k).

Lemma sync_all_spec files G k : St V G [] k -> wp (sync_all files) (fun _ => synced G k) k.
Proof.
  revert k. induction files as [|x files IH]; intros k HS; cbn [sync_all]; [done|]. unfold wp, bind.
  pose proof (disk_sync_law x (disk k)) as Hl. destruct (disk_sync x (disk k)) as [r b]. cbn in Hl.
  specialize (IH (set_disk b k) (st_disk_same _ _ _ _ HS Hl)). unfold wp in IH.
  cbn [mbind option_bind]. destruct (sync_all files (set_disk b k)) as [[s k']|]; [|done]. destruct IH as [? E]. cbn. split; [done|]. by rewrite E.
Qed.

Lemma note_files_spec files G k k1 : synced G k k1 -> wp (for_each files NoteLocalWrittenFile) (fun _ => synced G k) k1.
Proof.
  intros Hs. apply (wp_for_each (fun _ => synced G k)); [|done]. intros x _ k2 [HS E].
  eapply wp_aside; [apply note_file_aside|]. intros [] k3 Ha. split; [by eapply st_aside|].
  destruct Ha as (g & Hg & ->). destruct (Hg k2) as ((_ & _ & _ & -> & _) & _). done.
Qed.

Lemma sync_files_spec files G k : St V G [] k -> wp (SyncFiles files) (fun _ => synced G k) k.
Proof.
  intros HS. unfold SyncFiles. destruct files as [|x files]; [done|].
  eapply wp_seq; [by apply sync_all_spec|]. intros s k1 Hs.
  eapply wp_seq with (Q := fun _ => synced G k); [destruct (has_value s); [done|by apply note_files_spec]|]. by intros [] k2.
Qed.

Lemma sync_written_spec G k : St V G [] k -> wp SyncWrittenFiles (fun _ => synced G k) k.
Proof.
  intros HS. unfold SyncWrittenFiles. apply wp_get, wp_modify.
  eapply wp_mono; [apply (sync_files_spec _ G); by apply (st_neutral K V G [] k (set_written []))|]. done.
Qed.

Lemma usable_spec {A} (m : M (Result A)) G X Q k : St V G X k -> wp m Q k -> wp (usable_then m) Q k.
Proof. intros HS Hm. unfold usable_then. apply wp_bind. eapply wp_run; [by eapply usable_run|done]. Qed.

Lemma calm_later G k P k' : all_calm K G -> later K V G k P k' -> calm_state k'.
Proof. intros Hc (G' & HS & He & _). exists G'. split; [done|by eapply all_calm_evo]. Qed.

Lemma sync_file_spec file k :
  calm_state k -> wp (SyncFile file) (fun _ k' => calm_state k' /\ contents (disk k') = contents (disk k)) k.
Proof.
  intros (G & HS & Hc). eapply usable_spec; [done|]. apply wp_modify.
  eapply wp_mono; [apply (sync_files_spec _ G); by apply (st_neutral K V G [] k (fun k => set_written (without file (written_files k)) k))|].
  intros s k' [? E]. split; [by exists G|done].
Qed.

(** ** The sweeps *)

(** With every frame clean nothing is left to write. *)
Lemma clean_no_tasks G k : St V G [] k -> (forall f, 0 <= f < N -> c_dirty (g_ctl (G f)) = false) -> queued_tasks k = [].
Proof.
  intros HS Hcl. destruct (queued_tasks k) as [|t l] eqn:Eq; [done|]. exfalso.
  destruct (i_tasks _ _ _ _ (st_inv _ _ _ _ _ HS)) as [_ Hall]. destruct (Hall t) as [Hin [J1 J2 _ _ _]].
  { unfold all_tasks. rewrite Eq. by left. }
  apply (st_pool_iff K V G [] k _ HS) in Hin.
  destruct (fo_resident _ _ _ _ _ _ (st_frame _ _ _ _ _ _ HS Hin) J1) as (_ & _ & _ & _ & Hw). by rewrite Hcl in Hw by done; specialize (Hw J2).
Qed.

Lemma flush_all_spec k :
  calm_state k -> wp FlushAll (fun s k' => calm_state k' /\
    (has_value s = true -> (forall t, contents (disk k') t = V t) /\ queued_tasks k' = [])) k.
Proof.
  intros (G & HS & Hc). eapply usable_spec; [done|].
  eapply wp_seq; [by apply (write_back_spec K V (fun _ => true) (fun _ _ => true) ltac:(done) G k)|].
  intros s k1 (G1 & HS1 & He1 & Hs). assert (all_calm K G1) as Hc1 by by eapply all_calm_evo.
  destruct s as [[]|e]; [|cbn [wp ret]; split; [by exists G1|done]].
  eapply wp_mono; [by apply (sync_written_spec G1)|]. intros s k2 [HS2 E]. split; [by exists G1|]. intros _. split.
  - intros t. rewrite E. by apply (settled_stored K V (fun _ => true) G1 k1 HS1 (Hs eq_refl)).
  - apply (clean_no_tasks G1 k2 HS2). intros f Hf. by destruct (Hs eq_refl f Hf).
Qed.

Lemma flush_file_spec file k :
  calm_state k ->
  wp (FlushFileBuffers file) (fun s k' => calm_state k' /\
    (has_value s = true -> forall t, file_id t = file -> contents (disk k') t = V t)) k.
Proof.
  intros (G & HS & Hc). eapply usable_spec; [done|]. set (want := fun t => file_id t =? file).
  eapply wp_mono; [apply (write_back_spec K V want _); [|done|done]|].
  - intros G' k' f HS' Hf Hsel. destruct (decide (g_state (G' f) = kFree)) as [Es|Es].
    + left. by apply (fo_free _ _ _ _ _ _ (st_frame _ _ _ _ _ _ HS' Hf)).
    + right. unfold want. by rewrite <- (fo_tag _ _ _ _ _ _ (st_frame _ _ _ _ _ _ HS' Hf) Es).
  - intros s k1 (G1 & HS1 & He1 & Hs). split; [exists G1; split; [done|by eapply all_calm_evo]|]. intros Hv t <-.
    apply (settled_stored K V want G1 k1 HS1 (Hs Hv)). apply Z.eqb_refl.
Qed.

Lemma checkpoint_frames_spec lsn fs k :
  calm_state k -> (forall f, f ∈ fs -> 0 <= f < N) -> wp (checkpoint_frames lsn fs) (fun _ => calm_state) k.
Proof.
  revert k. induction fs as [|f fs IH]; intros k Hk Hfs; cbn [checkpoint_frames]; [done|].
  assert (0 <= f < N) as Hf by (apply Hfs; by left).
  eapply wp_seq with (Q := fun _ => calm_state).
  2: { intros [[]|e] k1 Hk1; [|done]. apply IH; [done|]. intros g Hg. apply Hfs. by right. }
  refine (wp_loop (fun _ => calm_state) (fun _ k1 => if IsDirty (control (desc k1 f)) then 1%nat else 0%nat) _ _ _ _ k _ Hk _);
    [|destruct (IsDirty _); lia].
  intros [] k1 (G1 & HS1 & Hc1). apply wp_get. destruct (before_lsn lsn k1 f); cbn [negb]; [|by exists G1].
  destruct (Hc1 f Hf) as (_ & Hx & Hsh & _).
  eapply wp_seq; [apply (round_spec K V G1 k1 f None HS1 Hf); split; [by left|]; split; [done|unfold kMaxShared; lia]|].
  intros [[]|e] k2 Hl; cbn [wp ret]; [|by eapply calm_later..]. split; [by eapply calm_later|].
  destruct Hl as (G2 & HS2 & He2 & Hd & Hcl).
  rewrite (word_dirty K V G2 [] k2 f HS2 Hf), (word_dirty K V G1 [] k1 f HS1 Hf), Hd, Hcl by done. lia.
Qed.

Lemma checkpoint_spec lsn k : calm_state k -> wp (CheckpointBuffers lsn) (fun _ => calm_state) k.
Proof.
  intros (G & HS & Hc). eapply usable_spec; [done|].
  eapply wp_seq; [apply (write_back_spec K V (fun _ => false) (before_lsn lsn) ltac:(by right) G k HS Hc)|].
  intros [[]|e] k1 Hl; [|by eapply calm_later]. apply calm_later in Hl; [|done]. apply wp_get.
  eapply wp_seq; [apply (checkpoint_frames_spec lsn (frame_ids k1) k1 Hl)|].
  { destruct Hl as (G1 & HS1 & _). intros f. unfold frame_ids. rewrite (st_cfg _ _ _ _ _ HS1), elem_of_seqZ. lia. }
  intros [[]|e] k2 Hk2; [|done]. destruct Hk2 as (G2 & HS2 & Hc2).
  eapply wp_mono; [by apply (sync_written_spec G2)|]. intros s k3 [? _]. by exists G2.
Qed.

(** ** One page by name *)

Lemma flush_buffer_spec tag k :
  calm_state k -> wp (FlushBuffer tag) (fun s k' => calm_state k' /\ (has_value s = true -> contents (disk k') tag = V tag)) k.
Proof.
  intros (G & HS & Hc). eapply usable_spec; [done|]. apply wp_get. pose proof (lookup_page K V G k tag HS) as Hl.
  pose proof (st_inv _ _ _ _ _ HS) as HI.
  assert (forall f, 0 <= f < N -> g_state (G f) <> kFree -> g_tag (G f) = tag -> g_state (G f) <> kResident -> contents (disk k) tag = V tag) as Hload.
  { intros f Hf Hs Et Er. apply (i_store _ _ _ _ HI). intros h Hh Es Eth.
    assert (h = f) as -> by (apply (i_unique _ _ _ _ HI); [done|by eapply st_pool|congruence..]). done. }
  destruct (lookup_frame tag (table k)) as [f|].
  2: { cbn [wp ret]. split; [by exists G|]. intros _. apply (i_store _ _ _ _ HI). intros h Hh Es Et.
       apply (st_pool_iff K V G [] k h HS) in Hh. apply (Hl h Hh); congruence. }
  destruct Hl as (Hf & Hs & Et). destruct (Hc f Hf) as (Co & Cx & Cs & Cp). unfold TryPinResidentFrame. apply wp_bind.
  eapply wp_seq; [apply (pin_spec K V G [] f Hf k HS); unfold kMaxPins; lia|]. intros [] k1 [Ht1 Hb]; cbn [negb].
  2: { destruct Hb as [Es HS1]. cbn [wp ret bind negb]. split; [by exists G|]. intros _. rewrite (touched_contents _ _ _ Ht1). by apply (Hload f). }
  destruct Hb as [Es HS1]. set (G1 := upd_ctl _ _ _) in HS1. unfold LoadTag. apply wp_get.
  assert (G1 f = with_ctl (set_pins (c_pins (g_ctl (G f)) + 1) (g_ctl (G f))) (G f)) as E1 by (unfold G1; by rewrite upd_ctl_eq).
  assert (d_tag (desc k1 f) = tag) as ->.
  { rewrite <- Et. pose proof (fo_tag _ _ _ _ _ _ (st_frame _ _ _ _ _ _ HS1 Hf)) as Hx. rewrite E1 in Hx. by apply Hx. }
  rewrite (proj2 (tag_eqb_eq tag tag) eq_refl). cbn [negb]. apply wp_ret. unfold wp at 1, ret at 1. cbn [negb].
  eapply wp_seq; [apply (flush_frame_spec K V G1 k1 f HS1 Hf); by rewrite E1|]. intros s k2 (G2 & HS2 & He2 & Hd2).
  destruct (ev_resident _ _ (e_frames _ _ _ _ He2 f)) as (R1 & R2 & R3 & R4 & R5 & R6 & R7); [by rewrite E1|]. rewrite E1 in R2, R3, R5, R6, R7. cbn in R2, R3, R5, R6, R7.
  eapply wp_seq; [apply (release_frame_spec K V G2 k2 f HS2 Hf R1); lia|]. intros [] k3 HS3. cbn [wp ret].
  set (G3 := upd_ctl _ _ _) in HS3. assert (G3 f = with_ctl (set_pins (c_pins (g_ctl (G2 f)) - 1) (g_ctl (G2 f))) (G2 f)) as E3 by (unfold G3; by rewrite upd_ctl_eq).
  split.
  - exists G3. split; [done|]. intros h Hh. destruct (decide (h = f)) as [->|Hne].
    + rewrite E3. unfold calm. cbn. rewrite R2, R5, R6, R7. split_and!; try done; lia.
    + unfold G3. rewrite upd_ctl_ne by done. eapply calm_evolved; [|by eapply st_ctl_ok|apply (e_frames _ _ _ _ He2 h)].
      unfold G1. rewrite upd_ctl_ne by done. by apply Hc.
  - intros Hv. destruct (fo_resident _ _ _ _ _ _ (st_frame _ _ _ _ _ _ HS3 Hf)) as (_ & _ & _ & Hcl & _); [by rewrite E3|].
    rewrite E3 in Hcl. cbn in Hcl. rewrite R3, Et in Hcl. auto.
Qed.

(** ** The background *)

Lemma cleaner_flush_spec f k : calm_state k -> 0 <= f < N -> wp (ScheduleCleanerFlush f) (fun _ => calm_state) k.
Proof.
  intros (G & HS & Hc) Hf. unfold ScheduleCleanerFlush.
  eapply wp_seq; [apply (schedule_spec K V G k f None true true HS Hf); split; [by left|done]|].
  intros [[[t|]|e] busy] k1; cbn [scheduled wp ret]; [intros (_ & _ & Hl)|intros [Hl _]|intros Hl]; by eapply calm_later.
Qed.

Lemma worker_spec k : calm_state k -> wp worker_round (fun _ => calm_state) k.
Proof.
  intros (G & HS & Hc). eapply wp_mono; [by apply worker_round_spec|]. intros b k' (G' & HS' & He & _).
  exists G'. split; [done|by eapply all_calm_evo].
Qed.

Lemma load_spec k : calm_state k -> wp complete_load (fun _ => calm_state) k.
Proof.
  intros (G & HS & Hc). eapply wp_mono; [by apply complete_load_spec|]. intros b k' (G' & HS' & He & _).
  exists G'. split; [done|by eapply all_calm_evo].
Qed.
End Public.
