(* ===== verification/KernelPrefetch.v ===== *)
(** Prefetching: frames are reserved one by one, gathered into requests and handed
    over to the reads in flight.  A prefetch changes no page, whatever part of it
    succeeds, and later reads and the completion of the requests find a state the
    rest of the manager relies on. *)
From S2P Require Import Prelude Status CasLoop FrameControl Layout Replacer FlushScheduler Cleaner Interfaces.
From S2P Require Import Kernel Manager AsyncRead KernelInv KernelOps KernelFlush KernelWait KernelFrames.
From S2P Require Import KernelProgress KernelWriteback KernelRound KernelPin KernelRead KernelClient.
From S2P Require Import KernelSweep.

Section Prefetch.
Context {T F R B : Type} `{FrameTableLaws T} `{FreeFramesLaws F} `{ReplacerLaws R} `{BackendLaws B} {SC : Scope}.
Local Abbreviation kernel := (kernel T F R B).
Local Abbreviation M := (@M T F R B).
Context (K : config).
Local Abbreviation N := (pool_size K).
Local Abbreviation St := (St K).
Context (V : BufferTag -> page).

(** ** Requests being put together *)

Definition entries (ls : list async_load) : list load_entry := mjoin (al_entries <$> ls).

Lemma entries_append n o e ls : entries (AppendAsyncLoad n o e ls) ≡ₚ e :: entries ls.
Proof.
  unfold entries, AppendAsyncLoad. destruct ls as [|l ls]; [done|]. destruct (extends_last n l e.1.1); [|done]. cbn.
  rewrite <- app_assoc. cbn. symmetry. apply Permutation_middle.
Qed.

Lemma entries_rev ls : entries (rev ls) ≡ₚ entries ls.
Proof.
  induction ls as [|l ls IH]; [done|]. unfold entries in *. cbn [rev]. rewrite fmap_app, join_app, IH. cbn.
  rewrite app_nil_r. apply Permutation_app_comm.
Qed.

(** The frames of [es] are reserved for their pages and owned by the call. *)
Definition gathered (es : list load_entry) (k : kernel) : Prop :=
  exists G, St V G [] k /\ poised K (entry_frame <$> es) G G /\ NoDup (entry_frame <$> es) /\
    forall e, e ∈ es -> claimed_entry K G e.

Lemma gathered_perm es es' k : es ≡ₚ es' -> gathered es k -> gathered es' k.
Proof.
  intros Hp (G & HS & Hq & Hnd & Hcl). exists G. split; [done|]. split; [|split].
  - intros f Hf. destruct (Hq f Hf) as (E & ? & ? & ? & Hj). rewrite E. split_and!; try done; try lia.
    + apply bool_decide_ext. by rewrite Hp.
    + by rewrite <- Hp.
  - by rewrite <- Hp.
  - intros e. rewrite <- Hp. apply Hcl.
Qed.

Lemma gathered_nil k : gathered [] k <-> calm_state K V k.
Proof.
  split.
  - intros (G & HS & Hq & _). exists G. split; [done|]. by apply (poised_nil K G).
  - intros (G & HS & Hc). exists G. split; [done|]. split; [by apply poised_nil|]. split; [constructor|]. by intros e ?%not_elem_of_nil.
Qed.

(** A page that is not found is in no frame. *)
Lemma not_resident_unheld G k tag :
  St V G [] k -> match lookup_frame tag (table k) with None => false | Some f => IsLiveFor k f tag end = false -> unheld K G tag.
Proof.
  intros HS Hl. pose proof (lookup_page K V G k tag HS) as Hlk. destruct (lookup_frame tag (table k)) as [f|]; [|done].
  destruct Hlk as (Hf & Hs & Et). exfalso. unfold IsLiveFor in Hl. destruct (word_fields K V G [] k f HS Hf) as (w & Ew & Hok).
  rewrite Ew, StateIs_encode in Hl by done. unfold c_is in Hl.
  change (c_state (set_waiters w (g_ctl (G f)))) with (g_state (G f)) in Hl. rewrite bool_decide_false in Hl by done.
  rewrite (fo_tag _ _ _ _ _ _ (st_frame _ _ _ _ _ _ HS Hf) Hs), (proj2 (tag_eqb_eq _ _) Et) in Hl. done.
Qed.

Lemma gathered_without es G G1 tag k :
  (forall e, e ∈ es -> claimed_entry K G e) -> NoDup (entry_frame <$> es) ->
  poised K (entry_frame <$> es) G G1 -> St V G1 [] k -> absent K G1 tag -> gathered es k.
Proof.
  intros Hcl Hnd Hq HS _. exists G1. split; [done|]. split; [|split; [done|]].
  - intros f Hf. destruct (Hq f Hf) as (? & ? & ? & ? & Hj). split_and!; try done; try lia. intros Hin. destruct (Hj Hin) as [-> ?]. done.
  - intros e He. specialize (Hcl e He). destruct Hcl as (Hf & Hr). destruct (Hq _ Hf) as (_ & _ & _ & _ & Hj).
    unfold claimed_entry. destruct (Hj ltac:(by apply list_elem_of_fmap_2)) as [-> _]. done.
Qed.

(** One more frame. *)
Lemma gathered_cons es G G1 tag r i k :
  (forall e, e ∈ es -> claimed_entry K G e) -> NoDup (entry_frame <$> es) ->
  poised K (entry_frame <$> es) G G1 -> 0 <= res_frame r < N -> res_frame r ∉ entry_frame <$> es ->
  St V (<[res_frame r := reserved (G1 (res_frame r)) tag]> G1) [] k -> gathered ((tag, r, i) :: es) k.
Proof.
  intros Hcl Hnd Hq Hf Hni HS. set (f := res_frame r) in *. set (G2 := <[f := reserved (G1 f) tag]> G1) in *.
  assert (G2 f = reserved (G1 f) tag) as Ef by (unfold G2; by rewrite fn_lookup_insert).
  assert (forall h, h <> f -> G2 h = G1 h) as Eh by (intros h Hh; unfold G2; by rewrite fn_lookup_insert_ne).
  exists G2. split; [done|]. rewrite fmap_cons. change (entry_frame (tag, r, i)) with f. split; [|split].
  - intros h Hh. destruct (decide (h = f)) as [->|Hne].
    + rewrite Ef. cbn. rewrite bool_decide_true by (by left). split_and!; try done; lia.
    + rewrite Eh by done. destruct (Hq h Hh) as (E & ? & ? & ? & Hj). rewrite E. split_and!; try done; try lia.
      * apply bool_decide_ext. rewrite elem_of_cons. tauto.
      * intros Hin. split; [done|]. apply elem_of_cons in Hin as [?|Hin]; [done|]. destruct (Hj Hin) as [-> ?]. done.
  - apply list.NoDup_cons. done.
  - intros e He. apply elem_of_cons in He as [->|He].
    + unfold claimed_entry. change (entry_frame (tag, r, i)) with f. rewrite Ef. by split_and!; try done; lia.
    + assert (entry_frame e ∈ entry_frame <$> es) as Hin by (by apply list_elem_of_fmap_2).
      assert (entry_frame e <> f) as Hne by (intros E; rewrite E in Hin; done).
      destruct (Hcl e He) as (He1 & He2). destruct (Hq _ He1) as (_ & _ & _ & _ & Hj). destruct (Hj Hin) as [EG _].
      unfold claimed_entry. rewrite Eh, EG by done. done.
Qed.

Lemma prefetch_loop_spec file block idx ls k :
  (forall i, i ∈ idx -> scope (MkTag file (u64 (block + Z.of_nat i)))) -> gathered (entries ls) k -> wp (prefetch_loop file block idx ls) (fun r => gathered (entries r.1)) k.
Proof.
  revert ls k. induction idx as [|i idx IH]; intros ls k Hsc Hk; cbn [prefetch_loop]; [done|].
  assert (forall j, j ∈ idx -> scope (MkTag file (u64 (block + Z.of_nat j)))) as Hsc' by (intros; apply Hsc; by right).
  set (tag := MkTag file _). unfold IsResidentTag. apply wp_get.
  destruct (match lookup_frame tag (table k) with None => _ | Some _ => _ end) eqn:Er; [by apply IH|].
  destruct Hk as (G & HS & Hq & Hnd & Hcl). pose proof (not_resident_unheld G k tag HS Er) as Ha.
  assert (absent K G tag) as Hab by (split; [apply Hsc; by left|done]).
  eapply wp_seq; [apply (reserve_for_tag_spec K V (entry_frame <$> entries ls) G tag None false); [by exists G|done]|].
  intros [[r|]|e] k1 Hr; [|done|].
  - destruct Hr as (G1 & Hf & Hni & Hq1 & Ha1 & HS1). unfold max_blocks. apply wp_get. apply IH; [done|].
    eapply gathered_perm; [symmetry; apply entries_append|]. by eapply gathered_cons.
  - destruct Hr as (G1 & HS1 & Hq1 & Ha1). cbn [wp ret fst]. by eapply gathered_without.
Qed.

(** ** Handing the requests over *)

Definition release (es : list load_entry) (G : Z -> ginfo) : Z -> ginfo :=
  fun f => if decide (f ∈ entry_frame <$> es) then with_own false (G f) else G f.

Lemma hand_over l ls k :
  gathered (entries (l :: ls)) k -> gathered (entries ls) (set_loads (loads k ++ [l]) k).
Proof.
  intros (G & HS & Hq & Hnd & Hcl). change (entries (l :: ls)) with (al_entries l ++ entries ls) in *.
  rewrite fmap_app in Hq, Hnd. apply list.NoDup_app in Hnd as (Hnd1 & Hdisj & Hnd2).
  destruct (i_loads _ _ _ _ (st_inv _ _ _ _ _ HS)) as (Ld & Le & Lt).
  assert (forall e, e ∈ al_entries l -> claimed_entry K G e) as Hcl1 by (intros e He; apply Hcl, elem_of_app; by left).
  assert (forall f, f ∈ entry_frame <$> al_entries l -> g_state (G f) = kLoading /\ g_own (G f) = true /\ 0 <= f < N) as Hin.
  { intros f Hf. apply list_elem_of_fmap in Hf as (e & -> & He). destruct (Hcl1 e He) as (? & ? & ? & _). done. }
  assert (forall f, g_tag (release (al_entries l) G f) = g_tag (G f) /\ g_ctl (release (al_entries l) G f) = g_ctl (G f)) as Hsame.
  { intros f. unfold release. by destruct (decide _). }
  assert (forall f, f ∉ entry_frame <$> al_entries l -> release (al_entries l) G f = G f) as Hother.
  { intros f Hf. unfold release. by rewrite decide_False. }
  exists (release (al_entries l) G). split.
  - apply (st_reown K V G _ [] k _ HS).
    { intros f. unfold release. destruct (decide _) as [Hd|]; [|by left]. right. split; [by apply Hin|by exists false]. }
    assert (load_entries (set_loads (loads k ++ [l]) k) = load_entries k ++ al_entries l) as El.
    { unfold load_entries. cbn. rewrite fmap_app, join_app. cbn. by rewrite app_nil_r. }
    unfold loads_ok. rewrite El, fmap_app. split; [|split].
    + apply list.NoDup_app. split; [done|]. split; [|done]. intros f Hf Hf'. apply Le in Hf as (_ & _ & Ho).
      destruct (Hin f Hf') as (_ & ? & _). congruence.
    + intros f. change (in_pool (set_loads (loads k ++ [l]) k) f) with (in_pool k f). rewrite elem_of_app, Le. unfold g_state.
      rewrite (proj2 (Hsame f)). unfold release. destruct (decide _) as [Hd|Hd]; [|tauto]. destruct (Hin f Hd) as (Hs & Ho & Hr).
      cbn. split; [intros _; split; [by eapply st_pool|done]|by right].
    + intros e He. rewrite (proj1 (Hsame _)). apply elem_of_app in He as [He|He]; [by apply Lt|]. by destruct (Hcl1 e He) as (_ & _ & _ & ?).
  - split; [|split; [done|]].
    + intros f Hf. destruct (Hq f Hf) as (E & ? & ? & ? & Hj). rewrite (proj2 (Hsame f)). split_and!; try done; try lia.
      * unfold release. destruct (decide _) as [Hd|Hd]; cbn.
        -- symmetry. apply bool_decide_false. by apply Hdisj.
        -- rewrite E. apply bool_decide_ext. rewrite elem_of_app. tauto.
      * intros Hf'. split; [done|]. unfold g_state. rewrite (proj2 (Hsame f)). destruct Hj as [_ ?]; [by apply elem_of_app; right|done].
    + intros e He. destruct (Hcl e) as (C1 & C2 & C3 & C4); [by apply elem_of_app; right|]. unfold claimed_entry.
      rewrite Hother; [done|]. intros Hd. apply (Hdisj _ Hd). by apply list_elem_of_fmap_2.
Qed.

Lemma gathered_operations es o k : gathered es k -> gathered es (set_operations o k).
Proof. intros (G & HS & Hr). exists G. split; [by apply st_operations|done]. Qed.

Lemma submit_spec ls k : gathered (entries ls) k -> wp (SubmitAsyncLoads ls) (fun _ => calm_state K V) k.
Proof.
  revert k. induction ls as [|l ls IH]; intros k Hk; cbn [SubmitAsyncLoads]; [by apply gathered_nil|].
  eapply wp_seq with (Q := fun _ => gathered (entries (l :: ls))).
  { destruct (al_operation l); [by apply gathered_operations|done]. }
  intros [] k1 Hk1. apply wp_modify, IH. by apply hand_over.
Qed.

Lemma prefetch_spec file block n k :
  (forall i, (i < n)%nat -> scope (MkTag file (u64 (block + Z.of_nat i)))) -> calm_state K V k ->
  wp (PrefetchBuffer file block n) (fun _ => calm_state K V) k.
Proof.
  intros Hsc Hk. pose proof Hk as (G & HS & _). eapply usable_spec; [done|].
  eapply wp_seq; [apply (prefetch_loop_spec file block (seq 0 n) []); [intros i Hi; apply Hsc; apply elem_of_seq in Hi; lia|]; by apply gathered_nil|]. intros [ls s] k1 Hg. cbn [fst snd] in *.
  eapply wp_seq; [apply submit_spec; eapply gathered_perm; [symmetry; apply entries_rev|exact Hg]|]. intros [] k2 Hk2. done.
Qed.
End Prefetch.
