(* ===== verification/KernelDrop.v ===== *)
(** Dropping the pages of a file from a block on ([DropFileBuffers]): a dropped
    page reads again as the disk has it, other pages keep their contents, and the
    call returns. *)
From stdpp Require Import strings.
From S2P Require Import Prelude Status CasLoop FrameControl Layout Replacer FlushScheduler Cleaner Interfaces.
From S2P Require Import Kernel Manager KernelInv KernelOps KernelFlush KernelWait KernelFrames KernelProgress.
From S2P Require Import KernelWriteback KernelRound KernelPin KernelRead KernelClient KernelSweep.

(** The pages a drop is about. *)
Definition in_range (file first_block : Z) (t : BufferTag) : bool := (file_id t =? file) && (first_block <=? block_id t).

Section Drop.
Context {T F R B : Type} `{FrameTableLaws T} `{FreeFramesLaws F} `{ReplacerLaws R} `{BackendLaws B} {SC : Scope}.
Local Open Scope kernel_scope.
Local Abbreviation kernel := (kernel T F R B).
Local Abbreviation M := (@M T F R B).
Context (K : config).
Local Abbreviation N := (pool_size K).
Local Abbreviation St := (St K).

(** ** Discarding one frame *)

(** What follows a successful [TryDiscardPinned]. *)
Definition discard_rest (f : Z) (tag : BufferTag) (previous : option Z) (result : Status) : M (unit + Status) :=
  (if match previous with Some w => IsDirty w | None => false end
   then modify (fun k => set_dirty_count (u64 (dirty_page_count k - 1)) k) else ret tt) ;;
  upd_desc f (set_rec_lsn kInvalidLsn) ;;
  upd_desc f (set_writeback_rec_lsn kInvalidLsn) ;;
  modify (fun k => set_table (remove_frame tag f (table k)) k) ;;
  modify (fun k => set_replacer (Remove 0 f (replacer k)) k) ;;
  StoreTag f no_page ;;
  ReleaseFreeFrame f ;;
  ret (inr result).

Definition dropped_ctl : ctl := Ctl kFree false false false false false false 0 false 0.

Lemma discard_word V G X k f :
  St V G X k -> 0 <= f < N -> g_state (G f) = kResident ->
  exists w o k1, on_word f TryDiscardPinned k = Some (o, k1) /\ touched f k k1 /\
    let c := g_ctl (G f) in
    (if c_writeback c then o = (kWriteback, None) /\ St V G X k1
     else if negb (c_pins c =? 1) then o = (kBusy, None) /\ St V G X k1
     else if c_latched c then o = (kLatched, None) /\ St V G X k1
     else o = (kDiscarded, Some (encode (set_waiters w c))) /\ ctl_ok (set_waiters w c) /\
       k1 = set_desc (<[f := set_control (encode dropped_ctl) (desc k f)]> (desc k)) k).
Proof.
  intros HS Hf Es. destruct (st_word_of K V G X f Hf k HS) as (w & Ew & Hok & Hc). exists w.
  destruct (TryDiscardPinned_encode _ Hok) as [Eb _]. rewrite (on_word_run _ discard_ctl _ k f _ Ew Eb). unfold discard_ctl, c_is.
  change (c_writeback (set_waiters w (g_ctl (G f)))) with (c_writeback (g_ctl (G f))).
  change (c_state (set_waiters w (g_ctl (G f)))) with (g_state (G f)). change (c_pins (set_waiters w (g_ctl (G f)))) with (c_pins (g_ctl (G f))).
  change (c_latched (set_waiters w (g_ctl (G f)))) with (c_latched (g_ctl (G f))).
  rewrite bool_decide_true by done. cbn [negb orb]. pose proof (st_same_word K V G X k f _ HS Ew) as HSw.
  destruct (c_writeback _); [|destruct (_ =? 1); cbn [negb]; [destruct (c_latched _)|]];
    eexists _, _; (split; [done|]); (split; [apply touched_desc|]); done.
Qed.

Lemma discard_spec V G k f w result :
  St V G [] k -> 0 <= f < N -> g_state (G f) = kResident -> c_writeback (g_ctl (G f)) = false -> ctl_ok (set_waiters w (g_ctl (G f))) ->
  wp (discard_rest f (g_tag (G f)) (Some (encode (set_waiters w (g_ctl (G f))))) result)
    (fun r k' => r = inr result /\ exists p,
      St (<[g_tag (G f) := contents (disk k) (g_tag (G f))]> V) (<[f := GInfo dropped_ctl false (g_tag (G f)) p]> G) [] k')
    (set_desc (<[f := set_control (encode dropped_ctl) (desc k f)]> (desc k)) k).
Proof.
  intros HS Hf Es Ewb Hok. pose proof (st_inv _ _ _ _ _ HS) as HI. pose proof (st_pool _ _ _ _ _ _ HS Hf) as Hin. set (tag := g_tag (G f)).
  pose proof (st_frame _ _ _ _ _ _ HS Hf) as [F1 F2 F3 F4 F5 F6 F7 F8]. destruct (F8 Es) as (Eo & _).
  destruct (i_table V G [] k HI) as [Htb Hfn]. destruct (i_replacer V G [] k HI) as [Hv Hfr].
  destruct (remove_law tag f (table k) Htb) as (Htb' & Hfn' & He & Hef); [by rewrite Hfn|].
  destruct (Replacer.remove_law 0 f (replacer k) Hv) as (Hv' & Hfr' & Htr); [by rewrite Hfr|].
  destruct (dirty_shift K V G [] k f HS Hf) as [_ Hdown]. unfold discard_rest. rewrite IsDirty_encode by done.
  change (c_dirty (set_waiters w (g_ctl (G f)))) with (c_dirty (g_ctl (G f))). set (k0 := set_desc _ k).
  eapply wp_seq with (Q := fun _ k1 => k1 = set_dirty_count (dirty_page_count k - b2z (c_dirty (g_ctl (G f)))) k0).
  { destruct (c_dirty (g_ctl (G f))) eqn:Ed; cbn [wp ret modify].
    - change (dirty_page_count k0) with (dirty_page_count k). by rewrite Hdown.
    - destruct k; cbn. by rewrite Z.sub_0_r. }
  intros [] k1 ->. unfold upd_desc, StoreTag, upd_desc. do 5 apply wp_modify. unfold ReleaseFreeFrame. apply wp_bind.
  set (k2 := set_desc _ (set_replacer _ _)). apply wp_bind. eapply wp_mono; [apply reset_cleaner_aside|].
  intros [] k3 (g & Hg & ->). destruct (Hg k2) as (Hs & E1 & E2 & E3 & E4 & E5 & E6 & E7 & E8). set (k3 := g k2) in *.
  pose proof Hs as (S1 & S2 & S3 & S4 & S5 & S6 & S7 & S8).
  apply (wp_run _ _ _ tt (set_free (push_free f (free k3)) k3)); [done|]. set (k4 := set_free _ k3). cbn [wp ret]. split; [done|].
  exists (frame_data k f).
  assert (desc k4 f = set_tag no_page (set_writeback_rec_lsn kInvalidLsn (set_rec_lsn kInvalidLsn (set_control (encode dropped_ctl) (desc k f))))) as Edf.
  { change (desc k4) with (desc k3). rewrite E1. cbn. by rewrite !fn_lookup_insert. }
  assert (frame_data k4 = frame_data k) as Edat by (change (frame_data k4) with (frame_data k3); by rewrite E2).
  eapply (st_store_update K V _ G [] [] k k4 f); try done.
  - assert (outside f k k2) as HO.
    { split; cbn; try done.
      - intros h _ Hne. by apply He.
      - intros h Hne. rewrite Htr. auto.
      - intros h Hne. by rewrite !fn_lookup_insert_ne. }
    destruct (outside_same f k k2 k3 HO Hs E1 E2 E4 E5). by split.
  - intros t [Hne|?]; [|done]. by rewrite fn_lookup_insert_ne.
  - intros t. destruct (decide (t = tag)) as [->|Hne]; [rewrite fn_lookup_insert; apply contents_law|rewrite fn_lookup_insert_ne by done; apply HI].
  - change (table k4) with (table k3). rewrite S2. change (table k2) with (remove_frame tag f (table k)). rewrite Hef, decide_True; [done|].
    rewrite (i_entry V G [] k HI f Hin). unfold entry_of. by rewrite decide_False by congruence.
  - rewrite Edf, Edat. split; try done; cbn. by exists false.
  - intros _. right. by rewrite fn_lookup_insert.
  - change (dirty_page_count k4) with (dirty_page_count k3). rewrite E3. cbn. lia.
  - by apply (tasks_none V G).
  - eapply (free_ok_push G k); try done; [apply HI|apply HI|intros [? _]; congruence|]. cbn [k4 free set_free]. by rewrite S5.
  - eapply (loads_ok_ext _ k); [|done..]. apply loads_ok_other; [apply HI|intros [? _]; congruence|by intros [? _]].
Qed.

(** ** The sweep over the frames *)

Context (V : BufferTag -> page) (file first_block : Z).
Local Abbreviation range := (in_range file first_block).

(** The frame holds no page of the range. *)
Definition cleared (g : ginfo) : Prop := g_state g = kFree \/ range (g_tag g) = false.

Lemma cleared_evolved g g' : evolved g g' -> cleared g -> cleared g'.
Proof.
  intros [A1 A2 A3 _] [Hs|Hr]; [left; by rewrite (A2 Hs)|]. unfold cleared. destruct (g_state g) eqn:E.
  - left. by rewrite (A2 eq_refl).
  - destruct (A3 eq_refl) as [->|(_ & _ & _ & -> & _)]; by right.
  - destruct (A1 eq_refl) as (_ & _ & -> & _). by right.
Qed.

(** The state once the frames [l] were looked at: the store differs from [V] only
    at pages that were dropped. *)
Definition dropping (l : list Z) (result : Status) (V' : BufferTag -> page) (G : Z -> ginfo) (k : kernel) : Prop :=
  St V' G [] k /\ all_calm K G /\ (forall t, range t = false -> V' t = V t) /\
  (forall t, range t = true -> V' t = V t \/ unheld K G t) /\
  (has_value result = true -> forall h, h ∈ l -> 0 <= h < N -> cleared (G h)).

Lemma dropping_evo l s V' G k G' k' :
  dropping l s V' G k -> St V' G' [] k' -> evo G k G' k' -> dropping l s V' G' k'.
Proof.
  intros (HS & Hc & Hn & Hr & Hl) HS' He. split; [done|]. split; [by eapply all_calm_evo|]. split; [done|]. split.
  - intros t Ht. destruct (Hr t Ht) as [?|Ha]; [by left|right; by eapply unheld_evo].
  - intros Hs h Hh Hhn. eapply cleared_evolved; [apply (e_frames _ _ _ _ He h)|auto].
Qed.

Lemma dropping_cons l s V' G k f : dropping l s V' G k -> (has_value s = true -> cleared (G f)) -> dropping (f :: l) s V' G k.
Proof.
  intros (HS & Hc & Hn & Hr & Hl) Hf. split_and!; try done. intros Hs h Hh Hhn. apply elem_of_cons in Hh as [->|Hh]; auto.
Qed.

(** How far a frame is from being discarded. *)
Definition distance (f : Z) (k : kernel) : nat :=
  if StateIs (control (desc k f)) kLoading then 2%nat else if HasWriteback (control (desc k f)) then 1%nat else 0%nat.

Lemma distance_spec V' G k f : St V' G [] k -> 0 <= f < N ->
  distance f k = if decide (g_state (G f) = kLoading) then 2%nat else if c_writeback (g_ctl (G f)) then 1%nat else 0%nat.
Proof.
  intros HS Hf. unfold distance. rewrite (word_writeback K V' G [] k f HS Hf). destruct (word_fields K V' G [] k f HS Hf) as (w & -> & Hok).
  rewrite StateIs_encode by done. unfold c_is. change (c_state (set_waiters w (g_ctl (G f)))) with (g_state (G f)).
  by destruct (decide (g_state (G f) = kLoading)); case_bool_decide.
Qed.

Lemma range_spec t : range t = true <-> (file_id t =? file) = true /\ (block_id t <? first_block) = false.
Proof. unfold in_range. rewrite andb_true_iff, Z.ltb_ge, Z.leb_le. tauto. Qed.

Definition pass_post (l : list Z) (s : Status) (V' : BufferTag -> page) (f : Z) (k : kernel) (r : unit + Status) (k' : kernel) : Prop :=
  match r with
  | inl _ => exists G', dropping l s V' G' k' /\ (distance f k' < distance f k)%nat
  | inr s' => exists V'' G', dropping (f :: l) s' V'' G' k'
  end.

(** A page being read is waited for. *)
Lemma pass_loading l s V' G k f :
  dropping l s V' G k -> 0 <= f < N -> g_state (G f) = kLoading ->
  wp (WaitForLoad f (g_tag (G f)) ;; ret (inl tt)) (pass_post l s V' f k) k.
Proof.
  intros HD Hf Es. pose proof HD as (HS & Hc & _). unfold WaitForLoad.
  eapply wp_seq.
  { apply (wait_while_spec K V' G k f (fun k _ => loading_tag k f (g_tag (G f))) HS Hf). intros G1 k1 HS1 He1 Hb.
    apply (loading_tag_spec K V' G1 k1 f _ HS1 Hf) in Hb as [Hb _]. eapply loading_pending; [done| |done|done]. by eapply all_calm_evo. }
  intros [] k' (G' & HS' & He & Hnl). cbn [wp ret pass_post]. exists G'. split; [by eapply dropping_evo|].
  rewrite (distance_spec V' G k f HS Hf), (distance_spec V' G' k' f HS' Hf), (decide_True (P := g_state (G f) = kLoading)) by done.
  destruct (decide (g_state (G' f) = kLoading)) as [Es'|Es']; [|destruct (c_writeback _); lia]. exfalso.
  destruct (ev_loading _ _ (e_frames _ _ _ _ He f) Es) as [EG|(_ & _ & ? & _)]; [|done].
  rewrite (proj2 (loading_tag_spec K V' G' k' f _ HS' Hf)) in Hnl; [done|]. by rewrite EG.
Qed.

(** The pin is given back; what other frames are is as before. *)
Lemma unpinned V' G k f c :
  St V' (upd_ctl (upd_ctl G f c) f (g_ctl (G f))) [] k -> St V' G [] k.
Proof.
  intros HS. eapply st_ghost_ext; [exact HS|]. intros h. destruct (decide (h = f)) as [->|Hne]; [|by rewrite !upd_ctl_ne].
  rewrite !upd_ctl_eq. by destruct (G f).
Qed.

Lemma release_pinned V' G k f c :
  St V' (upd_ctl G f c) [] k -> 0 <= f < N -> g_state (G f) = kResident -> 0 <= c_pins (g_ctl (G f)) ->
  c = set_pins (c_pins (g_ctl (G f)) + 1) (g_ctl (G f)) -> wp (ReleaseFrame f) (fun _ => St V' G []) k.
Proof.
  intros HS Hf Es Hp ->. set (G1 := upd_ctl _ _ _) in HS.
  assert (g_ctl (G1 f) = set_pins (c_pins (g_ctl (G f)) + 1) (g_ctl (G f))) as E1 by (unfold G1; by rewrite upd_ctl_eq).
  eapply wp_mono; [apply (release_frame_spec K V' G1 k f HS Hf)|].
  - unfold g_state in *. by rewrite E1.
  - rewrite E1. cbn. lia.
  - intros [] k1 HS1. rewrite E1 in HS1. eapply unpinned. unfold G1 in HS1. cbn in HS1.
    replace (set_pins (c_pins (g_ctl (G f)) + 1 - 1) (set_pins (c_pins (g_ctl (G f)) + 1) (g_ctl (G f)))) with (g_ctl (G f)) in HS1; [exact HS1|].
    destruct (g_ctl (G f)) as [a b c d e x y z u v]. unfold set_pins. cbn. f_equal. lia.
Qed.

(** A resident page: pinned, then discarded, waited for or reported. *)
Lemma pass_resident l s V' G k f :
  dropping l s V' G k -> 0 <= f < N -> g_state (G f) = kResident -> range (g_tag (G f)) = true ->
  wp (pinned <- TryPinResidentFrame f (g_tag (G f)) false ;;
      if negb pinned then ret (inl tt)
      else
        outcome <- on_word f TryDiscardPinned ;;
        match outcome with
        | (kWriteback, _) => ReleaseFrame f ;; WaitForPendingFlush f ;; ret (inl tt)
        | (kLatched, _) => wait_while f (fun _ => exclusive_blocked) ;; ReleaseFrame f ;; ret (inl tt)
        | (kBusy, _) => ReleaseFrame f ;; ret (inr (InvalidArgument "a page in the dropped range is in use"))
        | (kDiscarded, previous) => discard_rest f (g_tag (G f)) previous s
        end) (pass_post l s V' f k) k.
Proof.
  intros HD Hf Es Erg. pose proof HD as (HS & Hc & Hn & Hr & Hl). destruct (Hc f Hf) as (Co & Cx & Cs & Cp).
  unfold TryPinResidentFrame. apply wp_bind. eapply wp_seq; [apply (pin_spec K V' G [] f Hf k HS); unfold kMaxPins; lia|].
  intros [] k1 [Ht1 Hb]; [|by destruct Hb]. destruct Hb as [_ HS1]. cbn [negb]. set (c1 := set_pins _ _) in *. unfold LoadTag. apply wp_get.
  pose proof (upd_ctl_eq G f c1) as E1. set (G1 := upd_ctl G f c1) in *.
  assert (g_state (G1 f) = kResident) as Es1 by (unfold g_state in *; by rewrite E1).
  assert (d_tag (desc k1 f) = g_tag (G f)) as ->.
  { rewrite (fo_tag _ _ _ _ _ _ (st_frame _ _ _ _ _ _ HS1 Hf)) by congruence. by rewrite E1. }
  rewrite (proj2 (tag_eqb_eq _ _) eq_refl). cbn [negb]. apply wp_ret. unfold wp at 1, ret at 1. cbn [negb].
  destruct (discard_word V' G1 [] k1 f HS1 Hf Es1) as (w & o & k2 & E2 & Ht2 & Ho). rewrite E1 in Ho. cbn [with_ctl g_ctl] in Ho.
  change (c_writeback c1) with (c_writeback (g_ctl (G f))) in Ho. change (c_latched c1) with (c_latched (g_ctl (G f))) in Ho.
  apply wp_bind. eapply wp_run; [exact E2|]. destruct (c_writeback (g_ctl (G f))) eqn:Ew.
  - destruct Ho as [-> HS2]. eapply wp_seq; [apply (release_pinned V' G k2 f c1 HS2 Hf Es); [lia|done]|]. intros [] k3 HS3.
    eapply wp_seq; [by apply (wait_flush_spec K V' G k3 f HS3 Hf)|]. intros o k4 (G4 & HS4 & He4 & Hw4). cbn [wp ret pass_post].
    exists G4. split; [eapply (dropping_evo l s V' G k3); done|].
    rewrite (distance_spec V' G k f HS Hf), (distance_spec V' G4 k4 f HS4 Hf), Ew, Hw4.
    destruct (ev_resident _ _ (e_frames _ _ _ _ He4 f) Es) as (Es4 & _). rewrite !decide_False by congruence. lia.
  - destruct (Z.eqb_spec (c_pins c1) 1) as [Ep|Ep]; cbn [negb] in Ho.
    + assert (c_latched (g_ctl (G f)) = false) as El by (unfold c_latched; by rewrite Cx, Cs). rewrite El in Ho.
      destruct Ho as (-> & Hok & ->). replace (g_tag (G f)) with (g_tag (G1 f)) by (by rewrite E1).
      replace (set_waiters w c1) with (set_waiters w (g_ctl (G1 f))) in * by (by rewrite E1).
      eapply wp_mono; [apply (discard_spec V' G1 k1 f w s HS1 Hf Es1); [by rewrite E1|done]|].
      intros r k3 (-> & p & HS3). rewrite E1 in HS3. cbn [with_ctl g_tag] in HS3. set (tag := g_tag (G f)) in *.
      set (G3 := <[f := GInfo dropped_ctl false tag p]> G1) in *. assert (G3 f = GInfo dropped_ctl false tag p) as E3 by (unfold G3; by rewrite fn_lookup_insert).
      assert (forall h, h <> f -> G3 h = G h) as Eh by (intros h Hh; unfold G3, G1; rewrite fn_lookup_insert_ne by done; by rewrite upd_ctl_ne).
      exists (<[tag := contents (disk k1) tag]> V'), G3. split; [done|]. split; [|split; [|split]].
      * intros h Hh. destruct (decide (h = f)) as [->|Hne]; [rewrite E3; unfold calm; cbn; split_and!; done || lia|rewrite Eh by done; by apply Hc].
      * intros t Ht. rewrite fn_lookup_insert_ne by congruence. by apply Hn.
      * assert (forall t, (forall h, 0 <= h < N -> h <> f -> g_state (G h) <> kFree -> g_tag (G h) <> t) -> unheld K G3 t) as Habs.
        { intros t Ha h Hh. destruct (decide (h = f)) as [->|Hne]; [by rewrite E3|]. rewrite Eh by done. by apply Ha. }
        intros t Ht. destruct (decide (t = tag)) as [->|Hne].
        -- right. apply Habs. intros h Hh Hne Hs Et. apply Hne. apply (i_unique _ _ _ _ (st_inv _ _ _ _ _ HS));
             [by eapply st_pool|by eapply st_pool|done|congruence|done].
        -- rewrite fn_lookup_insert_ne by done. destruct (Hr t Ht) as [?|Ha]; [by left|right]. apply Habs. intros h Hh _. by apply Ha.
      * intros Hs h Hh Hhn. destruct (decide (h = f)) as [->|Hne]; [rewrite E3; by left|]. rewrite Eh by done.
        apply elem_of_cons in Hh as [?|Hh]; [done|]. by apply Hl.
    + destruct Ho as [-> HS2]. eapply wp_seq; [apply (release_pinned V' G k2 f c1 HS2 Hf Es); [lia|done]|]. intros [] k3 HS3. cbn [wp ret pass_post].
      exists V', G. split_and!; try done.
Qed.

Lemma drop_pass_spec l s V' G k f :
  dropping l s V' G k -> 0 <= f < N -> wp (drop_pass file first_block f s) (pass_post l s V' f k) k.
Proof.
  intros HD Hf. pose proof HD as (HS & Hc & _). unfold drop_pass, LoadTag, word. do 2 apply wp_get.
  pose proof (st_frame _ _ _ _ _ _ HS Hf) as Fo. destruct (word_fields K V' G [] k f HS Hf) as (w & Ew & Hok).
  rewrite Ew, !StateIs_encode by done. unfold c_is. change (c_state (set_waiters w (g_ctl (G f)))) with (g_state (G f)).
  destruct (_ || _) eqn:Eb.
  - cbn [wp ret pass_post]. exists V', G. apply dropping_cons; [done|]. intros _. destruct (decide (g_state (G f) = kFree)) as [|Hs]; [by left|].
    right. rewrite <- (fo_tag _ _ _ _ _ _ Fo Hs). rewrite bool_decide_false in Eb by done. cbn [orb] in Eb.
    destruct (range (d_tag (desc k f))) eqn:Er; [|done]. apply range_spec in Er as [Er1 Er2]. by rewrite Er1, Er2 in Eb.
  - apply orb_false_iff in Eb as [Eb Eb2]. apply orb_false_iff in Eb as [Es Eb1]. apply bool_decide_eq_false in Es.
    apply negb_false_iff in Eb1. rewrite (fo_tag _ _ _ _ _ _ Fo Es) in *. case_bool_decide as El; [by apply pass_loading|].
    apply (pass_resident l s V' G k f HD Hf); [by destruct (g_state (G f))|]. by apply range_spec.
Qed.

Lemma drop_frames_spec fs l s V' G k :
  dropping l s V' G k -> (forall f, f ∈ fs -> 0 <= f < N) ->
  wp (drop_frames file first_block fs s) (fun s' k' => exists V'' G', dropping (rev fs ++ l) s' V'' G' k') k.
Proof.
  revert l s V' G k. induction fs as [|f fs IH]; intros l s V' G k HD Hfs; cbn [drop_frames]; [by exists V', G|].
  assert (0 <= f < N) as Hf by (apply Hfs; by left). eapply wp_seq.
  { refine (wp_loop (fun _ k1 => exists G1, dropping l s V' G1 k1) (fun _ => distance f) _
      (fun s' k' => exists V'' G', dropping (f :: l) s' V'' G' k') _ _ k _ _ _).
    - intros [] k1 (G1 & HD1). eapply wp_mono; [by apply (drop_pass_spec l s V' G1)|]. intros [[]|s'] k2 Hp; [|done].
      destruct Hp as (G2 & HD2 & Hd). split; [by exists G2|done].
    - by exists G.
    - unfold distance, wait_fuel. destruct (StateIs (control (desc k f)) kLoading), (HasWriteback (control (desc k f))); lia. }
  intros s' k' (V'' & G' & HD'). eapply wp_mono; [apply (IH (f :: l) s' V'' G' k' HD'); intros; apply Hfs; by right|].
  intros s2 k2 (V2 & G2 & HD2). exists V2, G2. cbn [rev]. by rewrite <- app_assoc.
Qed.

(** The store after a drop: pages outside the range are kept, a page of the range
    is kept or reads as the disk has it, and all of them do when the drop
    succeeds. *)
Lemma drop_spec k :
  calm_state K V k ->
  wp (DropFileBuffers file first_block) (fun s k' => exists V', calm_state K V' k' /\
    (forall t, range t = false -> V' t = V t) /\
    (forall t, range t = true -> V' t = V t \/ V' t = contents (disk k') t) /\
    (has_value s = true -> (forall t, range t = true -> V' t = contents (disk k') t) /\
       calm_state (SC := fun t => scope t /\ range t = false) K V' k')) k.
Proof.
  intros (G & HS & Hc). eapply usable_spec; [done|]. apply wp_get.
  assert (forall f, f ∈ frame_ids k <-> 0 <= f < N) as Hids.
  { intros f. unfold frame_ids. rewrite (st_cfg _ _ _ _ _ HS), elem_of_seqZ. lia. }
  eapply wp_mono; [apply (drop_frames_spec (frame_ids k) [] (Ok tt) V G k)|].
  - split_and!; try done; [by left|set_solver].
  - intros f. apply Hids.
  - intros s k' (V' & G' & HS' & Hc' & Hn & Hr & Hl). exists V'. split; [by exists G'|]. split; [done|].
    assert (forall t, (forall f, 0 <= f < N -> g_state (G' f) = kResident -> g_tag (G' f) <> t) -> V' t = contents (disk k') t) as Hst.
    { intros t Ha. symmetry. apply (i_store _ _ _ _ (st_inv _ _ _ _ _ HS')). intros f Hf. apply Ha. by apply (st_pool_iff K V' G' [] k' f HS'). }
    split.
    + intros t Ht. destruct (Hr t Ht) as [?|Ha]; [by left|right]. apply Hst. intros f Hf Es. apply Ha; congruence || done.
    + intros Hs. assert (forall f, 0 <= f < N -> cleared (G' f)) as Hcl.
      { intros f Hf. apply (Hl Hs); [|done]. apply elem_of_app. left. rewrite list_elem_of_In, <- in_rev, <- list_elem_of_In. by apply Hids. }
      split.
      * intros t Ht. apply Hst. intros f Hf Es Et. destruct (Hcl f Hf); congruence.
      * exists G'. split; [|done]. pose proof HS' as (E1 & E2 & E3 & HI). split; [done|]. split; [done|]. split; [done|].
        apply (inv_rescope SC _ V' G' [] k' HI); [|by intros t [? _]; apply (i_addressable _ _ _ _ HI)]. intros f Hf%(st_pool_iff K V' G' [] k' f HS') Hg.
        split; [by apply (st_scope K V' G' [] k' f HS')|]. by destruct (Hcl f Hf).
Qed.
End Drop.
