(* ===== verification/KernelClose.v ===== *)
(** Closing a manager: prefetches and reads in flight are waited for, every dirty
    page is written and synced, and the workers stop with nothing left to do. *)
From stdpp Require Import strings.
From S2P Require Import Prelude Status CasLoop FrameControl Layout Replacer FlushScheduler Cleaner Interfaces.
From S2P Require Import Kernel Manager KernelInv KernelOps KernelFlush KernelWait KernelFrames KernelProgress.
From S2P Require Import KernelWriteback KernelRound KernelPin KernelRead KernelClient KernelSweep.

Section Close.
Context {T F R B : Type} `{FrameTableLaws T} `{FreeFramesLaws F} `{ReplacerLaws R} `{BackendLaws B} {SC : Scope}.
Local Open Scope kernel_scope.
Local Abbreviation kernel := (kernel T F R B).
Local Abbreviation M := (@M T F R B).
Context (K : config).
Local Abbreviation N := (pool_size K).
Local Abbreviation St := (St K).
Context (V : BufferTag -> page).
Local Abbreviation calm_state := (calm_state K V).

Lemma await_loads_spec k : calm_state k -> wp await_loads (fun _ => calm_state) k.
Proof.
  intros Hk. unfold await_loads.
  refine (wp_loop (fun _ => calm_state) (fun _ => pending_work) _ _ _ _ k _ Hk _); [|lia].
  intros [] k1 (G1 & HS1 & Hc1). apply wp_get. destruct (existsb _ _) eqn:Ex; [|by exists G1].
  eapply wp_seq; [by apply (complete_load_spec K V G1)|]. intros [] k2 (G2 & HS2 & He2 & Hb); cbn [wp ret].
  - split; [|done]. exists G2. split; [done|by eapply all_calm_evo].
  - destruct Hb as (El & _). by rewrite El in Ex.
Qed.

(** A frame that is loading is waited for. *)
Lemma await_frame_spec f k :
  calm_state k -> 0 <= f < N ->
  wp (tag <- LoadTag f ;; loading <- IsLoadingTag f tag ;; if (loading : bool) then WaitForLoad f tag else ret tt) (fun _ => calm_state) k.
Proof.
  intros (G & HS & Hc) Hf. unfold LoadTag, IsLoadingTag. do 2 apply wp_get.
  destruct (loading_tag k f (d_tag (desc k f))) eqn:El; [|by exists G].
  apply (loading_tag_spec K V G k f _ HS Hf) in El as [Es Et].
  eapply wp_mono; [by apply (wait_load_spec K V G k f)|]. by intros [] k' [? _].
Qed.

(** The workers find empty queues and stop. *)
Lemma stop_idle_spec (k : kernel) :
  queued_tasks k = [] -> wp StopFlushPipeline (fun _ k' => disk k' = disk k /\ closed k' = closed k) k.
Proof.
  intros Eq. destruct (queues_nil k Eq) as [Ef Eb]. unfold StopFlushPipeline. apply wp_modify.
  set (k1 := set_sched _ k). assert (worker_round k1 = Some (false, set_sched (sched k1) k1)) as E1.
  { unfold worker_round, TakeNextBatch. cbn [k1 sched set_sched BeginShutdown foreground_queue background_queue sched_shutdown]. by rewrite Ef, Eb. }
  cbn [loop]. apply wp_bind, wp_bind. eapply wp_run; [exact E1|]. done.
Qed.

(** Nothing in flight: no read, no frame that is loading or pinned, no task. *)
Definition at_rest (k : kernel) : Prop :=
  loads k = [] /\ queued_tasks k = [] /\
  forall f, f ∈ frame_ids k -> StateIs (control (desc k f)) kLoading = false /\ Pins (control (desc k f)) = 0.

(** A manager whose I/O engine has failed is closed, although [Close] reports the
    failure; nothing is written. *)
Lemma close_failed k :
  at_rest k -> closed k = false ->
  wp (EnterFailedState ;; Close) (fun s k' => s = Failed "buffer manager is in the failed state" /\ closed k' = true /\ disk k' = disk k) k.
Proof.
  intros (El & Eq & Hf) Ec. unfold EnterFailedState. apply wp_modify. set (k0 := set_failed true k). unfold Close. apply wp_get.
  change (closed k0) with (closed k). rewrite Ec.
  apply wp_bind. eapply wp_run; [unfold await_loads; cbn [loop]; unfold bind, get, ret; cbn [loads k0 set_failed]; rewrite El; reflexivity|].
  apply wp_get. eapply wp_seq; [apply (wp_for_each (fun l k' => k' = k0 /\ forall f, f ∈ l -> f ∈ frame_ids k)); [|done]|].
  { intros f l k1 [-> Hl]. unfold LoadTag, IsLoadingTag. do 2 apply wp_get. unfold loading_tag. cbn [desc k0 set_failed].
    destruct (Hf f) as [-> _]; [apply Hl; by left|]. cbn. split; [done|]. intros g Hg. apply Hl. by right. }
  intros [] k1 [-> _]. unfold HasPinnedFrame. apply wp_get. change (frame_ids k0) with (frame_ids k). change (desc k0) with (desc k).
  destruct (existsb _ _) eqn:Ex.
  { apply existsb_exists in Ex as (f & Hin & Hp). destruct (Hf f) as [_ E]; [by apply list_elem_of_In|]. by rewrite E in Hp. }
  unfold CheckUsable. apply wp_get. cbn [failed k0 set_failed]. apply wp_ret. apply wp_get. cbn [failed k0 set_failed Failed has_value negb andb]. apply wp_modify.
  eapply wp_seq; [by apply (stop_idle_spec (set_closed true k0))|]. intros [] k2 [Ed Ec2]. done.
Qed.

Lemma close_spec k :
  calm_state k -> wp Close (fun s k' => match s with
    | Ok _ => closed k' = true /\ forall t, contents (disk k') t = V t
    | Err _ => calm_state k'
    end) k.
Proof.
  intros Hk. unfold Close. apply wp_get. pose proof Hk as (G & (_ & _ & Ecl & _) & _). rewrite Ecl.
  eapply wp_seq; [by apply await_loads_spec|]. intros [] k1 Hk1. apply wp_get.
  assert (forall f, f ∈ frame_ids k1 -> 0 <= f < N) as Hids.
  { destruct Hk1 as (G1 & HS1 & _). intros f. unfold frame_ids. rewrite (st_cfg _ _ _ _ _ HS1), elem_of_seqZ. lia. }
  eapply wp_seq; [apply (wp_for_each (fun l k' => calm_state k' /\ forall f, f ∈ l -> 0 <= f < N)); [|done]|].
  { intros f l k2 [Hk2 Hl]. eapply wp_mono; [apply (await_frame_spec f k2 Hk2), Hl; by left|]. intros [] k3 Hk3. split; [done|].
    intros g Hg. apply Hl. by right. }
  intros [] k2 [Hk2 _]. unfold HasPinnedFrame. apply wp_get. destruct (existsb _ _); [done|].
  pose proof Hk2 as (G2 & HS2 & _). apply wp_bind. eapply wp_run; [by eapply usable_run|].
  eapply wp_seq; [by apply (flush_all_spec K V)|]. intros s k3 [Hk3 Hs]. apply wp_get.
  pose proof Hk3 as (G3 & (_ & Efl & _) & _). rewrite Efl. destruct s as [[]|e]; cbn [has_value negb andb]; [|done].
  destruct (Hs eq_refl) as [Hd Eq]. apply wp_modify.
  eapply wp_seq; [by apply (stop_idle_spec (set_closed true k3))|]. intros [] k4 [Ed Ec]. cbn [wp ret]. split; [done|]. intros t. by rewrite Ed.
Qed.
End Close.
