(* ===== verification/MlPrefetch.v ===== *)
(** The cache for data read in a known order: [lib/facade/ml_prefetch_buffer.{h,cc}].

    It owns a buffer manager with the plan policy, reads ahead along the plan and
    tells the policy when each block it hands out is needed next.  [fetch_block]
    and [next_block] are a client that copies the block and releases the handle.
    The theorems: [SetPlan] computes the next use of every position, and every
    sequence of calls answers with the blocks of the plan as they are on disk, in
    order and each position once for [Next]. *)
From stdpp Require Import strings.
From S2P Require Import Prelude Status Layout FreeList PageTable Replacer OrderedSet PlanReplacer Interfaces.
From S2P Require Import Kernel Manager AsyncRead Lifecycle KernelInv KernelOps KernelPin KernelRead KernelClient KernelSweep.
From S2P Require Import KernelPrefetch KernelDrop KernelStart.

Definition kDefaultBlockSize : Z := Z.shiftl 1 20.

Record MLPrefetchBufferOptions := MlOptions { ml_buffer : BufferManagerOptions; prefetch_depth : Z }.

(** The positions after each position at which its block comes next, from the end
    of the plan; [later] is the first position of each block seen so far. *)
Fixpoint plan_uses (position : Z) (plan : list BufferTag) : list Z * gmap BufferTag Z :=
  match plan with
  | [] => ([], ∅)
  | tag :: rest =>
      let '(next_use, later) := plan_uses (position + 1) rest in
      (default kNeverUsed (later !! tag) :: next_use, <[tag := position]> later)
  end.

Record ml_prefetch (T F B : Type) := Ml {
  ml_depth : Z;
  ml_closed : bool;
  ml_plan : list BufferTag;
  ml_next_use : list Z;
  ml_cursor : Z;
  ml_until : Z;
  ml_kern : kernel T F PlanReplacer.plan B
}.
Arguments Ml {T F B}.
Arguments ml_depth {T F B}.
Arguments ml_closed {T F B}.
Arguments ml_plan {T F B}.
Arguments ml_next_use {T F B}.
Arguments ml_cursor {T F B}.
Arguments ml_until {T F B}.
Arguments ml_kern {T F B}.

Definition CreateMl {B : Type} `{Backend B} (p : platform) (o : MLPrefetchBufferOptions) (c : DiskBackendCapabilities) (b : option B) :
    Result (ml_prefetch page_table free_list B) :=
  match b with
  | None => InvalidArgument "ml prefetch buffer needs a disk backend"
  | Some _ =>
      let o' := ml_buffer o in
      let page_size := if opt_page_size o' =? 0 then kDefaultBlockSize else opt_page_size o' in
      let buffer := Options (opt_pool_size o') page_size (opt_stripe_count o') (opt_flush_worker_count o')
                      (opt_flush_submit_batch_size o') (opt_flush_foreground_burst_limit o') false (opt_dirty_page_high_watermark o')
                      (opt_dirty_page_low_watermark o') (opt_foreground_writeback o') (opt_pre_write_hook o') in
      match CreateManager p buffer c b (Some (MakePlan (opt_pool_size o'))) with
      | Err e => Err e
      | Ok manager => Ok (Ml (prefetch_depth o) false [] [] 0 0 manager)
      end
  end.

Section Ml.
Context {T F B : Type} `{FrameTable T} `{FreeFrames F} `{Backend B}.
Local Open Scope kernel_scope.
Local Abbreviation ml := (ml_prefetch T F B).
Local Abbreviation M := (@M T F PlanReplacer.plan B).

Definition set_ml (k : kernel T F PlanReplacer.plan B) (m : ml) : ml :=
  Ml (ml_depth m) (ml_closed m) (ml_plan m) (ml_next_use m) (ml_cursor m) (ml_until m) k.
Definition set_cursor (c : Z) (m : ml) : ml :=
  Ml (ml_depth m) (ml_closed m) (ml_plan m) (ml_next_use m) c (ml_until m) (ml_kern m).
Definition set_until (u : Z) (m : ml) : ml :=
  Ml (ml_depth m) (ml_closed m) (ml_plan m) (ml_next_use m) (ml_cursor m) u (ml_kern m).

(** A call of the manager. *)
Definition on_kernel {A} (f : M A) (m : ml) : option (A * ml) := '(a, k) ← f (ml_kern m); Some (a, set_ml k m).

Definition SetPlan (p : list BufferTag) (m : ml) : Status * ml :=
  if ml_closed m then (Unavailable "ml prefetch buffer is closed" 0, m)
  else (Ok tt, Ml (ml_depth m) (ml_closed m) p (plan_uses 0 p).1 0 0 (set_replacer (ForgetPlan (replacer (ml_kern m))) (ml_kern m))).

Fixpoint prefetch_ahead (tags : list BufferTag) : M unit :=
  match tags with
  | [] => ret tt
  | t :: tags => PrefetchBuffer (file_id t) (block_id t) 1 ;; prefetch_ahead tags
  end.

Definition MlPrefetch (position : Z) (m : ml) : option ml :=
  if ml_depth m =? 0 then Some m
  else
    let last := Z.min (Z.of_nat (length (ml_plan m))) (u64 (u64 (position + 1) + ml_depth m)) in
    let first := Z.max (ml_until m) (u64 (position + 1)) in
    if last <=? first then Some m
    else
      '(_, m) ← on_kernel (prefetch_ahead (take (Z.to_nat (last - first)) (drop (Z.to_nat first) (ml_plan m)))) (set_until last m);
      Some m.

Definition Fetch (position : Z) (m : ml) : option (Result handle * ml) :=
  if ml_closed m then Some (Unavailable "ml prefetch buffer is closed" 0, m)
  else
    match ml_plan m !! Z.to_nat position with
    | None => Some (InvalidArgument "plan position is out of range", m)
    | Some tag =>
        m ← MlPrefetch position m;
        '(h, m) ← on_kernel (ReadBuffer tag None) m;
        match h with
        | Err e => Some (Err e, m)
        | Ok h =>
            let k := ml_kern m in
            let use := nth (Z.to_nat position) (ml_next_use m) 0 in
            Some (Ok h, set_ml (set_replacer (SetNextUse (h_frame h) use (replacer k)) k) m)
        end
    end.

Definition Next (m : ml) : option (Result (option (Z * handle)) * ml) :=
  if ml_closed m then Some (Unavailable "ml prefetch buffer is closed" 0, m)
  else
    let position := ml_cursor m in
    let m := set_cursor (u64 (position + 1)) m in
    if Z.of_nat (length (ml_plan m)) <=? position then Some (Ok None, m)
    else
      '(h, m) ← Fetch position m;
      Some (match h with Err e => Err e | Ok h => Ok (Some (position, h)) end, m).

Definition MlClose (m : ml) : option (Status * ml) :=
  if ml_closed m then Some (Ok tt, m)
  else
    '(s, m) ← on_kernel Close m;
    let done := match s with Ok _ => true | Err e => bool_decide (code e = kFailed) end in
    Some (s, if done then Ml (ml_depth m) true (ml_plan m) (ml_next_use m) (ml_cursor m) (ml_until m) (ml_kern m) else m).

(** ** A client that copies the block *)

Definition copy_block (h : handle) : M page := p <- get (fun k => frame_data k (h_frame h)) ;; Reset h ;; ret p.

Definition fetch_block (position : Z) (m : ml) : option (Result page * ml) :=
  '(h, m) ← Fetch position m;
  match h with
  | Err e => Some (Err e, m)
  | Ok h => '(p, m) ← on_kernel (copy_block h) m; Some (Ok p, m)
  end.

Definition next_block (m : ml) : option (Result (option (Z * page)) * ml) :=
  '(h, m) ← Next m;
  match h with
  | Err e => Some (Err e, m)
  | Ok None => Some (Ok None, m)
  | Ok (Some (position, h)) => '(p, m) ← on_kernel (copy_block h) m; Some (Ok (Some (position, p)), m)
  end.
End Ml.

(** ** Next uses *)

(** [u] is the first position after [i] with the same block, or none comes. *)
Definition next_use_is (p : list BufferTag) (i : nat) (u : Z) : Prop :=
  (u = kNeverUsed /\ forall j, (i < j)%nat -> p !! j <> p !! i) \/
  (exists j, (i < j)%nat /\ u = Z.of_nat j /\ p !! j = p !! i /\ forall h, (i < h < j)%nat -> p !! h <> p !! i).

Lemma plan_uses_spec p : forall position,
  let '(next_use, later) := plan_uses position p in
  length next_use = length p /\
  (forall t q, later !! t = Some q <-> exists j, q = position + Z.of_nat j /\ p !! j = Some t /\ forall h, (h < j)%nat -> p !! h <> Some t) /\
  (forall i t, p !! i = Some t -> exists u, next_use !! i = Some u /\
     ((u = kNeverUsed /\ forall j, (i < j)%nat -> p !! j <> Some t) \/
      (exists j, (i < j)%nat /\ u = position + Z.of_nat j /\ p !! j = Some t /\ forall h, (i < h < j)%nat -> p !! h <> Some t))).
Proof.
  induction p as [|t0 p IH]; intros position; cbn [plan_uses].
  { split; [done|]. split; [|done]. intros t q. rewrite lookup_empty. split; [done|]. by intros (j & _ & Hj & _). }
  specialize (IH (position + 1)). destruct (plan_uses (position + 1) p) as [next_use later]. destruct IH as (Hlen & Hlater & Huse).
  split; [cbn; lia|]. split.
  - intros t q. destruct (decide (t = t0)) as [->|Hne].
    + rewrite lookup_insert_eq. split.
      * intros [= <-]. exists 0%nat. split; [lia|]. split; [done|]. intros h Hh. lia.
      * intros ([|j] & -> & Hj & Hfirst); [by rewrite Z.add_0_r|]. by destruct (Hfirst 0%nat ltac:(lia)).
    + rewrite lookup_insert_ne by done. rewrite Hlater. split.
      * intros (j & -> & Hj & Hfirst). exists (S j). split; [lia|]. split; [done|]. intros [|h] Hh; cbn; [congruence|apply Hfirst; lia].
      * intros ([|j] & -> & Hj & Hfirst); cbn in Hj; [congruence|]. exists j. split; [lia|]. split; [done|].
        intros h Hh. apply (Hfirst (S h)). lia.
  - intros [|i] t Hi; cbn in Hi.
    + injection Hi as ->. eexists. split; [done|]. destruct (later !! t) as [q|] eqn:El; cbn.
      * right. apply Hlater in El as (j & -> & Hj & Hfirst). exists (S j). split; [lia|]. split; [lia|]. split; [done|].
        intros [|h] Hh; [lia|]. cbn. apply Hfirst. lia.
      * left. split; [done|]. intros [|j] Hj; [lia|]. cbn. intros Hp.
        assert (exists h, p !! h = Some t /\ forall h', (h' < h)%nat -> p !! h' <> Some t) as (h & Hh & Hmin).
        { clear -Hp. revert j Hp. induction p as [|t1 p IH]; intros j Hp; [done|]. destruct (decide (t1 = t)) as [->|Hne].
          - exists 0%nat. split; [done|]. intros h' Hh'. lia.
          - destruct j as [|j]; cbn in Hp; [congruence|]. destruct (IH j Hp) as (h & Hh & Hmin). exists (S h). split; [done|].
            intros [|h'] Hh'; cbn; [congruence|apply Hmin; lia]. }
        assert (later !! t = Some (position + 1 + Z.of_nat h)) by (apply Hlater; by exists h). congruence.
    + destruct (Huse i t Hi) as (u & Hu & Hcase). exists u. split; [done|]. destruct Hcase as [[-> Hno]|(j & Hj & -> & Hpj & Hfirst)].
      * left. split; [done|]. intros [|j] Hj; [lia|]. cbn. apply Hno. lia.
      * right. exists (S j). split; [lia|]. split; [lia|]. split; [done|]. intros [|h] Hh; [lia|]. cbn. apply Hfirst. lia.
Qed.

(** ** The policy keeps tracking the same frames *)

Lemma set_next_use_tracks f u s : valid s -> 0 <= f ->
  valid (SetNextUse f u s) /\ frames (SetNextUse f u s) = frames s /\ forall g, tracked (SetNextUse f u s) g <-> tracked s g.
Proof.
  intros [m Hm] Hf. destruct (plan_step_is (pl_capacity s) s m (PlanSet f u) Hm eq_refl Hf) as [Hm' Hc]. cbn [plan_step next_uses] in *.
  split; [by eexists|]. split; [done|]. intros g. cbn. rewrite (pl_linked _ _ Hm'), (pl_linked _ _ Hm).
  destruct (decide (is_Some (m !! f))) as [Hf'|]; [|done]. destruct (decide (g = f)) as [->|Hne]; [rewrite lookup_insert_eq; naive_solver|].
  by rewrite lookup_insert_ne.
Qed.

Lemma forget_tracks s : valid s -> valid (ForgetPlan s) /\ frames (ForgetPlan s) = frames s /\ forall g, tracked (ForgetPlan s) g <-> tracked s g.
Proof.
  intros [m Hm]. destruct (plan_step_is (pl_capacity s) s m PlanForget Hm eq_refl I) as [Hm' Hc]. cbn [plan_step next_uses] in *.
  split; [by eexists|]. split; [done|]. intros g. cbn. rewrite (pl_linked _ _ Hm'), (pl_linked _ _ Hm), lookup_fmap. by destruct (m !! g).
Qed.

(** ** Calls *)

Section Calls.
Context {T F B : Type} `{FrameTableLaws T} `{FreeFramesLaws F} `{BackendLaws B}.
Local Open Scope kernel_scope.
Local Abbreviation ml := (ml_prefetch T F B).
Local Abbreviation M := (@M T F PlanReplacer.plan B).

(** Any page with an address may be cached. *)
#[local] Instance any_block : Scope := addressable (B := B).

Definition tag_ok (t : BufferTag) : Prop := is_u64 (block_id t) /\ addressable (B := B) t.

Context (K : config) (D : BufferTag -> page).

Record ml_ok (m : ml) : Prop := {
  mo_calm : calm_state K D (ml_kern m);
  mo_open : ml_closed m = false;
  mo_tags : Forall tag_ok (ml_plan m);
  mo_until : 0 <= ml_until m
}.

Lemma plan_steady : steady_policy (R := PlanReplacer.plan).
Proof. by intros s _. Qed.

(** With this policy every call of the manager returns. *)
Lemma on_kernel_spec {A} (f : M A) (Q : A -> kernel T F PlanReplacer.plan B -> Prop) (m : ml) :
  wp f Q (ml_kern m) -> exists a k, on_kernel f m = Some (a, set_ml k m) /\ Q a k.
Proof.
  unfold wp, on_kernel. destruct (f (ml_kern m)) as [[a k]|]; cbn; [|by intros []; apply plan_steady]. intros HQ. by exists a, k.
Qed.

Lemma prefetch_ahead_spec tags k : Forall tag_ok tags -> calm_state K D k -> wp (prefetch_ahead tags) (fun _ => calm_state K D) k.
Proof.
  revert k. induction tags as [|t tags IH]; intros k Ht Hk; [done|]. apply list.Forall_cons in Ht as [[Hu Ha] Ht]. cbn [prefetch_ahead].
  eapply wp_seq; [apply (prefetch_spec K D); [|done]|].
  - intros i Hi. replace (block_id t + Z.of_nat i) with (block_id t) by lia. rewrite u64_small by done. by destruct t.
  - intros s k1 Hk1. by apply IH.
Qed.

Lemma ml_prefetch_spec position m : ml_ok m -> exists m', MlPrefetch position m = Some m' /\ ml_ok m' /\
  ml_plan m' = ml_plan m /\ ml_next_use m' = ml_next_use m /\ ml_cursor m' = ml_cursor m.
Proof.
  intros [Hk Ho Ht Hu]. unfold MlPrefetch. destruct (ml_depth m =? 0); [by exists m|]. set (last := Z.min _ _). set (first := Z.max _ _).
  destruct (Z.leb_spec last first); [by exists m|].
  destruct (on_kernel_spec (prefetch_ahead (take (Z.to_nat (last - first)) (drop (Z.to_nat first) (ml_plan m)))) (fun _ => calm_state K D) (set_until last m))
    as ([] & k & -> & Hk').
  - apply prefetch_ahead_spec; [|done]. by apply Forall_take, Forall_drop.
  - cbn. eexists. split; [done|]. split; [|done]. split; try done. cbn. pose proof (u64_range (position + 1)). unfold is_u64 in *. lia.
Qed.
(** What no call but [SetPlan] changes. *)
Definition ml_same (m m' : ml) : Prop :=
  ml_closed m' = ml_closed m /\ ml_plan m' = ml_plan m /\ ml_next_use m' = ml_next_use m.

Lemma holding_replacer tag f G k r :
  holding K D tag f G k -> valid r -> frames r = frames (replacer k) -> (forall g, tracked r g <-> tracked (replacer k) g) ->
  holding K D tag f G (set_replacer r k).
Proof. intros [Hf HS Ho Es Et Eo Ex Esh Ep] Hv Hn Ht. split; try done. by apply (st_replacer K D). Qed.

Lemma fetch_spec position m : ml_ok m -> exists r m', Fetch position m = Some (r, m') /\ ml_same m m' /\ ml_cursor m' = ml_cursor m /\
  0 <= ml_until m' /\
  match r with
  | Ok h => h_valid h = true /\ h_exclusive h = false /\
      exists t G, ml_plan m !! Z.to_nat position = Some t /\ holding K D t (h_frame h) G (ml_kern m')
  | Err _ => ml_ok m'
  end.
Proof.
  intros Hm. unfold Fetch. rewrite (mo_open _ Hm). destruct (ml_plan m !! Z.to_nat position) as [t|] eqn:Et.
  2: { eexists _, m. split; [done|]. split; [done|]. split; [done|]. split; [apply Hm|done]. }
  destruct (ml_prefetch_spec position m Hm) as (m1 & -> & Hm1 & Ep1 & En1 & Ec1). cbn [mbind option_bind].
  assert (ml_closed m1 = ml_closed m) as Eo1 by (rewrite (mo_open _ Hm1); symmetry; apply Hm).
  assert (scope t) as Hsc by (pose proof (mo_tags _ Hm) as Ht; rewrite Forall_lookup in Ht; apply (Ht _ _ Et)).
  destruct (on_kernel_spec _ _ m1 (read_buffer_spec K D t None (ml_kern m1) Hsc (mo_calm _ Hm1))) as ([h|e] & k & -> & Hr); cbn [mbind option_bind].
  - destruct Hr as (Hv & He & G & Hh). eexists _, _. split; [done|]. split; [done|]. split; [done|]. split; [apply Hm1|]. split; [done|]. split; [done|].
    exists t, G. split; [done|]. pose proof (hd_frame _ _ _ _ _ _ Hh) as Hf. pose proof (i_replacer _ _ _ _ (st_inv _ _ _ _ _ (hd_st _ _ _ _ _ _ Hh))) as [Hvr _].
    destruct (set_next_use_tracks (h_frame h) (nth (Z.to_nat position) (ml_next_use m1) 0) (replacer k) Hvr ltac:(lia)) as (V1 & V2 & V3).
    by apply holding_replacer.
  - eexists _, _. split; [done|]. split; [done|]. split; [done|]. split; [apply Hm1|]. split; [done|cbn; by rewrite Eo1, (mo_open _ Hm)|apply Hm1|apply Hm1].
Qed.

(** Copying and releasing what [Fetch] returned. *)
Lemma copy_block_spec m0 m h t G :
  ml_ok m0 -> ml_same m0 m -> 0 <= ml_until m -> h_valid h = true -> h_exclusive h = false -> holding K D t (h_frame h) G (ml_kern m) ->
  exists m', on_kernel (copy_block h) m = Some (D t, m') /\ ml_ok m' /\ ml_same m0 m' /\ ml_cursor m' = ml_cursor m.
Proof.
  intros Hm (E1 & E2 & E3) Hu Hv He Hh.
  destruct (on_kernel_spec (copy_block h) (fun p k => p = D t /\ calm_state K D k) m) as (p & k & -> & -> & Hk).
  - unfold copy_block. apply wp_get. rewrite (held_page K D _ _ _ _ Hh). eapply wp_seq; [by eapply (reset_shared_spec K D)|]. by intros h' k Hk.
  - eexists. split; [done|]. split; [|done]. split; cbn; [done|by rewrite E1, (mo_open _ Hm)|rewrite E2; apply Hm|done].
Qed.

Lemma fetch_block_spec position m : ml_ok m -> exists r m', fetch_block position m = Some (r, m') /\ ml_ok m' /\ ml_same m m' /\
  ml_cursor m' = ml_cursor m /\ forall p, r = Ok p -> exists t, ml_plan m !! Z.to_nat position = Some t /\ p = D t.
Proof.
  intros Hm. unfold fetch_block. destruct (fetch_spec position m Hm) as (r & m1 & -> & Hs & Ec & Hu & Hr). cbn [mbind option_bind]. destruct r as [h|e].
  - destruct Hr as (Hv & He & t & G & Ht & Hh). destruct (copy_block_spec m m1 h t G) as (m2 & -> & Hm2 & Hs2 & Ec2); try done.
    cbn [mbind option_bind]. eexists _, _. split; [done|]. split; [done|]. split; [done|]. split; [congruence|]. intros p [= <-]. by exists t.
  - eexists _, _. split; [done|]. done.
Qed.

Lemma next_block_spec m : ml_ok m -> exists r m', next_block m = Some (r, m') /\ ml_ok m' /\ ml_same m m' /\
  ml_cursor m' = u64 (ml_cursor m + 1) /\
  forall x, r = Ok x -> match x with
    | None => Z.of_nat (length (ml_plan m)) <= ml_cursor m
    | Some (position, p) => position = ml_cursor m /\ exists t, ml_plan m !! Z.to_nat position = Some t /\ p = D t
    end.
Proof.
  intros Hm. unfold next_block, Next. rewrite (mo_open _ Hm). set (m0 := set_cursor _ m).
  assert (ml_ok m0) as Hm0 by (destruct Hm; by split). change (ml_plan m0) with (ml_plan m).
  destruct (Z.leb_spec (Z.of_nat (length (ml_plan m))) (ml_cursor m)).
  { eexists _, _. split; [done|]. split; [done|]. split; [done|]. split; [done|]. by intros x [= <-]. }
  destruct (fetch_spec (ml_cursor m) m0 Hm0) as (r & m1 & -> & Hs & Ec & Hu & Hr). cbn [mbind option_bind]. destruct r as [h|e]; cbn [mbind option_bind].
  - destruct Hr as (Hv & He & t & G & Ht & Hh). destruct (copy_block_spec m0 m1 h t G) as (m2 & -> & Hm2 & Hs2 & Ec2); try done.
    cbn [mbind option_bind]. eexists _, _. split; [done|]. split; [done|]. split; [done|]. split; [by rewrite Ec2, Ec|]. intros x [= <-].
    split; [done|]. by exists t.
  - eexists _, _. split; [done|]. split; [done|]. split; [done|]. split; [by rewrite Ec|done].
Qed.

Lemma set_plan_spec p m : ml_ok m -> Forall tag_ok p -> exists m', SetPlan p m = (Ok tt, m') /\ ml_ok m' /\ ml_plan m' = p /\
  ml_next_use m' = (plan_uses 0 p).1 /\ ml_cursor m' = 0.
Proof.
  intros Hm Hp. unfold SetPlan. rewrite (mo_open _ Hm). eexists. split; [done|]. split; [|done]. split; [|done|done|done].
  destruct (mo_calm _ Hm) as (G & HS & Hc). exists G. split; [|done]. cbn.
  destruct (forget_tracks (replacer (ml_kern m))) as (V1 & V2 & V3); [apply (st_inv _ _ _ _ _ HS)|]. by apply (st_replacer K D).
Qed.
End Calls.

(** ** Runs *)

Inductive ml_call := MlSetPlan (p : list BufferTag) | MlFetch (position : Z) | MlNext | MlWorker | MlLoad.
Inductive ml_answer := MlDone (s : Status) | MlBlock (r : Result page) | MlNextIs (r : Result (option (Z * page))) | MlStepped.

(** A call with a plan and a cursor, over blocks [D]. *)
Definition plan_answers (D : BufferTag -> page) (p : list BufferTag) (cursor : Z) (q : ml_call) (a : ml_answer) (p' : list BufferTag) (cursor' : Z) : Prop :=
  match q, a with
  | MlSetPlan p1, MlDone s => s = Ok tt /\ p' = p1 /\ cursor' = 0
  | MlFetch position, MlBlock r => p' = p /\ cursor' = cursor /\
      forall x, r = Ok x -> exists t, p !! Z.to_nat position = Some t /\ x = D t
  | MlNext, MlNextIs r => p' = p /\ cursor' = cursor + 1 /\
      forall x, r = Ok x -> match x with
        | None => Z.of_nat (length p) <= cursor
        | Some (position, x) => position = cursor /\ exists t, p !! Z.to_nat position = Some t /\ x = D t
        end
  | (MlWorker | MlLoad), MlStepped => p' = p /\ cursor' = cursor
  | _, _ => False
  end.

Fixpoint plan_run (D : BufferTag -> page) (p : list BufferTag) (cursor : Z) (qs : list ml_call) (l : list ml_answer) : Prop :=
  match qs, l with
  | [], [] => True
  | q :: qs, a :: l => exists p' cursor', plan_answers D p cursor q a p' cursor' /\ plan_run D p' cursor' qs l
  | _, _ => False
  end.

Section Run.
Context {T F B : Type} `{FrameTableLaws T} `{FreeFramesLaws F} `{BackendLaws B}.
Local Abbreviation ml := (ml_prefetch T F B).

Definition run_ml (q : ml_call) (m : ml) : option (ml_answer * ml) :=
  match q with
  | MlSetPlan p => let '(s, m) := SetPlan p m in Some (MlDone s, m)
  | MlFetch position => '(r, m) ← fetch_block position m; Some (MlBlock r, m)
  | MlNext => '(r, m) ← next_block m; Some (MlNextIs r, m)
  | MlWorker => '(_, m) ← on_kernel worker_round m; Some (MlStepped, m)
  | MlLoad => '(_, m) ← on_kernel complete_load m; Some (MlStepped, m)
  end.

Fixpoint run_mls (qs : list ml_call) (m : ml) : option (list ml_answer * ml) :=
  match qs with
  | [] => Some ([], m)
  | q :: qs => '(a, m) ← run_ml q m; '(l, m) ← run_mls qs m; Some (a :: l, m)
  end.

(** Blocks of a plan have addresses. *)
Definition ml_call_ok (q : ml_call) : Prop := match q with MlSetPlan p => Forall (tag_ok (B := B)) p | _ => True end.

Context (K : config) (D : BufferTag -> page).

Lemma run_ml_spec q m : ml_ok K D m -> ml_call_ok q -> 0 <= ml_cursor m < u64_mod - 1 ->
  exists a m', run_ml q m = Some (a, m') /\ ml_ok K D m' /\ 0 <= ml_cursor m' <= ml_cursor m + 1 /\
    plan_answers D (ml_plan m) (ml_cursor m) q a (ml_plan m') (ml_cursor m').
Proof.
  intros Hm Hq Hc. destruct q as [p|position| | |]; cbn [run_ml ml_call_ok] in *.
  - destruct (set_plan_spec K D p m Hm Hq) as (m' & -> & Hm' & Ep & _ & Ec). eexists _, _. split; [done|]. split; [done|]. rewrite Ec. split; [lia|]. done.
  - destruct (fetch_block_spec K D position m Hm) as (r & m' & -> & Hm' & (_ & Ep & _) & Ec & Hr). cbn. eexists _, _. split; [done|]. split; [done|].
    rewrite Ec. split; [lia|]. cbn. by rewrite Ep.
  - destruct (next_block_spec K D m Hm) as (r & m' & -> & Hm' & (_ & Ep & _) & Ec & Hr). rewrite u64_small in Ec by (unfold is_u64; lia).
    cbn. eexists _, _. split; [done|]. split; [done|]. rewrite Ec. split; [lia|]. cbn. rewrite Ep. done.
  - destruct (on_kernel_spec _ _ m (worker_spec K D (ml_kern m) (mo_calm _ _ _ Hm))) as (b & k & -> & Hk). cbn. eexists _, _. split; [done|].
    split; [destruct Hm; by split|]. cbn. split; [lia|done].
  - destruct (on_kernel_spec _ _ m (load_spec K D (ml_kern m) (mo_calm _ _ _ Hm))) as (b & k & -> & Hk). cbn. eexists _, _. split; [done|].
    split; [destruct Hm; by split|]. cbn. split; [lia|done].
Qed.

Lemma run_mls_spec qs m : ml_ok K D m -> Forall ml_call_ok qs -> 0 <= ml_cursor m -> ml_cursor m + Z.of_nat (length qs) < u64_mod ->
  exists l m', run_mls qs m = Some (l, m') /\ ml_ok K D m' /\ plan_run D (ml_plan m) (ml_cursor m) qs l.
Proof.
  revert m. induction qs as [|q qs IH]; intros m Hm Hqs Hc0 Hc; cbn [run_mls length] in *; [by exists [], m|].
  apply list.Forall_cons in Hqs as [Hq Hqs]. destruct (run_ml_spec q m Hm Hq ltac:(lia)) as (a & m1 & -> & Hm1 & Hc1 & Ha). cbn.
  destruct (IH m1 Hm1 Hqs ltac:(lia) ltac:(lia)) as (l & m2 & -> & Hm2 & Hl). cbn. eexists _, _. split; [done|]. split; [done|]. by eexists _, _.
Qed.
End Run.

Section Created.
Context {B : Type} `{BackendLaws B}.
Local Abbreviation ml := (ml_prefetch page_table free_list B).

(** [MLPrefetchBuffer::Create] returned [m] for a pool the page table can number and a backend [b]. *)
Definition ml_created (p : platform) (o : MLPrefetchBufferOptions) (c : DiskBackendCapabilities) (b : B) (m : ml) : Prop :=
  options_ok (ml_buffer o) /\ 0 <= queue_depth c /\ opt_pool_size (ml_buffer o) <= 2 ^ 31 /\ CreateMl p o c (Some b) = Ok m.

(** [SetPlan] finds the next use of every block of the plan: for each
    position it stores the first later position with the same block, or the value
    for never when there is none. *)
Lemma plan_next_use (m : ml) p m' :
  SetPlan p m = (Ok tt, m') -> length (ml_next_use m') = length p /\
  forall i t, p !! i = Some t -> exists u, ml_next_use m' !! i = Some u /\ next_use_is p i u.
Proof.
  unfold SetPlan. destruct (ml_closed m); [done|]. intros [= <-]. cbn. pose proof (plan_uses_spec p 0) as Hs. destruct (plan_uses 0 p) as [nu later].
  destruct Hs as (Hl & _ & Hu). split; [done|]. intros i t Hi. destruct (Hu i t Hi) as (u & Eu & Hcase). exists u. split; [done|].
  unfold next_use_is. rewrite Hi. destruct Hcase as [?|(j & Hj & -> & Hp & Hf)]; [by left|right]. exists j. split; [done|]. split; [lia|]. done.
Qed.

(** C11 — The prefetch buffer serves its plan: on a buffer that [Create] returned,
    every sequence of plans, fetches and [Next] calls, with flush workers and
    reads in flight in between, returns; a fetch that succeeds returns the block
    at its position of the current plan as it is on disk, whatever was prefetched
    or evicted; [Next] hands out the positions of the plan in order, each once,
    and then nothing. *)
Theorem ml_serves_plan p o c (b : B) (m : ml) qs :
  ml_created p o c b m -> Forall ml_call_ok qs -> Z.of_nat (length qs) < u64_mod ->
  exists l m', run_mls qs m = Some (l, m') /\ plan_run (contents b) [] 0 qs l.
Proof.
  intros (Ho & Hq & Hp & Hc) Hqs Hlen. unfold CreateMl in Hc. set (buffer := Options _ _ _ _ _ _ _ _ _ _ _) in Hc.
  destruct (CreateManager p buffer c (Some b) (Some (MakePlan (opt_pool_size (ml_buffer o))))) as [k|] eqn:Ek; [|done]. injection Hc as <-.
  assert (0 <= opt_pool_size (ml_buffer o)) as H0p by (destruct Ho as [Hu _]; unfold is_u64 in Hu; lia).
  assert (created_with p buffer c b (MakePlan (opt_pool_size (ml_buffer o))) k) as Hk.
  { split; [destruct Ho as (? & ? & ? & ? & ? & ? & ?); split_and!; done|]. split; [done|]. split; [done|]. split; [|by split].
    exists ∅. apply make_plan_is. change FrameList.kNoFrame with (2 ^ 32 - 1). lia. }
  destruct (create_calm (SC := any_block) p buffer c b _ k ltac:(done) Hk) as (Hcalm & _).
  destruct (run_mls_spec (cfg k) (contents b) qs (Ml (prefetch_depth o) false [] [] 0 0 k)) as (l & m' & El & _ & Hl); [by split|done|done|cbn; lia|].
  by exists l, m'.
Qed.
End Created.

(** ** A run: two frames, five positions, blocks read ahead *)

Definition ml_disk : ram_disk := RamDisk (fun t => [Ascii.byte_of_ascii (Ascii.ascii_of_N (Z.to_N (block_id t)))]) 0 (fun n => (n =? 4)%nat).
Definition ml_options : MLPrefetchBufferOptions := MlOptions (Options 2 4096 0 0 0 0 true 0 0 kQueuedWriteback None) 1.
Definition ml_platform : platform := Platform 8 (Some (fun _ => [])) true true true.
Definition small_ml : Result (ml_prefetch page_table free_list ram_disk) := CreateMl ml_platform ml_options (Capabilities 4 1 0) (Some ml_disk).
Definition epoch : list BufferTag := MkTag 1 <$> [10; 11; 10; 12; 11].
Definition ml_calls : list ml_call := [MlSetPlan epoch; MlNext; MlNext; MlLoad; MlNext; MlNext; MlFetch 0; MlNext; MlNext; MlFetch 9].

Example ml_answers :
  match small_ml with Ok m => fst <$> run_mls ml_calls m | Err _ => None end =
  Some [MlDone (Ok tt); MlNextIs (Ok (Some (0, [Byte.x0a]))); MlNextIs (Ok (Some (1, [Byte.x0b]))); MlStepped; MlNextIs (Ok (Some (2, [Byte.x0a])));
        MlNextIs (Ok (Some (3, [Byte.x0c]))); MlBlock (Ok [Byte.x0a]); MlNextIs (Ok (Some (4, [Byte.x0b]))); MlNextIs (Ok None);
        MlBlock (InvalidArgument "plan position is out of range")].
Proof. vm_compute. reflexivity. Qed.

Lemma plan_next_use_witness :
  exists m m', small_ml = Ok m /\ SetPlan epoch m = (Ok tt, m') /\ exists u, ml_next_use m' !! 1%nat = Some u /\ next_use_is epoch 1 u.
Proof.
  assert (match small_ml with Ok _ => true | Err _ => false end = true) as E by (vm_compute; reflexivity).
  destruct small_ml as [m|] eqn:Em; [|discriminate E]. destruct (SetPlan epoch m) as [s m'] eqn:Es.
  assert (ml_closed m = false) as Ec by (unfold small_ml, CreateMl in Em; cbn zeta in Em; destruct (CreateManager _ _ _ _ _); [injection Em as <-; reflexivity|discriminate Em]).
  assert (s = Ok tt) as -> by (unfold SetPlan in Es; rewrite Ec in Es; injection Es as <- _; reflexivity).
  destruct (plan_next_use m epoch m' Es) as [_ Hu]. exists m, m'. split; [reflexivity|]. split; [exact Es|]. exact (Hu 1%nat (MkTag 1 11) eq_refl).
Defined.

Lemma ml_serves_plan_witness :
  exists m l m', small_ml = Ok m /\ run_mls ml_calls m = Some (l, m') /\ plan_run (ram ml_disk) [] 0 ml_calls l.
Proof.
  assert (match small_ml with Ok _ => true | Err _ => false end = true) as E by (vm_compute; reflexivity).
  destruct small_ml as [m|] eqn:Em; [|discriminate E].
  assert (ml_created ml_platform ml_options (Capabilities 4 1 0) ml_disk m) as Hm.
  { split; [repeat split; vm_compute; congruence|]. split; [vm_compute; congruence|]. split; [vm_compute; congruence|exact Em]. }
  assert (Forall (ml_call_ok (B := ram_disk)) ml_calls) as Hqs.
  { unfold ml_calls. constructor; [|repeat constructor]. cbn. repeat constructor; vm_compute; congruence. }
  destruct (ml_serves_plan ml_platform ml_options (Capabilities 4 1 0) ml_disk m ml_calls Hm Hqs ltac:(vm_compute; reflexivity)) as (l & m' & El & Hl).
  exists m, l, m'. split; [reflexivity|]. split; [exact El|exact Hl].
Defined.
