(* ===== verification/PageCache.v ===== *)
(** The byte-addressed cache of files on one buffer manager:
    [include/telepath/facade/page_cache.h], [lib/facade/page_cache.cc].

    A [cache] is the facade's own state with the manager it owns; [C A] is a call
    run by one thread.  The promise is at the level of bytes: a read returns
    the bytes of the file, a write changes the bytes it is asked to and no
    others. *)
From Stdlib Require Import Strings.Byte.
From stdpp Require Import strings.
From S2P Require Import Prelude Bytes Status Layout FreeList PageTable Replacer Clock FlushScheduler Cleaner Interfaces.
From S2P Require Import Kernel Manager AsyncRead Lifecycle.
From S2P Require Import KernelInv KernelOps KernelRead KernelClient KernelSweep KernelPrefetch KernelDrop KernelClose.

(** ** State *)

Definition kInitialReadaheadBlocks : Z := 4.
Definition kNoOffset : Z := u64_mod - 1.

Record FileState := MkFileState {
  fs_loaded : bool;
  fs_touched : bool;
  fs_size : Z;
  next_offset : Z;
  window : Z;
  prefetched_until : Z
}.

Definition new_file : FileState := MkFileState false false 0 kNoOffset 0 0.

Record cache (T F R B : Type) := Cache {
  max_readahead_blocks : Z;
  files : gmap Z FileState;
  cache_closed : bool;
  kern : kernel T F R B
}.
Arguments Cache {T F R B}.
Arguments max_readahead_blocks {T F R B}.
Arguments files {T F R B}.
Arguments cache_closed {T F R B}.
Arguments kern {T F R B}.

(** [PageCacheOptions]. *)
Record PageCacheOptions := CacheOptions {
  pc_buffer : BufferManagerOptions;
  pc_max_readahead_blocks : Z;
  write_behind : bool
}.

(** [options.buffer.enable_background_cleaner = true]. *)
Definition with_cleaner (o : BufferManagerOptions) : BufferManagerOptions :=
  Options (opt_pool_size o) (opt_page_size o) (opt_stripe_count o) (opt_flush_worker_count o)
    (opt_flush_submit_batch_size o) (opt_flush_foreground_burst_limit o) true (opt_dirty_page_high_watermark o)
    (opt_dirty_page_low_watermark o) (opt_foreground_writeback o) (opt_pre_write_hook o).

Section PageCache.
Context {T F R B : Type} `{FrameTable T} `{FreeFrames F} `{Replacer R} `{Backend B} `{FileBackend B}.
Local Abbreviation kernel := (kernel T F R B).
Local Abbreviation M := (@M T F R B).
Local Abbreviation cache := (cache T F R B).

Definition set_file (file : Z) (s : FileState) (c : cache) : cache :=
  Cache (max_readahead_blocks c) (<[file := s]> (files c)) (cache_closed c) (kern c).
Definition set_kern (k : kernel) (c : cache) : cache := Cache (max_readahead_blocks c) (files c) (cache_closed c) k.
Definition set_cache_closed (c : cache) : cache := Cache (max_readahead_blocks c) (files c) true (kern c).

Definition C (A : Type) : Type := cache -> option (A * cache).
Definition cret {A} (a : A) : C A := fun c => Some (a, c).
Definition cbind {A A'} (m : C A) (f : A -> C A') : C A' := fun c => '(a, c) ← m c; f a c.
Definition cget {A} (f : cache -> A) : C A := fun c => Some (f c, c).
Definition cmodify (f : cache -> cache) : C unit := fun c => Some (tt, f c).
(** A call of the manager. *)
Definition on_manager {A} (m : M A) : C A := fun c => '(a, k) ← m (kern c); Some (a, set_kern k c).

Local Notation "x <- m ;; k" := (cbind m (fun x => k)) (at level 100, m at next level, right associativity).
Local Notation "m ;; k" := (cbind m (fun _ => k)) (at level 100, right associativity).

Definition file_of (file : Z) (c : cache) : FileState := default new_file (files c !! file).
Definition upd_file (file : Z) (g : FileState -> FileState) : C unit :=
  cmodify (fun c => set_file file (g (file_of file c)) c).
Definition bsize (c : cache) : Z := block_size (geometry (cfg (kern c))).

(** A synchronous call of the backend. *)
Definition on_backend {A} (g : B -> A * B) : C A := fun c =>
  let '(a, b) := g (disk (kern c)) in Some (a, set_kern (set_disk b (kern c)) c).

(** The state of the file afterwards, its size read from the backend once. *)
Definition GetState (file : Z) : C Status :=
  upd_file file id ;;
  s <- cget (file_of file) ;;
  if fs_loaded s then cret (Ok tt)
  else
    r <- on_backend (GetFileSize file) ;;
    match r with
    | Err e => cret (Err e)
    | Ok n =>
        upd_file file (fun s => MkFileState true (fs_touched s) n (next_offset s) (window s) (prefetched_until s)) ;;
        cret (Ok tt)
    end.

(** The check every public call starts with. *)
Definition open_then {A} (m : C (Result A)) : C (Result A) :=
  closed <- cget cache_closed ;;
  if (closed : bool) then cret (Unavailable "page cache is closed" 0) else m.

Definition with_state {A} (file : Z) (m : C (Result A)) : C (Result A) :=
  r <- GetState file ;; match r with Err e => cret (Err e) | Ok _ => m end.

(** ** Reading *)

(** The loop of [Read]; the bytes copied so far are [out]. *)
Definition read_loop (bs file offset length : Z) : M (Result (list byte)) :=
  loop (S (Z.to_nat length)) (fun '(copied, out) =>
    if length <=? copied then ret (inr (Ok out))
    else
      let position := u64 (offset + copied) in
      let in_block := position mod bs in
      let chunk := Z.min (bs - in_block) (length - copied) in
      bind (read_page (MkTag file (position / bs)) None) (fun r =>
      match r with
      | Err e => ret (inr (Err e))
      | Ok p => ret (inl (copied + chunk, out ++ slice in_block chunk p))
      end)) (0, []).

Definition set_window (w : Z) (s : FileState) : FileState :=
  MkFileState (fs_loaded s) (fs_touched s) (fs_size s) (next_offset s) w (prefetched_until s).

Definition Readahead (file offset length file_size : Z) : C unit :=
  limit <- cget max_readahead_blocks ;;
  if limit =? 0 then cret tt
  else
    expected <- cget (fun c => next_offset (file_of file c)) ;;
    upd_file file (fun s => MkFileState (fs_loaded s) (fs_touched s) (fs_size s) (u64 (offset + length)) (window s) (prefetched_until s)) ;;
    if negb (offset =? expected) then upd_file file (set_window 0)
    else
      w <- cget (fun c => window (file_of file c)) ;;
      let w := if w =? 0 then Z.min kInitialReadaheadBlocks limit else Z.min (u64 (w * 2)) limit in
      upd_file file (set_window w) ;;
      bs <- cget bsize ;;
      until <- cget (fun c => prefetched_until (file_of file c)) ;;
      let last_block := u64 (u64 (offset + length) - 1) / bs in
      let file_blocks := u64 (u64 (file_size + bs) - 1) / bs in
      let first := Z.max (u64 (last_block + 1)) until in
      let last := Z.min (u64 (u64 (last_block + 1) + w)) file_blocks in
      if last <=? first then cret tt
      else
        upd_file file (fun s => MkFileState (fs_loaded s) (fs_touched s) (fs_size s) (next_offset s) (window s) last) ;;
        on_manager (PrefetchBuffer file first (Z.to_nat (last - first))) ;;
        cret tt.

(** [n] is [out.size()]; the result are the bytes copied. *)
Definition CacheRead (file offset n : Z) : C (Result (list byte)) :=
  open_then (with_state file (
    size <- cget (fun c => fs_size (file_of file c)) ;;
    if (size <=? offset) || (n =? 0) then cret (Ok [])
    else
      let length := Z.min n (size - offset) in
      Readahead file offset length size ;;
      bs <- cget bsize ;;
      on_manager (read_loop bs file offset length))).

(** ** Writing *)

(** The loop of [Write] with the number of bytes it copied. *)
Definition write_loop (bs file offset : Z) (data : list byte) : M (Status * Z) :=
  let n := Z.of_nat (length data) in
  loop (S (length data)) (fun copied =>
    if n <=? copied then ret (inr (Ok tt, copied))
    else
      let position := u64 (offset + copied) in
      let in_block := position mod bs in
      let chunk := Z.min (bs - in_block) (n - copied) in
      let mode := if chunk =? bs then kZeroAndLock else kNormal in
      bind (update_page (MkTag file (position / bs)) None mode (splice in_block (slice copied chunk data))) (fun s =>
      match s with
      | Err e => ret (inr (Err e, copied))
      | Ok _ => ret (inl (copied + chunk))
      end)) 0.

Definition extend_to (file last : Z) : C unit :=
  upd_file file (fun s => MkFileState (fs_loaded s) true (Z.max (fs_size s) last) (next_offset s) (window s) (prefetched_until s)).

Definition CacheWrite (file offset : Z) (data : list byte) : C Status :=
  open_then (
    match data with
    | [] => cret (Ok tt)
    | _ =>
        with_state file (
          bs <- cget bsize ;;
          r <- on_manager (write_loop bs file offset data) ;;
          match r with
          | (Err e, copied) =>
              (if negb (copied =? 0) then extend_to file (u64 (offset + copied)) else cret tt) ;;
              cret (Err e)
          | (Ok _, _) => extend_to file (u64 (offset + Z.of_nat (length data))) ;; cret (Ok tt)
          end)
    end).

(** ** Sizes, syncing and closing *)

Definition FileSize (file : Z) : C (Result Z) :=
  open_then (with_state file (n <- cget (fun c => fs_size (file_of file c)) ;; cret (Ok n))).

(** [memset] of the bytes of a page from [i] on. *)
Definition clear_from (bs i : Z) (p : list byte) : list byte :=
  splice i (replicate (Z.to_nat (bs - i)) x00) p.

Definition shrink (file size : Z) : C Status :=
  bs <- cget bsize ;;
  dropped <- on_manager (DropFileBuffers file (u64 (u64 (size + bs) - 1) / bs)) ;;
  match dropped with
  | Err e => cret (Err e)
  | Ok _ =>
      let in_block := size mod bs in
      tail <- (if in_block =? 0 then cret (Ok tt)
               else on_manager (update_page (MkTag file (size / bs)) None kNormal (clear_from bs in_block))) ;;
      match tail with
      | Err e => cret (Err e)
      | Ok _ => on_backend (SetFileSize file size)
      end
  end.

Definition Truncate (file size : Z) : C Status :=
  open_then (with_state file (
    old <- cget (fun c => fs_size (file_of file c)) ;;
    r <- (if size <? old then shrink file size else cret (Ok tt)) ;;
    match r with
    | Err e => cret (Err e)
    | Ok _ =>
        upd_file file (fun s => MkFileState (fs_loaded s) true size kNoOffset (window s) 0) ;;
        cret (Ok tt)
    end)).

Definition SyncState (file : Z) : C Status :=
  flushed <- on_manager (FlushFileBuffers file) ;;
  match flushed with
  | Err e => cret (Err e)
  | Ok _ =>
      size <- cget (fun c => fs_size (file_of file c)) ;;
      resized <- on_backend (SetFileSize file size) ;;
      match resized with
      | Err e => cret (Err e)
      | Ok _ => on_manager (SyncFile file)
      end
  end.

Definition Sync (file : Z) : C Status := open_then (with_state file (SyncState file)).

Fixpoint sync_files (fs : list Z) : C Status :=
  match fs with
  | [] => cret (Ok tt)
  | f :: fs => s <- SyncState f ;; match s with Err e => cret (Err e) | Ok _ => sync_files fs end
  end.

Definition CacheClose : C Status :=
  closed <- cget cache_closed ;;
  if (closed : bool) then cret (Ok tt)
  else
    touched <- cget (fun c => (filter (fun e => fs_touched e.2 = true) (map_to_list (files c))).*1) ;;
    synced <- sync_files touched ;;
    match synced with
    | Err e => cret (Err e)
    | Ok _ =>
        s <- on_manager Close ;;
        match s with
        | Err e => if bool_decide (code e = kFailed) then cmodify set_cache_closed ;; cret (Err e) else cret (Err e)
        | Ok _ => cmodify set_cache_closed ;; cret (Ok tt)
        end
    end.
End PageCache.

(** [PageCache::Create] with a policy, and with the one a null pointer selects. *)
Definition CreateCache {R B : Type} `{Replacer R} `{Backend B} (p : platform) (o : PageCacheOptions) (c : DiskBackendCapabilities)
    (b : option B) (r : R) : Result (cache page_table free_list R B) :=
  match b with
  | None => InvalidArgument "page cache needs a disk backend"
  | Some _ =>
      let buffer := if write_behind o then with_cleaner (pc_buffer o) else pc_buffer o in
      match CreateManager p buffer c b (Some r) with
      | Err e => Err e
      | Ok manager => Ok (Cache (pc_max_readahead_blocks o) ∅ false manager)
      end
  end.

Definition CreateDefaultCache {B : Type} `{Backend B} (p : platform) (o : PageCacheOptions) (c : DiskBackendCapabilities) (b : option B) :
    Result (cache page_table free_list sweep_state B) :=
  CreateCache p o c b (SweepState (ClockSweepReplacer.Make (opt_pool_size (pc_buffer o)))).

(** ** Bytes of files *)

Definition byte_at (bs : Z) (V : BufferTag -> page) (file pos : Z) : byte :=
  nth (Z.to_nat (pos mod bs)) (V (MkTag file (pos / bs))) x00.

(** The bytes of all files after [d] was written at [offset] of [file]. *)
Definition overwrite (file offset : Z) (d : list byte) (bytes : Z -> Z -> byte) (f pos : Z) : byte :=
  if bool_decide (f = file /\ offset <= pos < offset + Z.of_nat (length d)) then nth (Z.to_nat (pos - offset)) d x00 else bytes f pos.

Lemma overwrite_app file q d d' (bytes : Z -> Z -> byte) f pos :
  overwrite file (q + Z.of_nat (length d)) d' (overwrite file q d bytes) f pos = overwrite file q (d ++ d') bytes f pos.
Proof.
  unfold overwrite. rewrite length_app. destruct (decide (f = file)) as [->|Hne]; [|rewrite !bool_decide_false by tauto; done].
  repeat case_bool_decide; try lia; try done; rewrite !nth_lookup.
  - rewrite lookup_app_r by lia. do 2 f_equal. lia.
  - rewrite lookup_app_l by lia. done.
Qed.
Section Bytes.
Context (bs : Z) (Hbs : 0 < bs).
Context (V : BufferTag -> page) (HV : forall t, length (V t) = Z.to_nat bs).

Lemma block_shift_pos q j : 0 <= q -> 0 <= j < bs - q mod bs -> (q + j) / bs = q / bs /\ (q + j) mod bs = q mod bs + j.
Proof.
  intros Hq Hj. pose proof (Z.mod_pos_bound q bs Hbs). pose proof (Z.div_mod q bs ltac:(lia)).
  split; [symmetry; apply (Z.div_unique_pos _ _ _ (q mod bs + j)); lia|symmetry; apply (Z.mod_unique_pos _ _ (q / bs)); lia].
Qed.

Lemma slice_bytes file q chunk :
  0 <= q -> 0 <= chunk <= bs - q mod bs -> slice (q mod bs) chunk (V (MkTag file (q / bs))) = byte_at bs V file <$> seqZ q chunk.
Proof.
  intros Hq Hc. pose proof (Z.mod_pos_bound q bs Hbs). unfold slice. apply list_eq. intros i. rewrite list_lookup_fmap.
  destruct (decide (Z.of_nat i < chunk)) as [Hi|Hi].
  - rewrite lookup_take_lt by lia. rewrite lookup_drop, lookup_seqZ_lt by lia. cbn. unfold byte_at.
    destruct (block_shift_pos q (Z.of_nat i) Hq ltac:(lia)) as [-> ->]. rewrite nth_lookup.
    replace (Z.to_nat (q mod bs + Z.of_nat i)) with (Z.to_nat (q mod bs) + i)%nat by lia.
    destruct (lookup_lt_is_Some_2 (V (MkTag file (q / bs))) (Z.to_nat (q mod bs) + i)) as [x ->]; [rewrite HV; lia|done].
  - rewrite lookup_take_ge by lia. rewrite lookup_seqZ_ge by lia. done.
Qed.

(** Writing [d] inside one block. *)
Lemma write_block_bytes file q d f pos :
  0 <= q -> 0 <= pos -> Z.of_nat (length d) <= bs - q mod bs ->
  byte_at bs (<[MkTag file (q / bs) := splice (q mod bs) d (V (MkTag file (q / bs)))]> V) f pos =
  overwrite file q d (byte_at bs V) f pos.
Proof.
  intros Hq Hpos Hd. pose proof (Z.mod_pos_bound q bs Hbs). pose proof (Z.mod_pos_bound pos bs Hbs).
  pose proof (Z.div_mod q bs ltac:(lia)) as Eq. pose proof (Z.div_mod pos bs ltac:(lia)) as Ep.
  unfold byte_at at 1, overwrite. destruct (decide (MkTag f (pos / bs) = MkTag file (q / bs))) as [E|Hne].
  - rewrite E, fn_lookup_insert. injection E as -> Eb. rewrite nth_splice by (rewrite ?HV; lia). rewrite Eb in Ep.
    destruct (decide _) as [Hj|Hj].
    + rewrite bool_decide_true by (split; [done|lia]). f_equal. lia.
    + rewrite bool_decide_false by (intros [_ ?]; lia). unfold byte_at. by rewrite Eb.
  - rewrite fn_lookup_insert_ne by done. rewrite bool_decide_false; [done|]. intros [-> Hr]. apply Hne. f_equal.
    destruct (block_shift_pos q (pos - q) Hq ltac:(lia)) as [E _]. by replace (q + (pos - q)) with pos in E by lia.
Qed.
End Bytes.

(** ** The loops *)

Section Loops.
Context {T F R B : Type} `{FrameTableLaws T} `{FreeFramesLaws F} `{ReplacerLaws R} `{BackendLaws B} {SC : Scope}.
Local Abbreviation kernel := (kernel T F R B).
Context (K : config).
Local Abbreviation bs := (block_size (geometry K)).
Context (Hbs : 0 < bs) (Hfits : forall p : page, page_fits (B := B) p <-> length p = Z.to_nat bs).

(** The block of a position. *)
Lemma block_in_range q : 0 <= q < u64_mod -> 0 <= q / bs /\ q / bs * bs < u64_mod.
Proof. intros Hq. pose proof (Z.div_mod q bs ltac:(lia)). pose proof (Z.mod_pos_bound q bs Hbs). split; [apply Z.div_pos; lia|lia]. Qed.

Lemma zero_page_length : length (zero_page (geometry K)) = Z.to_nat bs.
Proof. apply length_replicate. Qed.

Definition whole (V : BufferTag -> page) : Prop := forall t, length (V t) = Z.to_nat bs.

Lemma read_loop_spec V file offset length k :
  (forall b, 0 <= b -> b * bs < u64_mod -> scope (MkTag file b)) -> calm_state K V k -> whole V -> 0 <= offset -> 0 <= length -> offset + length < u64_mod ->
  wp (read_loop bs file offset length) (fun r k' => calm_state K V k' /\
    forall out, r = Ok out -> out = byte_at bs V file <$> seqZ offset length) k.
Proof.
  intros Hsc Hk HV Ho Hl Hu. unfold read_loop.
  refine (wp_loop (fun a k1 => calm_state K V k1 /\ 0 <= a.1 <= length /\ a.2 = byte_at bs V file <$> seqZ offset a.1)
    (fun a _ => Z.to_nat (length - a.1)) _ _ _ _ k _ _ _); [|split; [done|]; split; [cbn; lia|done]|cbn; lia].
  intros [copied out] k1 (Hk1 & Hc & Eo). cbn [fst snd] in *. destruct (Z.leb_spec length copied) as [Hge|Hlt].
  { cbn [wp ret]. split; [done|]. intros out' [= <-]. rewrite Eo. by replace copied with length by lia. }
  rewrite u64_small by (unfold is_u64; lia). set (q := offset + copied). pose proof (Z.mod_pos_bound q bs Hbs) as Hm.
  set (chunk := Z.min _ _). assert (0 < chunk <= bs - q mod bs /\ chunk <= length - copied) as [Hch Hch'] by (unfold chunk; lia).
  eapply wp_seq; [apply (read_page_spec K V); [apply Hsc; apply block_in_range; unfold q; lia|done]|]. intros [p|e] k2 [Hk2 Hp]; cbn [wp ret]; [|split; [done|congruence]].
  rewrite (Hp p eq_refl). cbn [fst snd]. split; [|lia]. split; [done|]. split; [lia|].
  assert (0 <= q) by (unfold q; lia). rewrite (slice_bytes bs Hbs V HV file q chunk) by lia. rewrite Eo, <- fmap_app. f_equal. apply seqZ_app; lia.
Qed.

(** A chunk of data written into its block. *)
Lemma write_chunk_spec V file q chunk d k :
  (forall b, 0 <= b -> b * bs < u64_mod -> scope (MkTag file b)) -> calm_state K V k -> whole V -> 0 <= q < u64_mod -> 0 < chunk <= bs - q mod bs -> length d = Z.to_nat chunk ->
  wp (update_page (MkTag file (q / bs)) None (if chunk =? bs then kZeroAndLock else kNormal) (splice (q mod bs) d)) (fun s k' =>
    match s with
    | Ok _ => exists V', calm_state K V' k' /\ whole V' /\ forall f pos, 0 <= pos -> byte_at bs V' f pos = overwrite file q d (byte_at bs V) f pos
    | Err _ => calm_state K V k'
    end) k.
Proof.
  intros Hsc Hk HV Hq Hch Hd. pose proof (Z.mod_pos_bound q bs Hbs) as Hm. set (tag := MkTag file (q / bs)).
  eapply wp_mono; [apply (update_page_spec K V tag); [| |by apply Hsc; apply block_in_range|done]|].
  { intros p Hp. apply Hfits. apply Hfits in Hp. rewrite length_splice; lia. }
  { by apply Hfits, zero_page_length. }
  intros [[]|e] k' Hu; [|done]. destruct Hu as (p & Hp & Hk').
  assert (splice (q mod bs) d p = splice (q mod bs) d (V tag)) as Es.
  { destruct Hp as [->|[Hz ->]]; [done|]. destruct (Z.eqb_spec chunk bs) as [Ec|]; [|done]. assert (q mod bs = 0) as E0 by lia. rewrite E0.
    unfold splice. cbn. rewrite !drop_ge; [done|rewrite HV; lia|unfold zero_page; rewrite length_replicate; lia]. }
  exists (<[tag := splice (q mod bs) d p]> V). split; [done|]. rewrite Es. split.
  - intros t. destruct (decide (t = tag)) as [->|Hne]; [|rewrite fn_lookup_insert_ne by done; apply HV].
    rewrite fn_lookup_insert, length_splice; rewrite HV; lia.
  - intros f pos Hpos. apply (write_block_bytes bs Hbs V HV); lia.
Qed.

Lemma write_loop_spec V file offset data k :
  (forall b, 0 <= b -> b * bs < u64_mod -> scope (MkTag file b)) -> calm_state K V k -> whole V -> 0 <= offset -> offset + Z.of_nat (length data) < u64_mod ->
  wp (write_loop bs file offset data) (fun r k' => exists V', calm_state K V' k' /\ whole V' /\
    0 <= r.2 <= Z.of_nat (length data) /\ (has_value r.1 = true -> r.2 = Z.of_nat (length data)) /\
    forall f pos, 0 <= pos -> byte_at bs V' f pos = overwrite file offset (slice 0 r.2 data) (byte_at bs V) f pos) k.
Proof.
  intros Hsc Hk HV Ho Hu. unfold write_loop. set (n := Z.of_nat (length data)) in *.
  refine (wp_loop (fun a k1 => exists V', calm_state K V' k1 /\ whole V' /\ 0 <= a <= n /\
      forall f pos, 0 <= pos -> byte_at bs V' f pos = overwrite file offset (slice 0 a data) (byte_at bs V) f pos)
    (fun a _ => Z.to_nat (n - a)) _ _ _ _ k _ _ _); [| |unfold n; lia].
  2: { exists V. split; [done|]. split; [done|]. split; [unfold n; lia|]. intros f pos _. change (slice 0 0 data) with (@nil byte). unfold overwrite. cbn [length].
       rewrite bool_decide_false; [done|]. intros [_ ?]. lia. }
  intros copied k1 (V1 & Hk1 & HV1 & Hc & Eb). destruct (Z.leb_spec n copied) as [Hge|Hlt].
  { cbn [wp ret fst snd]. exists V1. split_and!; try done; lia. }
  rewrite u64_small by (unfold is_u64; lia). set (q := offset + copied). pose proof (Z.mod_pos_bound q bs Hbs) as Hm.
  set (chunk := Z.min _ _). assert (0 < chunk <= bs - q mod bs /\ chunk <= n - copied) as [Hch Hch'] by (unfold chunk; lia).
  assert (length (slice copied chunk data) = Z.to_nat chunk) as Hls by (apply slice_length; lia).
  eapply wp_seq; [apply (write_chunk_spec V1 file q chunk (slice copied chunk data) k1 Hsc Hk1 HV1); [unfold q; lia|done|done]|].
  intros [[]|e] k2 Hr; cbn [wp ret fst snd].
  - destruct Hr as (V2 & Hk2 & HV2 & Eb2). split; [|lia]. exists V2. split; [done|]. split; [done|]. split; [lia|]. intros f pos Hpos.
    rewrite Eb2 by done. rewrite <- slice_app by lia. rewrite <- overwrite_app.
    rewrite (slice_length 0 copied) by lia. rewrite Z2Nat.id by lia. unfold overwrite at 1 2. fold q. by rewrite Eb.
  - exists V1. split_and!; try done; lia.
Qed.
End Loops.
