(* ===== verification/PageCacheRefine.v ===== *)
(** The page cache as a set of files of bytes.

    [file_step] is the promise of [include/telepath/facade/page_cache.h] call by
    call, on the bytes and the sizes of all files: a read stops at the end of the
    file, a write changes the bytes it covers and extends the file, a gap reads as
    zeros, truncating cuts the file, and a sync that succeeds has the bytes on
    disk.  The size of a file becomes known with the first call about it.  The
    theorems say that every sequence of calls on a cache that [PageCache::Create]
    returned keeps the promise and returns, up to the first [Truncate] that fails.

    The pages of a file are cached only once its size is known; this is the scope
    the manager's invariant is used at. *)
From Stdlib Require Import Strings.Byte.
From stdpp Require Import strings.
From S2P Require Import Prelude Bytes Status CasLoop FrameControl Layout FreeList PageTable Replacer FlushScheduler.
From S2P Require Import Cleaner Interfaces.
From S2P Require Import Kernel Manager.
From S2P Require Import AsyncRead Lifecycle KernelInv KernelOps KernelFrames KernelRead KernelClient KernelSweep.
From S2P Require Import KernelPrefetch KernelDrop KernelClose KernelStart PageCache.

(** ** Cutting pages *)

Lemma cut_clear bs i p : 0 <= i <= bs -> length p = Z.to_nat bs -> clear_from bs i p = cut bs i p.
Proof.
  intros Hi Hl. unfold clear_from, splice, cut. rewrite length_replicate. rewrite drop_ge by lia. rewrite app_nil_r.
  do 2 f_equal. lia.
Qed.

(** A page of bytes that are zero from the end of the file on. *)
Lemma cut_file_fix bs file n t p :
  0 < bs -> length p = Z.to_nat bs -> file_id t = file ->
  (forall j, (j < Z.to_nat bs)%nat -> n <= block_id t * bs + Z.of_nat j -> nth j p x00 = x00) -> cut_file bs file n t p = p.
Proof.
  intros Hbs Hl Ht Hz. unfold cut_file. rewrite Ht, Z.eqb_refl. apply (nth_ext _ _ x00 x00); rewrite length_cut by auto; [done|].
  intros j Hj. rewrite nth_cut by auto. destruct (decide _); [done|]. symmetry. apply Hz; [done|lia].
Qed.

Section Cut.
Context (bs : Z) (Hbs : 0 < bs).

Lemma byte_at_cut (V : BufferTag -> page) file n f pos :
  (forall t, file_id t = file -> block_id t * bs < n -> length (V t) = Z.to_nat bs) -> 0 <= pos ->
  byte_at bs (fun t => cut_file bs file n t (V t)) f pos = if bool_decide (f = file /\ n <= pos) then x00 else byte_at bs V f pos.
Proof.
  intros Hl Hpos. unfold byte_at, cut_file. cbn [file_id block_id]. pose proof (Z.mod_pos_bound pos bs Hbs).
  pose proof (Z.div_mod pos bs ltac:(lia)) as Ep. destruct (Z.eqb_spec f file) as [->|Hne]; [|rewrite bool_decide_false by tauto; done].
  rewrite nth_cut by (lia || (destruct (decide (pos / bs * bs < n)); [right; by apply Hl|left; lia])).
  destruct (decide _); [rewrite bool_decide_false by lia; done|rewrite bool_decide_true by lia; done].
Qed.

Lemma cut_file_bytes (V : BufferTag -> page) file n :
  (forall t, length (V t) = Z.to_nat bs) -> 0 <= n ->
  (forall t, file_id t = file -> 0 <= block_id t -> cut_file bs file n t (V t) = V t) <->
  (forall pos, n <= pos -> byte_at bs V file pos = x00).
Proof.
  intros HV Hn. split.
  - intros Hc pos Hpos. pose proof (byte_at_cut V file n file pos ltac:(auto) ltac:(lia)) as E. rewrite bool_decide_true in E by done.
    rewrite <- E. unfold byte_at. rewrite Hc; [done|done|]. cbn. apply Z.div_pos; lia.
  - intros Hz t Ht Hb. apply cut_file_fix; try done. intros j Hj Hp.
    specialize (Hz (block_id t * bs + Z.of_nat j) Hp). unfold byte_at in Hz.
    rewrite Z.add_comm, Z.mod_add, Z.mod_small in Hz by lia. rewrite Z.div_add, Z.div_small in Hz by lia.
    rewrite Nat2Z.id in Hz. destruct t as [f b]. cbn in *. by subst.
Qed.
End Cut.

(** ** Resizing a file under the manager *)

Section Resize.
Context {T F R B : Type} `{FrameTableLaws T} `{FreeFramesLaws F} `{ReplacerLaws R} `{BackendLaws B} {SC : Scope}.
Local Abbreviation kernel := (kernel T F R B).
Context (K : config).

(** A page outside the scope is on disk. *)
Lemma calm_unscoped V (k : kernel) t : calm_state K V k -> ~ scope t -> contents (disk k) t = V t.
Proof.
  intros (G & HS & _) Hn. pose proof (st_inv _ _ _ _ _ HS) as HI. apply (i_store _ _ _ _ HI). intros f Hf Es <-.
  apply Hn, (i_scope _ _ _ _ HI f Hf). congruence.
Qed.

(** Blocks of the disk may change where the change leaves the cached pages alone. *)
Lemma calm_rewrite V (k : kernel) b (u : BufferTag -> page -> page) :
  calm_state K V k -> (forall t, contents b t = u t (contents (disk k) t)) -> (forall t, scope t -> u t (V t) = V t) ->
  (forall t, page_fits (B := B) (u t (V t))) ->
  calm_state K (fun t => u t (V t)) (set_disk b k).
Proof.
  intros (G & (E1 & E2 & E3 & HI) & Hc) Hb Hu Hfit. exists G. split; [|done]. split; [done|]. split; [done|]. split; [done|].
  assert (forall f, in_pool k f -> g_state (G f) <> kFree -> u (g_tag (G f)) (V (g_tag (G f))) = V (g_tag (G f))) as Hf.
  { intros f Hf Hs. by apply Hu, (i_scope _ _ _ _ HI). }
  destruct HI as [I1 I2 I3 I4 I5 I6 I7 I8 I9 I10 I11 I12 I13 I14 I15 I16 I17 I18]. split; try done.
  - intros f Hin. destruct (I4 f Hin) as [F1 F2 F3 F4 F5 F6 F7 F8]. split; try done. intros Es. cbn [disk set_disk].
    destruct (F8 Es) as (? & ? & ? & Hcl & ?). rewrite Hf by (congruence || done). split_and!; try done.
    intros Ed. rewrite Hb, Hcl by done. apply Hf; congruence || done.
  - intros t Ht. cbn [disk set_disk]. rewrite Hb. f_equal. by apply I8.
  - destruct I10 as [Hnd Hall]. split; [done|]. intros t Ht. destruct (Hall t Ht) as [Hin [J1 J2 J3 J4 J5]]. split; [done|].
    split; try done. intros Hr Hx. rewrite Hf by (congruence || done). by apply J5.
Qed.
End Resize.

(** ** Calls of the cache *)

Section Cache.
Context {T F R B : Type} `{FrameTableLaws T} `{FreeFramesLaws F} `{ReplacerLaws R} `{BackendLaws B} `{FileBackend B}.
Local Abbreviation kernel := (kernel T F R B).
Local Abbreviation cache := (cache T F R B).
Local Abbreviation C := (@C T F R B).

Definition wpc {A} (m : C A) (Q : A -> cache -> Prop) (c : cache) : Prop :=
  match m c with Some (a, c') => Q a c' | None => ~ steady_policy (R := R) end.

Lemma wpc_bind {A A'} (m : C A) (f : A -> C A') Q c : wpc m (fun a => wpc (f a) Q) c -> wpc (cbind m f) Q c.
Proof. unfold wpc, cbind. by destruct (m c) as [[a c']|]. Qed.

Lemma wpc_mono {A} (m : C A) (Q Q' : A -> cache -> Prop) c : wpc m Q c -> (forall a c', Q a c' -> Q' a c') -> wpc m Q' c.
Proof. unfold wpc. destruct (m c) as [[a c']|]; auto. Qed.

Lemma wpc_seq {A A'} (m : C A) (f : A -> C A') (Q : A -> cache -> Prop) S c :
  wpc m Q c -> (forall a c', Q a c' -> wpc (f a) S c') -> wpc (cbind m f) S c.
Proof. intros Hm Hf. apply wpc_bind. by eapply wpc_mono. Qed.

Lemma wpc_get {A A'} (g : cache -> A) (f : A -> C A') Q c : wpc (f (g c)) Q c -> wpc (cbind (cget g) f) Q c.
Proof. done. Qed.

(** A call of the manager, with its specification. *)
Lemma wpc_manager {A} (m : M A) (P : A -> kernel -> Prop) Q (c : cache) :
  wp m P (kern c) -> (forall a k, P a k -> Q a (set_kern k c)) -> wpc (on_manager m) Q c.
Proof. unfold wpc, wp, on_manager. destruct (m (kern c)) as [[a k]|]; cbn; auto. Qed.

Lemma wpc_call {A A'} (m : M A) (f : A -> C A') (P : A -> kernel -> Prop) Q (c : cache) :
  wp m P (kern c) -> (forall a k, P a k -> wpc (f a) Q (set_kern k c)) -> wpc (cbind (on_manager m) f) Q c.
Proof. intros Hm Hf. apply wpc_bind. by eapply wpc_manager. Qed.

Context (K : config).
Local Abbreviation bs := (block_size (geometry K)).
Context (Hbs : 0 < bs) `{FL : !FileBackendLaws B bs}.

(** The pages of the files whose size is known. *)
Definition opened (c : cache) : Scope := fun t => fs_loaded (file_of (file_id t) c) = true /\ addressable (B := B) t.

Lemma opened_addressable c t : @scope (opened c) t -> addressable (B := B) t.
Proof. by intros [_ ?]. Qed.

Lemma opened_block c file : fs_loaded (file_of file c) = true -> is_u64 file ->
  forall b, 0 <= b -> b * bs < u64_mod -> @scope (opened c) (MkTag file b).
Proof. intros Hl Hf b H0b Hb. split; [done|]. by apply file_block_law. Qed.

(** Bytes past the end of a file are zero. *)
Definition ends_at (V : BufferTag -> page) (file n : Z) : Prop :=
  is_u64 n /\ forall t, file_id t = file -> cut_file bs file n t (V t) = V t.

Record cache_ok (V : BufferTag -> page) (c : cache) : Prop := {
  co_kern : calm_state (SC := opened c) K V (kern c);
  co_whole : whole K V;
  co_open : cache_closed c = false;
  co_size file : fs_loaded (file_of file c) = true -> ends_at V file (fs_size (file_of file c));
  co_touched file : fs_touched (file_of file c) = true -> fs_loaded (file_of file c) = true
}.

Definition sizes (c : cache) (file : Z) : option Z :=
  if fs_loaded (file_of file c) then Some (fs_size (file_of file c)) else None.

Lemma co_bsize V c : cache_ok V c -> bsize c = bs.
Proof. intros [(G & HS & _) _ _ _ _]. unfold bsize. by rewrite (st_cfg _ _ _ _ _ HS). Qed.

Lemma file_of_set file s (c : cache) f : file_of f (set_file file s c) = if decide (f = file) then s else file_of f c.
Proof.
  unfold file_of, set_file. cbn. destruct (decide (f = file)) as [->|Hne]; [by rewrite lookup_insert_eq|by rewrite lookup_insert_ne].
Qed.

(** The state of the manager moved on under the same files. *)
Lemma cache_ok_kern V V' c k :
  cache_ok V c -> calm_state (SC := opened c) K V' k -> whole K V' ->
  (forall file, fs_loaded (file_of file c) = true -> ends_at V' file (fs_size (file_of file c))) -> cache_ok V' (set_kern k c).
Proof. intros [_ _ Ho _ Ht] Hk HV Hs. by split. Qed.

Lemma cache_ok_calm V c k : cache_ok V c -> calm_state (SC := opened c) K V k -> cache_ok V (set_kern k c).
Proof. intros Hc Hk. eapply cache_ok_kern; try done; apply Hc. Qed.

(** Fields that only steer the readahead, or mark the file as changed. *)
Lemma upd_file_spec V c file g :
  cache_ok V c -> (forall s, fs_loaded (g s) = fs_loaded s /\ fs_size (g s) = fs_size s /\ fs_touched (g s) = fs_touched s) ->
  wpc (upd_file file g) (fun _ c' => cache_ok V c' /\ forall f, sizes c' f = sizes c f) c.
Proof.
  intros [Hk HV Ho Hs Ht] Hg. unfold wpc, upd_file, cmodify. set (c' := set_file _ _ _).
  assert (forall f, fs_loaded (file_of f c') = fs_loaded (file_of f c) /\ fs_size (file_of f c') = fs_size (file_of f c) /\
    fs_touched (file_of f c') = fs_touched (file_of f c)) as E.
  { intros f. unfold c'. rewrite file_of_set. destruct (decide _) as [->|]; [apply Hg|done]. }
  split.
  - split; try done.
    + apply (calm_rescope (opened c)); [|apply opened_addressable|done]. intros t. unfold scope, opened. by destruct (E (file_id t)) as [-> _].
    + intros f. destruct (E f) as (-> & -> & _). apply Hs.
    + intros f. destruct (E f) as (-> & _ & ->). apply Ht.
  - intros f. unfold sizes. by destruct (E f) as (-> & -> & _).
Qed.

(** ** The state of a file *)

(** The sizes after a call that needs the size of [file]: it may become known. *)
Definition learns (V : BufferTag -> page) (file : Z) (sz sz' : Z -> option Z) : Prop :=
  (forall f, f <> file -> sz' f = sz f) /\
  (sz' file = sz file \/ sz file = None /\ exists n, sz' file = Some n /\ ends_at V file n).

Lemma learns_refl V file sz : learns V file sz sz.
Proof. split; [done|by left]. Qed.

Lemma learns_ext V file sz sz1 sz2 : learns V file sz sz1 -> (forall f, sz2 f = sz1 f) -> learns V file sz sz2.
Proof. intros [Ho Hf] E. split; [intros f Hne; rewrite E; auto|by rewrite E]. Qed.

(** The backend answered without changing a block. *)
Lemma cache_ok_disk V c b : cache_ok V c -> contents b = contents (disk (kern c)) -> cache_ok V (set_kern (set_disk b (kern c)) c).
Proof.
  intros Hc E. apply cache_ok_calm; [done|]. destruct (co_kern _ _ Hc) as (G & HS & Hg). exists G. split; [|done].
  by apply (st_disk_same (SC := opened c)).
Qed.

(** The size of a file that was not known is recorded. *)
Lemma cache_ok_load V c file n tc nx w pu :
  cache_ok V c -> fs_loaded (file_of file c) = false -> ends_at V file n ->
  cache_ok V (set_file file (MkFileState true tc n nx w pu) c).
Proof.
  intros [Hk HV Ho Hs Ht] El Hn. split; try done.
  - apply (calm_rescope (opened c)); [|apply opened_addressable|done]. intros t. unfold scope, opened. rewrite file_of_set. by destruct (decide _); [|done]; intros [_ ?].
  - intros f. rewrite file_of_set. destruct (decide _) as [->|]; [done|apply Hs].
  - intros f. rewrite file_of_set. destruct (decide _) as [->|]; [done|apply Ht].
Qed.

Lemma get_state_spec V c file :
  cache_ok V c -> wpc (GetState file) (fun r c' => cache_ok V c' /\ learns V file (sizes c) (sizes c') /\
    (has_value r = true -> fs_loaded (file_of file c') = true)) c.
Proof.
  intros Hc. unfold GetState. eapply wpc_seq; [by apply (upd_file_spec V c file id)|]. intros [] c1 [Hc1 E1]. apply wpc_get.
  assert (learns V file (sizes c) (sizes c1)) as L1 by (eapply learns_ext; [apply learns_refl|done]).
  destruct (fs_loaded (file_of file c1)) eqn:El; [done|].
  unfold wpc, cbind, on_backend. pose proof (get_size_law (bs := bs) file (disk (kern c1))) as Hl.
  destruct (GetFileSize file (disk (kern c1))) as [r b]. destruct Hl as [Hb Hn]. cbn [mbind option_bind]. set (c2 := set_kern _ c1).
  assert (cache_ok V c2) as Hc2 by by apply cache_ok_disk.
  destruct r as [n|e]; cbn [upd_file cmodify cret mbind option_bind has_value]; [|done].
  destruct (Hn n eq_refl) as [Hu Hz].
  assert (ends_at V file n) as He.
  { split; [done|]. intros t Ht. rewrite <- (calm_unscoped (SC := opened c1) K V (kern c1) t (co_kern _ _ Hc1)); [by apply Hz|].
    unfold scope, opened. rewrite Ht, El. by intros [? _]. }
  split; [by apply cache_ok_load|]. split; [|by rewrite file_of_set, decide_True]. split.
  - intros f Hne. rewrite <- E1. unfold sizes. by rewrite file_of_set, decide_False.
  - right. split; [rewrite <- E1; unfold sizes; by rewrite El|]. exists n. split; [|done]. unfold sizes. by rewrite file_of_set, decide_True.
Qed.

Lemma open_then_spec {A} (m : C (Result A)) V c Q : cache_ok V c -> wpc m Q c -> wpc (open_then m) Q c.
Proof. intros Hc Hm. unfold open_then. apply wpc_get. by rewrite (co_open _ _ Hc). Qed.

Lemma with_state_spec {A} (m : C (Result A)) V c file (Q : Result A -> cache -> Prop) :
  cache_ok V c ->
  (forall c', cache_ok V c' -> learns V file (sizes c) (sizes c') -> fs_loaded (file_of file c') = true -> wpc m Q c') ->
  (forall e c', cache_ok V c' -> learns V file (sizes c) (sizes c') -> Q (Err e) c') ->
  wpc (with_state file m) Q c.
Proof.
  intros Hc Hm He. unfold with_state. eapply wpc_seq; [by apply (get_state_spec V)|]. intros [[]|e] c' (Hc' & Hl & Hld); [|by apply He].
  by apply Hm; [..|apply Hld].
Qed.

(** ** Reading *)

Lemma readahead_spec V c file offset length size :
  is_u64 file -> cache_ok V c -> fs_loaded (file_of file c) = true ->
  wpc (Readahead file offset length size) (fun _ c' => cache_ok V c' /\ forall f, sizes c' f = sizes c f) c.
Proof.
  intros Hfile Hc Hl. unfold Readahead. apply wpc_get. destruct (_ =? 0); [done|]. apply wpc_get.
  eapply wpc_seq; [by apply (upd_file_spec V)|]. intros [] c1 [Hc1 E1].
  destruct (negb _). { eapply wpc_mono; [by apply (upd_file_spec V)|]. intros _ c2 [? E2]. split; [done|]. intros f. by rewrite E2. }
  apply wpc_get. eapply wpc_seq; [by apply (upd_file_spec V)|]. intros [] c2 [Hc2 E2]. do 2 apply wpc_get.
  assert (forall f, sizes c2 f = sizes c f) as E by (intros f; by rewrite E2).
  rewrite (co_bsize V c2 Hc2). set (first := Z.max _ _). set (last := Z.min _ _). destruct (Z.leb_spec last first) as [|Hlt]; [done|].
  eapply wpc_seq; [by apply (upd_file_spec V)|]. intros [] c3 [Hc3 E3].
  assert (fs_loaded (file_of file c3) = true) as Hl3.
  { specialize (E file). rewrite <- E3 in E. unfold sizes in E. rewrite Hl in E. by destruct (fs_loaded (file_of file c3)). }
  assert (0 <= first /\ last * bs < u64_mod + bs) as [H0f Hlast].
  { pose proof (u64_range (u64 (offset + length) - 1)). pose proof (u64_range (u64 (size + bs) - 1)).
    split; [unfold first; pose proof (u64_range (u64 (u64 (offset + length) - 1) / bs + 1)); unfold is_u64 in *; lia|].
    assert (last <= u64 (u64 (size + bs) - 1) / bs) as Hle by apply Z.le_min_r.
    pose proof (Z.div_mod (u64 (u64 (size + bs) - 1)) bs ltac:(lia)). pose proof (Z.mod_pos_bound (u64 (u64 (size + bs) - 1)) bs Hbs).
    unfold is_u64 in *. nia. }
  eapply wpc_call; [apply (prefetch_spec (SC := opened c3) K V); [|apply Hc3]|].
  { intros i Hi. assert (first + Z.of_nat i < last) by lia.
    assert ((first + Z.of_nat i) * bs < u64_mod) by nia. rewrite u64_small by (unfold is_u64; nia). apply opened_block; done || lia. }
  intros s k Hk. unfold wpc, cret. split; [by apply cache_ok_calm|]. intros f. by rewrite <- E, <- E3.
Qed.

Lemma sizes_loaded c c' file : (forall f, sizes c' f = sizes c f) -> fs_loaded (file_of file c) = true ->
  fs_loaded (file_of file c') = true /\ fs_size (file_of file c') = fs_size (file_of file c).
Proof.
  intros E Hl. specialize (E file). unfold sizes in E. rewrite Hl in E. destruct (fs_loaded (file_of file c')); [|done]. by injection E.
Qed.

Lemma cache_read_spec V c file offset n :
  is_u64 file -> cache_ok V c -> 0 <= offset -> 0 <= n ->
  wpc (CacheRead file offset n) (fun r c' => cache_ok V c' /\ learns V file (sizes c) (sizes c') /\
    forall out, r = Ok out -> exists s, sizes c' file = Some s /\ out = byte_at bs V file <$> seqZ offset (Z.min n (s - offset))) c.
Proof.
  intros Hfile Hc Ho Hn. unfold CacheRead. eapply open_then_spec; [done|]. eapply with_state_spec; [done| |done].
  intros c1 Hc1 L1 Hl1. apply wpc_get. set (size := fs_size (file_of file c1)). destruct (co_size _ _ Hc1 file Hl1) as [Hu _]. fold size in Hu.
  assert (sizes c1 file = Some size) as Es by (unfold sizes; by rewrite Hl1).
  destruct (_ || _) eqn:Ee.
  { unfold wpc, cret. split; [done|]. split; [done|]. intros out [= <-]. exists size. split; [done|]. rewrite seqZ_nil by lia. done. }
  apply orb_false_iff in Ee as [Ee1 Ee2]. unfold is_u64 in Hu. set (len := Z.min n (size - offset)).
  eapply wpc_seq; [by apply (readahead_spec V)|]. intros [] c2 [Hc2 E2]. apply wpc_get. rewrite (co_bsize V) by done.
  destruct (sizes_loaded c1 c2 file E2 Hl1) as [Hl2 _].
  eapply wpc_manager; [apply (read_loop_spec (SC := opened c2) K Hbs V file offset len); [by apply opened_block|apply Hc2|apply Hc2|lia..]|].
  intros r k [Hk Hr]. split; [by apply cache_ok_calm|]. split; [by eapply learns_ext; [exact L1|]|].
  intros out Eo. exists size. split; [by rewrite <- Es, <- E2|]. by apply Hr.
Qed.

Lemma file_size_spec V c file :
  cache_ok V c -> wpc (FileSize file) (fun r c' => cache_ok V c' /\ learns V file (sizes c) (sizes c') /\
    forall n, r = Ok n -> sizes c' file = Some n) c.
Proof.
  intros Hc. unfold FileSize. eapply open_then_spec; [done|]. eapply with_state_spec; [done| |done].
  intros c1 Hc1 L1 Hl1. apply wpc_get. unfold wpc, cret. split; [done|]. split; [done|]. intros n [= <-]. unfold sizes. by rewrite Hl1.
Qed.

(** ** Writing *)

(** A file whose bytes past the end are zero, in terms of bytes. *)
Lemma ends_bytes V file n : whole K V -> 0 <= n -> is_u64 n -> ends_at V file n <-> forall pos, n <= pos -> byte_at bs V file pos = x00.
Proof.
  intros HV Hn Hu. rewrite <- (cut_file_bytes bs Hbs V file n HV Hn). unfold ends_at. split; [intros [_ Hc] t Ht _; by apply Hc|].
  intros Hc. split; [done|]. intros t Ht. destruct (decide (0 <= block_id t)); [by apply Hc|].
  unfold cut_file. rewrite Ht, Z.eqb_refl. apply cut_all; [apply HV|nia].
Qed.

(** The bytes changed by a write of [d] at [offset], which the new sizes cover. *)
Lemma ends_overwrite V V' file offset d f n :
  whole K V -> whole K V' -> ends_at V f n -> 0 <= offset -> offset + Z.of_nat (length d) < u64_mod ->
  (forall f pos, 0 <= pos -> byte_at bs V' f pos = overwrite file offset d (byte_at bs V) f pos) ->
  ends_at V' f (if decide (f = file /\ d <> []) then Z.max n (offset + Z.of_nat (length d)) else n).
Proof.
  intros HV HV' He Ho Hlt Hw. pose proof (proj1 He) as Hu. unfold is_u64 in Hu.
  assert (is_u64 (if decide (f = file /\ d <> []) then Z.max n (offset + Z.of_nat (length d)) else n)) as Hu'.
  { unfold is_u64. destruct (decide _); lia. }
  apply ends_bytes; try done; [apply Hu'|]. intros pos Hpos.
  pose proof (proj1 (ends_bytes V f n HV ltac:(lia) Hu) He) as Hz. rewrite Hw by (unfold is_u64 in Hu'; lia). unfold overwrite.
  rewrite bool_decide_false; [apply Hz; destruct (decide _); lia|]. intros [-> Hr].
  destruct (decide _) as [Hd|Hd]; [lia|]. apply Hd. split; [done|]. intros ->. cbn in Hr. lia.
Qed.

(** The sizes after [m] bytes were written at [offset] of [file]. *)
Definition grows (file offset m : Z) (sz sz' : Z -> option Z) : Prop :=
  (forall f, f <> file -> sz' f = sz f) /\
  if m =? 0 then sz' file = sz file else exists s, sz file = Some s /\ sz' file = Some (Z.max s (offset + m)).

Lemma cache_ok_grow V V' c k file offset d :
  cache_ok V c -> fs_loaded (file_of file c) = true -> calm_state (SC := opened c) K V' k -> whole K V' ->
  0 <= offset -> offset + Z.of_nat (length d) < u64_mod -> d <> [] ->
  (forall f pos, 0 <= pos -> byte_at bs V' f pos = overwrite file offset d (byte_at bs V) f pos) ->
  wpc (extend_to file (u64 (offset + Z.of_nat (length d)))) (fun _ c' => cache_ok V' c' /\
    grows file offset (Z.of_nat (length d)) (sizes c) (sizes c')) (set_kern k c).
Proof.
  intros Hc Hl Hk HV' Ho Hlt Hd Hw. rewrite u64_small by (unfold is_u64; lia). unfold wpc, extend_to, upd_file, cmodify.
  set (c' := set_file _ _ _).
  assert (forall f, fs_loaded (file_of f c') = fs_loaded (file_of f c) /\
    fs_size (file_of f c') = if decide (f = file /\ d <> []) then Z.max (fs_size (file_of f c)) (offset + Z.of_nat (length d)) else fs_size (file_of f c)) as E.
  { intros f. unfold c'. rewrite file_of_set. destruct (decide (f = file)) as [->|Hne]; [rewrite decide_True by done|rewrite decide_False by tauto]; done. }
  split; [split|split].
  - apply (calm_rescope (opened c)); [|apply opened_addressable|done]. intros t. unfold scope, opened. by destruct (E (file_id t)) as [-> _].
  - done.
  - apply Hc.
  - intros f. destruct (E f) as [-> ->]. intros Hf. apply (ends_overwrite V V' file offset d); try done; [apply Hc|by apply Hc].
  - intros f. destruct (E f) as [-> _]. unfold c'. rewrite file_of_set. destruct (decide _) as [->|]; [done|by apply Hc].
  - intros f Hne. unfold sizes. destruct (E f) as [-> ->]. by rewrite decide_False by tauto.
  - destruct (Z.eqb_spec (Z.of_nat (length d)) 0); [destruct d; cbn in *; [done|lia]|]. exists (fs_size (file_of file c)). unfold sizes.
    destruct (E file) as [-> ->]. rewrite Hl. by rewrite decide_True.
Qed.

Lemma overwrite_nil file offset (b : Z -> Z -> byte) f pos : overwrite file offset [] b f pos = b f pos.
Proof. unfold overwrite. cbn. rewrite bool_decide_false; [done|]. intros [_ ?]. lia. Qed.

Lemma cache_ok_same_bytes V V' c k :
  cache_ok V c -> calm_state (SC := opened c) K V' k -> whole K V' ->
  (forall f pos, 0 <= pos -> byte_at bs V' f pos = byte_at bs V f pos) -> cache_ok V' (set_kern k c).
Proof.
  intros Hc Hk HV' Hb. eapply cache_ok_kern; try done. intros f Hf. pose proof (co_size _ _ Hc f Hf) as He. pose proof (proj1 He) as Hu.
  pose proof Hu as Hu'. unfold is_u64 in Hu'. apply ends_bytes; try done; [lia|]. intros pos Hp. rewrite Hb by lia.
  by apply (ends_bytes V f (fs_size (file_of f c))); [apply Hc|lia|..].
Qed.

Lemma slice_take m (d : list byte) : slice 0 m d = take (Z.to_nat m) d.
Proof. unfold slice. by rewrite drop_0. Qed.

Lemma cache_write_spec V c file offset data :
  is_u64 file -> cache_ok V c -> 0 <= offset -> offset + Z.of_nat (length data) < u64_mod ->
  wpc (CacheWrite file offset data) (fun s c' => exists V' m sz, cache_ok V' c' /\ learns V file (sizes c) sz /\
    0 <= m <= Z.of_nat (length data) /\ (has_value s = true -> m = Z.of_nat (length data)) /\
    (forall f pos, 0 <= pos -> byte_at bs V' f pos = overwrite file offset (take (Z.to_nat m) data) (byte_at bs V) f pos) /\
    grows file offset m sz (sizes c')) c.
Proof.
  intros Hfile Hc Ho Hlt. unfold CacheWrite. eapply open_then_spec; [done|].
  assert (forall c', cache_ok V c' -> learns V file (sizes c) (sizes c') -> forall s, (has_value s = true -> data = []) ->
    exists V' m sz, cache_ok V' c' /\ learns V file (sizes c) sz /\ 0 <= m <= Z.of_nat (length data) /\
      (has_value (s : Status) = true -> m = Z.of_nat (length data)) /\
      (forall f pos, 0 <= pos -> byte_at bs V' f pos = overwrite file offset (take (Z.to_nat m) data) (byte_at bs V) f pos) /\
      grows file offset m sz (sizes c')) as Hnone.
  { intros c' Hc' L s Hs. exists V, 0, (sizes c'). split; [done|]. split; [done|]. split; [lia|]. split; [intros E; by rewrite (Hs E)|].
    split; [|by split]. intros f pos _. by rewrite overwrite_nil. }
  destruct data as [|x data']; [apply Hnone; [done|apply learns_refl|done]|]. set (data := x :: data') in *.
  eapply with_state_spec; [done| |]; [|intros e c' Hc' L; by apply Hnone].
  intros c1 Hc1 L1 Hl1. apply wpc_get. rewrite (co_bsize V) by done.
  eapply wpc_call; [apply (write_loop_spec (SC := opened c1) K Hbs fits_law V file offset data); [by apply opened_block|apply Hc1|apply Hc1|done..]|].
  intros [s m] k (V' & Hk & HV' & Hm & Hs & Hw). cbn [fst snd] in *. rewrite slice_take in Hw.
  assert (length (take (Z.to_nat m) data) = Z.to_nat m) as Elen by (rewrite length_take; lia).
  destruct (decide (m = 0)) as [->|Hm0].
  - destruct s as [[]|e]; [by specialize (Hs eq_refl)|]. cbn. unfold wpc, cbind, cret. cbn.
    exists V', 0, (sizes c1). split; [eapply cache_ok_same_bytes; try done; intros f pos Hp; by rewrite Hw, overwrite_nil|].
    split; [done|]. split; [done|]. split; [done|]. split; [done|by split].
  - assert (wpc (extend_to file (u64 (offset + m))) (fun _ c' => cache_ok V' c' /\ grows file offset m (sizes c1) (sizes c')) (set_kern k c1)) as Hx.
    { pose proof (cache_ok_grow V V' c1 k file offset (take (Z.to_nat m) data) Hc1 Hl1 Hk HV' Ho) as Hg. rewrite Elen, Z2Nat.id in Hg by lia.
      apply Hg; [lia| |done]. intros E. rewrite E in Elen. cbn in Elen. lia. }
    destruct s as [[]|e].
    + rewrite (Hs eq_refl) in Hx. eapply wpc_seq; [exact Hx|]. intros [] c' [Hc' Hg]. unfold wpc, cret. exists V', m, (sizes c1).
      rewrite <- (Hs eq_refl) in Hg. split_and!; try done; lia.
    + rewrite (proj2 (Z.eqb_neq m 0)) by done. cbn [negb]. eapply wpc_seq; [exact Hx|]. intros [] c' [Hc' Hg]. unfold wpc, cret.
      exists V', m, (sizes c1). split_and!; try done; lia.
Qed.

(** ** Truncating *)

(** What cutting [file] at [n] does to the bytes. *)
Definition cut_bytes (file n : Z) (b : Z -> Z -> byte) (f pos : Z) : byte :=
  if bool_decide (f = file /\ n <= pos) then x00 else b f pos.

Lemma first_dropped n : 0 <= n -> n + bs < u64_mod ->
  forall b, u64 (u64 (n + bs) - 1) / bs <= b <-> n <= b * bs.
Proof.
  intros Hn Hu b. rewrite (u64_small (n + bs)) by (unfold is_u64; lia). rewrite u64_small by (unfold is_u64; lia).
  pose proof (Z.div_mod (n + bs - 1) bs ltac:(lia)). pose proof (Z.mod_pos_bound (n + bs - 1) bs Hbs). split; nia.
Qed.

Lemma dropped_range file n t : 0 <= n -> n + bs < u64_mod ->
  in_range file (u64 (u64 (n + bs) - 1) / bs) t = false <-> (file_id t = file -> block_id t * bs < n).
Proof.
  intros Hn Hu. unfold in_range. pose proof (first_dropped n Hn Hu (block_id t)) as Hf.
  destruct (Z.eqb_spec (file_id t) file), (Z.leb_spec (u64 (u64 (n + bs) - 1) / bs) (block_id t)); cbn;
    (split; [|done || (intros Hx; try (specialize (Hx ltac:(done))); lia)]); intros; try done; lia.
Qed.

(** The last block of a file of [n] bytes with its end zeroed, when [n] is inside. *)
Definition clear_tail (file n : Z) (V : BufferTag -> page) : BufferTag -> page :=
  if n mod bs =? 0 then V else <[MkTag file (n / bs) := clear_from bs (n mod bs) (V (MkTag file (n / bs)))]> V.

Lemma clear_tail_page V file n t :
  0 <= n -> (file_id t = file -> block_id t * bs < n) -> length (V t) = Z.to_nat bs ->
  clear_tail file n V t = cut_file bs file n t (V t).
Proof.
  intros Hn Ht Hl. pose proof (Z.mod_pos_bound n bs Hbs) as Hm. pose proof (Z.div_mod n bs ltac:(lia)) as En.
  unfold clear_tail, cut_file. destruct t as [f b]. cbn [file_id block_id] in *. destruct (Z.eqb_spec f file) as [->|Hne].
  - specialize (Ht eq_refl). destruct (decide (b = n / bs /\ n mod bs <> 0)) as [[-> Hmod]|Hno].
    + rewrite (proj2 (Z.eqb_neq _ 0)) by done. rewrite fn_lookup_insert, cut_clear by (lia || done). f_equal. lia.
    + assert (bs <= n - b * bs). { assert (b <> n / bs) by (intros Eb; apply Hno; split; [done|]; rewrite Eb in Ht; lia). assert (b < n / bs) by nia. nia. }
      rewrite cut_all by done. destruct (n mod bs =? 0) eqn:E0; [done|]. rewrite fn_lookup_insert_ne; [done|]. intros [= Eb].
      apply Hno. by apply Z.eqb_neq in E0.
  - destruct (n mod bs =? 0); [done|]. rewrite fn_lookup_insert_ne; [done|congruence].
Qed.

(** The blocks the drop left in the cache end where the file will end. *)
Lemma kept_blocks V V1 file n :
  whole K V -> 0 <= n -> n + bs < u64_mod ->
  (forall t, in_range file (u64 (u64 (n + bs) - 1) / bs) t = false -> V1 t = V t) ->
  let V3 := fun t => cut_file bs file n t (clear_tail file n V1 t) in
  whole K V3 /\
  (forall t, in_range file (u64 (u64 (n + bs) - 1) / bs) t = false -> V3 t = clear_tail file n V1 t) /\
  forall f pos, 0 <= pos -> byte_at bs V3 f pos = cut_bytes file n (byte_at bs V) f pos.
Proof.
  intros HV Hn Hu HV1 V3.
  assert (forall t, in_range file (u64 (u64 (n + bs) - 1) / bs) t = false -> clear_tail file n V1 t = cut_file bs file n t (V t)) as Hk.
  { intros t Hr. pose proof (proj1 (dropped_range file n t Hn Hu) Hr) as Ht. rewrite clear_tail_page; rewrite ?HV1 by done; try done. }
  assert (forall t, V3 t = cut_file bs file n t (V t)) as HV3.
  { intros t. unfold V3. destruct (in_range file (u64 (u64 (n + bs) - 1) / bs) t) eqn:Hr.
    - assert (file_id t = file /\ n <= block_id t * bs) as [Ht Hb].
      { apply andb_true_iff in Hr as [Hf%Z.eqb_eq Hb%Z.leb_le]. split; [done|]. by apply (first_dropped n Hn Hu). }
      unfold cut_file. rewrite Ht, Z.eqb_refl. unfold cut. by replace (Z.to_nat (n - block_id t * bs)) with 0%nat by lia.
    - rewrite Hk by done. unfold cut_file. destruct (Z.eqb_spec (file_id t) file) as [Ht|]; [|done].
      pose proof (proj1 (dropped_range file n t Hn Hu) Hr Ht). apply cut_idem; [lia|apply HV]. }
  split; [|split].
  - intros t. rewrite HV3. unfold cut_file. destruct (_ =? _); [apply length_cut; right|]; apply HV.
  - intros t Hr. by rewrite HV3, Hk.
  - intros f pos Hp. unfold cut_bytes. rewrite <- (byte_at_cut bs Hbs V file n f pos) by (intros; done || apply HV).
    unfold byte_at. by rewrite HV3.
Qed.

Lemma shrink_spec V c file n :
  is_u64 file -> cache_ok V c -> fs_loaded (file_of file c) = true -> 0 <= n -> n + bs < u64_mod ->
  wpc (shrink file n) (fun s c' => has_value s = true -> exists V' k, c' = set_kern k c /\ calm_state (SC := opened c) K V' k /\
    whole K V' /\ forall f pos, 0 <= pos -> byte_at bs V' f pos = cut_bytes file n (byte_at bs V) f pos) c.
Proof.
  intros Hfile Hc Hl Hn Hu. unfold shrink. apply wpc_get. rewrite (co_bsize V) by done. set (first := u64 (u64 (n + bs) - 1) / bs).
  eapply wpc_call; [apply (drop_spec (SC := opened c) K V file first), Hc|].
  intros [[]|e] k1 (V1 & _ & HV1 & _ & Hs); [|done]. destruct (Hs eq_refl) as [_ Hk1]. clear Hs.
  set (SC1 := (fun t => @scope (opened c) t /\ in_range file first t = false) : Scope) in *.
  destruct (kept_blocks V V1 file n ltac:(apply Hc) Hn Hu HV1) as (Hw3 & Hk3 & Hb3). fold first in Hk3.
  assert (wpc (if n mod bs =? 0 then cret (Ok tt)
               else on_manager (update_page (MkTag file (n / bs)) None kNormal (clear_from bs (n mod bs))))
    (fun s c' => has_value s = true -> exists k, c' = set_kern k c /\ calm_state (SC := SC1) K (clear_tail file n V1) k) (set_kern k1 c)) as Htail.
  { unfold clear_tail. destruct (Z.eqb_spec (n mod bs) 0) as [E0|E0]; [intros _; by exists k1|].
    eapply wpc_manager; [apply (update_page_spec (SC := SC1) K V1)|].
    - intros p Hp. apply (fits_law (bs := bs)). apply (fits_law (bs := bs)) in Hp. pose proof (Z.mod_pos_bound n bs Hbs). unfold clear_from.
      rewrite length_splice; rewrite ?length_replicate; lia.
    - apply (fits_law (bs := bs)), zero_page_length.
    - split; [apply opened_block; try done; apply (block_in_range K Hbs); lia|]. apply (dropped_range file n (MkTag file (n / bs)) Hn Hu). intros _. cbn.
      pose proof (Z.mod_pos_bound n bs Hbs). pose proof (Z.div_mod n bs ltac:(lia)). lia.
    - exact Hk1.
    - intros [[]|e] k2 Hk2; [|done]. intros _. destruct Hk2 as (p & [->|[? _]] & Hk2); [|done]. by exists k2. }
  eapply wpc_seq; [exact Htail|]. intros [[]|e] c2 Ht2; [|done]. destruct (Ht2 eq_refl) as (k2 & -> & Hk2).
  unfold wpc, on_backend. cbn [kern set_kern]. pose proof (set_size_law (bs := bs) file n (disk k2) ltac:(unfold is_u64; lia)) as Hset.
  destruct (SetFileSize file n (disk k2)) as [[[]|e] b]; [|done]. cbn [has_value] in Hset. intros _.
  eexists _, (set_disk b k2). split; [done|]. split; [|split; [exact Hw3|exact Hb3]].
  apply (calm_rescope SC1); [by intros t [? _]|apply opened_addressable|]. apply (calm_rewrite (SC := SC1)); [done|done| |].
  - intros t [_ Hr]. by apply Hk3.
  - intros t. apply (fits_law (bs := bs)), Hw3.
Qed.

(** The size of [file] is set, its bytes past it being zero. *)
Lemma cache_ok_truncate V V' c k file n tc nx w pu :
  cache_ok V c -> fs_loaded (file_of file c) = true -> is_u64 n -> calm_state (SC := opened c) K V' k -> whole K V' ->
  (forall f pos, 0 <= pos -> byte_at bs V' f pos = cut_bytes file n (byte_at bs V) f pos) ->
  cache_ok V' (set_file file (MkFileState true tc n nx w pu) (set_kern k c)).
Proof.
  intros Hc Hl Hu Hk HV' Hb. split; try done; [|apply Hc|..].
  - apply (calm_rescope (opened c)); [|apply opened_addressable|done]. intros t. unfold scope, opened. rewrite file_of_set. by destruct (decide _); [|done]; intros [_ ?].
  - intros f. rewrite file_of_set. destruct (decide _) as [->|Hne].
    + intros _. cbn [fs_size]. unfold is_u64 in Hu. apply ends_bytes; try done; [lia|]. intros pos Hp. rewrite Hb by lia.
      unfold cut_bytes. by rewrite bool_decide_true.
    + intros Hf. pose proof (co_size _ _ Hc f Hf) as He. pose proof (proj1 He) as Hu2. pose proof Hu2 as Hu3. unfold is_u64 in Hu3.
      apply ends_bytes; try done; [unfold file_of in *; cbn in *; lia|]. intros pos Hp. change (file_of f (set_kern k c)) with (file_of f c) in Hp.
      rewrite Hb by lia. unfold cut_bytes. rewrite bool_decide_false by tauto.
      by apply (ends_bytes V f (fs_size (file_of f c))); [apply Hc|lia|..].
  - intros f. rewrite file_of_set. destruct (decide _) as [->|]; [done|by apply Hc].
Qed.

Lemma truncate_spec V c file n :
  is_u64 file -> cache_ok V c -> 0 <= n -> n + bs < u64_mod ->
  wpc (Truncate file n) (fun s c' => has_value s = true -> exists V', cache_ok V' c' /\
    (forall f, f <> file -> sizes c' f = sizes c f) /\ sizes c' file = Some n /\
    forall f pos, 0 <= pos -> byte_at bs V' f pos = cut_bytes file n (byte_at bs V) f pos) c.
Proof.
  intros Hfile Hc Hn Hu. unfold Truncate. eapply open_then_spec; [done|]. eapply with_state_spec; [done| |done].
  intros c1 Hc1 [L1 _] Hl1. apply wpc_get. pose proof (co_size _ _ Hc1 file Hl1) as He. pose proof (proj1 He) as Hus. pose proof Hus as Hus'.
  unfold is_u64 in Hus'.
  eapply wpc_seq with (Q := fun s c' => has_value s = true -> exists V' k, c' = set_kern k c1 /\ calm_state (SC := opened c1) K V' k /\
    whole K V' /\ forall f pos, 0 <= pos -> byte_at bs V' f pos = cut_bytes file n (byte_at bs V) f pos).
  - destruct (Z.ltb_spec n (fs_size (file_of file c1))) as [Hlt|Hge]; [by apply shrink_spec|]. intros _. exists V, (kern c1).
    split; [by destruct c1|]. split; [apply Hc1|]. split; [apply Hc1|]. intros f pos Hp. unfold cut_bytes. case_bool_decide as Ef; [|done].
    destruct Ef as [-> Hnp]. apply (ends_bytes V file (fs_size (file_of file c1))); [apply Hc1|lia|done|done|lia].
  - intros [[]|e] c2 Hx; [|done]. destruct (Hx eq_refl) as (V' & k & -> & Hk & HV' & Hb). intros _. exists V'.
    change (file_of file (set_kern k c1)) with (file_of file c1). rewrite Hl1.
    split; [apply (cache_ok_truncate V V' c1 k); try done; unfold is_u64; lia|]. split; [|split; [|done]].
    + intros f Hne. rewrite <- L1 by done. unfold sizes. by rewrite file_of_set, decide_False.
    + unfold sizes. by rewrite file_of_set, decide_True.
Qed.

(** ** Syncing *)

Lemma sync_state_spec V c file :
  cache_ok V c -> fs_loaded (file_of file c) = true ->
  wpc (SyncState file) (fun s c' => exists V', cache_ok V' c' /\ files c' = files c /\ (forall t, V' t = V t) /\
    (has_value s = true -> forall t, file_id t = file -> contents (disk (kern c')) t = V t)) c.
Proof.
  intros Hc Hl. unfold SyncState.
  eapply wpc_call; [apply (flush_file_spec (SC := opened c) K V file), Hc|]. intros [[]|e] k1 [Hk1 Hs].
  2: { unfold wpc, cret. exists V. split; [by apply cache_ok_calm|done]. }
  specialize (Hs eq_refl). apply wpc_get. change (file_of file (set_kern k1 c)) with (file_of file c). set (n := fs_size _).
  pose proof (proj2 (co_size _ _ Hc file Hl)) as Hend. fold n in Hend.
  unfold wpc, cbind, on_backend. cbn [kern set_kern]. pose proof (set_size_law (bs := bs) file n (disk k1) (proj1 (co_size _ _ Hc file Hl))) as Hset.
  destruct (SetFileSize file n (disk k1)) as [[[]|e] b]; cbn [has_value] in Hset; cbn [mbind option_bind cret].
  2: { exists V. split; [apply (cache_ok_disk V (set_kern k1 c)); [by apply cache_ok_calm|done]|done]. }
  set (V' := fun t => cut_file bs file n t (V t)).
  assert (forall t, V' t = V t) as EV.
  { intros t. unfold V'. destruct (decide (file_id t = file)) as [Ht|Ht]; [by apply Hend|]. unfold cut_file. by rewrite (proj2 (Z.eqb_neq _ _)). }
  assert (cache_ok V' (set_kern (set_disk b k1) c)) as Hc2.
  { apply (cache_ok_same_bytes V V' c); [done| | |].
    - apply (calm_rewrite (SC := opened c) K V k1 b (cut_file bs file n)); [done|done|intros t _; apply EV|].
      intros t. apply (fits_law (bs := bs)). fold (V' t). rewrite EV. apply Hc.
    - intros t. rewrite EV. apply Hc.
    - intros f pos _. unfold byte_at. by rewrite EV. }
  change (wpc (on_manager (SyncFile file)) (fun s c' => exists V', cache_ok V' c' /\ files c' = files c /\ (forall t, V' t = V t) /\
    (has_value s = true -> forall t, file_id t = file -> contents (disk (kern c')) t = V t)) (set_kern (set_disk b k1) c)).
  eapply wpc_manager; [apply (sync_file_spec (SC := opened c) K V' file), Hc2|]. intros s k3 [Hk3 Ed]. exists V'.
  split; [by apply (cache_ok_calm V' (set_kern (set_disk b k1) c))|]. split; [done|]. split; [done|]. intros _ t Ht. cbn [kern set_kern].
  rewrite Ed. cbn [disk set_disk]. rewrite Hset, Hs by done. by apply Hend.
Qed.

Lemma sizes_files c c' : files c' = files c -> forall f, sizes c' f = sizes c f.
Proof. intros E f. unfold sizes, file_of. by rewrite E. Qed.

Lemma sync_spec V c file :
  cache_ok V c -> wpc (Sync file) (fun s c' => exists V', cache_ok V' c' /\ learns V file (sizes c) (sizes c') /\ (forall t, V' t = V t) /\
    (has_value s = true -> forall t, file_id t = file -> contents (disk (kern c')) t = V t)) c.
Proof.
  intros Hc. unfold Sync. eapply open_then_spec; [done|]. eapply with_state_spec; [done| |intros e c' ? ?; by exists V].
  intros c1 Hc1 L1 Hl1. eapply wpc_mono; [by apply sync_state_spec|]. intros s c2 (V' & Hc2 & Ef & EV & Hs). exists V'.
  split; [done|]. split; [|done]. eapply learns_ext; [exact L1|]. by apply sizes_files.
Qed.

(** ** Closing *)

Lemma sync_files_ok V c fs :
  cache_ok V c -> (forall f, f ∈ fs -> fs_loaded (file_of f c) = true) ->
  wpc (sync_files fs) (fun _ c' => exists V', cache_ok V' c' /\ files c' = files c /\ forall t, V' t = V t) c.
Proof.
  revert V c. induction fs as [|f fs IH]; intros V c Hc Hl; cbn [sync_files]; [by exists V|].
  eapply wpc_seq; [apply sync_state_spec; [done|apply Hl; by left]|]. intros [[]|e] c1 (V1 & Hc1 & Ef & EV & _); [|by exists V1].
  eapply wpc_mono; [apply (IH V1); [done|]|].
  - intros g Hg. unfold file_of. rewrite Ef. apply Hl. by right.
  - intros s c2 (V2 & Hc2 & Ef2 & EV2). exists V2. split; [done|]. split; [congruence|]. intros t. by rewrite EV2.
Qed.

Lemma cache_close_spec V c :
  cache_ok V c ->
  wpc CacheClose (fun s c' => match s with
    | Ok _ => cache_closed c' = true /\ forall t, contents (disk (kern c')) t = V t
    | Err _ => cache_closed c' = true \/ exists V', cache_ok V' c' /\ files c' = files c /\ forall t, V' t = V t
    end) c.
Proof.
  intros Hc. unfold CacheClose. apply wpc_get. rewrite (co_open _ _ Hc). apply wpc_get.
  eapply wpc_seq; [apply (sync_files_ok V); [done|]|].
  { intros f Hf. apply list_elem_of_fmap in Hf as ([g st] & -> & Hin). apply list_elem_of_filter in Hin as [Ht Hin].
    apply elem_of_map_to_list in Hin. apply (co_touched _ _ Hc). unfold file_of. cbn in *. by rewrite Hin. }
  intros [[]|e] c1 (V1 & Hc1 & Ef & EV); [|unfold wpc, cret; right; by exists V1].
  eapply wpc_call; [apply (close_spec (SC := opened c1) K V1), Hc1|]. intros [[]|e] k [].
  - unfold wpc, cbind, cmodify, cret. cbn. split; [done|]. intros t. by rewrite <- EV.
  - destruct (bool_decide _); [left; done|]. unfold wpc, cret. right. exists V1. split; [|done]. apply cache_ok_calm; [done|]. by eexists.
Qed.
End Cache.

(** ** The promise *)

Inductive call :=
  | FileRead (file offset n : Z)
  | FileWrite (file offset : Z) (data : list byte)
  | GetSize (file : Z)
  | Resize (file n : Z)
  | SyncOf (file : Z)
  | CleanerStep (f : Z)
  | WorkerStep
  | LoadStep.

Inductive answer := Bytes (r : Result (list byte)) | SizeIs (r : Result Z) | Finished (s : Status) | Stepped.

(** The size of [file] is known from now on, or a call about it failed early;
    the bytes past the size are zero. *)
Definition opens (by_ : Z -> Z -> byte) (file : Z) (sz sz' : Z -> option Z) : Prop :=
  (forall f, f <> file -> sz' f = sz f) /\
  (sz' file = sz file \/ sz file = None /\ exists n, sz' file = Some n /\ forall pos, n <= pos -> by_ file pos = x00).

(** One call on files with bytes [by_] and sizes [sz] (absent until a call asked
    the backend); [D] are the bytes on disk afterwards.  A write that fails has
    written a prefix. *)
Definition file_step (by_ : Z -> Z -> byte) (sz : Z -> option Z) (q : call) (a : answer)
    (by' : Z -> Z -> byte) (sz' : Z -> option Z) (D : Z -> Z -> byte) : Prop :=
  let same := forall f pos, 0 <= pos -> by' f pos = by_ f pos in
  match q, a with
  | FileRead file offset n, Bytes r =>
      same /\ opens by_ file sz sz' /\
      forall out, r = Ok out -> exists s, sz' file = Some s /\ out = by_ file <$> seqZ offset (Z.min n (s - offset))
  | FileWrite file offset data, Finished s =>
      exists sz1 m, opens by_ file sz sz1 /\ 0 <= m <= Z.of_nat (length data) /\
        (has_value s = true -> m = Z.of_nat (length data)) /\
        (forall f pos, 0 <= pos -> by' f pos = overwrite file offset (take (Z.to_nat m) data) by_ f pos) /\
        grows file offset m sz1 sz'
  | GetSize file, SizeIs r => same /\ opens by_ file sz sz' /\ forall n, r = Ok n -> sz' file = Some n
  | Resize file n, Finished s =>
      (forall f, f <> file -> sz' f = sz f) /\ sz' file = Some n /\ forall f pos, 0 <= pos -> by' f pos = cut_bytes file n by_ f pos
  | SyncOf file, Finished s =>
      same /\ opens by_ file sz sz' /\ (has_value s = true -> forall pos, 0 <= pos -> D file pos = by_ file pos)
  | (CleanerStep _ | WorkerStep | LoadStep), Stepped => same /\ forall f, sz' f = sz f
  | _, _ => False
  end.

(** Nothing is promised once truncating a file has failed. *)
Definition stops (q : call) (a : answer) : bool :=
  match q, a with Resize _ _, Finished s => negb (has_value s) | _, _ => false end.

Section Run.
Context {T F R B : Type} `{FrameTableLaws T} `{FreeFramesLaws F} `{ReplacerLaws R} `{BackendLaws B} `{FileBackend B}.
Local Abbreviation cache := (cache T F R B).
Local Abbreviation C := (@C T F R B).

Definition run_call (q : call) : C answer :=
  match q with
  | FileRead file offset n => cbind (CacheRead file offset n) (fun r => cret (Bytes r))
  | FileWrite file offset data => cbind (CacheWrite file offset data) (fun s => cret (Finished s))
  | GetSize file => cbind (FileSize file) (fun r => cret (SizeIs r))
  | Resize file n => cbind (Truncate file n) (fun s => cret (Finished s))
  | SyncOf file => cbind (Sync file) (fun s => cret (Finished s))
  | CleanerStep f => cbind (on_manager (ScheduleCleanerFlush f)) (fun _ => cret Stepped)
  | WorkerStep => cbind (on_manager worker_round) (fun _ => cret Stepped)
  | LoadStep => cbind (on_manager complete_load) (fun _ => cret Stepped)
  end.

(** A client that stops when truncating fails: every answer with the disk after it. *)
Fixpoint run_calls (qs : list call) : C (list (answer * B)) :=
  match qs with
  | [] => cret []
  | q :: qs =>
      cbind (run_call q) (fun a =>
      cbind (cget (fun c => disk (kern c))) (fun b =>
      if stops q a then cret [(a, b)] else cbind (run_calls qs) (fun l => cret ((a, b) :: l))))
  end.

(** Arguments are of their C++ types; positions and sizes stay a block below 2^64. *)
Definition call_ok (n bs : Z) (q : call) : Prop :=
  match q with
  | FileRead file offset m => is_u64 file /\ 0 <= offset /\ 0 <= m
  | FileWrite file offset data => is_u64 file /\ 0 <= offset /\ offset + Z.of_nat (length data) < u64_mod
  | Resize file m => is_u64 file /\ 0 <= m /\ m + bs < u64_mod
  | CleanerStep f => 0 <= f < n
  | _ => True
  end.

(** A run of the files from [by_] and [sz] to [by'] and [sz']; once truncating
    failed there is no more to say. *)
Fixpoint file_run (bs : Z) (by_ : Z -> Z -> byte) (sz : Z -> option Z) (qs : list call) (l : list (answer * B))
    (by' : Z -> Z -> byte) (sz' : Z -> option Z) : Prop :=
  match qs, l with
  | [], [] => by' = by_ /\ sz' = sz
  | q :: qs, (a, b) :: l =>
      if stops q a then l = []
      else exists by1 sz1, file_step by_ sz q a by1 sz1 (byte_at bs (contents b)) /\ file_run bs by1 sz1 qs l by' sz'
  | _, _ => False
  end.

Fixpoint run_stopped (qs : list call) (l : list (answer * B)) : bool :=
  match qs, l with
  | q :: qs, (a, _) :: l => stops q a || run_stopped qs l
  | _, _ => false
  end.

Context (K : config).
Local Abbreviation bs := (block_size (geometry K)).
Context (Hbs : 0 < bs) `{FL : !FileBackendLaws B bs}.

Lemma learns_opens V file sz sz' : whole K V -> learns K V file sz sz' -> opens (byte_at bs V) file sz sz'.
Proof.
  intros HV [Ho Hf]. split; [done|]. destruct Hf as [?|(? & n & ? & He)]; [by left|right]. split; [done|]. exists n. split; [done|].
  pose proof (proj1 He) as Hu. pose proof Hu as Hu'. unfold is_u64 in Hu'. by apply (ends_bytes K Hbs V file n HV); [lia|..].
Qed.

Lemma call_refines V c q :
  cache_ok K V c -> call_ok (pool_size K) bs q ->
  wpc (run_call q) (fun a c' => stops q a = false -> exists V', cache_ok K V' c' /\
    file_step (byte_at bs V) (sizes c) q a (byte_at bs V') (sizes c') (byte_at bs (contents (disk (kern c'))))) c.
Proof.
  intros Hc Hq. pose proof (co_whole _ _ _ Hc) as HV. pose proof (learns_opens V) as Hlo. destruct q; cbn [run_call call_ok] in *.
  - eapply wpc_seq; [apply (cache_read_spec K Hbs V); tauto|]. intros r c' (? & L & Hr) _. exists V. split; [done|]. split; [done|]. split; [by apply Hlo|done].
  - eapply wpc_seq; [apply (cache_write_spec K Hbs V); tauto|]. intros s c' (V' & m & sz & ? & L & ? & ? & ? & ?) _. exists V'. split; [done|].
    exists sz, m. split; [by apply Hlo|]. done.
  - eapply wpc_seq; [by apply (file_size_spec K V)|]. intros r c' (? & L & Hr) _. exists V. split; [done|]. split; [done|]. split; [by apply Hlo|done].
  - eapply wpc_seq; [apply (truncate_spec K Hbs V); tauto|]. intros [[]|e] c' Hr; [|done]. intros _. destruct (Hr eq_refl) as (V' & ? & ? & ? & ?). by exists V'.
  - eapply wpc_seq; [by apply (sync_spec K Hbs V)|]. intros s c' (V' & Hc' & L & EV & Hs) _. exists V'. split; [done|]. split.
    { intros f pos _. unfold byte_at. by rewrite EV. }
    split; [by apply Hlo|]. intros Hv pos _. unfold byte_at. by rewrite Hs.
  - eapply wpc_call; [apply (cleaner_flush_spec (SC := opened c) K V); [apply Hc|done]|]. intros [] k Hk _. exists V.
    split; [by apply cache_ok_calm|done].
  - eapply wpc_call; [apply (worker_spec (SC := opened c) K V), Hc|]. intros ? k Hk _. exists V. split; [by apply cache_ok_calm|done].
  - eapply wpc_call; [apply (load_spec (SC := opened c) K V), Hc|]. intros ? k Hk _. exists V. split; [by apply cache_ok_calm|done].
Qed.

Lemma calls_refine V c qs :
  cache_ok K V c -> Forall (call_ok (pool_size K) bs) qs ->
  wpc (run_calls qs) (fun l c' => exists V' sz', file_run bs (byte_at bs V) (sizes c) qs l (byte_at bs V') sz' /\
    (run_stopped qs l = false -> cache_ok K V' c')) c.
Proof.
  revert V c. induction qs as [|q qs IH]; intros V c Hc Hqs; cbn [run_calls]; [by exists V, (sizes c)|].
  apply list.Forall_cons in Hqs as [Hq Hqs].
  eapply wpc_seq; [by apply call_refines|]. intros a c1 Ha. apply wpc_get. destruct (stops q a) eqn:Es.
  - unfold wpc, cret. cbn [file_run run_stopped]. rewrite Es. by exists V, (sizes c).
  - destruct (Ha Es) as (V1 & Hc1 & Hs). eapply wpc_seq; [by apply (IH V1)|]. intros l c2 (V' & sz' & Hl & Hc2). unfold wpc, cret.
    cbn [file_run run_stopped]. rewrite Es. exists V', sz'. split; [|done]. by exists (byte_at bs V1), (sizes c1).
Qed.
End Run.

(** ** From creation on *)

Section Created.
Context {R B : Type} `{ReplacerLaws R} `{BackendLaws B} `{FileBackend B}.
Local Abbreviation cache := (cache page_table free_list R B).

(** [PageCache::Create] returned the cache for a pool the page table can number,
    a policy for as many frames, and a backend [b]. *)
Definition cache_created (p : platform) (o : PageCacheOptions) (d : DiskBackendCapabilities) (b : B) (r : R) (c : cache) : Prop :=
  options_ok (pc_buffer o) /\ 0 <= queue_depth d /\ opt_pool_size (pc_buffer o) <= 2 ^ 31 /\ valid r /\
  frames r = opt_pool_size (pc_buffer o) /\ CreateCache p o d (Some b) r = Ok c.

Context (o : PageCacheOptions).
Local Abbreviation bs := (opt_page_size (pc_buffer o)).
Context `{FL : !FileBackendLaws B bs}.

Lemma created_ok p d b r (c : cache) :
  cache_created p o d b r c ->
  let K := cfg (kern c) in
  cache_ok K (contents b) c /\ pool_size K = opt_pool_size (pc_buffer o) /\
  0 < block_size (geometry K) /\ block_size (geometry K) = bs /\ sizes c = fun _ => None.
Proof.
  intros (Ho & Hq & Hp & Hv & Hfr & E). unfold CreateCache in E. set (buf := if write_behind o then _ else _) in E.
  destruct (CreateManager p buf d (Some b) (Some r)) as [k|] eqn:Ek; [|done]. injection E as <-. cbn [kern].
  assert (opt_pool_size buf = opt_pool_size (pc_buffer o) /\ opt_page_size buf = opt_page_size (pc_buffer o) /\ options_ok buf) as (Eps & Epg & Hob)
    by (unfold buf; by destruct (write_behind o)).
  assert (created_with p buf d b r k) as Hk by (split_and!; try done; by rewrite Eps).
  destruct (create_calm (SC := fun _ => False) p buf d b r k ltac:(done) Hk) as (Hcalm & En & Hg & Eb). rewrite Epg in Eb.
  split; [|split; [by rewrite En|split; [|split; [done|]]]].
  - split; cbn; try done.
    + apply (calm_rescope (fun _ => False)); [done|apply opened_addressable|done].
    + intros t. rewrite Eb. apply (fits_law (bs := bs)), contents_law.
  - unfold geometry_ok in Hg. unfold block_size. rewrite Z.shiftl_1_l. assert (0 < 2 ^ block_shift (geometry (cfg k)) <= 2 ^ 22).
    { split; [apply Z.pow_pos_nonneg; lia|apply Z.pow_le_mono_r; lia]. }
    rewrite u64_small; [lia|unfold is_u64, u64_mod; lia].
  - done.
Qed.

Lemma created_calls p d b r (c : cache) qs :
  cache_created p o d b r c -> Forall (call_ok (opt_pool_size (pc_buffer o)) bs) qs ->
  wpc (run_calls qs) (fun l c' => exists V' sz',
    file_run bs (byte_at bs (contents b)) (fun _ => None) qs l (byte_at bs V') sz' /\
    (run_stopped qs l = false -> wpc CacheClose (fun s c2 => has_value s = true ->
       cache_closed c2 = true /\ forall t, contents (disk (kern c2)) t = V' t) c')) c.
Proof.
  intros Hc Hqs. destruct (created_ok p d b r c Hc) as (Hok & En & Hbs & Eb & <-).
  assert (FileBackendLaws B (block_size (geometry (cfg (kern c))))) as FL' by (rewrite Eb; exact FL).
  rewrite <- Eb in *. rewrite <- En in Hqs. eapply wpc_mono; [by apply (calls_refine (cfg (kern c)))|].
  intros l c' (V' & sz' & Hr & Hc'). exists V', sz'. split; [done|]. intros Hns.
  eapply wpc_mono; [by apply (cache_close_spec (cfg (kern c)) Hbs V'), Hc'|]. by intros [[]|e] c2 Hs.
Qed.

(** C5 — The page cache refines files of bytes: on a cache that [PageCache::Create]
    returned over any backend that keeps its contract, every sequence of reads,
    writes, size queries, truncations and syncs, interleaved with the cleaner, the
    flush workers and readaheads in flight, answers as the files do. A read
    returns the bytes up to the end of the file, whatever was cached, evicted or
    written back; a write changes exactly the bytes it covers (a prefix of them
    when it fails) and extends the file; bytes between the old end and a later
    write read as zeros; truncating cuts the file; a successful sync has put the
    bytes of the file on disk.  The client stops at the first [Truncate] that fails,
    and nothing is promised after it: the pages past the new end are dropped by then,
    while the size is kept. *)
Theorem cache_refines_files p d b r (c : cache) qs l c' :
  cache_created p o d b r c -> Forall (call_ok (opt_pool_size (pc_buffer o)) bs) qs ->
  run_calls qs c = Some (l, c') ->
  exists by' sz', file_run bs (byte_at bs (contents b)) (fun _ => None) qs l by' sz'.
Proof.
  intros Hc Hqs E. pose proof (created_calls p d b r c qs Hc Hqs) as Hr. unfold wpc in Hr. rewrite E in Hr.
  destruct Hr as (V' & sz' & ? & _). by exists (byte_at bs V'), sz'.
Qed.

(** C6 — Closing a page cache loses nothing: with a policy that never misses an
    evictable frame every sequence of calls returns (the client stops at the first
    [Truncate] that fails), and if none failed so does [Close] after it; when it
    reports success the cache is closed and every byte of every file is on
    disk as the calls left it. *)
Theorem cache_close_stores p d b r (c : cache) qs :
  cache_created p o d b r c -> Forall (call_ok (opt_pool_size (pc_buffer o)) bs) qs ->
  steady_policy (R := R) ->
  exists l c1, run_calls qs c = Some (l, c1) /\
    (run_stopped qs l = false -> exists s c2, CacheClose c1 = Some (s, c2) /\
      (has_value s = true -> cache_closed c2 = true /\ exists by' sz',
         file_run bs (byte_at bs (contents b)) (fun _ => None) qs l by' sz' /\
         forall f pos, byte_at bs (contents (disk (kern c2))) f pos = by' f pos)).
Proof.
  intros Hc Hqs Hst. pose proof (created_calls p d b r c qs Hc Hqs) as Hr. unfold wpc at 1 in Hr.
  destruct (run_calls qs c) as [[l c1]|]; [|done]. exists l, c1. split; [done|]. destruct Hr as (V' & sz' & Hrun & Hcl).
  intros Hns. specialize (Hcl Hns). unfold wpc in Hcl. destruct (CacheClose c1) as [[s c2]|]; [|done]. exists s, c2. split; [done|].
  intros Hs. destruct (Hcl Hs) as [? Hd]. split; [done|]. exists (byte_at bs V'), sz'. split; [done|]. intros f pos. unfold byte_at. by rewrite Hd.
Qed.
End Created.
