(* ===== verification/PageCacheRun.v ===== *)
(** A run of the whole stack: the page cache over the buffer manager (two frames,
    SIEVE), over the POSIX backend, over files in memory whose first transfers are
    short and interrupted. *)
From Stdlib Require Import Strings.Byte.
From stdpp Require Import strings.
From S2P Require Import Prelude Bytes Status Layout FreeList PageTable Replacer Sieve Interfaces.
From S2P Require Import Kernel Manager AsyncRead IoEngine FdCache PosixDisk PosixBackend RamFiles Lifecycle.
From S2P Require Import KernelClient KernelStart PageCache PageCacheRefine.

Definition cache_disk : Type := posix_backend (S := ram_files) small_geometry.

(** The disk before the first call. *)
Definition fresh_posix (plan : list fate) : posix ram_files := PosixDisk small_geometry false (MakeFdCache "data" 4) (empty_files plan).

Lemma fresh_posix_ok plan : posix_ok (fresh_posix plan) /\ pd_geometry (fresh_posix plan) = small_geometry.
Proof. split; [|done]. split; [unfold geometry_ok; cbn; lia|]. intros file e He. vm_compute in He. discriminate. Qed.

Definition fresh_disk (plan : list fate) : cache_disk := exist _ (fresh_posix plan) (fresh_posix_ok plan).

Definition cache_buffer : BufferManagerOptions := Options 2 4096 0 0 0 0 false 0 0 kQueuedWriteback None.
Definition cache_options : PageCacheOptions := CacheOptions cache_buffer 8 true.
Definition cache_platform : platform := Platform 8 (Some (fun _ => [])) true true true.
Definition cache_capabilities : DiskBackendCapabilities := Capabilities 4 1 0.
Definition cache_plan : list fate := [Stop 9; Interrupt; Stop 4000; Interrupt; Interrupt; Stop 0].
Definition small_cache : Result (cache page_table free_list sieve cache_disk) :=
  CreateCache cache_platform cache_options cache_capabilities (Some (fresh_disk cache_plan)) (MakeSieve 2).

(** Three bytes over a block boundary, bytes far behind, a gap, a cut, a sync. *)
Definition cache_calls : list call :=
  [FileWrite 7 4095 [x61; x62; x63]; FileRead 7 4094 10; WorkerStep; FileWrite 7 20000 [x64]; FileRead 7 4096 3;
   GetSize 7; SyncOf 7; Resize 7 4097; FileRead 7 4095 10; FileWrite 8 0 [x65]; LoadStep; FileWrite 7 4099 [x66]; FileRead 7 4096 10].

Example cache_answers :
  match small_cache with
  | Ok c => (fun r => r.1.*1) <$> run_calls cache_calls c
  | Err _ => None
  end = Some [Finished (Ok tt); Bytes (Ok [x00; x61; x62; x63]); Stepped; Finished (Ok tt); Bytes (Ok [x62; x63; x00]);
              SizeIs (Ok 20001); Finished (Ok tt); Finished (Ok tt); Bytes (Ok [x61; x62]); Finished (Ok tt); Stepped; Finished (Ok tt);
              Bytes (Ok [x62; x00; x00; x66])].
Proof. vm_compute. reflexivity. Qed.

Lemma small_cache_created c : small_cache = Ok c ->
  cache_created cache_platform cache_options cache_capabilities (fresh_disk cache_plan) (MakeSieve 2) c.
Proof.
  intros E. split; [repeat split; vm_compute; congruence|]. split; [done|]. split; [done|]. split; [|done].
  exists []. by apply make_sieve_rep.
Qed.

Lemma cache_calls_ok : Forall (call_ok 2 4096) cache_calls.
Proof. unfold cache_calls, is_u64, u64_mod. repeat constructor; cbn; unfold is_u64, u64_mod; lia. Qed.

Lemma cache_refines_files_witness :
  exists c l c' by' sz', small_cache = Ok c /\ run_calls cache_calls c = Some (l, c') /\
    file_run 4096 (byte_at 4096 (contents (fresh_disk cache_plan))) (fun _ => None) cache_calls l by' sz'.
Proof.
  assert (match small_cache with Ok c => match run_calls cache_calls c with Some _ => true | None => false end | Err _ => false end = true) as E
    by (vm_compute; reflexivity).
  destruct small_cache as [c|] eqn:Ec; [|discriminate]. destruct (run_calls cache_calls c) as [[l c']|] eqn:El; [|discriminate].
  destruct (cache_refines_files cache_options (FL := posix_files_laws small_geometry) _ _ _ _ c cache_calls l c' (small_cache_created c Ec) cache_calls_ok El) as (by' & sz' & Hr).
  exists c, l, c', by', sz'. split; [reflexivity|]. split; [exact El|exact Hr].
Defined.

Lemma cache_close_stores_witness :
  exists c l c1 s c2 by' sz', small_cache = Ok c /\ run_calls cache_calls c = Some (l, c1) /\ CacheClose c1 = Some (s, c2) /\
    cache_closed c2 = true /\ file_run 4096 (byte_at 4096 (contents (fresh_disk cache_plan))) (fun _ => None) cache_calls l by' sz' /\
    forall f pos, byte_at 4096 (contents (disk (kern c2))) f pos = by' f pos.
Proof.
  assert (match small_cache with
          | Ok c => match run_calls cache_calls c with
                    | Some (l, c1) => negb (run_stopped cache_calls l) && match CacheClose c1 with Some (s, _) => has_value s | None => false end
                    | None => false
                    end
          | Err _ => false
          end = true) as E by (vm_compute; reflexivity).
  destruct small_cache as [c|] eqn:Ec; [|discriminate].
  destruct (cache_close_stores cache_options (FL := posix_files_laws small_geometry) _ _ _ _ c cache_calls (small_cache_created c Ec) cache_calls_ok ltac:(intros s _; exact I))
    as (l & c1 & El & Hcl).
  change (run_calls cache_calls c = Some (l, c1)) in El. rewrite El in E. apply andb_true_iff in E as [Es Ev]. apply negb_true_iff in Es. destruct (Hcl Es) as (s & c2 & Ecl & Hs).
  assert (has_value s = true) as Hv.
  { change (match Some (s, c2) with Some (s, _) => has_value s | None => false end = true). rewrite <- Ecl. exact Ev. }
  destruct (Hs Hv) as (Hc & by' & sz' & Hr & Hd).
  exists c, l, c1, s, c2, by', sz'. split; [reflexivity|]. split; [exact El|]. split; [exact Ecl|]. split; [exact Hc|]. split; [exact Hr|exact Hd].
Defined.
