(* ===== verification/KernelRefine.v ===== *)
(** The buffer manager as a page store.

    A client sees a map from pages to their contents.  [store_step] is that
    promise, request by request: a read returns the page, a write that reports
    success changes it, a drop may turn pages of its range back into what the disk
    has, and nothing else changes a page, whatever is evicted, written back,
    cleaned or reread in between; a flush that reports success has put the pages
    on disk.  [run_request] is what the client runs; the theorems say that
    every sequence of requests on a manager that [BufferManager::Create] returned
    refines the store, and that every request returns. *)
From stdpp Require Import strings.
From S2P Require Import Prelude Status CasLoop FrameControl Layout FreeList PageTable Replacer FlushScheduler.
From S2P Require Import Cleaner Interfaces Kernel Manager AsyncRead KernelInv KernelOps KernelFlush.
From S2P Require Import KernelWait KernelFrames KernelProgress KernelWriteback KernelRound KernelPin.
From S2P Require Import KernelRead KernelClient KernelSweep KernelPrefetch KernelDrop KernelClose Lifecycle KernelStart Sieve.

(** ** The promise *)

Inductive request :=
  | Read (tag : BufferTag) (st : option nat)
  | Write (tag : BufferTag) (st : option nat) (mode : ReadBufferMode) (p : page)
  | FlushPage (tag : BufferTag)
  | FlushFile (file : Z)
  | Flush
  | Checkpoint (lsn : Z)
  | SyncOne (file : Z)
  | Prefetch (file block : Z) (block_count : nat)
  | Drop (file first_block : Z)
  | CleanerFlush (f : Z)
  | WorkerRound
  | LoadDone.

Inductive response := Page (r : Result page) | Done (s : Status) | Background.

(** The pages a successful flush has to have put on disk. *)
Definition flushed (q : request) (t : BufferTag) : Prop :=
  match q with
  | FlushPage tag => t = tag
  | FlushFile file => file_id t = file
  | Flush => True
  | _ => False
  end.

(** One request at the store: what may be answered, the pages and the disk
    afterwards. *)
Definition store_step (V : BufferTag -> page) (q : request) (a : response) (V' D' : BufferTag -> page) : Prop :=
  match q, a with
  | Read tag _, Page r => V' = V /\ (forall p, r = Ok p -> p = V tag)
  | Write tag _ _ p, Done s => V' = if has_value s then <[tag := p]> V else V
  | (FlushPage _ | FlushFile _ | Flush), Done s => V' = V /\ (has_value s = true -> forall t, flushed q t -> D' t = V t)
  | (Checkpoint _ | SyncOne _ | Prefetch _ _ _), Done _ | (CleanerFlush _ | WorkerRound | LoadDone), Background => V' = V
  | Drop file first, Done s =>
      (forall t, in_range file first t = false -> V' t = V t) /\
      (forall t, in_range file first t = true -> V' t = V t \/ V' t = D' t) /\
      (has_value s = true -> forall t, in_range file first t = true -> V' t = D' t)
  | _, _ => False
  end.

Section Refine.
Context {T F R B : Type} `{FrameTableLaws T} `{FreeFramesLaws F} `{ReplacerLaws R} `{BackendLaws B}.
Local Open Scope kernel_scope.
Local Abbreviation kernel := (kernel T F R B).
Local Abbreviation M := (@M T F R B).

(** ** The client *)

Definition run_request (q : request) : M response :=
  match q with
  | Read tag st => r <- read_page tag st ;; ret (Page r)
  | Write tag st mode p => s <- write_page tag st mode p ;; ret (Done s)
  | FlushPage tag => s <- FlushBuffer tag ;; ret (Done s)
  | FlushFile file => s <- FlushFileBuffers file ;; ret (Done s)
  | Flush => s <- FlushAll ;; ret (Done s)
  | Checkpoint lsn => s <- CheckpointBuffers lsn ;; ret (Done s)
  | SyncOne file => s <- SyncFile file ;; ret (Done s)
  | Prefetch file block n => s <- PrefetchBuffer file block n ;; ret (Done s)
  | Drop file first => s <- DropFileBuffers file first ;; ret (Done s)
  | CleanerFlush f => ScheduleCleanerFlush f ;; ret Background
  | WorkerRound => worker_round ;; ret Background
  | LoadDone => complete_load ;; ret Background
  end.

(** Every answer with the state of the disk after it. *)
Fixpoint run_requests (qs : list request) : M (list (response * B)) :=
  match qs with
  | [] => ret []
  | q :: qs => a <- run_request q ;; b <- get disk ;; l <- run_requests qs ;; ret ((a, b) :: l)
  end.

(** A run of the store. *)
Fixpoint store_run (V : BufferTag -> page) (qs : list request) (l : list (response * B)) (V' : BufferTag -> page) : Prop :=
  match qs, l with
  | [], [] => V' = V
  | q :: qs, (a, b) :: l => exists V1, store_step V q a V1 (contents b) /\ store_run V1 qs l V'
  | _, _ => False
  end.

(** Pages have addresses on disk and are a block long; frame ids come from the
    manager itself. *)
Definition request_ok (n : Z) (q : request) : Prop :=
  match q with
  | Read tag _ => addressable (B := B) tag
  | Write tag _ _ p => addressable (B := B) tag /\ page_fits (B := B) p
  | Prefetch file block m => forall i, (i < m)%nat -> addressable (B := B) (MkTag file (u64 (block + Z.of_nat i)))
  | CleanerFlush f => 0 <= f < n
  | _ => True
  end.

(** Any page may be cached. *)
#[local] Instance any_page : Scope := addressable (B := B).

Context (K : config).
Local Abbreviation N := (pool_size K).

Context (Hz : page_fits (B := B) (zero_page (geometry K))).

Lemma request_refines V q k :
  calm_state K V k -> request_ok N q ->
  wp (run_request q) (fun a k' => exists V', store_step V q a V' (contents (disk k')) /\ calm_state K V' k') k.
Proof.
  intros Hk Hq. destruct q; cbn [run_request request_ok] in *.
  - eapply wp_seq; [by apply (read_page_spec K V)|]. intros r k' [? ?]. by exists V.
  - eapply wp_seq; [apply (write_page_spec K V); tauto|]. intros s k' ?. by eexists.
  - eapply wp_seq; [by apply (flush_buffer_spec K V)|]. intros s k' [? Hs]. exists V. split; [|done]. split; [done|]. intros ? t ->. auto.
  - eapply wp_seq; [by apply (flush_file_spec K V)|]. intros s k' [? Hs]. exists V. split; [|done]. split; [done|]. intros ? t Ht. auto.
  - eapply wp_seq; [by apply (flush_all_spec K V)|]. intros s k' [? Hs]. exists V. split; [|done]. split; [done|]. intros Hv. by destruct (Hs Hv).
  - eapply wp_seq; [by apply (checkpoint_spec K V)|]. intros s k' ?. by exists V.
  - eapply wp_seq; [by apply (sync_file_spec K V)|]. intros s k' [? _]. by exists V.
  - eapply wp_seq; [by apply (prefetch_spec K V)|]. intros s k' ?. by exists V.
  - eapply wp_seq; [by apply (drop_spec K V)|]. intros s k' (V' & ? & ? & ? & Hs). exists V'. split; [|done]. split_and!; try done. intros Hv. by destruct (Hs Hv).
  - eapply wp_seq; [by apply (cleaner_flush_spec K V)|]. intros [] k' ?. by exists V.
  - eapply wp_seq; [by apply (worker_spec K V)|]. intros b k' ?. by exists V.
  - eapply wp_seq; [by apply (load_spec K V)|]. intros b k' ?. by exists V.
Qed.

Lemma requests_refine qs V k :
  calm_state K V k -> Forall (request_ok N) qs ->
  wp (run_requests qs) (fun l k' => exists V', store_run V qs l V' /\ calm_state K V' k') k.
Proof.
  revert V k. induction qs as [|q qs IH]; intros V k Hk Hqs; cbn [run_requests]; [by exists V|].
  apply list.Forall_cons in Hqs as [Hq Hqs]. eapply wp_seq; [by apply request_refines|]. intros a k1 (V1 & Hs & Hk1).
  apply wp_get. eapply wp_seq; [by apply IH|]. intros l k2 (V2 & Hl & Hk2). cbn [wp ret].
  exists V2. split; [|done]. by exists V1.
Qed.

End Refine.

(** ** What the words of a run look like *)

Section Typed.
Context {T F R B : Type} `{FrameTableLaws T} `{FreeFramesLaws F} `{ReplacerLaws R} `{BackendLaws B}.
Local Abbreviation kernel := (kernel T F R B).

(** Frames whose dirty bit is set. *)
Definition dirty_frames (k : kernel) : list Z := filter (fun f => IsDirty (control (desc k f)) = true) (frame_ids k).

(** A control word has a state that is an enumerator and is what its fields
    encode; a free or loading frame carries no dirty or writeback bit, a page
    under writeback is dirty; the packed error decodes; the count is exact. *)
Definition state_typed (k : kernel) : Prop :=
  (forall f, f ∈ frame_ids k ->
     (exists c, decode (control (desc k f)) = Some c /\ encode c = control (desc k f) /\ is_u32 (encode c) /\
        (c_state c <> kResident -> c_dirty c = false /\ c_writeback c = false) /\
        (c_writeback c = true -> c_dirty c = true)) /\
     is_Some (UnpackWritebackError (last_writeback_error (desc k f)))) /\
  dirty_page_count k = Z.of_nat (length (dirty_frames k)).

Lemma sum_dirty_frames (k : kernel) (G : Z -> ginfo) l :
  (forall f, f ∈ l -> IsDirty (control (desc k f)) = c_dirty (g_ctl (G f))) ->
  foldr (fun f s => b2z (c_dirty (g_ctl (G f))) + s) 0 l =
  Z.of_nat (length (filter (fun f => IsDirty (control (desc k f)) = true) l)).
Proof.
  induction l as [|f l IH]; intros Hl; [done|]. cbn [foldr]. rewrite IH by (intros; apply Hl; by right). rewrite filter_cons.
  rewrite <- (Hl f) by by left. destruct (decide (IsDirty (control (desc k f)) = true)) as [E|E].
  - rewrite E. cbn [b2z length]. lia.
  - apply not_true_is_false in E. rewrite E. done.
Qed.

Lemma calm_typed {SC : Scope} K V (k : kernel) : calm_state K V k -> state_typed k.
Proof.
  intros (G & HS & Hc). pose proof (st_cfg _ _ _ _ _ HS) as Ek.
  assert (forall f, f ∈ frame_ids k -> 0 <= f < pool_size K) as Hin.
  { intros f. unfold frame_ids. rewrite Ek, elem_of_seqZ. lia. }
  split.
  - intros f Hf%Hin. pose proof (st_frame _ _ _ _ _ _ HS Hf) as Fo. destruct (word_fields K V G [] k f HS Hf) as (w & Ew & Hok).
    split; [|apply Fo]. exists (set_waiters w (g_ctl (G f))). rewrite Ew. split; [by apply decode_encode|]. split; [done|].
    split; [by apply encode_range|]. change (c_state (set_waiters w (g_ctl (G f)))) with (g_state (G f)).
    change (c_dirty (set_waiters w (g_ctl (G f)))) with (c_dirty (g_ctl (G f))).
    change (c_writeback (set_waiters w (g_ctl (G f)))) with (c_writeback (g_ctl (G f))).
    destruct (g_state (G f)) eqn:Es.
    + destruct (fo_free _ _ _ _ _ _ Fo Es) as (-> & -> & _). done.
    + destruct (fo_loading _ _ _ _ _ _ Fo Es) as (-> & -> & _). done.
    + destruct (fo_resident _ _ _ _ _ _ Fo Es) as (_ & _ & _ & _ & ?). done.
  - rewrite (i_dirty _ _ _ _ (st_inv _ _ _ _ _ HS)). unfold nframes, dirty_frames, frame_ids, sum_dirty. apply sum_dirty_frames.
    intros f Hf. by apply (word_dirty K V G []), Hin.
Qed.
End Typed.

(** ** From creation on *)

Section Created.
Context {R B : Type} `{ReplacerLaws R} `{BackendLaws B}.
Local Abbreviation kernel := (kernel page_table free_list R B).

#[local] Existing Instance any_page.

(** A manager that [Create] returned, over a backend with blocks of its page size. *)
Definition created_for (p : platform) (o : BufferManagerOptions) (c : DiskBackendCapabilities) (b : B) (r : R) (k : kernel) : Prop :=
  created_with p o c b r k /\ page_fits (B := B) (zero_page (geometry (cfg k))).

Lemma created_run p o c b r (k : kernel) qs :
  created_for p o c b r k -> Forall (request_ok (opt_pool_size o)) qs ->
  wp (run_requests qs) (fun l k' => exists V', store_run (contents b) qs l V' /\ calm_state (cfg k) V' k') k.
Proof. intros [(Hk & <- & _)%(create_calm p o c b r k) Hz] Hqs; [|done]. by apply requests_refine. Qed.

(** C1 — The buffer manager refines a page store: on a manager that [Create]
    returned, every sequence of reads, writes, flushes of a page, a file or
    everything, checkpoints, syncs, prefetches and drops, interleaved with rounds of the cleaner, of
    the flush workers and of reads in flight, answers as the store does.  A read
    that succeeds returns what the last successful write of the page stored, or
    what was on disk; a write that fails changes no page; a flush that succeeds
    leaves its pages on disk with these contents; a drop touches no page outside
    its range. *)
Theorem manager_refines_store p o c b r (k : kernel) qs l k' :
  created_for p o c b r k -> Forall (request_ok (opt_pool_size o)) qs ->
  run_requests qs k = Some (l, k') -> exists V', store_run (contents b) qs l V'.
Proof.
  intros Hk Hqs E. pose proof (created_run p o c b r k qs Hk Hqs) as Hw. unfold wp in Hw. rewrite E in Hw.
  destruct Hw as (V' & ? & _). by exists V'.
Qed.

(** C2 — Every request returns: with a policy that never misses an evictable
    frame, no read, write, flush or checkpoint blocks or spins for ever, whatever
    the disk answers and whatever is dirty, queued or being read. *)
Theorem requests_return p o c b r (k : kernel) qs :
  created_for p o c b r k -> Forall (request_ok (opt_pool_size o)) qs -> steady_policy (R := R) ->
  exists l k', run_requests qs k = Some (l, k').
Proof.
  intros Hk Hqs Hst. pose proof (created_run p o c b r k qs Hk Hqs) as Hw. unfold wp in Hw.
  destruct (run_requests qs k) as [[l k']|]; [by exists l, k'|done].
Qed.

(** C3 — The types of the descriptors hold after every run: each control word has
    a valid state and the value its fields encode, free and loading frames are
    neither dirty nor under writeback, a page under writeback is dirty, the last
    writeback error decodes, and the dirty-page count is the number of frames
    whose dirty bit is set. *)
Theorem run_keeps_types p o c b r (k : kernel) qs l k' :
  created_for p o c b r k -> Forall (request_ok (opt_pool_size o)) qs ->
  run_requests qs k = Some (l, k') -> state_typed k'.
Proof.
  intros Hk Hqs E. pose proof (created_run p o c b r k qs Hk Hqs) as Hw. unfold wp in Hw. rewrite E in Hw.
  destruct Hw as (V' & _ & Hc). by eapply calm_typed.
Qed.

(** C4 — Closing loses nothing: [Close] after any such sequence returns, and when
    it reports success the manager is closed and every page is on disk as the last
    successful write left it; when it reports an error the manager is still open
    and serves every further sequence of requests as the page store.  The I/O engine
    has not failed: [KernelClose.close_failed] is about a manager whose engine has. *)
Theorem close_stores_everything p o c b r (k : kernel) qs l k1 :
  created_for p o c b r k -> Forall (request_ok (opt_pool_size o)) qs -> steady_policy (R := R) ->
  run_requests qs k = Some (l, k1) ->
  exists V s k2, store_run (contents b) qs l V /\ Close k1 = Some (s, k2) /\
    if has_value s then closed k2 = true /\ forall t, contents (disk k2) t = V t
    else closed k2 = false /\ failed k2 = false /\
      forall qs' l' k3, Forall (request_ok (opt_pool_size o)) qs' -> run_requests qs' k2 = Some (l', k3) ->
        exists V', store_run V qs' l' V'.
Proof.
  intros Hk Hqs Hst E. pose proof (created_run p o c b r k qs Hk Hqs) as Hw. unfold wp in Hw. rewrite E in Hw.
  destruct Hw as (V & Hrun & Hc). destruct (create_calm _ _ _ _ _ _ ltac:(done) (proj1 Hk)) as (_ & En & _).
  pose proof (close_spec (cfg k) V k1 Hc) as Hcl. unfold wp in Hcl. destruct (Close k1) as [[s k2]|]; [|done].
  exists V, s, k2. split; [done|]. split; [done|]. destruct s as [[]|e]; cbn [has_value]; [done|].
  split; [by destruct Hcl as (G & (_ & _ & ? & _) & _)|]. split; [by destruct Hcl as (G & (_ & ? & _) & _)|].
  intros qs' l' k3 Hqs' E'. rewrite <- En in Hqs'. pose proof (requests_refine (cfg k) (proj2 Hk) qs' V k2 Hcl Hqs') as Hw'.
  unfold wp in Hw'. rewrite E' in Hw'. destruct Hw' as (V' & ? & _). by exists V'.
Qed.
End Created.

(** ** A run: two frames, SIEVE, a disk whose second request fails *)

Definition small_options : BufferManagerOptions := Options 2 4096 0 0 0 0 true 0 0 kQueuedWriteback None.
Definition small_platform : platform := Platform 8 (Some (fun _ => [])) true true true.
Definition small_backend : DiskBackendCapabilities := Capabilities 4 1 0.
Definition small_disk : ram_disk := RamDisk (fun t => [Byte.x01]) 0 (fun n => (n =? 1)%nat).
Definition small_manager : Result (kernel page_table free_list sieve ram_disk) :=
  CreateManager small_platform small_options small_backend (Some small_disk) (Some (MakeSieve 2)).
Definition small_run : list request :=
  [Write (MkTag 1 0) None kNormal [Byte.x0a]; Write (MkTag 1 1) None kNormal [Byte.x0b];
   Write (MkTag 1 2) None kZeroAndLock [Byte.x0c]; CleanerFlush 0; Read (MkTag 1 0) None; WorkerRound; Read (MkTag 1 1) None; Flush;
   Write (MkTag 1 3) None kZeroAndLock [Byte.x0d]; Prefetch 1 0 2; LoadDone; Read (MkTag 1 1) None; Read (MkTag 1 2) None;
   Write (MkTag 1 2) None kNormal [Byte.x0e]; Drop 1 2; Read (MkTag 1 2) None].

(** The answers: the second write fails with the read it needs; dirty pages are
    evicted on the way and read back. *)
Example small_answers :
  match small_manager with
  | Ok k => (fun r => r.1.*1) <$> run_requests small_run k
  | Err _ => None
  end = Some [Done (Ok tt); Done (IoError "read failed" 5); Done (Ok tt); Background; Page (Ok [Byte.x0a]); Background;
              Page (Ok [Byte.x01]); Done (Ok tt); Done (Ok tt); Done (Ok tt); Background; Page (Ok [Byte.x01]); Page (Ok [Byte.x0c]);
              Done (Ok tt); Done (Ok tt); Page (Ok [Byte.x0c])].
Proof. vm_compute. reflexivity. Qed.

Lemma small_created k : small_manager = Ok k -> created_for small_platform small_options small_backend small_disk (MakeSieve 2) k.
Proof.
  intros E. split; [|done]. split; [repeat split; vm_compute; congruence|]. split; [done|]. split; [done|]. split; [|done].
  exists []. by apply make_sieve_rep.
Qed.

Lemma small_requests_ok : Forall (request_ok 2) small_run.
Proof. unfold small_run. repeat constructor; cbn; lia. Qed.

Lemma manager_refines_store_witness :
  exists k l k' V', small_manager = Ok k /\ run_requests small_run k = Some (l, k') /\ store_run (ram small_disk) small_run l V'.
Proof.
  assert (match small_manager with Ok k => bool_decide (is_Some (run_requests small_run k)) | Err _ => false end = true) as E by (vm_compute; reflexivity).
  destruct small_manager as [k|] eqn:Em; [|discriminate]. apply bool_decide_eq_true in E as [[l k'] El].
  destruct (manager_refines_store _ _ _ _ _ k small_run l k' (small_created k Em) small_requests_ok El) as [V' HV].
  exists k, l, k', V'. split; [reflexivity|]. split; [exact El|exact HV].
Defined.

Lemma requests_return_witness :
  exists k l k', small_manager = Ok k /\ run_requests small_run k = Some (l, k').
Proof.
  assert (match small_manager with Ok _ => true | Err _ => false end = true) as E by (vm_compute; reflexivity).
  destruct small_manager as [k|] eqn:Em; [|discriminate].
  destruct (requests_return _ _ _ _ _ k small_run (small_created k Em) small_requests_ok) as (l & k' & El); [intros s _; exact I|].
  exists k, l, k'. split; [reflexivity|exact El].
Defined.

Lemma run_keeps_types_witness :
  exists k l k', small_manager = Ok k /\ run_requests small_run k = Some (l, k') /\ state_typed k'.
Proof.
  assert (match small_manager with Ok k => bool_decide (is_Some (run_requests small_run k)) | Err _ => false end = true) as E by (vm_compute; reflexivity).
  destruct small_manager as [k|] eqn:Em; [|discriminate]. apply bool_decide_eq_true in E as [[l k'] El].
  pose proof (run_keeps_types _ _ _ _ _ k small_run l k' (small_created k Em) small_requests_ok El) as Ht.
  exists k, l, k'. split; [reflexivity|]. split; [exact El|exact Ht].
Defined.

Lemma close_stores_everything_witness :
  exists k l k1 V s k2, small_manager = Ok k /\ run_requests small_run k = Some (l, k1) /\ Close k1 = Some (s, k2) /\
    has_value s = true /\ closed k2 = true /\ forall t, ram (disk k2) t = V t.
Proof.
  assert (match small_manager with
          | Ok k => match run_requests small_run k with
                    | Some (_, k1) => match Close k1 with Some (s, _) => has_value s | None => false end
                    | None => false
                    end
          | Err _ => false
          end = true) as E by (vm_compute; reflexivity).
  destruct small_manager as [k|] eqn:Em; [|discriminate]. destruct (run_requests small_run k) as [[l k1]|] eqn:El; [|discriminate].
  destruct (close_stores_everything _ _ _ _ _ k small_run l k1 (small_created k Em) small_requests_ok ltac:(intros s _; exact I) El)
    as (V & s & k2 & _ & Ec & Hs).
  rewrite Ec in E. rewrite E in Hs. destruct Hs as [H1 H2]. exists k, l, k1, V, s, k2.
  split; [reflexivity|]. split; [exact El|]. split; [exact Ec|]. split; [exact E|]. split; [exact H1|exact H2].
Defined.
