(* ===== verification/KernelObserve.v ===== *)
(** What the buffer manager shows of itself: [ExportSnapshot], and the callback of
    [StartObservation] that collects what the observation area publishes, both
    taken between requests. *)
From stdpp Require Import strings.
From S2P Require Import Prelude Status CasLoop FrameControl Layout FreeList PageTable Replacer FlushScheduler.
From S2P Require Import Cleaner Interfaces Kernel Manager AsyncRead KernelInv KernelOps KernelFlush Sieve.
From S2P Require Import KernelClient KernelClose Lifecycle KernelStart KernelRefine.
From S2P Require Import Telemetry Observation ObservationWords.

Record FrameSnapshot := MkFrameSnapshot {
  fs_frame_id : Z; fs_state : Z; fs_tag : BufferTag; fs_pin_count : Z; fs_dirty_generation : Z;
  fs_is_valid : bool; fs_is_dirty : bool; fs_io_in_flight : bool; fs_flush_queued : bool; fs_flush_in_flight : bool; fs_rec_lsn : Z
}.

Record BufferPoolSnapshot := MkPoolSnapshot {
  ps_pool_size : Z; ps_page_size : Z; ps_dirty_page_count : Z; ps_flush_queued_count : Z; ps_flush_in_flight_count : Z; ps_frames : list FrameSnapshot
}.

Section Observe.
Context {T F R B : Type}.
Local Abbreviation kernel := (kernel T F R B).

Definition frame_snapshot (f : Z) (d : descriptor) : FrameSnapshot :=
  let word := control d in
  MkFrameSnapshot f (State word) (d_tag d) (Pins word) (version d) (IsResident word) (IsDirty word) (StateIs word kLoading)
    (any_bit word kWritebackQueued) (any_bit word kWritebackActive) (FrameRecLsn d).

(** One turn of the loop: the counts and the frames so far. *)
Definition export_frame (k : kernel) (s : BufferPoolSnapshot) (f : Z) : BufferPoolSnapshot :=
  let x := frame_snapshot f (desc k f) in
  MkPoolSnapshot (ps_pool_size s) (ps_page_size s) (ps_dirty_page_count s)
    (if fs_flush_queued x then u64 (ps_flush_queued_count s + 1) else ps_flush_queued_count s)
    (if fs_flush_in_flight x then u64 (ps_flush_in_flight_count s + 1) else ps_flush_in_flight_count s) (ps_frames s ++ [x]).

Definition ExportSnapshot (k : kernel) : BufferPoolSnapshot :=
  foldl (export_frame k) (MkPoolSnapshot (pool_size (cfg k)) (block_size (geometry (cfg k))) (dirty_page_count k) 0 0 []) (frame_ids k).

(** What the callbacks of [StartObservation] see of each frame and of the pool. *)
Definition frame_view_of (d : descriptor) : frame_view := FrameView (control d) (d_tag d) (version d).
Definition observe (now : Z) (counters : TelemetrySnapshot) (k : kernel) : job :=
  Job now counters ((fun f => frame_view_of (desc k f)) <$> frame_ids k) (dirty_page_count k) (default kInvalidLsn (MinRecLsn k)).

(** ** Counts *)

Lemma export_fold (k : kernel) l s :
  is_u64 (ps_flush_queued_count s) -> is_u64 (ps_flush_in_flight_count s) ->
  foldl (export_frame k) s l =
  let xs := (fun f => frame_snapshot f (desc k f)) <$> l in
  MkPoolSnapshot (ps_pool_size s) (ps_page_size s) (ps_dirty_page_count s)
    (u64 (ps_flush_queued_count s + Z.of_nat (length (filter (fun x => fs_flush_queued x = true) xs))))
    (u64 (ps_flush_in_flight_count s + Z.of_nat (length (filter (fun x => fs_flush_in_flight x = true) xs)))) (ps_frames s ++ xs).
Proof.
  revert s. induction l as [|f l IH]; intros s Hq Ha.
  { cbn. rewrite !Z.add_0_r, !u64_small, app_nil_r by done. by destruct s. }
  cbn [foldl]. rewrite IH; [|cbn; by destruct (any_bit _ _); [apply u64_range|]..]. cbn [fmap list_fmap]. cbn zeta.
  rewrite !filter_cons. cbn [export_frame ps_pool_size ps_page_size ps_dirty_page_count ps_flush_queued_count ps_flush_in_flight_count ps_frames].
  rewrite <- app_assoc. f_equal.
  - destruct (fs_flush_queued _); [|done]. cbn [decide decide_rel]. unfold u64. rewrite decide_True by done. rewrite Zplus_mod_idemp_l. f_equal. cbn [length]. lia.
  - destruct (fs_flush_in_flight _); [|done]. unfold u64. rewrite decide_True by done. rewrite Zplus_mod_idemp_l. f_equal. cbn [length]. lia.
Qed.
End Observe.

Lemma marks_state w k : (k < 3)%nat -> k ∈ frame_marks w <-> State w = Z.of_nat k.
Proof.
  intros Hk. unfold frame_marks, StateIs. cbn [state_value]. destruct (Z.eqb_spec (State w) 0) as [E|E]; [|destruct (Z.eqb_spec (State w) 1) as [E1|E1]; [|destruct (Z.eqb_spec (State w) 2) as [E2|E2]]];
    rewrite !elem_of_app; repeat match goal with |- context [if ?b then _ else _] => destruct b end;
    rewrite ?list_elem_of_singleton, ?elem_of_nil; lia.
Qed.

Lemma marks_dirty w : 3%nat ∈ frame_marks w <-> IsDirty w = true.
Proof.
  unfold frame_marks. rewrite !elem_of_app. destruct (IsDirty w); repeat match goal with |- context [if ?b then _ else _] => destruct b end;
    rewrite ?list_elem_of_singleton, ?elem_of_nil; naive_solver lia.
Qed.

Lemma marked_states views :
  (forall v, v ∈ views -> 0 <= State (fv_word v) <= 2) -> marked 0 views + marked 1 views + marked 2 views = Z.of_nat (length views).
Proof.
  induction views as [|v views IH]; intros Hv; [done|]. specialize (IH ltac:(intros; apply Hv; by right)). specialize (Hv v ltac:(by left)).
  unfold marked in *. rewrite !filter_cons. destruct (decide (0%nat ∈ _)) as [D0|D0], (decide (1%nat ∈ _)) as [D1|D1], (decide (2%nat ∈ _)) as [D2|D2];
    rewrite marks_state in D0, D1, D2 by lia; cbn [length]; lia.
Qed.

Lemma length_filter_map {A C} (f : A -> C) (P : C -> Prop) (Q : A -> Prop) `{!forall x, Decision (P x)} `{!forall x, Decision (Q x)} l :
  (forall x, P (f x) <-> Q x) -> length (filter P (f <$> l)) = length (filter Q l).
Proof.
  intros Hpq. induction l as [|x l IH]; [done|]. cbn [fmap list_fmap]. rewrite !filter_cons. destruct (decide (P (f x))) as [D|D], (decide (Q x)) as [D'|D'];
    [cbn [length]; by f_equal|by apply Hpq in D|by apply Hpq in D'|exact IH].
Qed.

Lemma count_u64 {A} (P : A -> Prop) `{!forall x, Decision (P x)} (l : list A) :
  Z.of_nat (length l) <= 2 ^ 31 -> u64 (Z.of_nat (length (filter P l))) = Z.of_nat (length (filter P l)).
Proof. intros Hl. apply u64_small. pose proof (length_filter P l). unfold is_u64, u64_mod. lia. Qed.

Section Created.
Context {R B : Type} `{ReplacerLaws R} `{BackendLaws B}.
Local Abbreviation kernel := (kernel page_table free_list R B).

(** C18 — What a manager that [Create] returned publishes after any sequence of
    requests describes its pool: in the words of the observation area, whatever
    they held before, the counts of free, loading and resident frames add up to the
    pool, and the count of dirty frames is the dirty-page counter beside it; the
    exported snapshot has a record of each frame, and its counts are those of its
    records. *)
Theorem observation_describes_pool p o c b r (k : kernel) qs l k' pid now counters ws :
  created_for p o c b r k -> Forall (request_ok (opt_pool_size o)) qs -> run_requests qs k = Some (l, k') ->
  length ws = header_words (Z.to_nat (opt_pool_size o)) ->
  let published := apply_stores ws (header_stores pid (observe now counters k')) in
  let snapshot := ExportSnapshot k' in
  (exists free loading resident, published !! 2%nat = Some free /\ published !! 3%nat = Some loading /\ published !! 4%nat = Some resident /\
     free + loading + resident = opt_pool_size o) /\
  published !! 5%nat = Some (dirty_page_count k') /\ published !! kDirtyPageCount = Some (dirty_page_count k') /\
  Z.of_nat (length (ps_frames snapshot)) = opt_pool_size o /\
  ps_dirty_page_count snapshot = Z.of_nat (length (filter (fun x => fs_is_dirty x = true) (ps_frames snapshot))) /\
  ps_flush_queued_count snapshot = Z.of_nat (length (filter (fun x => fs_flush_queued x = true) (ps_frames snapshot))) /\
  ps_flush_in_flight_count snapshot = Z.of_nat (length (filter (fun x => fs_flush_in_flight x = true) (ps_frames snapshot))).
Proof.
  intros Hk Hqs E Hw. pose proof (created_run p o c b r k qs Hk Hqs) as Hrun. unfold wp in Hrun. rewrite E in Hrun. destruct Hrun as (V' & _ & Hcalm).
  assert (pool_size (cfg k') = opt_pool_size o /\ 0 <= opt_pool_size o <= 2 ^ 31) as [Ep Hb].
  { destruct Hk as [Hc _]. destruct (create_calm p o c b r k ltac:(done) Hc) as (_ & En & _). destruct Hcalm as (G & HS & _). rewrite (st_cfg _ _ _ _ _ HS), En.
    destruct Hc as ([Hu _] & _ & Hm & _). unfold is_u64 in Hu. lia. }
  apply calm_typed in Hcalm. destruct Hcalm as [Hf Hd].
  cbn zeta. set (views := (fun f => frame_view_of (desc k' f)) <$> frame_ids k').
  assert (length (frame_ids k') = Z.to_nat (opt_pool_size o)) as Hn by (unfold frame_ids; rewrite length_seqZ, Ep; lia).
  assert (length views = Z.to_nat (opt_pool_size o)) as Hv by (unfold views; by rewrite length_fmap).
  assert (Z.of_nat (length views) <= 2 ^ 31) as Hv31 by lia.
  assert (marked 3 views = dirty_page_count k') as H3.
  { rewrite Hd. unfold marked, views, dirty_frames. f_equal. apply length_filter_map. intros f. apply marks_dirty. }
  assert (forall i, u64 (marked i views) = marked i views) as Hm by (intros i; by apply count_u64).
  rewrite header_stores_apply by (cbn [observe j_views]; fold views; by rewrite Hv). unfold snapshot_words. cbn [observe j_views j_dirty_page_count]. fold views.
  unfold summary_of. cbn [seq fmap list_fmap app]. rewrite !Hm. split.
  { exists (marked 0 views), (marked 1 views), (marked 2 views). split; [done|]. split; [done|]. split; [done|]. rewrite marked_states; [lia|].
    intros v (f & -> & Hin)%list_elem_of_fmap. destruct (Hf f Hin) as [(ct & Hdec & _) _]. cbn. unfold decode in Hdec.
    destruct (Z.eqb_spec (State (control (desc k' f))) 0); [lia|]. destruct (Z.eqb_spec (State (control (desc k' f))) 1); [lia|].
    destruct (Z.eqb_spec (State (control (desc k' f))) 2); [lia|done]. }
  split; [cbn [lookup list_lookup]; by rewrite H3|]. split; [done|].
  unfold ExportSnapshot. rewrite export_fold by done. cbn [ps_frames ps_dirty_page_count ps_flush_queued_count ps_flush_in_flight_count app].
  rewrite !Z.add_0_l, length_fmap, !count_u64 by (rewrite length_fmap; lia). split; [lia|]. split; [|done].
  rewrite Hd. unfold dirty_frames. f_equal. symmetry. by apply length_filter_map.
Qed.
End Created.

(** ** A run *)

Lemma observation_describes_pool_witness :
  exists k l k', small_manager = Ok k /\ run_requests small_run k = Some (l, k') /\
    apply_stores (replicate 27 0) (header_stores 100 (observe 5 (fun _ => 0) k')) !! 5%nat = Some (dirty_page_count k') /\
    length (ps_frames (ExportSnapshot k')) = 2%nat.
Proof.
  assert (match small_manager with Ok k => bool_decide (is_Some (run_requests small_run k)) | Err _ => false end = true) as E by (vm_compute; reflexivity).
  destruct small_manager as [k|] eqn:Em; [|discriminate]. apply bool_decide_eq_true in E as [[l k'] El].
  destruct (observation_describes_pool _ _ _ _ _ k small_run l k' 100 5 (fun _ => 0) (replicate 27 0) (small_created k Em) small_requests_ok El ltac:(reflexivity))
    as (_ & Hd & _ & Hn & _).
  exists k, l, k'. split; [reflexivity|]. split; [exact El|]. split; [exact Hd|]. cbn [small_options opt_pool_size] in Hn. lia.
Defined.
